(* ===== verification/_CoqProject ===== *)
-Q . S2P
Prelude.v
PyData.v
JsonText.v
JsonRead.v
Lifecycle.v
PlanData.v
PlanLogic.v
EventMonad.v
FileLock.v
Permissions.v
AutoFix.v
ApprovalGate.v
TrustedPlan.v
ContractTrust.v
GitPins.v
Regex.v
Shlex.v
ExecContext.v
CommandValidators.v
CommandParser.v
WriteGuard.v
CommandGate.v
ParserSpec.v
GateSafety.v
AgentInputs.v
Evidence.v
CompletionGate.v
CommitTrailers.v
RepoRef.v
TaskBranch.v
Recovery.v
Scheduler.v
ParallelRunner.v
MergePolicy.v
PrGate.v
PrEndgame.v
PrContext.v
GateReads.v
MergeSafety.v
MergeConflicts.v
JobStore.v
TaskControl.v
Admission.v
AuditChain.v
TokenPool.v
Outbox.v
ScimFilter.v
ReviewCycle.v
ReviewRedrive.v
SelfHeal.v
RateLimiter.v
Budget.v
Routing.v
Providers.v
Difflib.v
QaReport.v
QaLoop.v
