(* ===== verification/Prelude.v ===== *)
(** * AIFactory: a verification library of the control logic

    AIFactory drives coding agents through a plan, reviews and merges what they produce,
    and runs those builds as jobs of a web server.  This library models the deterministic
    core of that system, the Python code that decides what runs, what may be called done
    and what may be merged; the language models, git, the cluster and the user interface
    around it are hooks of the model or are left out.

    ** The parts and how they interact

    A build follows an implementation plan: phases of subtasks. The scheduler picks from a
    phase the subtasks that may run together, the parallel runner runs such waves until the
    phase is done, each subtask passing the completion gate, and the self-heal loop wraps
    one unit of work in checkpoint, attempts and rollback, while the recovery manager
    remembers what was tried. Before a build starts, the approval gate asks that a human
    approved exactly this specification and plan, or that the plan came signed: a trusted
    plan carries the signature of an authority, which the server stores, verifies again and
    hands to the build as a digest. The providers decide which runtime a role may use, the
    budget gate what it may cost.

    A finished change goes through the QA loop (reviewer and fixer turns with provider
    failover), a QA review cycle with its re-drive, and the report.  The PR endgame then
    opens a pull request, watches the review, asks TFactory for its verdict and GitHub for
    its checks, and merges when the merge policy lets it; the task branch, the trailers, the
    repository reference and the pins of git are what it hands to the commands it runs.
    Merge conflict analysis is used when several tasks touched a file.

    While it works, an agent calls tools.  The gate of the tools reads a shell command as a
    tree, collects every command it runs through wrappers and payloads, asks the profile of
    the project for each of them and its validator for its arguments, and the egress policy
    for the hosts; file tools are asked where they write, web tools whom they reach.

    The GitHub runner tracks each issue through its lifecycle and limits its calls; a label
    makes it fix an issue when the user who added it may ask for that, and its processes
    share JSON files under locks. On the server, the agent service starts a build or queues
    it, with the job state store, which holds the concurrency cap across replicas, or in
    memory; its checkpoints record what a build came to in the control state of the task,
    where the approval of a plan is kept too. The credential pool hands builds their
    credentials, the outbox delivers events, the audit log is a hash chain, the SCIM
    endpoint parses filters and the SAML endpoint refuses replayed assertions.

    ** Files

    Source paths are below src/apps/; server/ stands for web-server/server/.

    Shared:
    - Prelude: exceptions and the result monad, boolean reflection, list, sorting and
      string functions of the language, with the lemmas all components share.
    - PyData: JSON values, dictionaries, typed readers and writers, string enumerations
      (class [PyEnum]), and the tactics that compute a read-back.
    - JsonText and JsonRead: json.dumps in its three layouts and json.loads, with the
      proofs that the text decides the value and that a written value reads back.
    - EventMonad: the monad of stateful code that may raise and leaves a trace of events,
      its weakest preconditions, try and except, and what every trace holds ([emits]).
    - Difflib: difflib.SequenceMatcher's ratio.

    Plans and their execution:
    - PlanData, PlanLogic: backend/implementation_plan/ (the records and JSON; then the
      methods of plan.py, Module [Plan], and factories.py, Module [Factories]).
    - Scheduler: backend/implementation_plan/scheduler.py, over any type of subtasks with
      the interface [SubtaskLike]; the plan's items are an instance.
    - ParallelRunner: backend/agents/parallel_runner.py, over the interface
      [TrackedSubtask], which extends [SubtaskLike]; it calls the scheduler.
    - SelfHeal: backend/agents/self_heal.py.  Recovery: backend/services/recovery.py.

    Approval and trust:
    - ApprovalGate: backend/plan_progress.py, review/state.py, run_gates.py,
      security/plan_commands.py and the review flag of server/services/task_phase.py.
    - TrustedPlan: backend/trusted_plan.py.
    - ContractTrust: server/services/trusted_contract_store.py, trusted_contract.py and
      handback_receipt_store.py, backend/core/contract_trust.py and its callers.
    - GitPins: the pins of backend/core/child_env.py, core/git_metadata.py, and the scans
      of security/git_validators.py.

    Tools of the agents (backend/security/):
    - Regex, Shlex: the matcher of Python's re, and shlex with the proof that a joined list
      of words splits into these words.
    - ExecContext: exec_context.py, with the functions of posixpath it calls.
    - CommandValidators: filesystem_, process_, database_ and git_validators.py and
      validator_registry.py.  WriteGuard: the write refusals of filesystem_validators.py.
    - CommandParser: ast_parser.py.  ParserSpec: its theorems.
    - CommandGate: hooks.py, egress.py and the allowed commands of backend/project/.
      GateSafety: the theorems on the gate as a whole.
    - AgentInputs: identifiers.py, tool_input_validator.py, prompt_guard.py.

    Evidence of work (backend/agents/):
    - Evidence: test_evidence.py and the hook of act_loop_hooks.py that feeds it.
    - CompletionGate: completion_gate.py, testing_evidence.py, pipeline_evidence.py, the
      status update of tools_pkg/tools/subtask.py, and the completion of a wave
      (parallel_integration.py, utils.py).

    Quality and merging:
    - QaLoop, QaReport: backend/qa/ loop.py, criteria.py, report.py.
    - ReviewCycle, ReviewRedrive: backend/qa/ review_cycle.py, review_redrive.py.
    - MergePolicy: backend/review_tier.py and merge/merge_policy.py.
    - MergeConflicts: backend/merge/ types.py, compatibility_rules.py, conflict_analysis.py.
    - PrGate, PrEndgame, PrContext: server/services/pr_endgame.py (the reads and the merge
      decision with its gate; opening, watching and merging; the context of a task) and
      tfactory_verdict of backend/pfactory/tfactory_client.py.
    - GateReads, MergeSafety: the theorems on the reads and on the endgame as a whole.
    - TaskBranch: server/services/task_branch.py.  RepoRef: backend/repo_ref.py.
      CommitTrailers: backend/core/commit_trailers.py.

    Providers and cost:
    - Providers: backend/core/runtime_gating.py, core/provider_failover.py,
      providers/factory.py and the provider names of phase_config.py.
    - Budget: backend/core/cost_router_core.py and budget_enforcement.py.
    - Routing: backend/routing_policy.py and the model of a phase in phase_config.py.

    GitHub runner and server:
    - Lifecycle, RateLimiter: backend/runners/github/ lifecycle.py and rate_limiter.py.
    - Permissions: backend/runners/github/permissions.py, over api_get of gh_client.py.
    - AutoFix: services/autofix_processor.py there and the fix states of models.py; it
      calls the checks of Permissions.
    - FileLock: file_lock.py there, as steps of calls that run at once.
    - JobStore: server/services/job_state_store.py on a table of [JobState] rows.
    - Admission: start, queue, exit, stop, restart and reapers of
      server/services/agent_service.py, agent_queue.py and agent_kubejob.py, and the spec
      directories of server/specpath.py.
    - TaskControl: server/services/task_control.py, task_phase.py, stale_tasks.py and the
      status checkpoint of agent_service.py.
    - Outbox: server/services/outbox.py.  AuditChain: server/services/audit_chain.py.
    - TokenPool: server/services/claude_token_pool.py (Module [Pool]) and
      server/saml/replay_cache.py (Module [ReplayCache]).
    - ScimFilter: server/scim/filters.py.

    ** What the theorems show

    - Merging without a human: every merge command of a watch is pinned to one commit and
      preceded, since the last wait, by every piece of evidence the policy asks for, all of
      it about that commit ([merge_is_backed]); what those reads promise when they say yes
      ([approval_is_of_the_head], [green_host_is_green], [green_required_is_green],
      [verdict_is_of_the_head]); the watch ends ([watch_is_bounded]); recorded signals only
      hold back ([recorded_signals_only_tighten]); the decision itself ([auto_merge_iff]).
    - Trust: a signature binds the plan up to the order of keys ([signature_binds_the_plan],
      [signed_plan_verifies]), ingestion is all or nothing ([ingestion_is_guarded]), the
      server verifies only what is signed, stored and isolated
      ([verified_contract_is_signed], [unisolated_build_stays_untrusted]) and the build
      trusts no more than the server ([build_follows_the_server]); an approval is of the
      content that runs ([approval_binds_content], [engine_keeps_approval]).
    - Jobs: the cap holds over every sequence of operations, up to the revivals of
      finished rows, which are counted ([cap_never_exceeded]); no job starts twice
      ([jobs_start_once]); draining is in order and fills the free slots
      ([drain_is_fair_and_full]).  In the service every slot the store granted is settled,
      by a start or by freeing it, also when parts fail ([granted_slots_are_settled]);
      without a store the cap still holds ([memory_cap_holds]) and the queue is served in
      order ([memory_queue_is_served]); the reapers leave a build alone unless it is known
      to be over ([reaper_spares_live_builds]).
    - Tasks: the control state shows an approval exactly as the log of approvals says
      ([plan_approval_follows_log]), a checkpoint records before it reports
      ([checkpoint_records_status]), progress stays in its range ([progress_is_bounded]).
    - Scheduling: a wave respects dependencies, file conflicts and the worker bound
      ([wave_is_safe]) and idles no worker it could use ([wave_is_maximal]); dependency
      validation terminates and is exact ([validation_finds_every_fault]).
    - Running: the wave loop ends ([parallel_phase_terminates]), a completed subtask passed
      its session, its merge and its gate after its dependencies ([completion_is_earned]);
      bounded self-healing ([self_heal_policy]); the recovery files refine the log of what
      was tried ([history_refines_log]).
    - Evidence: the ledger read for a subtask holds the runs of its own window
      ([evidence_is_of_the_subtask]); in every build a subtask is marked completed only when
      it passed its checks, and one about tests only after a test run of its own that did
      not fail ([completions_are_evidenced]); the waves ask the same gate
      ([waves_ask_the_gate]); an update changes one record ([updates_change_one_record]).
    - QA: an approval was given by the reviewer in this run or by a human where one is
      asked for ([qa_verdict_is_earned]); the loop ends ([qa_loop_is_bounded]); cycles are
      numbered, engaged before they are resolved, and resolved once ([review_obligation]).
    - Plans: loading what was saved ([plan_load_after_save]), the choice of the next
      subtask, status settlement, follow-up phases, progress.
    - git: drift of the metadata is detected exactly ([metadata_drift_is_detected]),
      programs of the repository are neutralised ([pins_neutralise_programs]), refused
      arguments ([accepted_git_is_harmless]), the branch that is merged is not the base
      ([work_ref_is_not_the_base]).
    - Commands of agents: a call that passes was read in full, and each command its words
      run, through wrappers and payloads, is allowed and passed its validator
      ([accepted_commands_are_recorded], [allowed_bash_calls_are_checked]) on the argument
      vector that runs ([segments_read_back]); deletions and changes of mode stay in the
      worktree ([allowed_deletions_stay_inside], [escape_test_follows_the_walk]), signals go
      to single processes ([allowed_signals_have_one_target]), writes miss git metadata and
      the source project ([accepted_writes_are_unprotected]); nesting is bounded
      ([nesting_is_bounded]).  Untrusted text stays in its block
      ([untrusted_text_stays_inside]), names of specifications are one path segment
      ([spec_names_are_one_segment]).
    - Providers and cost: only an enabled runtime is built ([built_provider_was_enabled]),
      governed work is never degraded ([budget_gate_is_safe]), no route goes below the
      difficulty of a task ([routes_respect_the_floor]), the catalog decides nothing unless
      it is switched on ([shadow_changes_nothing]), the betas are those of the model that
      was chosen ([betas_follow_the_model]), a contract's route is stamped
      ([contract_routes_are_stamped]).
    - The GitHub runner: an automation runs for the user who added its label last, with a
      role that GitHub's answers bear out ([automation_is_authorised]); no fix is started
      and no issue reported otherwise ([fixing_is_authorised],
      [reported_issues_are_authorised]); a completed fix was reviewed
      ([completion_follows_review]); the index follows the saves ([index_follows_saves]);
      locked calls take effect one after another while no lock file is removed in use
      ([calls_are_serialised]), and each returns ([every_call_returns]).
    - Issues, events, security: the log of a lifecycle is a path of the transition table;
      calls stay within the rate ([bucket_enforces_rate]); an event is delivered or still
      queued ([outbox_at_least_once]); a changed audit log is detected up to a hash
      collision ([tampering_is_detected]); the SCIM parser equals its grammar
      ([scim_parse_spec]).

    Lemmas with a negative name (such as [forged_evidence_survives]) record where the code
    departs from its documentation.

    ** Conventions

    - A call that may raise is a value of [res]; when it raises, the state it returns is
      the one at the raise.  [Untyped] marks JSON of another type than the annotated one,
      which the dataclasses would store unchecked: no theorem claims anything for it.
    - Clocks are arguments or hooks: one reading for each that matters.  Strings are bytes,
      taken as ASCII where case or blanks matter; times are integers or exact rationals
      where the code compares them, and rationals stand for its floats.
    - Dictionaries keep insertion order; Python sets whose order is observed (messages)
      take the order as an argument.  An environment is a list of names and values.
    - A file is missing, broken or a JSON document ([file]); a directory is a record of its
      files, or a map from names to files where names are computed.
    - Code outside the repository and processes are arguments: sessions, reviewers, fixers,
      HTTP and git calls (hooks that may change an abstract world), bashlex, [sha256], [hmac],
      [md5], [repr], [isoformat] and its inverse (class [IsoTime]).  Nothing is assumed of
      the hooks; of the digests, that they are hexadecimal, where a theorem says so.  A
      theorem about forgery holds up to an explicit collision.
    - Code that talks to the world leaves events, and safety is stated on the trace: what
      stands before an event, in which order.
    - The services take a lock around each database operation, so these operations are
      atomic steps, in any order.  An await of the agent service is a hook that may change
      the job table and the files, as other replicas do, and end builds of this one; any
      call of the store may find the database away.

    ** Fuel and bounds

    The depth-first searches of the scheduler ([visit]) and of the signed checklist take the
    number of ids as fuel, and a path holds an id at most once, so a result is always
    returned.  The wave loop ([run_loop]) has fuel [S (length subtasks)], and a turn that
    does not end the loop settles at least one subtask.  json.loads takes the length of the
    text: every step reads a character.  The QA loop runs at most [qa_iterations] turns, the
    failover rotates through each provider once, and the watch of a pull request polls for
    20 minutes every 30 seconds, so at most 40 times.  The attempts of the self-heal
    loop, of the rate limiter and of the outbox recurse on the source's own counters.  The
    command parser recurses on what is left of its own [_MAX_DEPTH]; its two loops that are
    not structural take the length of the text and the number of words, which is enough
    ([parser_loops_end]); peeling the wrappers off a test command takes its length
    ([peeling_ends]); a starred expression loops once per character left.

    ** Not modelled

    LLM sessions, prompts and tools; worktrees and text merging; the secret and
    content scanners, the detection of a project's profile and the SSRF guard; the scrub of
    a child's environment; the spec pipeline;
    analysis of projects; the HTTP, websocket and OIDC endpoints; database migrations; the
    frontend: input and output, third-party clients or glue around the parts above.  Of the
    parts themselves: logging and console output, the fallbacks for a module that cannot be
    imported, and the records of the merge pipeline in merge/types.py that the conflict
    analysis does not use.  What this way of modelling could take
    next are the secret scanners and the merge pipeline. *)
From stdpp Require Export base option list strings gmap pretty sorting.
From Stdlib Require Export ZArith Lia Ascii Sorted.

#[export] Set Warnings "-register-all,-implicit-create-rewrite-hint-db,-clear-no-such-hyp".

(** ** Python exceptions and the error monad

    A Python call that may raise is a computation in [res]: [Ok v] is a normal
    return, [Err e] an exception.  [Untyped] is not a Python exception: it marks a JSON
    value whose type is not the annotated one, which the dataclasses store unchecked and
    the typed records of this development do not represent. *)

Inductive exn :=
  | ValueError
  | KeyError (key : string)
  | TypeError
  | AttributeError
  | Untyped
  | AppError (name : string).

#[export] Instance exn_eq_dec : EqDecision exn.
Proof. solve_decision. Defined.

Inductive res (A : Type) :=
  | Ok (a : A)
  | Err (e : exn).
Arguments Ok {A} a.
Arguments Err {A} e.

#[export] Instance res_ret : MRet res := fun A => Ok.
#[export] Instance res_bind : MBind res := fun A B f m =>
  match m with Ok a => f a | Err e => Err e end.
#[export] Instance res_fmap : FMap res := fun A B f m =>
  match m with Ok a => Ok (f a) | Err e => Err e end.

Declare Scope aif_scope.
Delimit Scope aif_scope with aif.
Notation "'let!' x ':=' c 'in' k" := (mbind (M := res) (fun x => k) c)
  (at level 10, x pattern, c at level 100, k at level 200) : aif_scope.
Open Scope aif_scope.

Definition is_ok {A} (m : res A) : bool := match m with Ok _ => true | Err _ => false end.

Lemma bind_Ok_inv {A B} (m : res A) (f : A -> res B) b :
  mbind f m = Ok b -> exists a, m = Ok a /\ f a = Ok b.
Proof. destruct m; simpl; [eauto | discriminate]. Qed.

(** [for x in l: acc = f(acc, x)]: the first exception ends the loop. *)
Fixpoint fold_res {A B} (f : B -> A -> res B) (acc : B) (l : list A) : res B :=
  match l with
  | [] => Ok acc
  | x :: l' => match f acc x with Ok acc' => fold_res f acc' l' | Err e => Err e end
  end.

Lemma mapM_res_fmap {A B} (f : B -> res A) (g : A -> B) (l : list A) :
  Forall (fun x => f (g x) = Ok x) l -> mapM f (g <$> l) = Ok l.
Proof. induction 1 as [|x l Hx _ IH]; [done |]. cbn. by rewrite Hx, IH. Qed.

Lemma mapM_res_fmap_to {A B C} (f : B -> res C) (g : A -> B) (h : A -> C) (l : list A) :
  (forall x, f (g x) = Ok (h x)) -> mapM f (g <$> l) = Ok (h <$> l).
Proof. intros H. induction l as [|x l IH]; [done |]. cbn. by rewrite H, IH. Qed.

Lemma mapM_res_elem {A B} (f : A -> res B) (l : list A) k x :
  mapM f l = Ok k -> x ∈ l -> exists y, f x = Ok y /\ y ∈ k.
Proof.
  revert k. induction l as [|z l IH]; intros k E Hx; [by apply elem_of_nil in Hx|].
  cbn in E. apply bind_Ok_inv in E as (y & Hy & E). apply bind_Ok_inv in E as (k' & Hk & E).
  injection E as <-. apply elem_of_cons in Hx as [->|Hx].
  - exists y. split; [done | apply list_elem_of_here].
  - destruct (IH k' Hk Hx) as (y' & ? & ?). exists y'. split; [done|]. by apply list_elem_of_further.
Qed.

(** Opens one layer of [res] in a hypothesis: a bind that returned, an equation of
    constructors. *)
Ltac res_step :=
  match goal with
  | H : mbind _ _ = Ok _ |- _ =>
      let a := fresh "v" in let Ha := fresh "Hv" in
      apply bind_Ok_inv in H as (a & Ha & H)
  | H : Ok _ = Ok _ |- _ => injection H as H
  | H : Err _ = Ok _ |- _ => discriminate H
  | H : Ok _ = Err _ |- _ => discriminate H
  | H : mret _ = Ok _ |- _ => unfold mret, res_ret in H
  end.
Ltac res_inv := repeat res_step; subst.

(** ** Booleans *)

(** Turns boolean tests in hypotheses and goal into propositions. *)
Ltac bprop :=
  repeat match goal with
  | H : _ && _ = true |- _ => apply andb_true_iff in H as [? ?]
  | H : _ || _ = false |- _ => apply orb_false_iff in H as [? ?]
  | H : negb _ = true |- _ => apply negb_true_iff in H
  | H : negb _ = false |- _ => apply negb_false_iff in H
  | H : bool_decide _ = true |- _ => apply bool_decide_eq_true in H
  | H : bool_decide _ = false |- _ => apply bool_decide_eq_false in H
  | H : (_ =? _)%Z = true |- _ => apply Z.eqb_eq in H
  | H : (_ =? _)%Z = false |- _ => apply Z.eqb_neq in H
  | H : (_ <=? _)%Z = true |- _ => apply Z.leb_le in H
  | H : (_ <=? _)%Z = false |- _ => apply Z.leb_gt in H
  | H : (_ <? _)%Z = true |- _ => apply Z.ltb_lt in H
  | H : (_ <? _)%Z = false |- _ => apply Z.ltb_ge in H
  end.

(** Splits on the test of an [if] or the scrutinee of a [match] in the goal. *)
Ltac case_if :=
  match goal with
  | |- context [if ?b then _ else _] => let E := fresh "E" in destruct b eqn:E
  end.

(** ** List functions of the language *)

Definition enumerate {A} (l : list A) : list (nat * A) := zip (seq 0 (length l)) l.

(** [any(f(x) for x in l)] and [all(f(x) for x in l)]. *)
Lemma existsb_spec {A} (f : A -> bool) l : existsb f l = true <-> exists x, x ∈ l /\ f x = true.
Proof.
  rewrite existsb_exists. split; intros (x & Hx & Hf); exists x; split; auto;
    by apply list_elem_of_In.
Qed.

(** [k in keys] *)
Definition key_in (keys : list string) (k : string) : bool := existsb (String.eqb k) keys.

Lemma key_in_elem l t : key_in l t = true <-> t ∈ l.
Proof.
  unfold key_in. rewrite existsb_spec. split.
  - by intros (x & I & ->%String.eqb_eq).
  - intros I. exists t. by rewrite String.eqb_refl.
Qed.

Lemma existsb_false {A} (f : A -> bool) l : existsb f l = false <-> forall x, x ∈ l -> f x = false.
Proof.
  split.
  - intros H x Hx. destruct (f x) eqn:E; [|done].
    assert (existsb f l = true) by (apply existsb_spec; eauto). congruence.
  - intros H. destruct (existsb f l) eqn:E; [|done].
    apply existsb_spec in E as (x & Hx & Hf). rewrite (H x Hx) in Hf. discriminate.
Qed.

Lemma forallb_spec {A} (f : A -> bool) l : forallb f l = true <-> forall x, x ∈ l -> f x = true.
Proof.
  rewrite forallb_forall. split; intros H x Hx; apply H; by apply list_elem_of_In.
Qed.

(** [[x for x in l if f(x)]]. *)
Definition keep {A} (f : A -> bool) (l : list A) : list A := List.filter f l.

Lemma elem_of_keep {A} (f : A -> bool) l x : x ∈ keep f l <-> x ∈ l /\ f x = true.
Proof. unfold keep. rewrite !list_elem_of_In, filter_In. done. Qed.

(** [sum(1 for x in l if f(x))]. *)
Definition countb {A} (f : A -> bool) (l : list A) : nat := length (keep f l).

Lemma countb_cons {A} (f : A -> bool) x l :
  countb f (x :: l) = (if f x then 1 else 0) + countb f l.
Proof. unfold countb, keep. cbn. by destruct (f x). Qed.

Lemma countb_app {A} (f : A -> bool) l k : countb f (l ++ k) = countb f l + countb f k.
Proof. unfold countb, keep. by rewrite List.filter_app, length_app. Qed.

Lemma countb_le {A} (f : A -> bool) l : countb f l <= length l.
Proof. unfold countb, keep. apply filter_length_le. Qed.

Lemma countb_all {A} (f : A -> bool) l : countb f l = length l <-> forallb f l = true.
Proof.
  induction l as [|x l IH]; [done|]. rewrite countb_cons. cbn.
  pose proof (countb_le f l). destruct (f x); cbn; [rewrite <- IH; lia |].
  split; [lia | discriminate].
Qed.

Lemma countb_mono {A} (f g : A -> bool) l :
  (forall x, g x = true -> f x = true) -> countb g l <= countb f l.
Proof.
  intros H. induction l as [|x l IH]; [done|]. rewrite !countb_cons.
  specialize (H x). destruct (g x); [rewrite H by done; lia | destruct (f x); lia].
Qed.

Lemma countb_lt {A} (f g : A -> bool) l x :
  (forall x, g x = true -> f x = true) -> x ∈ l -> f x = true -> g x = false ->
  countb g l < countb f l.
Proof.
  intros H Hx Hf Hg. induction l as [|y l IH]; [by apply elem_of_nil in Hx|].
  rewrite !countb_cons. pose proof (countb_mono f g l H) as Hm.
  apply elem_of_cons in Hx as [<-|Hx].
  - rewrite Hf, Hg. lia.
  - specialize (IH Hx). specialize (H y). destruct (g y); [rewrite H by done; lia |].
    destruct (f y); lia.
Qed.

Lemma countb_pos {A} (f : A -> bool) l : 0 < countb f l <-> existsb f l = true.
Proof.
  induction l as [|x l IH]; [cbn; split; [lia | discriminate]|].
  rewrite countb_cons. cbn. destruct (f x); cbn; [split; [done | lia] | done].
Qed.

Lemma countb_none {A} (f : A -> bool) l : countb f l = 0 <-> existsb f l = false.
Proof.
  pose proof (countb_pos f l). destruct (existsb f l).
  - split; [intros E; rewrite E in H; lia | done].
  - split; [done|]. intros _. destruct (countb f l); [done|]. assert (false = true) by (apply H; lia). done.
Qed.

Lemma keep_fmap {A} (g : A -> A) (f : A -> bool) l :
  (forall x, f (g x) = f x) -> keep f (g <$> l) = g <$> keep f l.
Proof.
  intros Hg. induction l as [|x l IH]; [done|]. unfold keep in *. cbn. rewrite Hg.
  destruct (f x); cbn; by rewrite IH.
Qed.

Lemma countb_fmap {A} (g : A -> A) (f : A -> bool) l :
  (forall x, f (g x) = f x) -> countb f (g <$> l) = countb f l.
Proof. intros Hg. unfold countb. by rewrite keep_fmap, length_fmap. Qed.

Lemma forallb_fmap {A} (g : A -> A) (f : A -> bool) l :
  (forall x, f (g x) = f x) -> forallb f (g <$> l) = forallb f l.
Proof. intros Hg. induction l as [|x l IH]; [done|]. cbn. by rewrite Hg, IH. Qed.

Lemma fst_zip_prefix {A B} (l : list A) (k : list B) : (zip l k).*1 `prefix_of` l.
Proof.
  revert k. induction l as [|x l IH]; intros [|y k]; cbn; [done|apply prefix_nil..|].
  by apply prefix_cons.
Qed.

Lemma keep_sublist {A} (f : A -> bool) l : keep f l `sublist_of` l.
Proof.
  induction l as [|x l IH]; [done|]. unfold keep in *. cbn. destruct (f x).
  - by apply sublist_skip.
  - by apply sublist_cons.
Qed.

Lemma elem_of_sublist {A} (l k : list A) x : l `sublist_of` k -> x ∈ l -> x ∈ k.
Proof. intros Hs Hx. eapply elem_of_submseteq; [done | by apply sublist_submseteq]. Qed.

Lemma prefix_sublist {A} (l k : list A) : l `prefix_of` k -> l `sublist_of` k.
Proof. intros [r ->]. by apply sublist_inserts_r. Qed.

Lemma sublist_map {A B} (f : A -> B) (l k : list A) : l `sublist_of` k -> (f <$> l) `sublist_of` (f <$> k).
Proof. induction 1; cbn; by constructor. Qed.

Lemma concat_fmap_nil {A B} (f : A -> list B) (l : list A) :
  concat (f <$> l) = [] <-> forall x, x ∈ l -> f x = [].
Proof.
  induction l as [|x l IH]; cbn.
  - split; [|done]. intros _ x Hx. by apply elem_of_nil in Hx.
  - rewrite app_nil, IH. setoid_rewrite elem_of_cons. naive_solver.
Qed.

Lemma keep_none {A} (f : A -> bool) l : (forall x, x ∈ l -> f x = false) -> List.filter f l = [].
Proof.
  induction l as [|x l IH]; [done|]. intros H. cbn.
  rewrite (H x (list_elem_of_here _ _)). apply IH. intros y Hy. by apply H, list_elem_of_further.
Qed.

(** A key without duplicates determines the element. *)
Lemma NoDup_fmap_elem {A B} (f : A -> B) (l : list A) x y :
  NoDup (f <$> l) -> x ∈ l -> y ∈ l -> f x = f y -> x = y.
Proof.
  induction l as [|z l IH]; cbn; intros Hnd Hx Hy E; [by apply elem_of_nil in Hx|].
  apply NoDup_cons in Hnd as [Hz Hnd].
  apply elem_of_cons in Hx as [->|Hx]; apply elem_of_cons in Hy as [->|Hy];
    [done | .. | by apply IH].
  - exfalso. apply Hz. rewrite E. by apply list_elem_of_fmap_2.
  - exfalso. apply Hz. rewrite <- E. by apply list_elem_of_fmap_2.
Qed.

(** [min(l, key=...)]: the first element whose key is least. *)
Fixpoint min_by {A} (le : A -> A -> bool) (best : A) (l : list A) : A :=
  match l with
  | [] => best
  | x :: l' => min_by le (if le best x then best else x) l'
  end.

Lemma min_by_elem {A} (le : A -> A -> bool) l best : min_by le best l ∈ best :: l.
Proof.
  revert best. induction l as [|x l IH]; intros best; cbn; [set_solver |].
  specialize (IH (if le best x then best else x)). destruct (le best x); set_solver.
Qed.

Section min_by_total.
Context {A : Type} (le : A -> A -> bool).
Hypothesis le_refl' : forall x, le x x = true.
Hypothesis le_trans' : forall x y z, le x y = true -> le y z = true -> le x z = true.
Hypothesis le_total' : forall x y, le x y = false -> le y x = true.

Lemma min_by_least l best x : x ∈ best :: l -> le (min_by le best l) x = true.
Proof.
  revert best x. induction l as [|y l IH]; intros best x Hx; cbn.
  - apply list_elem_of_singleton in Hx as ->. apply le_refl'.
  - destruct (le best y) eqn:E.
    + apply elem_of_cons in Hx as [->|Hx]; [apply IH; set_solver |].
      apply elem_of_cons in Hx as [->|Hx]; [|apply IH; set_solver].
      eapply le_trans'; [apply (IH best best); set_solver | done].
    + apply elem_of_cons in Hx as [->|Hx].
      * eapply le_trans'; [apply (IH y y); set_solver | by apply le_total'].
      * apply IH. done.
Qed.
End min_by_total.

(** [sorted(l)]: a stable insertion sort on a boolean order. *)
Fixpoint insert_sorted {A} (le : A -> A -> bool) (x : A) (l : list A) : list A :=
  match l with
  | [] => [x]
  | y :: l' => if le x y then x :: y :: l' else y :: insert_sorted le x l'
  end.
Definition sort_by {A} (le : A -> A -> bool) (l : list A) : list A :=
  foldr (insert_sorted le) [] l.

Lemma insert_sorted_perm {A} (le : A -> A -> bool) x l : insert_sorted le x l ≡ₚ x :: l.
Proof.
  induction l as [|y l IH]; cbn; [done|]. destruct (le x y); [done|].
  rewrite IH. apply Permutation_swap.
Qed.

Lemma sort_by_perm {A} (le : A -> A -> bool) l : sort_by le l ≡ₚ l.
Proof.
  induction l as [|x l IH]; cbn; [done|]. rewrite insert_sorted_perm. by rewrite IH.
Qed.

Lemma elem_of_sort_by {A} (le : A -> A -> bool) l x : x ∈ sort_by le l <-> x ∈ l.
Proof. by rewrite sort_by_perm. Qed.

Section sort_by_total.
Context {A : Type} (le : A -> A -> bool).
Hypothesis le_trans' : forall x y z, le x y = true -> le y z = true -> le x z = true.
Hypothesis le_total' : forall x y, le x y = false -> le y x = true.

Lemma insert_sorted_sorted x l :
  StronglySorted (fun x y => le x y = true) l ->
  StronglySorted (fun x y => le x y = true) (insert_sorted le x l).
Proof.
  induction l as [|y k IH]; cbn; intros H; [repeat constructor|].
  apply StronglySorted_inv in H as [Hk Hy]. destruct (le x y) eqn:E.
  - constructor; [by constructor|]. constructor; [done|].
    eapply Forall_impl; [exact Hy|]. intros z Hz. by eapply le_trans'.
  - constructor; [by apply IH|]. rewrite insert_sorted_perm. constructor; [by apply le_total' | done].
Qed.

Lemma sort_by_sorted l : StronglySorted (fun x y => le x y = true) (sort_by le l).
Proof. induction l as [|x l IH]; cbn; [constructor | by apply insert_sorted_sorted]. Qed.

(** Sorting forgets the order, when equal keys are equal elements. *)
Lemma sort_by_perm_eq l k :
  (forall x y, le x y = true -> le y x = true -> x = y) ->
  l ≡ₚ k -> sort_by le l = sort_by le k.
Proof.
  intros Hanti Hp. apply (StronglySorted_unique_strong (fun x y => le x y = true)).
  - intros x y _ _. apply Hanti.
  - apply sort_by_sorted.
  - apply sort_by_sorted.
  - by rewrite !sort_by_perm.
Qed.
End sort_by_total.

(** ** Pairs of a list *)

Lemma ForallOrdPairs_perm {A} (R : A -> A -> Prop) l k :
  (forall x y, R x y -> R y x) -> l ≡ₚ k -> ForallOrdPairs R l -> ForallOrdPairs R k.
Proof.
  intros Hsym. induction 1 as [|x l k Hp IH|x y l|l k m H1 IH1 H2 IH2]; intros H; auto.
  - inversion H as [|? ? Hx Hl]; subst. constructor; [by rewrite <- Hp | auto].
  - inversion H as [|? ? Hy Hl]; subst. inversion Hl as [|? ? Hx Hl']; subst.
    inversion Hy; subst. constructor; [constructor; auto | by constructor].
Qed.

Lemma ForallOrdPairs_iff {A} (R S : A -> A -> Prop) l :
  (forall x y, R x y <-> S x y) -> ForallOrdPairs R l <-> ForallOrdPairs S l.
Proof.
  intros H. induction l as [|x l IH]; [split; constructor|].
  split; intros Hl; inversion Hl as [|? ? Hx Hl']; subst; (constructor; [|by apply IH]);
    (eapply Forall_impl; [exact Hx|]); intros y; apply H.
Qed.

(** [all(f(a, b) for every pair of positions i < j)] *)
Fixpoint all_pairs {A} (f : A -> A -> bool) (l : list A) : bool :=
  match l with
  | [] => true
  | x :: l' => forallb (f x) l' && all_pairs f l'
  end.

Lemma all_pairs_spec {A} (f : A -> A -> bool) l :
  all_pairs f l = true <-> ForallOrdPairs (fun a b => f a b = true) l.
Proof.
  induction l as [|x l IH]; cbn; [split; [constructor | done]|].
  rewrite andb_true_iff, IH, forallb_spec. split.
  - intros [H1 H2]. constructor; [by apply Forall_forall | done].
  - intros H. inversion H as [|? ? Hx Hl]; subst. split; [by apply Forall_forall | done].
Qed.

Lemma countb_perm {A} (f : A -> bool) l k : l ≡ₚ k -> countb f l = countb f k.
Proof.
  induction 1 as [|x l k Hp IH|x y l|l k m H1 IH1 H2 IH2]; rewrite ?countb_cons; try lia.
Qed.

(** ** Strings of the language

    Strings are ASCII: [lower] and [strip] act on the ASCII letters and blanks. *)

Definition lower_ascii (c : ascii) : ascii :=
  let n := nat_of_ascii c in
  if (65 <=? n) && (n <=? 90) then ascii_of_nat (n + 32) else c.
Fixpoint lower (s : string) : string :=
  match s with EmptyString => EmptyString | String c s' => String (lower_ascii c) (lower s') end.

(** [str.isspace] on ASCII: tab to carriage return, the four separators, the space. *)
Definition is_blank (c : ascii) : bool :=
  let n := nat_of_ascii c in
  ((9 <=? n) && (n <=? 13)) || ((28 <=? n) && (n <=? 32)).
Fixpoint lstrip (s : string) : string :=
  match s with
  | EmptyString => EmptyString
  | String c s' => if is_blank c then lstrip s' else s
  end.
Definition strip (s : string) : string := String.rev (lstrip (String.rev (lstrip s))).

Definition is_empty (s : string) : bool := match s with EmptyString => true | _ => false end.

(** [s.split()] *)
Fixpoint split_words (word : string) (s : string) : list string :=
  match s with
  | EmptyString => if is_empty word then [] else [word]
  | String c s' =>
      if is_blank c then (if is_empty word then [] else [word]) ++ split_words "" s'
      else split_words (word +:+ String c "") s'
  end.
Definition upper_ascii (c : ascii) : ascii :=
  let n := nat_of_ascii c in
  if (97 <=? n) && (n <=? 122) then ascii_of_nat (n - 32) else c.
Fixpoint upper (s : string) : string :=
  match s with EmptyString => EmptyString | String c s' => String (upper_ascii c) (upper s') end.

(** [s.startswith(p)] and [p in s]. *)
Definition startswith (p s : string) : bool := String.prefix p s.
Fixpoint contains (p s : string) : bool :=
  String.prefix p s || match s with EmptyString => false | String _ s' => contains p s' end.

(** What follows the prefix [p]. *)
Fixpoint after_prefix (p s : string) : option string :=
  match p, s with
  | EmptyString, _ => Some s
  | String c p', String c' s' => if Ascii.eqb c c' then after_prefix p' s' else None
  | String _ _, EmptyString => None
  end.

(** [s.split(sep, 1)] when [sep] occurs in [s]: the texts around its first occurrence. *)
Fixpoint cut_at (sep s : string) : option (string * string) :=
  match after_prefix sep s with
  | Some r => Some (EmptyString, r)
  | None =>
      match s with
      | EmptyString => None
      | String c s' =>
          match cut_at sep s' with Some (a, b) => Some (String c a, b) | None => None end
      end
  end.

(** [sep.join(l)]. *)
Definition join (sep : string) (l : list string) : string := String.concat sep l.

(** [s.split(c)] for a one-character separator: always at least one piece. *)
Fixpoint split_on (c : ascii) (s : string) : list string :=
  match s with
  | EmptyString => [EmptyString]
  | String a s' =>
      if Ascii.eqb a c then EmptyString :: split_on c s'
      else match split_on c s' with
           | piece :: l => String a piece :: l
           | [] => [String a EmptyString]
           end
  end.

Definition rstrip (s : string) : string := String.rev (lstrip (String.rev s)).

(** [s.splitlines()] on Latin-1 text: a carriage return with its line feed is one break,
    and the text after the last break counts when it is not empty. *)
Definition line_break (c : ascii) : bool :=
  let n := nat_of_ascii c in
  ((10 <=? n) && (n <=? 13)) || ((28 <=? n) && (n <=? 30)) || (n =? 133).
Fixpoint split_lines (line : string) (s : string) : list string :=
  match s with
  | EmptyString => if is_empty line then [] else [line]
  | String c s' =>
      if line_break c then
        line :: (match s' with
                 | String d s'' => if (nat_of_ascii c =? 13) && (nat_of_ascii d =? 10)
                                   then split_lines EmptyString s'' else split_lines EmptyString s'
                 | EmptyString => []
                 end)
      else split_lines (line +:+ String c EmptyString) s'
  end.
Definition splitlines (s : string) : list string := split_lines EmptyString s.

(** [int(re.search("[0-9]+", s).group())]: the value of the first run of digits. *)
Definition digit_of (c : ascii) : option Z :=
  let n := nat_of_ascii c in
  if (48 <=? n) && (n <=? 57) then Some (Z.of_nat (n - 48)) else None.
Fixpoint read_digits (acc : Z) (s : string) : Z :=
  match s with
  | EmptyString => acc
  | String c s' =>
      match digit_of c with Some d => read_digits (10 * acc + d) s' | None => acc end
  end.
Fixpoint first_int (s : string) : option Z :=
  match s with
  | EmptyString => None
  | String c s' =>
      match digit_of c with Some d => Some (read_digits d s') | None => first_int s' end
  end.

Lemma string_app_nil (a : string) : "" +:+ a = a.
Proof. done. Qed.

Lemma string_app_cons c (a b : string) : String c a +:+ b = String c (a +:+ b).
Proof. done. Qed.

Lemma string_app_assoc (a b c : string) : (a +:+ b) +:+ c = a +:+ (b +:+ c).
Proof. induction a as [|x a IH]; [done|]. exact (f_equal (String x) IH). Qed.

Lemma string_app_empty (s : string) : s +:+ "" = s.
Proof. induction s as [|c s IH]; [done|]. exact (f_equal (String c) IH). Qed.

(** The first occurrence of a character that a text does not hold. *)
Lemma cut_at_first c (a r : string) :
  contains (String c "") a = false -> cut_at (String c "") (a +:+ String c r) = Some (a, r).
Proof.
  induction a as [|d a IH]; intros C.
  - rewrite string_app_nil. cbn [cut_at after_prefix]. rewrite Ascii.eqb_refl. by destruct r.
  - rewrite string_app_cons. cbn [contains] in C. apply orb_false_iff in C as [N C].
    specialize (IH C). cbn [cut_at after_prefix]. rewrite IH. cbn [String.prefix] in N.
    destruct (Ascii.eqb_spec c d) as [->|_]; [|done]. destruct (ascii_dec d d); [by destruct a | done].
Qed.

Lemma string_app_length (a b : string) : String.length (a +:+ b) = String.length a + String.length b.
Proof. induction a as [|c a IH]; [done|]. rewrite string_app_cons. cbn. by rewrite IH. Qed.

Lemma app_first_inj (a : string) (r s : string) : a +:+ r = a +:+ s -> r = s.
Proof. apply (inj (String.append a)). Qed.

(** [lower] and [strip] are idempotent and commute. *)
Lemma rev_app_eq (a b : string) : String.rev_app a b = String.rev a +:+ b.
Proof.
  unfold String.rev. revert b. induction a as [|c a IH]; intros b; [done|]. cbn.
  by rewrite (IH (String c b)), (IH (String c "")), string_app_assoc.
Qed.

Lemma string_rev_app (a b : string) : String.rev (a +:+ b) = String.rev b +:+ String.rev a.
Proof.
  revert b. induction a as [|c a IH]; intros b.
  - by rewrite string_app_nil, string_app_empty.
  - rewrite string_app_cons.
    change (String.rev (String c (a +:+ b))) with (String.rev_app (a +:+ b) (String c "")).
    change (String.rev (String c a)) with (String.rev_app a (String c "")).
    by rewrite !rev_app_eq, IH, string_app_assoc.
Qed.

Lemma string_rev_involutive (a : string) : String.rev (String.rev a) = a.
Proof.
  induction a as [|c a IH]; [done|].
  change (String.rev (String c a)) with (String.rev_app a (String c "")).
  by rewrite rev_app_eq, string_rev_app, IH.
Qed.

Lemma lstrip_suffix (s : string) : exists p, s = p +:+ lstrip s.
Proof.
  induction s as [|c s [p IH]]; [by exists ""|]. cbn. destruct (is_blank c).
  - exists (String c p). by rewrite string_app_cons, <- IH.
  - by exists "".
Qed.

Lemma lstrip_idem (s : string) : lstrip (lstrip s) = lstrip s.
Proof. induction s as [|c s IH]; [done|]. cbn. destruct (is_blank c) eqn:E; [done|]. cbn. by rewrite E. Qed.

Lemma lstrip_prefix (a b : string) : lstrip (a +:+ b) = a +:+ b -> lstrip a = a.
Proof.
  destruct a as [|c a]; [done|]. rewrite string_app_cons. cbn. destruct (is_blank c) eqn:E; [|done].
  intros H. exfalso. assert (L : forall s, String.length (lstrip s) <= String.length s).
  { intros s. induction s as [|d s IH]; [done|]. cbn. destruct (is_blank d); cbn; lia. }
  specialize (L (a +:+ b)). rewrite H in L. cbn in L. lia.
Qed.

Lemma strip_idem (s : string) : strip (strip s) = strip s.
Proof.
  unfold strip at 1. set (t := lstrip s).
  assert (P : lstrip (strip s) = strip s).
  { destruct (lstrip_suffix (String.rev t)) as [p Hp].
    apply (lstrip_prefix _ (String.rev p)).
    unfold strip. fold t. rewrite <- string_rev_app, <- Hp, string_rev_involutive. apply lstrip_idem. }
  rewrite P. unfold strip. fold t. by rewrite string_rev_involutive, lstrip_idem.
Qed.

Lemma blank_lower c : is_blank (lower_ascii c) = is_blank c.
Proof. by destruct c as [[] [] [] [] [] [] [] []]. Qed.

Lemma lower_idem (s : string) : lower (lower s) = lower s.
Proof.
  induction s as [|c s IH]; [done|]. cbn. rewrite IH. f_equal.
  by destruct c as [[] [] [] [] [] [] [] []].
Qed.

Lemma lower_app (a b : string) : lower (a +:+ b) = lower a +:+ lower b.
Proof. induction a as [|c a IH]; [done|]. rewrite !string_app_cons. cbn. by rewrite IH. Qed.

Lemma lower_rev (s : string) : lower (String.rev s) = String.rev (lower s).
Proof.
  induction s as [|c s IH]; [done|]. cbn [lower].
  change (String.rev (String c s)) with (String.rev_app s (String c "")).
  change (String.rev (String (lower_ascii c) (lower s)))
    with (String.rev_app (lower s) (String (lower_ascii c) "")).
  by rewrite !rev_app_eq, lower_app, IH.
Qed.

Lemma lower_lstrip (s : string) : lower (lstrip s) = lstrip (lower s).
Proof. induction s as [|c s IH]; [done|]. cbn. rewrite blank_lower. by destruct (is_blank c). Qed.

Lemma lower_strip (s : string) : lower (strip s) = strip (lower s).
Proof. unfold strip. by rewrite lower_rev, lower_lstrip, lower_rev, lower_lstrip. Qed.

Lemma string_leb_trans x y z : String.leb x y = true -> String.leb y z = true -> String.leb x z = true.
Proof.
  intros H1%Is_true_true H2%Is_true_true. apply Is_true_true.
  exact (transitivity (R := String.le) H1 H2).
Qed.

Lemma string_leb_total x y : String.leb x y = false -> String.leb y x = true.
Proof. intros H. destruct (String.leb_total x y); congruence. Qed.

(** ** Digests

    Strings of hexadecimal digits, as [hexdigest()] returns them. *)

Definition hex_char (c : ascii) : bool :=
  let n := nat_of_ascii c in ((48 <=? n) && (n <=? 57)) || ((97 <=? n) && (n <=? 102)).
Fixpoint all_hex (s : string) : bool :=
  match s with EmptyString => true | String c s' => hex_char c && all_hex s' end.
Definition hex_string (s : string) : bool := negb (is_empty s) && all_hex s.

Lemma hex_not_empty s : hex_string s = true -> is_empty s = false.
Proof. unfold hex_string. intros H. by bprop. Qed.

(** A digit in lower case. *)
Definition hex_digit (n : nat) : ascii := ascii_of_nat (if n <? 10 then 48 + n else 87 + n).

(** A toy digest for examples: every character spelled in hexadecimal. *)
Fixpoint toy_hex (s : string) : string :=
  match s with
  | EmptyString => "0"
  | String c s' => String (hex_digit (nat_of_ascii c / 16))
                     (String (hex_digit (nat_of_ascii c mod 16)) (toy_hex s'))
  end.

Lemma toy_hex_ok x : hex_string (toy_hex x) = true.
Proof.
  assert (H : all_hex (toy_hex x) = true).
  { induction x as [|c x IH]; [done|]. cbn [toy_hex all_hex]. rewrite IH.
    destruct c as [[] [] [] [] [] [] [] []]; reflexivity. }
  unfold hex_string. rewrite H. by destruct x.
Qed.

(** ** Rounding *)

(** [n / d] rounded to an integer, ties to even, for [0 <= n] and [0 < d]. *)
Definition round_half_even (n d : Z) : Z :=
  let q := (n / d)%Z in
  let r := (2 * (n mod d))%Z in
  if (r <? d)%Z then q
  else if (d <? r)%Z then (q + 1)%Z
  else if Z.even q then q else (q + 1)%Z.

Create HintDb aif.
