(* ===== verification/PyData.v ===== *)
(** JSON values and Python dictionaries: the wire format of the plan, the lifecycle and
    the review-cycle files, with the typed accessors [from_dict] methods use and the
    lemma that computes a lookup through a chain of updates. *)
From S2P Require Import Prelude.

(** JSON without fractional numbers. *)
Inductive json :=
  | JNull
  | JBool (b : bool)
  | JInt (z : Z)
  | JStr (s : string)
  | JList (l : list json)
  | JObj (d : list (string * json)).

(** A [dict] with string keys, in insertion order. *)
Abbreviation dict := (list (string * json)).

(** [d.get(k)] *)
Fixpoint dget (k : string) (d : dict) : option json :=
  match d with
  | [] => None
  | (k', v) :: d' => if String.eqb k k' then Some v else dget k d'
  end.

(** [k in d] *)
Definition dmem (k : string) (d : dict) : bool :=
  match dget k d with Some _ => true | None => false end.

(** [d[k] = v]: an existing key keeps its position. *)
Fixpoint dset (k : string) (v : json) (d : dict) : dict :=
  match d with
  | [] => [(k, v)]
  | (k', v') :: d' => if String.eqb k k' then (k', v) :: d' else (k', v') :: dset k v d'
  end.

(** [if c: d[k] = v] *)
Definition dset_if (c : bool) (k : string) (v : json) (d : dict) : dict :=
  if c then dset k v d else d.

Lemma dget_dset k k' v d : dget k (dset k' v d) = if String.eqb k k' then Some v else dget k d.
Proof.
  induction d as [|[k0 v0] d IH]; cbn; [done|].
  destruct (String.eqb_spec k' k0) as [<-|Hne]; cbn.
  - by destruct (String.eqb_spec k k').
  - destruct (String.eqb_spec k k0) as [->|]; [|done].
    destruct (String.eqb_spec k0 k'); congruence.
Qed.

Lemma dset_dset k v w d : dset k v (dset k w d) = dset k v d.
Proof.
  induction d as [|[k' v'] d IH]; cbn; [by rewrite String.eqb_refl|].
  destruct (String.eqb_spec k k') as [->|Hne]; cbn; [by rewrite String.eqb_refl|].
  destruct (String.eqb_spec k k'); [done|]. by rewrite IH.
Qed.

Lemma dget_dset_if c k k' v d :
  dget k (dset_if c k' v d) = if String.eqb k k' && c then Some v else dget k d.
Proof.
  destruct c; cbn; [|by rewrite andb_false_r].
  rewrite dget_dset. by rewrite andb_true_r.
Qed.

Lemma dget_cons k k' v d : dget k ((k', v) :: d) = if String.eqb k k' then Some v else dget k d.
Proof. done. Qed.

(** Computes every lookup of a literal key in a dictionary built by literal updates. *)
Ltac dget_simpl :=
  repeat (rewrite ?dget_dset_if, ?dget_dset, ?dget_cons; cbn [String.eqb Ascii.eqb Bool.eqb andb]).

(** ** Python truthiness *)

Definition truthy (v : json) : bool :=
  match v with
  | JNull => false
  | JBool b => b
  | JInt z => negb (z =? 0)%Z
  | JStr s => negb (is_empty s)
  | JList l => match l with [] => false | _ => true end
  | JObj d => match d with [] => false | _ => true end
  end.

Definition opt_truthy (s : option string) : bool :=
  match s with Some s => negb (is_empty s) | None => false end.
Definition list_truthy {A} (l : list A) : bool := match l with [] => false | _ => true end.

(** ** Encoders *)

Definition JOpt (s : option string) : json := match s with Some s => JStr s | None => JNull end.
Definition JOptZ (z : option Z) : json := match z with Some z => JInt z | None => JNull end.
Definition JOptDict (d : option dict) : json := match d with Some d => JObj d | None => JNull end.
Definition JStrs (l : list string) : json := JList (JStr <$> l).

(** ** Typed decoders: a value of another type than the annotated one is [Untyped]. *)

Definition as_str (v : json) : res string := match v with JStr s => Ok s | _ => Err Untyped end.
Definition as_int (v : json) : res Z := match v with JInt z => Ok z | _ => Err Untyped end.
Definition as_bool (v : json) : res bool := match v with JBool b => Ok b | _ => Err Untyped end.
Definition as_strs (v : json) : res (list string) :=
  match v with JList l => mapM as_str l | _ => Err Untyped end.
Definition as_list (v : json) : res (list json) :=
  match v with JList l => Ok l | _ => Err Untyped end.
Definition as_obj (v : json) : res dict := match v with JObj d => Ok d | _ => Err Untyped end.
Definition as_opt {A} (dec : json -> res A) (v : json) : res (option A) :=
  match v with JNull => Ok None | _ => Some <$> dec v end.

(** [data[k]], [data.get(k, dflt)], [data.get(k)] and [data.get(k) or []] for a field of
    annotated type. *)
Definition req {A} (dec : json -> res A) (k : string) (d : dict) : res A :=
  match dget k d with Some v => dec v | None => Err (KeyError k) end.
Definition get_or {A} (dec : json -> res A) (k : string) (dflt : A) (d : dict) : res A :=
  match dget k d with Some v => dec v | None => Ok dflt end.
Definition get_opt {A} (dec : json -> res A) (k : string) (d : dict) : res (option A) :=
  match dget k d with Some v => as_opt dec v | None => Ok None end.
Definition get_or_nil {A} (dec : json -> res (list A)) (k : string) (d : dict) : res (list A) :=
  match dget k d with Some v => if truthy v then dec v else Ok [] | None => Ok [] end.

Lemma as_strs_JStrs l : as_strs (JStrs l) = Ok l.
Proof. cbn. apply mapM_res_fmap. by apply Forall_true. Qed.

Lemma as_opt_JOpt s : as_opt as_str (JOpt s) = Ok s.
Proof. by destruct s. Qed.

Lemma as_opt_JOptZ z : as_opt as_int (JOptZ z) = Ok z.
Proof. by destruct z. Qed.

#[export] Hint Rewrite as_strs_JStrs as_opt_JOpt as_opt_JOptZ : aif.

(** [for x in v]: a list yields its elements, a scalar is not iterable; the characters of
    a string and the keys of an object are not values of the annotated type. *)
Definition as_iter (v : json) : res (list json) :=
  match v with
  | JList l => Ok l
  | JNull | JBool _ | JInt _ => Err TypeError
  | JStr s => if is_empty s then Ok [] else Err Untyped
  | JObj d => match d with [] => Ok [] | _ => Err Untyped end
  end.

(** Iteration over a value of any type: the elements of a list, the characters of a
    string, the keys of an object. *)
Definition iter_any (v : json) : res (list json) :=
  match v with
  | JList l => Ok l
  | JStr s => Ok ((fun c => JStr (String c "")) <$> String.list_ascii_of_string s)
  | JObj d => Ok ((fun kv => JStr kv.1) <$> d)
  | JNull | JBool _ | JInt _ => Err TypeError
  end.

(** [d.get(k, []) or []], iterated. *)
Definition iter_key (k : string) (d : dict) : res (list json) :=
  match dget k d with
  | Some v => if truthy v then iter_any v else Ok []
  | None => Ok []
  end.

(** [d.get(k, [])], iterated. *)
Definition iter_field (k : string) (d : dict) : res (list json) :=
  match dget k d with Some v => iter_any v | None => Ok [] end.

(** [x.get(...)] on a value of any type. *)
Definition with_get {A} (v : json) (f : dict -> res A) : res A :=
  match v with JObj d => f d | _ => Err AttributeError end.

(** ** Files *)

(** A JSON file: missing, unreadable or not JSON, or a value. *)
Inductive file := Missing | Broken | Json (v : json).

(** ** Conversions *)

(** [int(s)] on ASCII digits: blanks around, a sign, single underscores between digits. *)
Fixpoint int_digits (acc : Z) (after_digit : bool) (s : string) : option Z :=
  match s with
  | EmptyString => if after_digit then Some acc else None
  | String c s' =>
      match digit_of c with
      | Some d => int_digits (10 * acc + d)%Z true s'
      | None => if Ascii.eqb c "_" && after_digit then int_digits acc false s' else None
      end
  end.
Definition int_of_string (s : string) : option Z :=
  match strip s with
  | String "-" s' => Z.opp <$> int_digits 0 false s'
  | String "+" s' => int_digits 0 false s'
  | s' => int_digits 0 false s'
  end.

(** [int(v)], [str(v)] and [dict(v)].  The [str] of a container is its [repr], and a list
    given to [dict] a list of pairs: neither is a value of the annotated type. *)
Definition py_int (v : json) : res Z :=
  match v with
  | JInt z => Ok z
  | JBool b => Ok (if b then 1 else 0)%Z
  | JStr s => match int_of_string s with Some z => Ok z | None => Err ValueError end
  | JNull | JList _ | JObj _ => Err TypeError
  end.
Definition py_str (v : json) : res string :=
  match v with
  | JStr s => Ok s
  | JNull => Ok "None"
  | JBool b => Ok (if b then "True" else "False")
  | JInt z => Ok (pretty z)
  | JList _ | JObj _ => Err Untyped
  end.
Definition py_dict (v : json) : res (list (string * json)) :=
  match v with
  | JObj d => Ok d
  | JStr s => if is_empty s then Ok [] else Err ValueError
  | JList l => match l with [] => Ok [] | _ => Err Untyped end
  | JNull | JBool _ | JInt _ => Err TypeError
  end.

(** ** Optional fields

    [to_dict] writes an optional field only when it is truthy (or not None); these are
    the values the readers find for it. *)

(** What an optional string or dictionary is after [if self.x: d["x"] = self.x]. *)
Definition truthy_opt (s : option string) : option string :=
  match s with Some s' => if is_empty s' then None else s | None => None end.
Definition truthy_dict (d : option dict) : option dict :=
  match d with Some [] => None | _ => d end.
Definition optdict_truthy (d : option dict) : bool :=
  match d with Some (_ :: _) => true | _ => false end.

Lemma read_strs_if (l : list string) :
  match (if list_truthy l then Some (JStrs l) else None) with
  | Some v => as_strs v | None => Ok [] end = Ok l.
Proof. destruct l; [done|]. apply as_strs_JStrs. Qed.

Lemma read_opt_if (s : option string) :
  match (if opt_truthy s then Some (JOpt s) else None) with
  | Some v => as_opt as_str v | None => Ok None end = Ok (truthy_opt s).
Proof. destruct s as [s|]; [|done]. cbn. by destruct (is_empty s). Qed.

Lemma read_dict_if (d : option dict) :
  match (if optdict_truthy d then Some (JOptDict d) else None) with
  | Some v => as_opt as_obj v | None => Ok None end = Ok (truthy_dict d).
Proof. by destruct d as [[|]|]. Qed.

Lemma read_true_if (b : bool) :
  match (if b then Some (JBool true) else None) with
  | Some v => as_bool v | None => Ok false end = Ok b.
Proof. by destruct b. Qed.

#[export] Hint Rewrite read_strs_if read_opt_if read_dict_if read_true_if : aif.

(** ** String enumerations

    A [class E(str, Enum)]: its members in declaration order and their values.  The class
    carries the two laws the lookup by value needs, so that one lemma serves every
    enumeration of the program. *)

Class PyEnum (A : Type) := {
  members : list A;
  value : A -> string;
  members_all : forall a, a ∈ members;
  value_inj : forall a b, value a = value b -> a = b;
}.

(** Discharges the two laws of [PyEnum] for an enumeration of constants. *)
Ltac solve_enum :=
  match goal with
  | |- forall a, a ∈ _ =>
      intros []; repeat (first [apply list_elem_of_here | apply list_elem_of_further])
  | |- _ => intros [] []; (reflexivity || (intro; discriminate))
  end.

(** [E(v)]: the member with that value, else ValueError. *)
Definition enum_of {A} `{PyEnum A} (v : json) : res A :=
  match v with
  | JStr s =>
      match List.find (fun a => String.eqb (value a) s) members with
      | Some a => Ok a
      | None => Err ValueError
      end
  | _ => Err ValueError
  end.

Lemma enum_of_value {A} `{PyEnum A} (a : A) : enum_of (JStr (value a)) = Ok a.
Proof.
  unfold enum_of. destruct (List.find _ _) as [b|] eqn:E.
  - apply find_some in E as [_ E]. apply String.eqb_eq in E. f_equal. by apply value_inj.
  - exfalso. apply find_none with (x := a) in E.
    + by rewrite String.eqb_refl in E.
    + apply list_elem_of_In, members_all.
Qed.

#[export] Hint Rewrite @enum_of_value : aif.
#[global] Arguments enum_of : simpl never.
#[global] Arguments value : simpl never.

(** [if val is not None: d[k] = val] *)
Definition dset_some (k : string) (v : option json) (d : dict) : dict :=
  match v with Some v => dset k v d | None => d end.

Lemma dget_dset_some k k' v d :
  dget k (dset_some k' v d) =
  if String.eqb k k' then match v with Some w => Some w | None => dget k d end
  else dget k d.
Proof. destruct v; cbn; [apply dget_dset | by destruct (String.eqb k k')]. Qed.

Lemma read_nil_if (l : list string) :
  match (if list_truthy l then Some (JStrs l) else None) with
  | Some v => if truthy v then as_strs v else Ok [] | None => Ok [] end = Ok l.
Proof. destruct l; [done|]. apply as_strs_JStrs. Qed.

#[export] Hint Rewrite read_nil_if : aif.

(** [Cls.from_dict(data[k]) if k in data else None], for a [from_dict] that begins with
    [data.get]: a value that is not an object has no [get]. *)
Definition sub_record {A} (parse : dict -> res A) (k : string) (d : dict)
  : res (option A) :=
  match dget k d with
  | None => Ok None
  | Some (JObj o) => Some <$> parse o
  | Some _ => Err AttributeError
  end.

(** ** Reading back what an encoder wrote *)

(** Computes a lookup of a literal key through a chain of literal updates. *)
Ltac dget_norm :=
  repeat (first [rewrite dget_dset_some | rewrite dget_dset_if | rewrite dget_dset
                | rewrite dget_cons];
          cbn [String.eqb Ascii.eqb Bool.eqb andb]);
  cbn [dget].

(** One lookup in the dictionary the encoder [f] built, in a goal of its own. *)
Ltac read_key f :=
  match goal with
  | |- context [dget ?k (f ?s)] =>
      let H := fresh "H" in
      eassert (H : dget k (f s) = _); [unfold f; dget_norm; reflexivity |];
      rewrite H; clear H
  end.
Ltac read_keys f := repeat read_key f.

(** Every field a decoder reads from the dictionary [f] built, and the values found. *)
Ltac read_back f :=
  unfold get_or, get_opt, get_or_nil, req, sub_record; read_keys f.
Ltac read_fields := autorewrite with aif; cbn [as_str as_int as_bool mbind res_bind].
