(* ===== verification/JsonText.v ===== *)
(** The text of a JSON value as [json.dumps] writes it, in the two styles the program uses:
    the encoder with its escapes, the canonical form that forgets the order of keys
    ([sort_keys=True]), and the proof that two values have the same text exactly when their
    canonical forms are equal. *)
From S2P Require Import Prelude PyData.

(** ** The encoder *)

Definition quote_char : ascii := ascii_of_nat 34.
Definition backslash : ascii := ascii_of_nat 92.

(** The default style escapes what is not ASCII and writes blanks after the separators;
    [separators=(",", ":"), ensure_ascii=False] does neither. *)
Inductive style := Spaced | Compact.

Definition item_sep (sty : style) : string := match sty with Spaced => ", " | Compact => "," end.
Definition key_sep (sty : style) : string := match sty with Spaced => ": " | Compact => ":" end.

(** The two-character escapes; other control characters as [\u00XX]; the rest as it is or,
    when it is not printable ASCII and the style asks for it, as [\u00XX] (code points
    are below 256 here). *)
Definition plain_char (sty : style) (n : nat) : bool :=
  (32 <=? n) && match sty with Spaced => n <=? 126 | Compact => true end.

Definition esc_char (sty : style) (c : ascii) : string :=
  let n := nat_of_ascii c in
  if n =? 34 then String backslash (String quote_char "")
  else if n =? 92 then String backslash (String backslash "")
  else if n =? 10 then String backslash "n"
  else if n =? 13 then String backslash "r"
  else if n =? 9 then String backslash "t"
  else if n =? 12 then String backslash "f"
  else if n =? 8 then String backslash "b"
  else if plain_char sty n then String c ""
  else String backslash (String "u" (String "0" (String "0"
         (String (hex_digit (n / 16)) (String (hex_digit (n mod 16)) ""))))).

Lemma item_sep_comma sty : exists t, item_sep sty = String "," t.
Proof. destruct sty; by eexists. Qed.
Lemma key_sep_colon sty : exists t, key_sep sty = String ":" t.
Proof. destruct sty; by eexists. Qed.

Section encoder.
Variable sty : style.

Fixpoint esc (s : string) : string :=
  match s with EmptyString => EmptyString | String c s' => esc_char sty c +:+ esc s' end.

Definition enc_str (s : string) : string := String quote_char (esc s +:+ String quote_char "").

(** [json.dumps(v)] *)
Fixpoint enc (v : json) : string :=
  match v with
  | JNull => "null"
  | JBool b => if b then "true" else "false"
  | JInt z => pretty z
  | JStr s => enc_str s
  | JList l => "[" +:+ join (item_sep sty) (List.map enc l) +:+ "]"
  | JObj d => "{" +:+ join (item_sep sty) (List.map (fun kv => enc_str kv.1 +:+ key_sep sty +:+ enc kv.2) d) +:+ "}"
  end.

(** ** Reading an escaped string back *)

Definition unhex (c : ascii) : nat :=
  let n := nat_of_ascii c in if n <? 58 then n - 48 else n - 87.

(** One character of an escaped string: None at the closing quote. *)
Definition unesc1 (s : string) : option (ascii * string) :=
  match s with
  | EmptyString => None
  | String c s' =>
      if Ascii.eqb c quote_char then None
      else if Ascii.eqb c backslash then
        match s' with
        | String "n" r => Some (ascii_of_nat 10, r)
        | String "r" r => Some (ascii_of_nat 13, r)
        | String "t" r => Some (ascii_of_nat 9, r)
        | String "f" r => Some (ascii_of_nat 12, r)
        | String "b" r => Some (ascii_of_nat 8, r)
        | String "u" (String _ (String _ (String a (String b r)))) =>
            Some (ascii_of_nat (16 * unhex a + unhex b), r)
        | String c' r => Some (c', r)
        | EmptyString => None
        end
      else Some (c, s')
  end.

Lemma unesc1_esc c r : unesc1 (esc_char sty c +:+ r) = Some (c, r).
Proof. generalize sty. intros []; destruct c as [[] [] [] [] [] [] [] []]; reflexivity. Qed.

Lemma esc_inj s t r1 r2 :
  esc s +:+ String quote_char r1 = esc t +:+ String quote_char r2 -> s = t /\ r1 = r2.
Proof.
  revert t. induction s as [|c s IH]; intros [|c' t] E; cbn [esc] in E.
  - by injection E as ->.
  - rewrite string_app_assoc in E. apply (f_equal unesc1) in E. rewrite unesc1_esc in E.
    discriminate.
  - rewrite string_app_assoc in E. apply (f_equal unesc1) in E. rewrite unesc1_esc in E.
    discriminate.
  - rewrite !string_app_assoc in E. apply (f_equal unesc1) in E. rewrite !unesc1_esc in E.
    injection E as -> E. by destruct (IH t E) as [-> ->].
Qed.

Lemma enc_str_inj s t r1 r2 : enc_str s +:+ r1 = enc_str t +:+ r2 -> s = t /\ r1 = r2.
Proof.
  unfold enc_str. cbn. intros E. injection E as E. rewrite !string_app_assoc in E.
  by apply esc_inj in E.
Qed.

(** ** Numbers *)

Definition is_digit (c : ascii) : bool := match digit_of c with Some _ => true | None => false end.
Fixpoint all_digits (s : string) : bool :=
  match s with EmptyString => true | String c s' => is_digit c && all_digits s' end.

(** What follows a value: the end, or a comma or closing bracket. *)
Definition ends (r : string) : bool :=
  match r with EmptyString => true | String c _ => negb (is_digit c) end.

Lemma digits_span a b r1 r2 :
  all_digits a = true -> all_digits b = true -> ends r1 = true -> ends r2 = true ->
  a +:+ r1 = b +:+ r2 -> a = b /\ r1 = r2.
Proof.
  revert b. induction a as [|c a IH]; intros [|c' b] Ha Hb H1 H2 E;
    rewrite ?string_app_nil, ?string_app_cons in E; cbn in Ha, Hb.
  - done.
  - subst r1. cbn in H1. bprop. congruence.
  - subst r2. cbn in H2. bprop. congruence.
  - injection E as -> E. bprop. by destruct (IH b) as [-> ->].
Qed.

Lemma pretty_N_char_digit x : is_digit (pretty_N_char x) = true.
Proof. unfold pretty_N_char. repeat case_match; reflexivity. Qed.

Lemma pretty_N_go_digits x s : all_digits s = true -> all_digits (pretty_N_go x s) = true.
Proof.
  revert s. induction (N.lt_wf_0 x) as [x _ IH]. intros s Hs.
  destruct (decide (x = 0%N)) as [->|Hx]; [by rewrite pretty_N_go_0|].
  rewrite pretty_N_go_step by lia. apply IH; [apply N.div_lt; lia|].
  cbn. by rewrite pretty_N_char_digit, Hs.
Qed.

Lemma pretty_N_go_length x s : String.length s <= String.length (pretty_N_go x s).
Proof.
  revert s. induction (N.lt_wf_0 x) as [x _ IH]. intros s.
  destruct (decide (x = 0%N)) as [->|Hx]; [by rewrite pretty_N_go_0|].
  rewrite pretty_N_go_step by lia.
  etransitivity; [|apply IH; apply N.div_lt; lia]. cbn. lia.
Qed.

Lemma pretty_N_digits (n : N) : all_digits (pretty n) = true.
Proof. unfold pretty, pretty_N. destruct (decide _); [done|]. by apply pretty_N_go_digits. Qed.

Lemma pretty_N_nonempty (n : N) : is_empty (pretty n) = false.
Proof.
  unfold pretty, pretty_N. destruct (decide _) as [|H]; [done|].
  rewrite pretty_N_go_step by lia.
  match goal with |- is_empty (pretty_N_go ?x ?s) = _ => pose proof (pretty_N_go_length x s) as L end.
  cbn [String.length] in L. destruct (pretty_N_go _ _); [cbn in L; lia | done].
Qed.

(** The text of an integer: an optional minus sign and digits. *)
Lemma pretty_Z_shape (z : Z) :
  exists n : N, pretty z = (if (z <? 0)%Z then "-" else "") +:+ pretty n
                /\ z = (if (z <? 0)%Z then - Z.of_N n else Z.of_N n)%Z.
Proof.
  destruct z as [|p|p].
  - by exists 0%N.
  - by exists (Npos p).
  - by exists (Npos p).
Qed.

Lemma enc_int_inj (x y : Z) r1 r2 :
  ends r1 = true -> ends r2 = true -> pretty x +:+ r1 = pretty y +:+ r2 -> x = y /\ r1 = r2.
Proof.
  intros H1 H2 E. destruct (pretty_Z_shape x) as (n & Ex & Hx), (pretty_Z_shape y) as (m & Ey & Hy).
  rewrite Ex, Ey in E. clear Ex Ey.
  assert (Hd : forall (k : N) r s, pretty k +:+ r = String "-" s -> False).
  { intros k r s Ek. pose proof (pretty_N_digits k) as D. pose proof (pretty_N_nonempty k) as N0.
    destruct (pretty k) as [|c t]; [done|]. rewrite string_app_cons in Ek.
    by injection Ek as -> _. }
  rewrite !string_app_assoc in E.
  destruct (x <? 0)%Z, (y <? 0)%Z; rewrite ?string_app_cons, !string_app_nil in E.
  - injection E as E. apply digits_span in E as [E ->]; auto using pretty_N_digits.
    apply pretty_N_inj in E. split; congruence.
  - symmetry in E. by apply Hd in E.
  - by apply Hd in E.
  - apply digits_span in E as [E ->]; auto using pretty_N_digits.
    apply pretty_N_inj in E. split; congruence.
Qed.

(** ** Values *)

(** Induction on JSON values through lists and dictionaries. *)
Section json_induction.
Variable P : json -> Prop.
Hypothesis HNull : P JNull.
Hypothesis HBool : forall b, P (JBool b).
Hypothesis HInt : forall z, P (JInt z).
Hypothesis HStr : forall s, P (JStr s).
Hypothesis HList : forall l, Forall P l -> P (JList l).
Hypothesis HObj : forall d, Forall (fun kv => P kv.2) d -> P (JObj d).

Fixpoint json_ind' (v : json) : P v :=
  match v with
  | JNull => HNull
  | JBool b => HBool b
  | JInt z => HInt z
  | JStr s => HStr s
  | JList l =>
      HList l ((fix go (l : list json) : Forall P l :=
                  match l with
                  | [] => Forall_nil_2 _
                  | v :: l' => Forall_cons_2 _ _ _ (json_ind' v) (go l')
                  end) l)
  | JObj d =>
      HObj d ((fix go (d : list (string * json)) : Forall (fun kv => P kv.2) d :=
                  match d with
                  | [] => Forall_nil_2 _
                  | kv :: d' => Forall_cons_2 _ _ _ (json_ind' kv.2) (go d')
                  end) d)
  end.
End json_induction.

(** The first character of a text, which tells the kind of value. *)
Inductive kind := KNull | KTrue | KFalse | KInt | KStr | KList | KObj | KOther.

Definition kind_of (s : string) : kind :=
  match s with
  | EmptyString => KOther
  | String c _ =>
      if Ascii.eqb c "n" then KNull else if Ascii.eqb c "t" then KTrue
      else if Ascii.eqb c "f" then KFalse else if Ascii.eqb c "[" then KList
      else if Ascii.eqb c "{" then KObj else if Ascii.eqb c quote_char then KStr
      else if is_digit c || Ascii.eqb c "-" then KInt else KOther
  end.

Definition json_kind (v : json) : kind :=
  match v with
  | JNull => KNull | JBool true => KTrue | JBool false => KFalse | JInt _ => KInt
  | JStr _ => KStr | JList _ => KList | JObj _ => KObj
  end.

Lemma kind_of_digit c s : is_digit c = true -> kind_of (String c s) = KInt.
Proof. destruct c as [[] [] [] [] [] [] [] []]; done. Qed.

Lemma kind_of_pretty (z : Z) r : kind_of (pretty z +:+ r) = KInt.
Proof.
  destruct (pretty_Z_shape z) as (n & -> & _). rewrite string_app_assoc.
  pose proof (pretty_N_digits n) as D. pose proof (pretty_N_nonempty n) as N0.
  destruct (z <? 0)%Z; [done|]. rewrite string_app_nil.
  destruct (pretty n) as [|c t]; [done|]. cbn in D. bprop. rewrite string_app_cons.
  by apply kind_of_digit.
Qed.

Lemma kind_of_enc v r : kind_of (enc v +:+ r) = json_kind v.
Proof. destruct v as [|[]|z|s|l|d]; try reflexivity. apply kind_of_pretty. Qed.

(** Elements with a common separator and a closing bracket. *)
Section items.
Context {A : Type} (item : A -> string) (close : ascii).
Hypothesis close_not_comma : close <> ","%char.
Hypothesis close_ends : is_digit close = false.

Definition items_text (l : list A) (r : string) : string :=
  join (item_sep sty) (List.map item l) +:+ String close r.

(** What follows an element. *)
Definition tail_text (l : list A) (r : string) : string :=
  match l with [] => String close r | _ => item_sep sty +:+ items_text l r end.

Lemma items_text_cons x l r : items_text (x :: l) r = item x +:+ tail_text l r.
Proof. destruct l as [|y l]; [done|]. unfold items_text, tail_text. cbn. by rewrite !string_app_assoc. Qed.

Lemma tail_text_ends l r : ends (tail_text l r) = true.
Proof.
  destruct l as [|y l]; cbn; [by rewrite close_ends |].
  by destruct (item_sep_comma sty) as [t ->].
Qed.

Lemma items_text_inj l k r1 r2 :
  Forall (fun x => forall y s1 s2, ends s1 = true -> ends s2 = true ->
            item x +:+ s1 = item y +:+ s2 -> x = y /\ s1 = s2) l ->
  (forall x s, exists c t, item x +:+ s = String c t /\ c <> close) ->
  items_text l r1 = items_text k r2 -> l = k /\ r1 = r2.
Proof.
  intros Hl Hne. revert k. induction Hl as [|x l Hx Hl IH]; intros [|y k] E.
  - unfold items_text in E. cbn in E. by injection E as ->.
  - rewrite items_text_cons in E. unfold items_text in E. cbn in E.
    destruct (Hne y (tail_text k r2)) as (c & t & Ec & Hc). rewrite Ec in E.
    rewrite string_app_nil in E. injection E as -> _. done.
  - rewrite items_text_cons in E. unfold items_text in E. cbn in E.
    destruct (Hne x (tail_text l r1)) as (c & t & Ec & Hc). rewrite Ec in E.
    rewrite string_app_nil in E. injection E as -> _. done.
  - rewrite !items_text_cons in E.
    apply Hx in E as [-> E]; [|apply tail_text_ends..].
    destruct l as [|x' l], k as [|y' k]; unfold tail_text in E.
    + by injection E as ->.
    + destruct (item_sep_comma sty) as [t Et]. rewrite Et in E. injection E as -> _. done.
    + destruct (item_sep_comma sty) as [t Et]. rewrite Et in E. injection E as <- _. done.
    + apply app_first_inj in E. by destruct (IH _ E) as [-> ->].
Qed.
End items.

(** ** Injectivity of the encoder *)

Definition pair_text (kv : string * json) : string := enc_str kv.1 +:+ key_sep sty +:+ enc kv.2.

Lemma enc_list l r : enc (JList l) +:+ r = String "[" (items_text enc "]" l r).
Proof. cbn [enc]. unfold items_text. by rewrite !string_app_assoc. Qed.

Lemma enc_obj d r : enc (JObj d) +:+ r = String "{" (items_text pair_text "}" d r).
Proof. cbn [enc]. unfold items_text. by rewrite !string_app_assoc. Qed.

Lemma enc_first v r : exists c t, enc v +:+ r = String c t /\ c <> "]"%char.
Proof.
  pose proof (kind_of_enc v r) as K. destruct (enc v +:+ r) as [|c t] eqn:E.
  - by destruct v as [|[]|z|s|l|d].
  - exists c, t. split; [done|]. intros ->. by destruct v as [|[]|z|s|l|d].
Qed.

(** The code is a prefix code: a text that begins with the text of a value, followed by
    the end, a comma or a bracket, begins with the text of no other value. *)
Lemma enc_prefix_inj v w r1 r2 :
  ends r1 = true -> ends r2 = true -> enc v +:+ r1 = enc w +:+ r2 -> v = w /\ r1 = r2.
Proof.
  revert w r1 r2. induction v as [|b|z|s|l IH|d IH] using json_ind'; intros w r1 r2 H1 H2 E.
  all: pose proof (kind_of_enc w r2) as K; rewrite <- E, kind_of_enc in K.
  all: destruct w as [|b'|z'|s'|l'|d']; try discriminate K;
    try (by destruct b); try (by destruct b'); cbn [enc] in E.
  - by apply app_first_inj in E as ->.
  - destruct b, b'; try discriminate K; by apply app_first_inj in E as ->.
  - apply enc_int_inj in E as [-> ->]; auto.
  - by apply enc_str_inj in E as [-> ->].
  - fold enc in E. change (enc (JList l) +:+ r1 = enc (JList l') +:+ r2) in E.
    rewrite !enc_list in E. injection E as E.
    apply items_text_inj in E as [-> ->]; [done..| |apply enc_first].
    eapply Forall_impl; [exact IH|]. intros x Hx y s1 s2. apply Hx.
  - change (enc (JObj d) +:+ r1 = enc (JObj d') +:+ r2) in E.
    rewrite !enc_obj in E. injection E as E.
    apply items_text_inj in E as [-> ->]; [done..| |].
    + eapply Forall_impl; [exact IH|]. intros [k x] Hx [k' y] s1 s2 E1 E2 E'.
      unfold pair_text in E'. cbn [fst snd] in E', Hx. rewrite !string_app_assoc in E'.
      apply enc_str_inj in E' as [-> E']. apply app_first_inj in E'.
      by destruct (Hx y s1 s2 E1 E2 E') as [-> ->].
    + intros [k x] s0. eexists _, _. split; [reflexivity | done].
Qed.

Lemma enc_inj v w : enc v = enc w -> v = w.
Proof.
  intros E. apply (enc_prefix_inj v w "" "" eq_refl eq_refl). by rewrite !string_app_empty.
Qed.

End encoder.

(** ** Values up to the order of keys *)

Definition key_le (a b : string * json) : bool := String.leb a.1 b.1.

(** Objects with their items sorted by key, at every depth. *)
Fixpoint canon (v : json) : json :=
  match v with
  | JList l => JList (List.map canon l)
  | JObj d => JObj (sort_by key_le (List.map (fun kv => (kv.1, canon kv.2)) d))
  | _ => v
  end.

(** [json.dumps(v, sort_keys=True)] *)
Definition dumps (v : json) : string := enc Spaced (canon v).

(** Two values have the same text exactly when they are equal up to the order of keys. *)
Lemma dumps_inj v w : dumps v = dumps w <-> canon v = canon w.
Proof. unfold dumps. split; [apply enc_inj | by intros ->]. Qed.

(** ** Sorted keys *)

(** Looking a key up ignores the sorting: the first item with the key stays first. *)
Lemma dget_insert_sorted k kv d :
  dget k (insert_sorted key_le kv d) = dget k (kv :: d).
Proof.
  destruct kv as [k0 v0]. induction d as [|[k1 v1] d IH]; [done|].
  cbn [insert_sorted]. destruct (key_le (k0, v0) (k1, v1)) eqn:E; [done|].
  rewrite dget_cons, IH, !dget_cons.
  destruct (String.eqb_spec k k1) as [->|]; [|done].
  destruct (String.eqb_spec k1 k0) as [->|]; [|done].
  unfold key_le in E. cbn in E. apply string_leb_total in E as E'. congruence.
Qed.

Lemma dget_sort k d : dget k (sort_by key_le d) = dget k d.
Proof.
  induction d as [|[k0 v0] d IH]; [done|]. cbn [sort_by foldr].
  rewrite dget_insert_sorted, !dget_cons. unfold sort_by in IH. by rewrite IH.
Qed.

(** The items of the canonical form of an object. *)
Definition canon_items (d : list (string * json)) : list (string * json) :=
  sort_by key_le (List.map (fun kv => (kv.1, canon kv.2)) d).

Lemma canon_obj d : canon (JObj d) = JObj (canon_items d).
Proof. done. Qed.

Lemma dget_canon k d : dget k (canon_items d) = canon <$> dget k d.
Proof.
  unfold canon_items. rewrite dget_sort. induction d as [|[k0 v0] d IH]; [done|].
  cbn [List.map fst snd]. rewrite !dget_cons. destruct (String.eqb k k0); [done | exact IH].
Qed.

Lemma canon_items_perm d : canon_items d ≡ₚ List.map (fun kv => (kv.1, canon kv.2)) d.
Proof. apply sort_by_perm. Qed.
