(* ===== verification/JsonRead.v ===== *)
(** [json.loads]: the decoder as a function on text, with its errors, the proof that its
    recursion ends, and the proof that it reads back what [json.dumps] wrote in either
    style.  Text is Latin-1: a numeric escape beyond it, and a number with a fraction or an
    exponent, are values this development does not represent ([Untyped]). *)
From S2P Require Import Prelude PyData JsonText.

(** ** Scanners *)

Definition is_blank (c : ascii) : bool :=
  let n := nat_of_ascii c in (n =? 32) || (n =? 9) || (n =? 10) || (n =? 13).

Fixpoint skip (s : string) : string :=
  match s with String c s' => if is_blank c then skip s' else s | _ => s end.

Definition hex_value (c : ascii) : option nat :=
  let n := nat_of_ascii c in
  if (48 <=? n) && (n <=? 57) then Some (n - 48)
  else if (65 <=? n) && (n <=? 70) then Some (n - 55)
  else if (97 <=? n) && (n <=? 102) then Some (n - 87)
  else None.

Definition escape_of (c : ascii) : option ascii :=
  let n := nat_of_ascii c in
  if (n =? 34) || (n =? 92) || (n =? 47) then Some c
  else if n =? 98 then Some (ascii_of_nat 8)
  else if n =? 102 then Some (ascii_of_nat 12)
  else if n =? 110 then Some (ascii_of_nat 10)
  else if n =? 114 then Some (ascii_of_nat 13)
  else if n =? 116 then Some (ascii_of_nat 9)
  else None.

(** A string up to its closing quote, and what follows it. *)
Fixpoint scan_string (s : string) : res (string * string) :=
  match s with
  | EmptyString => Err ValueError
  | String c s' =>
      if Ascii.eqb c quote_char then Ok ("", s')
      else if Ascii.eqb c backslash then
        match s' with
        | EmptyString => Err ValueError
        | String e r =>
            match escape_of e with
            | Some x => let! t := scan_string r in Ok (String x t.1, t.2)
            | None =>
                match e, r with
                | "u"%char, String a (String b (String c1 (String c0 r'))) =>
                    match hex_value a, hex_value b, hex_value c1, hex_value c0 with
                    | Some ha, Some hb, Some h1, Some h0 =>
                        if (ha =? 0) && (hb =? 0) then
                          let! t := scan_string r' in
                          Ok (String (ascii_of_nat (16 * h1 + h0)) t.1, t.2)
                        else Err Untyped
                    | _, _, _, _ => Err ValueError
                    end
                | _, _ => Err ValueError
                end
            end
        end
      else if nat_of_ascii c <? 32 then Err ValueError
      else let! t := scan_string s' in Ok (String c t.1, t.2)
  end.

(** The digits at the front of a text: their value on top of [acc], and the rest. *)
Fixpoint digits (acc : Z) (s : string) : Z * string :=
  match s with
  | String c s' =>
      match digit_of c with
      | Some d => digits (10 * acc + d)%Z s'
      | None => (acc, s)
      end
  | EmptyString => (acc, s)
  end.

Definition starts_digit (s : string) : bool :=
  match s with String c _ => is_digit c | _ => false end.

(** A fraction or an exponent follows. *)
Definition is_exponent (s : string) : bool :=
  match s with
  | String c s' =>
      (Ascii.eqb c "e" || Ascii.eqb c "E")
      && match s' with
         | String d s'' => is_digit d || ((Ascii.eqb d "+" || Ascii.eqb d "-") && starts_digit s'')
         | _ => false
         end
  | _ => false
  end.

Definition is_fraction (s : string) : bool :=
  match s with String c s' => Ascii.eqb c "." && starts_digit s' | _ => false end.

(** A leading zero stands alone. *)
Definition scan_number (s : string) : res (json * string) :=
  let '(neg, s) := match s with String "-" s' => (true, s') | _ => (false, s) end in
  if starts_digit s then
    let '(n, r) := match s with String "0" s' => (0%Z, s') | _ => digits 0 s end in
    if is_fraction r || is_exponent r then Err Untyped
    else Ok (JInt (if neg : bool then - n else n)%Z, r)
  else Err ValueError.

(** The words of the language; the floats among them are not represented. *)
Definition scan_word (s : string) : res (json * string) :=
  match after_prefix "null" s, after_prefix "true" s, after_prefix "false" s with
  | Some r, _, _ => Ok (JNull, r)
  | _, Some r, _ => Ok (JBool true, r)
  | _, _, Some r => Ok (JBool false, r)
  | _, _, _ =>
      match after_prefix "NaN" s, after_prefix "Infinity" s, after_prefix "-Infinity" s with
      | None, None, None => scan_number s
      | _, _, _ => Err Untyped
      end
  end.

(** ** Values *)

(** [n] bounds the recursion; [loads] gives more than the text can use. *)
Definition out_of_fuel : exn := AppError "RecursionError".

Fixpoint value (n : nat) (s : string) {struct n} : res (json * string) :=
  match n with
  | 0 => Err out_of_fuel
  | S n =>
      match s with
      | EmptyString => Err ValueError
      | String c s' =>
          if Ascii.eqb c quote_char then
            let! t := scan_string s' in Ok (JStr t.1, t.2)
          else if Ascii.eqb c "[" then
            match skip s' with
            | String "]" r => Ok (JList [], r)
            | r => let! t := elements n r in Ok (JList t.1, t.2)
            end
          else if Ascii.eqb c "{" then
            match skip s' with
            | String "}" r => Ok (JObj [], r)
            | r => let! t := members n [] r in Ok (JObj t.1, t.2)
            end
          else scan_word s
      end
  end
with elements (n : nat) (s : string) {struct n} : res (list json * string) :=
  match n with
  | 0 => Err out_of_fuel
  | S n =>
      let! t := value n s in
      match skip t.2 with
      | String "," r => let! u := elements n (skip r) in Ok (t.1 :: u.1, u.2)
      | String "]" r => Ok ([t.1], r)
      | _ => Err ValueError
      end
  end
with members (n : nat) (d : dict) (s : string) {struct n} : res (dict * string) :=
  match n with
  | 0 => Err out_of_fuel
  | S n =>
      match s with
      | String c s' =>
          if Ascii.eqb c quote_char then
            let! k := scan_string s' in
            match skip k.2 with
            | String ":" r =>
                let! t := value n (skip r) in
                let d := dset k.1 t.1 d in
                match skip t.2 with
                | String "," r => members n d (skip r)
                | String "}" r => Ok (d, r)
                | _ => Err ValueError
                end
            | _ => Err ValueError
            end
          else Err ValueError
      | EmptyString => Err ValueError
      end
  end.

(** [json.loads(s)] *)
Definition loads (s : string) : res json :=
  let s := skip s in
  let! t := value (S (S (2 * String.length s))) s in
  if is_empty (skip t.2) then Ok t.1 else Err ValueError.

(** JSON text written with single quotes. *)
Fixpoint ticks (s : string) : string :=
  match s with
  | EmptyString => EmptyString
  | String c s' => String (if nat_of_ascii c =? 39 then quote_char else c) (ticks s')
  end.

Example loads_example :
  loads (ticks " { 'a' : [1, -20 ,'x\u0041\n'], 'b':{}, 'a':null } ")
  = Ok (JObj [("a", JNull); ("b", JObj [])])
  /\ loads (ticks "[1, -20 ,'x\u0041\n']") = Ok (JList [JInt 1; JInt (-20); JStr (String "x" (String "A" (String (ascii_of_nat 10) "")))])
  /\ loads "[1,]" = Err ValueError /\ loads "01" = Err ValueError /\ loads "1.5" = Err Untyped
  /\ loads "" = Err ValueError /\ loads "true x" = Err ValueError.
Proof. by vm_compute. Qed.

(** ** The recursion ends *)

Definition consumes {A} (s : string) (m : res (A * string)) : Prop :=
  m <> Err out_of_fuel /\ forall a r, m = Ok (a, r) -> String.length r < String.length s.

Lemma consumes_err {A} s e : e <> out_of_fuel -> consumes s (Err e : res (A * string)).
Proof. intros H. split; [congruence | done]. Qed.

Lemma consumes_ok {A} s (a : A) r :
  String.length r < String.length s -> consumes s (Ok (a, r)).
Proof. intros H. split; [done|]. by intros a' r' [= <- <-]. Qed.

Lemma consumes_bind {A B} s s' (m : res (A * string)) (f : A * string -> res (B * string)) :
  consumes s' m ->
  (forall a r, String.length r < String.length s' -> consumes s (f (a, r))) ->
  consumes s (mbind f m).
Proof.
  intros [N L] F. destruct m as [[a r]|e]; cbn.
  - apply F. by apply (L a).
  - split; [congruence | done].
Qed.

Lemma skip_length s : String.length (skip s) <= String.length s.
Proof. induction s as [|c s IH]; [done|]. cbn. destruct (is_blank c); cbn; lia. Qed.

Lemma scan_string_consumes s : consumes s (scan_string s).
Proof.
  induction s as [s IH] using (induction_ltof1 _ String.length). unfold ltof in IH.
  destruct s as [|c s']; [by apply consumes_err|]. cbn [scan_string].
  assert (R : forall t x, String.length t < S (String.length s') ->
    consumes (String c s') (let! t := scan_string t in Ok (String x t.1, t.2))).
  { intros t x L. eapply consumes_bind; [by apply IH|]. intros a r Lr. apply consumes_ok. cbn in *. lia. }
  destruct (Ascii.eqb c quote_char); [apply consumes_ok; cbn; lia|].
  destruct (Ascii.eqb c backslash).
  - destruct s' as [|e r]; [by apply consumes_err|].
    destruct (escape_of e) as [x|]; [apply R; cbn; lia|].
    destruct e as [[] [] [] [] [] [] [] []]; try by apply consumes_err.
    destruct r as [|a [|b [|c1 [|c0 r']]]]; try by apply consumes_err.
    destruct (hex_value a), (hex_value b), (hex_value c1), (hex_value c0);
      try by apply consumes_err.
    case_if; [apply R; cbn; lia | by apply consumes_err].
  - case_if; [by apply consumes_err | apply R; lia].
Qed.

Lemma digits_length acc s : String.length (digits acc s).2 <= String.length s.
Proof.
  revert acc. induction s as [|c s IH]; intros acc; [done|]. cbn.
  destruct (digit_of c); [|done]. etrans; [apply IH | lia].
Qed.

Lemma digits_consumes s : starts_digit s = true -> String.length (digits 0 s).2 < String.length s.
Proof.
  destruct s as [|c s]; [done|]. cbn. unfold is_digit. destruct (digit_of c) as [d|]; [|done].
  intros _. apply Nat.lt_succ_r, digits_length.
Qed.

Lemma scan_number_consumes s : consumes s (scan_number s).
Proof.
  unfold scan_number.
  assert (M : forall neg t, String.length t <= String.length s -> consumes s
    (if starts_digit t then
       let '(n, r) := match t with String "0" s' => (0%Z, s') | _ => digits 0 t end in
       if is_fraction r || is_exponent r then Err Untyped
       else Ok (JInt (if neg : bool then - n else n)%Z, r)
     else Err ValueError)).
  { intros neg t L. destruct (starts_digit t) eqn:D; [|by apply consumes_err].
    assert (P : String.length (match t with String "0" s' => (0%Z, s') | _ => digits 0 t end).2
                < String.length t).
    { pose proof (digits_consumes t D) as DC. destruct t as [|c t]; [done|].
      destruct c as [[] [] [] [] [] [] [] []]; try exact DC. cbn. lia. }
    destruct (match t with String "0" s' => (0%Z, s') | _ => digits 0 t end) as [n r].
    cbn in P. case_if; [by apply consumes_err | apply consumes_ok; lia]. }
  destruct s as [|c s]; [by apply consumes_err|].
  destruct c as [[] [] [] [] [] [] [] []]; try exact (M false _ (le_n _)).
  apply (M true s). cbn. lia.
Qed.

Lemma after_length p s r : after_prefix p s = Some r -> String.length s = String.length p + String.length r.
Proof.
  revert s. induction p as [|a p IH]; intros s E; [by injection E as <-|].
  destruct s as [|b s]; [done|]. cbn in E. destruct (Ascii.eqb a b); [|done].
  apply IH in E. cbn. lia.
Qed.

Lemma scan_word_consumes s : consumes s (scan_word s).
Proof.
  unfold scan_word.
  destruct (after_prefix "null" s) as [r|] eqn:E1;
    [apply consumes_ok; apply after_length in E1; cbn in E1; lia|].
  destruct (after_prefix "true" s) as [r|] eqn:E2;
    [apply consumes_ok; apply after_length in E2; cbn in E2; lia|].
  destruct (after_prefix "false" s) as [r|] eqn:E3;
    [apply consumes_ok; apply after_length in E3; cbn in E3; lia|].
  destruct (after_prefix "NaN" s), (after_prefix "Infinity" s), (after_prefix "-Infinity" s);
    try (by apply consumes_err). apply scan_number_consumes.
Qed.

(** Each value takes a character at least, so twice the length is enough. *)
Lemma values_consume n :
  (forall s, 2 * String.length s < n -> consumes s (value n s))
  /\ (forall s, S (2 * String.length s) < n -> consumes s (elements n s))
  /\ (forall d s, 2 * String.length s < n -> consumes s (members n d s)).
Proof.
  induction n as [|n (IHv & IHe & IHm)]; [split_and!; lia|]. split_and!.
  - intros [|c s] L; [by apply consumes_err|]. cbn [value]. cbn [String.length] in L.
    pose proof (skip_length s) as Ls.
    assert (E : forall t, String.length t <= String.length s -> consumes (String c s)
      (let! t := elements n t in Ok (JList t.1, t.2))).
    { intros t Lt. eapply consumes_bind; [apply IHe; lia|]. intros a r Lr. apply consumes_ok.
      cbn in *. lia. }
    assert (M : forall t, String.length t <= String.length s -> consumes (String c s)
      (let! t := members n [] t in Ok (JObj t.1, t.2))).
    { intros t Lt. eapply consumes_bind; [apply IHm; lia|]. intros a r Lr. apply consumes_ok.
      cbn in *. lia. }
    case_if; [|case_if; [|case_if; [|apply scan_word_consumes]]].
    + eapply consumes_bind; [apply scan_string_consumes|]. intros a r Lr. apply consumes_ok.
      cbn in *. lia.
    + destruct (skip s) as [|d t]; [by apply E|].
      destruct d as [[] [] [] [] [] [] [] []]; try by apply E. apply consumes_ok. cbn in *. lia.
    + destruct (skip s) as [|d t]; [by apply M|].
      destruct d as [[] [] [] [] [] [] [] []]; try by apply M. apply consumes_ok. cbn in *. lia.
  - intros s L. cbn [elements]. eapply consumes_bind; [apply IHv; lia|]. intros a r Lr.
    cbn [fst snd]. pose proof (skip_length r) as Ls.
    destruct (skip r) as [|d t]; [by apply consumes_err|]. cbn in Ls.
    destruct d as [[] [] [] [] [] [] [] []]; try by apply consumes_err.
    + apply consumes_ok. lia.
    + pose proof (skip_length t). eapply consumes_bind; [apply IHe; lia|].
      intros l u Lu. apply consumes_ok. cbn in *. lia.
  - intros d [|c s] L; [by apply consumes_err|]. cbn [members]. cbn [String.length] in L.
    case_if; [|by apply consumes_err].
    eapply consumes_bind; [apply scan_string_consumes|]. intros k r Lr. cbn [fst snd].
    pose proof (skip_length r) as Ls. destruct (skip r) as [|e t]; [by apply consumes_err|].
    cbn in Ls. destruct e as [[] [] [] [] [] [] [] []]; try by apply consumes_err.
    pose proof (skip_length t). eapply consumes_bind; [apply IHv; lia|]. intros v u Lu.
    cbn [fst snd]. pose proof (skip_length u).
    destruct (skip u) as [|e t']; [by apply consumes_err|]. cbn [String.length] in *.
    destruct e as [[] [] [] [] [] [] [] []]; try by apply consumes_err.
    + apply consumes_ok. cbn. lia.
    + pose proof (skip_length t').
      destruct (IHm (dset k v d) (skip t')) as [N F]; [lia|]. split; [exact N|].
      intros a w Ea. apply F in Ea. cbn. lia.
Qed.

(** [loads] always has a result of its own. *)
Lemma loads_ends s : loads s <> Err out_of_fuel.
Proof.
  unfold loads. destruct (values_consume (S (S (2 * String.length (skip s))))) as (V & _).
  destruct (V (skip s)) as [N _]; [lia|].
  destruct (value _ (skip s)) as [[v r]|e]; cbn [mbind res_bind]; [|congruence].
  by case_if.
Qed.

(** ** Reading back what was written *)

(** What follows a value in a text: the end, a comma or a closing bracket. *)
Definition follows (r : string) : bool :=
  match r with
  | EmptyString => true
  | String c _ => Ascii.eqb c "," || Ascii.eqb c "]" || Ascii.eqb c "}"
  end.

Lemma follows_ends r : follows r = true ->
  ends r = true /\ skip r = r /\ is_fraction r || is_exponent r = false.
Proof.
  destruct r as [|c r]; [done|].
  destruct c as [[] [] [] [] [] [] [] []]; intros F; try discriminate F; done.
Qed.

Lemma scan_esc_char sty c r :
  scan_string (esc_char sty c +:+ r) = let! t := scan_string r in Ok (String c t.1, t.2).
Proof. destruct sty, c as [[] [] [] [] [] [] [] []]; reflexivity. Qed.

Lemma scan_esc sty s r : scan_string (esc sty s +:+ String quote_char r) = Ok (s, r).
Proof.
  induction s as [|c s IH]; [done|]. cbn [esc]. rewrite string_app_assoc, scan_esc_char, IH. done.
Qed.

(** *** Integers *)

Lemma digit_of_pretty x : (x < 10)%N -> digit_of (pretty_N_char x) = Some (Z.of_N x).
Proof.
  intros H. assert (x = 0 \/ x = 1 \/ x = 2 \/ x = 3 \/ x = 4 \/ x = 5 \/ x = 6 \/ x = 7 \/ x = 8
    \/ x = 9)%N as D by lia. by destruct_or! D; subst.
Qed.

Lemma digits_pretty_go x s : digits 0 (pretty_N_go x s) = digits (Z.of_N x) s.
Proof.
  revert s. induction (N.lt_wf_0 x) as [x _ IH]. intros s.
  destruct (decide (x = 0%N)) as [->|Hx]; [by rewrite pretty_N_go_0|].
  rewrite pretty_N_go_step by lia. rewrite IH by (apply N.div_lt; lia). cbn [digits].
  rewrite digit_of_pretty by (apply N.mod_lt; lia). f_equal.
  pose proof (N.div_mod x 10). lia.
Qed.

Lemma pretty_go_app x s r : pretty_N_go x s +:+ r = pretty_N_go x (s +:+ r).
Proof.
  revert s. induction (N.lt_wf_0 x) as [x _ IH]. intros s.
  destruct (decide (x = 0%N)) as [->|Hx]; [by rewrite !pretty_N_go_0|].
  rewrite !(pretty_N_go_step x) by lia. rewrite IH by (apply N.div_lt; lia). done.
Qed.

Lemma pretty_go_first x s : (0 < x)%N ->
  exists c t, pretty_N_go x s = String c t /\ is_digit c = true /\ c <> "0"%char.
Proof.
  revert s. induction (N.lt_wf_0 x) as [x _ IH]. intros s Hx.
  rewrite pretty_N_go_step by lia. destruct (decide (x < 10)%N) as [L|L].
  - rewrite N.div_small, N.mod_small, pretty_N_go_0 by lia. eexists _, _. split; [done|].
    split; [apply pretty_N_char_digit|].
    assert (x = 1 \/ x = 2 \/ x = 3 \/ x = 4 \/ x = 5 \/ x = 6 \/ x = 7 \/ x = 8 \/ x = 9)%N as D by lia.
    by destruct_or! D; subst.
  - apply IH; [apply N.div_lt; lia | apply N.div_str_pos; lia].
Qed.

Lemma digits_end z r : ends r = true -> digits z r = (z, r).
Proof.
  destruct r as [|c r]; [done|]. cbn. unfold is_digit. by destruct (digit_of c).
Qed.

(** The digits of a number that is not negative, with the test for a leading zero. *)
Lemma digits_pretty (n : N) r : ends r = true ->
  exists c t, pretty n +:+ r = String c t /\ is_digit c = true
    /\ match String c t with String "0" s' => (0%Z, s') | _ => digits 0 (String c t) end
       = (Z.of_N n, r).
Proof.
  intros E. unfold pretty, pretty_N. destruct (decide (n = 0%N)) as [->|Hn]; [by eexists _, _|].
  rewrite pretty_go_app. destruct (pretty_go_first n ("" +:+ r)) as (c & t & Ec & D & N0); [lia|].
  exists c, t. split; [exact Ec|]. split; [exact D|].
  transitivity (digits 0 (String c t)).
  - destruct c as [[] [] [] [] [] [] [] []]; try done.
  - rewrite <- Ec, digits_pretty_go. by apply digits_end.
Qed.

Lemma scan_word_digit c t : is_digit c = true ->
  scan_word (String c t) = scan_number (String c t)
  /\ scan_word (String "-" (String c t)) = scan_number (String "-" (String c t)).
Proof. destruct c as [[] [] [] [] [] [] [] []]; intros D; try discriminate D; done. Qed.

Lemma scan_pretty (z : Z) r : follows r = true -> scan_word (pretty z +:+ r) = Ok (JInt z, r).
Proof.
  intros F. apply follows_ends in F as (E & _ & X).
  destruct (pretty_Z_shape z) as (n & -> & Hz). rewrite string_app_assoc.
  destruct (digits_pretty n r E) as (c & t & -> & D & Hd).
  destruct (scan_word_digit c t D) as [W1 W2].
  destruct (z <? 0)%Z; rewrite ?string_app_cons, !string_app_nil.
  - rewrite W2. unfold scan_number. cbn [starts_digit]. rewrite D, Hd, X. by rewrite Hz.
  - rewrite W1. transitivity (if starts_digit (String c t) then
       let '(n, r) := match String c t with String "0" s' => (0%Z, s') | _ => digits 0 (String c t) end in
       if is_fraction r || is_exponent r then Err Untyped else Ok (JInt n, r)
     else Err ValueError).
    + destruct c as [[] [] [] [] [] [] [] []]; try discriminate D; done.
    + cbn [starts_digit]. rewrite D, Hd, X. by rewrite Hz.
Qed.

(** *** Values *)

(** The keys of every object are distinct, as they are in a dictionary. *)
Fixpoint distinct_keys (v : json) : Prop :=
  match v with
  | JList l => (fix go (l : list json) : Prop :=
                  match l with [] => True | v :: l' => distinct_keys v /\ go l' end) l
  | JObj d => NoDup d.*1
              /\ (fix go (d : list (string * json)) : Prop :=
                    match d with [] => True | kv :: d' => distinct_keys kv.2 /\ go d' end) d
  | _ => True
  end.

Lemma distinct_list l : distinct_keys (JList l) -> Forall distinct_keys l.
Proof. induction l as [|v l IH]; [by constructor|]. intros [H1 H2]. constructor; auto. Qed.

Lemma distinct_obj d : distinct_keys (JObj d) -> NoDup d.*1 /\ Forall (fun kv => distinct_keys kv.2) d.
Proof.
  intros [N H]. split; [done|]. clear N. induction d as [|kv d IH]; [by constructor|].
  destruct H. constructor; auto.
Qed.

Lemma dset_new k v d : (k ∉ d.*1) -> dset k v d = d ++ [(k, v)].
Proof.
  induction d as [|[k' v'] d IH]; [done|]. cbn [dset fmap list_fmap fst].
  rewrite not_elem_of_cons. intros [N1 N2]. destruct (String.eqb_spec k k'); [done|].
  by rewrite IH.
Qed.

Lemma skip_enc sty v r : skip (enc sty v +:+ r) = enc sty v +:+ r.
Proof.
  pose proof (kind_of_enc sty v r) as K. destruct (enc sty v +:+ r) as [|c t] eqn:E; [done|].
  destruct c as [[] [] [] [] [] [] [] []]; try reflexivity; by destruct v as [|[]| | | |].
Qed.

Lemma skip_item_sep sty x : exists t, item_sep sty +:+ x = String "," t /\ skip t = skip x.
Proof. destruct sty; by eexists. Qed.
Lemma skip_key_sep sty x : exists t, key_sep sty +:+ x = String ":" t /\ skip t = skip x.
Proof. destruct sty; by eexists. Qed.

Lemma value_scalar sty v n r :
  match v with JList _ | JObj _ => False | _ => True end ->
  follows r = true -> value (S n) (enc sty v +:+ r) = Ok (v, r).
Proof.
  intros S F. destruct v as [|[]|z|s|l|d]; try done.
  - pose proof (kind_of_pretty z r) as K. pose proof (scan_pretty z r F) as P. cbn [enc].
    destruct (pretty z +:+ r) as [|c t]; [done|]. cbn [value].
    destruct c as [[] [] [] [] [] [] [] []]; try discriminate K; exact P.
  - cbn [enc]. unfold enc_str. rewrite string_app_cons. cbn [value]. rewrite Ascii.eqb_refl.
    by rewrite string_app_assoc, string_app_cons, scan_esc.
Qed.

Section roundtrip.
Variable sty : style.

Definition reads (v : json) : Prop := forall n r,
  follows r = true -> 2 * String.length (enc sty v +:+ r) < n ->
  value n (enc sty v +:+ r) = Ok (v, r).

Lemma tail_follows {A} (item : A -> string) close l r :
  close = "]"%char \/ close = "}"%char -> follows (tail_text sty item close l r) = true.
Proof. intros [-> | ->]; destruct l, sty; done. Qed.

Lemma elements_read l n r :
  l <> [] -> Forall reads l -> S (2 * String.length (items_text sty (enc sty) "]" l r)) < n ->
  elements n (items_text sty (enc sty) "]" l r) = Ok (l, r).
Proof.
  revert n. induction l as [|x l IH]; [done|]. intros n _ [Hx Hl]%Forall_cons L.
  destruct n as [|n]; [lia|]. cbn [elements]. rewrite items_text_cons in L |- *.
  rewrite Hx; [|apply tail_follows; auto | lia]. cbn [mbind res_bind fst snd].
  destruct l as [|y l]; [done|]. unfold tail_text in L |- *.
  destruct (skip_item_sep sty (items_text sty (enc sty) "]" (y :: l) r)) as (t & E & Ht).
  rewrite E, string_app_length in L. cbn [String.length] in L.
  assert (P : skip t = items_text sty (enc sty) "]" (y :: l) r).
  { rewrite Ht, items_text_cons. apply skip_enc. }
  pose proof (skip_length t) as Ls. rewrite P in Ls.
  rewrite E. change (skip (String "," t)) with (String "," t). cbn match.
  rewrite P, (IH n); [done..| lia].
Qed.

Lemma members_read d0 d n r :
  d <> [] -> NoDup (d0 ++ d).*1 -> Forall (fun kv => reads kv.2) d ->
  2 * String.length (items_text sty (pair_text sty) "}" d r) < n ->
  members n d0 (items_text sty (pair_text sty) "}" d r) = Ok (d0 ++ d, r).
Proof.
  revert n d0. induction d as [|[k x] d IH]; [done|]. intros n d0 _ N [Hx Hd]%Forall_cons L.
  destruct n as [|n]; [lia|]. rewrite items_text_cons in L |- *.
  unfold pair_text at 1 in L. unfold pair_text at 1. cbn [fst snd] in *. unfold enc_str in *.
  rewrite !string_app_cons in L |- *. cbn [members]. rewrite Ascii.eqb_refl.
  rewrite !string_app_assoc, string_app_cons, string_app_nil in L |- *. rewrite scan_esc.
  cbn [mbind res_bind fst snd].
  destruct (skip_key_sep sty (enc sty x +:+ tail_text sty (pair_text sty) "}" d r)) as (t & E & Ht).
  rewrite E in L |- *. change (skip (String ":" t)) with (String ":" t). cbn match.
  rewrite skip_enc in Ht. pose proof (skip_length t) as Ls. rewrite Ht in Ls |- *.
  cbn [String.length] in L. rewrite string_app_length in L. cbn [String.length] in L.
  rewrite Hx; [|apply tail_follows; auto | lia]. cbn [mbind res_bind fst snd].
  assert (Nk : k ∉ d0.*1).
  { rewrite fmap_app in N. cbn in N. apply NoDup_app in N as (_ & N & _). intros H.
    apply (N k H), list_elem_of_here. }
  rewrite dset_new by done. destruct d as [|y d]; [done|]. unfold tail_text.
  destruct (skip_item_sep sty (items_text sty (pair_text sty) "}" (y :: d) r)) as (u & Eu & Hu).
  assert (Q : skip u = items_text sty (pair_text sty) "}" (y :: d) r).
  { rewrite Hu, items_text_cons. done. }
  rewrite Eu. change (skip (String "," u)) with (String "," u). cbn match. rewrite Q.
  assert (B : d0 ++ (k, x) :: y :: d = (d0 ++ [(k, x)]) ++ y :: d) by by rewrite <- app_assoc.
  rewrite B. apply IH; [done | by rewrite <- B | done |].
  pose proof (skip_length u) as Lu. rewrite Q in Lu. rewrite string_app_length in Ls.
  unfold tail_text in Ls. rewrite Eu in Ls. cbn [String.length] in Ls. lia.
Qed.

Lemma value_read v : distinct_keys v -> reads v.
Proof.
  induction v as [|b|z|s|l IH|d IH] using json_ind'; intros W n r F L;
    (destruct n as [|n]; [lia|]); try by apply value_scalar.
  - rewrite enc_list in L |- *. cbn [value]. change (Ascii.eqb "[" quote_char) with false.
    change (Ascii.eqb "[" "[") with true. cbn match. cbn [String.length] in L.
    destruct l as [|x l]; [done|].
    assert (S : skip (items_text sty (enc sty) "]" (x :: l) r) = items_text sty (enc sty) "]" (x :: l) r).
    { rewrite items_text_cons. apply skip_enc. }
    assert (G : (let! u := elements n (items_text sty (enc sty) "]" (x :: l) r) in
                 Ok (JList u.1, u.2)) = Ok (JList (x :: l), r)).
    { rewrite elements_read; [done..| |lia]. apply distinct_list in W.
      apply Forall_forall. intros v Hv. rewrite Forall_forall in IH, W. auto. }
    rewrite S. rewrite items_text_cons in G |- *.
    destruct (enc_first sty x (tail_text sty (enc sty) "]" l r)) as (c & t & E & N).
    rewrite E in G |- *. destruct c as [[] [] [] [] [] [] [] []]; try exact G. by destruct N.
  - rewrite enc_obj in L |- *. cbn [value]. change (Ascii.eqb "{" quote_char) with false.
    change (Ascii.eqb "{" "[") with false. change (Ascii.eqb "{" "{") with true. cbn match.
    cbn [String.length] in L. destruct d as [|[k x] d]; [done|].
    apply distinct_obj in W as [N W].
    assert (S : exists t, items_text sty (pair_text sty) "}" ((k, x) :: d) r = String quote_char t).
    { rewrite items_text_cons. unfold pair_text, enc_str. cbn [fst snd].
      rewrite !string_app_cons. by eexists. }
    destruct S as [t S]. rewrite S.
    transitivity (let! u := members n [] (String quote_char t) in Ok (JObj u.1, u.2)); [done|].
    rewrite <- S, members_read; [done..| |lia].
    apply Forall_forall. intros kv Hv. rewrite Forall_forall in IH, W. auto.
Qed.
End roundtrip.

Lemma loads_read s n : value (S (S (2 * String.length (skip s)))) (skip s) = n ->
  loads s = (let! t := n in if is_empty (skip t.2) then Ok t.1 else Err ValueError).
Proof. by intros <-. Qed.

(** What [json.dumps] wrote, [json.loads] reads back. *)
Theorem loads_enc sty v : distinct_keys v -> loads (enc sty v) = Ok v.
Proof.
  intros W. pose proof (skip_enc sty v "") as S. rewrite string_app_empty in S.
  erewrite loads_read; [|rewrite S; rewrite <- (string_app_empty (enc sty v));
    apply value_read; [exact W | done | rewrite string_app_empty; lia]]. done.
Qed.
