(* ===== verification/Lifecycle.v ===== *)
(** Issue lifecycle and its manager (apps/backend/runners/github/lifecycle.py): the state
    machine of an issue, its lock, its JSON form and the directory of lifecycle files. *)
From S2P Require Import Prelude PyData.

(** ** States and transitions *)

Inductive IssueLifecycleState :=
  | NEW | TRIAGING | TRIAGED | SPAM | DUPLICATE
  | PENDING_APPROVAL | APPROVED_FOR_FIX | REJECTED
  | SPEC_CREATING | SPEC_READY | BUILDING | BUILD_FAILED
  | PR_CREATING | PR_CREATED | PR_REVIEWING | PR_CHANGES_REQUESTED | PR_APPROVED
  | MERGED | CLOSED | WONT_FIX.

#[export] Instance state_eq_dec : EqDecision IssueLifecycleState.
Proof. solve_decision. Defined.

(** The string value of the [str] enum. *)
Definition state_value (s : IssueLifecycleState) : string :=
  match s with
  | NEW => "new" | TRIAGING => "triaging" | TRIAGED => "triaged" | SPAM => "spam"
  | DUPLICATE => "duplicate" | PENDING_APPROVAL => "pending_approval"
  | APPROVED_FOR_FIX => "approved_for_fix" | REJECTED => "rejected"
  | SPEC_CREATING => "spec_creating" | SPEC_READY => "spec_ready" | BUILDING => "building"
  | BUILD_FAILED => "build_failed" | PR_CREATING => "pr_creating"
  | PR_CREATED => "pr_created" | PR_REVIEWING => "pr_reviewing"
  | PR_CHANGES_REQUESTED => "pr_changes_requested" | PR_APPROVED => "pr_approved"
  | MERGED => "merged" | CLOSED => "closed" | WONT_FIX => "wont_fix"
  end.

(** The members, in declaration order. *)
Definition all_states : list IssueLifecycleState :=
  [NEW; TRIAGING; TRIAGED; SPAM; DUPLICATE; PENDING_APPROVAL; APPROVED_FOR_FIX; REJECTED;
   SPEC_CREATING; SPEC_READY; BUILDING; BUILD_FAILED; PR_CREATING; PR_CREATED;
   PR_REVIEWING; PR_CHANGES_REQUESTED; PR_APPROVED; MERGED; CLOSED; WONT_FIX].

(** [IssueLifecycleState(v)]: lookup of a member by value, else ValueError. *)
Definition state_of_json (v : json) : res IssueLifecycleState :=
  match v with
  | JStr s =>
      match List.find (fun st => String.eqb (state_value st) s) all_states with
      | Some st => Ok st
      | None => Err ValueError
      end
  | _ => Err ValueError
  end.

Definition terminal_states : list IssueLifecycleState :=
  [MERGED; CLOSED; WONT_FIX; SPAM; DUPLICATE].
Definition blocks_auto_fix : list IssueLifecycleState :=
  [SPAM; DUPLICATE; REJECTED; WONT_FIX].
Definition requires_triage_first : list IssueLifecycleState := [NEW; TRIAGING].

Definition VALID_TRANSITIONS (s : IssueLifecycleState) : list IssueLifecycleState :=
  match s with
  | NEW => [TRIAGING; CLOSED]
  | TRIAGING => [TRIAGED; SPAM; DUPLICATE]
  | TRIAGED => [PENDING_APPROVAL; APPROVED_FOR_FIX; REJECTED; CLOSED]
  | SPAM => [TRIAGED; CLOSED]
  | DUPLICATE => [TRIAGED; CLOSED]
  | PENDING_APPROVAL => [APPROVED_FOR_FIX; REJECTED]
  | APPROVED_FOR_FIX => [SPEC_CREATING; REJECTED]
  | REJECTED => [PENDING_APPROVAL; CLOSED]
  | SPEC_CREATING => [SPEC_READY; BUILD_FAILED]
  | SPEC_READY => [BUILDING; REJECTED]
  | BUILDING => [PR_CREATING; BUILD_FAILED]
  | BUILD_FAILED => [SPEC_CREATING; CLOSED]
  | PR_CREATING => [PR_CREATED; BUILD_FAILED]
  | PR_CREATED => [PR_REVIEWING; CLOSED]
  | PR_REVIEWING => [PR_APPROVED; PR_CHANGES_REQUESTED]
  | PR_CHANGES_REQUESTED => [BUILDING; CLOSED]
  | PR_APPROVED => [MERGED; CLOSED]
  | MERGED => [] | CLOSED => [] | WONT_FIX => []
  end.

(** [s in l] for a set of states. *)
Definition in_states (s : IssueLifecycleState) (l : list IssueLifecycleState) : bool :=
  bool_decide (s ∈ l).

Inductive ConflictType :=
  | TRIAGE_REQUIRED | BLOCKED_BY_CLASSIFICATION | INVALID_TRANSITION
  | CONCURRENT_OPERATION | STALE_STATE | REVIEW_REQUIRED.

Record ConflictResult := {
  has_conflict : bool;
  conflict_type : option ConflictType;
  message : string;
  blocking_state : option IssueLifecycleState;
  resolution_hint : option string }.

(** [ConflictResult(has_conflict=False)] *)
Definition no_conflict : ConflictResult := {|
  has_conflict := false; conflict_type := None; message := "";
  blocking_state := None; resolution_hint := None |}.

Record StateTransition := {
  from_state : IssueLifecycleState;
  to_state : IssueLifecycleState;
  timestamp : string;
  actor : string;
  reason : option string;
  metadata : dict }.

Module StateTransition.
Definition to_dict (t : StateTransition) : dict :=
  [("from_state", JStr (state_value (from_state t)));
   ("to_state", JStr (state_value (to_state t)));
   ("timestamp", JStr (timestamp t));
   ("actor", JStr (actor t));
   ("reason", JOpt (reason t));
   ("metadata", JObj (metadata t))].

Definition from_dict (data : dict) : res StateTransition :=
  let! f := req state_of_json "from_state" data in
  let! t := req state_of_json "to_state" data in
  let! ts := req as_str "timestamp" data in
  let! a := req as_str "actor" data in
  let! r := get_opt as_str "reason" data in
  let! m := get_or as_obj "metadata" [] data in
  Ok {| from_state := f; to_state := t; timestamp := ts; actor := a;
        reason := r; metadata := m |}.
End StateTransition.

Record IssueLifecycle := {
  issue_number : Z;
  repo : string;
  current_state : IssueLifecycleState;
  triage_result : option dict;
  spec_id : option string;
  pr_number : option Z;
  transitions : list StateTransition;
  locked_by : option string;
  locked_at : option string;
  created_at : string;
  updated_at : string }.

Module IssueLifecycle.
(** [IssueLifecycle(issue_number=..., repo=...)]; [now1] and [now2] are the readings of
    the clock by the two default factories. *)
Definition init (n : Z) (r now1 now2 : string) : IssueLifecycle := {|
  issue_number := n; repo := r; current_state := NEW; triage_result := None;
  spec_id := None; pr_number := None; transitions := []; locked_by := None;
  locked_at := None; created_at := now1; updated_at := now2 |}.

Definition can_transition_to (lc : IssueLifecycle) (new_state : IssueLifecycleState) : bool :=
  in_states new_state (VALID_TRANSITIONS (current_state lc)).

(** [f"Valid transitions: {[s.value for s in ...]}"]; [iter_set] is the order in which
    the interpreter enumerates the set. *)
Definition transitions_hint
    (iter_set : list IssueLifecycleState -> list IssueLifecycleState)
    (s : IssueLifecycleState) : string :=
  "Valid transitions: [" +:+
  join ", " ((fun st => "'" +:+ state_value st +:+ "'") <$> iter_set (VALID_TRANSITIONS s))
  +:+ "]".

(** [transition]: the result and the object afterwards; [now1], [now2] are the two
    clock readings of the successful branch. *)
Definition transition
    (iter_set : list IssueLifecycleState -> list IssueLifecycleState)
    (new_state : IssueLifecycleState) (actor : string) (reason : option string)
    (metadata : option dict) (now1 now2 : string) (lc : IssueLifecycle)
    : ConflictResult * IssueLifecycle :=
  if negb (can_transition_to lc new_state) then
    ({| has_conflict := true;
        conflict_type := Some INVALID_TRANSITION;
        message := "Cannot transition from " +:+ state_value (current_state lc)
                   +:+ " to " +:+ state_value new_state;
        blocking_state := Some (current_state lc);
        resolution_hint := Some (transitions_hint iter_set (current_state lc)) |}, lc)
  else
    let t := {| from_state := current_state lc; to_state := new_state;
                timestamp := now1; actor := actor; reason := reason;
                metadata := default [] metadata |} in
    (no_conflict,
     {| issue_number := issue_number lc; repo := repo lc; current_state := new_state;
        triage_result := triage_result lc; spec_id := spec_id lc;
        pr_number := pr_number lc; transitions := transitions lc ++ [t];
        locked_by := locked_by lc; locked_at := locked_at lc;
        created_at := created_at lc; updated_at := now2 |}).

Definition check_auto_fix_allowed (lc : IssueLifecycle) : ConflictResult :=
  if in_states (current_state lc) blocks_auto_fix then
    {| has_conflict := true;
       conflict_type := Some BLOCKED_BY_CLASSIFICATION;
       message := "Auto-fix blocked: issue is marked as " +:+ state_value (current_state lc);
       blocking_state := Some (current_state lc);
       resolution_hint := Some "Override classification to enable auto-fix" |}
  else if in_states (current_state lc) requires_triage_first then
    {| has_conflict := true;
       conflict_type := Some TRIAGE_REQUIRED;
       message := "Triage required before auto-fix";
       blocking_state := Some (current_state lc);
       resolution_hint := Some "Run triage first" |}
  else no_conflict.

Definition check_pr_review_required (lc : IssueLifecycle) : ConflictResult :=
  if bool_decide (current_state lc = PR_CREATED) then
    {| has_conflict := true;
       conflict_type := Some REVIEW_REQUIRED;
       message := "AI review required before human notification";
       blocking_state := None;
       resolution_hint := Some "Run AI review on the PR" |}
  else no_conflict.

Definition set_lock (by_ at_ : option string) (lc : IssueLifecycle) : IssueLifecycle := {|
  issue_number := issue_number lc; repo := repo lc; current_state := current_state lc;
  triage_result := triage_result lc; spec_id := spec_id lc; pr_number := pr_number lc;
  transitions := transitions lc; locked_by := by_; locked_at := at_;
  created_at := created_at lc; updated_at := updated_at lc |}.

Definition acquire_lock (component now : string) (lc : IssueLifecycle)
    : bool * IssueLifecycle :=
  match locked_by lc with
  | Some _ => (false, lc)
  | None => (true, set_lock (Some component) (Some now) lc)
  end.

Definition release_lock (component : string) (lc : IssueLifecycle) : bool * IssueLifecycle :=
  if negb (bool_decide (locked_by lc = Some component)) then (false, lc)
  else (true, set_lock None None lc).

Definition is_locked (lc : IssueLifecycle) : bool :=
  match locked_by lc with Some _ => true | None => false end.

Definition to_dict (lc : IssueLifecycle) : dict :=
  [("issue_number", JInt (issue_number lc));
   ("repo", JStr (repo lc));
   ("current_state", JStr (state_value (current_state lc)));
   ("triage_result", JOptDict (triage_result lc));
   ("spec_id", JOpt (spec_id lc));
   ("pr_number", JOptZ (pr_number lc));
   ("transitions", JList ((fun t => JObj (StateTransition.to_dict t)) <$> transitions lc));
   ("locked_by", JOpt (locked_by lc));
   ("locked_at", JOpt (locked_at lc));
   ("created_at", JStr (created_at lc));
   ("updated_at", JStr (updated_at lc))].

(** An element of [transitions] that is not a dictionary fails at [data["from_state"]]. *)
Definition transition_of_json (v : json) : res StateTransition :=
  match v with JObj d => StateTransition.from_dict d | _ => Err TypeError end.

(** [now1], [now2]: the clock readings used when the stamps are missing. *)
Definition from_dict (now1 now2 : string) (data : dict) : res IssueLifecycle :=
  let! n := req as_int "issue_number" data in
  let! r := req as_str "repo" data in
  let! st := get_or state_of_json "current_state" NEW data in
  let! tr := get_opt as_obj "triage_result" data in
  let! sp := get_opt as_str "spec_id" data in
  let! pr := get_opt as_int "pr_number" data in
  let! ts := get_or as_list "transitions" [] data in
  let! ts := mapM transition_of_json ts in
  let! lb := get_opt as_str "locked_by" data in
  let! la := get_opt as_str "locked_at" data in
  let! ca := get_or as_str "created_at" now1 data in
  let! ua := get_or as_str "updated_at" now2 data in
  Ok {| issue_number := n; repo := r; current_state := st; triage_result := tr;
        spec_id := sp; pr_number := pr; transitions := ts; locked_by := lb;
        locked_at := la; created_at := ca; updated_at := ua |}.
End IssueLifecycle.

(** ** The manager: one JSON file per issue in [lifecycle_dir] *)
Module LifecycleManager.
(** The directory: parsed content by file name. *)
Abbreviation store := (gmap string dict).

(** [repo.replace("/", "_")] *)
Fixpoint safe_repo (s : string) : string :=
  match s with
  | EmptyString => EmptyString
  | String c s' => String (if Ascii.eqb c "/" then "_"%char else c) (safe_repo s')
  end.

Definition get_file (repo : string) (n : Z) : string :=
  safe_repo repo +:+ "_" +:+ pretty n +:+ ".json".

Definition get (now1 now2 repo : string) (n : Z) (fs : store)
    : res (option IssueLifecycle) :=
  match fs !! get_file repo n with
  | None => Ok None
  | Some data => Some <$> IssueLifecycle.from_dict now1 now2 data
  end.

Definition save (lc : IssueLifecycle) (fs : store) : store :=
  <[get_file (repo lc) (issue_number lc) := IssueLifecycle.to_dict lc]> fs.

Definition get_or_create (now1 now2 repo : string) (n : Z) (fs : store)
    : res (IssueLifecycle * store) :=
  let! found := get now1 now2 repo n fs in
  match found with
  | Some lc => Ok (lc, fs)
  | None => let lc := IssueLifecycle.init n repo now1 now2 in Ok (lc, save lc fs)
  end.

Definition transition
    (iter_set : list IssueLifecycleState -> list IssueLifecycleState)
    (repo : string) (n : Z) (new_state : IssueLifecycleState) (actor : string)
    (reason : option string) (metadata : option dict) (now1 now2 : string) (fs : store)
    : res (ConflictResult * store) :=
  let! (lc, fs1) := get_or_create now1 now2 repo n fs in
  let '(result, lc') :=
    IssueLifecycle.transition iter_set new_state actor reason metadata now1 now2 lc in
  Ok (result, if negb (has_conflict result) then save lc' fs1 else fs1).

Definition check_conflict (repo : string) (n : Z) (operation now1 now2 : string)
    (fs : store) : res (ConflictResult * store) :=
  let! (lc, fs1) := get_or_create now1 now2 repo n fs in
  Ok (match locked_by lc with
      | Some holder =>
          {| has_conflict := true;
             conflict_type := Some CONCURRENT_OPERATION;
             message := "Issue locked by " +:+ holder;
             blocking_state := None;
             resolution_hint := Some "Wait for current operation to complete" |}
      | None =>
          if String.eqb operation "auto_fix" then IssueLifecycle.check_auto_fix_allowed lc
          else if String.eqb operation "notify_human"
          then IssueLifecycle.check_pr_review_required lc
          else no_conflict
      end, fs1).

Definition acquire_lock (repo : string) (n : Z) (component now1 now2 : string)
    (fs : store) : res (bool * store) :=
  let! (lc, fs1) := get_or_create now1 now2 repo n fs in
  let '(ok, lc') := IssueLifecycle.acquire_lock component now1 lc in
  Ok (if ok then (true, save lc' fs1) else (false, fs1)).

Definition release_lock (repo : string) (n : Z) (component now1 now2 : string)
    (fs : store) : res (bool * store) :=
  let! found := get now1 now2 repo n fs in
  match found with
  | None => Ok (false, fs)
  | Some lc =>
      let '(ok, lc') := IssueLifecycle.release_lock component lc in
      Ok (if ok then (true, save lc' fs) else (false, fs))
  end.

(** [lifecycle_dir.glob(f"{safe_repo}_*.json")]; repository names hold no glob
    metacharacter. *)
Definition glob (repo : string) (fs : store) : list (string * dict) :=
  keep (fun f => startswith (safe_repo repo +:+ "_") f.1
                 && startswith (String.rev ".json") (String.rev f.1)) (map_to_list fs).

Definition get_all_in_state (now1 now2 repo : string) (st : IssueLifecycleState)
    (fs : store) : res (list IssueLifecycle) :=
  let! lcs := mapM (fun f => IssueLifecycle.from_dict now1 now2 f.2) (glob repo fs) in
  Ok (keep (fun lc => bool_decide (current_state lc = st)) lcs).

Definition get_summary (repo : string) (fs : store) : res (gmap string nat) :=
  let! states := mapM (fun f => get_or as_str "current_state" "new" f.2) (glob repo fs) in
  Ok (foldl (fun counts s => <[s := S (default 0 (counts !! s))]> counts) ∅ states).
End LifecycleManager.

(** ** Lemmas *)

Lemma state_of_json_value s : state_of_json (JStr (state_value s)) = Ok s.
Proof. by destruct s. Qed.

Lemma all_states_complete s : s ∈ all_states.
Proof. destruct s; unfold all_states; set_solver. Qed.

Lemma in_states_spec s l : in_states s l = true <-> s ∈ l.
Proof. apply bool_decide_eq_true. Qed.

Lemma StateTransition_roundtrip t :
  StateTransition.from_dict (StateTransition.to_dict t) = Ok t.
Proof.
  destruct t as [f t ts a r m]. unfold StateTransition.from_dict, req, get_opt, get_or.
  cbn -[state_of_json state_value]. rewrite !state_of_json_value. cbn.
  by destruct r.
Qed.

Lemma as_opt_JOptDict d : as_opt as_obj (JOptDict d) = Ok d.
Proof. by destruct d. Qed.

(** The states a lifecycle object is driven through by its three mutators. *)
Inductive lc_step : IssueLifecycle -> IssueLifecycle -> Prop :=
  | step_transition it new_state actor reason metadata now1 now2 lc r lc' :
      IssueLifecycle.transition it new_state actor reason metadata now1 now2 lc = (r, lc') ->
      lc_step lc lc'
  | step_acquire component now lc b lc' :
      IssueLifecycle.acquire_lock component now lc = (b, lc') -> lc_step lc lc'
  | step_release component lc b lc' :
      IssueLifecycle.release_lock component lc = (b, lc') -> lc_step lc lc'.

(** A recorded path: each entry starts where the previous one ended, along the table. *)
Fixpoint valid_path (s : IssueLifecycleState) (ts : list StateTransition)
    (e : IssueLifecycleState) : Prop :=
  match ts with
  | [] => s = e
  | t :: ts' => from_state t = s /\ to_state t ∈ VALID_TRANSITIONS s /\
                valid_path (to_state t) ts' e
  end.

Definition log_valid (lc : IssueLifecycle) : Prop :=
  valid_path NEW (transitions lc) (current_state lc).

(** The states visited, the start included. *)
Definition visited (lc : IssueLifecycle) : list IssueLifecycleState :=
  NEW :: (to_state <$> transitions lc).

Lemma valid_path_snoc s ts m t :
  valid_path s ts m -> from_state t = m -> to_state t ∈ VALID_TRANSITIONS m ->
  valid_path s (ts ++ [t]) (to_state t).
Proof.
  revert s. induction ts as [|t0 ts IH]; intros s; cbn.
  - intros -> <- ?. done.
  - intros (? & ? & ?) ? ?. eauto.
Qed.

Lemma transition_cases it ns a r m n1 n2 lc res lc' :
  IssueLifecycle.transition it ns a r m n1 n2 lc = (res, lc') ->
  (has_conflict res = true /\ (~ ns ∈ VALID_TRANSITIONS (current_state lc)) /\ lc' = lc)
  \/ (has_conflict res = false /\ ns ∈ VALID_TRANSITIONS (current_state lc) /\
      current_state lc' = ns /\
      exists t, from_state t = current_state lc /\ to_state t = ns /\
                transitions lc' = transitions lc ++ [t]).
Proof.
  unfold IssueLifecycle.transition, IssueLifecycle.can_transition_to.
  destruct (in_states _ _) eqn:E; cbn; intros [= <- <-].
  - right. apply in_states_spec in E. cbn. split_and!; [done..|]. eexists. split_and!; [| |reflexivity]; done.
  - left. split; [done|]. split; [|done]. intros H. apply in_states_spec in H. congruence.
Qed.

Lemma log_valid_step lc lc' : lc_step lc lc' -> log_valid lc -> log_valid lc'.
Proof.
  unfold log_valid. intros Hs Hv. destruct Hs as
    [? ? ? ? ? ? ? ? ? ? H | ? ? ? ? ? H | ? ? ? ? H].
  - apply transition_cases in H as [(_ & _ & ->)|(_ & Hin & -> & t & Hf & Ht & ->)]; [done|].
    rewrite <- Ht. eapply valid_path_snoc; [done | done |]. by rewrite Ht.
  - unfold IssueLifecycle.acquire_lock in H. destruct (locked_by lc); by simplify_eq.
  - unfold IssueLifecycle.release_lock in H. case_bool_decide; cbn in H; by simplify_eq.
Qed.

Lemma log_valid_reachable n r now1 now2 lc :
  rtc lc_step (IssueLifecycle.init n r now1 now2) lc -> log_valid lc.
Proof.
  intros H. remember (IssueLifecycle.init n r now1 now2) as l0 eqn:E.
  assert (log_valid l0) as H0 by (subst; done). clear E.
  induction H; eauto using log_valid_step.
Qed.

(** A state [d] dominates [e] when every path of the table from NEW to [e] visits [d]:
    the states reachable from NEW without entering [d] are closed under the table. *)
Fixpoint reach_avoiding (fuel : nat) (d : IssueLifecycleState)
    (front : list IssueLifecycleState) : list IssueLifecycleState :=
  match fuel with
  | 0 => front
  | S fuel' =>
      reach_avoiding fuel' d
        (front ++ keep (fun s => negb (bool_decide (s = d)) && negb (in_states s front))
                       (remove_dups (front ≫= VALID_TRANSITIONS)))
  end.

Definition avoiding (d : IssueLifecycleState) : list IssueLifecycleState :=
  reach_avoiding 20 d [NEW].

Definition closed_avoiding (d : IssueLifecycleState) (l : list IssueLifecycleState) : bool :=
  forallb (fun s => forallb (fun t => bool_decide (t = d) || in_states t l)
                            (VALID_TRANSITIONS s)) l.

Lemma path_visits d l s ts e :
  closed_avoiding d l = true -> valid_path s ts e -> s ∈ l ->
  e ∈ l \/ d ∈ (to_state <$> ts).
Proof.
  intros Hcl. revert s. induction ts as [|t ts IH]; intros s; cbn.
  - intros ->. auto.
  - intros (_ & Hin & Hp) Hs.
    unfold closed_avoiding in Hcl. rewrite forallb_spec in Hcl.
    specialize (Hcl _ Hs). rewrite forallb_spec in Hcl. specialize (Hcl _ Hin).
    apply orb_true_iff in Hcl as [Hd|Hl]; bprop.
    + right. rewrite Hd. set_solver.
    + apply in_states_spec in Hl. destruct (IH _ Hp Hl); [by left|]. right. set_solver.
Qed.

Definition dominates_b (e d : IssueLifecycleState) : bool :=
  closed_avoiding d (avoiding d) && in_states NEW (avoiding d)
  && negb (in_states e (avoiding d)).

Lemma dominates e d lc :
  dominates_b e d = true -> log_valid lc -> current_state lc = e -> d ∈ visited lc.
Proof.
  unfold dominates_b. intros Hb Hv Hc. bprop.
  assert (NEW ∈ avoiding d) as Hn by by apply in_states_spec.
  subst e. destruct (path_visits d (avoiding d) NEW (transitions lc) (current_state lc))
    as [H'|H']; [done..| |].
  - apply in_states_spec in H'. congruence.
  - unfold visited. by apply elem_of_cons; right.
Qed.

Lemma IssueLifecycle_roundtrip now1 now2 lc :
  IssueLifecycle.from_dict now1 now2 (IssueLifecycle.to_dict lc) = Ok lc.
Proof.
  destruct lc as [n r st tr sp pr ts lb la ca ua].
  unfold IssueLifecycle.from_dict, IssueLifecycle.to_dict, req, get_opt, get_or.
  cbn -[state_of_json state_value as_opt mapM].
  rewrite state_of_json_value, as_opt_JOptDict, !as_opt_JOpt, as_opt_JOptZ.
  cbn -[mapM]. rewrite mapM_res_fmap; [done|].
  apply Forall_true. intros t. cbn. apply StateTransition_roundtrip.
Qed.

(** The directory invariant: every file decodes to a lifecycle with a valid log. *)
Definition store_valid (fs : LifecycleManager.store) : Prop :=
  forall f data now1 now2, fs !! f = Some data ->
    exists lc, IssueLifecycle.from_dict now1 now2 data = Ok lc /\ log_valid lc.

Lemma store_valid_save lc fs :
  log_valid lc -> store_valid fs -> store_valid (LifecycleManager.save lc fs).
Proof.
  intros Hl Hs f data now1 now2. unfold LifecycleManager.save.
  destruct (decide (f = LifecycleManager.get_file (repo lc) (issue_number lc))) as [->|Hne].
  - rewrite lookup_insert_eq. intros [= <-]. exists lc. split; [|done].
    apply IssueLifecycle_roundtrip.
  - rewrite lookup_insert_ne by done. apply Hs.
Qed.

Lemma get_or_create_valid now1 now2 r n fs :
  store_valid fs ->
  exists lc fs', LifecycleManager.get_or_create now1 now2 r n fs = Ok (lc, fs')
                 /\ log_valid lc /\ store_valid fs'.
Proof.
  intros Hs. unfold LifecycleManager.get_or_create, LifecycleManager.get.
  destruct (fs !! _) as [data|] eqn:E; cbn.
  - destruct (Hs _ _ now1 now2 E) as (lc & -> & Hl). cbn. eauto.
  - do 2 eexists. split; [done|].
    assert (log_valid (IssueLifecycle.init n r now1 now2)) by done.
    split; [done | by apply store_valid_save].
Qed.

(** ** Properties *)

(** C26 (invariant): whatever sequence of transitions, lock acquisitions and releases a
    lifecycle object goes through, its transition log is a path of [VALID_TRANSITIONS]
    from NEW to its current state. *)
Theorem reachable_log_is_valid_path n r now1 now2 lc :
  rtc lc_step (IssueLifecycle.init n r now1 now2) lc ->
  valid_path NEW (transitions lc) (current_state lc).
Proof. apply log_valid_reachable. Qed.

Lemma reachable_log_is_valid_path_witness :
  exists lc, current_state lc = TRIAGING /\
             valid_path NEW (transitions lc) (current_state lc).
Proof.
  pose (lc0 := IssueLifecycle.init 7 "o/r" "t0" "t1").
  pose (lc := snd (IssueLifecycle.transition id TRIAGING "bot" None None "t2" "t3" lc0)).
  exists lc. split; [reflexivity|].
  apply (reachable_log_is_valid_path 7 "o/r" "t0" "t1" lc).
  eapply rtc_l; [|apply rtc_refl].
  eapply (step_transition id TRIAGING "bot" None None "t2" "t3"). reflexivity.
Defined.

(** No issue is merged unreviewed.  A reachable lifecycle whose state is
    MERGED has gone through triage, approval, a ready spec, a build, an AI review of the
    pull request and its approval. *)
Theorem merged_was_reviewed n r now1 now2 lc :
  rtc lc_step (IssueLifecycle.init n r now1 now2) lc ->
  current_state lc = MERGED ->
  forall d, d ∈ [TRIAGING; TRIAGED; APPROVED_FOR_FIX; SPEC_CREATING; SPEC_READY; BUILDING;
                 PR_CREATING; PR_CREATED; PR_REVIEWING; PR_APPROVED] -> d ∈ visited lc.
Proof.
  intros Hr Hm d Hd. apply log_valid_reachable in Hr.
  apply (dominates MERGED d lc); [|done|done].
  revert d Hd. apply forallb_spec. vm_compute. reflexivity.
Qed.

(** The run of an issue along the straight path to a merge. *)
Definition run_states (l : list IssueLifecycleState) (lc : IssueLifecycle) : IssueLifecycle :=
  foldl (fun lc st => snd (IssueLifecycle.transition id st "bot" None None "t" "t" lc)) lc l.

Definition merge_path : list IssueLifecycleState :=
  [TRIAGING; TRIAGED; APPROVED_FOR_FIX; SPEC_CREATING; SPEC_READY; BUILDING; PR_CREATING;
   PR_CREATED; PR_REVIEWING; PR_APPROVED; MERGED].

Lemma run_states_reachable l lc : rtc lc_step lc (run_states l lc).
Proof.
  revert lc. induction l as [|st l IH]; intros lc; cbn; [apply rtc_refl|].
  eapply rtc_l; [|apply IH]. destruct (IssueLifecycle.transition _ _ _ _ _ _ _ lc) eqn:E.
  by eapply step_transition.
Qed.

Lemma merged_was_reviewed_witness :
  PR_REVIEWING ∈ visited (run_states merge_path (IssueLifecycle.init 7 "o/r" "t0" "t1")).
Proof.
  apply (merged_was_reviewed 7 "o/r" "t0" "t1").
  - apply run_states_reachable.
  - reflexivity.
  - do 8 right. left.
Defined.

(** The states the class calls terminal and that still have an outgoing
    transition are exactly SPAM and DUPLICATE, and no transition enters WONT_FIX. *)
Theorem terminal_states_with_exits s :
  (s ∈ terminal_states /\ VALID_TRANSITIONS s <> [] <-> s = SPAM \/ s = DUPLICATE)
  /\ ~ WONT_FIX ∈ VALID_TRANSITIONS s.
Proof.
  unfold terminal_states.
  destruct s; cbn; (split; [split|]); rewrite ?elem_of_cons, ?elem_of_nil; naive_solver.
Qed.

(** The lock is exclusive and reentrant for nobody: acquiring succeeds
    exactly when nobody holds it, releasing exactly when the caller holds it, and a
    refused call changes nothing. *)
Theorem lock_exclusive component now lc :
  let '(got, lc1) := IssueLifecycle.acquire_lock component now lc in
  let '(rel, lc2) := IssueLifecycle.release_lock component lc in
  (got = true <-> locked_by lc = None) /\
  (rel = true <-> locked_by lc = Some component) /\
  (got = true -> locked_by lc1 = Some component /\
     forall other now', other <> component ->
       IssueLifecycle.acquire_lock other now' lc1 = (false, lc1) /\
       IssueLifecycle.release_lock other lc1 = (false, lc1)) /\
  (got = false -> lc1 = lc) /\ (rel = false -> lc2 = lc) /\
  (rel = true -> locked_by lc2 = None).
Proof.
  unfold IssueLifecycle.acquire_lock, IssueLifecycle.release_lock.
  destruct (locked_by lc) as [h|] eqn:E; cbn; case_bool_decide; cbn;
    split_and!; try naive_solver.
  intros _. split; [done|]. intros other now' Hne. split; [done|].
  rewrite bool_decide_eq_false_2; [done | congruence].
Qed.

(** What [save] writes is what [get] reads back, whatever else the
    directory holds. *)
Theorem get_after_save lc fs now1 now2 :
  LifecycleManager.get now1 now2 (repo lc) (issue_number lc) (LifecycleManager.save lc fs)
  = Ok (Some lc).
Proof.
  unfold LifecycleManager.get, LifecycleManager.save. rewrite lookup_insert_eq.
  by rewrite IssueLifecycle_roundtrip.
Qed.

(** Every manager operation on a directory of valid files succeeds and
    leaves a directory of valid files. *)
Theorem manager_keeps_store_valid it r n st a why md comp op now1 now2 fs :
  store_valid fs ->
  (exists c fs', LifecycleManager.transition it r n st a why md now1 now2 fs = Ok (c, fs')
                 /\ store_valid fs') /\
  (exists c fs', LifecycleManager.check_conflict r n op now1 now2 fs = Ok (c, fs')
                 /\ store_valid fs') /\
  (exists b fs', LifecycleManager.acquire_lock r n comp now1 now2 fs = Ok (b, fs')
                 /\ store_valid fs') /\
  (exists b fs', LifecycleManager.release_lock r n comp now1 now2 fs = Ok (b, fs')
                 /\ store_valid fs').
Proof.
  intros Hs. destruct (get_or_create_valid now1 now2 r n fs Hs) as (lc & fs1 & E & Hl & Hs1).
  unfold LifecycleManager.transition, LifecycleManager.check_conflict,
    LifecycleManager.acquire_lock, LifecycleManager.release_lock.
  rewrite E. cbn. split_and!.
  - destruct (IssueLifecycle.transition _ _ _ _ _ _ _ lc) as [c lc'] eqn:Et.
    do 2 eexists. split; [done|]. case_if; [|done].
    apply store_valid_save; [|done]. eapply log_valid_step; [by eapply step_transition | done].
  - eauto.
  - destruct (IssueLifecycle.acquire_lock comp now1 lc) as [b lc'] eqn:Et.
    destruct b; do 2 eexists; (split; [done|]); [|done].
    apply store_valid_save; [|done]. eapply log_valid_step; [by eapply step_acquire | done].
  - unfold LifecycleManager.get. destruct (fs !! _) as [data|] eqn:Ed; cbn; [|eauto].
    destruct (Hs _ _ now1 now2 Ed) as (lc0 & -> & Hl0). cbn.
    destruct (IssueLifecycle.release_lock comp lc0) as [b lc'] eqn:Et.
    destruct b; do 2 eexists; (split; [done|]); [|done].
    apply store_valid_save; [|done]. eapply log_valid_step; [by eapply step_release | done].
Qed.

Lemma manager_keeps_store_valid_witness :
  exists c fs', LifecycleManager.transition id "o/r" 7 TRIAGING "bot" None None "t0" "t1" ∅
                = Ok (c, fs') /\ store_valid fs'.
Proof.
  assert (store_valid ∅) as H by (intros f data n1 n2 Hf; by rewrite lookup_empty in Hf).
  exact (proj1 (manager_keeps_store_valid id "o/r" 7 TRIAGING "bot" None None "c" "auto_fix"
                  "t0" "t1" ∅ H)).
Defined.

(** The per-repository queries read files by name prefix, so they also count
    the issues of every repository whose name continues with an underscore. *)
Theorem summary_counts_other_repository :
  let lc := IssueLifecycle.init 5 "o/r_2" "t0" "t1" in
  let fs := LifecycleManager.save lc ∅ in
  LifecycleManager.get_summary "o/r" fs = Ok {[ "new" := 1 ]} /\
  LifecycleManager.get_all_in_state "t0" "t1" "o/r" NEW fs = Ok [lc].
Proof. split; vm_compute; reflexivity. Qed.
