(* ===== verification/PlanData.v ===== *)
(** The data model of an implementation plan and its JSON form (apps/backend/
    implementation_plan/: enums.py, verification.py, subtask.py, story.py, phase.py and
    the data half of plan.py): what a load after a save gives back. *)
From S2P Require Import Prelude PyData.

(** ** Enumerations (enums.py) *)

Inductive WorkflowType :=
  | FEATURE | REFACTOR | WF_INVESTIGATION | MIGRATION | SIMPLE | DEVELOPMENT | ENHANCEMENT.

Inductive PhaseType := SETUP | IMPLEMENTATION | INVESTIGATION | INTEGRATION | CLEANUP.

Inductive SubtaskStatus := PENDING | IN_PROGRESS | COMPLETED | BLOCKED | FAILED.

Inductive VerificationType := COMMAND | API | BROWSER | COMPONENT | MANUAL | NONE.

#[export] Instance workflow_eq_dec : EqDecision WorkflowType.
Proof. solve_decision. Defined.
#[export] Instance phasetype_eq_dec : EqDecision PhaseType.
Proof. solve_decision. Defined.
#[export] Instance status_eq_dec : EqDecision SubtaskStatus.
Proof. solve_decision. Defined.

Definition workflow_value (w : WorkflowType) : string :=
  match w with
  | FEATURE => "feature" | REFACTOR => "refactor" | WF_INVESTIGATION => "investigation"
  | MIGRATION => "migration" | SIMPLE => "simple" | DEVELOPMENT => "development"
  | ENHANCEMENT => "enhancement"
  end.
Definition phasetype_value (t : PhaseType) : string :=
  match t with
  | SETUP => "setup" | IMPLEMENTATION => "implementation"
  | INVESTIGATION => "investigation" | INTEGRATION => "integration"
  | CLEANUP => "cleanup"
  end.
Definition status_value (s : SubtaskStatus) : string :=
  match s with
  | PENDING => "pending" | IN_PROGRESS => "in_progress" | COMPLETED => "completed"
  | BLOCKED => "blocked" | FAILED => "failed"
  end.
Definition verification_value (t : VerificationType) : string :=
  match t with
  | COMMAND => "command" | API => "api" | BROWSER => "browser"
  | COMPONENT => "component" | MANUAL => "manual" | NONE => "none"
  end.

#[export, program] Instance workflow_enum : PyEnum WorkflowType := {|
  members := [FEATURE; REFACTOR; WF_INVESTIGATION; MIGRATION; SIMPLE; DEVELOPMENT;
              ENHANCEMENT];
  value := workflow_value |}.
Solve All Obligations with solve_enum.

#[export, program] Instance phasetype_enum : PyEnum PhaseType := {|
  members := [SETUP; IMPLEMENTATION; INVESTIGATION; INTEGRATION; CLEANUP];
  value := phasetype_value |}.
Solve All Obligations with solve_enum.

#[export, program] Instance status_enum : PyEnum SubtaskStatus := {|
  members := [PENDING; IN_PROGRESS; COMPLETED; BLOCKED; FAILED];
  value := status_value |}.
Solve All Obligations with solve_enum.

#[export, program] Instance verification_enum : PyEnum VerificationType := {|
  members := [COMMAND; API; BROWSER; COMPONENT; MANUAL; NONE];
  value := verification_value |}.
Solve All Obligations with solve_enum.

(** ** Verification (verification.py) *)

Record Verification := {
  vf_type : VerificationType;
  vf_run : option string;
  vf_url : option string;
  vf_method : option string;
  vf_expect_status : option Z;
  vf_expect_contains : option string;
  vf_scenario : option string;
}.

Module Verification.

Definition to_dict (v : Verification) : dict :=
  dset_some "scenario" (JStr <$> vf_scenario v)
  (dset_some "expect_contains" (JStr <$> vf_expect_contains v)
  (dset_some "expect_status" (JInt <$> vf_expect_status v)
  (dset_some "method" (JStr <$> vf_method v)
  (dset_some "url" (JStr <$> vf_url v)
  (dset_some "run" (JStr <$> vf_run v)
  [("type", JStr (value (vf_type v)))]))))).

Definition from_dict (data : dict) : res Verification :=
  let! type := get_or enum_of "type" NONE data in
  let! run := get_opt as_str "run" data in
  let! url := get_opt as_str "url" data in
  let! method := get_opt as_str "method" data in
  let! expect_status := get_opt as_int "expect_status" data in
  let! expect_contains := get_opt as_str "expect_contains" data in
  let! scenario := get_opt as_str "scenario" data in
  Ok {| vf_type := type; vf_run := run; vf_url := url; vf_method := method;
        vf_expect_status := expect_status; vf_expect_contains := expect_contains;
        vf_scenario := scenario |}.

End Verification.

(** ** Subtask (subtask.py) *)

Record Subtask := {
  st_id : string;
  st_description : string;
  st_status : SubtaskStatus;
  st_service : option string;
  st_all_services : bool;
  st_depends_on : list string;
  st_model : option string;
  st_files_to_modify : list string;
  st_files_to_create : list string;
  st_patterns_from : list string;
  st_verification : option Verification;
  st_acceptance_criteria : list string;
  st_expected_output : option string;
  st_actual_output : option string;
  st_started_at : option string;
  st_completed_at : option string;
  st_critique_result : option dict;
}.

Module Subtask.

(** [Subtask(id=i, description=d)]: the dataclass defaults. *)
Definition make (i d : string) : Subtask :=
  {| st_id := i; st_description := d; st_status := PENDING; st_service := None;
     st_all_services := false; st_depends_on := []; st_model := None;
     st_files_to_modify := []; st_files_to_create := []; st_patterns_from := [];
     st_verification := None; st_acceptance_criteria := [];
     st_expected_output := None; st_actual_output := None; st_started_at := None;
     st_completed_at := None; st_critique_result := None |}.

(** Assignment to the tracking fields. *)
Definition track (s : Subtask) (status : SubtaskStatus)
    (started completed actual : option string) : Subtask :=
  {| st_id := st_id s; st_description := st_description s; st_status := status;
     st_service := st_service s; st_all_services := st_all_services s;
     st_depends_on := st_depends_on s; st_model := st_model s;
     st_files_to_modify := st_files_to_modify s;
     st_files_to_create := st_files_to_create s;
     st_patterns_from := st_patterns_from s; st_verification := st_verification s;
     st_acceptance_criteria := st_acceptance_criteria s;
     st_expected_output := st_expected_output s; st_actual_output := actual;
     st_started_at := started; st_completed_at := completed;
     st_critique_result := st_critique_result s |}.

Definition to_dict (s : Subtask) : dict :=
  dset_if (optdict_truthy (st_critique_result s)) "critique_result"
    (JOptDict (st_critique_result s))
  (dset_if (opt_truthy (st_completed_at s)) "completed_at" (JOpt (st_completed_at s))
  (dset_if (opt_truthy (st_started_at s)) "started_at" (JOpt (st_started_at s))
  (dset_if (opt_truthy (st_actual_output s)) "actual_output" (JOpt (st_actual_output s))
  (dset_if (opt_truthy (st_expected_output s)) "expected_output"
    (JOpt (st_expected_output s))
  (dset_if (list_truthy (st_acceptance_criteria s)) "acceptance_criteria"
    (JStrs (st_acceptance_criteria s))
  (dset_some "verification" (JObj ∘ Verification.to_dict <$> st_verification s)
  (dset_if (list_truthy (st_patterns_from s)) "patterns_from" (JStrs (st_patterns_from s))
  (dset_if (list_truthy (st_files_to_create s)) "files_to_create"
    (JStrs (st_files_to_create s))
  (dset_if (list_truthy (st_files_to_modify s)) "files_to_modify"
    (JStrs (st_files_to_modify s))
  (dset_if (opt_truthy (st_model s)) "model" (JOpt (st_model s))
  (dset_if (list_truthy (st_depends_on s)) "depends_on" (JStrs (st_depends_on s))
  (dset_if (st_all_services s) "all_services" (JBool true)
  (dset_if (opt_truthy (st_service s)) "service" (JOpt (st_service s))
  [("id", JStr (st_id s)); ("description", JStr (st_description s));
   ("status", JStr (value (st_status s)))]))))))))))))).

Definition from_dict (data : dict) : res Subtask :=
  let! verification := sub_record Verification.from_dict "verification" data in
  let! id := req as_str "id" data in
  let! description := req as_str "description" data in
  let! status := get_or enum_of "status" PENDING data in
  let! service := get_opt as_str "service" data in
  let! all_services := get_or as_bool "all_services" false data in
  let! depends_on := get_or as_strs "depends_on" [] data in
  let! model := get_opt as_str "model" data in
  let! files_to_modify := get_or as_strs "files_to_modify" [] data in
  let! files_to_create := get_or as_strs "files_to_create" [] data in
  let! patterns_from := get_or as_strs "patterns_from" [] data in
  let! acceptance_criteria := get_or_nil as_strs "acceptance_criteria" data in
  let! expected_output := get_opt as_str "expected_output" data in
  let! actual_output := get_opt as_str "actual_output" data in
  let! started_at := get_opt as_str "started_at" data in
  let! completed_at := get_opt as_str "completed_at" data in
  let! critique_result := get_opt as_obj "critique_result" data in
  Ok {| st_id := id; st_description := description; st_status := status;
        st_service := service; st_all_services := all_services;
        st_depends_on := depends_on; st_model := model;
        st_files_to_modify := files_to_modify; st_files_to_create := files_to_create;
        st_patterns_from := patterns_from; st_verification := verification;
        st_acceptance_criteria := acceptance_criteria;
        st_expected_output := expected_output; st_actual_output := actual_output;
        st_started_at := started_at; st_completed_at := completed_at;
        st_critique_result := critique_result |}.

(** [start]: the clock is read only when no start is recorded. *)
Definition start (now : string) (s : Subtask) : Subtask :=
  track s IN_PROGRESS
    (if opt_truthy (st_started_at s) then st_started_at s else Some now) None None.

Definition complete (now : string) (output : option string) (s : Subtask) : Subtask :=
  track s COMPLETED (st_started_at s) (Some now)
    (if opt_truthy output then output else st_actual_output s).

Definition fail (reason : option string) (s : Subtask) : Subtask :=
  track s FAILED (st_started_at s) None
    (match reason with
     | Some r => if is_empty r then st_actual_output s else Some ("FAILED: " +:+ r)
     | None => st_actual_output s
     end).

End Subtask.

(** ** Story (story.py) *)

Record TechnicalContext := {
  tc_architecture_references : list string;
  tc_stack : list string;
  tc_dependencies : list string;
  tc_technical_notes : string;
}.

Module TechnicalContext.

Definition empty : TechnicalContext :=
  {| tc_architecture_references := []; tc_stack := []; tc_dependencies := [];
     tc_technical_notes := "" |}.

Definition to_dict (t : TechnicalContext) : dict :=
  [("architecture_references", JStrs (tc_architecture_references t));
   ("stack", JStrs (tc_stack t));
   ("dependencies", JStrs (tc_dependencies t));
   ("technical_notes", JStr (tc_technical_notes t))].

Definition from_dict (data : dict) : res TechnicalContext :=
  let! refs := get_or as_strs "architecture_references" [] data in
  let! stack := get_or as_strs "stack" [] data in
  let! dependencies := get_or as_strs "dependencies" [] data in
  let! notes := get_or as_str "technical_notes" "" data in
  Ok {| tc_architecture_references := refs; tc_stack := stack;
        tc_dependencies := dependencies; tc_technical_notes := notes |}.

End TechnicalContext.

Record Story := {
  us_id : string;
  us_title : string;
  us_user_story : string;
  us_acceptance_criteria : list string;
  us_technical_context : TechnicalContext;
  us_story_points : Z;
  us_priority : string;
  us_status : SubtaskStatus;
  us_service : option string;
  us_all_services : bool;
  us_depends_on : list string;
  us_model : option string;
  us_files_to_modify : list string;
  us_files_to_create : list string;
  us_patterns_from : list string;
  us_verification : option Verification;
  us_started_at : option string;
  us_completed_at : option string;
  us_critique_result : option dict;
  us_description : option string;
}.

Module Story.

Definition track (s : Story) (status : SubtaskStatus) (started completed : option string)
  : Story :=
  {| us_id := us_id s; us_title := us_title s; us_user_story := us_user_story s;
     us_acceptance_criteria := us_acceptance_criteria s;
     us_technical_context := us_technical_context s;
     us_story_points := us_story_points s; us_priority := us_priority s;
     us_status := status; us_service := us_service s;
     us_all_services := us_all_services s; us_depends_on := us_depends_on s;
     us_model := us_model s; us_files_to_modify := us_files_to_modify s;
     us_files_to_create := us_files_to_create s; us_patterns_from := us_patterns_from s;
     us_verification := us_verification s; us_started_at := started;
     us_completed_at := completed; us_critique_result := us_critique_result s;
     us_description := us_description s |}.

Definition to_dict (s : Story) : dict :=
  dset_if (optdict_truthy (us_critique_result s)) "critique_result"
    (JOptDict (us_critique_result s))
  (dset_if (opt_truthy (us_completed_at s)) "completed_at" (JOpt (us_completed_at s))
  (dset_if (opt_truthy (us_started_at s)) "started_at" (JOpt (us_started_at s))
  (dset_some "verification" (JObj ∘ Verification.to_dict <$> us_verification s)
  (dset_if (list_truthy (us_patterns_from s)) "patterns_from" (JStrs (us_patterns_from s))
  (dset_if (list_truthy (us_files_to_create s)) "files_to_create"
    (JStrs (us_files_to_create s))
  (dset_if (list_truthy (us_files_to_modify s)) "files_to_modify"
    (JStrs (us_files_to_modify s))
  (dset_if (opt_truthy (us_model s)) "model" (JOpt (us_model s))
  (dset_if (list_truthy (us_depends_on s)) "depends_on" (JStrs (us_depends_on s))
  (dset_if (us_all_services s) "all_services" (JBool true)
  (dset_if (opt_truthy (us_service s)) "service" (JOpt (us_service s))
  [("id", JStr (us_id s)); ("title", JStr (us_title s));
   ("user_story", JStr (us_user_story s));
   ("acceptance_criteria", JStrs (us_acceptance_criteria s));
   ("technical_context", JObj (TechnicalContext.to_dict (us_technical_context s)));
   ("story_points", JInt (us_story_points s)); ("priority", JStr (us_priority s));
   ("status", JStr (value (us_status s)))])))))))))).

Definition from_dict (data : dict) : res Story :=
  let! tech_context := sub_record TechnicalContext.from_dict "technical_context" data in
  let! verification := sub_record Verification.from_dict "verification" data in
  let! id := req as_str "id" data in
  let! title := get_or as_str "title" "" data in
  let! user_story := get_or as_str "user_story" "" data in
  let! acceptance_criteria := get_or as_strs "acceptance_criteria" [] data in
  let! story_points := get_or as_int "story_points" 3%Z data in
  let! priority := get_or as_str "priority" "medium" data in
  let! status := get_or enum_of "status" PENDING data in
  let! service := get_opt as_str "service" data in
  let! all_services := get_or as_bool "all_services" false data in
  let! depends_on := get_or as_strs "depends_on" [] data in
  let! model := get_opt as_str "model" data in
  let! files_to_modify := get_or as_strs "files_to_modify" [] data in
  let! files_to_create := get_or as_strs "files_to_create" [] data in
  let! patterns_from := get_or as_strs "patterns_from" [] data in
  let! started_at := get_opt as_str "started_at" data in
  let! completed_at := get_opt as_str "completed_at" data in
  let! critique_result := get_opt as_obj "critique_result" data in
  let! description := get_opt as_str "description" data in
  Ok {| us_id := id; us_title := title; us_user_story := user_story;
        us_acceptance_criteria := acceptance_criteria;
        us_technical_context := default TechnicalContext.empty tech_context;
        us_story_points := story_points; us_priority := priority; us_status := status;
        us_service := service; us_all_services := all_services;
        us_depends_on := depends_on; us_model := model;
        us_files_to_modify := files_to_modify; us_files_to_create := files_to_create;
        us_patterns_from := patterns_from; us_verification := verification;
        us_started_at := started_at; us_completed_at := completed_at;
        us_critique_result := critique_result; us_description := description |}.

(** The migration of a subtask dictionary to a story. *)
Definition from_subtask (data : dict) : res Story :=
  let! id := req as_str "id" data in
  let! description := req as_str "description" data in
  let! status := get_or enum_of "status" PENDING data in
  let! service := get_opt as_str "service" data in
  let! all_services := get_or as_bool "all_services" false data in
  let! depends_on := get_or as_strs "depends_on" [] data in
  let! files_to_modify := get_or as_strs "files_to_modify" [] data in
  let! files_to_create := get_or as_strs "files_to_create" [] data in
  let! patterns_from := get_or as_strs "patterns_from" [] data in
  let! verification := sub_record Verification.from_dict "verification" data in
  let! started_at := get_opt as_str "started_at" data in
  let! completed_at := get_opt as_str "completed_at" data in
  let! critique_result := get_opt as_obj "critique_result" data in
  Ok {| us_id := id; us_title := String.substring 0 50 description;
        us_user_story :=
          "As a developer, I want to " +:+ lower description
          +:+ " so that the feature works correctly";
        us_acceptance_criteria :=
          ["AC1: " +:+ description; "AC2: Code follows project conventions";
           "AC3: Changes are tested and verified"];
        us_technical_context := TechnicalContext.empty;
        us_story_points := 3; us_priority := "medium"; us_status := status;
        us_service := service; us_all_services := all_services;
        us_depends_on := depends_on; us_model := None;
        us_files_to_modify := files_to_modify; us_files_to_create := files_to_create;
        us_patterns_from := patterns_from; us_verification := verification;
        us_started_at := started_at; us_completed_at := completed_at;
        us_critique_result := critique_result; us_description := Some description |}.

(** [a or b or c or d] *)
Definition get_display_description (s : Story) : string :=
  if negb (is_empty (us_user_story s)) then us_user_story s
  else if negb (is_empty (us_title s)) then us_title s
  else match truthy_opt (us_description s) with
       | Some d => d
       | None => "Story " +:+ us_id s
       end.

Definition start (now : string) (s : Story) : Story :=
  track s IN_PROGRESS
    (if opt_truthy (us_started_at s) then us_started_at s else Some now) None.

Definition complete (now : string) (output : option string) (s : Story) : Story :=
  track s COMPLETED (us_started_at s) (Some now).

Definition fail (reason : option string) (s : Story) : Story :=
  track s FAILED (us_started_at s) None.

End Story.

(** ** Phase (phase.py) *)

(** [Union[Subtask, Story]] *)
Inductive Item :=
  | ISub (s : Subtask)
  | IStory (s : Story).

Definition item_id (i : Item) : string :=
  match i with ISub s => st_id s | IStory s => us_id s end.
Definition item_status (i : Item) : SubtaskStatus :=
  match i with ISub s => st_status s | IStory s => us_status s end.
Definition item_depends_on (i : Item) : list string :=
  match i with ISub s => st_depends_on s | IStory s => us_depends_on s end.
Definition item_files_to_create (i : Item) : list string :=
  match i with ISub s => st_files_to_create s | IStory s => us_files_to_create s end.
Definition item_files_to_modify (i : Item) : list string :=
  match i with ISub s => st_files_to_modify s | IStory s => us_files_to_modify s end.
(** [str(s.description)]: a story may have none. *)
Definition item_description (i : Item) : string :=
  match i with ISub s => st_description s | IStory s => default "None" (us_description s) end.
Definition item_to_dict (i : Item) : dict :=
  match i with ISub s => Subtask.to_dict s | IStory s => Story.to_dict s end.
Definition item_start (now : string) (i : Item) : Item :=
  match i with
  | ISub s => ISub (Subtask.start now s)
  | IStory s => IStory (Story.start now s)
  end.
Definition item_complete (now : string) (output : option string) (i : Item) : Item :=
  match i with
  | ISub s => ISub (Subtask.complete now output s)
  | IStory s => IStory (Story.complete now output s)
  end.
Definition item_fail (reason : option string) (i : Item) : Item :=
  match i with
  | ISub s => ISub (Subtask.fail reason s)
  | IStory s => IStory (Story.fail reason s)
  end.

Record Phase := {
  ph_phase : Z;
  ph_name : string;
  ph_type : PhaseType;
  ph_subtasks : list Item;
  ph_depends_on : list json;
  ph_parallel_safe : bool;
}.

Module Phase.

Definition to_dict (p : Phase) : dict :=
  let items := JList (JObj ∘ item_to_dict <$> ph_subtasks p) in
  dset_if (ph_parallel_safe p) "parallel_safe" (JBool true)
  (dset_if (list_truthy (ph_depends_on p)) "depends_on" (JList (ph_depends_on p))
  [("phase", JInt (ph_phase p)); ("name", JStr (ph_name p));
   ("type", JStr (value (ph_type p))); ("subtasks", items); ("chunks", items)]).

(** The format detection: a story has one of two keys.  A string or a list passes the
    [in] tests and then fails to be indexed by a key, a scalar fails them. *)
Definition item_from_json (item : json) : res Item :=
  match item with
  | JObj d =>
      if dmem "user_story" d || dmem "acceptance_criteria" d
      then let! s := Story.from_dict d in Ok (IStory s)
      else let! s := Subtask.from_dict d in Ok (ISub s)
  | _ => Err TypeError
  end.

Definition from_dict (data : dict) (fallback_phase : Z) : res Phase :=
  let subtask_data :=
    match dget "subtasks" data with
    | Some v => v
    | None => match dget "chunks" data with Some v => v | None => JList [] end
    end in
  let! items := as_iter subtask_data in
  let! subtasks := mapM item_from_json items in
  let! phase := get_or as_int "phase" fallback_phase data in
  let! name := get_or as_str "name" ("Phase " +:+ pretty fallback_phase) data in
  let! type := get_or enum_of "type" IMPLEMENTATION data in
  let! depends_on := get_or as_list "depends_on" [] data in
  let! parallel_safe := get_or as_bool "parallel_safe" false data in
  Ok {| ph_phase := phase; ph_name := name; ph_type := type; ph_subtasks := subtasks;
        ph_depends_on := depends_on; ph_parallel_safe := parallel_safe |}.

Definition is_complete (p : Phase) : bool :=
  forallb (fun s => bool_decide (item_status s = COMPLETED)) (ph_subtasks p).

Definition get_pending_subtasks (p : Phase) : list Item :=
  keep (fun s => bool_decide (item_status s = PENDING)) (ph_subtasks p).

Definition get_progress (p : Phase) : nat * nat :=
  (countb (fun s => bool_decide (item_status s = COMPLETED)) (ph_subtasks p),
   length (ph_subtasks p)).

End Phase.

(** ** The plan (plan.py, data half) *)

Record ImplementationPlan := {
  pl_feature : string;
  pl_workflow_type : WorkflowType;
  pl_services_involved : list string;
  pl_phases : list Phase;
  pl_final_acceptance : list string;
  pl_required_commands : list string;
  pl_created_at : option string;
  pl_updated_at : option string;
  pl_spec_file : option string;
  pl_status : option string;
  pl_planStatus : option string;
  pl_reviewReason : option string;
  pl_recoveryNote : option string;
  pl_contractHold : option string;
  pl_qa_signoff : option dict;
}.

Module ImplementationPlan.

Definition to_dict (p : ImplementationPlan) : dict :=
  dset_if (optdict_truthy (pl_qa_signoff p)) "qa_signoff" (JOptDict (pl_qa_signoff p))
  (dset_if (opt_truthy (pl_contractHold p)) "contractHold" (JOpt (pl_contractHold p))
  (dset_if (opt_truthy (pl_recoveryNote p)) "recoveryNote" (JOpt (pl_recoveryNote p))
  (dset_if (opt_truthy (pl_reviewReason p)) "reviewReason" (JOpt (pl_reviewReason p))
  (dset_if (opt_truthy (pl_planStatus p)) "planStatus" (JOpt (pl_planStatus p))
  (dset_if (opt_truthy (pl_status p)) "status" (JOpt (pl_status p))
  (dset_if (list_truthy (pl_required_commands p)) "required_commands"
    (JStrs (pl_required_commands p))
  [("feature", JStr (pl_feature p)); ("workflow_type", JStr (value (pl_workflow_type p)));
   ("services_involved", JStrs (pl_services_involved p));
   ("phases", JList (JObj ∘ Phase.to_dict <$> pl_phases p));
   ("final_acceptance", JStrs (pl_final_acceptance p));
   ("created_at", JOpt (pl_created_at p)); ("updated_at", JOpt (pl_updated_at p));
   ("spec_file", JOpt (pl_spec_file p))])))))).

(** [Phase.from_dict(p, idx + 1) for idx, p in enumerate(l)]: a phase that is not an
    object has no [get]. *)
Fixpoint phases_from (idx : Z) (l : list json) : res (list Phase) :=
  match l with
  | [] => Ok []
  | JObj d :: l' =>
      let! p := Phase.from_dict d (idx + 1) in
      let! ps := phases_from (idx + 1) l' in
      Ok (p :: ps)
  | _ :: _ => Err AttributeError
  end.

(** [data.get("feature") or data.get("title") or "Unnamed Feature"] *)
Definition feature_name (data : dict) : res string :=
  match dget "feature" data with
  | Some v =>
      if truthy v then as_str v
      else match dget "title" data with
           | Some t => if truthy t then as_str t else Ok "Unnamed Feature"
           | None => Ok "Unnamed Feature"
           end
  | None =>
      match dget "title" data with
      | Some t => if truthy t then as_str t else Ok "Unnamed Feature"
      | None => Ok "Unnamed Feature"
      end
  end.

Definition from_dict (data : dict) : res ImplementationPlan :=
  let workflow_type :=
    match get_or enum_of "workflow_type" FEATURE data with
    | Ok w => w
    | Err _ => FEATURE
    end in
  let! feature := feature_name data in
  let! services_involved := get_or as_strs "services_involved" [] data in
  let! phase_data := get_or as_iter "phases" [] data in
  let! phases := phases_from 0 phase_data in
  let! final_acceptance := get_or as_strs "final_acceptance" [] data in
  let! required_commands := get_or as_strs "required_commands" [] data in
  let! created_at := get_opt as_str "created_at" data in
  let! updated_at := get_opt as_str "updated_at" data in
  let! spec_file := get_opt as_str "spec_file" data in
  let! status := get_opt as_str "status" data in
  let! planStatus := get_opt as_str "planStatus" data in
  let! reviewReason := get_opt as_str "reviewReason" data in
  let! recoveryNote := get_opt as_str "recoveryNote" data in
  let! contractHold := get_opt as_str "contractHold" data in
  let! qa_signoff := get_opt as_obj "qa_signoff" data in
  Ok {| pl_feature := feature; pl_workflow_type := workflow_type;
        pl_services_involved := services_involved; pl_phases := phases;
        pl_final_acceptance := final_acceptance;
        pl_required_commands := required_commands; pl_created_at := created_at;
        pl_updated_at := updated_at; pl_spec_file := spec_file; pl_status := status;
        pl_planStatus := planStatus; pl_reviewReason := reviewReason;
        pl_recoveryNote := recoveryNote; pl_contractHold := contractHold;
        pl_qa_signoff := qa_signoff |}.

End ImplementationPlan.

(** ** What a save and a load give back *)

(** Optional strings written only when non-empty come back as None when empty. *)
Definition reload_subtask (s : Subtask) : Subtask :=
  {| st_id := st_id s; st_description := st_description s; st_status := st_status s;
     st_service := truthy_opt (st_service s); st_all_services := st_all_services s;
     st_depends_on := st_depends_on s; st_model := truthy_opt (st_model s);
     st_files_to_modify := st_files_to_modify s;
     st_files_to_create := st_files_to_create s;
     st_patterns_from := st_patterns_from s; st_verification := st_verification s;
     st_acceptance_criteria := st_acceptance_criteria s;
     st_expected_output := truthy_opt (st_expected_output s);
     st_actual_output := truthy_opt (st_actual_output s);
     st_started_at := truthy_opt (st_started_at s);
     st_completed_at := truthy_opt (st_completed_at s);
     st_critique_result := truthy_dict (st_critique_result s) |}.

(** A story's description is not written. *)
Definition reload_story (s : Story) : Story :=
  {| us_id := us_id s; us_title := us_title s; us_user_story := us_user_story s;
     us_acceptance_criteria := us_acceptance_criteria s;
     us_technical_context := us_technical_context s;
     us_story_points := us_story_points s; us_priority := us_priority s;
     us_status := us_status s; us_service := truthy_opt (us_service s);
     us_all_services := us_all_services s; us_depends_on := us_depends_on s;
     us_model := truthy_opt (us_model s); us_files_to_modify := us_files_to_modify s;
     us_files_to_create := us_files_to_create s; us_patterns_from := us_patterns_from s;
     us_verification := us_verification s; us_started_at := truthy_opt (us_started_at s);
     us_completed_at := truthy_opt (us_completed_at s);
     us_critique_result := truthy_dict (us_critique_result s); us_description := None |}.

(** A subtask with acceptance criteria is read as a story: its outputs are dropped. *)
Definition subtask_as_story (s : Subtask) : Story :=
  {| us_id := st_id s; us_title := ""; us_user_story := "";
     us_acceptance_criteria := st_acceptance_criteria s;
     us_technical_context := TechnicalContext.empty; us_story_points := 3;
     us_priority := "medium"; us_status := st_status s;
     us_service := truthy_opt (st_service s); us_all_services := st_all_services s;
     us_depends_on := st_depends_on s; us_model := truthy_opt (st_model s);
     us_files_to_modify := st_files_to_modify s;
     us_files_to_create := st_files_to_create s; us_patterns_from := st_patterns_from s;
     us_verification := st_verification s; us_started_at := truthy_opt (st_started_at s);
     us_completed_at := truthy_opt (st_completed_at s);
     us_critique_result := truthy_dict (st_critique_result s);
     us_description := Some (st_description s) |}.

Definition reload_item (i : Item) : Item :=
  match i with
  | ISub s =>
      if list_truthy (st_acceptance_criteria s) then IStory (subtask_as_story s)
      else ISub (reload_subtask s)
  | IStory s => IStory (reload_story s)
  end.

Definition reload_phase (p : Phase) : Phase :=
  {| ph_phase := ph_phase p; ph_name := ph_name p; ph_type := ph_type p;
     ph_subtasks := reload_item <$> ph_subtasks p; ph_depends_on := ph_depends_on p;
     ph_parallel_safe := ph_parallel_safe p |}.

Definition reload_plan (p : ImplementationPlan) : ImplementationPlan :=
  {| pl_feature :=
       if is_empty (pl_feature p) then "Unnamed Feature" else pl_feature p;
     pl_workflow_type := pl_workflow_type p;
     pl_services_involved := pl_services_involved p;
     pl_phases := reload_phase <$> pl_phases p;
     pl_final_acceptance := pl_final_acceptance p;
     pl_required_commands := pl_required_commands p; pl_created_at := pl_created_at p;
     pl_updated_at := pl_updated_at p; pl_spec_file := pl_spec_file p;
     pl_status := truthy_opt (pl_status p); pl_planStatus := truthy_opt (pl_planStatus p);
     pl_reviewReason := truthy_opt (pl_reviewReason p);
     pl_recoveryNote := truthy_opt (pl_recoveryNote p);
     pl_contractHold := truthy_opt (pl_contractHold p);
     pl_qa_signoff := truthy_dict (pl_qa_signoff p) |}.

(** ** Lemmas *)

Lemma Verification_reload v : Verification.from_dict (Verification.to_dict v) = Ok v.
Proof.
  unfold Verification.from_dict. read_back Verification.to_dict.
  destruct v as [t r u m es ec sc]; cbn.
  destruct r, u, m, es, ec, sc; cbn; autorewrite with aif; reflexivity.
Qed.

Lemma TechnicalContext_reload t : TechnicalContext.from_dict (TechnicalContext.to_dict t) = Ok t.
Proof.
  unfold TechnicalContext.from_dict. read_back TechnicalContext.to_dict.
  read_fields. by destruct t.
Qed.

Lemma read_verification (v : option Verification) :
  match match (JObj ∘ Verification.to_dict <$> v) with Some w => Some w | None => None end with
  | None => Ok None
  | Some (JObj o) => Some <$> Verification.from_dict o
  | Some _ => Err AttributeError
  end = Ok v.
Proof. destruct v as [v|]; [|done]. cbn. by rewrite Verification_reload. Qed.

#[export] Hint Rewrite read_verification TechnicalContext_reload : aif.

Lemma Subtask_reload s : Subtask.from_dict (Subtask.to_dict s) = Ok (reload_subtask s).
Proof.
  unfold Subtask.from_dict. read_back Subtask.to_dict. read_fields. reflexivity.
Qed.

Lemma Story_reload s : Story.from_dict (Story.to_dict s) = Ok (reload_story s).
Proof.
  unfold Story.from_dict. read_back Story.to_dict. read_fields. reflexivity.
Qed.

(** The keys a subtask with acceptance criteria has, read by the story parser. *)
Lemma Subtask_as_story s :
  st_acceptance_criteria s <> [] ->
  Story.from_dict (Subtask.to_dict s) = Ok (subtask_as_story s).
Proof.
  intros Hac. unfold Story.from_dict. read_back Subtask.to_dict. read_fields.
  unfold subtask_as_story. by destruct (st_acceptance_criteria s).
Qed.

Lemma item_reload i : Phase.item_from_json (JObj (item_to_dict i)) = Ok (reload_item i).
Proof.
  destruct i as [s|s]; unfold Phase.item_from_json, item_to_dict, dmem.
  - read_keys Subtask.to_dict. cbn [orb]. unfold reload_item.
    destruct (list_truthy (st_acceptance_criteria s)) eqn:E.
    + rewrite Subtask_as_story; [done|]. by destruct (st_acceptance_criteria s).
    + by rewrite Subtask_reload.
  - read_keys Story.to_dict. cbn [orb]. by rewrite Story_reload.
Qed.

Lemma Phase_reload p n : Phase.from_dict (Phase.to_dict p) n = Ok (reload_phase p).
Proof.
  unfold Phase.from_dict. read_back Phase.to_dict. cbn [as_iter mbind res_bind].
  rewrite (mapM_res_fmap_to Phase.item_from_json (JObj ∘ item_to_dict) reload_item).
  2:{ intros i. apply item_reload. }
  read_fields. unfold reload_phase. destruct p as [? ? ? ? deps ?]; cbn.
  by destruct deps.
Qed.

Lemma phases_reload l n :
  ImplementationPlan.phases_from n (JObj ∘ Phase.to_dict <$> l) = Ok (reload_phase <$> l).
Proof.
  revert n. induction l as [|p l IH]; intros n; [done|].
  cbn. rewrite Phase_reload. cbn. by rewrite IH.
Qed.

Lemma plan_reload p :
  ImplementationPlan.from_dict (ImplementationPlan.to_dict p) = Ok (reload_plan p).
Proof.
  unfold ImplementationPlan.from_dict, ImplementationPlan.feature_name.
  read_back ImplementationPlan.to_dict. cbn [as_iter]. read_fields.
  rewrite phases_reload. cbn [truthy]. unfold reload_plan.
  by destruct (is_empty (pl_feature p)) eqn:E; cbn [negb mbind res_bind]; rewrite ?E.
Qed.

Lemma truthy_opt_idem s : truthy_opt (truthy_opt s) = truthy_opt s.
Proof. destruct s as [s|]; [|done]. cbn. destruct (is_empty s) eqn:E; cbn; by rewrite ?E. Qed.

Lemma truthy_dict_idem d : truthy_dict (truthy_dict d) = truthy_dict d.
Proof. by destruct d as [[|]|]. Qed.

#[export] Hint Rewrite truthy_opt_idem truthy_dict_idem : aif.

(** What the scheduler and the plan logic look at survives a reload. *)
Lemma reload_item_view i :
  item_id (reload_item i) = item_id i
  /\ item_status (reload_item i) = item_status i
  /\ item_depends_on (reload_item i) = item_depends_on i
  /\ item_files_to_create (reload_item i) = item_files_to_create i
  /\ item_files_to_modify (reload_item i) = item_files_to_modify i.
Proof. destruct i as [s|s]; cbn; [|done]. by destruct (list_truthy _). Qed.

Lemma reload_item_status i : item_status (reload_item i) = item_status i.
Proof. by apply reload_item_view. Qed.

Lemma reload_item_twice i :
  reload_item (reload_item (reload_item i)) = reload_item (reload_item i).
Proof.
  destruct i as [s|s]; cbn [reload_item].
  - destruct (list_truthy (st_acceptance_criteria s)) eqn:E; cbn [reload_item].
    + unfold reload_story. cbn. by autorewrite with aif.
    + cbn [reload_subtask st_acceptance_criteria]. rewrite E. cbn [reload_item].
      cbn [reload_subtask st_acceptance_criteria]. rewrite E.
      unfold reload_subtask. cbn. by autorewrite with aif.
  - unfold reload_story. cbn. by autorewrite with aif.
Qed.

(** A finished subtask with one acceptance criterion. *)
Definition criteria_subtask : Subtask :=
  {| st_id := "t1"; st_description := "Add the login form"; st_status := COMPLETED;
     st_service := Some "frontend"; st_all_services := false; st_depends_on := ["t0"];
     st_model := None; st_files_to_modify := []; st_files_to_create := ["login.py"];
     st_patterns_from := []; st_verification := None;
     st_acceptance_criteria := ["a wrong password is refused"];
     st_expected_output := Some "a form"; st_actual_output := Some "done";
     st_started_at := None; st_completed_at := None; st_critique_result := None |}.

(** ** Properties *)

(** C28 (roundtrip): loading what [to_dict] wrote never fails and gives back
    [reload_plan p]: the same plan with empty optional strings read as None, story
    descriptions gone and every subtask with acceptance criteria turned into a story;
    saving and loading twice reaches a form that further cycles leave unchanged. *)
Theorem plan_load_after_save (p : ImplementationPlan) :
  ImplementationPlan.from_dict (ImplementationPlan.to_dict p) = Ok (reload_plan p)
  /\ reload_plan (reload_plan (reload_plan p)) = reload_plan (reload_plan p).
Proof.
  split; [apply plan_reload |].
  unfold reload_plan. cbn. autorewrite with aif. f_equal.
  - destruct (is_empty (pl_feature p)) eqn:E; cbn; [done | by rewrite ?E].
  - rewrite <- !list_fmap_compose. apply list_fmap_ext. intros _ ph _. cbn.
    unfold reload_phase. cbn. f_equal.
    rewrite <- !list_fmap_compose. apply list_fmap_ext. intros _ i _. apply reload_item_twice.
Qed.

(** The model of acceptance criteria on a subtask does not survive the
    format detection of [Phase.from_dict].  A subtask with criteria comes back as a story
    with an empty title and an empty user story; two subtasks that differ only in their
    expected and actual outputs come back equal; and after a second save and load the
    description is gone too. *)
Theorem criteria_subtask_becomes_story (s : Subtask) :
  st_acceptance_criteria s <> [] ->
  let once := Phase.item_from_json (JObj (item_to_dict (ISub s))) in
  exists u,
    once = Ok (IStory u)
    /\ us_title u = "" /\ us_user_story u = "" /\ us_description u = Some (st_description s)
    /\ (forall expected actual,
          let s' := {| st_id := st_id s; st_description := st_description s;
            st_status := st_status s; st_service := st_service s;
            st_all_services := st_all_services s; st_depends_on := st_depends_on s;
            st_model := st_model s; st_files_to_modify := st_files_to_modify s;
            st_files_to_create := st_files_to_create s;
            st_patterns_from := st_patterns_from s; st_verification := st_verification s;
            st_acceptance_criteria := st_acceptance_criteria s;
            st_expected_output := expected; st_actual_output := actual;
            st_started_at := st_started_at s; st_completed_at := st_completed_at s;
            st_critique_result := st_critique_result s |} in
          Phase.item_from_json (JObj (item_to_dict (ISub s'))) = once)
    /\ exists u', Phase.item_from_json (JObj (item_to_dict (IStory u))) = Ok (IStory u')
                  /\ us_description u' = None.
Proof.
  intros Hac once.
  assert (Ht : list_truthy (st_acceptance_criteria s) = true)
    by (by destruct (st_acceptance_criteria s)).
  exists (subtask_as_story s). unfold once. rewrite item_reload. cbn [reload_item]. rewrite Ht.
  do 4 (split; [done|]). split.
  - intros e a. cbn zeta. rewrite item_reload. cbn [reload_item st_acceptance_criteria].
    by rewrite Ht.
  - exists (reload_story (subtask_as_story s)). split; [|done]. by rewrite item_reload.
Qed.

Lemma criteria_subtask_becomes_story_witness :
  exists u, Phase.item_from_json (JObj (item_to_dict (ISub criteria_subtask))) = Ok (IStory u)
            /\ us_title u = "".
Proof.
  destruct (criteria_subtask_becomes_story criteria_subtask) as (u & H & Ht & _);
    [discriminate | exists u; exact (conj H Ht)].
Defined.
