(* ===== verification/PlanLogic.v ===== *)
(** The behaviour of an implementation plan (apps/backend/implementation_plan/plan.py,
    factories.py): status synchronisation, which subtask comes next, progress, follow-up
    phases, and the plans the factories build. *)
From S2P Require Import Prelude PyData PlanData.

(** ** Phase dependencies *)

(** [_resolve_dep_phase_number] *)
Definition resolve_dep_phase_number (dep : json) : option Z :=
  match dep with
  | JBool _ => None
  | JInt n => Some n
  | JStr s => first_int s
  | _ => None
  end.

(** Assignment to the status fields of a plan. *)
Definition set_status (p : ImplementationPlan) (status plan_status reason : option string)
  : ImplementationPlan :=
  {| pl_feature := pl_feature p; pl_workflow_type := pl_workflow_type p;
     pl_services_involved := pl_services_involved p; pl_phases := pl_phases p;
     pl_final_acceptance := pl_final_acceptance p;
     pl_required_commands := pl_required_commands p; pl_created_at := pl_created_at p;
     pl_updated_at := pl_updated_at p; pl_spec_file := pl_spec_file p;
     pl_status := status; pl_planStatus := plan_status; pl_reviewReason := reason;
     pl_recoveryNote := pl_recoveryNote p; pl_contractHold := pl_contractHold p;
     pl_qa_signoff := pl_qa_signoff p |}.

Definition set_times (p : ImplementationPlan) (created updated : option string)
  : ImplementationPlan :=
  {| pl_feature := pl_feature p; pl_workflow_type := pl_workflow_type p;
     pl_services_involved := pl_services_involved p; pl_phases := pl_phases p;
     pl_final_acceptance := pl_final_acceptance p;
     pl_required_commands := pl_required_commands p; pl_created_at := created;
     pl_updated_at := updated; pl_spec_file := pl_spec_file p; pl_status := pl_status p;
     pl_planStatus := pl_planStatus p; pl_reviewReason := pl_reviewReason p;
     pl_recoveryNote := pl_recoveryNote p; pl_contractHold := pl_contractHold p;
     pl_qa_signoff := pl_qa_signoff p |}.

(** Assignment to the subtasks of a phase and to the phases of a plan. *)
Definition set_subtasks (ph : Phase) (l : list Item) : Phase :=
  {| ph_phase := ph_phase ph; ph_name := ph_name ph; ph_type := ph_type ph; ph_subtasks := l;
     ph_depends_on := ph_depends_on ph; ph_parallel_safe := ph_parallel_safe ph |}.
Definition set_phases (p : ImplementationPlan) (phases : list Phase) : ImplementationPlan :=
  {| pl_feature := pl_feature p; pl_workflow_type := pl_workflow_type p;
     pl_services_involved := pl_services_involved p; pl_phases := phases;
     pl_final_acceptance := pl_final_acceptance p;
     pl_required_commands := pl_required_commands p; pl_created_at := pl_created_at p;
     pl_updated_at := pl_updated_at p; pl_spec_file := pl_spec_file p; pl_status := pl_status p;
     pl_planStatus := pl_planStatus p; pl_reviewReason := pl_reviewReason p;
     pl_recoveryNote := pl_recoveryNote p; pl_contractHold := pl_contractHold p;
     pl_qa_signoff := pl_qa_signoff p |}.
(** The same edit of every subtask of a plan. *)
Definition map_items (f : Item -> Item) (p : ImplementationPlan) : ImplementationPlan :=
  set_phases p ((fun ph => set_subtasks ph (f <$> ph_subtasks ph)) <$> pl_phases p).

(** Reopens a plan: in progress, without a QA verdict. *)
Definition reopen (p : ImplementationPlan) (phases : list Phase) (note : option string)
  : ImplementationPlan :=
  {| pl_feature := pl_feature p; pl_workflow_type := pl_workflow_type p;
     pl_services_involved := pl_services_involved p; pl_phases := phases;
     pl_final_acceptance := pl_final_acceptance p;
     pl_required_commands := pl_required_commands p; pl_created_at := pl_created_at p;
     pl_updated_at := pl_updated_at p; pl_spec_file := pl_spec_file p;
     pl_status := Some "in_progress"; pl_planStatus := Some "in_progress";
     pl_reviewReason := pl_reviewReason p; pl_recoveryNote := note;
     pl_contractHold := pl_contractHold p; pl_qa_signoff := None |}.

(** ** Progress percentage

    [round(100 * d / t, 1)] in tenths: a correctly rounded binary64 quotient, rounded to
    the nearest tenth of its exact value, ties to even both times. *)

(** The binary64 value nearest to [a / b]: a 53-bit mantissa [m] and an exponent [e], the
    value being [m * 2^-e]. *)
Definition binary64_div (a b : Z) : Z * Z :=
  if (a =? 0)%Z then (0, 0)%Z
  else
    let e0 := (53 - (Z.log2 a - Z.log2 b))%Z in
    let scaled e := if (0 <=? e)%Z then (a * 2 ^ e, b)%Z else (a, b * 2 ^ (- e))%Z in
    let '(n, d) := scaled e0 in
    let e := if (2 ^ 53 <=? n / d)%Z then (e0 - 1)%Z else e0 in
    let '(n, d) := scaled e in
    (round_half_even n d, e).

Definition percent_tenths (done total : Z) : Z :=
  let '(m, e) := binary64_div (100 * done) total in
  if (0 <=? e)%Z then round_half_even (10 * m) (2 ^ e)
  else round_half_even (10 * m * 2 ^ (- e)) 1.

Record Progress := {
  pg_total_phases : nat;
  pg_completed_phases : nat;
  pg_total_subtasks : nat;
  pg_completed_subtasks : nat;
  pg_failed_subtasks : nat;
  pg_percent_tenths : Z;
  pg_is_complete : bool;
}.

(** [str] of the percentage: a float with one decimal, or the int 0 of an empty plan. *)
Definition percent_str (g : Progress) : string :=
  if pg_total_subtasks g =? 0 then "0"
  else pretty (pg_percent_tenths g / 10)%Z +:+ "." +:+ pretty (pg_percent_tenths g mod 10)%Z.

Module Plan.

(** [[s for p in self.phases for s in p.subtasks]] *)
Definition all_subtasks (p : ImplementationPlan) : list Item :=
  concat (ph_subtasks <$> pl_phases p).

Definition has_status (st : SubtaskStatus) (i : Item) : bool :=
  bool_decide (item_status i = st).

(** [self.qa_signoff and self.qa_signoff.get("status") == "approved"] *)
Definition qa_approved (p : ImplementationPlan) : bool :=
  match pl_qa_signoff p with
  | Some d => match dget "status" d with
              | Some (JStr s) => String.eqb s "approved"
              | _ => false
              end
  | None => false
  end.

Definition update_status_from_subtasks (p : ImplementationPlan) : ImplementationPlan :=
  let subtasks := all_subtasks p in
  match subtasks with
  | [] =>
      set_status p
        (if opt_truthy (pl_status p) then pl_status p else Some "backlog")
        (if opt_truthy (pl_planStatus p) then pl_planStatus p else Some "pending")
        (pl_reviewReason p)
  | _ =>
      let completed_count := countb (has_status COMPLETED) subtasks in
      let failed_count := countb (has_status FAILED) subtasks in
      let in_progress_count := countb (has_status IN_PROGRESS) subtasks in
      let total_count := length subtasks in
      if completed_count =? total_count then
        if qa_approved p then
          set_status p (Some "human_review") (Some "review") (Some "completed")
        else set_status p (Some "ai_review") (Some "review") (pl_reviewReason p)
      else if 0 <? failed_count then
        set_status p (Some "in_progress") (Some "in_progress") (pl_reviewReason p)
      else if (0 <? in_progress_count) || (0 <? completed_count) then
        set_status p (Some "in_progress") (Some "in_progress") (pl_reviewReason p)
      else if bool_decide (pl_status p = Some "human_review")
              && bool_decide (pl_planStatus p = Some "review") then p
      else set_status p (Some "backlog") (Some "pending") (pl_reviewReason p)
  end.

(** [save]: the plan in memory after the call and the dictionary written. *)
Definition save (now : string) (p : ImplementationPlan) : ImplementationPlan * dict :=
  let p := set_times p
             (if opt_truthy (pl_created_at p) then pl_created_at p else Some now)
             (Some now) in
  let p := update_status_from_subtasks p in
  (p, ImplementationPlan.to_dict p).

(** [load], from the parsed file. *)
Definition load (v : json) : res ImplementationPlan :=
  match v with
  | JObj d => ImplementationPlan.from_dict d
  | _ => Err AttributeError
  end.

Definition completed_numbers (p : ImplementationPlan) : list Z :=
  ph_phase <$> keep Phase.is_complete (pl_phases p).

(** [_resolve_dep_phase_number(d) in completed_numbers] for every dependency *)
Definition deps_met (completed : list Z) (ph : Phase) : bool :=
  forallb (fun d => match resolve_dep_phase_number d with
                    | Some n => bool_decide (n ∈ completed)
                    | None => false
                    end) (ph_depends_on ph).

Definition get_available_phases (p : ImplementationPlan) : list Phase :=
  keep (fun ph => negb (Phase.is_complete ph) && deps_met (completed_numbers p) ph)
    (pl_phases p).

(** The first phase of the list with a pending subtask, and that subtask. *)
Fixpoint first_pending (l : list Phase) : option (Phase * Item) :=
  match l with
  | [] => None
  | ph :: l' =>
      match Phase.get_pending_subtasks ph with
      | s :: _ => Some (ph, s)
      | [] => first_pending l'
      end
  end.

(** The phases a dependency stall leaves to the stall breaker. *)
Definition stalled_phases (p : ImplementationPlan) : list Phase :=
  keep (fun ph => negb (Phase.is_complete ph)
                  && list_truthy (Phase.get_pending_subtasks ph)) (pl_phases p).

Definition get_next_subtask (p : ImplementationPlan) : option (Phase * Item) :=
  match first_pending (get_available_phases p) with
  | Some r => Some r
  | None =>
      match stalled_phases p with
      | [] => None
      | ph :: l =>
          let ph := min_by (fun a b => (ph_phase a <=? ph_phase b)%Z) ph l in
          match Phase.get_pending_subtasks ph with
          | s :: _ => Some (ph, s)
          | [] => None
          end
      end
  end.

Definition get_progress (p : ImplementationPlan) : Progress :=
  let total := sum_list (length ∘ ph_subtasks <$> pl_phases p) in
  let completed := countb (has_status COMPLETED) (all_subtasks p) in
  let failed := countb (has_status FAILED) (all_subtasks p) in
  {| pg_total_phases := length (pl_phases p);
     pg_completed_phases := countb Phase.is_complete (pl_phases p);
     pg_total_subtasks := total;
     pg_completed_subtasks := completed;
     pg_failed_subtasks := failed;
     pg_percent_tenths :=
       if 0 <? total then percent_tenths (Z.of_nat completed) (Z.of_nat total) else 0;
     pg_is_complete := (completed =? total) && (failed =? 0) |}.

Definition get_status_summary (p : ImplementationPlan) : string :=
  let g := get_progress p in
  let lines :=
    ["Feature: " +:+ pl_feature p;
     "Workflow: " +:+ value (pl_workflow_type p);
     "Progress: " +:+ pretty (pg_completed_subtasks g) +:+ "/"
       +:+ pretty (pg_total_subtasks g) +:+ " subtasks (" +:+ percent_str g +:+ "%)";
     "Phases: " +:+ pretty (pg_completed_phases g) +:+ "/" +:+ pretty (pg_total_phases g)
       +:+ " complete"]
    ++ (if 0 <? pg_failed_subtasks g then
          ["Failed: " +:+ pretty (pg_failed_subtasks g) +:+ " subtasks need attention"]
        else [])
    ++ (if pg_is_complete g then
          ["Status: COMPLETE - Ready for final acceptance testing"]
        else match get_next_subtask p with
             | Some (ph, s) =>
                 ["Next: Phase " +:+ pretty (ph_phase ph) +:+ " (" +:+ ph_name ph
                    +:+ ") - " +:+ item_description s]
             | None => ["Status: BLOCKED - No available subtasks"]
             end) in
  join (String (ascii_of_nat 10) "") lines.

(** [max(p.phase for p in self.phases)] *)
Definition max_phase (first : Phase) (l : list Phase) : Z :=
  foldl (fun m ph => Z.max m (ph_phase ph)) (ph_phase first) l.

Definition add_followup_phase (name : string) (subtasks : list Item) (phase_type : PhaseType)
    (parallel_safe : bool) (p : ImplementationPlan) : ImplementationPlan * Phase :=
  let '(next_phase_num, depends_on) :=
    match pl_phases p with
    | ph :: l => ((max_phase ph l + 1)%Z, JInt ∘ ph_phase <$> pl_phases p)
    | [] => (1%Z, [])
    end in
  let new_phase :=
    {| ph_phase := next_phase_num; ph_name := name; ph_type := phase_type;
       ph_subtasks := subtasks; ph_depends_on := depends_on;
       ph_parallel_safe := parallel_safe |} in
  (reopen p (pl_phases p ++ [new_phase]) (pl_recoveryNote p), new_phase).

Definition in_opt (s : option string) (l : list string) : bool :=
  match s with Some s => bool_decide (s ∈ l) | None => false end.

Definition reset_for_followup (p : ImplementationPlan) : ImplementationPlan * bool :=
  let is_completed :=
    in_opt (pl_status p) ["done"; "ai_review"; "human_review"]
    || in_opt (pl_planStatus p) ["completed"; "review"] in
  let subtasks := all_subtasks p in
  let all_subtasks_done :=
    list_truthy subtasks && forallb (has_status COMPLETED) subtasks in
  if negb (is_completed || all_subtasks_done) then (p, false)
  else (reopen p (pl_phases p) None, true).

End Plan.

(** ** Factories (factories.py) *)

Module Factories.

(** [ImplementationPlan(feature=..., workflow_type=..., ...)] with the other defaults. *)
Definition new_plan (feature : string) (w : WorkflowType) (services : list string)
    (phases : list Phase) (now : string) : ImplementationPlan :=
  {| pl_feature := feature; pl_workflow_type := w; pl_services_involved := services;
     pl_phases := phases; pl_final_acceptance := []; pl_required_commands := [];
     pl_created_at := Some now; pl_updated_at := None; pl_spec_file := None;
     pl_status := None; pl_planStatus := None; pl_reviewReason := None;
     pl_recoveryNote := None; pl_contractHold := None; pl_qa_signoff := None |}.

(** [Subtask.from_dict(s)]: what is not an object cannot be indexed by a key. *)
Definition subtask_from_json (v : json) : res Item :=
  match v with
  | JObj d => let! s := Subtask.from_dict d in Ok (ISub s)
  | _ => Err TypeError
  end.

(** One phase of a configuration; [deps] is the default of [depends_on] and [safe] says
    whether the factory reads [parallel_safe]. *)
Definition phase_from_config (i : Z) (deps : list json) (safe : bool) (config : dict)
  : res Phase :=
  let! items := get_or as_iter "subtasks" [] config in
  let! subtasks := mapM subtask_from_json items in
  let! name := req as_str "name" config in
  let! type := get_or enum_of "type" IMPLEMENTATION config in
  let! depends_on := get_or as_list "depends_on" deps config in
  let! parallel_safe :=
    if safe then get_or as_bool "parallel_safe" false config else Ok false in
  Ok {| ph_phase := i; ph_name := name; ph_type := type; ph_subtasks := subtasks;
        ph_depends_on := depends_on; ph_parallel_safe := parallel_safe |}.

Fixpoint feature_phases (i : Z) (configs : list dict) : res (list Phase) :=
  match configs with
  | [] => Ok []
  | c :: cs =>
      let! ph := phase_from_config i [] true c in
      let! l := feature_phases (i + 1) cs in
      Ok (ph :: l)
  end.

Definition create_feature_plan (now feature : string) (services : list string)
    (phases_config : list dict) : res ImplementationPlan :=
  let! phases := feature_phases 1 phases_config in
  Ok (new_plan feature FEATURE services phases now).

Definition with_expected (s : Subtask) (expected : option string) (st : SubtaskStatus) : Item :=
  ISub {| st_id := st_id s; st_description := st_description s; st_status := st;
     st_service := st_service s; st_all_services := st_all_services s;
     st_depends_on := st_depends_on s; st_model := st_model s;
     st_files_to_modify := st_files_to_modify s;
     st_files_to_create := st_files_to_create s;
     st_patterns_from := st_patterns_from s; st_verification := st_verification s;
     st_acceptance_criteria := st_acceptance_criteria s;
     st_expected_output := expected; st_actual_output := st_actual_output s;
     st_started_at := st_started_at s; st_completed_at := st_completed_at s;
     st_critique_result := st_critique_result s |}.

Definition create_investigation_plan (now bug_description : string) (services : list string)
  : ImplementationPlan :=
  let item i d e st := with_expected (Subtask.make i d) e st in
  let phase n name t items deps :=
    {| ph_phase := n; ph_name := name; ph_type := t; ph_subtasks := items;
       ph_depends_on := deps; ph_parallel_safe := false |} in
  new_plan ("Fix: " +:+ bug_description) WF_INVESTIGATION services
    [phase 1%Z "Reproduce & Instrument" INVESTIGATION
       [item "add-logging" "Add detailed logging around suspected areas"
          (Some "Logs capture relevant state and events") PENDING;
        item "create-repro" "Create reliable reproduction steps"
          (Some "Can reproduce bug on demand") PENDING] [];
     phase 2%Z "Identify Root Cause" INVESTIGATION
       [item "analyze" "Analyze logs and behavior"
          (Some "Root cause hypothesis with evidence") PENDING] [JInt 1];
     phase 3%Z "Implement Fix" IMPLEMENTATION
       [item "fix" "[TO BE DETERMINED FROM INVESTIGATION]" None BLOCKED;
        item "regression-test" "Add regression test to prevent recurrence" None BLOCKED]
       [JInt 2]]
    now.

Fixpoint refactor_phases (i : Z) (stages : list dict) : res (list Phase) :=
  match stages with
  | [] => Ok []
  | c :: cs =>
      let! ph := phase_from_config i (if (1 <? i)%Z then [JInt (i - 1)] else []) false c in
      let! l := refactor_phases (i + 1) cs in
      Ok (ph :: l)
  end.

Definition create_refactor_plan (now description : string) (services : list string)
    (stages : list dict) : res ImplementationPlan :=
  let! phases := refactor_phases 1 stages in
  Ok (new_plan description REFACTOR services phases now).

End Factories.

Example percent_rounds :
  (percent_tenths 1 3, percent_tenths 2 3, percent_tenths 1 16, percent_tenths 3 16,
   percent_tenths 7 7, percent_tenths 0 5, percent_tenths 1 2000, percent_tenths 9 2000)
  = (333, 667, 62, 188, 1000, 0, 1, 5)%Z.
Proof. vm_compute. reflexivity. Qed.

(** ** Lemmas *)

Lemma elem_of_pending ph s :
  s ∈ Phase.get_pending_subtasks ph <-> s ∈ ph_subtasks ph /\ item_status s = PENDING.
Proof. unfold Phase.get_pending_subtasks. rewrite elem_of_keep, bool_decide_eq_true. done. Qed.

Lemma is_complete_spec ph :
  Phase.is_complete ph = true <-> forall s, s ∈ ph_subtasks ph -> item_status s = COMPLETED.
Proof.
  unfold Phase.is_complete. rewrite forallb_spec.
  split; intros H s Hs; specialize (H s Hs); by apply bool_decide_eq_true in H || apply bool_decide_eq_true.
Qed.

Lemma pending_not_complete ph s :
  s ∈ Phase.get_pending_subtasks ph -> Phase.is_complete ph = false.
Proof.
  rewrite elem_of_pending. intros [Hs Hp].
  destruct (Phase.is_complete ph) eqn:E; [|done].
  rewrite is_complete_spec in E. specialize (E s Hs). congruence.
Qed.

Lemma elem_of_all_subtasks p s :
  s ∈ Plan.all_subtasks p <-> exists ph, ph ∈ pl_phases p /\ s ∈ ph_subtasks ph.
Proof.
  unfold Plan.all_subtasks. rewrite list_elem_of_In, in_concat. split.
  - intros (l & Hl & Hs). apply list_elem_of_In, list_elem_of_fmap in Hl as (ph & -> & Hph).
    exists ph. split; [done | by apply list_elem_of_In].
  - intros (ph & Hph & Hs). exists (ph_subtasks ph).
    split; [apply list_elem_of_In, list_elem_of_fmap; eauto | by apply list_elem_of_In].
Qed.

Lemma first_pending_Some l ph s :
  Plan.first_pending l = Some (ph, s) ->
  ph ∈ l /\ exists rest, Phase.get_pending_subtasks ph = s :: rest.
Proof.
  induction l as [|ph' l IH]; cbn; [done|].
  destruct (Phase.get_pending_subtasks ph') as [|s' rest] eqn:E.
  - intros H. destruct (IH H) as [Hin Hr]. split; [by apply list_elem_of_further | done].
  - intros [= <- <-]. split; [apply list_elem_of_here | eauto].
Qed.

Lemma first_pending_None l :
  Plan.first_pending l = None <-> forall ph, ph ∈ l -> Phase.get_pending_subtasks ph = [].
Proof.
  induction l as [|ph' l IH]; cbn.
  - split; [intros _ ph Hph; by apply elem_of_nil in Hph | done].
  - destruct (Phase.get_pending_subtasks ph') as [|s' rest] eqn:E.
    + rewrite IH. split; intros H ph Hph; [|apply H; by apply list_elem_of_further].
      apply elem_of_cons in Hph as [->|Hph]; [done | by apply H].
    + split; [done|]. intros H. rewrite (H ph' (list_elem_of_here _ _)) in E. done.
Qed.

Lemma elem_of_stalled p ph :
  ph ∈ Plan.stalled_phases p <->
  ph ∈ pl_phases p /\ Phase.get_pending_subtasks ph <> [].
Proof.
  unfold Plan.stalled_phases. rewrite elem_of_keep. split; intros [Hph H]; split; auto.
  - bprop. by destruct (Phase.get_pending_subtasks ph).
  - destruct (Phase.get_pending_subtasks ph) as [|s l] eqn:E; [done|].
    rewrite (pending_not_complete ph s); [done|]. rewrite E. apply list_elem_of_here.
Qed.

Lemma elem_of_available p ph :
  ph ∈ Plan.get_available_phases p <->
  ph ∈ pl_phases p /\ Phase.is_complete ph = false
  /\ Plan.deps_met (Plan.completed_numbers p) ph = true.
Proof.
  unfold Plan.get_available_phases.
  rewrite elem_of_keep, andb_true_iff, negb_true_iff. done.
Qed.


Lemma max_phase_ge ph l q : q ∈ ph :: l -> (ph_phase q <= Plan.max_phase ph l)%Z.
Proof.
  unfold Plan.max_phase.
  assert (G : forall l m, (m <= foldl (fun m ph => Z.max m (ph_phase ph)) m l)%Z
             /\ forall q, q ∈ l -> (ph_phase q <= foldl (fun m ph => Z.max m (ph_phase ph)) m l)%Z).
  { clear. intros l. induction l as [|x l IH]; intros m; cbn.
    - split; [lia | intros q Hq; by apply elem_of_nil in Hq].
    - destruct (IH (Z.max m (ph_phase x))) as [H1 H2]. split; [lia|].
      intros q Hq. apply elem_of_cons in Hq as [->|Hq]; [lia | by apply H2]. }
  intros Hq. apply elem_of_cons in Hq as [->|Hq]; [exact (proj1 (G l _)) | exact (proj2 (G l _) q Hq)].
Qed.

Lemma reload_phase_complete ph : Phase.is_complete (reload_phase ph) = Phase.is_complete ph.
Proof. apply forallb_fmap. intros i. by rewrite reload_item_status. Qed.

Lemma reload_phase_pending ph :
  Phase.get_pending_subtasks (reload_phase ph) = reload_item <$> Phase.get_pending_subtasks ph.
Proof. apply keep_fmap. intros i. by rewrite reload_item_status. Qed.

Lemma reload_deps_met c ph : Plan.deps_met c (reload_phase ph) = Plan.deps_met c ph.
Proof. done. Qed.

Lemma reload_completed_numbers p :
  Plan.completed_numbers (reload_plan p) = Plan.completed_numbers p.
Proof.
  unfold Plan.completed_numbers. cbn [pl_phases reload_plan].
  rewrite keep_fmap by apply reload_phase_complete. by rewrite <- list_fmap_compose.
Qed.

Lemma reload_first_pending l :
  Plan.first_pending (reload_phase <$> l)
  = prod_map reload_phase reload_item <$> Plan.first_pending l.
Proof.
  induction l as [|ph l IH]; [done|].
  cbn [Plan.first_pending fmap list_fmap]. rewrite reload_phase_pending.
  destruct (Phase.get_pending_subtasks ph); [exact IH | done].
Qed.

Lemma reload_min_by l ph :
  min_by (fun a b => (ph_phase a <=? ph_phase b)%Z) (reload_phase ph) (reload_phase <$> l)
  = reload_phase (min_by (fun a b => (ph_phase a <=? ph_phase b)%Z) ph l).
Proof.
  revert ph. induction l as [|x l IH]; intros ph; [done|].
  cbn -[Z.leb]. rewrite <- IH. by destruct (ph_phase ph <=? ph_phase x)%Z.
Qed.

Lemma reload_all_subtasks p :
  Plan.all_subtasks (reload_plan p) = reload_item <$> Plan.all_subtasks p.
Proof.
  unfold Plan.all_subtasks. cbn [pl_phases reload_plan].
  induction (pl_phases p) as [|ph l IH]; [done|]. cbn. by rewrite IH, fmap_app.
Qed.

Lemma reload_has_status st i : Plan.has_status st (reload_item i) = Plan.has_status st i.
Proof. unfold Plan.has_status. by rewrite reload_item_status. Qed.

Lemma length_all_subtasks p :
  length (Plan.all_subtasks p) = sum_list (length ∘ ph_subtasks <$> pl_phases p).
Proof.
  unfold Plan.all_subtasks. induction (pl_phases p) as [|ph l IH]; [done|].
  cbn. by rewrite length_app, IH.
Qed.

(** A subtask some agent has taken up. *)
Definition started (i : Item) : bool :=
  Plan.has_status COMPLETED i || Plan.has_status FAILED i || Plan.has_status IN_PROGRESS i.

Lemma started_exists l :
  existsb started l = (0 <? countb (Plan.has_status FAILED) l)
                      || ((0 <? countb (Plan.has_status IN_PROGRESS) l)
                          || (0 <? countb (Plan.has_status COMPLETED) l)).
Proof.
  induction l as [|i l IH]; [done|].
  cbn [existsb]. rewrite !countb_cons, IH. unfold started.
  destruct (Plan.has_status FAILED i), (Plan.has_status IN_PROGRESS i),
    (Plan.has_status COMPLETED i); cbn; rewrite ?orb_true_r, ?orb_false_r; done.
Qed.

(** The decision [update_status_from_subtasks] takes, on what it depends on: are there
    subtasks, are all completed, was one started, did QA approve. *)
Lemma update_status_cases p :
  Plan.all_subtasks p <> [] ->
  Plan.update_status_from_subtasks p =
  if forallb (Plan.has_status COMPLETED) (Plan.all_subtasks p) then
    if Plan.qa_approved p then
      set_status p (Some "human_review") (Some "review") (Some "completed")
    else set_status p (Some "ai_review") (Some "review") (pl_reviewReason p)
  else if existsb started (Plan.all_subtasks p) then
    set_status p (Some "in_progress") (Some "in_progress") (pl_reviewReason p)
  else if bool_decide (pl_status p = Some "human_review")
          && bool_decide (pl_planStatus p = Some "review") then p
  else set_status p (Some "backlog") (Some "pending") (pl_reviewReason p).
Proof.
  intros Hne. unfold Plan.update_status_from_subtasks. rewrite started_exists.
  destruct (Plan.all_subtasks p) as [|i l] eqn:E; [done|]. rewrite <- E. clear Hne E i l.
  pose proof (countb_all (Plan.has_status COMPLETED) (Plan.all_subtasks p)) as Hall.
  destruct (countb (Plan.has_status COMPLETED) (Plan.all_subtasks p) =? _) eqn:Ec.
  - apply Nat.eqb_eq, Hall in Ec. by rewrite Ec.
  - destruct (forallb _ _) eqn:Ef.
    + assert (H : true = true) by done. apply Hall in H. rewrite H, Nat.eqb_refl in Ec. done.
    + by destruct (0 <? countb (Plan.has_status FAILED) _).
Qed.

Lemma set_status_view p a b c :
  Plan.all_subtasks (set_status p a b c) = Plan.all_subtasks p
  /\ Plan.qa_approved (set_status p a b c) = Plan.qa_approved p.
Proof. done. Qed.

(** A plan that has not begun: one of the investigation factory. *)
Definition sample_plan : ImplementationPlan :=
  Factories.create_investigation_plan "2025-01-01T00:00:00+00:00" "crash on save" ["backend"].

(** ** Properties *)

(** [get_next_subtask] returns nothing exactly when no subtask of the
    plan is pending.  What it returns is the first pending subtask of a phase of the
    plan, and that phase either has every dependency resolved to the number of a
    complete phase, or no available phase has pending work and the phase has the least
    number among those that do. *)
Theorem next_subtask_spec (p : ImplementationPlan) :
  match Plan.get_next_subtask p with
  | Some (ph, s) =>
      ph ∈ pl_phases p
      /\ (exists rest, Phase.get_pending_subtasks ph = s :: rest)
      /\ ((forall d, d ∈ ph_depends_on ph ->
             exists q, q ∈ pl_phases p /\ Phase.is_complete q = true
                       /\ resolve_dep_phase_number d = Some (ph_phase q))
          \/ ((forall q, q ∈ Plan.get_available_phases p -> Phase.get_pending_subtasks q = [])
              /\ forall q, q ∈ pl_phases p -> Phase.get_pending_subtasks q <> [] ->
                           (ph_phase ph <= ph_phase q)%Z))
  | None => forall s, s ∈ Plan.all_subtasks p -> item_status s <> PENDING
  end.
Proof.
  unfold Plan.get_next_subtask.
  destruct (Plan.first_pending (Plan.get_available_phases p)) as [[ph s]|] eqn:E.
  - apply first_pending_Some in E as [Hph Hr].
    apply elem_of_available in Hph as (Hph & _ & Hd).
    split; [done|]. split; [done|]. left. intros d Hin.
    unfold Plan.deps_met in Hd. rewrite forallb_spec in Hd. specialize (Hd d Hin).
    destruct (resolve_dep_phase_number d) as [n|]; [|done]. bprop.
    apply list_elem_of_fmap in Hd as (q & -> & Hq). apply elem_of_keep in Hq as [Hq1 Hq2]. eauto.
  - rewrite first_pending_None in E.
    destruct (Plan.stalled_phases p) as [|ph0 l] eqn:Es.
    + intros s Hs Hpend. apply elem_of_all_subtasks in Hs as (ph & Hph & Hs).
      assert (Hin : ph ∈ Plan.stalled_phases p).
      { apply elem_of_stalled. split; [done|]. intros Hn.
        assert (H : s ∈ Phase.get_pending_subtasks ph) by by apply elem_of_pending.
        rewrite Hn in H. by apply elem_of_nil in H. }
      rewrite Es in Hin. by apply elem_of_nil in Hin.
    + set (le := fun a b => (ph_phase a <=? ph_phase b)%Z).
      pose proof (min_by_elem le l ph0) as Hin. rewrite <- Es in Hin.
      apply elem_of_stalled in Hin as [Hin Hne].
      destruct (Phase.get_pending_subtasks (min_by le ph0 l)) as [|s rest] eqn:Ep; [done|].
      split; [done|]. split; [eauto|]. right. split; [done|].
      intros q Hq Hqn.
      assert (Hq' : q ∈ ph0 :: l) by (rewrite <- Es; by apply elem_of_stalled).
      apply Z.leb_le. apply (min_by_least le); [..| exact Hq']; unfold le; intros; lia.
Qed.

(** What [update_status_from_subtasks] settles for a plan with
    subtasks.  The plan is under review exactly when every subtask is completed, or none
    is started and the approval of the plan was already pending; it is in progress
    exactly when some subtask is started and not all are completed; a completion review
    by a human needs the QA verdict.  The update touches the status fields only, and
    updating again changes nothing. *)
Theorem status_follows_subtasks (p : ImplementationPlan) :
  let p' := Plan.update_status_from_subtasks p in
  let items := Plan.all_subtasks p in
  let all_done := forall s, s ∈ items -> item_status s = COMPLETED in
  let some_started := exists s, s ∈ items /\ started s = true in
  items <> [] ->
  (pl_planStatus p' = Some "review" <->
     all_done \/ (~ some_started /\ pl_status p = Some "human_review"
                  /\ pl_planStatus p = Some "review"))
  /\ (pl_status p' = Some "in_progress" <-> some_started /\ ~ all_done)
  /\ (all_done -> pl_status p' = Some (if Plan.qa_approved p then "human_review" else "ai_review"))
  /\ Plan.all_subtasks p' = items /\ pl_qa_signoff p' = pl_qa_signoff p
  /\ Plan.update_status_from_subtasks p' = p'.
Proof.
  cbn zeta. intros Hne. rewrite (update_status_cases p Hne).
  assert (Hd : (forall s, s ∈ Plan.all_subtasks p -> item_status s = COMPLETED)
               <-> forallb (Plan.has_status COMPLETED) (Plan.all_subtasks p) = true).
  { rewrite forallb_spec. unfold Plan.has_status.
    split; intros H s Hs; specialize (H s Hs); by apply bool_decide_eq_true in H || apply bool_decide_eq_true. }
  rewrite Hd, <- existsb_spec.
  destruct (forallb _ (Plan.all_subtasks p)) eqn:Ef;
    [|destruct (existsb started (Plan.all_subtasks p)) eqn:Es;
      [|destruct (bool_decide (pl_status p = Some "human_review")
                  && bool_decide (pl_planStatus p = Some "review")) eqn:Eh]].
  - destruct (Plan.qa_approved p) eqn:Eq; cbn [pl_planStatus pl_status set_status];
      (split; [naive_solver|]); (split; [naive_solver|]); (split; [done|]);
      (split; [done|]); (split; [done|]);
      rewrite update_status_cases by done; rewrite (proj1 (set_status_view _ _ _ _)), Ef,
        (proj2 (set_status_view _ _ _ _)), Eq; done.
  - cbn [pl_planStatus pl_status set_status].
    (split; [naive_solver|]); (split; [naive_solver|]); (split; [done|]);
      (split; [done|]); (split; [done|]).
    rewrite update_status_cases by done.
    rewrite (proj1 (set_status_view _ _ _ _)), Ef, Es; done.
  - assert (Eh' := Eh). apply andb_true_iff in Eh' as [H1 H2].
    apply bool_decide_eq_true in H1, H2. rewrite H1, H2.
    (split; [naive_solver|]); (split; [naive_solver|]); (split; [done|]);
      (split; [done|]); (split; [done|]).
    rewrite update_status_cases by done. by rewrite Ef, Es, Eh.
  - cbn [pl_planStatus pl_status set_status].
    apply andb_false_iff in Eh.
    assert (Hn : ~ (pl_status p = Some "human_review" /\ pl_planStatus p = Some "review")).
    { intros [H1 H2]. rewrite H1, H2 in Eh. by destruct Eh. }
    (split; [naive_solver|]); (split; [naive_solver|]); (split; [done|]);
      (split; [done|]); (split; [done|]).
    rewrite update_status_cases by done. rewrite (proj1 (set_status_view _ _ _ _)), Ef, Es. done.
Qed.

(** A save and a load do not change what the build does next: the same
    subtask of the same phase is picked and the progress statistics are the same, for
    every plan, the lossy reload of the subtasks included. *)
Theorem reload_keeps_next_and_progress (p : ImplementationPlan) :
  exists q, ImplementationPlan.from_dict (ImplementationPlan.to_dict p) = Ok q
    /\ Plan.get_next_subtask q
       = prod_map reload_phase reload_item <$> Plan.get_next_subtask p
    /\ Plan.get_progress q = Plan.get_progress p.
Proof.
  exists (reload_plan p). split; [apply plan_reload |]. split.
  - unfold Plan.get_next_subtask, Plan.get_available_phases, Plan.stalled_phases.
    rewrite reload_completed_numbers. cbn [pl_phases reload_plan].
    rewrite keep_fmap by (intros ph; by rewrite reload_phase_complete, reload_deps_met).
    rewrite reload_first_pending.
    destruct (Plan.first_pending _) as [[ph s]|]; [done|]. cbn [fmap option_fmap option_map].
    rewrite keep_fmap.
    2:{ intros ph. rewrite reload_phase_complete, reload_phase_pending.
        by destruct (Phase.get_pending_subtasks ph). }
    destruct (keep _ (pl_phases p)) as [|ph l]; [done|].
    cbn [fmap list_fmap]. rewrite reload_min_by, reload_phase_pending.
    by destruct (Phase.get_pending_subtasks _).
  - unfold Plan.get_progress. rewrite reload_all_subtasks. cbn [pl_phases reload_plan].
    rewrite length_fmap, !countb_fmap by (apply reload_phase_complete || intros i; apply reload_has_status).
    rewrite <- list_fmap_compose.
    assert (E : length ∘ ph_subtasks ∘ reload_phase <$> pl_phases p
                = length ∘ ph_subtasks <$> pl_phases p).
    { apply list_fmap_ext. intros _ ph _. cbn. by rewrite length_fmap. }
    by rewrite E.
Qed.

Lemma followup_phase_view name items t safe p :
  let '(p', ph) := Plan.add_followup_phase name items t safe p in
  pl_phases p' = pl_phases p ++ [ph]
  /\ ph_subtasks ph = items
  /\ ph_depends_on ph = JInt ∘ ph_phase <$> pl_phases p
  /\ forall q, q ∈ pl_phases p -> (ph_phase q < ph_phase ph)%Z.
Proof.
  unfold Plan.add_followup_phase. destruct (pl_phases p) as [|q0 l] eqn:E; cbn -[Plan.max_phase Z.add].
  - rewrite ?E. repeat split. intros q Hq. by apply elem_of_nil in Hq.
  - rewrite ?E. repeat split. intros q Hq. apply max_phase_ge in Hq. lia.
Qed.

Lemma completed_numbers_app p p' ph :
  pl_phases p' = pl_phases p ++ [ph] -> Phase.is_complete ph = false ->
  Plan.completed_numbers p' = Plan.completed_numbers p.
Proof.
  intros E Hc. unfold Plan.completed_numbers, keep. rewrite E, List.filter_app. cbn.
  by rewrite Hc, app_nil_r.
Qed.

(** The dependency test of a phase that depends on every phase of [p]. *)
Lemma deps_met_all p ph :
  ph_depends_on ph = JInt ∘ ph_phase <$> pl_phases p ->
  Plan.deps_met (Plan.completed_numbers p) ph = true <->
  forall q, q ∈ pl_phases p ->
    exists r, r ∈ pl_phases p /\ ph_phase r = ph_phase q /\ Phase.is_complete r = true.
Proof.
  intros E. unfold Plan.deps_met. rewrite E, forallb_spec. split.
  - intros H q Hq. specialize (H (JInt (ph_phase q))).
    cbn [resolve_dep_phase_number] in H. rewrite bool_decide_eq_true in H.
    apply list_elem_of_fmap in H as (r & Hr & Hin); [|apply list_elem_of_fmap; by exists q].
    apply elem_of_keep in Hin as [Hin Hc]. exists r. by rewrite Hr.
  - intros H d Hd. apply list_elem_of_fmap in Hd as (q & -> & Hq).
    destruct (H q Hq) as (r & Hr & Hn & Hc). cbn. apply bool_decide_eq_true.
    apply list_elem_of_fmap. exists r. split; [by rewrite Hn|]. by apply elem_of_keep.
Qed.

(** A follow-up phase gets a number above every other phase, waits for all of them
    and invalidates the QA verdict: in a plan whose phase numbers are distinct it is
    available exactly when every earlier phase is complete (and it is not itself), and
    the numbers stay distinct.  In a plan whose subtasks are all completed, its first
    pending subtask is the next one to run. *)
Theorem followup_phase_gated (name : string) (items : list Item) (t : PhaseType) (safe : bool)
    (p : ImplementationPlan) :
  NoDup (ph_phase <$> pl_phases p) ->
  let '(p', ph) := Plan.add_followup_phase name items t safe p in
  NoDup (ph_phase <$> pl_phases p')
  /\ pl_status p' = Some "in_progress" /\ pl_qa_signoff p' = None
  /\ (ph ∈ Plan.get_available_phases p' <->
        Phase.is_complete ph = false
        /\ forall q, q ∈ pl_phases p -> Phase.is_complete q = true)
  /\ (forall s rest,
        (forall i, i ∈ Plan.all_subtasks p -> item_status i = COMPLETED) ->
        Phase.get_pending_subtasks ph = s :: rest ->
        Plan.get_next_subtask p' = Some (ph, s)).
Proof.
  intros Hnd. pose proof (followup_phase_view name items t safe p) as V.
  destruct (Plan.add_followup_phase name items t safe p) as [p' ph] eqn:Eadd.
  destruct V as (Hph & _ & Hdep & Hgt).
  assert (Hst : pl_status p' = Some "in_progress" /\ pl_qa_signoff p' = None).
  { revert Eadd. unfold Plan.add_followup_phase.
    destruct (pl_phases p); intros [= <- _]; done. }
  destruct Hst as [Hst Hqa].
  assert (Hdm : Phase.is_complete ph = false ->
            (Plan.deps_met (Plan.completed_numbers p') ph = true <->
             forall q, q ∈ pl_phases p -> Phase.is_complete q = true)).
  { intros Hc. rewrite (completed_numbers_app p p' ph Hph Hc), (deps_met_all p ph Hdep).
    split.
    - intros H q Hq. destruct (H q Hq) as (r & Hr & Hn & Hrc).
      by rewrite <- (NoDup_fmap_elem ph_phase _ r q Hnd Hr Hq Hn).
    - intros H q Hq. exists q. auto. }
  split.
  { rewrite Hph, fmap_app. apply NoDup_app. split; [done|]. split; [|apply NoDup_singleton].
    intros n Hn Hin. apply list_elem_of_fmap in Hn as (q & -> & Hq).
    apply list_elem_of_singleton in Hin. specialize (Hgt q Hq). lia. }
  do 2 (split; [done|]). split.
  - rewrite elem_of_available, Hph. split.
    + intros (_ & Hc & H). split; [done|]. by apply Hdm.
    + intros [Hc H]. split; [apply elem_of_app; right; apply list_elem_of_here |].
      split; [done | by apply Hdm].
  - intros s rest Hall Hpend.
    assert (Hc : Phase.is_complete ph = false).
    { apply (pending_not_complete ph s). rewrite Hpend. apply list_elem_of_here. }
    assert (Hcs : forall q, q ∈ pl_phases p -> Phase.is_complete q = true).
    { intros q Hq. apply is_complete_spec. intros i Hi. apply Hall, elem_of_all_subtasks. eauto. }
    assert (Hav : Plan.get_available_phases p' = [ph]).
    { unfold Plan.get_available_phases, keep. rewrite Hph, List.filter_app. cbn.
      rewrite Hc, (proj2 (Hdm Hc) Hcs). cbn.
      rewrite (keep_none _ (pl_phases p)); [done|]. intros q Hq. by rewrite Hcs. }
    unfold Plan.get_next_subtask. rewrite Hav. cbn. by rewrite Hpend.
Qed.

(** The progress statistics count every subtask once: completed and failed ones
    are at most the total, the plan is reported complete exactly when every subtask is
    completed, and then no subtask is left to run. *)
Theorem progress_is_exact (p : ImplementationPlan) :
  let g := Plan.get_progress p in
  pg_total_subtasks g = length (Plan.all_subtasks p)
  /\ pg_completed_subtasks g + pg_failed_subtasks g <= pg_total_subtasks g
  /\ (pg_is_complete g = true <->
        forall s, s ∈ Plan.all_subtasks p -> item_status s = COMPLETED)
  /\ (pg_is_complete g = true -> Plan.get_next_subtask p = None
                                 /\ pg_completed_phases g = pg_total_phases g).
Proof.
  cbn zeta. unfold Plan.get_progress. cbn. rewrite <- length_all_subtasks.
  assert (Hsum : countb (Plan.has_status COMPLETED) (Plan.all_subtasks p)
                 + countb (Plan.has_status FAILED) (Plan.all_subtasks p)
                 <= length (Plan.all_subtasks p)).
  { induction (Plan.all_subtasks p) as [|i l IH]; [done|]. rewrite !countb_cons.
    cbn [length]. assert (H : Plan.has_status COMPLETED i = true -> Plan.has_status FAILED i = false).
    { unfold Plan.has_status. by destruct (item_status i). }
    destruct (Plan.has_status COMPLETED i), (Plan.has_status FAILED i); try specialize (H eq_refl);
      try discriminate; lia. }
  split; [done|]. split; [exact Hsum|].
  assert (Hiff : (countb (Plan.has_status COMPLETED) (Plan.all_subtasks p)
                   =? length (Plan.all_subtasks p))
                 && (countb (Plan.has_status FAILED) (Plan.all_subtasks p) =? 0) = true <->
                 forall s, s ∈ Plan.all_subtasks p -> item_status s = COMPLETED).
  { rewrite andb_true_iff, !Nat.eqb_eq, countb_all, forallb_spec. split.
    - intros [H _] s Hs. specialize (H s Hs). by apply bool_decide_eq_true in H.
    - intros H. split; [intros s Hs; apply bool_decide_eq_true; auto |].
      apply countb_none, existsb_false. intros s Hs. unfold Plan.has_status.
      by rewrite (H s Hs). }
  split; [exact Hiff|]. rewrite Hiff. intros H. split.
  - assert (Hp : forall q, q ∈ pl_phases p -> Phase.get_pending_subtasks q = []).
    { intros q Hq. apply elem_of_nil_inv. intros s Hs. apply elem_of_pending in Hs as [Hs Hpe].
      rewrite (H s) in Hpe; [done|]. apply elem_of_all_subtasks. eauto. }
    unfold Plan.get_next_subtask.
    rewrite (proj2 (first_pending_None _)).
    2:{ intros q Hq. apply elem_of_available in Hq as [Hq _]. by apply Hp. }
    destruct (Plan.stalled_phases p) as [|ph l] eqn:E; [done|].
    assert (Hin : ph ∈ Plan.stalled_phases p) by (rewrite E; apply list_elem_of_here).
    apply elem_of_stalled in Hin as [Hin Hn]. by rewrite (Hp ph Hin) in Hn.
  - apply countb_all, forallb_spec. intros q Hq. apply is_complete_spec. intros s Hs.
    apply H, elem_of_all_subtasks. eauto.
Qed.

Lemma status_follows_subtasks_witness :
  Plan.all_subtasks sample_plan <> []
  /\ Plan.update_status_from_subtasks (Plan.update_status_from_subtasks sample_plan)
     = Plan.update_status_from_subtasks sample_plan.
Proof.
  assert (H : Plan.all_subtasks sample_plan <> []) by (vm_compute; discriminate).
  split; [exact H|].
  destruct (status_follows_subtasks sample_plan H) as (_ & _ & _ & _ & _ & E). exact E.
Defined.

Lemma followup_phase_gated_witness :
  NoDup (ph_phase <$> pl_phases sample_plan)
  /\ let '(p', ph) := Plan.add_followup_phase "Follow-up" [ISub (Subtask.make "f1" "more")]
                       IMPLEMENTATION false sample_plan in
     NoDup (ph_phase <$> pl_phases p') /\ ph_phase ph = 4%Z.
Proof.
  assert (H : NoDup (ph_phase <$> pl_phases sample_plan)).
  { apply (bool_decide_unpack _). vm_compute. exact I. }
  split; [exact H|].
  split; [exact (proj1 (followup_phase_gated "Follow-up" [ISub (Subtask.make "f1" "more")]
                          IMPLEMENTATION false sample_plan H)) | reflexivity].
Defined.
