(* ===== verification/EventMonad.v ===== *)
(** A monad for code that acts on a state it sees in part, may raise, and goes through
    events a theorem speaks of: its operations, the statements of its Hoare logic ([wp]),
    and the computations that emit nothing. *)
From S2P Require Import Prelude.

(** A computation: it returns or raises, leaves a state and the events it went through. *)
Definition Eff (S E A : Type) : Type := S -> res A * S * list E.

#[export] Instance Eff_ret {S E} : MRet (Eff S E) := fun A a s => (Ok a, s, []).
#[export] Instance Eff_bind {S E} : MBind (Eff S E) := fun A B f m s =>
  let '(r, s, l) := m s in
  match r with
  | Err e => (Err e, s, l)
  | Ok a => let '(r', s', l') := f a s in (r', s', l ++ l')
  end.

Definition lift {S E A} (f : S -> res A) : Eff S E A := fun s => (f s, s, []).
Definition reads {S E A} (f : S -> A) : Eff S E A := lift (fun s => Ok (f s)).
Definition emit {S E} (e : E) : Eff S E () := fun s => (Ok (), s, [e]).
Definition hooked {S E A} (f : S -> res A * S) : Eff S E A :=
  fun s => let '(r, s) := f s in (r, s, []).
Definition fails {S E A} (e : exn) : Eff S E A := fun s => (Err e, s, []).

(** [try: m except Exception: ...] *)
Definition shielded {S E A} (m : Eff S E A) : Eff S E () :=
  fun s => let '(_, s, l) := m s in (Ok (), s, l).

(** [try: m except Exception: return v] *)
Definition or_else {S E A} (m : Eff S E A) (v : A) : Eff S E A := fun s =>
  let '(r, s, l) := m s in (match r with Ok a => Ok a | Err _ => Ok v end, s, l).

(** [try: m except Exception: return v], where what is not Python ([Untyped]) stays so. *)
Definition rescued {A} (r : res A) (v : A) : res A :=
  match r with Err Untyped => r | Err _ => Ok v | Ok _ => r end.
Definition rescue {S E A} (m : Eff S E A) (v : A) : Eff S E A := fun s =>
  let '(r, s, l) := m s in (rescued r v, s, l).

(** ** Reasoning *)

Definition raised {A} (r : res A) : Prop := exists e, r = Err e.

Section logic.
Context {S E : Type}.
Abbreviation M := (Eff S E).

Definition wp {A} (m : M A) (Q : res A -> S -> list E -> Prop) (s : S) : Prop :=
  let '(r, s', l) := m s in Q r s' l.

Lemma wp_run {A} (m : M A) Q s r s' l : wp m Q s -> m s = (r, s', l) -> Q r s' l.
Proof. unfold wp. intros H R. by rewrite R in H. Qed.

Lemma wp_mono {A} (m : M A) (Q Q' : res A -> S -> list E -> Prop) s :
  wp m Q s -> (forall r s' l, Q r s' l -> Q' r s' l) -> wp m Q' s.
Proof. unfold wp. destruct (m s) as [[r s'] l]. auto. Qed.

Lemma wp_bind {A B} (m : M A) (f : A -> M B) Q s :
  wp m (fun r s' l => match r with
                      | Ok a => wp (f a) (fun r' s'' l' => Q r' s'' (l ++ l')) s'
                      | Err e => Q (Err e) s' l
                      end) s ->
  wp (mbind f m) Q s.
Proof.
  unfold wp, mbind, Eff_bind. destruct (m s) as [[[a|e] s'] l]; [|done].
  by destruct (f a s') as [[r' s''] l'].
Qed.

Lemma bind_run {A B} (m : M A) (f : A -> M B) s a s' l : m s = (Ok a, s', l) ->
  mbind f m s = (let '(r, s'', l') := f a s' in (r, s'', l ++ l')).
Proof. unfold mbind, Eff_bind. by intros ->. Qed.

Lemma bind_lift {A B} (g : S -> res A) (f : A -> M B) s :
  mbind f (lift g) s = match g s with Ok a => f a s | Err e => (Err e, s, []) end.
Proof. unfold mbind, Eff_bind, lift. destruct (g s); [|done]. by destruct (f a s) as [[]]. Qed.

Lemma wp_ret {A} (a : A) (Q : res A -> S -> list E -> Prop) s :
  Q (Ok a) s [] -> wp (mret a) Q s.
Proof. done. Qed.

Lemma wp_emit (e : E) (Q : res () -> S -> list E -> Prop) s : Q (Ok ()) s [e] -> wp (emit e) Q s.
Proof. done. Qed.

Lemma wp_or_else {A} (m : M A) v Q s :
  wp m (fun r s' l => Q (match r with Ok a => Ok a | Err _ => Ok v end) s' l) s ->
  wp (or_else m v) Q s.
Proof. unfold wp, or_else. by destruct (m s) as [[r s'] l]. Qed.

Lemma wp_rescue {A} (m : M A) v Q s :
  wp m (fun r s' l => Q (rescued r v) s' l) s -> wp (rescue m v) Q s.
Proof. unfold wp, rescue. by destruct (m s) as [[r s'] l]. Qed.

Lemma wp_true {A} (m : M A) s : wp m (fun _ _ _ => True) s.
Proof. unfold wp. by destruct (m s) as [[r s'] l]. Qed.

Lemma wp_any {A} (m : M A) (Q : res A -> S -> list E -> Prop) s : (forall r s' l, Q r s' l) -> wp m Q s.
Proof. intros H. apply (wp_mono _ _ _ _ (wp_true m s)). auto. Qed.

(** A computation that emits nothing. *)
Definition quiet {A} (m : M A) : Prop := forall s, (m s).2 = [].

Lemma wp_quiet {A} (m : M A) Q s : quiet m ->
  (forall r s', m s = (r, s', []) -> Q r s' []) -> wp m Q s.
Proof.
  intros K H. unfold wp. specialize (K s). destruct (m s) as [[r s'] l] eqn:R. cbn in K. subst l.
  by apply H.
Qed.

Lemma quiet_lift {A} (f : S -> res A) : quiet (lift f).
Proof. done. Qed.
Lemma quiet_hooked {A} (f : S -> res A * S) : quiet (hooked f).
Proof. intros s. unfold hooked. by destruct (f s). Qed.
Lemma quiet_ret {A} (a : A) : quiet (mret a).
Proof. done. Qed.
Lemma quiet_fails {A} e : quiet (fails (A := A) e).
Proof. done. Qed.
Lemma quiet_shielded {A} (m : M A) : quiet m -> quiet (shielded m).
Proof. intros K s. unfold shielded. specialize (K s). by destruct (m s) as [[]]. Qed.
Lemma quiet_or_else {A} (m : M A) v : quiet m -> quiet (or_else m v).
Proof. intros K s. unfold or_else. specialize (K s). by destruct (m s) as [[]]. Qed.
Lemma quiet_rescue {A} (m : M A) v : quiet m -> quiet (rescue m v).
Proof. intros K s. unfold rescue. specialize (K s). by destruct (m s) as [[]]. Qed.
Lemma quiet_bind {A B} (m : M A) (f : A -> M B) : quiet m -> (forall a, quiet (f a)) -> quiet (mbind f m).
Proof.
  intros K F s. unfold mbind, Eff_bind. specialize (K s). destruct (m s) as [[[a|e] s'] l]; [|done].
  cbn in K. subst l. specialize (F a s'). destruct (f a s') as [[r s''] l']. cbn in *. by subst.
Qed.

(** A computation whose events all satisfy a predicate. *)
Definition emits (P : E -> Prop) {A} (m : M A) : Prop := forall s, Forall P (m s).2.

Lemma emits_lift P {A} (f : S -> res A) : emits P (lift f).
Proof. by constructor. Qed.
Lemma emits_ret P {A} (a : A) : emits P (mret a).
Proof. by constructor. Qed.
Lemma emits_fails P {A} e : emits P (fails (A := A) e).
Proof. by constructor. Qed.
Lemma emits_emit (P : E -> Prop) e : P e -> emits P (emit e).
Proof. by repeat constructor. Qed.
Lemma emits_hooked P {A} (f : S -> res A * S) : emits P (hooked f).
Proof. intros s. unfold hooked. destruct (f s). by constructor. Qed.
Lemma emits_bind P {A B} (m : M A) (f : A -> M B) :
  emits P m -> (forall a, emits P (f a)) -> emits P (mbind f m).
Proof.
  intros K F s. unfold mbind, Eff_bind. specialize (K s). destruct (m s) as [[[a|e] s'] l]; [|done].
  specialize (F a s'). destruct (f a s') as [[r s''] l']. by apply Forall_app.
Qed.
Lemma emits_rescue P {A} (m : M A) v : emits P m -> emits P (rescue m v).
Proof. intros K s. unfold rescue. specialize (K s). by destruct (m s) as [[]]. Qed.
Lemma emits_shielded P {A} (m : M A) : emits P m -> emits P (shielded m).
Proof. intros K s. unfold shielded. specialize (K s). by destruct (m s) as [[]]. Qed.

Lemma wp_emits {A} (P : E -> Prop) (m : M A) Q s : emits P m ->
  (forall r s' l, m s = (r, s', l) -> Forall P l -> Q r s' l) -> wp m Q s.
Proof. intros K F. unfold wp. specialize (K s). destruct (m s) as [[r s'] l] eqn:R. by apply F. Qed.

Lemma wp_lift {A} (f : S -> res A) (Q : res A -> S -> list E -> Prop) s :
  Q (f s) s [] -> wp (lift f) Q s.
Proof. done. Qed.
Lemma wp_reads {A} (f : S -> A) (Q : res A -> S -> list E -> Prop) s : Q (Ok (f s)) s [] -> wp (reads f) Q s.
Proof. done. Qed.
Lemma wp_and {A} (m : M A) (Q Q' : res A -> S -> list E -> Prop) s :
  wp m Q s -> wp m Q' s -> wp m (fun r s' l => Q r s' l /\ Q' r s' l) s.
Proof. unfold wp. by destruct (m s) as [[r s'] l]. Qed.
End logic.

Create HintDb emits.
#[export] Hint Resolve emits_lift emits_ret emits_fails emits_hooked emits_rescue emits_shielded : emits.
