(* ===== verification/FileLock.v ===== *)
(** Locked JSON files of the GitHub runner (apps/backend/runners/github/file_lock.py).

    Any number of calls of [locked_json_write], [locked_json_update] and [locked_json_read]
    run on one file, in any interleaving of their steps: opening the lock file, an attempt to
    lock it, the work on the file, and the steps of the release, which removes the lock file.
    A lock is held on an inode, not on a name: a process that opened the lock file before it
    was removed still has the old inode.  [flock] keeps an exclusive holder of an inode alone.

    An attempt that fails before the timeout changes nothing and is no step. *)
From S2P Require Import Prelude PyData.
Local Open Scope nat_scope.

(** ** The calls and their steps *)

Inductive Op :=
  | Write (v : json)                          (* locked_json_write *)
  | Update (f : option json -> res json)      (* locked_json_update *)
  | Read.                                     (* locked_json_read *)

(** [FileLock(..., exclusive=...)] *)
Definition exclusive (o : Op) : bool := match o with Read => false | _ => true end.

(** Where a call is.  [i] is the inode of its file descriptor. *)
Inductive PC :=
  | Calling
  | Trying (i : nat)
  | Locked (i : nat)
  | Writing (i : nat) (v : json)     (* the temporary file is written *)
  | Releasing (i : nat) (r : res json)
  | Unlocked (r : res json)
  | Unlinking (r : res json)
  | Returned (r : res json).

(** The lock file, the JSON file and the calls; [sy_log] records who replaced the JSON file,
    in order. *)
Record Sys := {
  sy_lock : option nat;
  sy_fresh : nat;
  sy_file : file;
  sy_procs : gmap nat PC;
  sy_log : list nat;
}.

(** The inode a call has open, and the one it holds the lock of. *)
Definition opened (c : PC) : option nat :=
  match c with Trying i | Locked i | Writing i _ | Releasing i _ => Some i | _ => None end.
Definition holding (c : PC) : option nat :=
  match c with Locked i | Writing i _ | Releasing i _ => Some i | _ => None end.

Definition goto (p : nat) (c : PC) (s : Sys) : Sys :=
  {| sy_lock := sy_lock s; sy_fresh := sy_fresh s; sy_file := sy_file s;
     sy_procs := <[p := c]> (sy_procs s); sy_log := sy_log s |}.
Definition with_lock (l : option nat) (n : nat) (s : Sys) : Sys :=
  {| sy_lock := l; sy_fresh := n; sy_file := sy_file s; sy_procs := sy_procs s; sy_log := sy_log s |}.

Definition file_lock_timeout : exn := AppError "FileLockTimeout".
Definition file_not_found : exn := AppError "FileNotFoundError".
Definition os_error : exn := AppError "OSError".

Inductive Act :=
  | AOpen
  | ATry
  | ATimeout
  | ABody
  | AReplace (ok : bool)
  | AUnlock
  | ALook
  | AUnlink.

Section Calls.
Context (ops : nat -> Op).

(** Another call holds inode [i], and one of the two locks is exclusive. *)
Definition blocks (p i q : nat) (c : PC) : bool :=
  negb (q =? p) && bool_decide (holding c = Some i) && (exclusive (ops p) || exclusive (ops q)).

Definition _try_lock (p i : nat) (s : Sys) : bool :=
  forallb (fun qc => negb (blocks p i qc.1 qc.2)) (map_to_list (sy_procs s)).

(** [os.open(lock_file, O_CREAT | O_RDWR)] *)
Definition open_lock (p : nat) (s : Sys) : Sys :=
  match sy_lock s with
  | Some i => goto p (Trying i) s
  | None => goto p (Trying (sy_fresh s)) (with_lock (Some (sy_fresh s)) (S (sy_fresh s)) s)
  end.

Definition _read_json (f : file) : res (option json) :=
  match f with
  | Missing => Ok None
  | Broken => Err ValueError
  | Json v => Ok (Some v)
  end.

(** What the call makes of the file under the lock: a value to write, or to return. *)
Definition new_value (o : Op) (f : file) : res json :=
  match o with
  | Write v => Ok v
  | Update g => let! data := _read_json f in g data
  | Read => match f with Missing => Err file_not_found | Broken => Err ValueError | Json v => Ok v end
  end.

Definition in_section (p i : nat) (s : Sys) : Sys :=
  match new_value (ops p) (sy_file s) with
  | Ok v => goto p (if exclusive (ops p) then Writing i v else Releasing i (Ok v)) s
  | Err e => goto p (Releasing i (Err e)) s
  end.

(** [os.replace(tmp_path, filepath)] *)
Definition replace_file (p i : nat) (v : json) (s : Sys) : Sys :=
  {| sy_lock := sy_lock s; sy_fresh := sy_fresh s; sy_file := Json v;
     sy_procs := <[p := Releasing i (Ok v)]> (sy_procs s); sy_log := sy_log s ++ [p] |}.

(** [locked_json_write] returns nothing; its value is kept here for the statements. *)
Definition exec (p : nat) (a : Act) (s : Sys) : option Sys :=
  match sy_procs s !! p, a with
  | Some Calling, AOpen =>
      Some (match ops p, sy_file s with
            | Read, Missing => goto p (Returned (Err file_not_found)) s
            | _, _ => open_lock p s
            end)
  | Some (Trying i), ATry => if _try_lock p i s then Some (goto p (Locked i) s) else None
  | Some (Trying i), ATimeout =>
      if _try_lock p i s then None else Some (goto p (Returned (Err file_lock_timeout)) s)
  | Some (Locked i), ABody => Some (in_section p i s)
  | Some (Writing i v), AReplace true => Some (replace_file p i v s)
  | Some (Writing i v), AReplace false => Some (goto p (Releasing i (Err os_error)) s)
  | Some (Releasing i r), AUnlock => Some (goto p (Unlocked r) s)
  | Some (Unlocked r), ALook =>
      Some (goto p (match sy_lock s with Some _ => Unlinking r | None => Returned r end) s)
  | Some (Unlinking r), AUnlink => Some (goto p (Returned r) (with_lock None (sy_fresh s) s))
  | _, _ => None
  end.

(** A run; [ok] says which steps it may take. *)
Fixpoint run (ok : nat -> Act -> Sys -> bool) (l : list (nat * Act)) (s : Sys) : option Sys :=
  match l with
  | [] => Some s
  | (p, a) :: l' => if ok p a s then s' ← exec p a s; run ok l' s' else None
  end.

Definition any_step (p : nat) (a : Act) (s : Sys) : bool := true.

(** The lock file is removed only while nobody has it open. *)
Definition removed_unused (p : nat) (a : Act) (s : Sys) : bool :=
  match a with
  | AUnlink => forallb (fun qc => negb (bool_decide (is_Some (opened qc.2) /\ opened qc.2 = sy_lock s)))
                 (map_to_list (sy_procs s))
  | _ => true
  end.

Definition start (f : file) (procs : gmap nat ()) : Sys :=
  {| sy_lock := None; sy_fresh := 0; sy_file := f; sy_procs := (fun _ => Calling) <$> procs;
     sy_log := [] |}.
End Calls.

(** ** Lemmas *)

Section Logic.
Context (ops : nat -> Op).

(** How far a call is from its return. *)
Definition rank (c : PC) : nat :=
  match c with
  | Calling => 7 | Trying _ => 6 | Locked _ => 5 | Writing _ _ => 4
  | Releasing _ _ => 3 | Unlocked _ => 2 | Unlinking _ => 1 | Returned _ => 0
  end.

(** Opens the step of a call. *)
Ltac open_exec H :=
  unfold exec in H;
  repeat match type of H with
  | match ?x with _ => _ end = Some _ => destruct x eqn:?; try discriminate H
  | (if ?b then _ else _) = Some _ => destruct b eqn:?; try discriminate H
  end;
  injection H as <-.

Lemma exec_inv p a s s' : exec ops p a s = Some s' ->
  exists c c', sy_procs s !! p = Some c /\ sy_procs s' = <[p := c']> (sy_procs s)
    /\ rank c' < rank c
    /\ (holding c' = None \/ holding c' = holding c
        \/ exists i, c = Trying i /\ c' = Locked i /\ _try_lock ops p i s = true).
Proof.
  intros H. open_exec H; eexists _.
  - destruct (ops p), (sy_file s); unfold open_lock; destruct (sy_lock s); eexists;
      (split; [done | split; [reflexivity | split; [cbn; lia | by left]]]).
  - eexists. split; [done|]. split; [reflexivity|]. split; [cbn; lia|]. right. right. eauto.
  - eexists. split; [done|]. split; [reflexivity|]. split; [cbn; lia | by left].
  - unfold in_section. destruct (new_value _ _); [destruct (exclusive _)|]; eexists;
      (split; [done | split; [reflexivity | split; [cbn; lia | right; by left]]]).
  - eexists. split; [done|]. split; [reflexivity|]. split; [cbn; lia | right; by left].
  - eexists. split; [done|]. split; [reflexivity|]. split; [cbn; lia | right; by left].
  - eexists. split; [done|]. split; [reflexivity|]. split; [cbn; lia | by left].
  - eexists. split; [done|]. split; [reflexivity|]. split; [|by destruct (sy_lock s); left].
    destruct (sy_lock s); cbn; lia.
  - eexists. split; [done|]. split; [reflexivity|]. split; [cbn; lia | by left].
Qed.

Lemma run_snoc (ok : nat -> Act -> Sys -> bool) (I : Sys -> Prop) l s s' :
  (forall p a s1 s2, ok p a s1 = true -> exec ops p a s1 = Some s2 -> I s1 -> I s2) ->
  run ops ok l s = Some s' -> I s -> I s'.
Proof.
  intros K. revert s. induction l as [|[p a] l IH]; intros s R H; [by injection R as <-|]. cbn in R.
  destruct (ok p a s) eqn:O; [|done]. destruct (exec ops p a s) as [s1|] eqn:E; [|done].
  apply (IH s1); eauto.
Qed.

Lemma try_lock_spec p i s q c : _try_lock ops p i s = true -> p <> q ->
  sy_procs s !! q = Some c -> holding c = Some i ->
  exclusive (ops p) = false /\ exclusive (ops q) = false.
Proof.
  unfold _try_lock. rewrite forallb_forall. intros T Ne Q H.
  specialize (T (q, c)). rewrite <- list_elem_of_In, elem_of_map_to_list in T. specialize (T Q).
  unfold blocks in T. cbn in T. apply negb_true_iff in T.
  assert ((q =? p) = false) as E by (apply Nat.eqb_neq; congruence). rewrite E in T.
  rewrite bool_decide_true in T by done. cbn in T. by apply orb_false_iff in T.
Qed.

(** An exclusive holder of an inode is alone with it. *)
Definition alone (s : Sys) : Prop := forall p q cp cq i, p <> q ->
  sy_procs s !! p = Some cp -> sy_procs s !! q = Some cq ->
  holding cp = Some i -> holding cq = Some i ->
  exclusive (ops p) = false /\ exclusive (ops q) = false.

Lemma alone_step p a s s' : exec ops p a s = Some s' -> alone s -> alone s'.
Proof.
  intros E A. apply exec_inv in E as (c & c' & C & P & _ & K).
  assert (N : forall q cq i, p <> q -> sy_procs s !! q = Some cq -> holding c' = Some i ->
    holding cq = Some i -> exclusive (ops p) = false /\ exclusive (ops q) = false).
  { intros q cq i Ne Q H Hq. destruct K as [K|[K|(j & -> & -> & T)]]; [congruence| |].
    - rewrite K in H. eauto.
    - injection H as ->. by apply (try_lock_spec p i s q cq). }
  intros q r cq cr i Ne Q R Hq Hr. rewrite P in Q, R.
  destruct (decide (q = p)) as [->|Nq]; [rewrite lookup_insert_eq in Q; injection Q as <-|
    rewrite lookup_insert_ne in Q by done].
  - rewrite lookup_insert_ne in R by done. eauto.
  - destruct (decide (r = p)) as [->|Nr]; [rewrite lookup_insert_eq in R; injection R as <-|
      rewrite lookup_insert_ne in R by done]; [|eauto].
    apply and_comm. eapply N; eauto.
Qed.

(** *** While nobody's lock file is removed *)

(** Every open lock file is the one that has the name. *)
Definition named (s : Sys) : Prop := forall p c i,
  sy_procs s !! p = Some c -> opened c = Some i -> sy_lock s = Some i.

Lemma removed_unused_spec p s : removed_unused p AUnlink s = true -> named s ->
  forall q c, sy_procs s !! q = Some c -> opened c = None.
Proof.
  cbn. rewrite forallb_forall. intros T N q c Q. specialize (T (q, c)).
  rewrite <- list_elem_of_In, elem_of_map_to_list in T. specialize (T Q). cbn in T.
  apply negb_true_iff, bool_decide_eq_false in T. destruct (opened c) as [i|] eqn:O; [|done].
  destruct T. split; [by eexists | symmetry; eauto].
Qed.

Lemma named_goto s p c : named s -> (forall i, opened c = Some i -> sy_lock s = Some i) ->
  named (goto p c s).
Proof.
  intros N K q d i Q O. cbn in Q. destruct (decide (q = p)) as [->|].
  - rewrite lookup_insert_eq in Q. injection Q as <-. eauto.
  - rewrite lookup_insert_ne in Q by done. eauto.
Qed.

Lemma named_step p a s s' : removed_unused p a s = true -> exec ops p a s = Some s' ->
  named s -> named s'.
Proof.
  intros Ok H N. assert (G := named_goto s p). open_exec H.
  - assert (O : named (open_lock p s)).
    { unfold open_lock. destruct (sy_lock s) as [i|] eqn:L; [apply G; [done|]; intros ? [= <-]; done|].
      intros q c i Q O. cbn in Q |- *. destruct (decide (q = p)) as [->|].
      - rewrite lookup_insert_eq in Q. injection Q as <-. by injection O as <-.
      - rewrite lookup_insert_ne in Q by done. specialize (N q c i Q O). congruence. }
    destruct (ops p), (sy_file s); try exact O. by apply G.
  - apply G; [done|]. intros j [= <-]. eapply N; eauto.
  - by apply G.
  - unfold in_section. destruct (new_value _ _); [destruct (exclusive _)|]; apply G;
      try done; intros j [= <-]; eapply N; eauto.
  - intros q c j Q O. cbn in Q |- *. destruct (decide (q = p)) as [->|].
    + rewrite lookup_insert_eq in Q. injection Q as <-. injection O as <-. eapply N; eauto.
    + rewrite lookup_insert_ne in Q by done. eauto.
  - apply G; [done|]. intros j [= <-]. eapply N; eauto.
  - by apply G.
  - apply G; [done|]. destruct (sy_lock s); done.
  - intros q c j Q O. cbn in Q |- *. exfalso. destruct (decide (q = p)) as [->|].
    + rewrite lookup_insert_eq in Q. by injection Q as <-.
    + rewrite lookup_insert_ne in Q by done. by rewrite (removed_unused_spec p s Ok N q c Q) in O.
Qed.

(** *** One call after another *)

(** The file after a call that writes. *)
Definition replay (f : file) (p : nat) : file :=
  match new_value (ops p) f with Ok v => Json v | Err _ => f end.

(** What a call that let the section go came to. *)
Definition outcome (c : PC) : option (res json) :=
  match c with Releasing _ r | Unlocked r | Unlinking r | Returned r => Some r | _ => None end.

(** [log] accounts for the outcome of call [p]: it is what the call makes of the file that the
    calls before it left. *)
Definition accounts (f0 : file) (log : list nat) (p : nat) (v : json) : Prop :=
  exists l1 l2, log = l1 ++ (if exclusive (ops p) then p :: l2 else l2)
    /\ new_value (ops p) (foldl replay f0 l1) = Ok v.

Record serial (f0 : file) (s : Sys) : Prop := {
  sr_file : sy_file s = foldl replay f0 (sy_log s);
  sr_writing : forall p i v, sy_procs s !! p = Some (Writing i v) ->
    exclusive (ops p) = true /\ new_value (ops p) (sy_file s) = Ok v;
  sr_done : forall p, p ∈ sy_log s ->
    exists c v, sy_procs s !! p = Some c /\ outcome c = Some (Ok v);
  sr_nodup : NoDup (sy_log s);
  sr_outcome : forall p c v, sy_procs s !! p = Some c -> outcome c = Some (Ok v) ->
    accounts f0 (sy_log s) p v;
}.

Lemma accounts_snoc f0 log p q v : accounts f0 log p v -> accounts f0 (log ++ [q]) p v.
Proof.
  intros (l1 & l2 & -> & N). exists l1, (l2 ++ [q]). split; [|done].
  rewrite <- app_assoc. by destruct (exclusive (ops p)).
Qed.

(** A step that leaves the file: its call comes to an outcome that is accounted for, keeps
    its outcome, or has none. *)
Lemma serial_goto f0 s p c c' l n : serial f0 s -> sy_procs s !! p = Some c ->
  (forall i v, c' = Writing i v -> exclusive (ops p) = true /\ new_value (ops p) (sy_file s) = Ok v) ->
  (forall v, outcome c' = Some (Ok v) -> outcome c = Some (Ok v) \/ accounts f0 (sy_log s) p v) ->
  (forall v, outcome c = Some (Ok v) -> outcome c' = Some (Ok v)) ->
  serial f0 (goto p c' (with_lock l n s)).
Proof.
  intros [F Wr Dn Nd Oc] C K1 K2 K3. constructor; cbn; [done| | |done|].
  - intros q i v Q. destruct (decide (q = p)) as [->|].
    + rewrite lookup_insert_eq in Q. injection Q as E. by apply (K1 i).
    + rewrite lookup_insert_ne in Q by done. eauto.
  - intros q I. destruct (Dn q I) as (d & v & Q & O). destruct (decide (q = p)) as [->|].
    + exists c', v. rewrite lookup_insert_eq. split; [done|]. apply K3. congruence.
    + exists d, v. by rewrite lookup_insert_ne.
  - intros q d v Q O. destruct (decide (q = p)) as [->|].
    + rewrite lookup_insert_eq in Q. injection Q as <-. destruct (K2 v O); eauto.
    + rewrite lookup_insert_ne in Q by done. eauto.
Qed.

Lemma with_lock_id s : with_lock (sy_lock s) (sy_fresh s) s = s.
Proof. by destruct s. Qed.

(** Two exclusive calls are not in the section together. *)
Lemma holders_exclude s p q cp cq i j : alone s -> named s -> p <> q ->
  sy_procs s !! p = Some cp -> sy_procs s !! q = Some cq ->
  holding cp = Some i -> holding cq = Some j ->
  exclusive (ops p) = false /\ exclusive (ops q) = false.
Proof.
  intros A N Ne P Q Hp Hq.
  assert (O : forall c k, holding c = Some k -> opened c = Some k) by (intros []; done).
  assert (sy_lock s = Some i) by eauto. assert (sy_lock s = Some j) by eauto.
  assert (i = j) as -> by congruence. eauto.
Qed.

Lemma serial_replace f0 s p i v : serial f0 s -> alone s -> named s ->
  sy_procs s !! p = Some (Writing i v) -> serial f0 (replace_file p i v s).
Proof.
  intros [F Wr Dn Nd Oc] A N P. destruct (Wr p i v P) as [X V]. constructor; cbn.
  - rewrite foldl_app. cbn. rewrite <- F. unfold replay. by rewrite V.
  - intros q j w Q. exfalso. destruct (decide (q = p)) as [->|Ne].
    + by rewrite lookup_insert_eq in Q.
    + rewrite lookup_insert_ne in Q by done.
      destruct (holders_exclude s p q _ _ i j A N (not_eq_sym Ne) P Q eq_refl eq_refl). congruence.
  - intros q I. destruct (decide (q = p)) as [->|]; [by rewrite lookup_insert_eq; eauto|].
    apply elem_of_app in I as [I|I]; [|by apply list_elem_of_singleton in I].
    rewrite lookup_insert_ne by done. auto.
  - apply NoDup_app. split; [done|]. split; [|apply NoDup_singleton].
    intros q I ->%list_elem_of_singleton. destruct (Dn p I) as (c & w & C & O).
    rewrite P in C. by injection C as <-.
  - intros q c w Q O. destruct (decide (q = p)) as [->|].
    + rewrite lookup_insert_eq in Q. injection Q as <-. injection O as <-.
      exists (sy_log s), []. rewrite X. split; [done|]. by rewrite <- F.
    + rewrite lookup_insert_ne in Q by done. apply accounts_snoc. eauto.
Qed.

Lemma serial_step f0 p a s s' : exec ops p a s = Some s' -> alone s -> named s ->
  serial f0 s -> serial f0 s'.
Proof.
  intros H A N I.
  assert (G : forall c c', sy_procs s !! p = Some c ->
    (forall i v, c' = Writing i v -> exclusive (ops p) = true /\ new_value (ops p) (sy_file s) = Ok v) ->
    (forall v, outcome c' = Some (Ok v) -> outcome c = Some (Ok v) \/ accounts f0 (sy_log s) p v) ->
    (forall v, outcome c = Some (Ok v) -> outcome c' = Some (Ok v)) ->
    serial f0 (goto p c' s)).
  { intros c c' C K1 K2 K3. rewrite <- (with_lock_id s) at 1. by apply (serial_goto f0 s p c c'). }
  open_exec H.
  - assert (O : serial f0 (open_lock p s)).
    { unfold open_lock. destruct (sy_lock s); [by eapply G|].
      apply (serial_goto f0 s p Calling (Trying (sy_fresh s)) (Some (sy_fresh s)) (S (sy_fresh s))); done. }
    destruct (ops p), (sy_file s); try exact O. by eapply G.
  - by eapply G.
  - by eapply G.
  - unfold in_section. destruct (new_value (ops p) (sy_file s)) as [v|e] eqn:V; [|by eapply G].
    destruct (exclusive (ops p)) eqn:X; (eapply G; [done|..]); try done.
    + intros j w [= _ ->]. done.
    + intros w [= ->]. right. exists (sy_log s), []. rewrite X, app_nil_r. split; [done|].
      by rewrite <- (sr_file _ _ I).
  - eapply serial_replace; eauto.
  - by eapply G.
  - eapply G; [done| |auto|auto]. done.
  - eapply G; [done|..]; destruct (sy_lock s); try done; auto.
  - eapply (serial_goto f0 s p (Unlinking _) (Returned _) None (sy_fresh s)); [done|done|done|auto|auto].
Qed.

(** Everything that holds of a run in which no lock file is removed while it is open. *)
Lemma run_serial f0 procs l s : run ops removed_unused l (start f0 procs) = Some s ->
  alone s /\ named s /\ serial f0 s.
Proof.
  intros R. apply (run_snoc removed_unused (fun s => alone s /\ named s /\ serial f0 s) l _ _) in R; [done| |].
  - intros p a s1 s2 O E (A & N & S). split; [by eapply alone_step|]. split; [by eapply named_step|].
    by eapply serial_step.
  - assert (C : forall p c, sy_procs (start f0 procs) !! p = Some c -> c = Calling).
    { intros p c. cbn. rewrite lookup_fmap. destruct (procs !! p); [by intros [= <-] | done]. }
    split; [intros p q cp cq i _ ->%C ->%C; done|]. split; [by intros p c i ->%C|].
    constructor; cbn; [done|by intros p i v K%C|by intros p K%elem_of_nil|constructor|by intros p c v ->%C].
Qed.

(** *** Every call returns *)

Definition total (m : gmap nat PC) : nat := map_fold (fun _ c n => rank c + n) 0 m.

Lemma total_new m p c : m !! p = None -> total (<[p := c]> m) = rank c + total m.
Proof. intros N. unfold total. rewrite map_fold_insert_L; [done | intros; lia | done]. Qed.

Lemma total_insert m p c c' : m !! p = Some c -> total (<[p := c']> m) + rank c = total m + rank c'.
Proof.
  intros P. rewrite <- (insert_delete_id m p c P) at 2. rewrite <- (insert_delete_eq m p c').
  rewrite !total_new by apply lookup_delete_eq. lia.
Qed.

Lemma run_length ok l s s' : run ops ok l s = Some s' ->
  length l + total (sy_procs s') <= total (sy_procs s) /\ dom (sy_procs s') = dom (sy_procs s).
Proof.
  revert s. induction l as [|[p a] l IH]; intros s R; [by injection R as <-|]. cbn in R.
  destruct (ok p a s); [|done]. destruct (exec ops p a s) as [s1|] eqn:E; [|done].
  apply exec_inv in E as (c & c' & C & P & K & _). apply IH in R as [R D]. rewrite P in R, D.
  pose proof (total_insert (sy_procs s) p c c' C). cbn. split; [lia|]. rewrite D, dom_insert_L.
  apply elem_of_dom_2 in C. set_solver.
Qed.

Lemma stuck_returned s p c : sy_procs s !! p = Some c -> (forall a, exec ops p a s = None) ->
  exists r, c = Returned r.
Proof.
  intros C K. destruct c as [|i|i|i v|i r|r|r|r]; [| | | | | | |by eexists]; exfalso.
  - specialize (K AOpen). unfold exec in K. by rewrite C in K.
  - pose proof (K ATry) as K1. specialize (K ATimeout). unfold exec in *. rewrite C in *.
    by destruct (_try_lock ops p i s).
  - specialize (K ABody). unfold exec in K. by rewrite C in K.
  - specialize (K (AReplace true)). unfold exec in K. by rewrite C in K.
  - specialize (K AUnlock). unfold exec in K. by rewrite C in K.
  - specialize (K ALook). unfold exec in K. by rewrite C in K.
  - specialize (K AUnlink). unfold exec in K. by rewrite C in K.
Qed.
End Logic.

(** ** Properties *)

(** C10 (refinement): locked calls take effect one after another.  As long as a lock file is
    removed only while no call has it open, the JSON file is what the calls in [sy_log] make of
    it in that order, each writes at most once, and a call that returned a value was given the
    file as the calls before it left it; two calls are in the section together only to read. *)
Theorem calls_are_serialised (ops : nat -> Op) (f0 : file) (procs : gmap nat ())
    (l : list (nat * Act)) (s : Sys) :
  run ops removed_unused l (start f0 procs) = Some s ->
  sy_file s = foldl (replay ops) f0 (sy_log s) /\ NoDup (sy_log s)
  /\ (forall p v, sy_procs s !! p = Some (Returned (Ok v)) -> accounts ops f0 (sy_log s) p v)
  /\ (forall p q cp cq i j, p <> q -> sy_procs s !! p = Some cp -> sy_procs s !! q = Some cq ->
        holding cp = Some i -> holding cq = Some j ->
        exclusive (ops p) = false /\ exclusive (ops q) = false).
Proof.
  intros R. destruct (run_serial ops f0 procs l s R) as (A & N & S).
  split; [apply S|]. split; [apply S|]. split; [|intros p q cp cq i j; by apply holders_exclude].
  intros p v P. by apply (sr_outcome _ _ _ S p _ v P).
Qed.

(** Every locked call returns.  Whatever the interleaving, [n] calls take at
    most [7 n] steps together, besides attempts that fail before the timeout, and when no step
    is left each of them has returned or raised: none waits for ever. *)
Theorem every_call_returns (ops : nat -> Op) (f0 : file) (procs : gmap nat ())
    (l : list (nat * Act)) (s : Sys) :
  run ops any_step l (start f0 procs) = Some s ->
  length l <= 7 * size procs
  /\ ((forall p a, exec ops p a s = None) ->
      forall p, p ∈ dom procs -> exists r, sy_procs s !! p = Some (Returned r)).
Proof.
  intros R. apply run_length in R as [L D]. cbn in L, D. split.
  - enough (total ((fun _ => Calling) <$> procs) = 7 * size procs) by lia. clear.
    induction procs as [|p x m N IH] using map_ind; [done|].
    rewrite fmap_insert, total_new, IH, map_size_insert_None by (rewrite ?lookup_fmap, ?N; done). cbn. lia.
  - intros K p P. rewrite dom_fmap_L in D. rewrite <- D in P. apply elem_of_dom in P as [c C].
    destruct (stuck_returned ops s p c C (fun a => K p a)) as [r ->]. by exists r.
Qed.

(** The release removes the lock file, also when another call waits with it open: that call
    and a later one, which makes a new lock file, then hold the lock together, and one of two
    updates is lost. *)
Definition append_id (n : Z) (data : option json) : res json :=
  match data with Some (JList l) => Ok (JList (l ++ [JInt n])) | _ => Ok (JList [JInt n]) end.
Definition example_calls (p : nat) : Op := Update (append_id (Z.of_nat p)).
Definition release (p : nat) : list (nat * Act) := [(p, AUnlock); (p, ALook); (p, AUnlink)].
Definition example_race : list (nat * Act) :=
  [(0, AOpen); (0, ATry); (0, ABody); (0, AReplace true); (1, AOpen); (0, AUnlock); (1, ATry);
   (0, ALook); (0, AUnlink); (2, AOpen); (2, ATry)].

Lemma removed_lock_is_held_twice :
  sy_procs <$> run example_calls any_step example_race (start Missing {[0 := (); 1 := (); 2 := ()]})
  = Some {[0 := Returned (Ok (JList [JInt 0])); 1 := Locked 0; 2 := Locked 1]}
  /\ sy_file <$> run example_calls any_step (example_race ++ [(1, ABody); (2, ABody); (1, AReplace true);
       (2, AReplace true)] ++ release 1 ++ [(2, AUnlock); (2, ALook)]) (start Missing {[0 := (); 1 := (); 2 := ()]})
  = Some (Json (JList [JInt 0; JInt 2])).
Proof. split; vm_compute; reflexivity. Qed.

Definition example_turns : list (nat * Act) :=
  [(0, AOpen); (0, ATry); (0, ABody); (1, AOpen); (0, AReplace true); (0, AUnlock); (1, ATry);
   (1, ABody); (1, AReplace true)] ++ release 1 ++ [(0, ALook)].

Lemma calls_are_serialised_witness : exists s,
  run example_calls removed_unused example_turns (start Missing {[0 := (); 1 := ()]}) = Some s
  /\ sy_file s = foldl (replay example_calls) Missing (sy_log s) /\ sy_log s = [0; 1].
Proof.
  destruct (run example_calls removed_unused example_turns (start Missing {[0 := (); 1 := ()]}))
    as [s|] eqn:E; [|vm_compute in E; discriminate E].
  exists s. split; [done|].
  destruct (calls_are_serialised example_calls Missing {[0 := (); 1 := ()]} example_turns s E) as (F & _).
  split; [exact F|].
  assert (L : sy_log <$> run example_calls removed_unused example_turns (start Missing {[0 := (); 1 := ()]})
    = Some [0; 1]) by (vm_compute; reflexivity).
  rewrite E in L. by injection L as ->.
Defined.

Lemma every_call_returns_witness : length example_race <= 21.
Proof.
  destruct (run example_calls any_step example_race (start Missing {[0 := (); 1 := (); 2 := ()]}))
    as [s|] eqn:E; [|vm_compute in E; discriminate E].
  exact (proj1 (every_call_returns example_calls Missing {[0 := (); 1 := (); 2 := ()]} example_race s E)).
Defined.
