(* ===== verification/Permissions.v ===== *)
(** Who may trigger an automation (apps/backend/runners/github/permissions.py), over the
    client's [api_get] (gh_client.py).

    The gh process is a hook: it answers a command with its output or raises, and may change
    the world.  Each request of the API is an event with what it came to.  The checker is
    part of a larger program, so its events are those of the program. *)
From S2P Require Import Prelude JsonText JsonRead PyData EventMonad.
Local Open Scope nat_scope.

(** ** Roles and results *)

Inductive GitHubRole := OWNER | MEMBER | COLLABORATOR | CONTRIBUTOR | NONE.
#[export] Instance GitHubRole_eq_dec : EqDecision GitHubRole.
Proof. solve_decision. Defined.

Definition role_name (r : GitHubRole) : string :=
  match r with
  | OWNER => "OWNER" | MEMBER => "MEMBER" | COLLABORATOR => "COLLABORATOR"
  | CONTRIBUTOR => "CONTRIBUTOR" | NONE => "NONE"
  end.

Record PermissionCheckResult := {
  pr_allowed : bool;
  pr_username : string;
  pr_role : GitHubRole;
  pr_reason : option string;
}.

Definition permission_error : exn := AppError "PermissionError".

(** [try: ... except Exception as e: raise PermissionError(...)], where what is not Python
    stays so. *)
Definition or_permission_error {S E A} (m : Eff S E A) : Eff S E A := fun s =>
  let '(r, s, l) := m s in
  (match r with Err Untyped | Ok _ => r | Err _ => Err permission_error end, s, l).

(** The checker's fixed part. *)
Record CheckerConfig := {
  cc_repo : string;
  cc_owner : string;
  cc_allowed_roles : list string;
  cc_allow_external : bool;
}.

Definition DEFAULT_ROLES : list string := ["OWNER"; "MEMBER"; "COLLABORATOR"].

(** [GitHubPermissionChecker(...)] *)
Definition init_checker (repo : string) (allowed_roles : option (list string)) (external : bool)
  : res CheckerConfig :=
  match split_on "/" repo with
  | [owner; _] =>
      Ok {| cc_repo := repo; cc_owner := owner;
            cc_allowed_roles := match allowed_roles with
                                | Some ((_ :: _) as l) => l
                                | _ => DEFAULT_ROLES
                                end;
            cc_allow_external := external |}
  | _ => Err ValueError
  end.

(** Its state: the roles it knows, and the world. *)
Record Checker {W : Type} := { ck_roles : gmap string GitHubRole; ck_world : W }.
Arguments Checker : clear implicits.
Definition with_roles {W} (m : gmap string GitHubRole) (s : Checker W) : Checker W :=
  {| ck_roles := m; ck_world := ck_world s |}.
Definition with_world {W} (w : W) (s : Checker W) : Checker W :=
  {| ck_roles := ck_roles s; ck_world := w |}.

Section Checks.
Context {W E : Type} (got : string -> res json -> E).
Context (gh : list string -> W -> res string * W).  (* GHClient.run: standard output *)
Context (repr : list string -> string) (c : CheckerConfig).
Abbreviation M := (Eff (Checker W) E).

(** [json.loads(result.stdout)] of [gh api endpoint] *)
Definition api_get (endpoint : string) : M json := fun s =>
  let '(out, w) := gh ["api"; endpoint] (ck_world s) in
  let r := let! text := out in loads text in
  (r, with_world w s, [got endpoint r]).

Definition repo_path (rest : string) : string := "/repos/" +:+ cc_repo c +:+ rest.
Definition events_path (n : Z) : string := repo_path ("/issues/" +:+ pretty n +:+ "/events").
Definition permission_path (u : string) : string := repo_path ("/collaborators/" +:+ u +:+ "/permission").
Definition members_path (u : string) : string := "/orgs/" +:+ cc_owner c +:+ "/members/" +:+ u.
Definition team_path (u team : string) : string :=
  "/orgs/" +:+ cc_owner c +:+ "/teams/" +:+ team +:+ "/memberships/" +:+ u.

(** [d.get(k, {})] *)
Definition get_obj (k : string) (d : dict) : json := default (JObj []) (dget k d).

(** [v == t] *)
Definition is_text (t : string) (v : option json) : bool :=
  match v with Some (JStr s) => String.eqb s t | _ => false end.

(** ** Roles of users *)

Definition remember (u : string) (role : GitHubRole) : M GitHubRole := fun s =>
  (Ok role, with_roles (<[u := role]> (ck_roles s)) s, []).

Definition is_collaborator (u : string) : M bool :=
  permission ← api_get (permission_path u);
  lift (fun _ => with_get permission (fun d =>
    Ok (existsb (fun l => is_text l (dget "permission" d)) ["admin"; "maintain"; "write"]))).

(** [repo_info.get('owner', {}).get('type') == 'Organization'] *)
Definition is_organization (repo_info : json) : res bool :=
  with_get repo_info (fun d => with_get (get_obj "owner" d) (fun o =>
    Ok (is_text "Organization" (dget "type" o)))).

(** Only [some reply] counts, not what it says. *)
Definition replies (endpoint : string) : M bool :=
  rescue (api_get endpoint ;; mret true) false.

Definition is_member (u : string) : M bool :=
  repo_info ← api_get (repo_path "");
  org ← lift (fun _ => is_organization repo_info);
  if org : bool then replies (members_path u) else mret false.

(** [any(c.get('login') == username for c in contributors)] *)
Fixpoint any_login (u : string) (l : list json) : res bool :=
  match l with
  | [] => Ok false
  | x :: l' => with_get x (fun d => if is_text u (dget "login" d) then Ok true else any_login u l')
  end.

Definition is_contributor (u : string) : M bool :=
  contributors ← api_get (repo_path "/contributors");
  lift (fun _ => let! l := iter_any contributors in any_login u l).

Definition find_role (u : string) : M GitHubRole :=
  if String.eqb (lower u) (lower (cc_owner c)) then remember u OWNER
  else
    b ← rescue (is_collaborator u) false;
    if b : bool then remember u COLLABORATOR
    else
      b ← rescue (is_member u) false;
      if b : bool then remember u MEMBER
      else
        b ← rescue (is_contributor u) false;
        if b : bool then remember u CONTRIBUTOR else remember u NONE.

Definition get_user_role (u : string) : M GitHubRole :=
  known ← reads (fun s => ck_roles s !! u);
  match known with
  | Some role => mret role
  | None => rescue (find_role u) NONE
  end.

(** ** Triggers *)

(** [event.get('event') == 'labeled' and event.get('label', {}).get('name') == label] *)
Definition adds_label (label : string) (event : dict) : res bool :=
  if is_text "labeled" (dget "event" event)
  then with_get (get_obj "label" event) (fun d => Ok (is_text label (dget "name" d)))
  else Ok false.

(** The login of the first event that adds the label. *)
Fixpoint first_adder (label : string) (events : list json) : res string :=
  match events with
  | [] => Err permission_error
  | e :: l =>
      with_get e (fun event =>
        let! b := adds_label label event in
        if b : bool then
          with_get (get_obj "actor" event) (fun actor =>
            match dget "login" actor with
            | Some v => if truthy v then as_str v else Err permission_error
            | None => Err permission_error
            end)
        else first_adder label l)
  end.

Definition check_label_adder (issue : Z) (label : string) : M (string * GitHubRole) :=
  or_permission_error (
    events ← api_get (events_path issue);
    username ← lift (fun _ => let! l := iter_any events in first_adder label (rev l));
    role ← get_user_role username;
    mret (username, role)).

Definition denial (u : string) (role : GitHubRole) : string :=
  "User " +:+ u +:+ " has role '" +:+ role_name role +:+ "', which is not in allowed roles: "
  +:+ repr (cc_allowed_roles c).

Definition role_allowed (role : GitHubRole) : bool :=
  key_in (cc_allowed_roles c) (role_name role)
  || (cc_allow_external c && bool_decide (role = CONTRIBUTOR)).

Definition is_allowed_for_autofix (u : string) : M PermissionCheckResult :=
  role ← get_user_role u;
  mret (if role_allowed role
        then {| pr_allowed := true; pr_username := u; pr_role := role; pr_reason := None |}
        else {| pr_allowed := false; pr_username := u; pr_role := role;
                pr_reason := Some (denial u role) |}).

(** The denial is logged, too. *)
Definition verify_automation_trigger (issue : Z) (label : string) : M PermissionCheckResult :=
  adder ← check_label_adder issue label;
  is_allowed_for_autofix adder.1.

(** ** The other checks *)

Definition check_org_membership (u : string) : M bool :=
  rescue (
    repo_info ← api_get (repo_path "");
    org ← lift (fun _ => is_organization repo_info);
    if org : bool then replies (members_path u) else mret true) false.

Definition check_team_membership (u team : string) : M bool := replies (team_path u team).

(** Whether the token can push or administer only changes what is logged; a value of
    [permissions] without [get] raises. *)
Definition verify_token_scopes : M () :=
  or_permission_error (
    repo_info ← api_get (repo_path "");
    if negb (truthy repo_info) then fails permission_error
    else
      lift (fun _ => with_get repo_info (fun d => with_get (get_obj "permissions" d) (fun _ => Ok ()))) ;;
      org ← lift (fun _ => is_organization repo_info);
      (if org : bool then shielded (api_get ("/orgs/" +:+ cc_owner c)) else mret ()) ;;
      mret ()).
End Checks.

(** ** Lemmas *)

Section Logic.
Context {W E : Type} (got : string -> res json -> E).
Context (gh : list string -> W -> res string * W).
Context (repr : list string -> string) (c : CheckerConfig).
Abbreviation M := (Eff (Checker W) E).

Lemma wp_or_permission_error {A} (m : M A) (Q : res A -> Checker W -> list E -> Prop) s :
  wp m (fun r s' l => match r with
                      | Ok _ => Q r s' l
                      | Err e => Q (Err e) s' l /\ Q (Err permission_error) s' l
                      end) s ->
  wp (or_permission_error m) Q s.
Proof.
  unfold wp, or_permission_error. destruct (m s) as [[[a|e] s'] l]; [done|]. intros [K1 K2]. by destruct e.
Qed.

(** What the requests made so far say of a user. *)
Definition evidence (log : list E) (u : string) (role : GitHubRole) : Prop :=
  match role with
  | OWNER => lower u = lower (cc_owner c)
  | COLLABORATOR => exists d l, got (permission_path c u) (Ok (JObj d)) ∈ log
      /\ dget "permission" d = Some (JStr l) /\ l ∈ ["admin"; "maintain"; "write"]
  | MEMBER => (exists v, got (repo_path c "") (Ok v) ∈ log /\ is_organization v = Ok true)
      /\ exists v, got (members_path c u) (Ok v) ∈ log
  | CONTRIBUTOR => exists v l d, got (repo_path c "/contributors") (Ok v) ∈ log
      /\ iter_any v = Ok l /\ JObj d ∈ l /\ dget "login" d = Some (JStr u)
  | NONE => True
  end.

Lemma evidence_mono log log' u role : log ⊆ log' -> evidence log u role -> evidence log' u role.
Proof. destruct role; cbn; intros L; [done| | | |done]; naive_solver. Qed.

(** Every role in the cache has its evidence. *)
Definition known (log : list E) (s : Checker W) : Prop :=
  forall u role, ck_roles s !! u = Some role -> evidence log u role.

Lemma known_mono log log' s s' : log ⊆ log' -> ck_roles s' = ck_roles s -> known log s -> known log' s'.
Proof. intros L R K u role U. rewrite R in U. eapply evidence_mono; eauto. Qed.

Lemma known_insert log s u role : known log s -> evidence log u role ->
  known log (with_roles (<[u := role]> (ck_roles s)) s).
Proof.
  intros K Ev v r. cbn. destruct (decide (v = u)) as [->|].
  - rewrite lookup_insert_eq. by intros [= <-].
  - rewrite lookup_insert_ne by done. apply K.
Qed.

Lemma is_text_inv t v : is_text t v = true -> v = Some (JStr t).
Proof. destruct v as [[]|]; try done. cbn. by intros ->%String.eqb_eq. Qed.

(** A request leaves the cache and is recorded. *)
Lemma api_get_spec ep s : wp (api_get got gh ep) (fun r s' l =>
  ck_roles s' = ck_roles s /\ l = [got ep r]) s.
Proof. unfold wp, api_get. by destruct (gh _ _) as [out w]. Qed.

Definition finds (u : string) (role : GitHubRole) (m : M bool) : Prop := forall s,
  wp m (fun r s' l => ck_roles s' = ck_roles s /\ (r = Ok true -> evidence l u role)) s.

Ltac request := apply wp_bind, (wp_mono _ _ _ _ (api_get_spec _ _)); intros [?|?] ? ? [? ->]; [|done].

Lemma finds_rescue u role m : finds u role m -> finds u role (rescue m false).
Proof.
  intros F s. apply wp_rescue, (wp_mono _ _ _ _ (F s)). intros r s' l [R K]. split; [done|].
  destruct r as [b|e]; [exact K|]. by destruct e.
Qed.

Lemma collaborator_found u : finds u COLLABORATOR (is_collaborator got gh c u).
Proof.
  intros s. request. apply wp_lift. split; [done|]. destruct a; try done. cbn [with_get].
  intros [= T]. rewrite orb_false_r, !orb_true_iff in T.
  destruct T as [T|[T|T]]; apply is_text_inv in T; exists d; eexists;
    (split; [apply list_elem_of_here | split; [exact T | set_solver]]).
Qed.

Lemma replies_spec ep s : wp (replies got gh ep) (fun r s' l =>
  ck_roles s' = ck_roles s /\ (r = Ok true -> exists v, got ep (Ok v) ∈ l)) s.
Proof.
  apply wp_rescue, wp_bind, (wp_mono _ _ _ _ (api_get_spec _ _)). intros [v|e] s' l [R ->].
  - apply wp_ret. split; [done|]. exists v. apply list_elem_of_here.
  - split; [done|]. by destruct e.
Qed.

Lemma member_found u : finds u MEMBER (is_member got gh c u).
Proof.
  intros s. request. apply wp_bind, wp_lift. rename s' into s1, a into v0. destruct (is_organization v0) as [[]|] eqn:O; [| |done].
  - apply (wp_mono _ _ _ _ (replies_spec _ _)). intros r s' l [R K]. split; [congruence|].
    intros T. split.
    + exists v0. split; [apply list_elem_of_here | done].
    + destruct (K T) as [v I]. exists v. by right.
  - apply wp_ret. done.
Qed.

Lemma any_login_true u l : any_login u l = Ok true -> exists d, JObj d ∈ l /\ dget "login" d = Some (JStr u).
Proof.
  induction l as [|x l IH]; [done|]. cbn. destruct x as [| | | | |d]; try done. cbn [with_get].
  destruct (is_text u _) eqn:T.
  - intros _. exists d. split; [apply list_elem_of_here | by apply is_text_inv].
  - intros (d' & I & L)%IH. exists d'. split; [by right | done].
Qed.

Lemma contributor_found u : finds u CONTRIBUTOR (is_contributor got gh c u).
Proof.
  intros s. request. apply wp_lift. split; [done|]. intros (l & I & (d & D & L)%any_login_true)%bind_Ok_inv.
  exists a, l, d. split; [apply list_elem_of_here | done].
Qed.

(** A computation that ends with evidence for the role it returns and keeps the cache backed. *)
Definition backed (log : list E) (u : string) (m : M GitHubRole) : Prop := forall s, known log s ->
  wp m (fun r s' l => known (log ++ l) s' /\ forall role, r = Ok role -> evidence (log ++ l) u role) s.

Lemma backed_remember log u role : evidence log u role -> backed log u (remember u role).
Proof.
  intros Ev s K. unfold wp, remember. rewrite app_nil_r.
  split; [by apply known_insert | by intros r [= <-]].
Qed.

Lemma backed_found log u role m m' : finds u role m ->
  (forall log', log ⊆ log' -> backed log' u m') ->
  backed log u (b ← rescue m false; if b : bool then remember u role else m').
Proof.
  intros F%finds_rescue K s Kn. apply wp_bind, (wp_mono _ _ _ _ (F s)). intros r s1 l1 [R Ev].
  assert (L : log ⊆ log ++ l1) by set_solver.
  assert (L1 : l1 ⊆ log ++ l1) by set_solver.
  pose proof (known_mono _ _ _ _ L R Kn) as Kn1. destruct r as [[]|e]; [| |by split].
  - apply (wp_mono _ _ _ _ (backed_remember (log ++ l1) u role
             (evidence_mono _ _ _ _ L1 (Ev eq_refl)) s1 Kn1)).
    intros r s2 l2. by rewrite app_assoc.
  - apply (wp_mono _ _ _ _ (K _ L s1 Kn1)). intros r s2 l2. by rewrite app_assoc.
Qed.

Lemma role_backed log u : backed log u (get_user_role got gh c u).
Proof.
  intros s K. unfold get_user_role. apply wp_bind, wp_reads. destruct (ck_roles s !! u) as [role|] eqn:R.
  - apply wp_ret. rewrite !app_nil_r. split; [done|]. intros role' [= <-]. by apply K.
  - assert (B : backed log u (find_role got gh c u)).
    { unfold find_role. destruct (String.eqb_spec (lower u) (lower (cc_owner c))) as [O|O];
        [by apply backed_remember|].
      apply backed_found; [apply collaborator_found|]. intros log1 _.
      apply backed_found; [apply member_found|]. intros log2 _.
      apply backed_found; [apply contributor_found|]. intros log3 _. by apply backed_remember. }
    apply wp_rescue, (wp_mono _ _ _ _ (B s K)). intros r s' l [K' Ev]. split; [done|].
    destruct r as [role|e]; [exact Ev|]. destruct e; try done; by intros role [= <-].
Qed.

(** *** Triggers *)

(** [e] adds the label, and no event of [post] does. *)
Definition latest_adder (label : string) (events : list json) (u : string) : Prop :=
  exists pre e post a, events = pre ++ JObj e :: post /\ adds_label label e = Ok true
    /\ Forall (fun x => exists d, x = JObj d /\ adds_label label d = Ok false) post
    /\ get_obj "actor" e = JObj a /\ dget "login" a = Some (JStr u).

Lemma first_adder_spec label l u : first_adder label l = Ok u -> latest_adder label (rev l) u.
Proof.
  induction l as [|x l IH]; [done|]. cbn. destruct x as [| | | | |e]; try done. cbn [with_get].
  intros ([] & A & K)%bind_Ok_inv.
  - destruct (get_obj "actor" e) as [| | | | |a] eqn:G; try done. cbn [with_get] in K.
    destruct (dget "login" a) as [v|] eqn:L; [|done]. destruct (truthy v); [|done].
    destruct v; try done. injection K as ->. exists (rev l), e, [], a. by rewrite L.
  - destruct (IH K) as (pre & e' & post & a & -> & A' & P & G & L). exists pre, e', (post ++ [JObj e]), a.
    rewrite <- app_assoc. split; [done|]. split; [done|]. split; [|done].
    apply Forall_app. split; [done|]. repeat constructor. by exists e.
Qed.

(** What the check of a label answers: the user who added it last, with the role. *)
Definition added_by (issue : Z) (label : string) (log : list E) (u : string) : Prop :=
  exists v events, got (events_path c issue) (Ok v) ∈ log /\ iter_any v = Ok events
    /\ latest_adder label events u.

Lemma added_by_mono issue label log log' u : log ⊆ log' -> added_by issue label log u ->
  added_by issue label log' u.
Proof. intros L (v & evs & I & K). exists v, evs. split; [set_solver | done]. Qed.

Lemma adder_spec log issue label s : known log s ->
  wp (check_label_adder got gh c issue label) (fun r s' l => known (log ++ l) s'
    /\ forall a, r = Ok a -> added_by issue label l a.1 /\ evidence (log ++ l) a.1 a.2) s.
Proof.
  intros K. apply wp_or_permission_error, wp_bind, (wp_mono _ _ _ _ (api_get_spec _ _)).
  intros r s1 l1 [R ->].
  assert (K1 : known (log ++ [got (events_path c issue) r]) s1) by (eapply known_mono; [|done..]; set_solver).
  destruct r as [v|e]; [|done]. apply wp_bind, wp_lift.
  destruct (let! l := iter_any v in first_adder label (rev l)) as [u|e] eqn:A; [|done].
  apply bind_Ok_inv in A as (evs & V & A%first_adder_spec). rewrite rev_involutive in A.
  apply wp_bind, (wp_mono _ _ _ _ (role_backed _ u s1 K1)). intros r s2 l2 [K2 Ev].
  rewrite <- app_assoc in K2, Ev. destruct r as [role|e]; [|done].
  apply wp_ret. rewrite !app_nil_r. split; [done|]. intros a [= <-]. cbn. split; [|by apply Ev].
  exists v, evs. split; [apply list_elem_of_here | done].
Qed.

Lemma autofix_spec log u s : known log s ->
  wp (is_allowed_for_autofix got gh repr c u) (fun r s' l => known (log ++ l) s'
    /\ forall a, r = Ok a -> pr_username a = u /\ evidence (log ++ l) u (pr_role a)
         /\ pr_allowed a = role_allowed c (pr_role a)) s.
Proof.
  intros K. apply wp_bind, (wp_mono _ _ _ _ (role_backed log u s K)). intros r s1 l1 [K1 Ev].
  destruct r as [role|e]; [|done]. apply wp_ret. rewrite !app_nil_r. split; [done|].
  intros a [= <-]. destruct (role_allowed c role) eqn:A; cbn; by rewrite A; eauto.
Qed.

Lemma trigger_spec log issue label s : known log s ->
  wp (verify_automation_trigger got gh repr c issue label) (fun r s' l => known (log ++ l) s'
    /\ forall a, r = Ok a -> added_by issue label l (pr_username a)
         /\ evidence (log ++ l) (pr_username a) (pr_role a)
         /\ pr_allowed a = role_allowed c (pr_role a)) s.
Proof.
  intros K. apply wp_bind, (wp_mono _ _ _ _ (adder_spec log issue label s K)). intros r s1 l1 [K1 Ad].
  destruct r as [[u role]|e]; [|done]. destruct (Ad _ eq_refl) as [By _].
  apply (wp_mono _ _ _ _ (autofix_spec _ u s1 K1)). intros r s2 l2 [K2 Al]. rewrite <- app_assoc in K2, Al.
  split; [done|]. intros a ->. destruct (Al a eq_refl) as (<- & Ev & A). split; [|done].
  eapply added_by_mono; [|exact By]. set_solver.
Qed.
End Logic.

(** ** Any sequence of checks *)

Inductive check :=
  | CTrigger (issue : Z) (label : string)
  | CAutofix (u : string)
  | CRole (u : string)
  | COrg (u : string)
  | CTeam (u team : string)
  | CScopes.

Section Sequences.
Context {W E : Type} (got : string -> res json -> E).
Context (gh : list string -> W -> res string * W).
Context (repr : list string -> string) (c : CheckerConfig).
Abbreviation M := (Eff (Checker W) E).

(** One check of a program that goes on after an error. *)
Definition run_check (k : check) : M () :=
  match k with
  | CTrigger issue label => shielded (verify_automation_trigger got gh repr c issue label)
  | CAutofix u => shielded (is_allowed_for_autofix got gh repr c u)
  | CRole u => shielded (get_user_role got gh c u)
  | COrg u => shielded (check_org_membership got gh c u)
  | CTeam u team => shielded (check_team_membership got gh c u team)
  | CScopes => shielded (verify_token_scopes got gh c)
  end.

Fixpoint run_checks (l : list check) : M () :=
  match l with [] => mret () | k :: l' => run_check k ;; run_checks l' end.

(** A computation that leaves the cache alone. *)
Definition keeps {A} (m : M A) : Prop := forall s, ck_roles (m s).1.2 = ck_roles s.

Lemma keeps_lift {A} (f : Checker W -> res A) : keeps (lift f).
Proof. done. Qed.
Lemma keeps_ret {A} (a : A) : keeps (mret a).
Proof. done. Qed.
Lemma keeps_fails {A} e : keeps (fails (A := A) e).
Proof. done. Qed.
Lemma keeps_api_get ep : keeps (api_get got gh ep).
Proof. intros s. unfold api_get. by destruct (gh _ _). Qed.
Lemma keeps_rescue {A} (m : M A) v : keeps m -> keeps (rescue m v).
Proof. intros K s. unfold rescue. specialize (K s). by destruct (m s) as [[]]. Qed.
Lemma keeps_shielded {A} (m : M A) : keeps m -> keeps (shielded m).
Proof. intros K s. unfold shielded. specialize (K s). by destruct (m s) as [[]]. Qed.
Lemma keeps_or_permission_error {A} (m : M A) : keeps m -> keeps (or_permission_error m).
Proof. intros K s. unfold or_permission_error. specialize (K s). by destruct (m s) as [[]]. Qed.
Lemma keeps_bind {A B} (m : M A) (f : A -> M B) : keeps m -> (forall a, keeps (f a)) -> keeps (mbind f m).
Proof.
  intros K F s. unfold mbind, Eff_bind. specialize (K s). destruct (m s) as [[[a|e] s'] l]; [|done].
  specialize (F a s'). destruct (f a s') as [[r s''] l']. cbn in *. congruence.
Qed.

Create HintDb keeps.
#[local] Hint Resolve keeps_lift keeps_ret keeps_fails keeps_api_get keeps_rescue keeps_shielded
  keeps_or_permission_error : keeps.

Lemma keeps_replies ep : keeps (replies got gh ep).
Proof. apply keeps_rescue, keeps_bind; auto with keeps. Qed.

Lemma keeps_org u : keeps (check_org_membership got gh c u).
Proof.
  apply keeps_rescue, keeps_bind; [auto with keeps|]. intros v. apply keeps_bind; [auto with keeps|].
  intros []; [apply keeps_replies | auto with keeps].
Qed.

Lemma keeps_scopes : keeps (verify_token_scopes got gh c).
Proof.
  apply keeps_or_permission_error, keeps_bind; [auto with keeps|]. intros v.
  destruct (negb (truthy v)); [auto with keeps|]. apply keeps_bind; [auto with keeps|]. intros _.
  apply keeps_bind; [auto with keeps|]. intros [].
  - apply keeps_bind; auto with keeps.
  - apply keeps_bind; auto with keeps.
Qed.

Lemma known_shielded {A} log (m : M A) s :
  wp m (fun _ s' l => known got c (log ++ l) s') s -> wp (shielded m) (fun _ s' l => known got c (log ++ l) s') s.
Proof. unfold wp, shielded. by destruct (m s) as [[r s'] l]. Qed.

Lemma known_keeps {A} log (m : M A) s : keeps m -> known got c log s ->
  wp m (fun _ s' l => known got c (log ++ l) s') s.
Proof.
  intros K Kn. specialize (K s). unfold wp. destruct (m s) as [[r s'] l].
  eapply known_mono; [|exact K|exact Kn]. set_solver.
Qed.

Lemma run_check_known log k s : known got c log s ->
  wp (run_check k) (fun _ s' l => known got c (log ++ l) s') s.
Proof.
  intros K. destruct k as [issue label|u|u|u|u team|]; apply known_shielded.
  - eapply wp_mono; [by apply trigger_spec|]. by intros r s' l [].
  - eapply wp_mono; [by apply autofix_spec|]. by intros r s' l [].
  - eapply wp_mono; [by apply role_backed|]. by intros r s' l [].
  - apply known_keeps; [apply keeps_org | done].
  - apply known_keeps; [apply keeps_replies | done].
  - apply known_keeps; [apply keeps_scopes | done].
Qed.

Lemma run_checks_known log l s : known got c log s ->
  wp (run_checks l) (fun _ s' l => known got c (log ++ l) s') s.
Proof.
  revert log s. induction l as [|k l IH]; intros log s K; [apply wp_ret; by rewrite app_nil_r|].
  apply wp_bind, (wp_mono _ _ _ _ (run_check_known log k s K)). intros [u|e] s1 l1 K1; [|done].
  apply (wp_mono _ _ _ _ (IH _ _ K1)). intros r s2 l2. by rewrite app_assoc.
Qed.

(** The events of a check are its requests. *)
Definition requests {A} (m : M A) : Prop := emits (fun e => exists ep r, e = got ep r) m.

Lemma requests_api_get ep : requests (api_get got gh ep).
Proof. intros s. unfold api_get. destruct (gh _ _). by repeat econstructor. Qed.

Lemma requests_or_permission_error {A} (m : M A) : requests m -> requests (or_permission_error m).
Proof. intros K s. unfold or_permission_error. specialize (K s). by destruct (m s) as [[]]. Qed.

#[local] Ltac requests := repeat first
  [ apply emits_bind; [|intros ?] | apply emits_rescue | apply emits_lift | apply emits_ret
  | apply requests_api_get | apply requests_or_permission_error
  | match goal with |- emits _ (if ?b then _ else _) => destruct b end
  | solve [intros ?; constructor] ].

Lemma requests_role u : requests (get_user_role got gh c u).
Proof.
  unfold requests, get_user_role. requests. destruct a as [role|]; requests.
  unfold find_role, is_collaborator, is_member, is_contributor, replies. requests.
Qed.

Lemma requests_trigger issue label : requests (verify_automation_trigger got gh repr c issue label).
Proof.
  unfold requests, verify_automation_trigger, check_label_adder, is_allowed_for_autofix.
  pose proof requests_role as R. unfold requests in R. generalize dependent (get_user_role got gh c).
  intros role R. repeat (apply R || requests).
Qed.
End Sequences.

(** ** Properties *)

(** C8 (safety): an automation runs for who added its label, if their role lets them.  After
    any sequence of checks, a trigger that was verified names the user of the latest event of
    the issue that adds this label; the answers of GitHub in this process bear out the role
    the user is given, which is the role of the highest rank only as far as they do; and the
    trigger is allowed exactly for an allowed role, or for a contributor where the
    configuration lets contributors in. *)
Theorem automation_is_authorised {W E} (got : string -> res json -> E)
    (gh : list string -> W -> res string * W) (repr : list string -> string) (c : CheckerConfig)
    (checks : list check) (issue : Z) (label : string) (w : W) (s s' : Checker W) (r0 : res ())
    (r : PermissionCheckResult) (log l : list E) :
  run_checks got gh repr c checks {| ck_roles := ∅; ck_world := w |} = (r0, s, log) ->
  verify_automation_trigger got gh repr c issue label s = (Ok r, s', l) ->
  added_by got c issue label l (pr_username r)
  /\ evidence got c (log ++ l) (pr_username r) (pr_role r)
  /\ (pr_allowed r = true <-> role_name (pr_role r) ∈ cc_allowed_roles c
                              \/ cc_allow_external c = true /\ pr_role r = CONTRIBUTOR).
Proof.
  intros R V.
  assert (K : known got c log s).
  { eapply (wp_run _ _ _ _ _ _ (run_checks_known got gh repr c [] checks _ _) R). Unshelve. by intros u role. }
  apply (wp_run _ _ _ _ _ _ (trigger_spec got gh repr c log issue label s K)) in V as [_ V].
  destruct (V r eq_refl) as (By & Ev & A). split; [done|]. split; [done|]. rewrite A. unfold role_allowed.
  by rewrite orb_true_iff, andb_true_iff, key_in_elem, bool_decide_eq_true.
Qed.

(** GitHub confirms a membership with status 204 and no body, where the client parses the
    output as JSON: no member of an organization is recognised. *)
Lemma members_are_not_recognised {W E} (got : string -> res json -> E)
    (gh : list string -> W -> res string * W) (c : CheckerConfig) (u : string) (s : Checker W) :
  (forall w, (gh ["api"; members_path c u] w).1 = Ok "") ->
  ck_roles s !! u <> Some MEMBER -> (get_user_role got gh c u s).1.1 <> Ok MEMBER.
Proof.
  intros G N.
  set (no_member := fun (r : res bool) (_ : Checker W) (_ : list E) => r <> Ok true).
  assert (Rp : forall s, wp (replies got gh (members_path c u)) no_member s).
  { intros s1. unfold wp, replies, rescue, mbind, Eff_bind, api_get. specialize (G (ck_world s1)).
    destruct (gh _ _) as [out w]. cbn in G. by subst out. }
  assert (Mb : forall s, wp (rescue (is_member got gh c u) false) no_member s).
  { intros s1. apply wp_rescue, (wp_mono _ no_member); [|by intros [|[]] ? ? K].
    apply wp_bind, wp_any. intros [v|e] s2 l; [|done]. apply wp_bind, wp_lift.
    destruct (is_organization v) as [[]|]; [|done|done].
    apply (wp_mono _ _ _ _ (Rp s2)). done. }
  set (no_role := fun (r : res GitHubRole) (_ : Checker W) (_ : list E) => r <> Ok MEMBER).
  enough (K : wp (get_user_role got gh c u) no_role s).
  { unfold wp in K. by destruct (get_user_role got gh c u s) as [[]]. }
  apply wp_bind, wp_reads. destruct (ck_roles s !! u) as [role|]; [apply wp_ret; congruence|].
  apply wp_rescue, (wp_mono _ no_role); [|by intros [role|[]] ? ? K].
  unfold find_role. destruct (String.eqb _ _); [done|].
  apply wp_bind, wp_any. intros [[]|e] s1 l1; [done| |done].
  apply wp_bind, (wp_mono _ _ _ _ (Mb s1)). intros [[]|e] s2 l2 K; [by destruct K| |done].
  apply wp_bind, wp_any. by intros [[]|e] s3 l3.
Qed.

(** A checker that is configured to let no role in lets the default roles in. *)
Lemma no_role_means_the_default repo external :
  init_checker repo (Some []) external = init_checker repo None external.
Proof. unfold init_checker. by destruct (split_on "/" repo) as [|? [|? []]]. Qed.

(** ** Witnesses *)

Definition example_config : CheckerConfig :=
  {| cc_repo := "acme/shop"; cc_owner := "acme"; cc_allowed_roles := DEFAULT_ROLES;
     cc_allow_external := false |}.

(** A GitHub that knows one event and one collaborator. *)
Definition example_gh (args : list string) (w : ()) : res string * () :=
  (match args with
   | [_; "/repos/acme/shop/issues/7/events"] => Ok (ticks
       "[{'event':'labeled','label':{'name':'auto-fix'},'actor':{'login':'ann'}}]")
   | [_; "/repos/acme/shop/collaborators/ann/permission"] => Ok (ticks "{'permission':'write'}")
   | _ => Err (AppError "GHCommandError")
   end, w).

Lemma automation_is_authorised_witness : exists s' l,
  verify_automation_trigger pair example_gh (join ", ") example_config 7 "auto-fix"
    {| ck_roles := ∅; ck_world := () |}
  = (Ok {| pr_allowed := true; pr_username := "ann"; pr_role := COLLABORATOR; pr_reason := None |}, s', l)
  /\ added_by pair example_config 7 "auto-fix" l "ann".
Proof.
  destruct (verify_automation_trigger pair example_gh (join ", ") example_config 7 "auto-fix"
    {| ck_roles := ∅; ck_world := () |}) as [[r s'] l] eqn:V.
  exists s', l. pose proof (f_equal (fun x => x.1.1) V) as R. vm_compute in R. subst r. split; [reflexivity|].
  exact (proj1 (automation_is_authorised pair example_gh (join ", ") example_config [] 7 "auto-fix" ()
    {| ck_roles := ∅; ck_world := () |} s' (Ok ()) _ [] l eq_refl V)).
Defined.
