(* ===== verification/AutoFix.v ===== *)
(** Automatic fixes of issues (apps/backend/runners/github/services/autofix_processor.py),
    with their states ([AutoFixStatus] and [AutoFixState] of models.py).

    The directory of an automation holds a file per issue and an index.  A locked write is
    one step here, as FileLock shows under its condition; it may time out, which a hook
    decides.  Progress reports and console output are left out. *)
From S2P Require Import Prelude JsonText JsonRead PyData EventMonad FileLock Permissions.
Local Open Scope nat_scope.

(** ** The state of a fix (models.py) *)

Inductive AutoFixStatus :=
  | PENDING | ANALYZING | CREATING_SPEC | WAITING_APPROVAL | BUILDING | QA_REVIEW
  | PR_CREATED | MERGE_CONFLICT | COMPLETED | FAILED | CANCELLED | STALE | RATE_LIMITED.
#[export] Instance AutoFixStatus_eq_dec : EqDecision AutoFixStatus.
Proof. solve_decision. Defined.

Definition autofix_value (s : AutoFixStatus) : string :=
  match s with
  | PENDING => "pending" | ANALYZING => "analyzing" | CREATING_SPEC => "creating_spec"
  | WAITING_APPROVAL => "waiting_approval" | BUILDING => "building" | QA_REVIEW => "qa_review"
  | PR_CREATED => "pr_created" | MERGE_CONFLICT => "merge_conflict" | COMPLETED => "completed"
  | FAILED => "failed" | CANCELLED => "cancelled" | STALE => "stale"
  | RATE_LIMITED => "rate_limited"
  end.
#[export, program] Instance autofix_enum : PyEnum AutoFixStatus := {|
  members := [PENDING; ANALYZING; CREATING_SPEC; WAITING_APPROVAL; BUILDING; QA_REVIEW;
              PR_CREATED; MERGE_CONFLICT; COMPLETED; FAILED; CANCELLED; STALE; RATE_LIMITED];
  value := autofix_value |}.
Solve All Obligations with solve_enum.

Definition terminal_states : list AutoFixStatus := [COMPLETED; FAILED; CANCELLED].
Definition recoverable_states : list AutoFixStatus := [FAILED; STALE; RATE_LIMITED; MERGE_CONFLICT].
Definition active_states : list AutoFixStatus :=
  [PENDING; ANALYZING; CREATING_SPEC; BUILDING; QA_REVIEW; PR_CREATED].

Definition valid_transitions (s : AutoFixStatus) : list AutoFixStatus :=
  match s with
  | PENDING => [ANALYZING; CANCELLED]
  | ANALYZING => [CREATING_SPEC; FAILED; CANCELLED; RATE_LIMITED]
  | CREATING_SPEC => [WAITING_APPROVAL; BUILDING; FAILED; CANCELLED; STALE]
  | WAITING_APPROVAL => [BUILDING; CANCELLED; STALE]
  | BUILDING => [QA_REVIEW; FAILED; CANCELLED; RATE_LIMITED]
  | QA_REVIEW => [PR_CREATED; BUILDING; FAILED; CANCELLED]
  | PR_CREATED => [COMPLETED; MERGE_CONFLICT; FAILED]
  | MERGE_CONFLICT => [BUILDING; FAILED; CANCELLED]
  | STALE => [ANALYZING; CANCELLED]
  | RATE_LIMITED => [PENDING; CANCELLED]
  | COMPLETED => []
  | FAILED => [PENDING]
  | CANCELLED => []
  end.
Definition can_transition_to (s new_state : AutoFixStatus) : bool :=
  bool_decide (new_state ∈ valid_transitions s).

Record AutoFixState := {
  fx_issue_number : Z;
  fx_issue_url : string;
  fx_repo : string;
  fx_status : AutoFixStatus;
  fx_spec_id : option string;
  fx_spec_dir : option string;
  fx_pr_number : option Z;
  fx_pr_url : option string;
  fx_bot_comments : list string;
  fx_error : option string;
  fx_created_at : string;
  fx_updated_at : string;
}.

Module AutoFixState.
Definition to_dict (s : AutoFixState) : dict :=
  [("issue_number", JInt (fx_issue_number s)); ("issue_url", JStr (fx_issue_url s));
   ("repo", JStr (fx_repo s)); ("status", JStr (value (fx_status s)));
   ("spec_id", JOpt (fx_spec_id s)); ("spec_dir", JOpt (fx_spec_dir s));
   ("pr_number", JOptZ (fx_pr_number s)); ("pr_url", JOpt (fx_pr_url s));
   ("bot_comments", JStrs (fx_bot_comments s)); ("error", JOpt (fx_error s));
   ("created_at", JStr (fx_created_at s)); ("updated_at", JStr (fx_updated_at s))].

Definition issue_link (repo : string) (n : Z) : string :=
  "https://github.com/" +:+ repo +:+ "/issues/" +:+ pretty n.

Definition from_dict (now : string) (data : dict) : res AutoFixState :=
  let! n := req as_int "issue_number" data in
  let! repo := req as_str "repo" data in
  let! url := match dget "issue_url" data with
              | Some v => if truthy v then as_str v else Ok (issue_link repo n)
              | None => Ok (issue_link repo n)
              end in
  let! status := enum_of (default (JStr "pending") (dget "status" data)) in
  let! spec_id := get_opt as_str "spec_id" data in
  let! spec_dir := get_opt as_str "spec_dir" data in
  let! pr_number := get_opt as_int "pr_number" data in
  let! pr_url := get_opt as_str "pr_url" data in
  let! bot_comments := get_or as_strs "bot_comments" [] data in
  let! error := get_opt as_str "error" data in
  let! created_at := get_or as_str "created_at" now data in
  let! updated_at := get_or as_str "updated_at" now data in
  Ok {| fx_issue_number := n; fx_issue_url := url; fx_repo := repo; fx_status := status;
        fx_spec_id := spec_id; fx_spec_dir := spec_dir; fx_pr_number := pr_number;
        fx_pr_url := pr_url; fx_bot_comments := bot_comments; fx_error := error;
        fx_created_at := created_at; fx_updated_at := updated_at |}.

Definition with_status (st : AutoFixStatus) (error : option string) (now : string) (s : AutoFixState)
  : AutoFixState :=
  {| fx_issue_number := fx_issue_number s; fx_issue_url := fx_issue_url s; fx_repo := fx_repo s;
     fx_status := st; fx_spec_id := fx_spec_id s; fx_spec_dir := fx_spec_dir s;
     fx_pr_number := fx_pr_number s; fx_pr_url := fx_pr_url s;
     fx_bot_comments := fx_bot_comments s; fx_error := error;
     fx_created_at := fx_created_at s; fx_updated_at := now |}.

Definition update_status (now : string) (st : AutoFixStatus) (s : AutoFixState) : res AutoFixState :=
  if can_transition_to (fx_status s) st then Ok (with_status st (fx_error s) now s) else Err ValueError.

(** [json.load] and [from_dict]: what is not an object has no string keys. *)
Definition load (now : string) (f : file) : res (option AutoFixState) :=
  match f with
  | Missing => Ok None
  | Broken => Err ValueError
  | Json (JObj d) => Some <$> from_dict now d
  | Json _ => Err TypeError
  end.

Definition index_entry (s : AutoFixState) : json :=
  JObj [("issue_number", JInt (fx_issue_number s)); ("repo", JStr (fx_repo s));
        ("status", JStr (value (fx_status s))); ("spec_id", JOpt (fx_spec_id s));
        ("pr_number", JOptZ (fx_pr_number s)); ("updated_at", JStr (fx_updated_at s))].

(** [v == n] for a number: a boolean counts as 0 or 1. *)
Definition is_number (n : Z) (v : json) : bool :=
  match v with
  | JInt z => (z =? n)%Z
  | JBool b => ((if b then 1 else 0) =? n)%Z
  | _ => false
  end.

(** [q["issue_number"] == n] *)
Definition entry_of (n : Z) (q : json) : res bool :=
  match q with
  | JObj d => match dget "issue_number" d with
              | Some v => Ok (is_number n v)
              | None => Err (KeyError "issue_number")
              end
  | _ => Err TypeError
  end.

Definition new_index : dict :=
  [("triaged", JList []); ("auto_fix_queue", JList []); ("last_updated", JNull)].

Definition update_index (now : string) (s : AutoFixState) (current : option json) : res json :=
  with_get (default (JObj new_index) current) (fun d =>
    let v := default (JList []) (dget "auto_fix_queue" d) in
    let! queue := iter_any v in
    let! own := mapM (entry_of (fx_issue_number s)) queue in
    let! queue := (if existsb id own
                   then Ok (zip_with (fun q (b : bool) => if b then index_entry s else q) queue own)
                   else match v with
                        | JList _ => Ok (queue ++ [index_entry s])
                        | _ => Err AttributeError
                        end) in
    Ok (JObj (dset "last_updated" (JStr now) (dset "auto_fix_queue" (JList queue) d)))).
End AutoFixState.

(** ** The processor *)

Record FixConfig := {
  fc_repo : string;
  fc_enabled : bool;
  fc_labels : list string;
}.

(** The directory .aifactory/github/issues/, next to what the checker acts on. *)
Record Disk {W : Type} := {
  dk_states : gmap Z file;
  dk_index : file;
  dk_world : W;
}.
Arguments Disk : clear implicits.

Inductive fix_ev :=
  | EvGet (endpoint : string) (reply : res json)
  | EvSave (s : AutoFixState).

Record FixHooks {W : Type} := {
  fh_gh : list string -> W -> res string * W;
  fh_lock : string -> W -> bool * W;           (* the lock of a file, in time *)
  fh_now : W -> string;
  fh_repr : list string -> string;
  fh_text : exn -> string;                     (* str(e) *)
}.
Arguments FixHooks : clear implicits.

Section Processor.
Context {W : Type} (h : FixHooks W) (c : CheckerConfig) (cfg : FixConfig).
Abbreviation St := (Checker (Disk W)).
Abbreviation M := (Eff St fix_ev).

Definition on_disk {A} (f : W -> A * W) (d : Disk W) : A * Disk W :=
  let '(a, w) := f (dk_world d) in
  (a, {| dk_states := dk_states d; dk_index := dk_index d; dk_world := w |}).
Definition gh_disk (args : list string) : Disk W -> res string * Disk W := on_disk (fh_gh h args).

Definition now (s : St) : string := fh_now h (dk_world (ck_world s)).
Definition file_of (n : Z) (s : St) : file := default Missing (dk_states (ck_world s) !! n).
Definition load_state (n : Z) : M (option AutoFixState) :=
  lift (fun s => AutoFixState.load (now s) (file_of n s)).

Definition locked (name : string) : M () := fun s =>
  let '(ok, d) := on_disk (fh_lock h name) (ck_world s) in
  (if ok : bool then Ok () else Err file_lock_timeout, with_world d s, []).

Definition write_state (x : AutoFixState) : M () := fun s =>
  let d := ck_world s in
  (Ok (), with_world {| dk_states := <[fx_issue_number x := Json (JObj (AutoFixState.to_dict x))]> (dk_states d);
                        dk_index := dk_index d; dk_world := dk_world d |} s, [EvSave x]).

Definition write_index (x : AutoFixState) : M () := fun s =>
  let d := ck_world s in
  match (let! current := _read_json (dk_index d) in AutoFixState.update_index (now s) x current) with
  | Ok v => (Ok (), with_world {| dk_states := dk_states d; dk_index := Json v; dk_world := dk_world d |} s, [])
  | Err e => (Err e, s, [])
  end.

Definition save (x : AutoFixState) : M () :=
  locked ("autofix_" +:+ pretty (fx_issue_number x) +:+ ".json") ;;
  write_state x ;;
  locked "index.json" ;;
  write_index x.

(** [except Exception as e] of process_issue: [state] is what the variable holds. *)
Definition on_failure {A} (state : option AutoFixState) (m : M A) : M A := fun s =>
  match m s with
  | (Err Untyped, s1, l1) => (Err Untyped, s1, l1)
  | (Err e, s1, l1) =>
      match state with
      | Some x =>
          let failed := AutoFixState.with_status FAILED (Some (fh_text h e)) (fx_updated_at x) x in
          let '(r, s2, l2) := save failed s1 in
          (match r with Ok _ => Err e | Err e' => Err e' end, s2, l1 ++ l2)
      | None => (Err e, s1, l1)
      end
  | done => done
  end.

(** The guard of a trigger: [if trigger_label: ...] *)
Definition check_trigger (n : Z) (trigger_label : option string) : M () :=
  match trigger_label with
  | Some label =>
      if is_empty label then mret ()
      else
        result ← verify_automation_trigger EvGet gh_disk (fh_repr h) c n label;
        if pr_allowed result then mret () else fails permission_error
  | None => mret ()
  end.

Definition new_state (n : Z) (t : string) : AutoFixState := {|
  fx_issue_number := n; fx_issue_url := AutoFixState.issue_link (fc_repo cfg) n; fx_repo := fc_repo cfg;
  fx_status := ANALYZING; fx_spec_id := None; fx_spec_dir := None; fx_pr_number := None;
  fx_pr_url := None; fx_bot_comments := []; fx_error := None; fx_created_at := t; fx_updated_at := t |}.

(** An issue with a state that is neither failed nor completed is in progress. *)
Definition in_progress (state : option AutoFixState) : option AutoFixState :=
  match state with
  | Some x => if bool_decide (fx_status x ∈ [FAILED; COMPLETED]) then None else Some x
  | None => None
  end.

Definition start_fix (n : Z) : M AutoFixState :=
  t ← lift (fun s => Ok (now s));
  let x := new_state n t in
  on_failure (Some x) (save x) ;;
  t ← lift (fun s => Ok (now s));
  y ← on_failure (Some x) (lift (fun _ => AutoFixState.update_status t CREATING_SPEC x));
  on_failure (Some y) (save y) ;;
  mret y.

Definition process_issue (n : Z) (trigger_label : option string) : M AutoFixState :=
  state ← load_state n;
  match in_progress state with
  | Some x => mret x
  | None => on_failure state (check_trigger n trigger_label) ;; start_fix n
  end.

(** ** The queue and the labels *)

(** The state files, by the text between [autofix_] and [.json], in the order of the
    directory; [int] reads each. *)
Fixpoint load_queue (stems : list string) : M (list AutoFixState) :=
  match stems with
  | [] => mret []
  | t :: l =>
      state ← match int_of_string t with
              | Some n => fun s => match load_state n s with
                                   | (Err ValueError, s, l) => (Ok None, s, l)
                                   | r => r
                                   end
              | None => mret None
              end;
      rest ← load_queue l;
      mret (match state with Some x => x :: rest | None => rest end)
  end.

(** [sorted(..., key=created_at, reverse=True)] *)
Definition newest_first (x y : AutoFixState) : bool := String.leb (fx_created_at y) (fx_created_at x).
Definition get_queue (stems : list string) : M (list AutoFixState) :=
  queue ← load_queue stems; mret (sort_by newest_first queue).

Record LabeledIssue := {
  li_issue_number : Z;
  li_trigger_label : string;
  li_title : json;
}.

Definition label_name (v : json) : res string :=
  match v with JObj d => req as_str "name" d | _ => Err TypeError end.

Definition matching_labels (labels : list string) : list string :=
  keep (fun l => key_in (lower <$> labels) (lower l)) (fc_labels cfg).

Definition authorised (n : Z) (label : string) : M bool :=
  rescue (result ← verify_automation_trigger EvGet gh_disk (fh_repr h) c n label;
          mret (pr_allowed result)) false.

Definition check_issue (verify : bool) (issue : json) : M (list LabeledIssue) :=
  labels ← lift (fun _ => with_get issue (fun d =>
    let! l := iter_field "labels" d in mapM label_name l));
  match matching_labels labels with
  | [] => mret []
  | trigger_label :: _ =>
      n ← lift (fun _ => with_get issue (req as_int "number"));
      state ← load_state n;
      match in_progress state with
      | Some _ => mret []
      | None =>
          ok ← (if verify then authorised n trigger_label else mret true);
          if ok : bool then
            lift (fun _ => with_get issue (fun d =>
              Ok [{| li_issue_number := n; li_trigger_label := trigger_label;
                     li_title := default (JStr "") (dget "title" d) |}]))
          else mret []
      end
  end.

Fixpoint check_issues (verify : bool) (issues : list json) : M (list LabeledIssue) :=
  match issues with
  | [] => mret []
  | i :: l => x ← check_issue verify i; y ← check_issues verify l; mret (x ++ y)
  end.

Definition check_labeled_issues (issues : list json) (verify : bool) : M (list LabeledIssue) :=
  if fc_enabled cfg then check_issues verify issues else mret [].
End Processor.

(** ** Lemmas *)

Lemma wp_on_failure {W} (h : FixHooks W) {A} state (m : Eff (Checker (Disk W)) fix_ev A) Q s :
  wp m (fun r s' l => match r with
    | Err Untyped => Q r s' l
    | Err e =>
        match state with
        | Some x =>
            wp (save h (AutoFixState.with_status FAILED (Some (fh_text h e)) (fx_updated_at x) x))
               (fun r' s'' l' => Q (match r' with Ok _ => Err e | Err e' => Err e' end) s'' (l ++ l')) s'
        | None => Q r s' l
        end
    | Ok _ => Q r s' l
    end) s ->
  wp (on_failure h state m) Q s.
Proof.
  unfold wp, on_failure. destruct (m s) as [[[a|e] s'] l]; [done|].
  destruct e; try done; (destruct state as [x|]; [|done]); by destruct (save _ _ s') as [[r s2] l2].
Qed.

(** A save writes its state, if anything. *)
Lemma save_events {W} (h : FixHooks W) x :
  emits (fun e => e = EvSave x) (save (W := W) h x).
Proof.
  assert (L : forall name, emits (fun e => e = EvSave x) (locked (W := W) h name)).
  { intros name s. unfold locked. destruct (on_disk _ _). by destruct b. }
  assert (Wx : emits (fun e => e = EvSave x) (write_state (W := W) x)) by (intros s; by repeat constructor).
  assert (Ix : emits (fun e => e = EvSave x) (write_index (W := W) h x)).
  { intros s. unfold write_index. by destruct (let! c := _ in _). }
  unfold save. repeat (apply emits_bind; [auto|intros _]). auto.
Qed.

Lemma update_status_inv now st x y : AutoFixState.update_status now st x = Ok y ->
  y = AutoFixState.with_status st (fx_error x) now x.
Proof. unfold AutoFixState.update_status. destruct (can_transition_to _ _); [by intros [= <-] | done]. Qed.

(** *** Round trip *)

(** A fix that is loaded is the fix that was saved. *)
Theorem fix_load_after_save (now : string) (s : AutoFixState) :
  fx_issue_url s <> "" ->
  AutoFixState.from_dict now (AutoFixState.to_dict s) = Ok s.
Proof.
  intros U. unfold AutoFixState.from_dict. read_back AutoFixState.to_dict.
  cbn [default truthy mbind res_bind as_int as_str]. replace (is_empty (fx_issue_url s)) with false by (destruct (fx_issue_url s) eqn:?; [congruence | done]).
  cbn [negb mbind res_bind id]. read_fields. by destruct s.
Qed.

(** *** The index *)

(** The entry of a fix replaces the one of its issue, or is the last. *)
Fixpoint upsert (x : AutoFixState) (l : list AutoFixState) : list AutoFixState :=
  match l with
  | [] => [x]
  | y :: l' => if (fx_issue_number y =? fx_issue_number x)%Z then x :: l' else y :: upsert x l'
  end.

(** The index lists exactly these fixes. *)
Definition indexes (l : list AutoFixState) (v : option json) : Prop :=
  NoDup (fx_issue_number <$> l) /\
  match v with
  | None => l = []
  | Some v => exists d, v = JObj d /\ dget "auto_fix_queue" d = Some (JList (AutoFixState.index_entry <$> l))
  end.

Lemma entries_of n l : mapM (AutoFixState.entry_of n) (AutoFixState.index_entry <$> l)
  = Ok ((fun x => (fx_issue_number x =? n)%Z) <$> l).
Proof. by apply mapM_res_fmap_to. Qed.

Lemma upsert_absent x l : existsb id ((fun y => (fx_issue_number y =? fx_issue_number x)%Z) <$> l) = false ->
  upsert x l = l ++ [x].
Proof.
  induction l as [|y l IH]; [done|]. cbn. intros [N1 N2]%orb_false_iff. unfold id in N1. rewrite N1.
  by rewrite IH.
Qed.

Lemma zip_kept {A} (f : AutoFixState -> A) x (e : A) l : (fx_issue_number x ∉ fx_issue_number <$> l) ->
  zip_with (fun q (b : bool) => if b then e else q) (f <$> l)
    ((fun y => (fx_issue_number y =? fx_issue_number x)%Z) <$> l) = f <$> l.
Proof.
  induction l as [|y l IH]; [done|]. cbn. intros [N1 N2]%not_elem_of_cons. rewrite IH by done.
  by rewrite (proj2 (Z.eqb_neq _ _)) by congruence.
Qed.

Lemma upsert_known x l : NoDup (fx_issue_number <$> l) ->
  existsb id ((fun y => (fx_issue_number y =? fx_issue_number x)%Z) <$> l) = true ->
  zip_with (fun q (b : bool) => if b then AutoFixState.index_entry x else q) (AutoFixState.index_entry <$> l)
    ((fun y => (fx_issue_number y =? fx_issue_number x)%Z) <$> l)
  = AutoFixState.index_entry <$> upsert x l.
Proof.
  induction l as [|y l IH]; [done|]. cbn. intros [N1 N2]%NoDup_cons. unfold id at 1.
  destruct (Z.eqb_spec (fx_issue_number y) (fx_issue_number x)) as [E|]; cbn.
  - intros _. rewrite zip_kept; [done|]. by rewrite <- E.
  - intros K. by rewrite IH.
Qed.

Lemma upsert_numbers x l : NoDup (fx_issue_number <$> l) -> NoDup (fx_issue_number <$> upsert x l).
Proof.
  assert (I : forall n k, n ∈ fx_issue_number <$> upsert x k -> n = fx_issue_number x \/ n ∈ fx_issue_number <$> k).
  { intros n k. induction k as [|y k IH]; cbn; [set_solver|].
    destruct (Z.eqb_spec (fx_issue_number y) (fx_issue_number x)); cbn; set_solver. }
  induction l as [|y l IH]; cbn; [intros _; apply NoDup_singleton|]. intros [N1 N2]%NoDup_cons.
  destruct (Z.eqb_spec (fx_issue_number y) (fx_issue_number x)) as [E|E]; cbn; apply NoDup_cons.
  - by rewrite <- E.
  - split; [|auto]. intros [?|?]%I; congruence.
Qed.

Lemma index_step now x l v : indexes l v ->
  exists v', AutoFixState.update_index now x v = Ok v' /\ indexes (upsert x l) (Some v').
Proof.
  intros [N V].
  assert (exists d, default (JObj AutoFixState.new_index) v = JObj d
    /\ dget "auto_fix_queue" d = Some (JList (AutoFixState.index_entry <$> l))) as (d & D & Q).
  { destruct v as [v|]; [destruct V as (d & -> & Q); by exists d|]. subst l. by eexists. }
  unfold AutoFixState.update_index. rewrite D. cbn [with_get]. rewrite Q. cbn [default id iter_any mbind res_bind].
  rewrite entries_of. cbn [mbind res_bind].
  destruct (existsb id _) eqn:K; cbn [mbind res_bind]; eexists; (split; [reflexivity|]); split;
    try (by apply upsert_numbers); eexists; (split; [reflexivity|]);
    rewrite !dget_dset; cbn [String.eqb Ascii.eqb Bool.eqb].
  - by rewrite upsert_known.
  - rewrite (upsert_absent x l K). by rewrite fmap_app.
Qed.

(** The index follows the saves.  From no index, any saves leave an index
    whose queue has one entry per issue, that of the state saved last, in the order in which
    the issues were first saved. *)
Theorem index_follows_saves (saves : list (string * AutoFixState)) :
  exists v, foldl (fun r x => let! v := r in Some <$> AutoFixState.update_index x.1 x.2 v) (Ok None) saves = Ok v
    /\ indexes (foldl (fun l x => upsert x.2 l) [] saves) v.
Proof.
  assert (K : forall l v, indexes l v -> exists v',
    foldl (fun r x => let! v := r in Some <$> AutoFixState.update_index x.1 x.2 v) (Ok v) saves = Ok v'
    /\ indexes (foldl (fun l x => upsert x.2 l) l saves) v').
  { induction saves as [|[t x] saves IH]; intros l v I; [by exists v|]. cbn.
    destruct (index_step t x l v I) as (v1 & -> & I1). by apply IH. }
  apply K. split; [constructor | done].
Qed.

(** *** Authorisation *)

Section Authorised.
Context {W : Type} (h : FixHooks W) (c : CheckerConfig) (cfg : FixConfig).
Abbreviation St := (Checker (Disk W)).
Abbreviation M := (Eff St fix_ev).
Abbreviation known := (known (W := Disk W) EvGet c).

(** Somebody with an allowed role, borne out by [log], added the label last. *)
Definition authorised_by (log l : list fix_ev) (n : Z) (label : string) : Prop :=
  exists u role, added_by EvGet c n label l u /\ evidence EvGet c (log ++ l) u role
    /\ role_allowed c role = true.

Lemma authorised_mono log l l' n label : authorised_by log l n label -> authorised_by log (l ++ l') n label.
Proof.
  intros (u & role & A & Ev & R). exists u, role. split; [eapply added_by_mono; [|exact A]; set_solver|].
  split; [|done]. eapply evidence_mono; [|exact Ev]. set_solver.
Qed.

(** What a computation may write: failures, or anything once it is authorised. *)
Definition writes_failures (l : list fix_ev) : Prop :=
  forall x, EvSave x ∈ l -> fx_status x = FAILED.

Lemma save_keeps x : keeps (save (W := W) h x).
Proof.
  assert (L : forall name, keeps (locked (W := W) h name)).
  { intros name s. unfold locked. by destruct (on_disk _ _). }
  assert (Wx : keeps (write_state (W := W) x)) by done.
  assert (Ix : keeps (write_index (W := W) h x)).
  { intros s. unfold write_index. by destruct (let! c := _ in _). }
  unfold save. repeat (apply keeps_bind; [auto|intros _]). auto.
Qed.

Lemma keeps_wp {A} (m : M A) : (forall s, wp m (fun _ s' _ => ck_roles s' = ck_roles s) s) <-> keeps m.
Proof. split; intros K s; specialize (K s); unfold wp in *; by destruct (m s) as [[]]. Qed.

Lemma on_failure_keeps {A} state (m : M A) : keeps m -> keeps (on_failure h state m).
Proof.
  intros K. apply keeps_wp. intros s. apply wp_on_failure, (wp_mono _ _ _ _ (proj2 (keeps_wp m) K s)).
  intros [a|e] s1 l R; [done|].
  destruct e; try done; (destruct state as [x|]; [|done]);
    (eapply wp_mono; [apply keeps_wp, save_keeps|]); cbn; congruence.
Qed.

Lemma start_keeps n : keeps (start_fix h cfg n).
Proof.
  repeat (apply keeps_bind; [|intros ?]); auto using keeps_lift, keeps_ret, on_failure_keeps, save_keeps.
Qed.

Lemma trigger_authorised log n t s : known log s ->
  wp (check_trigger h c n (Some t)) (fun r s' l => known (log ++ l) s'
    /\ (forall x, ~ (EvSave x ∈ l)) /\ (t <> "" -> r = Ok () -> authorised_by log l n t)) s.
Proof.
  intros K. unfold check_trigger. destruct (is_empty t) eqn:Em.
  - apply wp_ret. rewrite app_nil_r. split; [done|]. split; [by intros x I%elem_of_nil|]. by destruct t.
  - assert (G := requests_trigger EvGet (gh_disk h) (fh_repr h) c n t s).
    pose proof (trigger_spec EvGet (gh_disk h) (fh_repr h) c log n t s K) as T.
    apply wp_bind. unfold wp in *. destruct (verify_automation_trigger _ _ _ _ _ _ _) as [[r s1] l1].
    destruct T as [K1 A]. cbn in G.
    assert (N : forall x, ~ (EvSave x ∈ l1)).
    { intros x I. rewrite Forall_forall in G. by destruct (G _ I) as (? & ? & ?). }
    destruct r as [p|e]; [|by split]. destruct (pr_allowed p) eqn:P; cbn; rewrite app_nil_r; [|by split].
    split; [done|]. split; [done|]. intros _ _. destruct (A p eq_refl) as (By & Ev & Al).
    exists (pr_username p), (pr_role p). split; [done|]. split; [done|]. congruence.
Qed.

(** A failing guard writes nothing but a failure. *)
Lemma guarded_spec log n t state s : known log s ->
  wp (on_failure h state (check_trigger h c n (Some t))) (fun r s' l => known (log ++ l) s'
    /\ writes_failures l /\ (t <> "" -> r = Ok () -> authorised_by log l n t)) s.
Proof.
  intros K. apply wp_on_failure, (wp_mono _ _ _ _ (trigger_authorised log n t s K)).
  intros r s1 l1 (K1 & N & A).
  assert (F : writes_failures l1) by (intros x I; by destruct (N x)).
  destruct r as [u|e]; [by split|].
  assert (S : forall x, wp (save h (AutoFixState.with_status FAILED (Some (fh_text h e)) (fx_updated_at x) x))
    (fun r' s2 l2 => known (log ++ l1 ++ l2) s2 /\ writes_failures (l1 ++ l2)
       /\ (t <> "" -> match r' with Ok _ => Err e | Err e' => Err e' end = Ok () ->
           authorised_by log (l1 ++ l2) n t)) s1).
  { intros x. eapply wp_mono; [apply wp_and; [apply keeps_wp, save_keeps|
      eapply (wp_emits _ _ (fun _ _ l => Forall _ l) _ (save_events h _)); intros; eassumption]|].
    cbn. intros r' s2 l2 [R2 G2]. rewrite app_assoc.
    split; [eapply known_mono; [|exact R2|exact K1]; set_solver|].
    split; [|by destruct r']. intros y [I|I]%elem_of_app; [auto|].
    rewrite Forall_forall in G2. specialize (G2 _ I). by injection G2 as ->. }
  destruct e; try (by split); (destruct state as [x|]; [apply S | by split]).
Qed.
End Authorised.

(** Work on an issue is authorised.  When a fix is asked for by a label, its
    state is only written as failed, unless the issue says that the label was last added by a
    user whom the answers of GitHub give an allowed role; whatever the run comes to, the roles
    it remembers stay borne out. *)
Theorem fixing_is_authorised {W} (h : FixHooks W) (c : CheckerConfig) (cfg : FixConfig)
    (n : Z) (label : string) (s s' : Checker (Disk W)) (r : res AutoFixState)
    (log l : list fix_ev) (x : AutoFixState) :
  label <> "" -> known EvGet c log s ->
  process_issue h c cfg n (Some label) s = (r, s', l) ->
  known EvGet c (log ++ l) s'
  /\ (EvSave x ∈ l -> fx_status x <> FAILED -> authorised_by c log l n label).
Proof.
  intros L K. revert x. intros x R.
  refine (wp_run _ (fun _ s' l => known EvGet c (log ++ l) s'
    /\ (EvSave x ∈ l -> fx_status x <> FAILED -> authorised_by c log l n label)) s r s' l _ R).
  apply wp_bind, wp_lift. destruct (AutoFixState.load _ _) as [state|e];
    [|rewrite app_nil_r; split; [done | by intros ?%elem_of_nil]].
  destruct (in_progress state) as [y|]; [apply wp_ret; rewrite !app_nil_r; split; [done | by intros ?%elem_of_nil]|].
  apply wp_bind, (wp_mono _ _ _ _ (guarded_spec h c log n label state s K)). intros r1 s1 l1 (K1 & F & A).
  cbn [app]. destruct r1 as [u|e]; [|split; [done|]; intros I N; by destruct N; apply F].
  eapply wp_mono; [apply keeps_wp, start_keeps|]. cbn. intros r2 s2 l2 R2.
  split; [rewrite app_assoc; eapply known_mono; [|exact R2|exact K1]; set_solver|].
  intros _ _. apply authorised_mono, A; [done|]. by destruct u.
Qed.

(** *** Labels *)

(** The issue of a result, and the label it has up to case. *)
Definition labelled (cfg : FixConfig) (issue : json) (i : LabeledIssue) : Prop :=
  exists d (labels : list string), issue = JObj d /\ dget "number" d = Some (JInt (li_issue_number i))
    /\ (let! l := iter_field "labels" d in mapM (M := res) label_name l) = Ok labels
    /\ li_trigger_label i ∈ fc_labels cfg /\ lower (li_trigger_label i) ∈ lower <$> labels.

Section Labels.
Context {W : Type} (h : FixHooks W) (c : CheckerConfig) (cfg : FixConfig).
Abbreviation known := (known (W := Disk W) EvGet c).

Lemma authorised_spec log n label s : known log s ->
  wp (authorised h c n label) (fun r s' l => known (log ++ l) s'
    /\ (r = Ok true -> authorised_by c log l n label)) s.
Proof.
  intros K. apply wp_rescue, wp_bind.
  apply (wp_mono _ _ _ _ (trigger_spec EvGet (gh_disk h) (fh_repr h) c log n label s K)).
  intros [p|e] s1 l1 [K1 A].
  - apply wp_ret. rewrite app_nil_r. split; [done|]. intros [= P]. destruct (A p eq_refl) as (By & Ev & Al).
    exists (pr_username p), (pr_role p). split; [done|]. split; [done|]. congruence.
  - split; [done|]. by destruct e.
Qed.

Definition vetted (log l : list fix_ev) (issues : list json) (r : res (list LabeledIssue)) : Prop :=
  forall out i, r = Ok out -> i ∈ out ->
    (exists issue, issue ∈ issues /\ labelled cfg issue i)
    /\ authorised_by c log l (li_issue_number i) (li_trigger_label i).

Lemma check_issue_spec log issue s : known log s ->
  wp (check_issue h c cfg true issue) (fun r s' l => known (log ++ l) s' /\ vetted log l [issue] r) s.
Proof.
  intros K. assert (Z : forall e : exn, vetted log [] [issue] (Err e)) by done.
  assert (Y : vetted log [] [issue] (Ok [])) by (intros ? i [= <-] []%elem_of_nil).
  apply wp_bind, wp_lift. destruct issue as [| | | | |d]; try (by rewrite app_nil_r). cbn [with_get].
  destruct (let! l := iter_field "labels" d in mapM label_name l) as [labels|e] eqn:L; [|by rewrite app_nil_r].
  destruct (matching_labels cfg labels) as [|t ts] eqn:Mt; [apply wp_ret; by rewrite app_nil_r|].
  apply wp_bind, wp_lift. destruct (req as_int "number" d) as [n|e] eqn:Nm; [|by rewrite app_nil_r].
  apply wp_bind, wp_lift. destruct (AutoFixState.load _ _) as [state|e]; [|by rewrite app_nil_r].
  destruct (in_progress state) as [x|]; [apply wp_ret; by rewrite app_nil_r|]. cbn [app].
  apply wp_bind, (wp_mono _ _ _ _ (authorised_spec log n t s K)). intros [[]|e] s1 l1 [K1 A]; [| |done].
  - apply wp_lift. rewrite app_nil_r. split; [done|]. intros out i [= <-] ->%list_elem_of_singleton. cbn.
    split; [|by apply A]. exists (JObj d). split; [apply list_elem_of_here|]. exists d, labels.
    assert (I : t ∈ matching_labels cfg labels) by (rewrite Mt; apply list_elem_of_here).
    unfold matching_labels in I. apply elem_of_keep in I as [T I]. split; [done|]. cbn.
    unfold req in Nm. destruct (dget "number" d) as [[]|]; try done. injection Nm as ->.
    split; [done|]. split; [done|]. split; [done|]. by apply key_in_elem.
  - apply wp_ret. rewrite app_nil_r. split; [done|]. intros out i [= <-] []%elem_of_nil.
Qed.

Lemma labels_check_spec log issues s : known log s ->
  wp (check_issues h c cfg true issues) (fun r s' l => known (log ++ l) s' /\ vetted log l issues r) s.
Proof.
  revert log s. induction issues as [|issue issues IH]; intros log s K.
  - apply wp_ret. rewrite app_nil_r. split; [done|]. intros out i [= <-] []%elem_of_nil.
  - apply wp_bind, (wp_mono _ _ _ _ (check_issue_spec log issue s K)). intros [x|e] s1 l1 [K1 V1]; [|done].
    apply wp_bind, (wp_mono _ _ _ _ (IH (log ++ l1) s1 K1)). intros [y|e] s2 l2 [K2 V2].
    + apply wp_ret. rewrite app_nil_r, app_assoc. split; [done|]. intros out i [= <-] [I|I]%elem_of_app.
      * destruct (V1 x i eq_refl I) as [(j & ->%list_elem_of_singleton & L) A].
        split; [exists issue; split; [apply list_elem_of_here | done]|]. by apply authorised_mono.
      * destruct (V2 y i eq_refl I) as [(j & J & L) (u & role & By & Ev & R)].
        split; [exists j; split; [by right | done]|]. exists u, role.
        split; [eapply added_by_mono; [|exact By]; set_solver|]. by rewrite app_assoc.
    + rewrite app_assoc. by split.
Qed.
End Labels.

(** A label asks for a fix only if somebody who may added it.  Every issue that
    the check of labels reports is one of the given issues, has a label the configuration
    names up to case, and this label was last added by a user whom the answers of GitHub give
    an allowed role. *)
Theorem reported_issues_are_authorised {W} (h : FixHooks W) (c : CheckerConfig) (cfg : FixConfig)
    (issues : list json) (s s' : Checker (Disk W)) (out : list LabeledIssue)
    (log l : list fix_ev) (i : LabeledIssue) :
  known EvGet c log s ->
  check_labeled_issues h c cfg issues true s = (Ok out, s', l) -> i ∈ out ->
  fc_enabled cfg = true /\ (exists issue, issue ∈ issues /\ labelled cfg issue i)
  /\ authorised_by c log l (li_issue_number i) (li_trigger_label i).
Proof.
  intros K R I. unfold check_labeled_issues in R. destruct (fc_enabled cfg).
  - split; [done|]. apply (wp_run _ _ _ _ _ _ (labels_check_spec h c cfg log issues s K)) in R as [_ V].
    by apply (V out).
  - injection R as <- _ _. by apply elem_of_nil in I.
Qed.

(** *** The state machine *)

Fixpoint is_path (s : AutoFixStatus) (l : list AutoFixStatus) : Prop :=
  match l with [] => True | t :: l' => can_transition_to s t = true /\ is_path t l' end.

Lemma last_cons {A} (x d : A) l : List.last (x :: l) d = List.last l x.
Proof.
  revert x d. induction l as [|y l IH]; intros x d; [done|].
  change (List.last (y :: l) d = List.last (y :: l) x). by rewrite !IH.
Qed.

Lemma is_path_app s l k : is_path s (l ++ k) -> is_path s l /\ is_path (List.last l s) k.
Proof.
  revert s. induction l as [|x l IH]; intros s; [done|]. intros [K [P1 P2]%IH]. by rewrite last_cons.
Qed.

(** The only way to [t] is from [q]. *)
Lemma path_before s l q t : (forall u, can_transition_to u t = true -> u = q) ->
  is_path s (l ++ [t]) -> List.last l s = q.
Proof. intros K [_ [P _]]%is_path_app. by apply K. Qed.

(** A completed fix was reviewed.  Every run of status updates that ends as
    completed, from a state before the review, ends with the QA review, the creation of the
    pull request and the completion, in this order; nothing follows a completed or cancelled
    fix. *)
Theorem completion_follows_review (s : AutoFixStatus) (l : list AutoFixStatus) :
  is_path s l ->
  (List.last l s = COMPLETED -> s ∉ [QA_REVIEW; PR_CREATED; COMPLETED] ->
    exists pre, l = pre ++ [QA_REVIEW; PR_CREATED; COMPLETED])
  /\ (s ∈ [COMPLETED; CANCELLED] -> l = []).
Proof.
  intros P. split.
  - intros L N.
    assert (C1 : forall u, can_transition_to u COMPLETED = true -> u = PR_CREATED) by (by intros []).
    assert (C2 : forall u, can_transition_to u PR_CREATED = true -> u = QA_REVIEW) by (by intros []).
    assert (Snoc : forall k q, List.last k s = q -> s <> q -> exists k', k = k' ++ [q]).
    { intros k q <- Ne. destruct (exists_last (l := k)) as (k' & x & ->); [by intros ->|].
      exists k'. by rewrite last_last. }
    rewrite !not_elem_of_cons in N. destruct N as (N1 & N2 & N3 & _).
    destruct (Snoc l COMPLETED L N3) as [l1 ->]. apply (path_before _ _ _ _ C1) in P as L1.
    destruct (Snoc l1 PR_CREATED L1 N2) as [l2 ->].
    apply is_path_app in P as [P1 _]. apply (path_before _ _ _ _ C2) in P1 as L2. destruct (Snoc l2 QA_REVIEW L2 N1) as [l3 ->].
    exists l3. by rewrite <- !app_assoc.
  - intros I. destruct l as [|t l]; [done|]. destruct P as [K _]. rewrite !elem_of_cons, elem_of_nil in I.
    destruct I as [->|[->|[]]]; by destruct t.
Qed.

(** ** Where the code departs from its intent *)

Definition example_fix_config : FixConfig :=
  {| fc_repo := "acme/shop"; fc_enabled := true; fc_labels := ["auto-fix"] |}.
Definition example_fix_hooks : FixHooks () := {|
  fh_gh := example_gh;
  fh_lock _ w := (true, w);
  fh_now _ := "now";
  fh_repr := join ", ";
  fh_text _ := "refused";
|}.

(** The directory holds a state for issue 7. *)
Definition with_fix (status : AutoFixStatus) : Checker (Disk ()) := {|
  ck_roles := ∅;
  ck_world := {| dk_states := {[7%Z := Json (JObj (AutoFixState.to_dict
                     (AutoFixState.with_status status None "then" (new_state example_fix_config 7 "then"))))]};
                 dk_index := Missing; dk_world := () |} |}.

(** A trigger that is refused turns a completed fix into a failed one, past the check of
    [update_status]: no path leads there. *)
Lemma refusal_fails_a_completed_fix :
  let '(r, s, _) := process_issue example_fix_hooks example_config example_fix_config 7 (Some "other")
                      (with_fix COMPLETED) in
  r = Err permission_error
  /\ option_map fx_status <$> AutoFixState.load "now" (file_of 7 s) = Ok (Some FAILED)
  /\ can_transition_to COMPLETED FAILED = false.
Proof. split; [|split]; vm_compute; reflexivity. Qed.

(** Labels are matched up to case, but who added one is looked up by the configured
    spelling: an issue labelled Auto-Fix by a collaborator is never reported. *)
Definition example_issue (label : string) : json :=
  JObj [("number", JInt 7); ("labels", JList [JObj [("name", JStr label)]])].
Definition gh_with_label (label : string) (args : list string) (w : ()) : res string * () :=
  match args with
  | [_; "/repos/acme/shop/issues/7/events"] => (Ok (ticks ("[{'event':'labeled','label':{'name':'" +:+ label
       +:+ "'},'actor':{'login':'ann'}}]")), w)
  | _ => example_gh args w
  end.
Definition hooks_with_label (label : string) : FixHooks () := {|
  fh_gh := gh_with_label label; fh_lock := fh_lock example_fix_hooks; fh_now := fh_now example_fix_hooks;
  fh_repr := fh_repr example_fix_hooks; fh_text := fh_text example_fix_hooks |}.
Definition reported (label : string) : res (list Z) :=
  (fun l : list LabeledIssue => li_issue_number <$> l) <$>
    (check_labeled_issues (hooks_with_label label) example_config example_fix_config
       [example_issue label] true (with_fix FAILED)).1.1.

Lemma label_case_is_not_followed :
  matching_labels example_fix_config ["Auto-Fix"] = ["auto-fix"]
  /\ reported "auto-fix" = Ok [7%Z] /\ reported "Auto-Fix" = Ok [].
Proof. split; [|split]; vm_compute; reflexivity. Qed.

(** ** Witnesses *)

Lemma nothing_known {W} (w : W) : known EvGet example_config [] {| ck_roles := ∅; ck_world := w |}.
Proof. by intros u role. Qed.

Lemma fix_load_after_save_witness :
  AutoFixState.from_dict "t" (AutoFixState.to_dict (new_state example_fix_config 7 "then"))
  = Ok (new_state example_fix_config 7 "then").
Proof. apply fix_load_after_save. discriminate. Defined.

Lemma fixing_is_authorised_witness : exists l,
  EvSave (new_state example_fix_config 7 "now") ∈ l /\ authorised_by example_config [] l 7 "auto-fix".
Proof.
  destruct (process_issue example_fix_hooks example_config example_fix_config 7 (Some "auto-fix")
    (with_fix FAILED)) as [[r s'] l] eqn:R.
  assert (I : EvSave (new_state example_fix_config 7 "now") ∈ l).
  { apply (f_equal snd) in R. vm_compute in R. rewrite <- R. vm_compute. do 2 right. left. }
  exists l. split; [exact I|].
  refine (proj2 (fixing_is_authorised example_fix_hooks example_config example_fix_config 7 "auto-fix"
    (with_fix FAILED) s' r [] l (new_state example_fix_config 7 "now") _ (nothing_known _) R) I _); discriminate.
Defined.

Lemma reported_issues_are_authorised_witness : exists l, authorised_by example_config [] l 7 "auto-fix".
Proof.
  destruct (check_labeled_issues (hooks_with_label "auto-fix") example_config example_fix_config
    [example_issue "auto-fix"] true (with_fix FAILED)) as [[r s'] l] eqn:R.
  assert (r = Ok [{| li_issue_number := 7; li_trigger_label := "auto-fix"; li_title := JStr "" |}]) as ->.
  { apply (f_equal (fun x => x.1.1)) in R. vm_compute in R. by rewrite <- R. }
  exists l. exact (proj2 (proj2 (reported_issues_are_authorised (hooks_with_label "auto-fix") example_config
    example_fix_config [example_issue "auto-fix"] (with_fix FAILED) s' _ [] l _ (nothing_known _) R
    (list_elem_of_here _ _)))).
Defined.

Lemma completion_follows_review_witness : exists pre,
  [ANALYZING; CREATING_SPEC; BUILDING; QA_REVIEW; PR_CREATED; COMPLETED] = pre ++ [QA_REVIEW; PR_CREATED; COMPLETED].
Proof.
  apply (proj1 (completion_follows_review PENDING
    [ANALYZING; CREATING_SPEC; BUILDING; QA_REVIEW; PR_CREATED; COMPLETED]
    ltac:(vm_compute; repeat split))); [reflexivity|]. rewrite !not_elem_of_cons. repeat split; try discriminate.
  apply not_elem_of_nil.
Defined.
