(* ===== verification/ApprovalGate.v ===== *)
(** The approval of a spec (apps/backend/review/state.py with plan_progress.py), the
    commands an approved plan may grant (security/plan_commands.py) and the review flag of
    a build (web-server/server/services/task_phase.py): an approval is bound to the content
    that was reviewed, and the engine's own saves do not invalidate it.

    [md5] stands for [hashlib.md5(...).hexdigest()]: that a digest is a string of
    hexadecimal digits is the only thing assumed of it.  [parse_commands] stands for the
    shell parsers of security/, which read names off one command string. *)
From stdpp Require Import gmap.
From S2P Require Import Prelude PyData JsonText PlanData PlanLogic.

(** ** Progress keys (plan_progress.py) *)

Definition PLAN_PROGRESS_KEYS : list string :=
  ["status"; "planStatus"; "reviewReason"; "recoveryNote"; "contractHold"; "qa_signoff";
   "qa_iteration_history"; "qa_stats"; "last_updated"; "created_at"; "updated_at"; "phase"].

Definition SUBTASK_PROGRESS_KEYS : list string :=
  ["status"; "notes"; "updated_at"; "started_at"; "completed_at"; "actual_output";
   "critique_result"].

(** [{k: v for k, v in d.items() if k not in keys}] *)
Definition without_keys (keys : list string) (d : dict) : dict :=
  keep (fun kv => negb (key_in keys kv.1)) d.

Definition strip_subtask (st : json) : json :=
  match st with JObj d => JObj (without_keys SUBTASK_PROGRESS_KEYS d) | _ => st end.

(** [if isinstance(phase.get(key), list): phase[key] = [...]] *)
Definition strip_key (key : string) (phase : dict) : dict :=
  match dget key phase with
  | Some (JList l) => dset key (JList (strip_subtask <$> l)) phase
  | _ => phase
  end.

Definition strip_phase (raw_phase : json) : json :=
  match raw_phase with
  | JObj phase =>
      let phase :=
        match dget "subtasks" phase with
        | Some (JList _) => without_keys ["chunks"] phase
        | _ => phase
        end in
      JObj (strip_key "chunks" (strip_key "subtasks" phase))
  | _ => raw_phase
  end.

Definition strip_plan_progress (plan : dict) : dict :=
  let content := without_keys PLAN_PROGRESS_KEYS plan in
  match dget "phases" content with
  | Some (JList phases) => dset "phases" (JList (strip_phase <$> phases)) content
  | _ => content
  end.

(** ** The spec directory *)

(** The plan: missing or unreadable, a text that is not a JSON object, or an object. *)
Inductive plan_file := PlanAbsent | PlanText (text : string) | PlanDoc (d : dict).

(** [sd_spec] is None when spec.md is missing or unreadable. *)
Record SpecDir := {
  sd_spec : option string;
  sd_plan : plan_file;
  sd_review : file;
  sd_metadata : file;
  sd_requirements : file;
}.

Definition with_review (d : SpecDir) (f : file) : SpecDir :=
  {| sd_spec := sd_spec d; sd_plan := sd_plan d; sd_review := f; sd_metadata := sd_metadata d;
     sd_requirements := sd_requirements d |}.
Definition with_content (d : SpecDir) (spec : option string) (plan : plan_file) : SpecDir :=
  {| sd_spec := spec; sd_plan := plan; sd_review := sd_review d; sd_metadata := sd_metadata d;
     sd_requirements := sd_requirements d |}.
Definition with_metadata (d : SpecDir) (f : file) : SpecDir :=
  {| sd_spec := sd_spec d; sd_plan := sd_plan d; sd_review := sd_review d; sd_metadata := f;
     sd_requirements := sd_requirements d |}.

(** ** The review state (review/state.py) *)

Record ReviewState := {
  rs_approved : bool;
  rs_approved_by : string;
  rs_approved_at : string;
  rs_feedback : list string;
  rs_spec_hash : string;
  rs_saved_spec_hash : string;
  rs_review_count : Z;
}.

Section Approval.
Variable md5 : string -> string.

Definition _compute_file_hash (content : option string) : string :=
  match content with Some t => md5 t | None => "" end.

Definition _read_plan (d : SpecDir) : option dict :=
  match sd_plan d with PlanDoc p => Some p | _ => None end.

Definition _combine (d : SpecDir) (plan_hash : string) : string :=
  md5 (_compute_file_hash (sd_spec d) +:+ ":" +:+ plan_hash).

Definition plan_text (d : SpecDir) : option string :=
  match sd_plan d with PlanText t => Some t | _ => None end.

(** The text that is hashed for a plan object. *)
Definition content_text (plan : dict) : string := dumps (JObj (strip_plan_progress plan)).

Definition _compute_spec_hash (d : SpecDir) : string :=
  let plan_hash :=
    match _read_plan d with
    | None => _compute_file_hash (plan_text d)
    | Some plan => md5 (content_text plan)
    end in
  _combine d plan_hash.

(** The saved form is that of the typed records: a plan they do not represent is
    [Untyped], one [from_dict] refuses has the hash "". *)
Definition _compute_saved_spec_hash (d : SpecDir) : res string :=
  match _read_plan d with
  | None => Ok ""
  | Some plan =>
      match ImplementationPlan.from_dict plan with
      | Ok p => Ok (_combine d (md5 (content_text (ImplementationPlan.to_dict p))))
      | Err Untyped => Err Untyped
      | Err _ => Ok ""
      end
  end.

Definition new_state : ReviewState :=
  {| rs_approved := false; rs_approved_by := ""; rs_approved_at := ""; rs_feedback := [];
     rs_spec_hash := ""; rs_saved_spec_hash := ""; rs_review_count := 0 |}.

Definition state_to_dict (s : ReviewState) : dict :=
  [("approved", JBool (rs_approved s)); ("approved_by", JStr (rs_approved_by s));
   ("approved_at", JStr (rs_approved_at s)); ("feedback", JStrs (rs_feedback s));
   ("spec_hash", JStr (rs_spec_hash s)); ("saved_spec_hash", JStr (rs_saved_spec_hash s));
   ("review_count", JInt (rs_review_count s))].

Definition state_from_dict (data : dict) : res ReviewState :=
  let! approved := get_or as_bool "approved" false data in
  let! approved_by := get_or as_str "approved_by" "" data in
  let! approved_at := get_or as_str "approved_at" "" data in
  let! feedback := get_or as_strs "feedback" [] data in
  let! spec_hash := get_or as_str "spec_hash" "" data in
  let! saved_spec_hash := get_or as_str "saved_spec_hash" "" data in
  let! review_count := get_or as_int "review_count" 0%Z data in
  Ok {| rs_approved := approved; rs_approved_by := approved_by; rs_approved_at := approved_at;
        rs_feedback := feedback; rs_spec_hash := spec_hash;
        rs_saved_spec_hash := saved_spec_hash; rs_review_count := review_count |}.

Definition state_save (s : ReviewState) (d : SpecDir) : SpecDir :=
  with_review d (Json (JObj (state_to_dict s))).

Definition state_load (d : SpecDir) : res ReviewState :=
  match sd_review d with
  | Missing | Broken => Ok new_state
  | Json (JObj data) => state_from_dict data
  | Json _ => Err AttributeError
  end.

Definition is_approval_valid (s : ReviewState) (d : SpecDir) : bool :=
  if negb (rs_approved s) then false
  else if is_empty (rs_spec_hash s) then false
  else
    let current_hash := _compute_spec_hash d in
    String.eqb current_hash (rs_spec_hash s) || String.eqb current_hash (rs_saved_spec_hash s).

(** The methods, each followed by the save its default [auto_save] makes. *)
Definition approve (now by_ : string) (s : ReviewState) (d : SpecDir)
  : res (ReviewState * SpecDir) :=
  let spec_hash := _compute_spec_hash d in
  let! saved := _compute_saved_spec_hash d in
  let s' := {| rs_approved := true; rs_approved_by := by_; rs_approved_at := now;
               rs_feedback := rs_feedback s; rs_spec_hash := spec_hash;
               rs_saved_spec_hash := saved; rs_review_count := rs_review_count s + 1 |} in
  Ok (s', state_save s' d).

Definition reject (s : ReviewState) (d : SpecDir) : ReviewState * SpecDir :=
  let s' := {| rs_approved := false; rs_approved_by := ""; rs_approved_at := "";
               rs_feedback := rs_feedback s; rs_spec_hash := ""; rs_saved_spec_hash := "";
               rs_review_count := rs_review_count s + 1 |} in
  (s', state_save s' d).

Definition add_feedback (timestamp feedback : string) (s : ReviewState) (d : SpecDir)
  : ReviewState * SpecDir :=
  let s' := {| rs_approved := rs_approved s; rs_approved_by := rs_approved_by s;
               rs_approved_at := rs_approved_at s;
               rs_feedback := rs_feedback s ++ ["[" +:+ timestamp +:+ "] " +:+ feedback];
               rs_spec_hash := rs_spec_hash s; rs_saved_spec_hash := rs_saved_spec_hash s;
               rs_review_count := rs_review_count s |} in
  (s', state_save s' d).

Definition invalidate (s : ReviewState) (d : SpecDir) : ReviewState * SpecDir :=
  let s' := {| rs_approved := false; rs_approved_by := rs_approved_by s; rs_approved_at := "";
               rs_feedback := rs_feedback s; rs_spec_hash := ""; rs_saved_spec_hash := "";
               rs_review_count := rs_review_count s |} in
  (s', state_save s' d).

Definition get_review_status_summary (d : SpecDir) : res dict :=
  let! state := state_load d in
  let valid := is_approval_valid state d in
  Ok [("approved", JBool (rs_approved state)); ("valid", JBool valid);
      ("approved_by", JStr (rs_approved_by state)); ("approved_at", JStr (rs_approved_at state));
      ("review_count", JInt (rs_review_count state));
      ("feedback_count", JInt (Z.of_nat (length (rs_feedback state))));
      ("spec_changed", JBool (if is_empty (rs_spec_hash state) then false else negb valid))].
End Approval.

(** ** The review flag of a build *)

Definition REQUIRE_KEY : string := "requireReviewBeforeCoding".

(** [d.get(k)] tested for truth. *)
Definition truthy_key (k : string) (d : dict) : bool :=
  match dget k d with Some v => truthy v | None => false end.

(** The coder's own gate (review/state.py). *)
Definition requires_review_before_coding (d : SpecDir) : res bool :=
  match sd_metadata d with
  | Missing | Broken => Ok false
  | Json (JObj metadata) =>
      Ok (truthy_key REQUIRE_KEY metadata
          || match dget "mode" metadata with Some (JStr m) => String.eqb m "quick" | _ => false end)
  | Json _ => Err AttributeError
  end.

(** [k in v] for a value of any type. *)
Definition py_in (k : string) (v : json) : res bool :=
  match v with
  | JObj d => Ok (dmem k d)
  | JList l => Ok (existsb (fun x => match x with JStr s => String.eqb k s | _ => false end) l)
  | JStr s => Ok (contains k s)
  | JNull | JBool _ | JInt _ => Err TypeError
  end.

(** The body of the first [try]: what task_metadata.json holds afterwards and the answer. *)
Definition sync_from_requirements (requirements : json) (task_metadata : json)
  : res (option json * bool) :=
  match requirements with
  | JObj r =>
      let frontend_metadata := default (JObj []) (dget "metadata" r) in
      let! has := py_in REQUIRE_KEY frontend_metadata in
      if (has : bool) then
        match frontend_metadata, task_metadata with
        | JObj fm, JObj tm =>
            let tm' := dset REQUIRE_KEY (default JNull (dget REQUIRE_KEY fm)) tm in
            Ok (Some (JObj tm'), truthy_key REQUIRE_KEY tm')
        | _, _ => Err TypeError
        end
      else
        match task_metadata with
        | JObj tm => Ok (None, truthy_key REQUIRE_KEY tm)
        | _ => Err AttributeError
        end
  | _ => Err AttributeError
  end.

Definition sync_require_review_metadata (d : SpecDir) : res (bool * SpecDir) :=
  match sd_requirements d with
  | Missing =>
      match sd_metadata d with
      | Missing => Ok (false, d)
      | Broken => Ok (true, d)
      | Json (JObj task_metadata) => Ok (truthy_key REQUIRE_KEY task_metadata, d)
      | Json _ => Err AttributeError
      end
  | Broken => Ok (true, d)
  | Json requirements =>
      match requirements, sd_metadata d with
      | JObj _, Broken => Ok (true, d)
      | _, f =>
          let task_metadata := match f with Json v => v | _ => JObj [] end in
          match sync_from_requirements requirements task_metadata with
          | Ok (Some v, answer) => Ok (answer, with_metadata d (Json v))
          | Ok (None, answer) => Ok (answer, d)
          | Err e => Err e
          end
      end
  end.

Definition should_pass_force (d : SpecDir) (force : bool) : res (bool * SpecDir) :=
  match sync_require_review_metadata d with
  | Ok (required, d') => Ok (negb required || force, d')
  | Err e => Err e
  end.

(** The pre-flight of run.py (cli/build_commands.py): a build goes on with a valid
    approval, or with [--force]. *)
Definition preflight_passes (md5 : string -> string) (d : SpecDir) (force_bypass : bool)
  : res bool :=
  let! review_state := state_load d in
  Ok (is_approval_valid md5 review_state d || force_bypass).

(** A build of the server: the flag is computed from the caller's [force], then run.py
    starts with it. *)
Definition dispatch (md5 : string -> string) (d : SpecDir) (force : bool) : res bool :=
  match should_pass_force d force with
  | Ok (flag, d') => preflight_passes md5 d' flag
  | Err e => Err e
  end.

(** ** The gates of a run (run_gates.py) *)

Record RunGates := {
  rg_solo : bool;
  rg_requires_review : bool;
  rg_review : ReviewState;
  rg_approved_plan : option dict;
}.

Definition _approved_plan_snapshot (d : SpecDir) (require_review : bool) : option dict :=
  if negb require_review then None
  else match sd_plan d with PlanDoc p => Some p | PlanAbsent | PlanText _ => Some [] end.

(** [solo_mode] is the mode lookup of solo_mode.py on a directory; [task_id] whether the
    environment names a task. *)
Definition capture (solo_mode : SpecDir -> bool) (spec_dir : SpecDir)
    (source_spec_dir : option SpecDir) (task_id : bool) : res RunGates :=
  let gate_dir := default spec_dir source_spec_dir in
  let fail_closed := match source_spec_dir with None => task_id | Some _ => false end in
  let solo := if fail_closed then false else solo_mode gate_dir in
  let! requires_review :=
    if fail_closed then Ok true else requires_review_before_coding gate_dir in
  let! review := state_load gate_dir in
  Ok {| rg_solo := solo; rg_requires_review := requires_review; rg_review := review;
        rg_approved_plan := _approved_plan_snapshot gate_dir (negb solo && requires_review) |}.

Definition approval_valid (md5 : string -> string) (g : RunGates) (spec_dir : SpecDir) : bool :=
  negb (rg_requires_review g) || is_approval_valid md5 (rg_review g) spec_dir.

(** [model if isinstance(model, str) and model else None] *)
Definition model_string (v : option json) : option string :=
  match v with Some (JStr m) => if is_empty m then None else Some m | _ => None end.

(** [subtask.get("id") == subtask_id] for an id that is a string. *)
Definition has_id (subtask_id : string) (d : dict) : bool :=
  match dget "id" d with Some (JStr i) => String.eqb i subtask_id | _ => false end.

(** The subtask dictionaries the loops reach, in order. *)
Definition snapshot_subtasks (plan : dict) : list dict :=
  match dget "phases" plan with
  | Some (JList phases) =>
      concat (List.map (fun phase =>
        match phase with
        | JObj ph =>
            match dget "subtasks" ph with
            | Some (JList l) => omap (fun st => match st with JObj d => Some d | _ => None end) l
            | _ => []
            end
        | _ => []
        end) phases)
  | _ => []
  end.

Definition subtask_model (g : RunGates) (subtask_id : string) (live_model : json)
  : option string :=
  match rg_approved_plan g with
  | None => model_string (Some live_model)
  | Some plan =>
      match List.find (has_id subtask_id) (snapshot_subtasks plan) with
      | Some subtask => model_string (dget "model" subtask)
      | None => None
      end
  end.

(** ** Commands a plan may grant (security/plan_commands.py) *)

(** [^[a-zA-Z0-9][a-zA-Z0-9._-]{0,63}$] on a string without blanks at its ends. *)
Definition is_alnum (c : ascii) : bool :=
  let n := nat_of_ascii c in
  ((48 <=? n) && (n <=? 57)) || ((65 <=? n) && (n <=? 90)) || ((97 <=? n) && (n <=? 122)).
Definition name_char (c : ascii) : bool :=
  is_alnum c || Ascii.eqb c "." || Ascii.eqb c "_" || Ascii.eqb c "-".
Fixpoint name_rest (n : nat) (s : string) : bool :=
  match s, n with
  | EmptyString, _ => true
  | String _ _, O => false
  | String c s', S n' => name_char c && name_rest n' s'
  end.
Definition _NAME_RE (s : string) : bool :=
  match s with EmptyString => false | String c s' => is_alnum c && name_rest 63 s' end.

Definition DENY_COMMANDS : list string :=
  ["sudo"; "su"; "doas"; "pkexec"; "ssh"; "scp"; "sftp"; "rsync"; "telnet"; "nc"; "ncat";
   "netcat"; "dd"; "mkfs"; "fdisk"; "parted"; "mount"; "umount"; "shutdown"; "reboot"; "halt";
   "poweroff"; "systemctl"; "service"; "chown"; "chgrp"; "passwd"; "useradd"; "usermod";
   "visudo"; "iptables"; "nft"; "ufw"].

Definition PLAN_GRANTABLE_COMMANDS : list string :=
  ["uv"; "uvx"; "poetry"; "pdm"; "pipenv"; "pip"; "pip3"; "pytest"; "py.test"; "tox"; "nox";
   "coverage"; "ruff"; "mypy"; "pyright"; "black"; "isort"; "flake8"; "pylint"; "bandit";
   "npm"; "npx"; "pnpm"; "yarn"; "bun"; "node"; "deno"; "jest"; "vitest"; "mocha"; "eslint";
   "prettier"; "tsc"; "playwright"; "cypress"; "cargo"; "rustc"; "gofmt"; "go";
   "golangci-lint"; "bundle"; "rspec"; "rake"; "mvn"; "gradle"; "dotnet"; "make"; "just";
   "task"].

Definition _COMMAND_STRING_KEYS : list string :=
  ["command"; "dev_command"; "test_command"; "lint_command"; "run"].

(** [str(x) for x in rc if isinstance(x, str)] *)
Definition strings_of (v : option json) : list string :=
  match v with
  | Some (JList l) => omap (fun x => match x with JStr s => Some s | _ => None end) l
  | _ => []
  end.
Definition string_at (key : string) (d : dict) : list string :=
  match dget key d with Some (JStr s) => [s] | _ => [] end.

Fixpoint _collect_strings (v : json) : list string :=
  match v with
  | JObj d =>
      strings_of (dget "required_commands" d)
      ++ concat (List.map (fun key => string_at key d) _COMMAND_STRING_KEYS)
      ++ concat (List.map (fun kv =>
           if key_in _COMMAND_STRING_KEYS kv.1 || String.eqb kv.1 "required_commands" then []
           else _collect_strings kv.2) d)
  | JList l => concat (List.map _collect_strings l)
  | _ => []
  end.

Section Commands.
(** The two parsers of the security package: None when the parser is not available or
    raises. *)
Variable extract_commands_ast extract_commands : string -> option (list string).

Definition _names_from_command_string (s : string) : list string :=
  if is_empty s then []
  else match extract_commands_ast s with
       | Some l => keep (fun c => negb (is_empty c)) l
       | None =>
           match extract_commands s with
           | Some l => keep (fun c => negb (is_empty c)) l
           | None => []
           end
       end.

Definition extract_command_names (plan : dict) : gset string :=
  list_to_set
    (concat (_names_from_command_string <$> _collect_strings (JObj (strip_plan_progress plan)))).

(** One turn of the loop: the name granted or rejected, if any. *)
Definition sanitize_step (raw : string) (acc : gset string * gset string)
  : gset string * gset string :=
  let '(granted, rejected) := acc in
  let name := strip raw in
  if is_empty name || negb (_NAME_RE name) then
    if is_empty name then acc else (granted, {[ name ]} ∪ rejected)
  else if key_in DENY_COMMANDS name || negb (key_in PLAN_GRANTABLE_COMMANDS name)
  then (granted, {[ name ]} ∪ rejected)
  else ({[ name ]} ∪ granted, rejected).

Definition sanitize_command_names (names : list string) : gset string * list string :=
  let '(granted, rejected) := foldr sanitize_step (∅, ∅) names in
  (granted, sort_by String.leb (elements rejected)).

Definition grantable_commands_from_plan (plan : dict) : gset string * list string :=
  sanitize_command_names (elements (extract_command_names plan)).
End Commands.

(** ** The life of an approval: a trace of reviews and edits *)

Inductive gate_op :=
  | OpApprove (now by_ : string)
  | OpReject
  | OpInvalidate
  | OpFeedback (timestamp feedback : string)
  | OpEdit (spec : option string) (plan : plan_file).

(** Each review operation loads the state, applies one method and saves. *)
Definition gate_step (md5 : string -> string) (op : gate_op) (d : SpecDir) : res SpecDir :=
  match op with
  | OpEdit spec plan => Ok (with_content d spec plan)
  | OpApprove now by_ =>
      let! s := state_load d in
      let! r := approve md5 now by_ s d in
      Ok r.2
  | OpReject => let! s := state_load d in Ok (reject s d).2
  | OpInvalidate => let! s := state_load d in Ok (invalidate s d).2
  | OpFeedback ts fb => let! s := state_load d in Ok (add_feedback ts fb s d).2
  end.

Fixpoint gate_run (md5 : string -> string) (ops : list gate_op) (d : SpecDir) : res SpecDir :=
  match ops with
  | [] => Ok d
  | op :: ops' => let! d' := gate_step md5 op d in gate_run md5 ops' d'
  end.

(** Operations that leave an approval standing. *)
Definition quiet (op : gate_op) : bool :=
  match op with OpFeedback _ _ | OpEdit _ _ => true | _ => false end.

(** Two plans with the same reviewed content: equal up to progress keys and key order;
    or texts that are not objects and are equal, one of them possibly the very text that
    is hashed for the other. *)
Definition same_plan (a b : plan_file) : Prop :=
  match a, b with
  | PlanAbsent, PlanAbsent => True
  | PlanText t, PlanText u => t = u
  | PlanDoc p, PlanDoc q =>
      canon (JObj (strip_plan_progress p)) = canon (JObj (strip_plan_progress q))
  | PlanText t, PlanDoc p | PlanDoc p, PlanText t => t = content_text p
  | _, _ => False
  end.

(** The content of [d] is what was reviewed in [approved], or its saved form. *)
Definition reviewed (approved d : SpecDir) : Prop :=
  sd_spec d = sd_spec approved
  /\ (same_plan (sd_plan d) (sd_plan approved)
      \/ exists q p, sd_plan approved = PlanDoc q /\ ImplementationPlan.from_dict q = Ok p
                     /\ same_plan (sd_plan d) (PlanDoc (ImplementationPlan.to_dict p))).

Definition collision (md5 : string -> string) : Prop := exists x y, x <> y /\ md5 x = md5 y.

(** ** Lemmas on the hashes *)

Lemma split_colon a b x y :
  all_hex a = true -> all_hex b = true -> a +:+ ":" +:+ x = b +:+ ":" +:+ y -> a = b /\ x = y.
Proof.
  revert b. induction a as [|c a IH]; intros [|c' b] Ha Hb E; cbn in Ha, Hb;
    rewrite ?string_app_cons, ?string_app_nil in E.
  - by injection E as ->.
  - injection E as <- E. done.
  - injection E as -> E. done.
  - injection E as -> E. bprop. by destruct (IH b) as [-> ->].
Qed.

Section hashes.
Context (md5 : string -> string).
Hypothesis md5_hex : forall x, hex_string (md5 x) = true.

Lemma md5_inj x y : md5 x = md5 y -> x = y \/ collision md5.
Proof. destruct (String.eqb_spec x y); [by left|]. right. by exists x, y. Qed.

Lemma file_hash_hex t : all_hex (_compute_file_hash md5 t) = true.
Proof.
  destruct t as [t|]; [|done]. cbn. specialize (md5_hex t). unfold hex_string in md5_hex. by bprop.
Qed.

Lemma file_hash_inj t u :
  _compute_file_hash md5 t = _compute_file_hash md5 u -> t = u \/ collision md5.
Proof.
  destruct t as [t|], u as [u|]; cbn; intros E; [|exfalso..|by left].
  - apply md5_inj in E as [->|]; auto.
  - specialize (md5_hex t). by rewrite E in md5_hex.
  - specialize (md5_hex u). by rewrite <- E in md5_hex.
Qed.

Lemma combine_inj a b t u :
  _combine md5 a (_compute_file_hash md5 t) = _combine md5 b (_compute_file_hash md5 u) ->
  (sd_spec a = sd_spec b /\ t = u) \/ collision md5.
Proof.
  unfold _combine. intros E. apply md5_inj in E as [E|]; [|by right].
  apply split_colon in E as [E1 E2]; [|apply file_hash_hex..].
  apply file_hash_inj in E1 as [E1|]; [|by right]. apply file_hash_inj in E2 as [E2|]; auto.
Qed.

(** The text of the plan that is hashed. *)
Definition plan_part (f : plan_file) : option string :=
  match f with PlanAbsent => None | PlanText t => Some t | PlanDoc p => Some (content_text p) end.

Lemma spec_hash_part d :
  _compute_spec_hash md5 d = _combine md5 d (_compute_file_hash md5 (plan_part (sd_plan d))).
Proof. unfold _compute_spec_hash, _read_plan, plan_text. by destruct (sd_plan d). Qed.

Lemma plan_part_same a b : plan_part a = plan_part b -> same_plan a b.
Proof.
  destruct a as [|t|p], b as [|u|q]; cbn [plan_part same_plan]; intros E; try discriminate;
    try done; apply (inj Some) in E; [done|done|done|]. by apply dumps_inj.
Qed.

Lemma hash_not_empty d : is_empty (_compute_spec_hash md5 d) = false.
Proof. unfold _compute_spec_hash, _combine. apply hex_not_empty, md5_hex. Qed.

(** The hashes of an approval accept the content that was reviewed, and nothing else. *)
Lemma approved_content approved d spec_hash saved :
  spec_hash = _compute_spec_hash md5 approved ->
  _compute_saved_spec_hash md5 approved = Ok saved ->
  String.eqb (_compute_spec_hash md5 d) spec_hash || String.eqb (_compute_spec_hash md5 d) saved = true ->
  reviewed approved d \/ collision md5.
Proof.
  intros -> Hsaved Hv. apply orb_true_iff in Hv as [Hv|Hv]; apply String.eqb_eq in Hv.
  - rewrite !spec_hash_part in Hv. apply combine_inj in Hv as [[Es Ep]|]; [|by right].
    left. split; [done|]. left. by apply plan_part_same.
  - subst saved. unfold _compute_saved_spec_hash, _read_plan in Hsaved.
    destruct (sd_plan approved) as [|t|q] eqn:Eq.
    1,2: injection Hsaved as E; pose proof (hash_not_empty d) as N; by rewrite <- E in N.
    destruct (ImplementationPlan.from_dict q) as [p|e] eqn:Ep.
    + injection Hsaved as E. rewrite spec_hash_part in E.
      apply (combine_inj approved d (Some (content_text (ImplementationPlan.to_dict p)))) in E
        as [[Es Et]|]; [|by right].
      left. split; [done|]. right. exists q, p. split; [done|]. split; [done|].
      apply plan_part_same. by rewrite <- Et.
    + destruct e; try discriminate; injection Hsaved as E; pose proof (hash_not_empty d) as N;
        by rewrite <- E in N.
Qed.
End hashes.

Lemma state_reload s d : state_load (state_save s d) = Ok s.
Proof.
  unfold state_load, state_save. cbn [with_review sd_review]. unfold state_from_dict.
  read_back state_to_dict. read_fields. by destruct s.
Qed.

(** ** Lemmas on traces *)

Lemma gate_run_snoc md5 ops op d :
  gate_run md5 (ops ++ [op]) d = (let! d' := gate_run md5 ops d in gate_step md5 op d').
Proof.
  revert d. induction ops as [|o ops IH]; intros d; cbn [gate_run app].
  - cbn. by destruct (gate_step md5 op d).
  - destruct (gate_step md5 o d); [apply IH | done].
Qed.

(** The approval a state records was given to the content [approved] had at that point of
    the trace, and no later operation withdrew it. *)
Definition approval_of (md5 : string -> string) (ops : list gate_op) (d0 : SpecDir)
    (s : ReviewState) : Prop :=
  exists pre now by_ post approved,
    ops = pre ++ OpApprove now by_ :: post
    /\ gate_run md5 pre d0 = Ok approved
    /\ forallb quiet post = true
    /\ rs_spec_hash s = _compute_spec_hash md5 approved
    /\ _compute_saved_spec_hash md5 approved = Ok (rs_saved_spec_hash s).

Lemma approval_of_snoc md5 ops op d0 s s' :
  quiet op = true -> rs_spec_hash s' = rs_spec_hash s ->
  rs_saved_spec_hash s' = rs_saved_spec_hash s ->
  approval_of md5 ops d0 s -> approval_of md5 (ops ++ [op]) d0 s'.
Proof.
  intros Hq E1 E2 (pre & now & by_ & post & a & -> & Hr & Hp & H1 & H2).
  exists pre, now, by_, (post ++ [op]), a.
  split; [by rewrite <- app_assoc|]. split; [done|].
  split; [by rewrite forallb_app, Hp; cbn; rewrite Hq|]. by rewrite E1, E2.
Qed.

Lemma trace_state md5 ops d0 d :
  sd_review d0 = Missing -> gate_run md5 ops d0 = Ok d ->
  exists s, state_load d = Ok s /\ (rs_approved s = true -> approval_of md5 ops d0 s).
Proof.
  intros H0. revert d. induction ops as [|op ops IH] using rev_ind; intros d Hr.
  - injection Hr as <-. exists new_state. unfold state_load. by rewrite H0.
  - rewrite gate_run_snoc in Hr. apply bind_Ok_inv in Hr as (d1 & Hr & Hs).
    destruct (IH d1 Hr) as (s & Hl & Ha).
    destruct op as [now by_| | |ts fb|spec plan]; cbn [gate_step] in Hs;
      try (rewrite Hl in Hs; cbn [mbind res_bind] in Hs).
    + apply bind_Ok_inv in Hs as ([s' d'] & Happ & Hd). injection Hd as <-.
      unfold approve in Happ. apply bind_Ok_inv in Happ as (saved & Hsaved & Happ).
      injection Happ as <- <-. eexists. split; [apply state_reload|]. intros _.
      by exists ops, now, by_, [], d1.
    + injection Hs as <-. eexists. split; [apply state_reload | discriminate].
    + injection Hs as <-. eexists. split; [apply state_reload | discriminate].
    + injection Hs as <-. eexists. split; [apply state_reload|]. cbn [rs_approved].
      intros Hap. by apply (approval_of_snoc _ _ _ _ s), Ha.
    + injection Hs as <-. exists s. split; [exact Hl|].
      intros Hap. by apply (approval_of_snoc _ _ _ _ s), Ha.
Qed.

(** ** Lemmas on the stripped content *)

Lemma without_dset keys k v d :
  without_keys keys (dset k v d) =
  if key_in keys k then without_keys keys d else dset k v (without_keys keys d).
Proof.
  induction d as [|[k0 v0] d IH]; unfold without_keys, keep in *.
  - cbn. by destruct (key_in keys k).
  - cbn [dset]. destruct (String.eqb_spec k k0) as [<-|Hne].
    + cbn [List.filter fst]. destruct (key_in keys k) eqn:E; cbn [negb]; [done|].
      cbn [dset]. by rewrite String.eqb_refl.
    + cbn [List.filter fst]. rewrite IH. destruct (key_in keys k), (key_in keys k0); cbn [negb];
        try done. cbn [dset]. destruct (String.eqb_spec k k0); [done|done].
Qed.

Lemma dget_without keys k d : key_in keys k = false -> dget k (without_keys keys d) = dget k d.
Proof.
  intros Hk. induction d as [|[k' v] d IH]; [done|]. unfold without_keys, keep in *.
  cbn [List.filter fst]. rewrite (dget_cons k k' v d), <- IH.
  destruct (String.eqb_spec k k') as [<-|Hne].
  - rewrite Hk. cbn [negb]. by rewrite dget_cons, String.eqb_refl.
  - destruct (key_in keys k'); cbn [negb]; [done|]. rewrite dget_cons.
    by destruct (String.eqb_spec k k').
Qed.

Lemma without_dset_if keys c k v d :
  without_keys keys (dset_if c k v d) =
  if key_in keys k then without_keys keys d else dset_if c k v (without_keys keys d).
Proof. destruct c; cbn; [apply without_dset | by destruct (key_in keys k)]. Qed.

Lemma without_dset_some keys k v d :
  without_keys keys (dset_some k v d) =
  if key_in keys k then without_keys keys d else dset_some k v (without_keys keys d).
Proof. destruct v; cbn; [apply without_dset | by destruct (key_in keys k)]. Qed.

(** Computes [without_keys] of a dictionary built by updates with literal keys. *)
Ltac without_norm :=
  repeat (first [rewrite without_dset_if | rewrite without_dset_some | rewrite without_dset];
          match goal with
          | |- context [key_in ?ks ?k] =>
              let b := eval vm_compute in (key_in ks k) in
              change (key_in ks k) with b; cbv iota
          end).

Lemma dset_truthy_opt k s d :
  dset_if (opt_truthy (truthy_opt s)) k (JOpt (truthy_opt s)) d
  = dset_if (opt_truthy s) k (JOpt s) d.
Proof. destruct s as [s|]; [|done]. cbn. destruct (is_empty s) eqn:E; [done|]. cbn. by rewrite E. Qed.

(** The content of an item: what its dictionary holds besides progress keys. *)
Definition item_content (i : Item) : dict := without_keys SUBTASK_PROGRESS_KEYS (item_to_dict i).

Lemma subtask_track_content s st a b c :
  item_content (ISub (Subtask.track s st a b c)) = item_content (ISub s).
Proof.
  unfold item_content, item_to_dict, Subtask.to_dict, Subtask.track.
  cbn [st_id st_description st_status st_service st_all_services st_depends_on st_model
       st_files_to_modify st_files_to_create st_patterns_from st_verification
       st_acceptance_criteria st_expected_output st_actual_output st_started_at
       st_completed_at st_critique_result].
  by without_norm.
Qed.

Lemma story_track_content s st a b :
  item_content (IStory (Story.track s st a b)) = item_content (IStory s).
Proof.
  unfold item_content, item_to_dict, Story.to_dict, Story.track.
  cbn [us_id us_title us_user_story us_acceptance_criteria us_technical_context us_story_points
       us_priority us_status us_service us_all_services us_depends_on us_model
       us_files_to_modify us_files_to_create us_patterns_from us_verification us_started_at
       us_completed_at us_critique_result].
  by without_norm.
Qed.

(** A subtask without acceptance criteria, which a reload keeps a subtask. *)
Definition plain_item (i : Item) : bool :=
  match i with ISub s => negb (list_truthy (st_acceptance_criteria s)) | IStory _ => true end.

Lemma reload_item_content i : plain_item i = true -> item_content (reload_item i) = item_content i.
Proof.
  destruct i as [s|s]; cbn [plain_item reload_item]; intros H.
  - bprop. rewrite H. unfold item_content, item_to_dict, Subtask.to_dict.
    without_norm. unfold reload_subtask.
    cbn [st_id st_description st_service st_all_services st_depends_on st_model
       st_files_to_modify st_files_to_create st_patterns_from st_verification
       st_acceptance_criteria st_expected_output].
    by rewrite !dset_truthy_opt.
  - unfold item_content, item_to_dict, Story.to_dict. without_norm. unfold reload_story.
    cbn [us_id us_title us_user_story us_acceptance_criteria us_technical_context us_story_points
       us_priority us_service us_all_services us_depends_on us_model
       us_files_to_modify us_files_to_create us_patterns_from us_verification].
    by rewrite !dset_truthy_opt.
Qed.

(** The stripped dictionary of a phase depends on the content of its items only. *)
Lemma phase_content ph :
  strip_phase (JObj (Phase.to_dict ph)) =
  JObj (dset_if (ph_parallel_safe ph) "parallel_safe" (JBool true)
  (dset_if (list_truthy (ph_depends_on ph)) "depends_on" (JList (ph_depends_on ph))
  [("phase", JInt (ph_phase ph)); ("name", JStr (ph_name ph));
   ("type", JStr (value (ph_type ph)));
   ("subtasks", JList (JObj ∘ item_content <$> ph_subtasks ph))])).
Proof.
  unfold strip_phase. set (D := Phase.to_dict ph).
  assert (E : dget "subtasks" D = Some (JList (JObj ∘ item_to_dict <$> ph_subtasks ph)))
    by (unfold D, Phase.to_dict; dget_norm; done).
  rewrite E. unfold D, Phase.to_dict. without_norm. unfold without_keys, keep.
  cbn [List.filter fst key_in existsb String.eqb Ascii.eqb Bool.eqb orb negb].
  unfold strip_key at 2. dget_norm. cbv iota. unfold strip_key. dget_norm. f_equal.
  rewrite <- list_fmap_compose. change (strip_subtask ∘ (JObj ∘ item_to_dict)) with (JObj ∘ item_content).
  by destruct (ph_depends_on ph), (ph_parallel_safe ph).
Qed.

Lemma same_items_same_phase ph l :
  item_content <$> l = item_content <$> ph_subtasks ph ->
  strip_phase (JObj (Phase.to_dict (set_subtasks ph l))) = strip_phase (JObj (Phase.to_dict ph)).
Proof. intros E. rewrite !phase_content. cbn. by rewrite !list_fmap_compose, E. Qed.

Definition plan_content (p : ImplementationPlan) : dict :=
  strip_plan_progress (ImplementationPlan.to_dict p).

(** The stripped dictionary of a plan. *)
Lemma plan_content_eq p :
  plan_content p =
  dset_if (list_truthy (pl_required_commands p)) "required_commands"
    (JStrs (pl_required_commands p))
  [("feature", JStr (pl_feature p)); ("workflow_type", JStr (value (pl_workflow_type p)));
   ("services_involved", JStrs (pl_services_involved p));
   ("phases", JList (strip_phase ∘ (JObj ∘ Phase.to_dict) <$> pl_phases p));
   ("final_acceptance", JStrs (pl_final_acceptance p)); ("spec_file", JOpt (pl_spec_file p))].
Proof.
  unfold plan_content, strip_plan_progress.
  set (C := without_keys PLAN_PROGRESS_KEYS (ImplementationPlan.to_dict p)).
  assert (EC : C =
    dset_if (list_truthy (pl_required_commands p)) "required_commands"
      (JStrs (pl_required_commands p))
    [("feature", JStr (pl_feature p)); ("workflow_type", JStr (value (pl_workflow_type p)));
     ("services_involved", JStrs (pl_services_involved p));
     ("phases", JList (JObj ∘ Phase.to_dict <$> pl_phases p));
     ("final_acceptance", JStrs (pl_final_acceptance p)); ("spec_file", JOpt (pl_spec_file p))]).
  { unfold C, ImplementationPlan.to_dict. without_norm. f_equal. }
  rewrite EC. dget_norm. rewrite <- list_fmap_compose.
  by destruct (pl_required_commands p).
Qed.

(** ** The engine: what happens to a plan while a build runs *)

Inductive engine_op :=
  | EStart (phase item : nat) (now : string)
  | EComplete (phase item : nat) (now : string) (output : option string)
  | EFail (phase item : nat) (reason : option string)
  | ESettle (status plan_status reason : option string)
  | ESave (now : string)
  | EReload.

Definition on_item (phase item : nat) (f : Item -> Item) (p : ImplementationPlan)
  : ImplementationPlan :=
  set_phases p (alter (fun ph => set_subtasks ph (alter f item (ph_subtasks ph))) phase (pl_phases p)).

Definition engine_step (op : engine_op) (p : ImplementationPlan) : ImplementationPlan :=
  match op with
  | EStart i j now => on_item i j (item_start now) p
  | EComplete i j now out => on_item i j (item_complete now out) p
  | EFail i j reason => on_item i j (item_fail reason) p
  | ESettle a b c => set_status p a b c
  | ESave now => (Plan.save now p).1
  | EReload =>
      match ImplementationPlan.from_dict (ImplementationPlan.to_dict p) with
      | Ok p' => p'
      | Err _ => p
      end
  end.

(** What a plan read from a file is: it has a name, and its subtasks have no acceptance
    criteria (those were read as stories). *)
Definition loaded_shape (p : ImplementationPlan) : bool :=
  negb (is_empty (pl_feature p))
  && forallb (fun ph => forallb plain_item (ph_subtasks ph)) (pl_phases p).

Lemma forallb_mapM {A B} (f : A -> res B) (P : B -> bool) l k :
  (forall x y, f x = Ok y -> P y = true) -> mapM f l = Ok k -> forallb P k = true.
Proof.
  intros Hf. revert k. induction l as [|x l IH]; intros k E; cbn in E; res_inv; [done|].
  cbn. by rewrite (Hf _ _ Hv), (IH _ Hv0).
Qed.

Lemma subtask_criteria_none d s :
  dmem "acceptance_criteria" d = false -> Subtask.from_dict d = Ok s ->
  st_acceptance_criteria s = [].
Proof.
  unfold dmem, Subtask.from_dict. intros H E.
  destruct (dget "acceptance_criteria" d) eqn:G; [done|]. res_inv. cbn.
  match goal with H : get_or_nil _ "acceptance_criteria" d = Ok _ |- _ =>
    unfold get_or_nil in H; rewrite G in H; by injection H as <- end.
Qed.

Lemma item_from_json_plain v i : Phase.item_from_json v = Ok i -> plain_item i = true.
Proof.
  unfold Phase.item_from_json. destruct v as [| | | | |d]; try discriminate.
  destruct (dmem "user_story" d || dmem "acceptance_criteria" d) eqn:E; intros H; res_inv; [done|].
  bprop. cbn. by rewrite (subtask_criteria_none d) by done.
Qed.

Lemma phase_from_dict_plain d n ph :
  Phase.from_dict d n = Ok ph -> forallb plain_item (ph_subtasks ph) = true.
Proof.
  unfold Phase.from_dict. intros H. res_inv. cbn.
  match goal with H : mapM Phase.item_from_json _ = Ok _ |- _ =>
    by apply (forallb_mapM _ plain_item) in H; [|apply item_from_json_plain] end.
Qed.

Lemma phases_from_plain n l k :
  ImplementationPlan.phases_from n l = Ok k ->
  forallb (fun ph => forallb plain_item (ph_subtasks ph)) k = true.
Proof.
  revert n k. induction l as [|v l IH]; intros n k H; cbn in H; [by res_inv|].
  destruct v as [| | | | |d]; try discriminate. res_inv. cbn.
  rewrite (phase_from_dict_plain _ _ _ Hv). by apply (IH (n + 1)%Z).
Qed.

Lemma feature_name_nonempty d f : ImplementationPlan.feature_name d = Ok f -> is_empty f = false.
Proof.
  unfold ImplementationPlan.feature_name.
  assert (H : forall v, truthy v = true -> as_str v = Ok f -> is_empty f = false).
  { intros [] Ht E; try discriminate. injection E as ->. cbn in Ht. by bprop. }
  repeat case_match; intros E; eauto; by injection E as <-.
Qed.

Lemma loaded_has_shape d p : ImplementationPlan.from_dict d = Ok p -> loaded_shape p = true.
Proof.
  unfold ImplementationPlan.from_dict, loaded_shape. intros H. res_inv. cbn.
  match goal with H : ImplementationPlan.feature_name d = Ok _ |- _ =>
    rewrite (feature_name_nonempty _ _ H) end.
  match goal with H : ImplementationPlan.phases_from _ _ = Ok _ |- _ =>
    exact (phases_from_plain _ _ _ H) end.
Qed.

Lemma fmap_alter_same {A B} (g : A -> B) (f : A -> A) (i : nat) (l : list A) :
  (forall x, x ∈ l -> g (f x) = g x) -> g <$> alter f i l = g <$> l.
Proof.
  revert i. induction l as [|x l IH]; intros [|i] H; cbn; try done.
  - f_equal. apply H, list_elem_of_here.
  - f_equal. apply IH. intros y Hy. by apply H, list_elem_of_further.
Qed.

Lemma forallb_as_fmap {A} (P : A -> bool) (l : list A) : forallb P l = forallb id (P <$> l).
Proof. induction l as [|x l IH]; [done|]. cbn. by rewrite IH. Qed.

(** A change of one item that keeps its content keeps the content of the plan. *)
Lemma on_item_content i j f p :
  (forall x, item_content (f x) = item_content x) ->
  (forall x, plain_item (f x) = plain_item x) ->
  plan_content (on_item i j f p) = plan_content p
  /\ loaded_shape (on_item i j f p) = loaded_shape p.
Proof.
  intros Hc Hp. split.
  - rewrite !plan_content_eq. cbn [on_item set_phases pl_required_commands pl_feature pl_workflow_type
      pl_services_involved pl_phases pl_final_acceptance pl_spec_file].
    rewrite fmap_alter_same; [done|]. intros ph _. apply same_items_same_phase.
    by apply fmap_alter_same.
  - unfold loaded_shape. cbn [on_item set_phases pl_feature pl_phases]. f_equal.
    rewrite forallb_as_fmap, fmap_alter_same; [by rewrite <- forallb_as_fmap|].
    intros ph _. cbn [set_subtasks ph_subtasks].
    rewrite forallb_as_fmap, fmap_alter_same; [by rewrite <- forallb_as_fmap|]. done.
Qed.

Lemma start_content now x :
  item_content (item_start now x) = item_content x /\ plain_item (item_start now x) = plain_item x.
Proof. destruct x; [split; [apply subtask_track_content|done] | split; [apply story_track_content|done]]. Qed.

Lemma complete_content now out x :
  item_content (item_complete now out x) = item_content x
  /\ plain_item (item_complete now out x) = plain_item x.
Proof. destruct x; [split; [apply subtask_track_content|done] | split; [apply story_track_content|done]]. Qed.

Lemma fail_content reason x :
  item_content (item_fail reason x) = item_content x
  /\ plain_item (item_fail reason x) = plain_item x.
Proof. destruct x; [split; [apply subtask_track_content|done] | split; [apply story_track_content|done]]. Qed.

Lemma set_status_content p a b c :
  plan_content (set_status p a b c) = plan_content p
  /\ loaded_shape (set_status p a b c) = loaded_shape p.
Proof. by rewrite !plan_content_eq. Qed.

Lemma save_content now p :
  plan_content (Plan.save now p).1 = plan_content p /\ loaded_shape (Plan.save now p).1 = loaded_shape p.
Proof.
  unfold Plan.save. cbn [fst]. set (q := set_times p _ _).
  assert (Hq : plan_content q = plan_content p /\ loaded_shape q = loaded_shape p)
    by by rewrite !plan_content_eq.
  destruct Hq as [<- <-]. unfold Plan.update_status_from_subtasks.
  repeat case_match; try apply set_status_content; done.
Qed.

Lemma reload_phase_content ph :
  forallb plain_item (ph_subtasks ph) = true ->
  strip_phase (JObj (Phase.to_dict (reload_phase ph))) = strip_phase (JObj (Phase.to_dict ph))
  /\ forallb plain_item (ph_subtasks (reload_phase ph)) = true.
Proof.
  intros H. split.
  - apply (same_items_same_phase ph (reload_item <$> ph_subtasks ph)).
    rewrite <- list_fmap_compose. apply list_fmap_ext. intros k x Hx. apply reload_item_content.
    rewrite forallb_spec in H. by apply H, (list_elem_of_lookup_2 _ k).
  - cbn [reload_phase ph_subtasks]. rewrite forallb_spec in H. apply forallb_spec. intros x Hx.
    apply list_elem_of_fmap in Hx as (y & -> & Hy). specialize (H y Hy).
    destruct y as [s|s]; cbn in H |- *; [|done]. by destruct (list_truthy (st_acceptance_criteria s)) eqn:E; cbn; rewrite ?E.
Qed.

Lemma reload_content p :
  loaded_shape p = true ->
  plan_content (reload_plan p) = plan_content p /\ loaded_shape (reload_plan p) = true.
Proof.
  unfold loaded_shape. intros H. apply andb_true_iff in H as [Hf Hp]. bprop.
  rewrite forallb_spec in Hp. split.
  - rewrite !plan_content_eq. cbn [reload_plan pl_required_commands pl_feature pl_workflow_type
      pl_services_involved pl_phases pl_final_acceptance pl_spec_file].
    rewrite Hf. rewrite <- list_fmap_compose.
    rewrite (list_fmap_ext (strip_phase ∘ (JObj ∘ Phase.to_dict) ∘ reload_phase)
               (strip_phase ∘ (JObj ∘ Phase.to_dict))); [done|].
    intros k ph Hk. apply reload_phase_content, Hp, (list_elem_of_lookup_2 _ k). done.
  - apply andb_true_iff. cbn [reload_plan pl_feature pl_phases]. rewrite Hf. split; [by rewrite Hf|].
    apply forallb_spec. intros ph Hph. apply list_elem_of_fmap in Hph as (q & -> & Hq).
    by apply reload_phase_content, Hp.
Qed.

Lemma engine_step_content op p :
  loaded_shape p = true ->
  plan_content (engine_step op p) = plan_content p /\ loaded_shape (engine_step op p) = true.
Proof.
  intros H. destruct op as [i j now|i j now out|i j reason|a b c|now|]; cbn [engine_step].
  - destruct (on_item_content i j (item_start now) p) as [-> ->]; [| |done];
      intros x; apply start_content.
  - destruct (on_item_content i j (item_complete now out) p) as [-> ->]; [| |done];
      intros x; apply complete_content.
  - destruct (on_item_content i j (item_fail reason) p) as [-> ->]; [| |done];
      intros x; apply fail_content.
  - destruct (set_status_content p a b c) as [-> ->]. done.
  - destruct (save_content now p) as [-> ->]. done.
  - rewrite plan_reload. by apply reload_content.
Qed.

Lemma engine_run_content ops p :
  loaded_shape p = true -> plan_content (foldl (fun p op => engine_step op p) p ops) = plan_content p.
Proof.
  revert p. induction ops as [|op ops IH]; intros p H; [done|]. cbn.
  destruct (engine_step_content op p H) as [E H']. by rewrite IH.
Qed.

(** ** Lemmas on the collected commands *)

Lemma elem_of_strings_of s v :
  s ∈ strings_of (canon <$> v) <-> s ∈ strings_of v.
Proof.
  destruct v as [[| | | |l|]|]; try done. cbn.
  induction l as [|x l IH]; [done|]. cbn. destruct x; cbn; rewrite ?elem_of_cons; naive_solver.
Qed.

Lemma string_at_canon key d : string_at key (canon_items d) = string_at key d.
Proof. unfold string_at. rewrite dget_canon. by destruct (dget key d) as [[]|]. Qed.

Lemma elem_of_concat_map {A} (f : A -> list string) s l :
  s ∈ concat (List.map f l) <-> exists x, x ∈ l /\ s ∈ f x.
Proof.
  induction l as [|x l IH]; cbn.
  - split; [intros H; by apply elem_of_nil in H | intros (x & H & _); by apply elem_of_nil in H].
  - rewrite elem_of_app, IH. setoid_rewrite elem_of_cons. naive_solver.
Qed.

(** The strings collected from a value do not depend on the order of its keys. *)
Lemma collect_canon v s : s ∈ _collect_strings (canon v) <-> s ∈ _collect_strings v.
Proof.
  revert s. induction v as [|b|z|t|l IH|d IH] using json_ind'; intros s; try done.
  - cbn [canon _collect_strings]. rewrite !elem_of_concat_map.
    rewrite Forall_forall in IH. split.
    + intros (x & Hx & Hs). apply list_elem_of_In, in_map_iff in Hx as (y & <- & Hy%list_elem_of_In).
      exists y. split; [done|]. by apply IH.
    + intros (y & Hy & Hs). exists (canon y). split; [|by apply IH].
      by apply list_elem_of_In, in_map, list_elem_of_In.
  - rewrite canon_obj. cbn [_collect_strings]. rewrite !elem_of_app, !elem_of_concat_map.
    rewrite dget_canon, elem_of_strings_of. setoid_rewrite string_at_canon.
    rewrite Forall_forall in IH. f_equiv. f_equiv. split.
    + intros (x & Hx & Hs). rewrite canon_items_perm in Hx.
      apply list_elem_of_In, in_map_iff in Hx as (y & <- & Hy%list_elem_of_In).
      exists y. split; [done|]. cbn [fst snd] in Hs. case_match; [done|]. by apply IH.
    + intros (y & Hy & Hs). exists (y.1, canon y.2). rewrite canon_items_perm. split.
      * apply list_elem_of_In, in_map_iff. exists y. split; [done|]. by apply list_elem_of_In.
      * cbn [fst snd]. case_match; [done|]. by apply IH.
Qed.

Lemma extract_same ast regex p q :
  canon (JObj (strip_plan_progress p)) = canon (JObj (strip_plan_progress q)) ->
  extract_command_names ast regex p = extract_command_names ast regex q.
Proof.
  intros E. unfold extract_command_names. apply leibniz_equiv. intros n.
  rewrite !elem_of_list_to_set, !list_elem_of_In, !in_concat.
  setoid_rewrite in_map_iff. setoid_rewrite <- list_elem_of_In.
  setoid_rewrite <- (collect_canon (JObj (strip_plan_progress _))). by rewrite E.
Qed.

Lemma sanitize_inv names g r :
  foldr sanitize_step (∅, ∅) names = (g, r) ->
  forall n, n ∈ g -> _NAME_RE n = true /\ n ∈ PLAN_GRANTABLE_COMMANDS /\ n ∉ DENY_COMMANDS.
Proof.
  revert g r. induction names as [|x names IH]; cbn [foldr]; intros g r E n Hn.
  - injection E as <- <-. by apply elem_of_empty in Hn.
  - destruct (foldr _ _ _) as [g' r'] eqn:F. specialize (IH g' r' eq_refl).
    unfold sanitize_step in E.
    destruct (is_empty (strip x) || negb (_NAME_RE (strip x))) eqn:E1.
    { apply IH. destruct (is_empty (strip x)); by injection E as <- <-. }
    destruct (key_in DENY_COMMANDS (strip x) || negb (key_in PLAN_GRANTABLE_COMMANDS (strip x))) eqn:E2;
      injection E as <- <-; [by apply IH|].
    apply elem_of_union in Hn as [->%elem_of_singleton|Hn]; [|by apply IH].
    bprop. split; [done|]. unfold key_in in *. split.
    + match goal with H : existsb _ PLAN_GRANTABLE_COMMANDS = true |- _ =>
        apply existsb_spec in H as (y & Hy & ->%String.eqb_eq); exact Hy end.
    + intros Hd. match goal with H : existsb _ DENY_COMMANDS = false |- _ =>
        rewrite existsb_false in H; specialize (H _ Hd) end.
      by rewrite String.eqb_refl in *.
Qed.

(** A standing approval of a trace, checked on a directory, was given to its content. *)
Lemma valid_was_reviewed md5 ops d0 d s live :
  (forall x, hex_string (md5 x) = true) ->
  sd_review d0 = Missing -> gate_run md5 ops d0 = Ok d -> state_load d = Ok s ->
  is_approval_valid md5 s live = true ->
  exists pre now by_ post approved,
    ops = pre ++ OpApprove now by_ :: post /\ gate_run md5 pre d0 = Ok approved
    /\ forallb quiet post = true /\ (reviewed approved live \/ collision md5).
Proof.
  intros Hmd5 H0 Hr Hl Hv. destruct (trace_state md5 ops d0 d H0 Hr) as (s' & Hl' & Ha).
  assert (s' = s) as -> by congruence. unfold is_approval_valid in Hv.
  destruct (rs_approved s); [|discriminate]. cbn [negb] in Hv.
  destruct (is_empty (rs_spec_hash s)); [discriminate|].
  destruct (Ha eq_refl) as (pre & now & by_ & post & a & E & Hp & Hq & H1 & H2).
  exists pre, now, by_, post, a. do 3 (split; [done|]).
  by apply (approved_content md5 Hmd5 a live (rs_spec_hash s) (rs_saved_spec_hash s)).
Qed.

(** The answer is the flag of what task_metadata.json holds after the body. *)
Lemma sync_from_flag r tm w b :
  sync_from_requirements r tm = Ok (w, b) ->
  exists d, default tm w = JObj d /\ b = truthy_key REQUIRE_KEY d.
Proof.
  unfold sync_from_requirements. destruct r as [| | | | |r]; try discriminate.
  destruct (py_in _ _) as [[]|]; try discriminate; cbn [mbind res_bind];
    [destruct (default _ _) as [| | | | |fm]|]; destruct tm as [| | | | |d]; try discriminate;
    intros H; injection H as <- <-; eauto.
Qed.

(** The two outcomes of the sync: a file could not be read and review is required, or the
    answer is the flag task_metadata.json holds afterwards. *)
Lemma sync_cases d b d' :
  sync_require_review_metadata d = Ok (b, d') ->
  (b = true /\ d' = d /\ (sd_requirements d = Broken \/ sd_metadata d = Broken))
  \/ (sd_requirements d <> Broken /\ sd_metadata d <> Broken
      /\ match sd_metadata d' with
         | Json (JObj m) => b = truthy_key REQUIRE_KEY m
         | Missing => b = false
         | _ => False
         end).
Proof.
  unfold sync_require_review_metadata. intros H.
  destruct (sd_requirements d) as [| |r] eqn:Er; [| injection H as <- <-; auto |].
  - destruct (sd_metadata d) as [| |[]] eqn:Em; try discriminate; injection H as <- <-;
      [right; rewrite ?Em; split_and!; done| left; auto | right; rewrite ?Em; split_and!; done].
  - destruct r as [| | | | |r]; try discriminate.
    destruct (sd_metadata d) as [| |m] eqn:Em; [| injection H as <- <-; auto |]; right;
      destruct (sync_from_requirements _ _) as [[w a]|] eqn:Es; try discriminate;
      apply sync_from_flag in Es as (tm & Ew & ->); (split; [done|]); (split; [done|]);
      destruct w as [v|]; injection H as <- <-; rewrite ?Em; cbn in Ew |- *; by simplify_eq.
Qed.

(** ** Properties *)

(** C3 (safety): an approval is bound to the content that was reviewed.  Take any trace of
    approvals, rejections, invalidations, feedback and edits of spec.md and of the plan,
    from a directory without a review file.  If the state then on disk is valid for a
    directory (the same one or the working copy of a run), the trace has an approval that
    no later operation withdrew, and the directory holds what was there when it was given:
    the same spec.md, and the same plan up to progress keys and key order, or the form a
    save of that plan has.  The only other way is a collision of the digest. *)
Theorem approval_binds_content (md5 : string -> string) (ops : list gate_op)
    (d0 d live : SpecDir) (s : ReviewState) :
  (forall x, hex_string (md5 x) = true) ->
  sd_review d0 = Missing ->
  gate_run md5 ops d0 = Ok d -> state_load d = Ok s -> is_approval_valid md5 s live = true ->
  exists pre now by_ post approved,
    ops = pre ++ OpApprove now by_ :: post /\ gate_run md5 pre d0 = Ok approved
    /\ forallb quiet post = true /\ (reviewed approved live \/ collision md5).
Proof. apply valid_was_reviewed. Qed.

(** The build does not invalidate its own approval.  Approve a spec whose
    plan loads: the approval is valid at once, and it is still valid after any sequence of
    starts, completions and failures of subtasks, changes of the plan's status, saves and
    reloads, whenever the plan is written back. *)
Theorem engine_keeps_approval (md5 : string -> string) (now by_ : string) (s s' : ReviewState)
    (d d' : SpecDir) (q : dict) (p : ImplementationPlan) (ops : list engine_op) :
  (forall x, hex_string (md5 x) = true) ->
  sd_plan d = PlanDoc q -> ImplementationPlan.from_dict q = Ok p ->
  approve md5 now by_ s d = Ok (s', d') ->
  is_approval_valid md5 s' d' = true
  /\ is_approval_valid md5 s'
       (with_content d' (sd_spec d')
          (PlanDoc (ImplementationPlan.to_dict (foldl (fun p op => engine_step op p) p ops))))
     = true.
Proof.
  intros Hmd5 Hq Hp Happ. unfold approve, _compute_saved_spec_hash, _read_plan in Happ.
  rewrite Hq, Hp in Happ. injection Happ as <- <-. unfold is_approval_valid.
  cbn [rs_approved rs_spec_hash rs_saved_spec_hash negb].
  rewrite (hash_not_empty md5 Hmd5). split; apply orb_true_iff.
  - left. apply String.eqb_refl.
  - right. apply String.eqb_eq. unfold _compute_spec_hash, _read_plan, content_text.
    cbn [with_content sd_plan state_save with_review sd_spec].
    fold (plan_content (foldl (fun p op => engine_step op p) p ops)). fold (plan_content p).
    rewrite engine_run_content by (by apply (loaded_has_shape q)).
    unfold _combine. done.
Qed.

(** The commands a plan grants were reviewed.  With a standing approval that
    is valid for the plan read, the names granted are those the approved plan grants, or
    those of its saved form; whatever the plan, a granted name has the shape of a command
    name, is in the curated list and is not in the deny list. *)
Theorem granted_commands_were_reviewed (ast regex : string -> option (list string))
    (md5 : string -> string) (ops : list gate_op) (d0 d live : SpecDir) (s : ReviewState)
    (plan : dict) :
  (forall x, hex_string (md5 x) = true) ->
  sd_review d0 = Missing ->
  gate_run md5 ops d0 = Ok d -> state_load d = Ok s -> is_approval_valid md5 s live = true ->
  sd_plan live = PlanDoc plan ->
  let grants q := (grantable_commands_from_plan ast regex q).1 in
  (forall n, n ∈ grants plan ->
     _NAME_RE n = true /\ n ∈ PLAN_GRANTABLE_COMMANDS /\ n ∉ DENY_COMMANDS)
  /\ (collision md5
      \/ exists pre now by_ post approved,
           ops = pre ++ OpApprove now by_ :: post /\ gate_run md5 pre d0 = Ok approved
           /\ (sd_plan approved = PlanText (content_text plan)
               \/ exists q, sd_plan approved = PlanDoc q
                    /\ (grants plan = grants q
                        \/ exists p, ImplementationPlan.from_dict q = Ok p
                             /\ grants plan = grants (ImplementationPlan.to_dict p)))).
Proof.
  intros Hmd5 H0 Hr Hl Hv Hplan grants. split.
  { intros n. unfold grants, grantable_commands_from_plan, sanitize_command_names.
    destruct (foldr sanitize_step (∅, ∅) _) as [g r] eqn:E. exact (sanitize_inv _ _ _ E n). }
  destruct (valid_was_reviewed md5 ops d0 d s live Hmd5 H0 Hr Hl Hv)
    as (pre & now & by_ & post & a & E & Hp & _ & [[_ Hc]|C]); [right | by left].
  exists pre, now, by_, post, a. split; [done|]. split; [done|]. rewrite Hplan in Hc.
  assert (G : forall q, canon (JObj (strip_plan_progress plan)) = canon (JObj (strip_plan_progress q)) ->
            grants plan = grants q).
  { intros q Eq. unfold grants, grantable_commands_from_plan.
    by rewrite (extract_same ast regex plan q Eq). }
  destruct Hc as [Hc|(q & p & Ea & Ep & Hc)].
  - destruct (sd_plan a) as [|t|q] eqn:Ea; cbn [same_plan] in Hc; [done| |].
    + left. by rewrite Hc.
    + right. exists q. split; [done|]. left. by apply G.
  - right. exists q. split; [done|]. right. exists p. split; [done|]. by apply G.
Qed.


(** A spec with a one-phase plan, approved under the toy digest. *)
Definition example_plan : dict :=
  [("feature", JStr "login"); ("status", JStr "pending");
   ("required_commands", JList [JStr "uv"]);
   ("phases", JList [JObj [("name", JStr "p"); ("subtasks", JList [JObj
      [("id", JStr "t1"); ("description", JStr "form"); ("status", JStr "pending")]])]])].
Definition example_dir : SpecDir :=
  {| sd_spec := Some "# Login"; sd_plan := PlanDoc example_plan; sd_review := Missing;
     sd_metadata := Missing; sd_requirements := Missing |}.
Definition example_loaded : ImplementationPlan :=
  match ImplementationPlan.from_dict example_plan with
  | Ok p => p
  | Err _ => Factories.create_investigation_plan "" "" []
  end.
Definition example_ops : list gate_op :=
  [OpApprove "2025-01-01" "ada";
   OpEdit (Some "# Login") (PlanDoc (dset "status" (JStr "in_progress") example_plan))].
Definition example_approved : ReviewState :=
  {| rs_approved := true; rs_approved_by := "ada"; rs_approved_at := "2025-01-01";
     rs_feedback := []; rs_spec_hash := _compute_spec_hash toy_hex example_dir;
     rs_saved_spec_hash :=
       _combine toy_hex example_dir
         (toy_hex (content_text (ImplementationPlan.to_dict example_loaded)));
     rs_review_count := 1 |}.
Definition example_after : SpecDir :=
  with_content (state_save example_approved example_dir) (Some "# Login")
    (PlanDoc (dset "status" (JStr "in_progress") example_plan)).

Lemma approval_binds_content_witness :
  is_approval_valid toy_hex example_approved example_after = true
  /\ exists pre now by_ post approved,
       example_ops = pre ++ OpApprove now by_ :: post
       /\ gate_run toy_hex pre example_dir = Ok approved
       /\ forallb quiet post = true /\ (reviewed approved example_after \/ collision toy_hex).
Proof.
  assert (V : is_approval_valid toy_hex example_approved example_after = true)
    by (vm_compute; reflexivity).
  split; [exact V|].
  apply (approval_binds_content toy_hex example_ops example_dir example_after example_after
           example_approved toy_hex_ok eq_refl);
    [vm_compute; reflexivity | vm_compute; reflexivity | exact V].
Defined.

Lemma engine_keeps_approval_witness :
  is_approval_valid toy_hex example_approved
    (with_content example_dir (Some "# Login")
       (PlanDoc (ImplementationPlan.to_dict
          (foldl (fun p op => engine_step op p) example_loaded
             [EStart 0 0 "t1"; ESave "t2"; EReload; EComplete 0 0 "t3" None; ESave "t4"])))) = true.
Proof.
  destruct (engine_keeps_approval toy_hex "2025-01-01" "ada" new_state example_approved
              example_dir (state_save example_approved example_dir) example_plan example_loaded
              [EStart 0 0 "t1"; ESave "t2"; EReload; EComplete 0 0 "t3" None; ESave "t4"]
              toy_hex_ok eq_refl) as [_ H];
    [vm_compute; reflexivity | vm_compute; reflexivity | exact H].
Defined.

Lemma granted_commands_were_reviewed_witness :
  (grantable_commands_from_plan (fun s => Some [s]) (fun _ => None) example_plan).1 = {[ "uv" ]}
  /\ _NAME_RE "uv" = true.
Proof.
  assert (E : (grantable_commands_from_plan (fun s => Some [s]) (fun _ => None) example_plan).1
              = {[ "uv" ]}) by (vm_compute; reflexivity).
  split; [exact E|].
  destruct (granted_commands_were_reviewed (fun s => Some [s]) (fun _ => None) toy_hex
              example_ops example_dir example_after
              (with_content example_after (Some "# Login") (PlanDoc example_plan))
              example_approved example_plan toy_hex_ok eq_refl) as [H _];
    [vm_compute; reflexivity | vm_compute; reflexivity | vm_compute; reflexivity | reflexivity |].
  apply (H "uv"). vm_compute. reflexivity.
Defined.

