(* ===== verification/TrustedPlan.v ===== *)
(** Plans signed upstream (apps/backend/trusted_plan.py): the keyring with its retired key
    ids, the canonical text and its signature, the completeness checklist, the freshness of
    the baseline, the execution profile and the ingestion of a verified plan.

    [hmac_sha256] is the keyed digest of a text in hexadecimal; the text stands for its
    UTF-8 bytes.  Nothing is assumed of it but, where a theorem says so, that its digests are
    hexadecimal. *)
From stdpp Require Import relations.
From S2P Require Import Prelude PyData JsonText JsonRead ApprovalGate.


(** The environment as a list: two names that differ by case only are read in its order. *)
Abbreviation env_list := (list (string * string)).

Fixpoint env_get (k : string) (env : env_list) : option string :=
  match env with
  | [] => None
  | (k', v) :: env' => if String.eqb k k' then Some v else env_get k env'
  end.

(** ** Keyring *)

Definition _ENV_KEY_PREFIX : string := "AIFACTORY_TRUSTED_PLAN_KEY_".
Definition _KID_SEP : string := "__".
Definition _RETIRED_KIDS_ENV : string := "AIFACTORY_TRUSTED_PLAN_RETIRED_KIDS".
Definition APPROVAL_KEY : string := "approval".
Definition CONTRACT_VERSION : string := "2".
Definition SUPPORTED_CONTRACT_VERSIONS : list string := ["1"; "2"].
Definition _ENVELOPE_FIELDS : list string :=
  ["approved_by"; "approval_timestamp"; "plan_contract_version"; "signature"].

Abbreviation keyring := (gmap string string).

Definition keyed (authority kid : string) : string := authority +:+ "/" +:+ kid.

Definition keyring_entry (ring : keyring) (item : string * string) : keyring :=
  match after_prefix _ENV_KEY_PREFIX item.1 with
  | Some tail =>
      if is_empty item.2 then ring
      else
        let suffix := lower (strip tail) in
        if is_empty suffix then ring
        else match cut_at _KID_SEP suffix with
             | Some (authority, kid) =>
                 let authority := strip authority in
                 let kid := strip kid in
                 if negb (is_empty authority) && negb (is_empty kid)
                 then <[keyed authority kid := item.2]> ring else ring
             | None => <[suffix := item.2]> ring
             end
  | None => ring
  end.

Definition load_keyring_from_env (env : env_list) : keyring := foldl keyring_entry ∅ env.

Definition load_retired_kids_from_env (env : env_list) : list string :=
  let raw := default "" (env_get _RETIRED_KIDS_ENV env) in
  (fun tok => lower (strip tok)) <$> keep (fun tok => negb (is_empty (strip tok))) (split_on "," raw).

(** ** Canonical text and signature *)

Definition _plan_core (plan : dict) : dict :=
  keep (fun kv => negb (String.eqb kv.1 APPROVAL_KEY)) plan.

(** [json.dumps(obj, sort_keys=True, separators=(",", ":"), ensure_ascii=False)] *)
Definition _canonical (v : json) : string := enc Compact (canon v).

Definition _signing_bytes (plan : dict) (approved_by approval_timestamp contract_version : string)
    (kid : option string) : string :=
  join "|" ([_canonical (JObj (_plan_core plan)); approved_by; approval_timestamp; contract_version]
            ++ match kid with Some k => if is_empty k then [] else [k] | None => [] end).

Inductive sig_reason :=
  | NoEnvelope
  | MissingFields (fields : list string)
  | UnsupportedVersion (version : string)
  | RetiredKey (authority kid : string)
  | NoKey (authority : string) (kid : option string)
  | SignatureMismatch.

Definition truthy_at (k : string) (d : dict) : bool := truthy (default JNull (dget k d)).

(** [compare_digest] refuses text that is not ASCII. *)
Fixpoint ascii_only (s : string) : bool :=
  match s with EmptyString => true | String c s' => (nat_of_ascii c <? 128) && ascii_only s' end.
Definition compare_digest (a b : string) : res bool :=
  if ascii_only a && ascii_only b then Ok (String.eqb a b) else Err TypeError.

Definition _select_verification_key (ring : keyring) (retired : list string) (authority : string)
    (kid : option string) : string + sig_reason :=
  match kid with
  | Some kid =>
      let kid_l := lower (strip kid) in
      if existsb (String.eqb kid_l) retired || existsb (String.eqb (keyed authority kid_l)) retired
      then inr (RetiredKey authority kid)
      else match ring !! keyed authority kid_l with
           | Some key => if is_empty key then inr (NoKey authority (Some kid)) else inl key
           | None => inr (NoKey authority (Some kid))
           end
  | None =>
      match ring !! authority with
      | Some key => if is_empty key then inr (NoKey authority None) else inl key
      | None => inr (NoKey authority None)
      end
  end.

Section Signature.
Variable hmac_sha256 : string -> string -> string.

Definition sign_plan (plan : dict) (key approved_by approval_timestamp contract_version : string)
    (kid : option string) : dict :=
  let signature := hmac_sha256 key
    (_signing_bytes plan approved_by approval_timestamp contract_version kid) in
  let envelope := [("approved_by", JStr approved_by); ("approval_timestamp", JStr approval_timestamp);
                   ("plan_contract_version", JStr contract_version); ("signature", JStr signature)] in
  match kid with
  | Some k => if is_empty k then envelope else dset "kid" (JStr k) envelope
  | None => envelope
  end.

(** [str(kid) if kid else None] *)
Definition kid_of (envelope : dict) : res (option string) :=
  let kid := default JNull (dget "kid" envelope) in
  if truthy kid then Some <$> py_str kid else Ok None.

Definition field (k : string) (envelope : dict) : res string := py_str (default JNull (dget k envelope)).

(** None when the signature holds, else the reason. *)
Definition verify_plan_signature (ring : keyring) (retired : list string) (plan : dict)
  : res (option sig_reason) :=
  match dget APPROVAL_KEY plan with
  | Some (JObj envelope) =>
      match keep (fun f => negb (truthy_at f envelope)) _ENVELOPE_FIELDS with
      | [] =>
          let! contract := field "plan_contract_version" envelope in
          if negb (existsb (String.eqb contract) SUPPORTED_CONTRACT_VERSIONS)
          then Ok (Some (UnsupportedVersion contract))
          else
            let! approved_by := field "approved_by" envelope in
            let authority := lower (strip approved_by) in
            let! kid := kid_of envelope in
            match _select_verification_key ring retired authority kid with
            | inr reason => Ok (Some reason)
            | inl key =>
                let! timestamp := field "approval_timestamp" envelope in
                let expected := hmac_sha256 key (_signing_bytes plan approved_by timestamp contract kid) in
                let! signature := field "signature" envelope in
                let! same := compare_digest expected signature in
                Ok (if same : bool then None else Some SignatureMismatch)
            end
      | missing => Ok (Some (MissingFields missing))
      end
  | _ => Ok (Some NoEnvelope)
  end.
End Signature.

(** ** The completeness checklist *)

Inductive gap :=
  | MissingTop (field : string)
  | NoPhases
  | PhaseNotObject (i : nat)
  | PhaseEmpty (i : nat)
  | SubtaskNotObject (i j : nat)
  | MissingId (label : string)
  | DuplicateId (id : string)
  | MissingDescription (label : string)
  | NoSubtasks
  | DependsOnItself (id : string)
  | UnknownDependency (id dep : string)
  | DependencyCycle.

Abbreviation graph := (list (string * list string)).

(** [d[k] = v] *)
Fixpoint upsert (k : string) (v : list string) (g : graph) : graph :=
  match g with
  | [] => [(k, v)]
  | (k', v') :: g' => if String.eqb k k' then (k', v) :: g' else (k', v') :: upsert k v g'
  end.

(** [deps.get(node, [])] *)
Fixpoint deps_of (g : graph) (node : string) : list string :=
  match g with
  | [] => []
  | (k, v) :: g' => if String.eqb node k then v else deps_of g' node
  end.

(** The depth-first search of [_is_acyclic]; None marks the end of the fuel. *)
Inductive color := WHITE | GREY | BLACK.
#[export] Instance color_eq_dec : EqDecision color.
Proof. solve_decision. Defined.

Abbreviation colors := (gmap string color).

Section Search.
Variable deps : graph.

Section visit_all.
Variable visit : string -> colors -> option (bool * colors).

(** [for nxt in ...] of [visit]: False at the first grey node or failed visit. *)
Fixpoint visit_deps (l : list string) (c : colors) : option (bool * colors) :=
  match l with
  | [] => Some (true, c)
  | nxt :: l' =>
      match c !! nxt with
      | None | Some BLACK => visit_deps l' c
      | Some GREY => Some (false, c)
      | Some WHITE =>
          match visit nxt c with
          | Some (true, c') => visit_deps l' c'
          | other => other
          end
      end
  end.
End visit_all.

Fixpoint visit (fuel : nat) (node : string) (c : colors) : option (bool * colors) :=
  match fuel with
  | 0 => None
  | S fuel =>
      match visit_deps (visit fuel) (deps_of deps node) (<[node := GREY]> c) with
      | Some (true, c') => Some (true, <[node := BLACK]> c')
      | other => other
      end
  end.

(** [all(visit(n) for n in deps if color[n] == WHITE)] *)
Fixpoint search (fuel : nat) (l : list string) (c : colors) : option bool :=
  match l with
  | [] => Some true
  | n :: l' =>
      if bool_decide (c !! n = Some WHITE) then
        match visit fuel n c with
        | Some (true, c') => search fuel l' c'
        | Some (false, _) => Some false
        | None => None
        end
      else search fuel l' c
  end.

Definition _is_acyclic : option bool :=
  search (S (length deps)) deps.*1 (list_to_map ((fun k => (k, WHITE)) <$> deps.*1)).
End Search.

Record Scan := {
  sc_seen : list string;
  sc_total : nat;
  sc_deps : graph;
  sc_gaps : list gap;
}.

(** An id that is neither falsy nor a string is not an id of this development; one that
    cannot be hashed raises. *)
Definition id_of (st : dict) : res (option string) :=
  let v := default JNull (dget "id" st) in
  if truthy v then
    match v with
    | JStr s => Ok (Some s)
    | JList _ | JObj _ => Err TypeError
    | _ => Err Untyped
    end
  else Ok None.

Definition dep_name (v : json) : res string :=
  match v with JStr s => Ok s | JList _ | JObj _ => Err TypeError | _ => Err Untyped end.

(** [list(st.get("depends_on") or [])] *)
Definition depends_on (st : dict) : res (list string) :=
  let! l := iter_key "depends_on" st in mapM dep_name l.

Definition position (i j : nat) : string :=
  "phase " +:+ pretty (N.of_nat (S i)) +:+ " subtask " +:+ pretty (N.of_nat (S j)).

Definition scan_subtask (i : nat) (sc : Scan) (item : nat * json) : res Scan :=
  let '(j, v) := item in
  let sc := {| sc_seen := sc_seen sc; sc_total := S (sc_total sc); sc_deps := sc_deps sc;
               sc_gaps := sc_gaps sc |} in
  match v with
  | JObj st =>
      let! sid := id_of st in
      let label := default (position i j) sid in
      let '(seen, gaps) :=
        match sid with
        | None => (sc_seen sc, [MissingId label])
        | Some s => if existsb (String.eqb s) (sc_seen sc) then (sc_seen sc, [DuplicateId s])
                    else (sc_seen sc ++ [s], [])
        end in
      let gaps := gaps ++ (if truthy_at "description" st then [] else [MissingDescription label]) in
      let! deps := match sid with
                   | Some s => let! l := depends_on st in Ok (upsert s l (sc_deps sc))
                   | None => Ok (sc_deps sc)
                   end in
      Ok {| sc_seen := seen; sc_total := sc_total sc; sc_deps := deps;
            sc_gaps := sc_gaps sc ++ gaps |}
  | _ => Ok {| sc_seen := sc_seen sc; sc_total := sc_total sc; sc_deps := sc_deps sc;
               sc_gaps := sc_gaps sc ++ [SubtaskNotObject i j] |}
  end.

Definition add_gap (g : gap) (sc : Scan) : Scan :=
  {| sc_seen := sc_seen sc; sc_total := sc_total sc; sc_deps := sc_deps sc;
     sc_gaps := sc_gaps sc ++ [g] |}.

Definition scan_phase (sc : Scan) (item : nat * json) : res Scan :=
  let '(i, v) := item in
  match v with
  | JObj phase =>
      match dget "subtasks" phase with
      | Some (JList (x :: l)) => fold_res (scan_subtask i) sc (enumerate (x :: l))
      | _ => Ok (add_gap (PhaseEmpty i) sc)
      end
  | _ => Ok (add_gap (PhaseNotObject i) sc)
  end.

Definition dependency_gaps (seen : list string) (deps : graph) : list gap :=
  deps ≫= (fun kv => kv.2 ≫= (fun dep =>
    if String.eqb dep kv.1 then [DependsOnItself kv.1]
    else if existsb (String.eqb dep) seen then [] else [UnknownDependency kv.1 dep])).

(** The list of gaps: empty when the plan is complete. *)
Definition check_plan_completeness (plan : dict) : res (list gap) :=
  let top := MissingTop <$> keep (fun f => negb (dmem f plan)) ["feature"; "workflow_type"; "phases"] in
  match dget "phases" plan with
  | Some (JList (x :: l)) =>
      let! sc := fold_res scan_phase {| sc_seen := []; sc_total := 0; sc_deps := []; sc_gaps := top |}
                   (enumerate (x :: l)) in
      Ok (sc_gaps sc ++ (if sc_total sc =? 0 then [NoSubtasks] else [])
          ++ dependency_gaps (sc_seen sc) (sc_deps sc)
          ++ match _is_acyclic (sc_deps sc) with Some true => [] | _ => [DependencyCycle] end)
  | _ => Ok (top ++ [NoPhases])
  end.

Record Verification := {
  tv_ok : bool;
  tv_signature : option sig_reason;
  tv_gaps : list gap;
  tv_approved_by : json;
  tv_approval_timestamp : json;
}.

Section Verify.
Variable hmac_sha256 : string -> string -> string.

Definition verify_trusted_plan (ring : keyring) (retired : list string) (plan : dict)
  : res Verification :=
  let! signature := verify_plan_signature hmac_sha256 ring retired plan in
  let! gaps := check_plan_completeness plan in
  let envelope := match dget APPROVAL_KEY plan with Some (JObj e) => e | _ => [] end in
  Ok {| tv_ok := match signature with None => true | Some _ => false end && negb (list_truthy gaps);
        tv_signature := signature; tv_gaps := gaps;
        tv_approved_by := default JNull (dget "approved_by" envelope);
        tv_approval_timestamp := default JNull (dget "approval_timestamp" envelope) |}.
End Verify.

(** ** Freshness of the baseline *)

Definition _DRIFT_POLICY_ENV : string := "AIFACTORY_BASELINE_DRIFT".
Definition _DRIFT_POLICIES : list string := ["blast-radius"; "reject"; "warn"; "off"].
Definition _DEFAULT_DRIFT_POLICY : string := "blast-radius".
Definition DRIFT_ABSENT : string := "absent".
Definition DRIFT_CURRENT : string := "current".
Definition DRIFT_UNKNOWN : string := "unknown".
Definition DRIFT_DRIFTED : string := "drifted".
Definition DRIFT_BLAST_RADIUS : string := "blast_radius_changed".
Definition _MAX_REASON_FILES : nat := 10.

Record BaselineDrift := {
  bd_status : string;
  bd_baseline_commit : option string;
  bd_head_commit : option string;
  bd_commits_ahead : option Z;
  bd_changed : list string;
  bd_detail : option string;
}.

Definition diverged (d : BaselineDrift) : bool :=
  String.eqb (bd_status d) DRIFT_DRIFTED || String.eqb (bd_status d) DRIFT_BLAST_RADIUS.

Definition head12 (s : option string) : string :=
  let s := default "" s in String.substring 0 12 (if is_empty s then "?" else s).

Definition drift_reason (d : BaselineDrift) : string :=
  let ahead := match bd_commits_ahead d with
               | Some n => pretty n +:+ " commit(s)" | None => "an unknown distance" end in
  let line := "plan approved against " +:+ head12 (bd_baseline_commit d) +:+ ", repo HEAD is now "
              +:+ head12 (bd_head_commit d) +:+ " (" +:+ ahead +:+ " ahead)" in
  if list_truthy (bd_changed d) then
    let shown := firstn _MAX_REASON_FILES (bd_changed d) in
    let hidden := length (bd_changed d) - length shown in
    line +:+ "; blast-radius files changed since approval: " +:+ join ", " shown
         +:+ (if hidden =? 0 then "" else " (+" +:+ pretty (N.of_nat hidden) +:+ " more)")
  else line.

Definition drift_to_provenance (d : BaselineDrift) : dict :=
  dset_if (opt_truthy (bd_detail d)) "detail" (JOpt (bd_detail d))
  (dset_if (list_truthy (bd_changed d)) "changed_blast_radius_files" (JStrs (bd_changed d))
  (dset_if (bool_decide (bd_commits_ahead d <> None)) "commits_ahead" (JOptZ (bd_commits_ahead d))
  (dset_if (opt_truthy (bd_head_commit d)) "head_commit" (JOpt (bd_head_commit d))
  (dset_if (opt_truthy (bd_baseline_commit d)) "baseline_commit" (JOpt (bd_baseline_commit d))
    [("status", JStr (bd_status d))])))).

Definition drift_policy (env : env_list) : string :=
  let raw := lower (strip (default "" (env_get _DRIFT_POLICY_ENV env))) in
  if existsb (String.eqb raw) _DRIFT_POLICIES then raw else _DEFAULT_DRIFT_POLICY.

(** A non-blank string at [key] of the block, stripped. *)
Definition commit_at (key : string) (block : json) : option string :=
  match block with
  | JObj d => match dget key d with
              | Some (JStr s) => if is_empty (strip s) then None else Some (strip s)
              | _ => None
              end
  | _ => None
  end.

Definition _plan_baseline_commit (plan : dict) : option string :=
  match commit_at "commit" (default JNull (dget "baseline" plan)) with
  | Some c => Some c
  | None => commit_at "baseline_commit" (default JNull (dget "provenance" plan))
  end.

Definition _blast_radius_files (plan : dict) : list string :=
  match dget "baseline" plan with
  | Some (JObj baseline) =>
      match dget "blast_radius" baseline with
      | Some (JObj blast) =>
          match dget "files" blast with
          | Some (JList files) =>
              omap (fun f => match f with
                             | JStr s => if is_empty (strip s) then None else Some (strip s)
                             | _ => None end) files
          | _ => []
          end
      | _ => []
      end
  | _ => []
  end.

Section Drift.
(** A read-only git command of the repository: None on any failure. *)
Variable git : list string -> option string.

Definition check_baseline_drift (plan : dict) (project_dir : option string) : BaselineDrift :=
  let verdict status head ahead changed detail baseline :=
    {| bd_status := status; bd_baseline_commit := baseline; bd_head_commit := head;
       bd_commits_ahead := ahead; bd_changed := changed; bd_detail := detail |} in
  match _plan_baseline_commit plan with
  | None => verdict DRIFT_ABSENT None None [] None None
  | Some baseline =>
      match project_dir with
      | None => verdict DRIFT_UNKNOWN None None []
                  (Some "no project directory to resolve HEAD against") (Some baseline)
      | Some dir =>
          let head := default "" (git ["rev-parse"; "HEAD"]) in
          if is_empty head then
            verdict DRIFT_UNKNOWN None None [] (Some ("could not resolve HEAD in " +:+ dir)) (Some baseline)
          else
            let resolved := if String.eqb head baseline then head
                            else default "" (git ["rev-parse"; baseline +:+ "^{commit}"]) in
            if is_empty resolved then
              verdict DRIFT_UNKNOWN (Some head) None []
                (Some ("approved commit " +:+ String.substring 0 12 baseline
                       +:+ " is not present in this clone; cannot compare")) (Some baseline)
            else if String.eqb resolved head then
              verdict DRIFT_CURRENT (Some head) (Some 0%Z) [] None (Some baseline)
            else
              let ahead := default "" (git ["rev-list"; "--count"; resolved +:+ "..HEAD"]) in
              let changed := default "" (git ["diff"; "--no-ext-diff"; "--no-textconv";
                                              "--name-only"; resolved; "HEAD"]) in
              let overlap := sort_by String.leb
                (remove_dups (keep (fun f => existsb (String.eqb f) (splitlines changed))
                                   (_blast_radius_files plan))) in
              verdict (if list_truthy overlap then DRIFT_BLAST_RADIUS else DRIFT_DRIFTED)
                (Some head)
                (if negb (is_empty ahead) && all_digits ahead then int_of_string ahead else None)
                overlap None (Some baseline)
      end
  end.
End Drift.

(** [policy] is the one given, else the one of the environment. *)
Definition baseline_drift_rejects (env : env_list) (policy : option string) (d : BaselineDrift) : bool :=
  let policy := if opt_truthy policy then default "" policy else drift_policy env in
  if String.eqb policy "off" || String.eqb policy "warn" then false
  else if String.eqb policy "reject" then diverged d
  else String.eqb (bd_status d) DRIFT_BLAST_RADIUS.

(** ** The execution profile *)

Definition _EXECUTION_TO_METADATA : list (string * string) :=
  [("runtime", "runtime"); ("model", "model"); ("phase_models", "phaseModels");
   ("phase_thinking", "phaseThinking"); ("parallel", "parallel"); ("workers", "workers");
   ("complexity", "complexity"); ("review_tier", "reviewTier"); ("skills", "selectedSkills");
   ("skip_planning", "skipPlanning"); ("autonomy_tier", "difficultyTier");
   ("budget_usd", "budgetUsd")].

Definition nonempty_text (v : option json) : option string :=
  match v with Some (JStr s) => if is_empty s then None else Some s | _ => None end.

(** The tiers of a routing block: its non-empty strings. *)
Definition tiers_of (block : option json) : dict :=
  match block with
  | Some (JObj d) => foldl (fun acc kv => match nonempty_text (Some kv.2) with
                                          | Some t => dset kv.1 (JStr t) acc | None => acc end) [] d
  | _ => []
  end.

Definition execution_profile_to_metadata (execution : json) : dict :=
  match execution with
  | JObj ex =>
      let meta := foldl (fun meta kv =>
        match dget kv.1 ex with
        | Some JNull | None => meta
        | Some v => dset kv.2 v meta
        end) [] _EXECUTION_TO_METADATA in
      let meta :=
        match dget "routing" ex with
        | Some (JObj routing) =>
            let meta := match nonempty_text (dget "pinned_model" routing) with
                        | Some m => dset "pinnedModel" (JStr m) meta | None => meta end in
            let meta := foldl (fun meta kv =>
              let tiers := tiers_of (dget kv.1 routing) in
              if list_truthy tiers then dset kv.2 (JObj tiers) meta else meta)
              meta [("requested", "routingRequested"); ("overrides", "routingOverrides")] in
            let difficulty := if truthy_at "difficulty" routing then dget "difficulty" routing
                              else dget "complexity" ex in
            match nonempty_text difficulty with
            | Some t => dset "difficultyTier" (JStr t) meta | None => meta end
        | _ => meta
        end in
      dset_if (truthy_at "phaseModels" meta || truthy_at "phaseThinking" meta)
        "isAutoProfile" (JBool true) meta
  | _ => []
  end.

(** ** Ingestion *)

(** A spec directory with the copy of the contract under context/.  A write succeeds. *)
Record ContractDir := {
  cd_spec : SpecDir;
  cd_contract : file;
}.

Definition with_spec_dir (d : ContractDir) (s : SpecDir) : ContractDir :=
  {| cd_spec := s; cd_contract := cd_contract d |}.
Definition with_requirements (d : SpecDir) (f : file) : SpecDir :=
  {| sd_spec := sd_spec d; sd_plan := sd_plan d; sd_review := sd_review d;
     sd_metadata := sd_metadata d; sd_requirements := f |}.

(** [existing.update(mapped)] *)
Definition update (existing mapped : dict) : dict :=
  foldl (fun d kv => dset kv.1 kv.2 d) existing mapped.

Definition apply_execution_profile (plan : dict) (d : SpecDir) : res dict * SpecDir :=
  let execution := default JNull (dget "execution" plan) in
  let mapped := if truthy execution then execution_profile_to_metadata execution else [] in
  match mapped with
  | [] => (Ok [], d)
  | _ =>
      match sd_metadata d with
      | Missing | Broken => (Ok mapped, with_metadata d (Json (JObj (update [] mapped))))
      | Json (JObj existing) => (Ok mapped, with_metadata d (Json (JObj (update existing mapped))))
      | Json _ => (Err AttributeError, d)
      end
  end.

(** [str(d.get(k) or dflt).strip()] *)
Definition text_or (k dflt : string) (d : dict) : res string :=
  let v := default JNull (dget k d) in
  strip <$> (if truthy v then py_str v else Ok dflt).

Definition NL : string := String (ascii_of_nat 10) "".
Definition tick : string := "`".

Definition acceptance_lines (acceptance : json) : res (list string) :=
  match acceptance with
  | JList (x :: l) =>
      let! texts := mapM (fun v => strip <$> py_str v) (x :: l) in
      Ok (["## Acceptance Criteria"; ""]
          ++ ((fun t => "- " +:+ t) <$> keep (fun t => negb (is_empty t)) texts) ++ [""])
  | _ => Ok []
  end.

Definition subtask_line (v : json) : res (list string) :=
  match v with
  | JObj st =>
      let! sid := text_or "id" "" st in
      let! desc := text_or "description" "" st in
      Ok [rstrip ("- " +:+ (if is_empty sid then "" else tick +:+ sid +:+ tick +:+ " ") +:+ desc)]
  | _ => Ok []
  end.

Definition phase_lines (v : json) : res (list string) :=
  match v with
  | JObj phase =>
      let name := default JNull (dget "name" phase) in
      let id := default JNull (dget "id" phase) in
      let! pname := if truthy name then py_str name else if truthy id then py_str id else Ok "Phase" in
      let! subtasks := iter_key "subtasks" phase in
      let! lines := mapM subtask_line subtasks in
      Ok (["### " +:+ strip pname; ""] ++ mjoin lines ++ [""])
  | _ => Ok []
  end.

Definition plan_lines (phases : json) : res (list string) :=
  match phases with
  | JList (x :: l) =>
      let! lines := mapM phase_lines (x :: l) in
      Ok (["## Implementation Plan"; ""] ++ mjoin lines)
  | _ => Ok []
  end.

(** The text of spec.md for a plan. *)
Definition spec_md (plan : dict) : res string :=
  let! feature := text_or "feature" "Trusted plan" plan in
  let! workflow := text_or "workflow_type" "feature" plan in
  let envelope := match dget APPROVAL_KEY plan with Some (JObj e) => e | _ => [] end in
  let! approved_by := text_or "approved_by" "authority" envelope in
  let! acceptance := acceptance_lines (default JNull (dget "final_acceptance" plan)) in
  let! outline := plan_lines (default JNull (dget "phases" plan)) in
  let lines :=
    ["# " +:+ feature; "";
     "> Generated from a signed trusted plan (approved by " +:+ approved_by
       +:+ "). The authoritative build artifact is implementation_plan.json."; "";
     "**Workflow type:** " +:+ workflow; ""] ++ acceptance ++ outline in
  Ok (rstrip (join NL lines) +:+ NL).

(** An existing spec.md is kept. *)
Definition _write_spec_md_from_plan (plan : dict) (d : SpecDir) : res SpecDir :=
  match sd_spec d with
  | Some _ => Ok d
  | None => let! text := spec_md plan in Ok (with_content d (Some text) (sd_plan d))
  end.

Definition _record_approval_provenance (r : Verification) (d : SpecDir) : SpecDir :=
  let data := match sd_requirements d with Json (JObj l) => l | _ => [] end in
  let provenance := match dget "provenance" data with Some (JObj p) => p | _ => [] end in
  let provenance := dset "trusted_plan" (JBool true)
    (dset "approval_timestamp" (tv_approval_timestamp r)
    (dset "approved_by" (tv_approved_by r) provenance)) in
  with_requirements d (Json (JObj (dset "provenance" (JObj provenance) data))).

Section Ingest.
Variable hmac_sha256 : string -> string -> string.
Variable md5 : string -> string.

(** Every exception is swallowed, and then nothing was saved. *)
Definition _mark_review_approved (now : string) (r : Verification) (d : SpecDir) : res SpecDir :=
  let outcome :=
    let! by_ := py_str (tv_approved_by r) in
    let! state := state_load d in
    approve md5 now ("trusted-plan:" +:+ by_) state d in
  match outcome with
  | Ok (_, d') => Ok d'
  | Err Untyped => Err Untyped
  | Err _ => Ok d
  end.

(** The directory is the one left behind, also by an exception. *)
Definition ingest_trusted_plan (ring : keyring) (retired : list string) (now : string) (plan : dict)
    (d : ContractDir) : res Verification * ContractDir :=
  match verify_trusted_plan hmac_sha256 ring retired plan with
  | Err e => (Err e, d)
  | Ok r =>
      if negb (tv_ok r) then (Ok r, d)
      else
        let s := with_content (cd_spec d) (sd_spec (cd_spec d)) (PlanDoc plan) in
        let d := {| cd_spec := s; cd_contract := Json (JObj plan) |} in
        match _write_spec_md_from_plan plan s with
        | Err e => (Err e, d)
        | Ok s =>
            let s := _record_approval_provenance r s in
            match _mark_review_approved now r s with
            | Err e => (Err e, with_spec_dir d s)
            | Ok s =>
                match apply_execution_profile plan s with
                | (Err e, s) => (Err e, with_spec_dir d s)
                | (Ok _, s) => (Ok r, with_spec_dir d s)
                end
            end
        end
  end.
End Ingest.

(** ** The search for cycles

    The dependency graph among the known ids, and its search: every black node is
    well-founded in the graph, every grey node reaches the node being visited. *)
Section SearchProof.
Variable deps : graph.

Definition edge (a b : string) : Prop := b ∈ deps_of deps a /\ b ∈ deps.*1.
Definition cyclic : Prop := exists k, tc edge k k.
Definition grounded (k : string) : Prop := Acc (fun b a => edge a b) k.

Definition whites (c : colors) : nat := countb (fun k => bool_decide (c !! k = Some WHITE)) deps.*1.

Record search_inv (c : colors) : Prop := {
  si_keys : forall k, is_Some (c !! k) <-> k ∈ deps.*1;
  si_black : forall k, c !! k = Some BLACK -> grounded k;
}.

Definition reaches (c : colors) (node : string) : Prop :=
  forall g, c !! g = Some GREY -> rtc edge g node.

(** What a finished piece of the search leaves. *)
Record advances (c c' : colors) : Prop := {
  ad_grey : forall k, c' !! k = Some GREY <-> c !! k = Some GREY;
  ad_black : forall k, c !! k = Some BLACK -> c' !! k = Some BLACK;
  ad_whites : whites c' <= whites c;
}.

Definition visit_ok (n : nat) (vf : string -> colors -> option (bool * colors)) : Prop :=
  forall node c, search_inv c -> c !! node = Some WHITE -> reaches c node -> whites c <= n ->
  match vf node c with
  | Some (true, c') => search_inv c' /\ advances c c' /\ c' !! node = Some BLACK
  | Some (false, _) => cyclic
  | None => False
  end.

Lemma advances_refl c : advances c c.
Proof. done. Qed.

Lemma advances_trans a b c : advances a b -> advances b c -> advances a c.
Proof.
  intros [G1 B1 W1] [G2 B2 W2]. split; [|auto|lia]. intros k. by rewrite G2.
Qed.

Lemma reaches_advances a b node : advances a b -> reaches a node -> reaches b node.
Proof. intros [G _ _] R g Hg. apply R, G, Hg. Qed.

Lemma visit_deps_spec n vf p l c :
  visit_ok n vf -> search_inv c -> c !! p = Some GREY -> reaches c p -> whites c <= n ->
  (forall x, x ∈ l -> x ∈ deps_of deps p) ->
  match visit_deps vf l c with
  | Some (true, c') => search_inv c' /\ advances c c'
      /\ forall x, x ∈ l -> x ∈ deps.*1 -> c' !! x = Some BLACK
  | Some (false, _) => cyclic
  | None => False
  end.
Proof.
  intros V. revert c. induction l as [|x l IH]; intros c I P R W Hl; cbn [visit_deps].
  { split_and!; [done | done | by intros x ?%elem_of_nil]. }
  assert (Hx : x ∈ deps_of deps p) by apply Hl, list_elem_of_here.
  assert (Hl' : forall y, y ∈ l -> y ∈ deps_of deps p) by (intros; apply Hl; by apply list_elem_of_further).
  destruct (c !! x) as [[]|] eqn:Ex.
  - assert (E : edge p x) by (split; [done | apply (si_keys _ I); eauto]).
    specialize (V x c I Ex). destruct (vf x c) as [[[] c']|].
    + destruct V as (I' & A & Bx); [|done|].
      { intros g Hg. eapply rtc_r; [by apply R | done]. }
      specialize (IH c' I'). destruct (visit_deps vf l c') as [[[] c'']|].
      * destruct IH as (I'' & A' & B); [by apply A | by eapply reaches_advances | destruct A; lia | done |].
        split_and!; [done | by eapply advances_trans |].
        intros y [->|Hy]%elem_of_cons Ky; [by apply (ad_black _ _ A') | by apply B].
      * apply IH; [by apply A | by eapply reaches_advances | destruct A; lia | done].
      * apply IH; [by apply A | by eapply reaches_advances | destruct A; lia | done].
    + apply V; [|done]. intros g Hg. eapply rtc_r; [by apply R | done].
    + apply V; [|done]. intros g Hg. eapply rtc_r; [by apply R | done].
  - exists x. eapply tc_rtc_l; [by apply R|]. apply tc_once. split; [done|].
    apply (si_keys _ I). eauto.
  - specialize (IH c I P R W Hl'). destruct (visit_deps vf l c) as [[[] c'']|]; [|done..].
    destruct IH as (I'' & A' & B). split_and!; [done..|].
    intros y [->|Hy]%elem_of_cons Ky; [by apply (ad_black _ _ A') | by apply B].
  - specialize (IH c I P R W Hl'). destruct (visit_deps vf l c) as [[[] c'']|]; [|done..].
    destruct IH as (I'' & A' & B). split_and!; [done..|].
    intros y [->|Hy]%elem_of_cons Ky; [|by apply B].
    apply (si_keys _ I) in Ky as [? Ky]. congruence.
Qed.

Lemma white_nodes_grey c node : search_inv c -> c !! node = Some WHITE ->
  S (whites (<[node := GREY]> c)) <= whites c.
Proof.
  intros I Hw. unfold whites. apply (countb_lt _ _ _ node).
  - intros x. rewrite !bool_decide_eq_true. destruct (decide (x = node)) as [->|]; [done|].
    by rewrite lookup_insert_ne.
  - apply (si_keys _ I). eauto.
  - by rewrite bool_decide_eq_true.
  - rewrite bool_decide_eq_false, lookup_insert_eq. done.
Qed.

Lemma whites_black c node : whites (<[node := BLACK]> c) <= whites c.
Proof.
  unfold whites. apply countb_mono. intros x. rewrite !bool_decide_eq_true.
  destruct (decide (x = node)) as [->|]; [by rewrite lookup_insert_eq|].
  by rewrite lookup_insert_ne.
Qed.

Lemma inv_grey c node : search_inv c -> is_Some (c !! node) -> search_inv (<[node := GREY]> c).
Proof.
  intros [K B] Hn. split.
  - intros k. destruct (decide (k = node)) as [->|].
    + rewrite lookup_insert_eq, <- K. by split.
    + by rewrite lookup_insert_ne.
  - intros k. destruct (decide (k = node)) as [->|]; [by rewrite lookup_insert_eq|].
    rewrite lookup_insert_ne by done. apply B.
Qed.

(** A node all of whose successors are black becomes black. *)
Lemma finish_node c c' node :
  search_inv c -> c !! node = Some WHITE -> search_inv c' -> advances (<[node := GREY]> c) c' ->
  (forall x, x ∈ deps_of deps node -> x ∈ deps.*1 -> c' !! x = Some BLACK) ->
  search_inv (<[node := BLACK]> c') /\ advances c (<[node := BLACK]> c').
Proof.
  intros I Hw I' A B. pose proof (white_nodes_grey c node I Hw) as L. split; split.
  - intros k. destruct (decide (k = node)) as [->|].
    + rewrite lookup_insert_eq, <- (si_keys _ I). split; eauto.
    + rewrite lookup_insert_ne by done. apply (si_keys _ I').
  - intros k. destruct (decide (k = node)) as [->|].
    + intros _. constructor. intros y [Hy Ky]. by apply (si_black _ I'), B.
    + rewrite lookup_insert_ne by done. apply (si_black _ I').
  - intros k. destruct (decide (k = node)) as [->|].
    + rewrite lookup_insert_eq, Hw. done.
    + rewrite lookup_insert_ne by done. rewrite (ad_grey _ _ A), lookup_insert_ne; done.
  - intros k Hk. destruct (decide (k = node)) as [->|]; [congruence|].
    rewrite lookup_insert_ne by done. apply (ad_black _ _ A). by rewrite lookup_insert_ne.
  - pose proof (whites_black c' node). destruct A. lia.
Qed.

Lemma visit_spec fuel : visit_ok fuel (visit deps fuel).
Proof.
  induction fuel as [|fuel IH]; intros node c I Hw R L.
  { pose proof (white_nodes_grey c node I Hw). lia. }
  cbn [visit]. pose proof (white_nodes_grey c node I Hw) as Lg.
  assert (R' : reaches (<[node := GREY]> c) node).
  { intros g. destruct (decide (g = node)) as [->|]; [intros _; apply rtc_refl|].
    rewrite lookup_insert_ne by done. apply R. }
  pose proof (visit_deps_spec fuel (visit deps fuel) node (deps_of deps node) (<[node := GREY]> c) IH)
    as V.
  destruct (visit_deps _ _ _) as [[[] c']|].
  - destruct V as (I' & A & B); [apply inv_grey; eauto | by rewrite lookup_insert_eq | done | lia | done |].
    destruct (finish_node c c' node I Hw I' A B) as [I'' A'].
    split_and!; [done | done | by rewrite lookup_insert_eq].
  - apply V; [apply inv_grey; eauto | by rewrite lookup_insert_eq | done | lia | done].
  - apply V; [apply inv_grey; eauto | by rewrite lookup_insert_eq | done | lia | done].
Qed.

Definition no_grey (c : colors) : Prop := forall k, c !! k <> Some GREY.

Lemma search_spec fuel l c :
  search_inv c -> no_grey c -> whites c <= fuel -> (forall x, x ∈ l -> x ∈ deps.*1) ->
  match search deps fuel l c with
  | Some true => forall x, x ∈ l -> grounded x
  | Some false => cyclic
  | None => False
  end.
Proof.
  revert c. induction l as [|x l IH]; intros c I N L K; cbn [search].
  { by intros x ?%elem_of_nil. }
  assert (K' : forall y, y ∈ l -> y ∈ deps.*1) by (intros; apply K; by apply list_elem_of_further).
  assert (Kx : x ∈ deps.*1) by apply K, list_elem_of_here.
  case_bool_decide as Hw.
  - pose proof (visit_spec fuel x c I Hw) as V. destruct (visit deps fuel x c) as [[[] c']|].
    + destruct V as (I' & A & B); [by intros g ?%N | done |].
      specialize (IH c' I'). destruct (search deps fuel l c') as [[]|].
      * intros y [->|Hy]%elem_of_cons; [by apply (si_black _ I')|].
        apply IH; [|destruct A; lia|done..]. intros k Hk. by apply (ad_grey _ _ A), N in Hk.
      * apply IH; [|destruct A; lia|done..]. intros k Hk. by apply (ad_grey _ _ A), N in Hk.
      * apply IH; [|destruct A; lia|done..]. intros k Hk. by apply (ad_grey _ _ A), N in Hk.
    + apply V; [by intros g ?%N | done].
    + apply V; [by intros g ?%N | done].
  - specialize (IH c I N L K'). destruct (search deps fuel l c) as [[]|]; [|done..].
    intros y [->|Hy]%elem_of_cons; [|auto]. apply (si_keys _ I) in Kx as [[] Hx].
    + done.
    + by apply N in Hx.
    + by apply (si_black _ I).
Qed.

Lemma white_map l k : (list_to_map ((fun k => (k, WHITE)) <$> l) : colors) !! k
  = if bool_decide (k ∈ l) then Some WHITE else None.
Proof.
  induction l as [|x l IH]; [done|]. cbn. destruct (decide (k = x)) as [->|Hn].
  - rewrite lookup_insert_eq, bool_decide_eq_true_2; [done | apply list_elem_of_here].
  - rewrite lookup_insert_ne, IH by done.
    rewrite (bool_decide_ext (k ∈ x :: l) (k ∈ l)); [done|]. rewrite elem_of_cons. naive_solver.
Qed.

Lemma grounded_no_loop k : grounded k -> ~ tc edge k k.
Proof.
  induction 1 as [k _ IH]. intros T. inversion T as [? ? E|? y ? E T']; subst.
  - by apply (IH k E).
  - apply (IH y E). eapply tc_r; eauto.
Qed.

(** The search always answers, and True exactly when no id depends on itself through a
    chain of known ids. *)
Lemma acyclic_spec :
  (_is_acyclic deps = Some true /\ ~ cyclic) \/ (_is_acyclic deps = Some false /\ cyclic).
Proof.
  unfold _is_acyclic. set (c := list_to_map _ : colors).
  assert (Hc : forall k, c !! k = if bool_decide (k ∈ deps.*1) then Some WHITE else None)
    by apply white_map.
  assert (P : match search deps (S (length deps)) deps.*1 c with
              | Some true => forall x, x ∈ deps.*1 -> grounded x
              | Some false => cyclic | None => False end).
  { apply search_spec; [split| | |done].
    - intros k. rewrite Hc. case_bool_decide; split; try done; by intros [].
    - intros k. rewrite Hc. by case_bool_decide.
    - intros k. rewrite Hc. by case_bool_decide.
    - unfold whites. etrans; [apply countb_le|]. rewrite length_fmap. lia. }
  destruct (search deps (S (length deps)) deps.*1 c) as [[]|]; [left|by right|done].
  split; [done|]. intros [k T]. eapply grounded_no_loop; [|exact T]. apply P.
  clear -T. induction T as [? ? [_ K]|? ? ? _ _ K]; done.
Qed.
End SearchProof.

(** ** Signatures *)

Lemma core_dset v plan : _plan_core (dset APPROVAL_KEY v plan) = _plan_core plan.
Proof.
  unfold _plan_core, keep. induction plan as [|[k w] plan IH]; [done|]. cbn [dset].
  destruct (String.eqb_spec APPROVAL_KEY k) as [<-|N].
  - cbn [List.filter fst]. by rewrite String.eqb_refl.
  - cbn [List.filter fst]. rewrite IH. done.
Qed.

Lemma signing_bytes_dset v plan by_ ts ver kid :
  _signing_bytes (dset APPROVAL_KEY v plan) by_ ts ver kid = _signing_bytes plan by_ ts ver kid.
Proof. unfold _signing_bytes. by rewrite core_dset. Qed.

Lemma hex_ascii s : all_hex s = true -> ascii_only s = true.
Proof.
  induction s as [|c s IH]; [done|]. cbn [all_hex ascii_only].
  intros [H1 H2]%andb_true_iff. rewrite (IH H2), andb_true_r. revert H1.
  destruct c as [[] [] [] [] [] [] [] []]; vm_compute; done.
Qed.

(** The signed text decides the content of the plan. *)
Lemma signing_content p p' b t v k b' t' v' k' :
  _signing_bytes p b t v k = _signing_bytes p' b' t' v' k' ->
  canon (JObj (_plan_core p)) = canon (JObj (_plan_core p')).
Proof.
  unfold _signing_bytes, _canonical. cbn [app]. unfold join. cbn [String.concat].
  intros E. apply enc_prefix_inj in E as [E _]; [exact E|done..].
Qed.

Section SignatureProof.
Variable hmac_sha256 : string -> string -> string.

(** The key a keyring holds for an authority and a key id that is not retired. *)
Definition active_key (ring : keyring) (retired : list string) (approved_by : string)
    (kid : option string) (key : string) : Prop :=
  let authority := lower (strip approved_by) in
  is_empty key = false
  /\ match kid with
     | Some k => ring !! keyed authority (lower (strip k)) = Some key
                 /\ (lower (strip k) ∉ retired) /\ (keyed authority (lower (strip k)) ∉ retired)
     | None => ring !! authority = Some key
     end.

Lemma not_listed x l : existsb (String.eqb x) l = false <-> x ∉ l.
Proof.
  rewrite existsb_false. split.
  - intros H Hx. specialize (H x Hx). by rewrite String.eqb_refl in H.
  - intros H y Hy. apply String.eqb_neq. by intros ->.
Qed.

Lemma listed x l : existsb (String.eqb x) l = true <-> x ∈ l.
Proof.
  rewrite existsb_spec. split.
  - by intros (y & Hy & <-%String.eqb_eq).
  - intros H. exists x. by rewrite String.eqb_refl.
Qed.

Lemma select_active ring retired by_ kid key :
  _select_verification_key ring retired (lower (strip by_)) kid = inl key
  <-> active_key ring retired by_ kid key.
Proof.
  unfold _select_verification_key, active_key. destruct kid as [k|].
  - destruct (existsb _ retired) eqn:E1; cbn [orb].
    { apply listed in E1. split; [done|]. by intros (_ & _ & ? & _). }
    destruct (existsb (String.eqb (keyed _ _)) retired) eqn:E2.
    { apply listed in E2. split; [done|]. by intros (_ & _ & _ & ?). }
    apply not_listed in E1, E2. destruct (ring !! _) as [key'|]; [|split; [done | by intros (_ & ? & _)]].
    destruct (is_empty key') eqn:E.
    + split; [done|]. intros (K & [= ->] & _). congruence.
    + split; [by intros [= <-] | by intros (_ & [= <-] & _)].
  - destruct (ring !! _) as [key'|]; [|split; [done | by intros (_ & ?)]].
    destruct (is_empty key') eqn:E.
    + split; [done|]. intros (K & [= ->]). congruence.
    + split; [by intros [= <-] | by intros (_ & [= <-])].
Qed.

(** What a verified plan carries. *)
Record signed_by (ring : keyring) (retired : list string) (plan : dict) (key : string)
    (by_ ts ver : string) (kid : option string) (signature : string) : Prop := {
  sb_version : ver ∈ SUPPORTED_CONTRACT_VERSIONS;
  sb_key : active_key ring retired by_ kid key;
  sb_digest : hmac_sha256 key (_signing_bytes plan by_ ts ver kid) = signature;
  sb_envelope : exists envelope, dget APPROVAL_KEY plan = Some (JObj envelope)
    /\ field "approved_by" envelope = Ok by_ /\ field "approval_timestamp" envelope = Ok ts
    /\ field "plan_contract_version" envelope = Ok ver /\ kid_of envelope = Ok kid
    /\ field "signature" envelope = Ok signature;
}.

Lemma verify_inv ring retired plan :
  verify_plan_signature hmac_sha256 ring retired plan = Ok None ->
  exists key by_ ts ver kid signature, signed_by ring retired plan key by_ ts ver kid signature.
Proof.
  unfold verify_plan_signature. destruct (dget APPROVAL_KEY plan) as [[| | | | |envelope]|] eqn:Ee;
    try done.
  destruct (keep _ _ : list string); [|done]. intros E. res_inv.
  destruct (negb (existsb (String.eqb v) SUPPORTED_CONTRACT_VERSIONS)) eqn:Ev; [done|]. res_inv.
  destruct (_select_verification_key _ _ _ _) as [key|] eqn:Ek; [|done].
  apply select_active in Ek. res_inv. bprop. apply listed in Ev.
  case_match; [|done]. subst. unfold compare_digest in *.
  destruct (ascii_only _ && _); [|done]. res_inv.
  exists key, v0, v2, v, v1, v3. split; eauto 10. by apply String.eqb_eq.
Qed.
End SignatureProof.

Lemma field_str k v d : dget k d = Some (JStr v) -> field k d = Ok v.
Proof. intros E. unfold field. by rewrite E. Qed.

Lemma dget_sign hmac plan key by_ ts ver kid k :
  dget k (sign_plan hmac plan key by_ ts ver kid)
  = (if String.eqb k "kid" then (fun x => JStr x) <$> truthy_opt kid else
     if String.eqb k "approved_by" then Some (JStr by_)
     else if String.eqb k "approval_timestamp" then Some (JStr ts)
     else if String.eqb k "plan_contract_version" then Some (JStr ver)
     else if String.eqb k "signature"
     then Some (JStr (hmac key (_signing_bytes plan by_ ts ver kid))) else None).
Proof.
  unfold sign_plan. destruct kid as [[|c s]|]; cbn [is_empty truthy_opt fmap option_fmap option_map].
  all: rewrite ?dget_dset; cbn [dget].
  all: destruct (String.eqb_spec k "kid") as [->|]; try done.
Qed.

(** ** The checklist

    A subtask that passes has an id, a description and dependencies that are names. *)
Definition good_subtask (v : json) (es : graph) : Prop :=
  exists st s l, v = JObj st /\ id_of st = Ok (Some s) /\ depends_on st = Ok l
                 /\ truthy_at "description" st = true /\ es = [(s, l)].

Definition good_phase (v : json) (es : graph) : Prop :=
  exists phase x l ess, v = JObj phase /\ dget "subtasks" phase = Some (JList (x :: l))
    /\ Forall2 good_subtask (x :: l) ess /\ es = mjoin ess.

(** The subtasks of a plan with their dependencies, in order. *)
Definition plan_graph (plan : dict) (g : graph) : Prop :=
  exists x l ess, dget "phases" plan = Some (JList (x :: l))
    /\ Forall2 good_phase (x :: l) ess /\ g = mjoin ess.

(** A scan without gaps knows exactly the entries [g]. *)
Record clean (sc : Scan) (g : graph) : Prop := {
  cl_seen : sc_seen sc = g.*1;
  cl_total : sc_total sc = length g;
  cl_deps : sc_deps sc = g;
  cl_gaps : sc_gaps sc = [];
}.

Lemma upsert_new s l (g : graph) : (s ∉ g.*1) -> upsert s l g = g ++ [(s, l)].
Proof.
  induction g as [|[k v] g IH]; [done|]. cbn [upsert fmap list_fmap fst].
  rewrite not_elem_of_cons. intros [N1 N2]. destruct (String.eqb_spec s k); [done|].
  by rewrite IH.
Qed.

(** A step that adds no gap takes a good item, and a good item adds no gap. *)
Record clean_step {B} (step : Scan -> B -> res Scan) (good : B -> graph -> Prop) : Prop := {
  cs_gaps : forall sc x sc', step sc x = Ok sc' -> sc_gaps sc' = [] -> sc_gaps sc = [];
  cs_only : forall sc g x sc', clean sc g -> NoDup g.*1 -> step sc x = Ok sc' -> sc_gaps sc' = [] ->
    exists es, good x es /\ NoDup (g ++ es).*1 /\ clean sc' (g ++ es);
  cs_every : forall sc g x es, clean sc g -> good x es -> NoDup (g ++ es).*1 ->
    exists sc', step sc x = Ok sc' /\ clean sc' (g ++ es);
}.

Lemma nodup_keys_l (g es : graph) : NoDup (g ++ es).*1 -> NoDup g.*1.
Proof. rewrite fmap_app. by intros [? _]%NoDup_app. Qed.

Lemma clean_fold {B} (step : Scan -> B -> res Scan) good :
  clean_step step good ->
  clean_step (fold_res step) (fun l es => exists ess, Forall2 good l ess /\ es = mjoin ess).
Proof.
  intros [G O E]. split.
  - intros sc l. revert sc. induction l as [|x l IH]; intros sc sc' F N; [by injection F as ->|].
    cbn in F. destruct (step sc x) as [sc1|] eqn:S; [|done]. eapply G; [exact S|]. by eapply IH.
  - intros sc g l. revert sc g. induction l as [|x l IH]; intros sc g sc' C D F N.
    + injection F as <-. exists []. rewrite app_nil_r. split_and!; [by exists [] | done | done].
    + cbn in F. destruct (step sc x) as [sc1|] eqn:S; [|done].
      assert (N1 : sc_gaps sc1 = []).
      { clear -F N G. revert sc1 F. induction l as [|y l IH]; intros sc1 F; [by injection F as ->|].
        cbn in F. destruct (step sc1 y) eqn:S; [|done]. eapply G; [exact S|]. by apply IH. }
      destruct (O sc g x sc1 C D S N1) as (es & Gx & D1 & C1).
      destruct (IH sc1 (g ++ es) sc' C1 D1 F N) as (? & (ess & Fs & ->) & D2 & C2).
      exists (es ++ mjoin ess). rewrite app_assoc. split_and!; [|done|done].
      exists (es :: ess). by split; [constructor|].
  - intros sc g l. revert sc g. induction l as [|x l IH]; intros sc g es C (ess & F & ->) D.
    + inversion F; subst. exists sc. by rewrite app_nil_r.
    + inversion F as [|? es1 ? ess1 G1 F1]; subst. cbn [mjoin list_join] in D |- *.
      rewrite app_assoc in D |- *.
      destruct (E sc g x es1 C G1 (nodup_keys_l _ _ D)) as (sc1 & S & C1).
      cbn [fold_res]. rewrite S. apply IH; [done | by exists ess1 | done].
Qed.

Lemma scan_subtask_step i : clean_step (scan_subtask i) (fun jv es => good_subtask jv.2 es).
Proof.
  split.
  - intros sc [j v] sc' S N. destruct v as [| | | | |st]; cbn in S;
      try (injection S as <-; by apply app_nil in N as [_ N]).
    apply bind_Ok_inv in S as ([s|] & Hs & S); cbn in S;
      [destruct (existsb (String.eqb s) (sc_seen sc)); cbn in S; apply bind_Ok_inv in S as (d & _ & S)|];
      injection S as <-; by apply app_nil in N as [N _].
  - intros sc g [j v] sc' [Cs Ct Cd Cg] D S N. destruct v as [| | | | |st]; cbn in S;
      try (injection S as <-; by apply app_nil in N as [_ N]).
    apply bind_Ok_inv in S as ([s|] & Hs & S).
    + destruct (existsb (String.eqb s) (sc_seen sc)) eqn:Es; cbn in S;
        apply bind_Ok_inv in S as (d & Hd & S); injection S as <-; cbn in N.
      { by apply app_nil in N as [_ N]. }
      apply bind_Ok_inv in Hd as (l & Hl & Hd). injection Hd as <-.
      destruct (truthy_at "description" st) eqn:T; [|by apply app_nil in N as [_ N]].
      apply not_listed in Es. rewrite Cs in Es. exists [(s, l)].
      split; [by exists st, s, l|].
      assert (D' : NoDup (g ++ [(s, l)]).*1).
      { rewrite fmap_app. apply NoDup_app. split_and!; [done | set_solver | apply NoDup_singleton]. }
      split; [done|]. split; cbn.
      * by rewrite Cs, fmap_app.
      * rewrite Ct, length_app. cbn. lia.
      * by rewrite Cd, upsert_new.
      * by rewrite Cg.
    + cbn in S. injection S as <-. cbn in N. by apply app_nil in N as [_ N].
  - intros sc g [j v] es [Cs Ct Cd Cg] (st & s & l & E & Hs & Hl & T & ->) D. cbn in E. subst v.
    assert (Ns : s ∉ g.*1).
    { rewrite fmap_app in D. apply NoDup_app in D as (_ & D & _). intros Hx. apply (D s Hx).
      apply list_elem_of_here. }
    assert (Es : existsb (String.eqb s) (sc_seen sc) = false) by (rewrite Cs; by apply not_listed).
    unfold scan_subtask. rewrite Hs, T. cbn. rewrite Es, Hl. cbn. eexists. split; [reflexivity|].
    split; cbn.
    + by rewrite Cs, fmap_app.
    + rewrite Ct, length_app. cbn. lia.
    + by rewrite Cd, upsert_new.
    + by rewrite Cg.
Qed.

Lemma enumerate_snd {A} (l : list A) : (enumerate l).*2 = l.
Proof.
  unfold enumerate. apply snd_zip. by rewrite length_seq.
Qed.

Lemma forall2_enumerate {A B} (P : A -> B -> Prop) (l : list A) (k : list B) :
  Forall2 (fun jv b => P jv.2 b) (enumerate l) k <-> Forall2 P l k.
Proof. rewrite <- (enumerate_snd l) at 2. by rewrite Forall2_fmap_l. Qed.

Lemma scan_phase_step : clean_step scan_phase (fun iv es => good_phase iv.2 es).
Proof.
  assert (Sub : forall i, clean_step (fold_res (scan_subtask i)) _) by
    (intros; apply clean_fold, scan_subtask_step).
  split.
  - intros sc [i v] sc' S N. unfold scan_phase in S. destruct v as [| | | | |phase]; cbn match in S;
      try (injection S as <-; by apply app_nil in N as [_ N]).
    destruct (dget "subtasks" phase) as [[| | | |[|x l]|]|];
      try (injection S as <-; by apply app_nil in N as [_ N]).
    eapply (cs_gaps _ _ (Sub i)); [exact S | exact N].
  - intros sc g [i v] sc' C D S N. unfold scan_phase in S. destruct v as [| | | | |phase]; cbn match in S;
      try (injection S as <-; by apply app_nil in N as [_ N]).
    destruct (dget "subtasks" phase) as [[| | | |[|x l]|]|] eqn:Ep;
      try (injection S as <-; by apply app_nil in N as [_ N]).
    destruct (cs_only _ _ (Sub i) sc g _ sc' C D S N) as (es & (ess & F & ->) & D' & C').
    exists (mjoin ess). split_and!; [|done|done]. exists phase, x, l, ess. split_and!; [done..| |done].
    by apply (forall2_enumerate good_subtask).
  - intros sc g [i v] es C (phase & x & l & ess & E & Ep & F & ->) D. cbn in E. subst v.
    unfold scan_phase. rewrite Ep. apply (cs_every _ _ (Sub i)); [done| |done].
    exists ess. split; [|done]. by apply (forall2_enumerate good_subtask).
Qed.

Lemma dependency_gaps_nil seen g :
  dependency_gaps seen g = [] <->
  forall a l b, (a, l) ∈ g -> b ∈ l -> b <> a /\ b ∈ seen.
Proof.
  unfold dependency_gaps. split.
  - intros E a l b Ha Hb.
    assert (N : forall x, x ∉ (if String.eqb b a then [DependsOnItself a]
                 else if existsb (String.eqb b) seen then [] else [UnknownDependency a b])).
    { intros x Hx. apply (not_elem_of_nil x). rewrite <- E. apply list_elem_of_bind.
      exists (a, l). split; [|done]. apply list_elem_of_bind. by exists b. }
    destruct (String.eqb_spec b a); [destruct (N _ (list_elem_of_here _ _))|].
    destruct (existsb _ seen) eqn:Es; [|destruct (N _ (list_elem_of_here _ _))].
    split; [done | by apply listed].
  - intros H.
    apply elem_of_nil_inv. intros x Hx. apply list_elem_of_bind in Hx as ([a l] & Hx & Ha).
    apply list_elem_of_bind in Hx as (b & Hx & Hb). destruct (H a l b Ha Hb) as [N S]. cbn in Hx.
    apply String.eqb_neq in N. apply listed in S. rewrite N, S in Hx. by apply elem_of_nil in Hx.
Qed.

Lemma deps_of_elem g a l : NoDup g.*1 -> (a, l) ∈ g -> deps_of g a = l.
Proof.
  induction g as [|[k v] g IH]; intros D H; [by apply elem_of_nil in H|]. cbn in D.
  apply NoDup_cons in D as [D1 D2]. cbn. apply elem_of_cons in H as [[= -> ->]|H].
  - by rewrite String.eqb_refl.
  - destruct (String.eqb_spec a k) as [->|]; [|auto]. destruct D1. apply list_elem_of_fmap.
    by exists (k, l).
Qed.
(** ** Ingestion: what each step leaves in the directory *)

Lemma spec_md_keeps plan d d' :
  _write_spec_md_from_plan plan d = Ok d' ->
  sd_plan d' = sd_plan d /\ sd_review d' = sd_review d.
Proof.
  unfold _write_spec_md_from_plan. destruct (sd_spec d); [by intros [= <-]|].
  intros E. res_inv. done.
Qed.

Lemma provenance_recorded r d :
  exists requirements provenance,
    sd_requirements (_record_approval_provenance r d) = Json (JObj requirements)
    /\ dget "provenance" requirements = Some (JObj provenance)
    /\ dget "trusted_plan" provenance = Some (JBool true).
Proof.
  unfold _record_approval_provenance. cbn. eexists _, _. split; [done|].
  rewrite dget_dset. cbn. split; [done|]. by rewrite dget_dset.
Qed.

(** The approval is good for the directory as it stands, when the review file was readable. *)
Lemma review_marked md5 now r s by_ st s' :
  (forall x, hex_string (md5 x) = true) ->
  py_str (tv_approved_by r) = Ok by_ -> state_load s = Ok st ->
  _mark_review_approved md5 now r s = Ok s' ->
  (exists st', state_load s' = Ok st' /\ is_approval_valid md5 st' s' = true)
  /\ sd_plan s' = sd_plan s /\ sd_spec s' = sd_spec s /\ sd_requirements s' = sd_requirements s.
Proof.
  intros Hx Hb Hs E. unfold _mark_review_approved in E. rewrite Hb, Hs in E.
  cbn [mbind res_bind] in E.
  destruct (approve md5 now ("trusted-plan:" +:+ by_) st s) as [[st1 s1]|e] eqn:A.
  - injection E as <-. unfold approve in A. apply bind_Ok_inv in A as (saved & _ & A).
    injection A as <- <-. split; [|done]. eexists. split; [apply state_reload|].
    unfold is_approval_valid. cbn [rs_approved rs_spec_hash negb].
    rewrite hash_not_empty by done. apply orb_true_iff. left. apply String.eqb_eq. done.
  - exfalso. unfold approve in A. destruct (_compute_saved_spec_hash md5 s) as [|e'] eqn:H; [done|].
    cbn in A. injection A as ->. unfold _compute_saved_spec_hash in H.
    repeat case_match; by simplify_eq.
Qed.

Lemma profile_keeps plan s r s' :
  apply_execution_profile plan s = (r, s') ->
  sd_plan s' = sd_plan s /\ sd_spec s' = sd_spec s /\ sd_review s' = sd_review s
  /\ sd_requirements s' = sd_requirements s.
Proof.
  unfold apply_execution_profile. intros E. repeat case_match; by simplify_eq.
Qed.

Lemma approval_valid_same md5 st s s' :
  sd_plan s' = sd_plan s -> sd_spec s' = sd_spec s ->
  is_approval_valid md5 st s' = is_approval_valid md5 st s.
Proof.
  intros Hp Hs. unfold is_approval_valid, _compute_spec_hash, _combine, _read_plan, plan_text.
  by rewrite Hp, Hs.
Qed.

(** ** Properties *)

(** What an authority signs, verifies.  A plan that carries the envelope
    [sign_plan] made for it is accepted when the verifier holds the signer's key under the
    signer's name and key id, the key id is not retired and the contract version is one of
    those supported. *)
Theorem signed_plan_verifies (hmac : string -> string -> string) (ring : keyring)
    (retired : list string) (plan : dict) (key by_ ts ver : string) (kid : option string) :
  (forall k m, hex_string (hmac k m) = true) ->
  is_empty by_ = false -> is_empty ts = false -> ver ∈ SUPPORTED_CONTRACT_VERSIONS ->
  kid <> Some "" -> active_key ring retired by_ kid key ->
  verify_plan_signature hmac ring retired
    (dset APPROVAL_KEY (JObj (sign_plan hmac plan key by_ ts ver kid)) plan) = Ok None.
Proof.
  intros Hx Hb Ht Hv Hk Ha. unfold verify_plan_signature. rewrite dget_dset, String.eqb_refl.
  set (envelope := sign_plan _ _ _ _ _ _ _).
  assert (G : forall k, dget k envelope = _) by apply dget_sign.
  set (signature := hmac key (_signing_bytes plan by_ ts ver kid)) in *.
  assert (Sx : is_empty signature = false /\ ascii_only signature = true).
  { specialize (Hx key (_signing_bytes plan by_ ts ver kid)). fold signature in Hx.
    unfold hex_string in Hx. bprop. split; [done | by apply hex_ascii]. }
  destruct Sx as [Sx1 Sx2].
  assert (Vne : is_empty ver = false).
  { repeat (apply elem_of_cons in Hv as [->|Hv]; [done|]). by apply elem_of_nil in Hv. }
  assert (M : keep (fun f => negb (truthy_at f envelope)) _ENVELOPE_FIELDS = []).
  { unfold keep, truthy_at. cbn [List.filter _ENVELOPE_FIELDS]. rewrite !G. cbn.
    by rewrite Hb, Ht, Vne, Sx1. }
  rewrite M, (field_str "plan_contract_version" ver), (field_str "approved_by" by_),
    (field_str "approval_timestamp" ts), (field_str "signature" signature) by by rewrite G.
  assert (K : kid_of envelope = Ok kid).
  { unfold kid_of. rewrite G. cbn. destruct kid as [[|c s]|]; [done| |done]. done. }
  cbn [mbind res_bind]. apply listed in Hv. rewrite Hv, K. cbn [negb mbind res_bind].
  apply select_active in Ha. rewrite Ha. cbn [mbind res_bind].
  rewrite signing_bytes_dset. fold signature. unfold compare_digest.
  rewrite Sx2. cbn. by rewrite String.eqb_refl.
Qed.

(** C13 (safety): a signature binds the plan.  A plan that verifies carries the digest of
    its own text under a key the keyring holds for the authority and key id it names, and
    that key id is not retired.  If its signature is one that was made for another plan, the
    two plans are the same up to the order of keys (the envelope apart), or the digest has a
    collision. *)
Theorem signature_binds_the_plan (hmac : string -> string -> string) (ring : keyring)
    (retired : list string) (plan plan' : dict) (key by_ ts ver : string) (kid : option string)
    (envelope' : dict) :
  verify_plan_signature hmac ring retired plan' = Ok None ->
  dget APPROVAL_KEY plan' = Some (JObj envelope') ->
  dget "signature" envelope' = dget "signature" (sign_plan hmac plan key by_ ts ver kid) ->
  exists key' by' ts' ver' kid',
    active_key ring retired by' kid' key' /\ field "approved_by" envelope' = Ok by'
    /\ kid_of envelope' = Ok kid'
    /\ field "signature" envelope' = Ok (hmac key' (_signing_bytes plan' by' ts' ver' kid'))
    /\ (canon (JObj (_plan_core plan)) = canon (JObj (_plan_core plan'))
        \/ exists k1 m1 k2 m2, (k1, m1) <> (k2, m2) /\ hmac k1 m1 = hmac k2 m2).
Proof.
  intros V D S. apply verify_inv in V as (key' & by' & ts' & ver' & kid' & signature & [Hv Ha Hd He]).
  destruct He as (e & D' & Fb & Ft & Fv & Fk & Fs). rewrite D in D'. injection D' as <-.
  exists key', by', ts', ver', kid'. rewrite Hd. split_and!; [done..|].
  assert (F : field "signature" envelope' = Ok (hmac key (_signing_bytes plan by_ ts ver kid))).
  { apply field_str. by rewrite S, dget_sign. }
  rewrite F in Fs. injection Fs as Fs.
  destruct (decide ((key, _signing_bytes plan by_ ts ver kid)
                    = (key', _signing_bytes plan' by' ts' ver' kid'))) as [E|N].
  - apply (f_equal snd), signing_content in E. left. exact E.
  - right. eexists _, _, _, _. split; [exact N|]. congruence.
Qed.

Definition toy_hmac (key message : string) : string := toy_hex (key +:+ message).
Definition example_plan : dict := [("feature", JStr "login"); ("phases", JList [])].
Definition example_ring : keyring := load_keyring_from_env
  [("AIFACTORY_TRUSTED_PLAN_KEY_CFACTORY", "k"); ("AIFACTORY_TRUSTED_PLAN_KEY_cfactory__1", "k")].

Lemma signed_plan_verifies_witness :
  active_key example_ring [] "CFactory " (Some "1") "k"
  /\ verify_plan_signature toy_hmac example_ring []
       (dset APPROVAL_KEY (JObj (sign_plan toy_hmac example_plan "k" "CFactory " "T" "2" (Some "1")))
          example_plan) = Ok None.
Proof.
  assert (A : active_key example_ring [] "CFactory " (Some "1") "k").
  { split_and!; [done | by vm_compute | apply not_elem_of_nil..]. }
  split; [exact A|].
  apply signed_plan_verifies; [intros; apply toy_hex_ok | done | done | | done | exact A].
  by apply listed.
Defined.

Lemma signature_binds_the_plan_witness :
  exists key' by' ts' ver' kid',
    active_key example_ring [] by' kid' key'
    /\ field "signature" (sign_plan toy_hmac example_plan "k" "CFactory" "T" "2" None)
       = Ok (toy_hmac key' (_signing_bytes
           (dset APPROVAL_KEY (JObj (sign_plan toy_hmac example_plan "k" "CFactory" "T" "2" None))
              example_plan) by' ts' ver' kid')).
Proof.
  destruct (signature_binds_the_plan toy_hmac example_ring [] example_plan
    (dset APPROVAL_KEY (JObj (sign_plan toy_hmac example_plan "k" "CFactory" "T" "2" None)) example_plan)
    "k" "CFactory" "T" "2" None (sign_plan toy_hmac example_plan "k" "CFactory" "T" "2" None))
    as (k & b & t & v & i & A & _ & _ & S & _); [by vm_compute | done | done |].
  exists k, b, t, v, i. split; [exact A | exact S].
Defined.

(** The texts of the envelope are joined by bars that they may contain: what was signed
    with the retired key id 1 verifies without a key id, its version moved into the
    timestamp, when the authority has the same key without a key id. *)
Lemma retired_key_id_is_dropped :
  let signed := sign_plan toy_hmac example_plan "k" "cfactory" "T" "2" (Some "1") in
  let signature := default JNull (dget "signature" signed) in
  let moved := [("approved_by", JStr "cfactory"); ("approval_timestamp", JStr "T|2");
                ("plan_contract_version", JStr "1"); ("signature", signature)] in
  verify_plan_signature toy_hmac example_ring ["1"]
    (dset APPROVAL_KEY (JObj signed) example_plan) = Ok (Some (RetiredKey "cfactory" "1"))
  /\ verify_plan_signature toy_hmac example_ring ["1"]
       (dset APPROVAL_KEY (JObj moved) example_plan) = Ok None.
Proof. by vm_compute. Qed.

(** The checklist is exact.  It reports no gap exactly when the plan has
    its top-level fields and a list of phases, each with a list of subtasks, whose ids are
    distinct texts, whose descriptions are there, and whose dependencies name known
    subtasks and close no cycle; and it always ends. *)
Theorem checklist_is_exact (plan : dict) :
  check_plan_completeness plan = Ok [] <->
  dmem "feature" plan = true /\ dmem "workflow_type" plan = true
  /\ exists g, plan_graph plan g /\ NoDup g.*1
       /\ (forall a l b, (a, l) ∈ g -> b ∈ l -> b ∈ g.*1) /\ ~ cyclic g.
Proof.
  pose proof (clean_fold _ _ scan_phase_step) as Fold.
  unfold check_plan_completeness. set (top := MissingTop <$> _).
  assert (Top : dmem "phases" plan = true ->
    top = [] <-> dmem "feature" plan = true /\ dmem "workflow_type" plan = true).
  { intros P. subst top. unfold keep. cbn [List.filter]. rewrite P.
    destruct (dmem "feature" plan), (dmem "workflow_type" plan); cbn; naive_solver. }
  destruct (dget "phases" plan) as [[| | | |[|x l]|]|] eqn:Ep;
    try (split; [intros [= E]; by apply app_nil in E as [_ E] |
                 intros (_ & _ & g & (x' & l' & ess & E & _) & _); congruence]).
  specialize (Top ltac:(unfold dmem; by rewrite Ep)).
  split.
  - intros E. apply bind_Ok_inv in E as (sc & S & E). injection E as E.
    apply app_nil in E as [N E]. apply app_nil in E as [_ E]. apply app_nil in E as [Dg Ac].
    pose proof (cs_gaps _ _ Fold _ _ _ S N : top = []) as T. rewrite T in S.
    destruct (cs_only _ _ Fold {| sc_seen := []; sc_total := 0; sc_deps := []; sc_gaps := [] |}
      [] (enumerate (x :: l)) sc) as (g & (ess & F & ->) & D & [Cs _ Cd _]);
      [done | constructor | done..|].
    apply Top in T as [T1 T2]. split_and!; [done..|]. exists (mjoin ess). cbn in *.
    rewrite Cd in Ac. rewrite Cd, Cs in Dg. pose proof (proj1 (dependency_gaps_nil _ _) Dg) as Dg'.
    split_and!; [|done | |].
    + exists x, l, ess. split_and!; [done | by apply (forall2_enumerate good_phase) | done].
    + intros a k b Ha Hb. by destruct (Dg' a k b Ha Hb).
    + destruct (acyclic_spec (mjoin ess)) as [[_ A]|[A _]]; [done|]. by rewrite A in Ac.
  - intros (T1 & T2 & g & (x' & l' & ess & E & F & ->) & D & K & A). rewrite E in Ep.
    injection Ep as -> ->. rewrite (proj2 Top) by done.
    destruct (cs_every _ _ Fold {| sc_seen := []; sc_total := 0; sc_deps := []; sc_gaps := [] |}
      [] (enumerate (x :: l)) (mjoin ess)) as (sc & S & [Cs Ct Cd Cg]);
      [done | exists ess; by rewrite (forall2_enumerate good_phase) | done |].
    rewrite S. cbn [mbind res_bind]. cbn [app] in *. rewrite Cg, Cd, Cs, Ct.
    destruct (acyclic_spec (mjoin ess)) as [[-> _]|[_ A']]; [|done].
    rewrite (proj2 (dependency_gaps_nil _ _)).
    2: { intros a k b Ha Hb. split; [|by eapply K]. intros ->. apply A. exists a.
         apply tc_once. split; [by rewrite (deps_of_elem _ a k) | by eapply K]. }
    f_equal. inversion F as [|? ? ? ? (ph & y & k & es & -> & _ & Fs & ->)]; subst.
    inversion Fs as [|? ? ? ? (st & s & d & -> & _ & _ & _ & ->)]; subst. done.
Qed.

(** Only a trusted plan is installed.  An ingestion that refuses the plan
    leaves the directory as it was.  One that accepts it had a valid signature and no gap
    in the checklist, and leaves the plan and its signed copy, the mark of the trusted path
    in the requirements, and an approval that is good for exactly this directory, provided
    the review file could be read. *)
Theorem ingestion_is_guarded (hmac : string -> string -> string) (md5 : string -> string)
    (ring : keyring) (retired : list string) (now : string) (plan : dict) (d d' : ContractDir)
    (v : Verification) :
  (forall x, hex_string (md5 x) = true) ->
  ingest_trusted_plan hmac md5 ring retired now plan d = (Ok v, d') ->
  if tv_ok v then
    verify_plan_signature hmac ring retired plan = Ok None
    /\ check_plan_completeness plan = Ok []
    /\ sd_plan (cd_spec d') = PlanDoc plan /\ cd_contract d' = Json (JObj plan)
    /\ (exists requirements provenance,
          sd_requirements (cd_spec d') = Json (JObj requirements)
          /\ dget "provenance" requirements = Some (JObj provenance)
          /\ dget "trusted_plan" provenance = Some (JBool true))
    /\ (forall st, state_load (cd_spec d) = Ok st ->
          exists st', state_load (cd_spec d') = Ok st'
                      /\ is_approval_valid md5 st' (cd_spec d') = true)
  else d' = d.
Proof.
  intros Hx E. unfold ingest_trusted_plan in E.
  destruct (verify_trusted_plan hmac ring retired plan) as [r|e] eqn:V; [|done].
  destruct (tv_ok r) eqn:O; cbn [negb] in E; [|injection E as <- <-; by rewrite O].
  destruct (_write_spec_md_from_plan _ _) as [s1|] eqn:W; [|done].
  destruct (_mark_review_approved _ _ _ _) as [s2|] eqn:M; [|done].
  destruct (apply_execution_profile plan s2) as [[m|] s3] eqn:P; [|done].
  injection E as <- <-. rewrite O. cbn [cd_spec cd_contract with_spec_dir].
  apply spec_md_keeps in W as [Wp Wr]. cbn in Wp, Wr.
  apply profile_keeps in P as (Pp & Ps & Pr & Pq).
  unfold verify_trusted_plan in V. apply bind_Ok_inv in V as (sig & Vs & V).
  apply bind_Ok_inv in V as (gaps & Vg & V). injection V as <-. cbn in O. bprop.
  destruct sig; [done|]. destruct gaps; [|done].
  destruct (verify_inv _ _ _ _ Vs) as (? & by_ & ? & ? & ? & ? & [_ _ _ (env & De & Fb & _)]).
  assert (By : py_str (default JNull (dget "approved_by" env)) = Ok by_) by exact Fb.
  rewrite De in M.
  set (r := {| tv_ok := _ |}) in *. change (default JNull (dget "approved_by" env)) with (tv_approved_by r) in By.
  destruct (provenance_recorded r s1) as (req & prov & Q1 & Q2 & Q3).
  assert (Rest : sd_plan s2 = PlanDoc plan /\ sd_requirements s2 = Json (JObj req)
    /\ forall st, state_load (cd_spec d) = Ok st ->
         exists st', state_load s2 = Ok st' /\ is_approval_valid md5 st' s2 = true).
  { destruct (state_load (_record_approval_provenance r s1)) as [st|e] eqn:L.
    - destruct (review_marked md5 now r _ by_ st s2 Hx By L M) as (A & A1 & _ & A3).
      rewrite A1, A3. split_and!; [exact Wp | exact Q1 | done].
    - unfold _mark_review_approved in M. rewrite By, L in M. cbn [mbind res_bind] in M.
      assert (S2 : s2 = _record_approval_provenance r s1) by (destruct e; by simplify_eq).
      rewrite S2.
      split_and!; [exact Wp | exact Q1 |]. intros st Hst. unfold state_load in Hst, L.
      cbn [_record_approval_provenance with_requirements sd_review] in L.
      rewrite Wr in L. by rewrite L in Hst. }
  destruct Rest as (R1 & R2 & R3). split_and!; [done | done | by rewrite Pp | done | |].
  - exists req, prov. by rewrite Pq.
  - intros st Hst. destruct (R3 st Hst) as (st' & L & A). exists st'.
    rewrite (approval_valid_same md5 st' s2 s3) by done. split; [|exact A].
    unfold state_load in L |- *. by rewrite Pr.
Qed.

(** ** An example *)

Definition complete_plan : dict :=
  [("feature", JStr "login"); ("workflow_type", JStr "feature");
   ("phases", JList [JObj [("subtasks", JList [
      JObj [("id", JStr "a"); ("description", JStr "form")];
      JObj [("id", JStr "b"); ("description", JStr "check"); ("depends_on", JStrs ["a"])]])]]);
   ("execution", JObj [("review_tier", JStr "low"); ("workers", JInt 2)])].

Definition signed_complete : dict :=
  dset APPROVAL_KEY (JObj (sign_plan toy_hmac complete_plan "k" "cfactory" "T" "2" None)) complete_plan.

Definition empty_dir : ContractDir :=
  {| cd_spec := {| sd_spec := None; sd_plan := PlanAbsent; sd_review := Missing;
                   sd_metadata := Missing; sd_requirements := Missing |};
     cd_contract := Missing |}.

Lemma ingestion_is_guarded_witness :
  exists v d', ingest_trusted_plan toy_hmac toy_hex example_ring [] "now" signed_complete empty_dir
               = (Ok v, d')
    /\ tv_ok v = true /\ cd_contract d' = Json (JObj signed_complete)
    /\ sd_metadata (cd_spec d') = Json (JObj [("workers", JInt 2); ("reviewTier", JStr "low")]).
Proof.
  destruct (ingest_trusted_plan toy_hmac toy_hex example_ring [] "now" signed_complete empty_dir)
    as [r d'] eqn:E.
  assert (K : match r with Ok v => tv_ok v | Err _ => false end = true
    /\ sd_metadata (cd_spec d') = Json (JObj [("workers", JInt 2); ("reviewTier", JStr "low")])).
  { change d' with (r, d').2. change r with (r, d').1 at 1. rewrite <- E. vm_compute. by split. }
  destruct K as [O M]. destruct r as [v|e]; [|discriminate O]. exists v, d'.
  pose proof (ingestion_is_guarded toy_hmac toy_hex example_ring [] "now" signed_complete empty_dir d' v
    toy_hex_ok E) as T. rewrite O in T. destruct T as (_ & _ & _ & C & _).
  split; [reflexivity | split; [exact O | split; [exact C | exact M]]].
Defined.
