(* ===== verification/ContractTrust.v ===== *)
(** Which contract may be acted on, on both sides of the process boundary: the rows the
    server keeps (web-server/server/services/trusted_contract_store.py and
    handback_receipt_store.py), the server's decision (trusted_contract.py), the verdict it
    passes to the build in the environment, and the build's own decision
    (backend/core/contract_trust.py) with its users.

    [sha256] is the hexadecimal digest of a text; a spec directory is known to the store by
    the digest of its path.  A database error is an outcome of the environment. *)
From S2P Require Import Prelude PyData JsonText JsonRead ApprovalGate TrustedPlan.

(** ** The rows of the server *)

Record TrustedContract := {
  tc_spec_id : string;
  tc_contract : string;
  tc_build_isolation : option string;
}.
Record TrustedRecord := {
  tr_contract : json;
  tr_build_isolation : option string;
}.
Abbreviation contract_table := (gmap string TrustedContract).

(** What a lookup answers. *)
Inductive lookup_result := Found (r : TrustedRecord) | NoRecord | LOOKUP_FAILED.

Module TrustedContractStore.
Definition put (spec_key spec_id : string) (contract : dict) (t : contract_table) : contract_table :=
  let text := enc Spaced (JObj contract) in
  match t !! spec_key with
  | None => <[spec_key := {| tc_spec_id := spec_id; tc_contract := text;
                             tc_build_isolation := None |}]> t
  | Some row =>
      <[spec_key := {| tc_spec_id := spec_id; tc_contract := text;
                       tc_build_isolation :=
                         if String.eqb (tc_contract row) text then tc_build_isolation row
                         else None |}]> t
  end.

Definition get (spec_key : string) (t : contract_table) : res (option TrustedRecord) :=
  match t !! spec_key with
  | None => Ok None
  | Some row =>
      let! contract := loads (tc_contract row) in
      Ok (Some {| tr_contract := contract; tr_build_isolation := tc_build_isolation row |})
  end.

(** One conditional update. *)
Definition stamp_isolation (spec_key kind : string) (t : contract_table) : contract_table :=
  alter (fun row =>
    if bool_decide (tc_build_isolation row = Some "none") then row
    else {| tc_spec_id := tc_spec_id row; tc_contract := tc_contract row;
            tc_build_isolation := Some kind |}) spec_key t.
End TrustedContractStore.

(** [db] says whether the database answers. *)
Definition lookup (db : bool) (spec_key : string) (t : contract_table) : lookup_result :=
  if db then
    match TrustedContractStore.get spec_key t with
    | Ok (Some r) => Found r
    | Ok None => NoRecord
    | Err _ => LOOKUP_FAILED
    end
  else LOOKUP_FAILED.

Definition stamp_spawn (db : bool) (spec_key kind : string) (t : contract_table) : contract_table :=
  if db then TrustedContractStore.stamp_isolation spec_key kind t else t.

(** *** Receipts of a handback *)

Abbreviation receipt_table := (gmap string string).

Definition store_enabled (env : env_list) : bool :=
  negb (is_empty (strip (default "" (env_get "DATABASE_URL" env)))).

Definition receipt_record (env : env_list) (db : bool) (spec_key spec_id : string) (t : receipt_table)
  : receipt_table :=
  if store_enabled env && db then
    match t !! spec_key with None => <[spec_key := spec_id]> t | Some _ => t end
  else t.

(** A failed read counts as a receipt. *)
Definition on_record (env : env_list) (db : bool) (spec_key : string) (t : receipt_table) : bool :=
  if negb (store_enabled env) then false
  else if db then bool_decide (is_Some (t !! spec_key)) else true.

(** ** The host *)

Definition _ENV_BACKEND : string := "AIFACTORY_BUILD_BACKEND".
Definition BACKEND_SUBPROCESS : string := "subprocess".
Definition BACKEND_KUBEJOB : string := "kubejob".
Definition _DEFAULT_BACKEND : string := BACKEND_SUBPROCESS.

Definition _raw_backend (env : env_list) : string :=
  let raw := lower (strip (default "" (env_get _ENV_BACKEND env))) in
  if is_empty raw then _DEFAULT_BACKEND else raw.

Definition selected_backend (env : env_list) : string :=
  let raw := _raw_backend env in
  if String.eqb raw BACKEND_SUBPROCESS || String.eqb raw BACKEND_KUBEJOB then raw
  else BACKEND_SUBPROCESS.

Inductive config_problem := UnknownBackend | KubejobNeedsDatabase.

Definition backend_config_error (env : env_list) (store : bool) : option config_problem :=
  let raw := _raw_backend env in
  if String.eqb raw BACKEND_SUBPROCESS then None
  else if negb (String.eqb raw BACKEND_KUBEJOB) then Some UnknownBackend
  else if negb store then Some KubejobNeedsDatabase else None.

(** [v == s] for a text [s]. *)
Definition is_text (s : string) (v : option json) : bool :=
  match v with Some (JStr t) => String.eqb t s | _ => false end.

(** True when a gated task is refused on the subprocess backend.  [metadata] is None when no
    spec directory is known; an unreadable file counts as gated. *)
Definition subprocess_gate_refusal (env : env_list) (metadata : option file) (mode : option string)
  : bool :=
  if negb (String.eqb (_raw_backend env) BACKEND_SUBPROCESS) then false
  else
    match mode with Some m => String.eqb m "quick" | None => false end
    || match metadata with
       | None | Some Missing => false
       | Some (Json (JObj meta)) =>
           truthy_at "requireReviewBeforeCoding" meta || is_text "quick" (dget "mode" meta)
           || is_text "blocking" (dget "reviewTier" meta)
       | Some _ => true
       end.

Definition host_isolated (env : env_list) : bool :=
  String.eqb (selected_backend env) BACKEND_KUBEJOB && store_enabled env.

(** ** The traces of a trusted plan in a spec directory *)

(** [isinstance(data, dict)] of a file read best-effort. *)
Definition object_in (f : file) : option dict :=
  match f with Json (JObj d) => Some d | _ => None end.
Definition plan_object_in (f : plan_file) : option dict :=
  match f with PlanDoc d => Some d | _ => None end.

Definition has_approval (d : option dict) : bool :=
  match d with Some d => dmem APPROVAL_KEY d | None => false end.

Definition has_trusted_trace (d : ContractDir) : bool :=
  has_approval (object_in (cd_contract d)) || has_approval (plan_object_in (sd_plan (cd_spec d)))
  || match object_in (sd_requirements (cd_spec d)) with
     | Some req =>
         match dget "provenance" req with
         | Some (JObj prov) => match dget "trusted_plan" prov with Some (JBool b) => b | _ => false end
         | _ => false
         end
     | None => false
     end.

(** core/migration_mapper.py: the contract on disk, unverified. *)
Definition load_contract (d : ContractDir) : option dict := object_in (cd_contract d).
Definition is_migration (contract : option dict) : bool :=
  match contract with Some c => is_text "migration" (dget "change_mode" c) | None => false end.

(** pfactory/tfactory_client.py: the contract on disk when it has a marker of one. *)
Definition load_task_contract (d : ContractDir) : dict :=
  match object_in (cd_contract d) with
  | Some plan => if dmem "tfactory" plan || dmem "contract_version" plan || dmem APPROVAL_KEY plan
                 then plan else []
  | None => []
  end.

(** ** The decision of the server *)

Inductive trust := VERIFIED | HOLD | LEGACY.
#[export] Instance trust_eq_dec : EqDecision trust.
Proof. solve_decision. Defined.

Definition ENV : string := "AIFACTORY_TRUSTED_CONTRACT".
Definition HOLD_KEY : string := "contractHold".
Definition _ISOLATED_STAMPS : list string := ["kubejob"; "sandbox-pidns"].

Section Decision.
Variable hmac_sha256 : string -> string -> string.
Variable sha256 : string -> string.

Definition contract_digest (c : json) : string := sha256 (_canonical c).

(** [env] also holds the keys; the signature is of the stored contract. *)
Definition _record_verified (env : env_list) (d : ContractDir) (r : TrustedRecord) : res bool :=
  match tr_contract r with
  | JObj contract =>
      let! reason := verify_plan_signature hmac_sha256 (load_keyring_from_env env)
                       (load_retired_kids_from_env env) contract in
      match reason, tr_build_isolation r with
      | None, Some stamp =>
          if existsb (String.eqb stamp) _ISOLATED_STAMPS then
            match cd_contract d with
            | Json on_disk => Ok (String.eqb (_canonical on_disk) (_canonical (tr_contract r)))
            | Missing | Broken => Err ValueError
            end
          else Ok false
      | _, _ => Ok false
      end
  | _ => Err AttributeError
  end.

(** Any exception holds. *)
Definition resolve_contract (env : env_list) (d : ContractDir) (trusted : lookup_result)
  : res (trust * dict) :=
  match trusted with
  | Found r =>
      if host_isolated env then
        match _record_verified env d r with
        | Ok true => match tr_contract r with JObj c => Ok (VERIFIED, c) | _ => Ok (HOLD, []) end
        | Err Untyped => Err Untyped
        | Ok false | Err _ => Ok (HOLD, [])
        end
      else Ok (HOLD, [])
  | LOOKUP_FAILED => Ok (HOLD, [])
  | NoRecord => if has_trusted_trace d then Ok (HOLD, []) else Ok (LEGACY, load_task_contract d)
  end.

Definition handoff_contract (env : env_list) (d : ContractDir) (trusted : lookup_result)
  : res (option dict) :=
  let! r := resolve_contract env d trusted in
  Ok (match r.1 with VERIFIED => Some r.2 | HOLD => Some [] | LEGACY => None end).

(** The value of [ENV] the build is started with. *)
Definition spawn_env (env : env_list) (d : ContractDir) (trusted : lookup_result) : res string :=
  let! r := resolve_contract env d trusted in
  Ok (match r.1 with
      | VERIFIED => contract_digest (JObj r.2)
      | HOLD => "hold"
      | LEGACY => "legacy"
      end).

(** ** The decision of the build

    [value] is [ENV] in the environment of the build, None when it is not set. *)
Definition trusted_contract (value : option string) (d : ContractDir)
  : trust * option dict * string :=
  match load_contract d with
  | None =>
      match value with
      | None => (LEGACY, None, "no contract")
      | Some v => if String.eqb v "hold" || String.eqb v "legacy" then (LEGACY, None, "no contract")
                  else (HOLD, None, "digest mismatch")
      end
  | Some contract =>
      match value with
      | Some v =>
          if String.eqb v "hold" then (HOLD, Some contract, "held by server")
          else if String.eqb v "legacy" then (HOLD, Some contract, "server saw no signed contract")
          else if String.eqb v (contract_digest (JObj contract))
          then (VERIFIED, Some contract, "server verified")
          else (HOLD, Some contract, "digest mismatch")
      | None =>
          if has_trusted_trace d
          then (HOLD, Some contract, "trusted trace without a server verdict")
          else (LEGACY, Some contract, "no server verdict")
      end
  end.
End Decision.

Definition _REASON_LABELS : list string :=
  ["no contract"; "digest mismatch"; "held by server"; "server saw no signed contract";
   "server verified"; "trusted trace without a server verdict"; "no server verdict"].
Definition reason_label (why : string) : string :=
  if existsb (String.eqb why) _REASON_LABELS then why else "error".

(** One plan file; the second result of a failed write is the file unchanged. *)
Definition hold_plan (note : option string) (writable : bool) (f : plan_file) : plan_file :=
  match f with
  | PlanDoc plan =>
      let same := match note, dget HOLD_KEY plan with
                  | Some n, Some (JStr s) => String.eqb s n
                  | None, (None | Some JNull) => true
                  | _, _ => false
                  end in
      if same || negb writable then f
      else PlanDoc (match note with
                    | None => keep (fun kv => negb (String.eqb kv.1 HOLD_KEY)) plan
                    | Some n => dset HOLD_KEY (JStr n) plan
                    end)
  | _ => f
  end.

(** The plan of the build and, in isolated mode, the source's. *)
Definition record_hold (note : option string) (writable : bool) (plans : plan_file * option plan_file)
  : plan_file * option plan_file :=
  (hold_plan note writable plans.1, hold_plan note writable <$> plans.2).

Section Users.
Variable sha256 : string -> string.

Definition hold_note (why : string) (tail : string) : string :=
  "contract held (" +:+ reason_label why +:+ "); " +:+ tail.
Definition migration_note (why : string) : string :=
  "migration contract held (" +:+ reason_label why +:+ "); build stopped".

(** cli/build_commands.py: the contract a build acts on; a held migration stops it. *)
Definition _resolve_build_contract (value : option string) (d : ContractDir) (writable : bool)
    (plans : plan_file * option plan_file) : res (option dict) * (plan_file * option plan_file) :=
  let '(state, contract, why) := trusted_contract sha256 value d in
  match state with
  | HOLD =>
      if is_migration contract
      then (Err (AppError "SystemExit"), record_hold (Some (migration_note why)) writable plans)
      else (Ok None, record_hold (Some (hold_note why "normal build")) writable plans)
  | _ => (Ok contract, record_hold None writable plans)
  end.

(** prompts_pkg/prompts.py: the contract the prompts are built from. *)
Definition _load_contract (value : option string) (d : ContractDir) : option dict :=
  let '(state, contract, _) := trusted_contract sha256 value d in
  match state, contract with
  | HOLD, _ => None
  | _, Some c => Some c
  | _, None =>
      let traced := has_trusted_trace d in
      if bool_decide (value = Some "legacy") && negb traced then None
      else if bool_decide (is_Some value) || traced then None
      else plan_object_in (sd_plan (cd_spec d))
  end.
End Users.

(** ** Operations on the table *)

Inductive store_op :=
  | Put (key spec_id : string) (contract : dict)
  | Stamp (key kind : string).

Definition store_step (t : contract_table) (op : store_op) : contract_table :=
  match op with
  | Put key spec_id contract => TrustedContractStore.put key spec_id contract t
  | Stamp key kind => TrustedContractStore.stamp_isolation key kind t
  end.
Definition store_run (ops : list store_op) (t : contract_table) : contract_table :=
  foldl store_step t ops.

(** Text of the contract held for a key and its stamp. *)
Definition held (key : string) (t : contract_table) : option (string * option string) :=
  (fun row => (tc_contract row, tc_build_isolation row)) <$> t !! key.

Lemma held_put key k spec_id c t :
  held key (TrustedContractStore.put k spec_id c t)
  = if String.eqb key k then
      Some (enc Spaced (JObj c),
            match held key t with
            | Some (text, stamp) => if String.eqb text (enc Spaced (JObj c)) then stamp else None
            | None => None
            end)
    else held key t.
Proof.
  unfold held, TrustedContractStore.put. destruct (String.eqb_spec key k) as [->|N].
  - destruct (t !! k) as [row|]; rewrite lookup_insert_eq; cbn; by try case_match.
  - destruct (t !! k) as [row|]; by rewrite lookup_insert_ne by done.
Qed.

Lemma held_stamp key k kind t :
  held key (TrustedContractStore.stamp_isolation k kind t)
  = if String.eqb key k then
      (fun p => (p.1, if bool_decide (p.2 = Some "none") then p.2 else Some kind)) <$> held key t
    else held key t.
Proof.
  unfold held, TrustedContractStore.stamp_isolation. destruct (String.eqb_spec key k) as [->|N].
  - rewrite lookup_alter_eq. destruct (t !! k) as [row|]; [|done]. cbn. by case_bool_decide.
  - by rewrite lookup_alter_ne by done.
Qed.

(** The stamp of a build that was not isolated stays until another contract is put. *)
Lemma none_is_sticky key text ops t :
  held key t = Some (text, Some "none") ->
  (forall spec_id c, Put key spec_id c ∈ ops -> enc Spaced (JObj c) = text) ->
  held key (store_run ops t) = Some (text, Some "none").
Proof.
  revert t. induction ops as [|op ops IH]; intros t H P; [done|]. cbn [store_run foldl].
  apply IH; [|intros i c Hc; apply (P i); by apply list_elem_of_further].
  destruct op as [k i c|k kind]; cbn [store_step].
  - rewrite held_put. destruct (String.eqb_spec key k) as [->|]; [|done].
    rewrite (P i c) by apply list_elem_of_here. by rewrite H, String.eqb_refl.
  - rewrite held_stamp. destruct (String.eqb key k); [|done]. by rewrite H.
Qed.

Lemma lookup_held db key t r :
  lookup db key t = Found r -> exists text, held key t = Some (text, tr_build_isolation r).
Proof.
  unfold lookup, TrustedContractStore.get, held. destruct db; [|done].
  destruct (t !! key) as [row|]; [|done]. destruct (loads (tc_contract row)); cbn; [|done].
  intros [= <-]. by exists (tc_contract row).
Qed.

(** ** The decisions *)

Lemma canonical_text_inj v w : _canonical v = _canonical w -> canon v = canon w.
Proof. apply enc_inj. Qed.

Section DecisionProof.
Variable hmac_sha256 : string -> string -> string.
Variable sha256 : string -> string.

Lemma record_verified_inv env d r :
  _record_verified hmac_sha256 env d r = Ok true ->
  exists contract stamp on_disk, tr_contract r = JObj contract
    /\ verify_plan_signature hmac_sha256 (load_keyring_from_env env)
         (load_retired_kids_from_env env) contract = Ok None
    /\ tr_build_isolation r = Some stamp /\ stamp ∈ _ISOLATED_STAMPS
    /\ cd_contract d = Json on_disk /\ canon on_disk = canon (JObj contract).
Proof.
  unfold _record_verified. destruct (tr_contract r) as [| | | | |c] eqn:Ec; try done.
  intros E. apply bind_Ok_inv in E as (reason & V & E). destruct reason; [done|].
  destruct (tr_build_isolation r) as [stamp|]; [|done].
  destruct (existsb _ _ISOLATED_STAMPS) eqn:S; [|done]. apply listed in S.
  destruct (cd_contract d) as [| |v]; try done. injection E as E.
  apply String.eqb_eq, canonical_text_inj in E. by exists c, stamp, v.
Qed.

Lemma resolve_verified_inv env d trusted c :
  resolve_contract hmac_sha256 env d trusted = Ok (VERIFIED, c) ->
  exists r, trusted = Found r /\ tr_contract r = JObj c /\ host_isolated env = true
            /\ _record_verified hmac_sha256 env d r = Ok true.
Proof.
  unfold resolve_contract. destruct trusted as [r| |]; [|by destruct (has_trusted_trace d)|done].
  destruct (host_isolated env); [|done].
  destruct (_record_verified _ env d r) as [[]|[]] eqn:V; try done.
  destruct (tr_contract r) eqn:E; try done. intros [= ->]. by exists r.
Qed.

Definition sha_collision : Prop := exists x y, x <> y /\ sha256 x = sha256 y.

Lemma digest_inj a b :
  contract_digest sha256 a = contract_digest sha256 b -> canon a = canon b \/ sha_collision.
Proof.
  unfold contract_digest. intros E. destruct (decide (_canonical a = _canonical b)) as [C|N].
  - left. by apply canonical_text_inj.
  - right. by exists (_canonical a), (_canonical b).
Qed.
End DecisionProof.

(** ** Properties *)

(** C18 (safety): the server verifies only what was signed, stored and built in isolation.
    When it takes a contract for verified, the host isolates builds, the contract is the one
    in its own row and not the one the agent can edit, its signature holds under an active
    key, the build was stamped as isolated, and the copy on disk is the same up to the order
    of keys. *)
Theorem verified_contract_is_signed (hmac : string -> string -> string) (env : env_list)
    (d : ContractDir) (trusted : lookup_result) (c : dict) :
  resolve_contract hmac env d trusted = Ok (VERIFIED, c) ->
  host_isolated env = true
  /\ verify_plan_signature hmac (load_keyring_from_env env) (load_retired_kids_from_env env) c = Ok None
  /\ exists stamp on_disk,
       trusted = Found {| tr_contract := JObj c; tr_build_isolation := Some stamp |}
       /\ stamp ∈ _ISOLATED_STAMPS
       /\ cd_contract d = Json on_disk /\ canon on_disk = canon (JObj c).
Proof.
  intros E. apply resolve_verified_inv in E as ([c' st] & -> & Hc & H & V).
  apply record_verified_inv in V as (c'' & stamp & on_disk & Hc' & S & Hs & I & D & C).
  cbn in *. subst. injection Hc' as <-. split_and!; [done..|]. by exists stamp, on_disk.
Qed.

(** C16 (refinement): the build trusts what the server trusts.  Started with the verdict of
    the server, a build takes a contract for verified only when the server did, and then
    the two contracts are the same up to the order of keys, or the digest has a collision;
    where it falls back to the behaviour of tasks without a contract, it has no contract at
    all: an unverified contract on its disk is never acted on. *)
Theorem build_follows_the_server (hmac : string -> string -> string) (sha256 : string -> string)
    (env : env_list) (d d' : ContractDir) (trusted : lookup_result) (value why : string)
    (st : trust) (contract : option dict) :
  (forall x, hex_string (sha256 x) = true) ->
  spawn_env hmac sha256 env d trusted = Ok value ->
  trusted_contract sha256 (Some value) d' = (st, contract, why) ->
  match st with
  | VERIFIED => exists c c', resolve_contract hmac env d trusted = Ok (VERIFIED, c)
      /\ contract = Some c' /\ load_contract d' = Some c'
      /\ (canon (JObj c') = canon (JObj c) \/ sha_collision sha256)
  | LEGACY => contract = None /\ forall c, resolve_contract hmac env d trusted <> Ok (VERIFIED, c)
  | HOLD => True
  end.
Proof.
  intros Hx S T. unfold spawn_env in S. apply bind_Ok_inv in S as ([state c] & R & S).
  injection S as S. cbn [fst snd] in S. unfold trusted_contract in T.
  assert (Hd : forall v, contract_digest sha256 v <> "hold" /\ contract_digest sha256 v <> "legacy").
  { intros v. specialize (Hx (_canonical v)). unfold contract_digest. split; intros E;
      by rewrite E in Hx. }
  destruct (Hd (JObj c)) as [Nh Nl]. apply String.eqb_neq in Nh, Nl.
  destruct (load_contract d') as [c'|] eqn:L.
  - destruct state; subst value; cbn in T; try by injection T as <- _ _.
    rewrite Nh, Nl in T. destruct (String.eqb_spec (contract_digest sha256 (JObj c))
      (contract_digest sha256 (JObj c'))) as [E|]; [|by injection T as <- _ _].
    injection T as <- <- _. exists c, c'. split_and!; [done..|]. by apply digest_inj.
  - destruct state; subst value; cbn in T; try (injection T as <- <- _; split; [done | congruence]).
    rewrite Nh, Nl in T. by injection T as <- _ _.
Qed.

(** A build that was not isolated is not forgotten.  Once the row of a
    contract is stamped as not isolated, no sequence of later stamps and of ingestions of
    the same contract, for this and other tasks, lets the server take it for verified. *)
Theorem unisolated_build_stays_untrusted (hmac : string -> string -> string) (env : env_list)
    (d : ContractDir) (db : bool) (key text : string) (stamp : option string)
    (t : contract_table) (ops : list store_op) (c : dict) :
  held key t = Some (text, stamp) ->
  (forall spec_id c, Put key spec_id c ∈ ops -> enc Spaced (JObj c) = text) ->
  resolve_contract hmac env d
    (lookup db key (store_run ops (TrustedContractStore.stamp_isolation key "none" t)))
  <> Ok (VERIFIED, c).
Proof.
  intros H P E. apply resolve_verified_inv in E as (r & L & _ & _ & V).
  apply lookup_held in L as (text' & L). rewrite (none_is_sticky key text) in L; [|  |done].
  - injection L as _ I. apply record_verified_inv in V as (? & s & ? & _ & _ & Hs & Is & _).
    rewrite <- I in Hs. injection Hs as <-. apply listed in Is. discriminate Is.
  - rewrite held_stamp, String.eqb_refl, H. cbn. case_bool_decide as B; [by rewrite B | done].
Qed.

(** The store returns the contract it was given.  After a contract is put,
    and whatever is then done for other tasks, the lookup for its task finds exactly this
    contract; the stamp is that of the row before when the contract is the same, and is
    empty for a new one. *)
Theorem stored_contract_is_returned (key spec_id : string) (c : dict) (t : contract_table)
    (ops : list store_op) :
  distinct_keys (JObj c) ->
  (forall op, op ∈ ops -> match op with Put k _ _ | Stamp k _ => k <> key end) ->
  lookup true key (store_run ops (TrustedContractStore.put key spec_id c t))
  = Found {| tr_contract := JObj c;
             tr_build_isolation :=
               match held key t with
               | Some (text, stamp) => if String.eqb text (enc Spaced (JObj c)) then stamp else None
               | None => None
               end |}.
Proof.
  intros W O.
  assert (H : forall t', held key (store_run ops t') = held key t').
  { induction ops as [|op ops IH]; intros t'; [done|].
    change (store_run (op :: ops) t') with (store_run ops (store_step t' op)). rewrite IH by (intros; apply O; by apply list_elem_of_further).
    pose proof (O op (list_elem_of_here _ _)) as N.
    destruct op; cbn [store_step]; rewrite ?held_put, ?held_stamp;
      by rewrite (proj2 (String.eqb_neq _ _)) by done. }
  specialize (H (TrustedContractStore.put key spec_id c t)).
  rewrite held_put, String.eqb_refl in H. unfold lookup, TrustedContractStore.get.
  unfold held at 1 in H. destruct (store_run _ _ !! key) as [row|]; [|done].
  apply (inj Some), pair_equal_spec in H as [Ht Hi].
  rewrite Ht, (loads_enc Spaced (JObj c) W). cbn [mbind res_bind]. by rewrite Hi.
Qed.

(** ** An example: a contract stored, its build stamped, the build started *)

Definition example_env : env_list :=
  [(_ENV_BACKEND, "KubeJob"); ("DATABASE_URL", "postgres"); ("AIFACTORY_TRUSTED_PLAN_KEY_CFACTORY", "k")].
Definition example_dir : ContractDir :=
  {| cd_spec := cd_spec empty_dir; cd_contract := Json (JObj signed_complete) |}.
Definition example_table : contract_table :=
  store_run [Put "key" "001" signed_complete; Stamp "key" "kubejob"; Stamp "other" "none"] ∅.
Definition example_record : lookup_result :=
  Found {| tr_contract := JObj signed_complete; tr_build_isolation := Some "kubejob" |}.

Lemma example_found : lookup true "key" example_table = example_record.
Proof. by vm_compute. Qed.
Lemma example_verified :
  resolve_contract toy_hmac example_env example_dir example_record = Ok (VERIFIED, signed_complete).
Proof. by vm_compute. Qed.

Lemma verified_contract_is_signed_witness :
  host_isolated example_env = true
  /\ verify_plan_signature toy_hmac (load_keyring_from_env example_env)
       (load_retired_kids_from_env example_env) signed_complete = Ok None.
Proof.
  destruct (verified_contract_is_signed toy_hmac example_env example_dir example_record signed_complete
    example_verified) as (H & V & _). split; [exact H | exact V].
Defined.

Lemma build_follows_the_server_witness :
  exists c, resolve_contract toy_hmac example_env example_dir example_record = Ok (VERIFIED, c)
    /\ (canon (JObj signed_complete) = canon (JObj c) \/ sha_collision toy_hex).
Proof.
  destruct (build_follows_the_server toy_hmac toy_hex example_env example_dir example_dir example_record
    (contract_digest toy_hex (JObj signed_complete)) "server verified" VERIFIED (Some signed_complete)
    toy_hex_ok) as (c & c' & R & E & _ & C); [by vm_compute | by vm_compute |].
  exists c. split; [exact R|]. injection E as <-. exact C.
Defined.

Lemma unisolated_build_stays_untrusted_witness :
  exists t, held "key" t <> None
    /\ resolve_contract toy_hmac example_env example_dir (lookup true "key" t)
       <> Ok (VERIFIED, signed_complete).
Proof.
  exists (store_run [Stamp "key" "kubejob"; Put "key" "001" signed_complete]
            (TrustedContractStore.stamp_isolation "key" "none" example_table)).
  split; [by vm_compute|].
  apply (unisolated_build_stays_untrusted toy_hmac example_env example_dir true "key"
    (enc Spaced (JObj signed_complete)) (Some "kubejob") example_table); [by vm_compute|].
  intros i c H. apply elem_of_cons in H as [H|H]; [discriminate H|].
  apply elem_of_cons in H as [H|H]; [by injection H as _ -> | by apply elem_of_nil in H].
Defined.

Lemma stored_contract_is_returned_witness :
  lookup true "key" (store_run [Stamp "other" "none"]
    (TrustedContractStore.put "key" "001" [("approval", JNull)] ∅))
  = Found {| tr_contract := JObj [("approval", JNull)]; tr_build_isolation := None |}.
Proof.
  assert (E : held "key" ∅ = None) by (unfold held; by rewrite lookup_empty).
  pose proof (stored_contract_is_returned "key" "001" [("approval", JNull)] ∅ [Stamp "other" "none"]) as T.
  rewrite E in T. apply T.
  - split; [apply NoDup_singleton | done].
  - intros op H. apply elem_of_cons in H as [->|H]; [discriminate | by apply elem_of_nil in H].
Defined.
