(* ===== verification/GitPins.v ===== *)
(** Git run beside an agent that can write to the repository: the configuration pinned in
    the environment of a child and on its command line, the upload of LFS objects
    (backend/core/child_env.py), the baseline of the repository's own configuration
    (backend/core/git_metadata.py), and the keys that run a program
    (backend/security/git_validators.py).

    [run] is the runner of a command, [sha256] the hexadecimal digest of a text; the
    baselines are files under one directory, keyed by their name. *)
From S2P Require Import Prelude PyData JsonText JsonRead ApprovalGate TrustedPlan EventMonad.
Local Open Scope nat_scope.

Definition endswith (p s : string) : bool := startswith (String.rev p) (String.rev s).
Definition any_of (f : string -> string -> bool) (l : list string) (s : string) : bool :=
  existsb (fun p => f p s) l.
Definition nul : ascii := ascii_of_nat 0.
Definition newline : ascii := ascii_of_nat 10.
Definition nl : string := String newline EmptyString.

(** ** Keys that run a program *)

Definition _is_dangerous_git_config (key : string) : bool :=
  let k := lower (strip key) in
  any_of startswith ["alias."; "pager."; "uploadpack."; "receive."; "credential."; "includeif.";
                     "protocol."] k
  || any_of endswith ["command"; ".pager"; ".editor"; "hookspath"; ".program"; ".driver";
                      ".textconv"; ".uploadpack"; ".receivepack"] k
  || any_of String.eqb ["core.pager"; "core.editor"; "sequence.editor"; "core.askpass";
                        "core.gitproxy"; "diff.external"; "include.path"] k
  || contains "fsmonitor" k.

Definition _ARG_OPTIONS : list string :=
  ["-C"; "-c"; "--config-env"; "--git-dir"; "--work-tree"; "--namespace"; "--attr-source"].
Definition _CONFIG_EDIT_MODES : list string :=
  ["-e"; "--edit"; "edit"; "--rename-section"; "rename-section"; "--copy-section"].
Definition _DANGEROUS_GIT_FLAGS : list string := ["--exec-path"; "--upload-pack"; "--receive-pack"].
Definition _CONFIG_FLAGS : list string := ["-c"; "--config-env"].

Definition is_in (l : list string) (s : string) : bool := existsb (String.eqb s) l.

(** Why a command is refused, before the reason is rendered. *)
Inductive refusal :=
  | EditMode (tok : string)
  | NonLiteral
  | ConfigKey (key : string)
  | InlineConfig (key : string)
  | ExecFlag (flag : string).

(** [t.lstrip("({$`!")] and [t.rsplit("/", 1)[-1]] *)
Fixpoint lstrip_of (cs : string) (s : string) : string :=
  match s with
  | EmptyString => EmptyString
  | String c s' => if contains (String c EmptyString) cs then lstrip_of cs s' else s
  end.
Definition base_name (s : string) : string := List.last (split_on "/" s) "".

(** The tokens after the options of [git]. *)
Fixpoint skip_options (skip : bool) (l : list string) : list string :=
  match l with
  | [] => []
  | t :: l' =>
      if skip then skip_options false l'
      else if startswith "-" t then skip_options (is_in _ARG_OPTIONS t) l' else l
  end.

Fixpoint config_tokens (l : list string) : option refusal :=
  match l with
  | [] => None
  | tok :: l' =>
      if is_in _CONFIG_EDIT_MODES tok then Some (EditMode tok)
      else if contains "$" tok || contains "`" tok then Some NonLiteral
      else
        let key := hd "" (split_on "=" tok) in
        if negb (startswith "-" tok) && _is_dangerous_git_config key then Some (ConfigKey key)
        else config_tokens l'
  end.

Fixpoint _git_config_refusal (tokens : list string) : option refusal :=
  match tokens with
  | [] => None
  | t :: rest =>
      let here :=
        if String.eqb (base_name (lstrip_of "({$`!" t)) "git" then
          match skip_options false rest with
          | c :: toks => if String.eqb c "config" then config_tokens toks else None
          | [] => None
          end
        else None in
      match here with Some r => Some r | None => _git_config_refusal rest end
  end.

(** What follows the first [=], None without one. *)
Definition after_equals (tok : string) : option string := snd <$> cut_at "=" tok.

(** The loop of [validate_git] over the tokens of a command that could be split. *)
Fixpoint option_refusal (tokens : list string) : option refusal :=
  match tokens with
  | [] => None
  | tok :: rest =>
      let base := hd "" (split_on "=" tok) in
      let here :=
        if is_in _CONFIG_FLAGS base then
          let value := match after_equals tok with Some v => v | None => hd "" rest end in
          let key := hd "" (split_on "=" value) in
          if _is_dangerous_git_config key then Some (InlineConfig key) else None
        else if is_in _DANGEROUS_GIT_FLAGS base then Some (ExecFlag base) else None in
      match here with Some r => Some r | None => option_refusal rest end
  end.

(** ** Pins in the environment *)

Fixpoint env_set (k v : string) (env : env_list) : env_list :=
  match env with
  | [] => [(k, v)]
  | (k', v') :: env' => if String.eqb k k' then (k, v) :: env' else (k', v') :: env_set k v env'
  end.

(** None stands for the editor or the pager of the call. *)
Definition _GIT_PINS : list (string * option string) :=
  [("core.hooksPath", Some "/dev/null"); ("core.fsmonitor", Some "false");
   ("protocol.ext.allow", Some "never"); ("core.sshCommand", Some "ssh"); ("core.pager", None);
   ("core.editor", None); ("core.askPass", Some ""); ("credential.helper", Some "");
   ("credential.https://github.com.helper", Some "!gh auth git-credential");
   ("sequence.editor", None)].

Definition pin_value (editor pager key : string) (val : option string) : string :=
  if String.eqb key "core.pager" then pager else default editor val.

Definition key_var (i : nat) : string := "GIT_CONFIG_KEY_" +:+ pretty i.
Definition value_var (i : nat) : string := "GIT_CONFIG_VALUE_" +:+ pretty i.

Definition git_config_count (env : env_list) : nat :=
  match int_of_string (default "0" (env_get "GIT_CONFIG_COUNT" env)) with
  | Some n => Z.to_nat n
  | None => 0
  end.

Fixpoint set_pins (editor pager : string) (i : nat) (pins : list (string * option string))
    (env : env_list) : env_list :=
  match pins with
  | [] => env
  | (key, val) :: pins' =>
      set_pins editor pager (S i) pins'
        (env_set (value_var i) (pin_value editor pager key val) (env_set (key_var i) key env))
  end.

Definition pin_git_config (editor pager : string) (env : env_list) : env_list :=
  let n := git_config_count env in
  let env := set_pins editor pager n _GIT_PINS env in
  let env := env_set "GIT_CONFIG_COUNT" (pretty (n + length _GIT_PINS)) env in
  match env_get "GIT_PAGER" env with Some _ => env | None => env_set "GIT_PAGER" pager env end.

(** ** Pins on the command line *)

Definition _MERGE_DRIVER_KEYS : list string :=
  ["git"; "config"; "-z"; "--includes"; "--name-only"; "--list"].

Definition is_merge_driver (key : string) : bool :=
  startswith "merge." key && endswith ".driver" key
  && (String.length "merge..driver" <=? String.length key).
Definition is_filter_command (key : string) : bool :=
  startswith "filter." key && any_of endswith [".clean"; ".smudge"; ".process"] key.

Definition runtime_error : exn := AppError "RuntimeError".

Fixpoint pins_of (keys : list string) : res (list string) :=
  match keys with
  | [] => Ok []
  | key :: keys' =>
      if is_merge_driver key || is_filter_command key then
        if contains "=" key then Err runtime_error
        else let! pins := pins_of keys' in Ok ("-c" :: (key +:+ "=") :: pins)
      else pins_of keys'
  end.

(** ** The configuration of the repository *)

Abbreviation config := (list (string * list string)).

Definition _TRACKED_PREFIXES : list string := ["merge."; "filter."; "diff."].
Definition _is_tracked_config_key (key value : string) : bool :=
  let k := lower key in
  _is_dangerous_git_config k || any_of startswith _TRACKED_PREFIXES k
  || String.eqb k "core.attributesfile"
  || (startswith "lfs.customtransfer." k && endswith ".path" k)
  || endswith "standalonetransferagent" k
  || (startswith "submodule." k && endswith ".update" k && startswith "!" (lstrip value)).

(** [d.setdefault(k, []).append(x)] *)
Fixpoint add_value (k x : string) (d : config) : config :=
  match d with
  | [] => [(k, [x])]
  | (k', l) :: d' => if String.eqb k k' then (k', l ++ [x]) :: d' else (k', l) :: add_value k x d'
  end.

Definition sorted_config (d : config) : config :=
  sort_by (fun a b => String.leb a.1 b.1)
    ((fun kv => (kv.1, sort_by String.leb kv.2)) <$> d).

Section Metadata.
Variable sha256 : string -> string.

(** The pairs of a scope and an entry; None when one is left over. *)
Fixpoint entries_of (parts : list string) : option (list (string * string)) :=
  match parts with
  | [] => Some []
  | scope :: entry :: parts' => cons (scope, entry) <$> entries_of parts'
  | [_] => None
  end.

Definition add_entry (scope : string) (d : config) (e : string * string) : config :=
  if String.eqb e.1 scope then
    let '(key, value) := default (e.2, "") (cut_at nl e.2) in
    if negb (is_empty key) && _is_tracked_config_key key value then add_value key (sha256 value) d
    else d
  else d.

Definition scope_config (entries : list (string * string)) (scope : string) : config :=
  sorted_config (foldl (add_entry scope) [] entries).

Definition _parse_config (raw : string) : res (config * config) :=
  if is_empty raw then Ok ([], [])
  else
    let parts := split_on nul raw in
    let parts := if is_empty (List.last parts "") then removelast parts else parts in
    match entries_of parts with
    | None => Err runtime_error
    | Some entries => Ok (scope_config entries "local", scope_config entries "worktree")
    end.

Record Snapshot := {
  sn_repo : string;
  sn_gitdir : string;
  sn_config : config;
  sn_worktree_config : config;
  sn_attributes : option string;
}.

Definition config_json (c : config) : json := JObj ((fun kv => (kv.1, JStrs kv.2)) <$> c).
Definition _shared_snapshot (s : Snapshot) : dict :=
  [("repo", JStr (sn_repo s)); ("config", config_json (sn_config s));
   ("attributes", JOpt (sn_attributes s))].

(** [_load_baseline]: the configuration and the digest of the attributes. *)
Definition _load_baseline (worktree : bool) (f : file) : res (dict * option string) :=
  match f with
  | Json (JObj data) =>
      match dget "config" data with
      | Some (JObj cfg) =>
          if worktree then Ok (cfg, None)
          else match dget "attributes" data with
               | Some JNull => Ok (cfg, None)
               | Some (JStr a) => Ok (cfg, Some a)
               | _ => Err runtime_error
               end
      | _ => Err runtime_error
      end
  | _ => Err runtime_error
  end.

Fixpoint config_get (k : string) (c : config) : option (list string) :=
  match c with
  | [] => None
  | (k', l) :: c' => if String.eqb k k' then Some l else config_get k c'
  end.

(** [base.get(k) == current.get(k)] *)
Definition same_value (b : option json) (c : option (list string)) : bool :=
  match b, c with
  | (None | Some JNull), None => true
  | Some (JList l), Some strs =>
      bool_decide (length l = length strs)
      && forallb (fun p => match p.1 with JStr s => String.eqb s p.2 | _ => false end) (zip l strs)
  | _, _ => false
  end.

Definition changed_keys (base : dict) (current : config) : list string :=
  sort_by String.leb
    (keep (fun k => negb (same_value (dget k base) (config_get k current)))
       (base.elements (list_to_set (base.*1 ++ current.*1) : gset string))).

(** What drifted, with the baselines that were loaded. *)
Definition drift (base : dict * option string) (worktree : dict) (current : Snapshot) : list string :=
  changed_keys base.1 (sn_config current)
  ++ (if bool_decide (base.2 = sn_attributes current) then [] else ["info/attributes"])
  ++ ((fun k => "worktree:" +:+ k) <$> changed_keys worktree (sn_worktree_config current)).
End Metadata.

(** ** Commands and files *)

(** How a state holds the baselines and shows the repository: [gs_resolve cwd raw] is the
    resolved path, [gs_attributes] the digest of info/attributes under a directory. *)
Record GitStore {S : Type} := {
  gs_files : S -> gmap string file;
  gs_put : gmap string file -> S -> S;
  gs_resolve : S -> string -> string -> string;
  gs_attributes : S -> string -> res (option string);
  gs_writable : S -> bool;
}.
Arguments GitStore : clear implicits.

Section GitMetadata.
Context {S E : Type} (sha256 : string -> string) (store : GitStore S).
Context (run : list string -> Eff S E (Z * string)).
Abbreviation M := (Eff S E).

Definition _REV_PARSE_DIRS : list string :=
  ["git"; "rev-parse"; "--path-format=absolute"; "--git-common-dir"; "--git-dir"].
Definition _CONFIG_LIST : list string :=
  ["git"; "config"; "--list"; "--show-scope"; "-z"; "--includes"].

(** A command that fails, or whose runner raises one of the errors that are caught. *)
Definition checked_run (caught : list string) (argv : list string) : M string := fun s =>
  let '(r, s', l) := run argv s in
  (match r with
   | Ok (rc, out) => if (rc =? 0)%Z then Ok out else Err runtime_error
   | Err (AppError n) => if is_in caught n then Err runtime_error else Err (AppError n)
   | Err e => Err e
   end, s', l).

Definition _run_git : list string -> M string := checked_run ["OSError"; "TimeoutExpired"].

Definition snapshot (cwd : string) : M Snapshot :=
  out ← _run_git _REV_PARSE_DIRS;
  let dirs := splitlines out in
  let raw_common := List.nth 0 dirs "" in
  let raw_gitdir := List.nth 1 dirs raw_common in
  commondir ← lift (fun s => Ok (gs_resolve store s cwd raw_common));
  gitdir ← lift (fun s => Ok (gs_resolve store s cwd raw_gitdir));
  cfg_out ← _run_git _CONFIG_LIST;
  cfg ← lift (fun _ => _parse_config sha256 cfg_out);
  attributes ← lift (fun s => gs_attributes store s commondir);
  mret {| sn_repo := commondir; sn_gitdir := gitdir; sn_config := cfg.1;
          sn_worktree_config := cfg.2; sn_attributes := attributes |}.

(** [sha256(...)[:32]] of the name. *)
Definition _baseline_path (commondir : string) : string :=
  String.substring 0 32 (sha256 commondir) +:+ ".json".
Definition _worktree_baseline_path (gitdir : string) : string :=
  _baseline_path (gitdir +:+ String nul "worktree").

Definition baseline_file (cwd : string) : M string :=
  out ← _run_git _REV_PARSE_DIRS;
  commondir ← lift (fun s => Ok (gs_resolve store s cwd (List.nth 0 (splitlines out) "")));
  mret (_baseline_path commondir).

Definition files_at (path : string) (s : S) : file := default Missing (gs_files store s !! path).

Definition _write_snapshot (path : string) (snap : dict) : M () := fun s =>
  if gs_writable store s
  then (Ok (), gs_put store (<[path := Json (JObj snap)]> (gs_files store s)) s, [])
  else (Err runtime_error, s, []).
Definition unlink (path : string) : M () := fun s =>
  (Ok (), gs_put store (delete path (gs_files store s)) s, []).

Definition _write_worktree_baseline (snap : Snapshot) : M () :=
  let path := _worktree_baseline_path (sn_gitdir snap) in
  if list_truthy (sn_worktree_config snap)
  then _write_snapshot path [("config", config_json (sn_worktree_config snap))]
  else unlink path.

Definition write_baselines (snap : Snapshot) : M () :=
  _write_snapshot (_baseline_path (sn_repo snap)) (_shared_snapshot snap) ;;
  _write_worktree_baseline snap.

Definition record_baseline (cwd : string) (overwrite : bool) : M () :=
  snap ← snapshot cwd;
  f ← lift (fun s => Ok (files_at (_baseline_path (sn_repo snap)) s));
  match f with
  | Missing => write_baselines snap
  | _ => if overwrite then write_baselines snap else mret ()
  end.

Definition record_worktree_baseline (cwd : string) : M () :=
  snap ← snapshot cwd; _write_worktree_baseline snap.

Definition check_git_metadata (cwd : string) : M () :=
  current ← snapshot cwd;
  f ← lift (fun s => Ok (files_at (_baseline_path (sn_repo current)) s));
  match f with
  | Missing => write_baselines current
  | _ =>
      base ← lift (fun _ => _load_baseline false f);
      w ← lift (fun s => Ok (files_at (_worktree_baseline_path (sn_gitdir current)) s));
      worktree ← lift (fun _ => match w with
                                | Missing => Ok []
                                | _ => let! b := _load_baseline true w in Ok b.1
                                end);
      if list_truthy (drift base worktree current) then fails runtime_error else mret ()
  end.

Definition merge_driver_pins (cwd : string) : M (list string) :=
  check_git_metadata cwd ;;
  out ← checked_run ["OSError"; "TimeoutExpired"; "UnicodeError"] _MERGE_DRIVER_KEYS;
  lift (fun _ => pins_of (split_on nul out)).
End GitMetadata.

(** ** Uploads *)

Definition slug_char (c : ascii) : bool :=
  let n := nat_of_ascii c in
  (48 <=? n) && (n <=? 57) || (65 <=? n) && (n <=? 90) || (97 <=? n) && (n <=? 122)
  || existsb (Nat.eqb n) [95; 46; 45].
Fixpoint all_slug (s : string) : bool :=
  match s with EmptyString => true | String c s' => slug_char c && all_slug s' end.
Definition slug (s : string) : bool := negb (is_empty s) && all_slug s.

Definition drop_suffix (p s : string) : option string :=
  String.rev <$> after_prefix (String.rev p) (String.rev s).

(** The second group is lazy: it leaves a final [.git] and a final [/] to what follows. *)
Definition _GITHUB_ORIGIN (url : string) : option (string * string) :=
  match after_prefix "https://github.com/" url with
  | Some rest =>
      match cut_at "/" rest with
      | Some (owner, tail) =>
          let tail := default tail (drop_suffix "/" tail) in
          let name := match drop_suffix ".git" tail with
                      | Some n => if is_empty n then tail else n
                      | None => tail
                      end in
          if slug owner && slug name then Some (owner, name) else None
      | None => None
      end
  | None => None
  end.

(** [git_lfs] says whether git-lfs is on PATH. *)
Definition lfs_push_argv (git_lfs : bool) (push_url_output ref : string) : option (list string) :=
  if negb git_lfs then None
  else if contains nl push_url_output || contains (String (ascii_of_nat 13) "") push_url_output
  then None
  else match _GITHUB_ORIGIN push_url_output with
       | Some (owner, name) =>
           if is_in ["."; ".."] owner || is_in ["."; ".."] name then None
           else
             let e := "https://github.com/" +:+ owner +:+ "/" +:+ name +:+ ".git/info/lfs" in
             Some ["git"; "-c"; "lfs.url=" +:+ e; "-c"; "lfs.pushurl=" +:+ e; "-c";
                   "lfs." +:+ e +:+ ".locksverify=false"; "-c"; "lfs.allowincompletepush=false";
                   "lfs"; "push"; "origin"; ref]
       | None => None
       end.

Definition CUSTOM_TRANSFER : string := "^(lfs\.customtransfer\.|url\.)".

Section Lfs.
Context {S E : Type} (run : list string -> Eff S E (Z * (string * string))).
Abbreviation M := (Eff S E).

(** True is the refusal; a timeout of the upload is caught, one of another command is not. *)
Definition lfs_upload (git_lfs : bool) (ref : string) : M bool :=
  if negb git_lfs then mret false
  else
    u ← run ["git"; "remote"; "get-url"; "--push"; "--all"; "origin"];
    let url := strip u.2.1 in
    if negb (u.1 =? 0)%Z || negb (startswith "https://github.com/" url) then mret false
    else
      gate ← run ["git"; "grep"; "-q"; "-F"; "-e"; "filter=lfs"; ref; "--"; ":(glob)**/.gitattributes"];
      if negb (gate.1 =? 0)%Z then mret false
      else
        match lfs_push_argv git_lfs url ref with
        | None =>
            filt ← run ["git"; "config"; "--local"; "--get"; "filter.lfs.clean"];
            mret (filt.1 =? 0)%Z
        | Some argv =>
            check ← run ["git"; "config"; "--name-only"; "--get-regexp"; CUSTOM_TRANSFER];
            if negb (check.1 =? 1)%Z then mret false
            else fun s =>
              let '(r, s', l) := run argv s in
              (match r with
               | Ok _ | Err (AppError "TimeoutExpired") => Ok false
               | Err e => Err e
               end, s', l)
        end.
End Lfs.

(** ** What the pins do *)

(** A key whose value git runs as a program in a merge or on checkout. *)
Definition program_key (k : string) : bool := is_merge_driver k || is_filter_command k.

(** The value the [-c] arguments give a key: the last one wins. *)
Fixpoint command_value (k : string) (args : list string) : option string :=
  match args with
  | "-c" :: kv :: args' =>
      match command_value k args' with
      | Some v => Some v
      | None => match cut_at "=" kv with
                | Some (k', v) => if String.eqb k k' then Some v else None
                | None => None
                end
      end
  | _ => None
  end.

(** A listing of keys is turned into arguments that give every key of a merge
    driver or of a filter command the empty value and no other key any value; it is refused
    exactly when such a key has an equals sign. *)
Theorem pins_neutralise_programs (keys : list string) :
  match pins_of keys with
  | Ok pins => forall k, command_value k pins
                         = if bool_decide (k ∈ keys) && program_key k then Some "" else None
  | Err e => e = runtime_error
             /\ exists k, k ∈ keys /\ program_key k = true /\ contains "=" k = true
  end.
Proof.
  induction keys as [|key keys IH]; [by intros k|]. cbn [pins_of]. fold (program_key key).
  destruct (program_key key) eqn:P.
  - destruct (contains "=" key) eqn:C.
    { split; [done|]. exists key. by rewrite list_elem_of_In; cbn; eauto. }
    destruct (pins_of keys) as [pins|e]; cbn.
    + intros k. rewrite IH, (cut_at_first "=" key "" C). clear IH.
      destruct (bool_decide (k ∈ keys) && program_key k) eqn:B.
      * apply andb_true_iff in B as [B ->]. apply bool_decide_eq_true in B.
        by rewrite bool_decide_true by (by apply list_elem_of_further).
      * destruct (String.eqb_spec k key) as [->|Hne].
        -- by rewrite P, bool_decide_true by apply list_elem_of_here.
        -- destruct (program_key k); [|by rewrite andb_false_r]. rewrite andb_true_r in *.
           apply bool_decide_eq_false in B. rewrite bool_decide_false; [done|].
           by intros [?|?]%elem_of_cons.
    + destruct IH as [-> (k & ? & ?)]. split; [done|]. exists k. split; [by apply list_elem_of_further|done].
  - destruct (pins_of keys) as [pins|e].
    + intros k. rewrite IH. destruct (decide (k = key)) as [->|Hne].
      * by rewrite P, !andb_false_r.
      * rewrite (bool_decide_ext (k ∈ keys) (k ∈ key :: keys)); [done|].
        rewrite elem_of_cons. tauto.
    + destruct IH as [-> (k & ? & ?)]. split; [done|]. exists k. split; [by apply list_elem_of_further|done].
Qed.

(** *** The environment *)

(** How git reads its configuration from the environment: the pairs below the count, the
    last of a key wins. *)
Definition git_pair (env : env_list) (i : nat) : option (string * string) :=
  match env_get (key_var i) env, env_get (value_var i) env with
  | Some k, Some v => Some (k, v)
  | _, _ => None
  end.
Definition last_value (key : string) (pairs : list (string * string)) : option string :=
  snd <$> last (keep (fun kv => String.eqb kv.1 key) pairs).
Definition git_pairs (env : env_list) : list (string * string) :=
  omap (git_pair env) (seq 0 (git_config_count env)).
Definition git_value (env : env_list) (key : string) : option string := last_value key (git_pairs env).

Lemma env_get_set k k' v env : env_get k (env_set k' v env) = if String.eqb k k' then Some v else env_get k env.
Proof.
  induction env as [|[k0 v0] env IH]; cbn; [done|].
  destruct (String.eqb_spec k' k0) as [<-|Hne]; cbn.
  - by destruct (String.eqb_spec k k').
  - destruct (String.eqb_spec k k0) as [->|]; [|done].
    destruct (String.eqb_spec k0 k'); congruence.
Qed.

Lemma key_var_eqb i j : String.eqb (key_var i) (key_var j) = (i =? j).
Proof.
  unfold key_var. destruct (Nat.eqb_spec i j) as [->|N]; [apply String.eqb_refl|].
  apply String.eqb_neq. intros E%app_first_inj. by apply (inj pretty) in E.
Qed.
Lemma value_var_eqb i j : String.eqb (value_var i) (value_var j) = (i =? j).
Proof.
  unfold value_var. destruct (Nat.eqb_spec i j) as [->|N]; [apply String.eqb_refl|].
  apply String.eqb_neq. intros E%app_first_inj. by apply (inj pretty) in E.
Qed.
Lemma key_value_eqb i j : String.eqb (key_var i) (value_var j) = false.
Proof. done. Qed.
Lemma value_key_eqb i j : String.eqb (value_var i) (key_var j) = false.
Proof. done. Qed.

Lemma git_pair_set i j k v env :
  git_pair (env_set (value_var j) v (env_set (key_var j) k env)) i
  = if i =? j then Some (k, v) else git_pair env i.
Proof.
  unfold git_pair. rewrite !env_get_set, key_value_eqb, value_key_eqb, key_var_eqb, value_var_eqb.
  by destruct (i =? j).
Qed.

Lemma git_pair_pins editor pager pins env n i :
  git_pair (set_pins editor pager n pins env) i
  = match (if n <=? i then pins !! (i - n) else None) with
    | Some (k, v) => Some (k, pin_value editor pager k v)
    | None => git_pair env i
    end.
Proof.
  revert n env. induction pins as [|[k v] pins IH]; intros n env; cbn [set_pins].
  - by destruct (n <=? i).
  - rewrite IH, git_pair_set.
    destruct (Nat.leb_spec (S n) i) as [L|L].
    + rewrite (proj2 (Nat.leb_le n i)) by lia. rewrite (proj2 (Nat.eqb_neq i n)) by lia.
      replace (i - n) with (S (i - S n)) by lia. done.
    + destruct (Nat.eqb_spec i n) as [->|N].
      * by rewrite Nat.leb_refl, Nat.sub_diag.
      * by rewrite (proj2 (Nat.leb_gt n i)) by lia.
Qed.

Lemma int_digits_go x b s :
  int_digits 0 b (pretty_N_go x s)
  = if decide (x = 0%N) then int_digits 0 b s else int_digits (Z.of_N x) true s.
Proof.
  revert s. induction (N.lt_wf_0 x) as [x _ IH]. intros s.
  destruct (decide (x = 0%N)) as [->|Hx]; [by rewrite pretty_N_go_0|].
  rewrite pretty_N_go_step by lia. rewrite IH by (apply N.div_lt; lia).
  pose proof (N.div_mod x 10) as D. cbn [int_digits].
  rewrite digit_of_pretty by (apply N.mod_lt; lia).
  destruct (decide _) as [E|E]; f_equal; lia.
Qed.

Lemma digit_not_blank c : is_digit c = true -> Prelude.is_blank c = false.
Proof. by destruct c as [[] [] [] [] [] [] [] []]. Qed.

Lemma lstrip_first c s : Prelude.is_blank c = false -> lstrip (String c s) = String c s.
Proof. intros B. change (lstrip (String c s)) with (if Prelude.is_blank c then lstrip s else String c s). by rewrite B. Qed.

Lemma all_digits_app a b : all_digits (a +:+ b) = all_digits a && all_digits b.
Proof. induction a as [|c a IH]; [done|]. rewrite string_app_cons. cbn. by rewrite IH, andb_assoc. Qed.

Lemma all_digits_rev s : all_digits (String.rev s) = all_digits s.
Proof.
  induction s as [|c s IH]; [done|].
  change (String c s) with (String c "" +:+ s).
  rewrite string_rev_app, !all_digits_app, IH. cbn. rewrite andb_true_r. apply andb_comm.
Qed.

Lemma lstrip_digits s : all_digits s = true -> lstrip s = s.
Proof.
  destruct s as [|c s]; [done|]. cbn [all_digits]. intros [D _]%andb_true_iff.
  by apply lstrip_first, digit_not_blank.
Qed.

Lemma strip_digits s : all_digits s = true -> strip s = s.
Proof.
  intros D. unfold strip. rewrite (lstrip_digits s D), lstrip_digits by (by rewrite all_digits_rev).
  apply string_rev_involutive.
Qed.

Lemma int_of_digits c s : all_digits (String c s) = true ->
  int_of_string (String c s) = int_digits 0 false (String c s).
Proof.
  intros D. unfold int_of_string. rewrite strip_digits by done. cbn [all_digits] in D.
  apply andb_true_iff in D as [D _]. by destruct c as [[] [] [] [] [] [] [] []].
Qed.

Lemma int_of_pretty (n : nat) : int_of_string (pretty n) = Some (Z.of_nat n).
Proof.
  unfold pretty, pretty_nat. pose proof (pretty_N_digits (N.of_nat n)) as D.
  pose proof (pretty_N_nonempty (N.of_nat n)) as E.
  destruct (pretty (N.of_nat n)) as [|c s] eqn:P; [done|]. rewrite int_of_digits by done.
  rewrite <- P. unfold pretty, pretty_N. destruct (decide _) as [O|O].
  - assert (n = 0) as -> by lia. done.
  - rewrite int_digits_go, decide_False by done. cbn [int_digits]. by rewrite nat_N_Z.
Qed.

Definition pinned_pairs (editor pager : string) : list (string * string) :=
  (fun kv => (kv.1, pin_value editor pager kv.1 kv.2)) <$> _GIT_PINS.

Lemma git_pair_outside i k v env :
  String.eqb (key_var i) k = false -> String.eqb (value_var i) k = false ->
  git_pair (env_set k v env) i = git_pair env i.
Proof. intros A B. unfold git_pair. by rewrite !env_get_set, A, B. Qed.

Lemma omap_ext_elem {A B} (f g : A -> option B) (l : list A) : (forall x, x ∈ l -> f x = g x) -> omap f l = omap g l.
Proof.
  induction l as [|x l IH]; intros E; [done|]. cbn. rewrite IH, E; [done|..];
    [apply list_elem_of_here | intros y Hy; apply E; by apply list_elem_of_further].
Qed.

Lemma omap_seq_lookup {A} (f : nat -> option A) (l : list A) n :
  (forall j, j < length l -> f (n + j) = l !! j) -> omap f (seq n (length l)) = l.
Proof.
  revert n. induction l as [|x l IH]; intros n F; [done|]. cbn.
  pose proof (F 0) as F0. rewrite Nat.add_0_r in F0. rewrite F0 by (cbn; lia). cbn. f_equal.
  apply IH. intros j Hj. rewrite Nat.add_succ_comm. rewrite F by (cbn; lia). done.
Qed.

Lemma pinned_git_pair editor pager env i :
  git_pair (pin_git_config editor pager env) i
  = git_pair (set_pins editor pager (git_config_count env) _GIT_PINS env) i.
Proof.
  unfold pin_git_config. by destruct (env_get "GIT_PAGER" _); rewrite !git_pair_outside.
Qed.

Lemma pinned_count editor pager env :
  git_config_count (pin_git_config editor pager env) = git_config_count env + length _GIT_PINS.
Proof.
  unfold git_config_count at 1.
  assert (env_get "GIT_CONFIG_COUNT" (pin_git_config editor pager env)
          = Some (pretty (git_config_count env + length _GIT_PINS))) as ->.
  { unfold pin_git_config. destruct (env_get "GIT_PAGER" _); by rewrite ?env_get_set. }
  cbn -[int_of_string pretty]. rewrite int_of_pretty. lia.
Qed.

Lemma pinned_git_pairs editor pager env :
  git_pairs (pin_git_config editor pager env) = git_pairs env ++ pinned_pairs editor pager.
Proof.
  unfold git_pairs. rewrite pinned_count, seq_app, omap_app. f_equal.
  - apply omap_ext_elem. intros i Hi. apply elem_of_seq in Hi.
    rewrite pinned_git_pair, git_pair_pins. by rewrite (proj2 (Nat.leb_gt (git_config_count env) i)) by lia.
  - transitivity (omap (git_pair (pin_git_config editor pager env))
                    (seq (git_config_count env) (length (pinned_pairs editor pager)))); [done|].
    apply omap_seq_lookup. intros j Hj.
    rewrite pinned_git_pair, git_pair_pins, (proj2 (Nat.leb_le (git_config_count env) (git_config_count env + j))) by lia.
    replace (git_config_count env + j - git_config_count env) with j by lia.
    unfold pinned_pairs. rewrite list_lookup_fmap. destruct (_GIT_PINS !! j) as [[k v]|] eqn:L; [done|].
    apply lookup_ge_None in L. unfold pinned_pairs in Hj. rewrite length_fmap in Hj. lia.
Qed.

Lemma last_value_app key l1 l2 :
  last_value key (l1 ++ l2) = match last_value key l2 with Some v => Some v | None => last_value key l1 end.
Proof.
  unfold last_value, keep. rewrite List.filter_app, last_app.
  by destruct (last (List.filter _ l2)).
Qed.

(** In the environment the pins leave, every pinned key has the pinned value
    whatever the environment held, and every other key the value it had. *)
Theorem environment_pins_win (editor pager : string) (env : env_list) (key : string) :
  git_value (pin_git_config editor pager env) key
  = match last_value key (pinned_pairs editor pager) with
    | Some v => Some v
    | None => git_value env key
    end.
Proof. unfold git_value. by rewrite pinned_git_pairs, last_value_app. Qed.

Example pins_of_the_server :
  (fun k => last_value k (pinned_pairs "true" "cat")) <$>
    ["core.hooksPath"; "core.sshCommand"; "core.pager"; "core.editor"; "credential.helper"; "user.name"]
  = [Some "/dev/null"; Some "ssh"; Some "cat"; Some "true"; Some ""; None].
Proof. reflexivity. Qed.

(** ** What the baseline detects *)

Definition config_dict (c : config) : dict := (fun kv => (kv.1, JStrs kv.2)) <$> c.

Lemma dget_config k c : dget k (config_dict c) = JStrs <$> config_get k c.
Proof. induction c as [|[k' l] c IH]; [done|]. cbn. by destruct (String.eqb k k'). Qed.

Lemma same_strs l m : same_value (Some (JStrs l)) (Some m) = true <-> l = m.
Proof.
  unfold same_value, JStrs. rewrite andb_true_iff, bool_decide_eq_true, length_fmap.
  revert m. induction l as [|x l IH]; intros [|y m]; cbn [length fmap list_fmap zip zip_with forallb fst snd].
  - done.
  - by split; [intros [] | intros].
  - by split; [intros [] | intros].
  - rewrite andb_true_iff, String.eqb_eq. specialize (IH m). split.
    + intros (H & -> & F). f_equal. apply IH. split; [lia | done].
    + intros [= -> ->]. destruct IH as [_ IH]. destruct (IH eq_refl). by repeat split.
Qed.

Lemma same_value_spec k b c :
  same_value (dget k (config_dict b)) (config_get k c) = true <-> config_get k b = config_get k c.
Proof.
  rewrite dget_config. destruct (config_get k b) as [l|], (config_get k c) as [m|]; cbn [fmap option_fmap option_map].
  - rewrite same_strs. naive_solver.
  - by cbn.
  - by cbn.
  - by cbn.
Qed.

Lemma dget_None k (d : dict) : k ∉ d.*1 -> dget k d = None.
Proof.
  induction d as [|[k' v] d IH]; cbn; [done|]. rewrite not_elem_of_cons. intros [N H].
  destruct (String.eqb_spec k k'); [done|]. by apply IH.
Qed.
Lemma config_get_None k (c : config) : k ∉ c.*1 -> config_get k c = None.
Proof.
  induction c as [|[k' v] c IH]; cbn; [done|]. rewrite not_elem_of_cons. intros [N H].
  destruct (String.eqb_spec k k'); [done|]. by apply IH.
Qed.

Lemma changed_nil b c :
  changed_keys (config_dict b) c = [] <-> forall k, config_get k b = config_get k c.
Proof.
  unfold changed_keys. split.
  - intros E k. apply same_value_spec. apply not_false_is_true. intros F.
    destruct (decide (k ∈ (config_dict b).*1 ++ c.*1)) as [I|I].
    + assert (k ∈ @nil string) as Hn; [|by apply elem_of_nil in Hn].
      rewrite <- E, elem_of_sort_by, elem_of_keep, elem_of_elements, elem_of_list_to_set, F. done.
    + apply not_elem_of_app in I as [I1 I2].
      by rewrite (dget_None _ _ I1), (config_get_None _ _ I2) in F.
  - intros E. apply elem_of_nil_inv. intros k. rewrite elem_of_sort_by, elem_of_keep.
    intros [_ F]. by rewrite (proj2 (same_value_spec k b c) (E k)) in F.
Qed.

(** The parts of a snapshot that are watched. *)
Definition same_metadata (b c : Snapshot) : Prop :=
  (forall k, config_get k (sn_config b) = config_get k (sn_config c))
  /\ (forall k, config_get k (sn_worktree_config b) = config_get k (sn_worktree_config c))
  /\ sn_attributes b = sn_attributes c.

Lemma drift_nil b c :
  drift (config_dict (sn_config b), sn_attributes b) (config_dict (sn_worktree_config b)) c = []
  <-> same_metadata b c.
Proof.
  unfold drift, same_metadata. cbn [fst snd].
  rewrite <- (changed_nil (sn_config b)), <- (changed_nil (sn_worktree_config b)).
  destruct (changed_keys (config_dict (sn_config b)) _), (changed_keys (config_dict (sn_worktree_config b)) _);
    destruct (bool_decide_reflect (sn_attributes b = sn_attributes c)); cbn; naive_solver.
Qed.

Section Drift.
Context {S E : Type} (sha256 : string -> string) (store : GitStore S).
Context (run : list string -> Eff S E (Z * string)).
Hypothesis put_files : forall f s, gs_files store (gs_put store f s) = f.

Abbreviation repo_path b := (_baseline_path sha256 (sn_repo b)).
Abbreviation gitdir_path b := (_worktree_baseline_path sha256 (sn_gitdir b)).

Lemma write_baselines_files b s0 s1 (l : list E) :
  write_baselines sha256 store b s0 = (Ok (), s1, l) -> repo_path b <> gitdir_path b ->
  files_at store (repo_path b) s1 = Json (JObj (_shared_snapshot b))
  /\ files_at store (gitdir_path b) s1
     = (if list_truthy (sn_worktree_config b)
        then Json (JObj [("config", config_json (sn_worktree_config b))]) else Missing).
Proof.
  unfold write_baselines, _write_worktree_baseline, _write_snapshot, unlink, files_at,
    mbind, Eff_bind. intros W N.
  destruct (gs_writable store s0); [|done]. destruct (list_truthy (sn_worktree_config b)).
  - destruct (gs_writable store _); [|done]. injection W as <- _. rewrite !put_files.
    by rewrite lookup_insert_ne, !lookup_insert_eq.
  - injection W as <- _. rewrite !put_files. by rewrite lookup_delete_ne, lookup_insert_eq, lookup_delete_eq.
Qed.

Lemma load_shared b :
  _load_baseline false (Json (JObj (_shared_snapshot b)))
  = Ok (config_dict (sn_config b), sn_attributes b).
Proof. cbn. by destruct (sn_attributes b). Qed.

Lemma load_worktree b w :
  w = (if list_truthy (sn_worktree_config b)
       then Json (JObj [("config", config_json (sn_worktree_config b))]) else Missing) ->
  match w with Missing => Ok [] | _ => let! p := _load_baseline true w in Ok p.1 end
  = Ok (config_dict (sn_worktree_config b)).
Proof. intros ->. by destruct (sn_worktree_config b). Qed.

(** After the baseline of a repository is recorded, and while the baseline files
    stay as they are, the check of a later snapshot passes exactly when every tracked key of
    the repository and of the worktree has the values it had and the attributes file is the
    same, and otherwise raises [RuntimeError]; it writes nothing either way. *)
Theorem metadata_drift_is_detected (cwd : string) (b c : Snapshot) (s0 s1 s s' : S)
    (l0 l : list E) :
  write_baselines sha256 store b s0 = (Ok (), s1, l0) ->
  snapshot sha256 store run cwd s = (Ok c, s', l) ->
  gs_files store s' = gs_files store s1 ->
  sn_repo c = sn_repo b -> sn_gitdir c = sn_gitdir b -> repo_path b <> gitdir_path b ->
  exists r, check_git_metadata sha256 store run cwd s = (r, s', l)
            /\ (r = Ok () <-> same_metadata b c) /\ (r = Ok () \/ r = Err runtime_error).
Proof.
  intros W R F Er Eg N. destruct (write_baselines_files b s0 s1 l0 W N) as [F1 F2].
  unfold files_at in F1, F2. rewrite <- F in F1, F2.
  unfold check_git_metadata. rewrite (bind_run _ _ _ _ _ _ R), !bind_lift.
  unfold files_at. rewrite Er, Eg, F1, !bind_lift, load_shared. cbv beta iota.
  rewrite !bind_lift, (load_worktree b _ F2). cbv beta iota.
  pose proof (drift_nil b c) as D.
  destruct (drift _ _ c) as [|x d]; cbn; rewrite app_nil_r; eexists; (split; [done|]).
  - naive_solver.
  - split; [|by right]. split; [done|]. by intros M%D.
Qed.
End Drift.

(** *** What a snapshot holds *)

Section Tracked.
Variable sha256 : string -> string.

(** The key and the value of an entry of the listing. *)
Definition entry_pair (e : string * string) : string * string := default (e.2, "") (cut_at nl e.2).

(** The values the listing gives a tracked key in one scope, in its order. *)
Definition tracked_values (scope k : string) (entries : list (string * string)) : list string :=
  omap (fun e => if String.eqb e.1 scope && String.eqb k (entry_pair e).1
                    && negb (is_empty k) && _is_tracked_config_key k (entry_pair e).2
                 then Some (entry_pair e).2 else None) entries.

Lemma config_get_add k k' x d :
  config_get k (add_value k' x d)
  = if String.eqb k k' then Some (default [] (config_get k d) ++ [x]) else config_get k d.
Proof.
  induction d as [|[k0 l] d IH]; cbn; [done|].
  destruct (String.eqb_spec k' k0) as [<-|Hne]; cbn.
  - by destruct (String.eqb_spec k k').
  - destruct (String.eqb_spec k k0) as [->|]; [|done].
    destruct (String.eqb_spec k0 k'); congruence.
Qed.

Lemma add_value_keys k x (d : config) :
  (add_value k x d).*1 = d.*1 \/ (k ∉ d.*1) /\ (add_value k x d).*1 = d.*1 ++ [k].
Proof.
  induction d as [|[k0 l] d IH]; cbn.
  - right. split; [apply not_elem_of_nil | done].
  - destruct (String.eqb_spec k k0) as [->|Hne]; [by left|]. cbn.
    destruct IH as [->|[N ->]]; [by left|]. right. rewrite not_elem_of_cons. done.
Qed.

Lemma add_value_NoDup k x (d : config) : NoDup d.*1 -> NoDup (add_value k x d).*1.
Proof.
  intros D. destruct (add_value_keys k x d) as [->|[N ->]]; [done|].
  rewrite NoDup_app. split; [done|]. split; [|apply NoDup_singleton].
  intros y Hy ->%list_elem_of_singleton. done.
Qed.

Lemma add_entries_NoDup scope entries d :
  NoDup d.*1 -> NoDup (foldl (add_entry sha256 scope) d entries).*1.
Proof.
  revert d. induction entries as [|e entries IH]; intros d D; [done|]. apply IH. unfold add_entry.
  destruct (String.eqb e.1 scope); [|done]. destruct (default (e.2, "") (cut_at nl e.2)) as [k v].
  destruct (negb (is_empty k) && _); [by apply add_value_NoDup | done].
Qed.

Lemma add_entries_get scope k entries d :
  config_get k (foldl (add_entry sha256 scope) d entries)
  = match tracked_values scope k entries with
    | [] => config_get k d
    | vs => Some (default [] (config_get k d) ++ (sha256 <$> vs))
    end.
Proof.
  revert d. induction entries as [|e entries IH]; intros d; [done|].
  cbn [foldl]. rewrite IH. clear IH. unfold tracked_values. cbn [omap list_omap].
  fold (tracked_values scope k entries). unfold add_entry. unfold entry_pair at 1 2 3.
  destruct (String.eqb e.1 scope); [|done].
  destruct (default (e.2, "") (cut_at nl e.2)) as [k' v]. cbn [fst snd andb].
  destruct (String.eqb_spec k k') as [<-|Hne]; cbn [andb].
  - destruct (negb (is_empty k) && _is_tracked_config_key k v); [|done].
    rewrite config_get_add, String.eqb_refl. cbn [default from_option].
    destruct (tracked_values scope k entries); [done|]. simpl. by rewrite <- app_assoc.
  - destruct (negb (is_empty k') && _); [|done].
    rewrite config_get_add. by rewrite (proj2 (String.eqb_neq k k') Hne).
Qed.

Lemma config_get_elem k l (d : config) : NoDup d.*1 -> config_get k d = Some l <-> (k, l) ∈ d.
Proof.
  induction d as [|[k' l'] d IH]; cbn.
  - intros _. split; [done | by intros ?%elem_of_nil].
  - rewrite NoDup_cons. intros [N D]. rewrite elem_of_cons.
    destruct (String.eqb_spec k k') as [->|Hne].
    + split; [intros [= ->]; by left|]. intros [[= ->]|H]; [done|].
      destruct N. apply list_elem_of_fmap. by exists (k', l).
    + rewrite (IH D). split; [by right|]. by intros [[= ]|H].
Qed.

Lemma sorted_config_get k (d : config) : NoDup d.*1 ->
  config_get k (sorted_config d) = sort_by String.leb <$> config_get k d.
Proof.
  intros D. set (m := (fun kv : string * list string => (kv.1, sort_by String.leb kv.2)) <$> d).
  assert (m.*1 = d.*1) as Em by (unfold m; rewrite <- list_fmap_compose; done).
  assert (config_get k m = sort_by String.leb <$> config_get k d) as <-.
  { unfold m. clear. induction d as [|[k' l] d IH]; [done|]. cbn. by destruct (String.eqb k k'). }
  assert (sorted_config d ≡ₚ m) as P by apply sort_by_perm.
  assert (NoDup (sorted_config d).*1) as Ds by (by rewrite P, Em).
  apply option_eq. intros l. rewrite !config_get_elem; [by rewrite P | by rewrite Em | done].
Qed.

(** The snapshot of a scope maps a tracked key to the sorted digests of all
    its values, and has no other key. *)
Theorem tracked_config_is_exact (scope k : string) (entries : list (string * string)) :
  config_get k (scope_config sha256 entries scope)
  = match tracked_values scope k entries with
    | [] => None
    | vs => Some (sort_by String.leb (sha256 <$> vs))
    end.
Proof.
  unfold scope_config. rewrite sorted_config_get by (apply add_entries_NoDup; constructor).
  rewrite add_entries_get. by destruct (tracked_values scope k entries).
Qed.
End Tracked.

(** ** Example: a repository whose configuration changes *)

Definition example_store : GitStore (gmap string file * string) := {|
  gs_files := fst;
  gs_put := fun f s => (f, s.2);
  gs_resolve := fun _ _ raw => raw;
  gs_attributes := fun _ _ => Ok None;
  gs_writable := fun _ => true;
|}.
Definition example_run (argv : list string) : Eff (gmap string file * string) () (Z * string) :=
  fun s => (Ok (0%Z, if bool_decide (argv = _REV_PARSE_DIRS) then "/r/.git" +:+ nl +:+ "/r/.git" else s.2), s, []).
Definition listed (l : list string) : string := String.concat "" ((fun x => x +:+ String nul "") <$> l).
Definition calm : string := listed ["local"; "core.bare" +:+ nl +:+ "false"; "global"; "alias.x" +:+ nl +:+ "y"].
Definition armed : string := listed ["local"; "merge.theirs.driver" +:+ nl +:+ "evil %A"].
Definition snapshot_of (text : string) : Snapshot :=
  match snapshot toy_hex example_store example_run "/r" (∅, text) with
  | (Ok snap, _, _) => snap
  | _ => {| sn_repo := ""; sn_gitdir := ""; sn_config := []; sn_worktree_config := []; sn_attributes := None |}
  end.
Definition recorded (text : string) : gmap string file * string :=
  (write_baselines toy_hex example_store (snapshot_of calm) (∅, text) : res () * _ * list ()).1.2.

Lemma metadata_drift_is_detected_witness :
  exists r, check_git_metadata toy_hex example_store example_run "/r" (recorded armed)
            = (r, recorded armed, [])
    /\ (r = Ok () <-> same_metadata (snapshot_of calm) (snapshot_of armed))
    /\ (r = Ok () \/ r = Err runtime_error).
Proof.
  apply (metadata_drift_is_detected toy_hex example_store example_run (fun _ _ => eq_refl)
           "/r" (snapshot_of calm) (snapshot_of armed) (∅, armed) (recorded armed) (recorded armed)
           (recorded armed) [] []);
    [vm_compute; reflexivity | vm_compute; reflexivity | reflexivity | reflexivity | reflexivity | discriminate].
Defined.

Example armed_is_refused :
  (check_git_metadata toy_hex example_store example_run "/r" (recorded armed)).1.1 = Err runtime_error
  /\ (check_git_metadata toy_hex example_store example_run "/r" (recorded calm)).1.1 = Ok ().
Proof. split; vm_compute; reflexivity. Qed.

(** ** Commands that are refused *)

(** What survives the checks of [validate_git]: no inline configuration of a dangerous key,
    no flag that runs a program, and no [git config] that names a dangerous key, edits
    wholesale or takes an argument that is not literal. *)
Lemma option_refusal_app l1 l2 : option_refusal (l1 ++ l2) = None -> option_refusal l2 = None.
Proof.
  induction l1 as [|t l1 IH]; [done|]. cbn [app option_refusal]. cbn zeta.
  destruct (if is_in _CONFIG_FLAGS _ then _ else _); [done|]. exact IH.
Qed.
Lemma config_refusal_app l1 l2 : _git_config_refusal (l1 ++ l2) = None -> _git_config_refusal l2 = None.
Proof.
  induction l1 as [|t l1 IH]; [done|]. cbn [app _git_config_refusal]. cbn zeta.
  destruct (if String.eqb _ "git" then _ else _); [done|]. exact IH.
Qed.

Definition harmless (tok : string) : Prop :=
  is_in _CONFIG_EDIT_MODES tok = false /\ contains "$" tok = false /\ contains "`" tok = false
  /\ (startswith "-" tok = true \/ _is_dangerous_git_config (hd "" (split_on "=" tok)) = false).

Lemma config_tokens_harmless l : config_tokens l = None -> Forall harmless l.
Proof.
  induction l as [|tok l IH]; intros C; constructor; cbn [config_tokens] in C; unfold harmless;
    destruct (is_in _CONFIG_EDIT_MODES tok); try done; destruct (contains "$" tok), (contains "`" tok);
    try done; cbn in C; destruct (startswith "-" tok), (_is_dangerous_git_config _); cbn in C; auto; done.
Qed.

(** When neither scan refuses the tokens of a command, no token is an inline
    configuration of a key that runs a program or a flag that names one, and the arguments of
    every [git config] are harmless. *)
Theorem accepted_git_is_harmless (tokens : list string) :
  option_refusal tokens = None -> _git_config_refusal tokens = None ->
  (forall l1 flag kv l2, tokens = l1 ++ flag :: kv :: l2 -> flag ∈ _CONFIG_FLAGS ->
     _is_dangerous_git_config (hd "" (split_on "=" kv)) = false)
  /\ (forall flag, flag ∈ tokens -> flag ∉ _DANGEROUS_GIT_FLAGS)
  /\ (forall l1 git rest args, tokens = l1 ++ git :: rest ->
        base_name (lstrip_of "({$`!" git) = "git" -> skip_options false rest = "config" :: args ->
        Forall harmless args).
Proof.
  intros O C. split; [|split].
  - intros l1 flag kv l2 -> F. apply option_refusal_app in O. cbn [option_refusal] in O. cbn zeta in O.
    apply elem_of_cons in F as [->|F%list_elem_of_singleton]; subst; cbn in O;
      by destruct (_is_dangerous_git_config _).
  - intros flag I F. apply list_elem_of_split in I as (l1 & l2 & ->).
    apply option_refusal_app in O. cbn [option_refusal] in O. cbn zeta in O.
    repeat (apply elem_of_cons in F as [->|F]; [by cbn in O|]). by apply elem_of_nil in F.
  - intros l1 git rest args -> B R. apply config_refusal_app in C. cbn [_git_config_refusal] in C.
    cbn zeta in C. rewrite B, R in C. cbn in C. destruct (config_tokens args) eqn:T; [done|].
    by apply config_tokens_harmless.
Qed.

Lemma accepted_git_is_harmless_witness : Forall harmless ["user.name"; "Ann"].
Proof.
  refine (proj2 (proj2 (accepted_git_is_harmless ["git"; "config"; "user.name"; "Ann"] _ _))
            [] "git" ["config"; "user.name"; "Ann"] _ _ _ _); reflexivity.
Defined.

Example refused_commands :
  option_refusal ["git"; "-c"; "core.sshCommand=sh"; "fetch"] = Some (InlineConfig "core.sshCommand")
  /\ _git_config_refusal ["x"; "|"; "git"; "-C"; "d"; "config"; "alias.a"; "!sh"] = Some (ConfigKey "alias.a").
Proof. split; reflexivity. Qed.
