(* ===== verification/Regex.v ===== *)
(** The regular expressions the program uses, as Python's [re] runs them: a
    backtracking matcher that returns the ends of a match in the order of preference of the
    engine, with groups, word boundaries and looks ahead and behind.

    A [Star] or a [Lazy] one repeats an expression that consumes at least one character, as every starred
    expression of the program does; its loop runs at most once per character left. *)
From S2P Require Import Prelude.
Local Open Scope nat_scope.

Inductive rx :=
  | Chr (f : ascii -> bool)
  | Eps
  | Cat (a b : rx)
  | Alt (a b : rx)
  | Star (a : rx)
  | Lazy (a : rx)
  | Group (n : nat) (a : rx)
  | TextStart
  | LineStart
  | LineEnd
  | TextEnd
  | WordBound
  | Ahead (a : rx)
  | NotAhead (f : ascii -> bool)
  | NotBehind (f : ascii -> bool).

(** A position of the text: the character before it, what follows, the groups captured. *)
Record pos := At { before : option ascii; rest : string; groups : list (nat * string) }.

(** ** Character classes *)

Definition is_char (c d : ascii) : bool := Ascii.eqb c d.
Definition one_of (cs : string) (c : ascii) : bool := existsb (Ascii.eqb c) (String.list_ascii_of_string cs).
Definition between (lo hi : nat) (c : ascii) : bool := (lo <=? nat_of_ascii c) && (nat_of_ascii c <=? hi).
Definition is_digit : ascii -> bool := between 48 57.
Definition is_alpha (c : ascii) : bool := between 65 90 c || between 97 122 c.
Definition is_word (c : ascii) : bool := is_alpha c || is_digit c || is_char "_" c.
Definition is_space (c : ascii) : bool := between 9 13 c || between 28 32 c.
Definition either (f g : ascii -> bool) (c : ascii) : bool := f c || g c.
Definition other_than (f : ascii -> bool) (c : ascii) : bool := negb (f c).
Definition any_char (_ : ascii) : bool := true.
(** A letter under IGNORECASE. *)
Definition same_letter (c d : ascii) : bool := Ascii.eqb (lower_ascii c) (lower_ascii d).

Fixpoint all_chars (f : ascii -> bool) (s : string) : bool :=
  match s with EmptyString => true | String c s' => f c && all_chars f s' end.

(** ** Derived expressions *)

Definition Maybe (a : rx) : rx := Alt a Eps.
Definition Plus (a : rx) : rx := Cat a (Star a).
Fixpoint seq_of (l : list rx) : rx :=
  match l with [] => Eps | [a] => a | a :: l' => Cat a (seq_of l') end.
Fixpoint alt_of (l : list rx) : rx :=
  match l with [] => Chr (fun _ => false) | [a] => a | a :: l' => Alt a (alt_of l') end.
Definition lit_with (eq : ascii -> ascii -> bool) (s : string) : rx :=
  seq_of ((fun c => Chr (eq c)) <$> String.list_ascii_of_string s).
Definition lit : string -> rx := lit_with is_char.
Definition lit_i : string -> rx := lit_with same_letter.

(** ** The matcher *)

(** The text between the position [p] and a later one. *)
Definition text_between (p q : pos) : string :=
  String.substring 0 (String.length (rest p) - String.length (rest q)) (rest p).

Definition wordish (c : option ascii) : bool := match c with Some c => is_word c | None => false end.
Definition next_char (p : pos) : option ascii :=
  match rest p with String c _ => Some c | EmptyString => None end.
Definition advanced (p q : pos) : bool := String.length (rest q) <? String.length (rest p).
Definition newline_char : ascii := ascii_of_nat 10.
Definition guard_pos (b : bool) (p : pos) : list pos := if b then [p] else [].

(** [n] repetitions at most, the longest first. *)
Fixpoint repeat_from (f : pos -> list pos) (n : nat) (p : pos) : list pos :=
  match n with
  | O => [p]
  | S n' => flat_map (fun q => if advanced p q then repeat_from f n' q else []) (f p) ++ [p]
  end.

(** The same, the shortest first. *)
Fixpoint repeat_lazy (f : pos -> list pos) (n : nat) (p : pos) : list pos :=
  match n with
  | O => [p]
  | S n' => p :: flat_map (fun q => if advanced p q then repeat_lazy f n' q else []) (f p)
  end.

Fixpoint step (r : rx) (p : pos) : list pos :=
  match r with
  | Chr f =>
      match rest p with
      | String c s => guard_pos (f c) (At (Some c) s (groups p))
      | EmptyString => []
      end
  | Eps => [p]
  | Cat a b => flat_map (step b) (step a p)
  | Alt a b => step a p ++ step b p
  | Star a => repeat_from (step a) (String.length (rest p)) p
  | Lazy a => repeat_lazy (step a) (String.length (rest p)) p
  | Group n a => (fun q => At (before q) (rest q) ((n, text_between p q) :: groups q)) <$> step a p
  | TextStart => guard_pos (match before p with None => true | Some _ => false end) p
  | LineStart => guard_pos (match before p with None => true | Some c => Ascii.eqb c newline_char end) p
  | LineEnd => guard_pos (is_empty (rest p) || String.eqb (rest p) (String newline_char "")) p
  | TextEnd => guard_pos (is_empty (rest p)) p
  | WordBound => guard_pos (xorb (wordish (before p)) (wordish (next_char p))) p
  | Ahead a => match step a p with q :: _ => [At (before p) (rest p) (groups q)] | [] => [] end
  | NotAhead f => guard_pos (match next_char p with Some c => negb (f c) | None => true end) p
  | NotBehind f => guard_pos (match before p with Some c => negb (f c) | None => true end) p
  end.

Definition start (s : string) : pos := At None s [].
Definition first_match (r : rx) (p : pos) : option pos := hd_error (step r p).

(** [re.match(r, s)], [re.fullmatch(r, s)] and [re.search(r, s)]. *)
Definition re_match (r : rx) (s : string) : option pos := first_match r (start s).
Definition re_fullmatch (r : rx) (s : string) : option pos :=
  List.find (fun q => is_empty (rest q)) (step r (start s)).

(** The first match at or after [p], with the position where it starts. *)
Fixpoint search_from (r : rx) (prev : option ascii) (s : string) : option (pos * pos) :=
  match first_match r (At prev s []) with
  | Some q => Some (At prev s [], q)
  | None => match s with EmptyString => None | String c s' => search_from r (Some c) s' end
  end.
Definition re_search (r : rx) (s : string) : option (pos * pos) := search_from r None s.

Definition is_some {A} (o : option A) : bool := match o with Some _ => true | None => false end.
Definition matches (r : rx) (s : string) : bool := is_some (re_match r s).
Definition fullmatches (r : rx) (s : string) : bool := is_some (re_fullmatch r s).
Definition searches (r : rx) (s : string) : bool := is_some (re_search r s).

(** [m.group(n)] *)
Fixpoint group_in (n : nat) (g : list (nat * string)) : option string :=
  match g with
  | [] => None
  | (k, s) :: g' => if n =? k then Some s else group_in n g'
  end.
Definition group (n : nat) (q : pos) : option string := group_in n (groups q).

(** The text cut at the matches [re.finditer] yields: single characters outside of them. *)
Inductive piece :=
  | Plain (c : ascii)
  | Hit (text : string) (caught : list (nat * string)).

Fixpoint pieces_from (r : rx) (n : nat) (p : pos) : list piece :=
  match n with
  | O => []
  | S n' =>
      match rest p with
      | EmptyString => []
      | String c s =>
          match first_match r p with
          | Some q =>
              if advanced p q
              then Hit (text_between p q) (groups q) :: pieces_from r n' (At (before q) (rest q) [])
              else Plain c :: pieces_from r n' (At (Some c) s [])
          | None => Plain c :: pieces_from r n' (At (Some c) s [])
          end
      end
  end.
Definition pieces (r : rx) (s : string) : list piece := pieces_from r (String.length s) (start s).

Definition piece_text (x : piece) : string :=
  match x with Plain c => String c "" | Hit t _ => t end.
Definition text_of (l : list piece) : string := foldr (fun x s => piece_text x +:+ s) "" l.

(** [re.sub(r, f, s)] *)
Definition re_sub (r : rx) (f : list (nat * string) -> string) (s : string) : string :=
  foldr (fun x t => match x with Plain c => String c t | Hit _ g => f g +:+ t end) "" (pieces r s).
(** [re.split(r, s)]: the texts between the matches. *)
Fixpoint split_pieces (l : list piece) : list string :=
  match l with
  | [] => [""]
  | Hit _ _ :: l' => "" :: split_pieces l'
  | Plain c :: l' =>
      match split_pieces l' with part :: more => String c part :: more | [] => [String c ""] end
  end.
Definition re_split (r : rx) (s : string) : list string := split_pieces (pieces r s).
(** [r.sub("", s, count=1)] for an expression that matches at the start only. *)
Definition drop_match (r : rx) (s : string) : string :=
  match re_match r s with Some q => rest q | None => s end.

(** The captures of [re.findall(r, s)]. *)
Definition hits (r : rx) (s : string) : list (list (nat * string)) :=
  omap (fun x => match x with Plain _ => None | Hit _ g => Some g end) (pieces r s).

(** ** What the matcher consumes *)

Lemma guard_pos_elem b p q : q ∈ guard_pos b p -> b = true /\ q = p.
Proof. destruct b; cbn; intros H; [by apply list_elem_of_singleton in H | by apply elem_of_nil in H]. Qed.

Lemma elem_of_flat_map {A B} (f : A -> list B) l y : y ∈ flat_map f l <-> exists x, x ∈ l /\ y ∈ f x.
Proof.
  rewrite list_elem_of_In, in_flat_map. split; intros (x & Hx & Hy); exists x;
    rewrite ?list_elem_of_In in *; done.
Qed.

(** A text that ends in another. *)
Definition ends_in (s t : string) : Prop := exists w, s = w +:+ t.

Lemma ends_in_refl s : ends_in s s.
Proof. by exists "". Qed.
Lemma ends_in_trans s t u : ends_in s t -> ends_in t u -> ends_in s u.
Proof. intros [v ->] [w ->]. exists (v +:+ w). by rewrite string_app_assoc. Qed.
Lemma ends_in_cons c s : ends_in (String c s) s.
Proof. by exists (String c ""). Qed.
#[local] Hint Resolve ends_in_refl ends_in_trans ends_in_cons : core.

Lemma repeat_from_ends f n p q :
  (forall p q, q ∈ f p -> ends_in (rest p) (rest q)) ->
  q ∈ repeat_from f n p -> ends_in (rest p) (rest q).
Proof.
  intros Hf. revert p. induction n as [|n IH]; cbn [repeat_from]; intros p H.
  - apply list_elem_of_singleton in H as ->. done.
  - apply elem_of_app in H as [H|H]; [|by apply list_elem_of_singleton in H as ->].
    apply elem_of_flat_map in H as (x & Hx & H). revert H. destruct (advanced p x); intros H; [eauto | by apply elem_of_nil in H].
Qed.

(** Preference orders the same ends. *)
Lemma repeat_lazy_elem f n p q : q ∈ repeat_lazy f n p <-> q ∈ repeat_from f n p.
Proof.
  revert p. induction n as [|n IH]; intros p; [done|]. cbn [repeat_lazy repeat_from].
  rewrite elem_of_cons, elem_of_app, list_elem_of_singleton, !elem_of_flat_map.
  assert (E : forall x, q ∈ (if advanced p x then repeat_lazy f n x else [])
                   <-> q ∈ (if advanced p x then repeat_from f n x else [])) by (intros x; by destruct (advanced p x)).
  setoid_rewrite E. tauto.
Qed.

Lemma step_ends r p q : q ∈ step r p -> ends_in (rest p) (rest q).
Proof.
  revert p q. induction r; cbn; intros p q H; try by (apply guard_pos_elem in H as [_ ->]).
  - destruct (rest p) as [|c s] eqn:E; [by apply elem_of_nil in H|].
    apply guard_pos_elem in H as [_ ->]. done.
  - by apply list_elem_of_singleton in H as ->.
  - apply elem_of_flat_map in H as (x & Hx & H). eauto.
  - apply elem_of_app in H as [H|H]; eauto.
  - by eapply repeat_from_ends.
  - apply repeat_lazy_elem in H. by eapply repeat_from_ends.
  - apply list_elem_of_fmap in H as (x & -> & H). cbn. eauto.
  - destruct (step r p); [by apply elem_of_nil in H|]. by apply list_elem_of_singleton in H as ->.
Qed.

Lemma first_match_ends r p q : first_match r p = Some q -> ends_in (rest p) (rest q).
Proof.
  unfold first_match. intros H. apply (step_ends r). destruct (step r p); [done|].
  injection H as ->. apply list_elem_of_here.
Qed.

Lemma substring_app (w t : string) :
  String.substring 0 (String.length (w +:+ t) - String.length t) (w +:+ t) = w.
Proof.
  rewrite string_app_length, Nat.add_sub. induction w as [|c w IH]; [by destruct t|].
  rewrite string_app_cons. cbn. by rewrite IH.
Qed.

Lemma text_between_app p q : ends_in (rest p) (rest q) -> rest p = text_between p q +:+ rest q.
Proof. intros [w E]. unfold text_between. by rewrite E, substring_app. Qed.

(** The pieces are a cut of the text: nothing is lost or invented. *)
Lemma pieces_from_text r n p : String.length (rest p) <= n -> text_of (pieces_from r n p) = rest p.
Proof.
  revert p. induction n as [|n IH]; intros p L; cbn [pieces_from].
  - by destruct (rest p); [|cbn in L; lia].
  - destruct (rest p) as [|c s] eqn:E; [done|]. cbn in L.
    assert (P : text_of (Plain c :: pieces_from r n (At (Some c) s [])) = String c s).
    { cbn. rewrite IH by (cbn; lia). done. }
    destruct (first_match r p) as [q|] eqn:F; [|done].
    destruct (advanced p q) eqn:A; [|done]. cbn. unfold advanced in A. rewrite E in A. cbn in A.
    apply Nat.leb_le in A. rewrite IH by (cbn; lia). cbn.
    rewrite <- text_between_app; [done|]. by apply (first_match_ends r).
Qed.

Lemma pieces_text r s : text_of (pieces r s) = s.
Proof. unfold pieces. by apply (pieces_from_text r _ (start s)). Qed.

Example search_example :
  (fun x => text_between x.1 x.2) <$> re_search (seq_of [WordBound; lit_i "drop"; Plus (Chr is_space); lit_i "table"; WordBound]) "a DROP  Table x"
  = Some "DROP  Table".
Proof. reflexivity. Qed.
