(* ===== verification/Shlex.v ===== *)
(** [shlex.split] (POSIX, whitespace_split, no comments), [shlex.quote] and [shlex.join] of
    Python's library, and the proof that a joined list of words splits into these words. *)
From S2P Require Import Prelude Regex.
Local Open Scope nat_scope.

Definition backslash : ascii := ascii_of_nat 92.
Definition squote : ascii := ascii_of_nat 39.
Definition dquote : ascii := ascii_of_nat 34.

(** [shlex.whitespace] and [shlex.quotes] *)
Definition lex_space (c : ascii) : bool := one_of (String (ascii_of_nat 9) (String (ascii_of_nat 10) (String (ascii_of_nat 13) " "))) c.
Definition is_quote (c : ascii) : bool := Ascii.eqb c squote || Ascii.eqb c dquote.

(** The states of the reader: between words, in a word, in quotes, after a backslash met in
    double quotes or outside of them. *)
Inductive lex_state := Blank | Word | Quoted (q : ascii) | Escape (inside : option ascii).

Definition put (tok : string) (c : ascii) : string := tok +:+ String c "".

(** A word ends: it counts when it has a character or had quotes. *)
Definition flush (tok : string) (quoted : bool) (l : list string) : list string :=
  if quoted || negb (is_empty tok) then tok :: l else l.

Fixpoint lex (st : lex_state) (tok : string) (quoted : bool) (s : string) : res (list string) :=
  match s with
  | EmptyString =>
      match st with
      | Blank => Ok []
      | Word => Ok (flush tok quoted [])
      | Quoted _ | Escape _ => Err ValueError
      end
  | String c s' =>
      match st with
      | Blank =>
          if lex_space c then lex Blank "" false s'
          else if Ascii.eqb c backslash then lex (Escape None) "" false s'
          else if is_quote c then lex (Quoted c) "" false s'
          else lex Word (String c "") false s'
      | Word =>
          if lex_space c then flush tok quoted <$> lex Blank "" false s'
          else if is_quote c then lex (Quoted c) tok quoted s'
          else if Ascii.eqb c backslash then lex (Escape None) tok quoted s'
          else lex Word (put tok c) quoted s'
      | Quoted q =>
          if Ascii.eqb c q then lex Word tok true s'
          else if Ascii.eqb c backslash && Ascii.eqb q dquote then lex (Escape (Some q)) tok true s'
          else lex st (put tok c) true s'
      | Escape None => lex Word (put tok c) quoted s'
      | Escape (Some q) =>
          let tok := if Ascii.eqb c backslash || Ascii.eqb c q then tok else put tok backslash in
          lex (Quoted q) (put tok c) quoted s'
      end
  end.

Definition split (s : string) : res (list string) := lex Blank "" false s.

(** [re.compile(r"[^\w@%+=:,./-]", re.ASCII)] finds no character. *)
Definition safe_char : ascii -> bool := either is_word (one_of "@%+=:,./-").


(** [s.replace("'", "'\"'\"'")]: a quote leaves the quotes, stands in double quotes, and
    enters them again. *)
Definition quote_escape : string :=
  String squote (String dquote (String squote (String dquote (String squote "")))).
Fixpoint escape_quotes (s : string) : string :=
  match s with
  | EmptyString => ""
  | String c s' => (if Ascii.eqb c squote then quote_escape else String c "") +:+ escape_quotes s'
  end.

Definition quote (s : string) : string :=
  if is_empty s then String squote (String squote "")
  else if all_chars safe_char s then s
  else String squote (escape_quotes s +:+ String squote "").

Definition join_words (l : list string) : string := join " " (quote <$> l).

(** ** The round trip *)

Lemma put_app tok c s : put tok c +:+ s = tok +:+ String c s.
Proof. unfold put. by rewrite string_app_assoc. Qed.

Lemma safe_plain c : safe_char c = true -> lex_space c = false /\ is_quote c = false /\ Ascii.eqb c backslash = false.
Proof. destruct c as [[] [] [] [] [] [] [] []]; (discriminate || by intros _). Qed.

Lemma lex_safe s tok q r :
  all_chars safe_char s = true -> lex Word tok q (s +:+ r) = lex Word (tok +:+ s) q r.
Proof.
  revert tok. induction s as [|c s IH]; intros tok H; [by rewrite string_app_nil, string_app_empty|].
  cbn [all_chars] in H. apply andb_true_iff in H as [Hc H].
  destruct (safe_plain c Hc) as (E1 & E2 & E3).
  rewrite string_app_cons. cbn [lex]. rewrite E1, E2, E3, IH, put_app by done. done.
Qed.

Lemma lex_quoted_body s tok b r :
  lex (Quoted squote) tok b (escape_quotes s +:+ String squote r) = lex Word (tok +:+ s) true r.
Proof.
  revert tok b. induction s as [|c s IH]; intros tok b.
  - cbn. by rewrite string_app_empty.
  - cbn [escape_quotes]. rewrite string_app_assoc. destruct (Ascii.eqb_spec c squote) as [->|N].
    + change (lex (Quoted squote) (put tok squote) true (escape_quotes s +:+ String squote r)
              = lex Word (tok +:+ String squote s) true r).
      by rewrite IH, put_app.
    + rewrite string_app_cons, string_app_nil. cbn [lex].
      destruct (Ascii.eqb_spec c squote); [done|].
      replace (Ascii.eqb squote dquote) with false by done. rewrite andb_false_r, IH. by rewrite put_app.
Qed.

(** Reading a quoted word from between the words. *)
Lemma lex_quote s r :
  exists q, q || negb (is_empty s) = true /\ lex Blank "" false (quote s +:+ r) = lex Word s q r.
Proof.
  unfold quote. destruct s as [|c s]; [by exists true|]. cbn [is_empty].
  destruct (all_chars safe_char (String c s)) eqn:S.
  - exists false. split; [done|]. cbn [all_chars] in S. apply andb_true_iff in S as [Hc S].
    destruct (safe_plain c Hc) as (E1 & E2 & E3).
    rewrite string_app_cons. cbn [lex]. rewrite E1, E2, E3, lex_safe by done. done.
  - exists true. split; [done|]. rewrite string_app_cons, string_app_assoc, string_app_cons, string_app_nil.
    apply (lex_quoted_body (String c s) "" false r).
Qed.

(** [shlex.split(shlex.join(l)) == l] *)
Lemma split_join l : split (join_words l) = Ok l.
Proof.
  unfold split, join_words, join. induction l as [|s l IH]; [done|].
  destruct l as [|t l].
  - cbn. destruct (lex_quote s "") as (q & Hq & E). rewrite string_app_empty in E. rewrite E. cbn.
    unfold flush. by rewrite Hq.
  - change (String.concat " " (quote <$> s :: t :: l))
      with (quote s +:+ (" " +:+ String.concat " " (quote <$> t :: l))).
    destruct (lex_quote s (" " +:+ String.concat " " (quote <$> t :: l))) as (q & Hq & E). rewrite E.
    change (flush s q <$> lex Blank "" false (String.concat " " (quote <$> t :: l)) = Ok (s :: t :: l)).
    rewrite IH. cbn. unfold flush. by rewrite Hq.
Qed.

#[export] Hint Rewrite split_join : aif.

Example split_examples :
  split "rm -rf 'a b' c\ d" = Ok ["rm"; "-rf"; "a b"; "c d"]
  /\ split "echo 'x" = Err ValueError
  /\ join_words ["a"; ""; "b c"] = "a '' 'b c'".
Proof. done. Qed.
