(* ===== verification/ExecContext.v ===== *)
(** backend/security/exec_context.py: the worktree root a validator sees, and the lexical
    test that a path leaves it, with the functions of [posixpath] it calls.

    The reference is a walk: a path is read component by component from a directory, [..]
    goes to the parent.  The test agrees with it. *)
From S2P Require Import Prelude EventMonad Regex.
Local Open Scope nat_scope.

(** ** posixpath *)

Definition isabs (p : string) : bool := startswith "/" p.
Definition ends_with_slash (p : string) : bool := startswith "/" (String.rev p).
Definition path_join (a b : string) : string :=
  if isabs b then b
  else if is_empty a || ends_with_slash a then a +:+ b
  else a +:+ String "/" b.

(** The slashes a normalised path keeps: two, one or none. *)
Definition initial_slashes (p : string) : nat :=
  if startswith "//" p && negb (startswith "///" p) then 2 else if isabs p then 1 else 0.

(** [new_comps], the last component first. *)
Definition norm_step (slashes : nat) (stack : list string) (comp : string) : list string :=
  if is_empty comp || String.eqb comp "." then stack
  else if negb (String.eqb comp "..")
          || ((slashes =? 0) && match stack with [] => true | _ => false end)
          || match stack with top :: _ => String.eqb top ".." | [] => false end
  then comp :: stack
  else tl stack.

Definition norm_comps (p : string) : list string :=
  reverse (foldl (norm_step (initial_slashes p)) [] (split_on "/" p)).

Fixpoint slashes (n : nat) : string := match n with O => "" | S n' => String "/" (slashes n') end.

Definition normpath (p : string) : string :=
  if is_empty p then "."
  else
    let path := slashes (initial_slashes p) +:+ join "/" (norm_comps p) in
    if is_empty path then "." else path.

Definition abspath (cwd p : string) : string :=
  normpath (if isabs p then p else path_join cwd p).

(** The components of a path, without the empty ones and the dots. *)
Definition real_comp (c : string) : bool := negb (is_empty c) && negb (String.eqb c ".").
Definition comps (p : string) : list string := keep real_comp (split_on "/" p).

Fixpoint common_prefix (l k : list string) : list string :=
  match l, k with
  | x :: l', y :: k' => if String.eqb x y then x :: common_prefix l' k' else []
  | _, _ => []
  end.

(** [os.path.commonpath] of two paths. *)
Definition commonpath (a b : string) : res string :=
  if Bool.eqb (isabs a) (isabs b)
  then Ok ((if isabs a then "/" else "") +:+ join "/" (common_prefix (comps a) (comps b)))
  else Err ValueError.

(** ** The context variable *)

(** The worktree root of the validation that runs, and the rest of the process. *)
Record Ctx {W : Type} := { _worktree_root : option string; ctx_world : W }.
Arguments Ctx : clear implicits.
Arguments Build_Ctx {W} _ _.

Section Context_variable.
Context {W E : Type}.
Abbreviation M := (Eff (Ctx W) E).

Definition set_root (path : option string) (s : Ctx W) : Ctx W :=
  Build_Ctx path (ctx_world s).
(** The token is the value to restore. *)
Definition set_worktree_root (path : option string) : M (option string) := fun s =>
  (Ok (_worktree_root s), set_root path s, []).
Definition reset_worktree_root (token : option string) : M () := fun s =>
  (Ok (), set_root token s, []).
Definition get_worktree_root : M (option string) := reads _worktree_root.
End Context_variable.

(** ** Containment *)

(** [s.replace("\\", "/")] *)
Fixpoint slash_backslashes (s : string) : string :=
  match s with
  | EmptyString => ""
  | String c s' => String (if nat_of_ascii c =? 92 then "/"%char else c) (slash_backslashes s')
  end.

Definition target_escapes_worktree (getcwd path_str : string) (root : option string) : bool :=
  if is_empty path_str then false
  else
    match root with
    | None =>
        if startswith "/" path_str || startswith "~" path_str then true
        else existsb (String.eqb "..") (split_on "/" (slash_backslashes path_str))
    | Some root =>
        let root_norm := normpath (abspath getcwd root) in
        let target := if isabs path_str then path_str else path_join root_norm path_str in
        let target_norm := normpath target in
        match commonpath root_norm target_norm with
        | Ok common => negb (String.eqb common root_norm)
        | Err _ => true
        end
    end.

(** ** The walk *)

(** One component: the parent of the root directory is itself. *)
Definition walk_step (dir : list string) (comp : string) : list string :=
  if real_comp comp then if String.eqb comp ".." then tl dir else comp :: dir else dir.
(** The directory a path leads to from [dir], as components from the root. *)
Definition walk (dir : list string) (p : string) : list string :=
  reverse (foldl walk_step (if isabs p then [] else reverse dir) (split_on "/" p)).

(** ** Splitting at slashes *)

Definition slash_free (s : string) : bool := all_chars (other_than (is_char "/")) s.

Lemma split_on_cons c s : exists x l, split_on c s = x :: l.
Proof.
  destruct s as [|d s]; cbn; [by exists "", []|]. destruct (Ascii.eqb d c); [eauto|].
  destruct (split_on c s); eauto.
Qed.

Lemma split_on_app a b : split_on "/" (a +:+ String "/" b) = split_on "/" a ++ split_on "/" b.
Proof.
  induction a as [|c a IH]; [done|]. rewrite string_app_cons. cbn [split_on]. rewrite IH.
  destruct (Ascii.eqb c "/"); [done|]. destruct (split_on_cons "/" a) as (x & l & ->). done.
Qed.

Lemma split_on_free s : slash_free s = true -> split_on "/" s = [s].
Proof.
  induction s as [|c s IH]; [done|]. cbn. intros H. apply andb_true_iff in H as [Hc H].
  unfold other_than, is_char in Hc. rewrite Ascii.eqb_sym in Hc.
  destruct (Ascii.eqb c "/"); [done|]. by rewrite IH.
Qed.

Lemma split_on_elem x s : x ∈ split_on "/" s -> slash_free x = true.
Proof.
  revert x. induction s as [|c s IH]; intros x; cbn [split_on].
  - intros ->%list_elem_of_singleton. done.
  - destruct (Ascii.eqb c "/") eqn:E.
    + intros [->|H]%elem_of_cons; [done | auto].
    + destruct (split_on_cons "/" s) as (y & l & Y). rewrite Y in *.
      intros [->|H]%elem_of_cons; [|apply IH; by apply list_elem_of_further].
      cbn. unfold other_than, is_char at 1. rewrite Ascii.eqb_sym, E. apply IH, list_elem_of_here.
Qed.

Lemma split_on_join x l :
  Forall (fun s => slash_free s = true) (x :: l) -> split_on "/" (join "/" (x :: l)) = x :: l.
Proof.
  revert x. induction l as [|y l IH]; intros x H; apply Forall_cons in H as [Hx H].
  - by apply split_on_free.
  - change (join "/" (x :: y :: l)) with (x +:+ String "/" (join "/" (y :: l))).
    by rewrite split_on_app, split_on_free, IH.
Qed.

(** ** Normalised paths *)

(** A component of a normalised absolute path. *)
Definition dir_name (c : string) : Prop := slash_free c = true /\ real_comp c = true /\ c <> "..".

Lemma walk_stack stack l :
  Forall dir_name stack -> Forall (fun s => slash_free s = true) l ->
  Forall dir_name (foldl walk_step stack l)
  /\ forall n, 0 < n -> foldl (norm_step n) stack l = foldl walk_step stack l.
Proof.
  revert stack. induction l as [|c l IH]; intros stack Hs Hl; [done|]. cbn.
  apply Forall_cons in Hl as [Hc Hl].
  assert (S : Forall dir_name (walk_step stack c)).
  { unfold walk_step. destruct (real_comp c) eqn:R; [|done].
    destruct (String.eqb_spec c ".."); [by destruct Hs | by constructor]. }
  destruct (IH _ S Hl) as [D N]. split; [done|]. intros n Hn. rewrite <- (N n Hn). f_equal.
  unfold norm_step, walk_step, real_comp. destruct (is_empty c); [done|].
  destruct (String.eqb c "."); [done|]. cbn.
  replace (n =? 0) with false by (symmetry; apply Nat.eqb_neq; lia).
  destruct (String.eqb_spec c ".."); [|done]. destruct Hs as [|top stack (_ & _ & T) _]; [done|].
  apply String.eqb_neq in T. by rewrite T.
Qed.

Lemma split_on_Forall s : Forall (fun x => slash_free x = true) (split_on "/" s).
Proof. apply Forall_forall. intros x. apply split_on_elem. Qed.

Lemma walk_dirs dir p : Forall dir_name dir -> Forall dir_name (walk dir p).
Proof.
  intros H. unfold walk. apply Forall_reverse, walk_stack; [|apply split_on_Forall].
  destruct (isabs p); [done | by apply Forall_reverse].
Qed.

Lemma startswith_head c d p q : startswith (String c p) (String d q) = Ascii.eqb c d && startswith p q.
Proof.
  unfold startswith. cbn [String.prefix]. destruct (ascii_dec c d) as [->|N].
  - by rewrite Ascii.eqb_refl.
  - by destruct (Ascii.eqb_spec c d).
Qed.

Lemma initial_slashes_abs p : isabs p = true <-> 0 < initial_slashes p.
Proof.
  unfold initial_slashes, isabs. destruct p as [|c p]; [by split; [|cbn; lia]|].
  rewrite !startswith_head. destruct (Ascii.eqb "/" c); cbn [andb negb].
  - replace (startswith "" p) with true by (by destruct p). split; [|done]. intros _. destruct (_ && _); lia.
  - split; [done | lia].
Qed.

Lemma norm_comps_walk p : isabs p = true -> norm_comps p = walk [] p.
Proof.
  intros A. unfold norm_comps, walk. rewrite A. f_equal. apply walk_stack; [done | apply split_on_Forall|].
  by apply initial_slashes_abs.
Qed.

(** The text of a normalised path with one leading slash, or two. *)
Lemma normpath_abs p : isabs p = true ->
  normpath p = slashes (initial_slashes p) +:+ join "/" (walk [] p).
Proof.
  intros A. unfold normpath. rewrite norm_comps_walk by done.
  destruct p as [|c p]; [done|]. cbn [is_empty].
  apply initial_slashes_abs in A. destruct (initial_slashes (String c p)); [lia | done].
Qed.

(** A component a path keeps. *)
Definition path_comp (c : string) : Prop := slash_free c = true /\ real_comp c = true.

Lemma dirs_comps l : Forall dir_name l -> Forall path_comp l.
Proof. intros H. eapply Forall_impl; [exact H|]. by intros c (F & R & _). Qed.

Lemma keep_comps l : Forall path_comp l -> keep real_comp l = l.
Proof. induction 1 as [|x l [_ R] H IH]; [done|]. unfold keep in *. cbn. by rewrite R, IH. Qed.

(** Slashes and joined components read back as the components. *)
Lemma comps_render n l : Forall path_comp l -> comps (slashes n +:+ join "/" l) = l.
Proof.
  intros Hl. unfold comps. induction n as [|n IH].
  - cbn [slashes]. rewrite string_app_nil. destruct l as [|x l]; [done|].
    rewrite split_on_join by (eapply Forall_impl; [exact Hl|]; by intros y [? _]). by apply keep_comps.
  - cbn [slashes]. rewrite string_app_cons. cbn [split_on].
    replace (Ascii.eqb "/" "/") with true by done. exact IH.
Qed.

Lemma comps_Forall p : Forall path_comp (comps p).
Proof.
  apply Forall_forall. intros c [Hc R]%elem_of_keep. split; [by eapply split_on_elem | done].
Qed.

Lemma comps_normpath p : isabs p = true -> comps (normpath p) = walk [] p.
Proof.
  intros A. rewrite normpath_abs by done. apply comps_render, dirs_comps, walk_dirs. constructor.
Qed.

Lemma foldl_walk_dirs stack l : Forall dir_name l -> foldl walk_step stack l = reverse l ++ stack.
Proof.
  intros H. revert stack. induction H as [|x l (F & R & N) H IH]; intros stack; [done|]. cbn [foldl].
  unfold walk_step at 2. rewrite R. apply String.eqb_neq in N. rewrite N, IH, reverse_cons.
  by rewrite <- app_assoc.
Qed.

Lemma foldl_walk_keep stack l : foldl walk_step stack l = foldl walk_step stack (keep real_comp l).
Proof.
  revert stack. induction l as [|x l IH]; intros stack; [done|]. unfold keep in *. cbn.
  destruct (real_comp x) eqn:R; cbn; rewrite IH; [done|]. unfold walk_step at 2. by rewrite R.
Qed.

(** A walk over the real components. *)
Lemma walk_comps dir p :
  walk dir p = reverse (foldl walk_step (if isabs p then [] else reverse dir) (comps p)).
Proof. unfold walk, comps. by rewrite <- foldl_walk_keep. Qed.

Lemma isabs_app a b : isabs a = true -> isabs (a +:+ b) = true.
Proof.
  unfold isabs. destruct a as [|c a]; [done|]. rewrite string_app_cons, !startswith_head.
  intros H. apply andb_true_iff in H as [-> _]. by destruct (a +:+ b).
Qed.

Lemma isabs_normpath p : isabs p = true -> isabs (normpath p) = true.
Proof.
  intros A. rewrite normpath_abs by done.
  apply initial_slashes_abs in A. destruct (initial_slashes p) as [|n]; [lia|].
  apply isabs_app. unfold isabs. cbn [slashes]. rewrite startswith_head. by destruct (slashes n).
Qed.

(** Normalising does not change where an absolute path leads. *)
Lemma walk_normpath p : isabs p = true -> walk [] (normpath p) = walk [] p.
Proof.
  intros A. rewrite walk_comps, comps_normpath by done.
  rewrite foldl_walk_dirs by (by apply walk_dirs). rewrite isabs_normpath by done.
  by rewrite app_nil_r, reverse_involutive.
Qed.

(** A relative path joined to a directory leads where it leads from there. *)
Lemma walk_join a b : isabs a = true -> isabs b = false ->
  isabs (path_join a b) = true /\ walk [] (path_join a b) = walk (walk [] a) b.
Proof.
  intros A B. unfold path_join. rewrite B. destruct (is_empty a) eqn:Ea; [by destruct a|].
  cbn [orb]. destruct (ends_with_slash a) eqn:Es.
  - split; [by apply isabs_app|].
    assert (exists d, a = d +:+ String "/" "") as [d ->].
    { unfold ends_with_slash in Es. destruct (String.rev a) as [|c r] eqn:R; [done|].
      rewrite startswith_head in Es. apply andb_true_iff in Es as [Hc _].
      apply Ascii.eqb_eq in Hc as <-. exists (String.rev r).
      rewrite <- (string_rev_involutive a), R. unfold String.rev. cbn. apply rev_app_eq. }
    unfold walk. rewrite isabs_app, A, B, string_app_assoc, string_app_cons, string_app_nil, !split_on_app,
      !foldl_app by done. by rewrite reverse_involutive.
  - split; [by apply isabs_app|]. unfold walk. rewrite isabs_app, A, B, split_on_app, foldl_app by done.
    by rewrite reverse_involutive.
Qed.

Lemma join_dirs_inj l k : Forall dir_name l -> Forall dir_name k ->
  join "/" l = join "/" k -> l = k.
Proof.
  intros Hl%dirs_comps Hk%dirs_comps E. by rewrite <- (comps_render 0 l Hl), E, comps_render.
Qed.

Lemma common_prefix_spec l k : common_prefix l k = l <-> l `prefix_of` k.
Proof.
  revert k. induction l as [|x l IH]; intros [|y k]; cbn.
  - by split; [intros _; apply prefix_nil|].
  - by split; [intros _; apply prefix_nil|].
  - split; [done|]. intros [r E]. done.
  - destruct (String.eqb_spec x y) as [->|N].
    + split.
      * intros [= H]. apply prefix_cons, IH, H.
      * intros H%prefix_cons_inv_2. f_equal. by apply IH.
    + split; [done|]. intros H%prefix_cons_inv_1. done.
Qed.

Lemma common_prefix_dirs l k : Forall dir_name l -> Forall dir_name (common_prefix l k).
Proof.
  intros H. revert k. induction H as [|x l Hx H IH]; intros [|y k]; cbn; try constructor.
  destruct (String.eqb x y); constructor; auto.
Qed.

Lemma join_relative l : Forall path_comp l -> isabs (join "/" l) = false.
Proof.
  intros H. destruct H as [|x l [F R] H]; [done|]. destruct x as [|c x]; [done|].
  unfold slash_free, other_than, is_char in F. cbn [all_chars] in F. apply andb_true_iff in F as [F _].
  assert (E : exists t, join "/" (String c x :: l) = String c t) by (destruct l; eexists; reflexivity).
  destruct E as [t ->]. unfold isabs. rewrite startswith_head. by destruct (Ascii.eqb "/" c).
Qed.

Lemma initial_slashes_render l : Forall dir_name l -> initial_slashes (String "/" (join "/" l)) = 1.
Proof.
  intros H. pose proof (join_relative l (dirs_comps l H)) as N.
  unfold initial_slashes, isabs in *. rewrite !startswith_head, N. cbn. by destruct (join "/" l).
Qed.

(** The absolute path [os.path.abspath] normalises. *)
Definition anchored (getcwd root : string) : string :=
  if isabs root then root else path_join getcwd root.

Lemma normpath_one p : initial_slashes p = 1 -> normpath p = String "/" (join "/" (walk [] p)).
Proof. intros H. rewrite normpath_abs by (apply initial_slashes_abs; lia). by rewrite H. Qed.

Lemma root_norm_text getcwd root : initial_slashes (anchored getcwd root) = 1 ->
  normpath (abspath getcwd root) = String "/" (join "/" (walk [] (anchored getcwd root))).
Proof.
  intros H. unfold abspath. fold (anchored getcwd root).
  set (p := anchored getcwd root) in *. rewrite normpath_one.
  - by rewrite walk_normpath by (apply initial_slashes_abs; lia).
  - rewrite normpath_one by done. apply initial_slashes_render, walk_dirs. constructor.
Qed.

Lemma comps_slash l : Forall dir_name l -> comps (String "/" (join "/" l)) = l.
Proof.
  intros H. exact (comps_render 1 l (dirs_comps l H)).
Qed.

Lemma walk_here dir : walk dir "" = dir.
Proof. apply reverse_involutive. Qed.

Lemma escapes_walk getcwd path root : initial_slashes (anchored getcwd root) = 1 ->
  let dir := walk [] (anchored getcwd root) in
  target_escapes_worktree getcwd path (Some root) = false <-> dir `prefix_of` walk dir path.
Proof.
  intros H dir. unfold target_escapes_worktree.
  destruct (is_empty path) eqn:Ep.
  { destruct path; [|done]. by rewrite walk_here. }
  cbv zeta. rewrite root_norm_text by done. fold dir.
  assert (D : Forall dir_name dir) by (apply walk_dirs; constructor).
  set (rn := String "/" (join "/" dir)).
  assert (R1 : isabs rn = true) by (apply initial_slashes_abs; rewrite (initial_slashes_render dir D : _ rn = 1); lia).
  assert (R2 : walk [] rn = dir).
  { rewrite walk_comps, R1. unfold rn. by rewrite comps_slash, foldl_walk_dirs, app_nil_r, reverse_involutive. }
  set (t := if isabs path then path else path_join rn path).
  assert (T : isabs t = true /\ walk [] t = walk dir path).
  { unfold t. destruct (isabs path) eqn:A.
    - split; [done|]. unfold walk. by rewrite A.
    - rewrite <- R2. by apply walk_join. }
  destruct T as [T1 T2]. unfold commonpath. rewrite R1, isabs_normpath, comps_normpath, T2 by done.
  unfold rn at 1. rewrite comps_slash by done. cbn [Bool.eqb].
  rewrite negb_false_iff, String.eqb_eq, <- common_prefix_spec. unfold rn. rewrite string_app_cons, string_app_nil.
  split; [|by intros ->]. intros [= E]. apply join_dirs_inj; [by apply common_prefix_dirs | done | done].
Qed.


(** Reading backslashes as slashes keeps the components that have none. *)
Definition no_backslash (s : string) : bool := all_chars (fun c => negb (nat_of_ascii c =? 92)) s.

Lemma split_backslashes s :
  exists h l h' l', split_on "/" s = h :: l /\ split_on "/" (slash_backslashes s) = h' :: l'
    /\ (no_backslash h = true -> h' = h) /\ (forall x, x ∈ l -> no_backslash x = true -> x ∈ l').
Proof.
  induction s as [|c s (h & l & h' & l' & E & E' & H & L)]; [by exists "", [], "", []|].
  cbn [slash_backslashes split_on]. rewrite E, E'.
  destruct (nat_of_ascii c =? 92) eqn:B.
  - assert (C : Ascii.eqb c "/" = false) by (destruct (Ascii.eqb_spec c "/") as [->|]; done).
    rewrite C. do 4 eexists. do 2 (split; [reflexivity|]). unfold no_backslash at 1. cbn [all_chars].
    rewrite B. split; [done|].
    intros x Hx Nx. apply list_elem_of_further. eauto.
  - destruct (Ascii.eqb c "/").
    + do 4 eexists. do 2 (split; [reflexivity|]). split; [done|].
      intros x Hx%elem_of_cons Nx. destruct Hx as [->|Hx].
      * rewrite H by done. apply list_elem_of_here.
      * apply list_elem_of_further. eauto.
    + do 4 eexists. do 2 (split; [reflexivity|]). split; [|eauto].
      unfold no_backslash. cbn [all_chars]. rewrite B. intros N. by rewrite H.
Qed.

Lemma foldl_walk_pushes stack l : ".." ∉ l -> exists r, foldl walk_step stack l = r ++ stack.
Proof.
  revert stack. induction l as [|c l IH]; intros stack N; [by exists []|]. cbn.
  apply not_elem_of_cons in N as [Nc N]. destruct (IH (walk_step stack c) N) as [r ->].
  unfold walk_step. destruct (real_comp c); [|by exists r].
  destruct (String.eqb_spec c ".."); [congruence|]. exists (r ++ [c]). by rewrite <- app_assoc.
Qed.

Lemma unknown_root_stays getcwd path dir :
  target_escapes_worktree getcwd path None = false -> dir `prefix_of` walk dir path.
Proof.
  unfold target_escapes_worktree. destruct (is_empty path) eqn:Ep.
  { intros _. destruct path; [|done]. by rewrite walk_here. }
  destruct (startswith "/" path) eqn:A; [done|]. destruct (startswith "~" path); [done|]. cbn [orb].
  intros H. assert (N : ".." ∉ split_on "/" path).
  { intros I. destruct (split_backslashes path) as (h & l & h' & l' & E & E' & Hh & Hl).
    rewrite E in I. rewrite E' in H. apply (proj1 (existsb_false _ _)) with (x := "..") in H; [done|].
    apply elem_of_cons in I as [<-|I]; [rewrite Hh by done; apply list_elem_of_here|].
    apply list_elem_of_further. auto. }
  unfold walk, isabs. rewrite A. destruct (foldl_walk_pushes (reverse dir) _ N) as [r ->].
  exists (reverse r). by rewrite reverse_app, reverse_involutive.
Qed.

(** C35 (equivalence): Inside a known worktree root the lexical test of the validators
    agrees with a walk: a path is let through exactly when reading it from the root, [..]
    going to the parent, ends in the root or below it.  Without a root every path that is
    let through stays below the directory it is read from, whatever that is. *)
Theorem escape_test_follows_the_walk getcwd path :
  (forall root, initial_slashes (anchored getcwd root) = 1 ->
     target_escapes_worktree getcwd path (Some root) = false <->
     walk [] (anchored getcwd root) `prefix_of` walk (walk [] (anchored getcwd root)) path)
  /\ (forall dir, target_escapes_worktree getcwd path None = false -> dir `prefix_of` walk dir path).
Proof. split; intros; [by apply escapes_walk | by eapply unknown_root_stays]. Qed.

Lemma escape_test_follows_the_walk_witness :
  target_escapes_worktree "/" "a/../../etc" (Some "/w/t") = true
  /\ target_escapes_worktree "/" "/w//t/./x/../y" (Some "/w/t") = false
  /\ ["w"; "t"] `prefix_of` walk ["w"; "t"] "/w//t/./x/../y".
Proof.
  split; [reflexivity|]. split; [reflexivity|].
  apply (escape_test_follows_the_walk "/" "/w//t/./x/../y"
           : (forall root, _ -> _ <-> _) /\ _) with (root := "/w/t"); reflexivity.
Defined.
