(* ===== verification/CommandValidators.v ===== *)
(** The validators of single commands (backend/security/): chmod, rm and init scripts
    (filesystem_validators.py), signals (process_validators.py), databases
    (database_validators.py), git with the scan of a commit (git_validators.py), and the
    registry that maps a command name to its validator (validator_registry.py).

    A validator may raise, so it returns in [res]; [getcwd] is the working directory of the
    process.  The staging area, the secret scanner and [git reset] are hooks. *)
From S2P Require Import Prelude PyData EventMonad GitPins Regex Shlex ExecContext.
Local Open Scope nat_scope.

(** (is_valid, reason) *)
Abbreviation ValidationResult := (bool * string)%type.
Definition accept : ValidationResult := (true, "").
Definition refuse (reason : string) : ValidationResult := (false, reason).

(** ** [repr] of ASCII text *)

Definition hex2 (c : ascii) : string :=
  String (hex_digit (nat_of_ascii c / 16)) (String (hex_digit (nat_of_ascii c mod 16)) "").
Definition repr_char (q c : ascii) : string :=
  let n := nat_of_ascii c in
  let esc (s : string) := String backslash s in
  if Ascii.eqb c q || Ascii.eqb c backslash then esc (String c "")
  else if n =? 10 then esc "n" else if n =? 13 then esc "r" else if n =? 9 then esc "t"
  else if (n <? 32) || (n =? 127) then esc ("x" +:+ hex2 c)
  else String c "".
Definition py_repr (s : string) : string :=
  let q := if contains (String squote "") s && negb (contains (String dquote "") s) then dquote else squote in
  String q (foldr (fun c t => repr_char q c +:+ t) "" (String.list_ascii_of_string s) +:+ String q "").
Definition list_repr (l : list string) : string := "[" +:+ join ", " (py_repr <$> l) +:+ "]".
Definition sorted_strings (l : list string) : list string := sort_by String.leb l.
Definition quoted (s : string) : string := "'" +:+ s +:+ "'".

(** ** filesystem_validators.py *)

Definition SAFE_CHMOD_MODES : list string :=
  ["+x"; "a+x"; "u+x"; "g+x"; "o+x"; "ug+x"; "755"; "644"; "700"; "600"; "775"; "664"].

Definition exactly (s : string) : rx := seq_of [TextStart; lit s; LineEnd].
Definition DANGEROUS_RM_PATTERNS : list rx :=
  [exactly "/"; exactly ".."; exactly "~"; exactly "*"; exactly "/*"; seq_of [TextStart; lit "../"];
   exactly "/home"; exactly "/usr"; exactly "/etc"; exactly "/var"; exactly "/bin"; exactly "/lib";
   exactly "/opt"].

(** The words of [chmod]: the mode and the files. *)
Fixpoint chmod_words (mode : option string) (files : list string) (tokens : list string)
  : option string * list string + string :=
  match tokens with
  | [] => inl (mode, files)
  | token :: tokens' =>
      if key_in ["-R"; "--recursive"] token then chmod_words mode files tokens'
      else if startswith "-" token then inr token
      else match mode with
           | None => chmod_words (Some token) files tokens'
           | Some _ => chmod_words mode (files ++ [token]) tokens'
           end
  end.

Definition executable_mode : rx := seq_of [TextStart; Star (Chr (one_of "ugoa")); lit "+x"; LineEnd].

Section Paths.
Variable getcwd : string.

Definition first_escape (root : option string) (files : list string) : option string :=
  List.find (fun f => target_escapes_worktree getcwd f root) files.

Definition validate_chmod_command (root : option string) (command_string : string) : ValidationResult :=
  match split command_string with
  | Err _ => refuse "Could not parse chmod command"
  | Ok tokens =>
      match tokens with
      | [] => refuse "Not a chmod command"
      | t0 :: args =>
          if negb (String.eqb t0 "chmod") then refuse "Not a chmod command"
          else match chmod_words None [] args with
               | inr token => refuse ("chmod flag " +:+ quoted token +:+ " is not allowed")
               | inl (None, _) => refuse "chmod requires a mode"
               | inl (Some mode, []) => refuse "chmod requires at least one file"
               | inl (Some mode, files) =>
                   if negb (key_in SAFE_CHMOD_MODES mode) && negb (matches executable_mode mode)
                   then refuse ("chmod only allowed with executable modes (+x, 755, etc.), got: " +:+ mode)
                   else match first_escape root files with
                        | Some f => refuse ("chmod target " +:+ quoted f +:+ " is outside the worktree and not allowed")
                        | None => accept
                        end
               end
      end
  end.

Fixpoint rm_words (root : option string) (tokens : list string) : ValidationResult :=
  match tokens with
  | [] => accept
  | token :: tokens' =>
      if startswith "-" token then
        if String.eqb token "--no-preserve-root" then refuse "rm --no-preserve-root is not allowed"
        else rm_words root tokens'
      else if existsb (fun p => matches p token) DANGEROUS_RM_PATTERNS
      then refuse ("rm target " +:+ quoted token +:+ " is not allowed for safety")
      else if target_escapes_worktree getcwd token root
      then refuse ("rm target " +:+ quoted token +:+ " is outside the worktree and not allowed")
      else rm_words root tokens'
  end.

Definition validate_rm_command (root : option string) (command_string : string) : ValidationResult :=
  match split command_string with
  | Err _ => refuse "Could not parse rm command"
  | Ok [] => refuse "Empty rm command"
  | Ok (_ :: args) => rm_words root args
  end.
End Paths.

Definition validate_init_script (command_string : string) : ValidationResult :=
  match split command_string with
  | Err _ => refuse "Could not parse init script command"
  | Ok [] => refuse "Empty command"
  | Ok (script :: _) =>
      if String.eqb script "./init.sh" || endswith "/init.sh" script then accept
      else refuse ("Only ./init.sh is allowed, got: " +:+ script)
  end.

(** ** process_validators.py *)

Definition ALLOWED_PROCESS_NAMES : list string :=
  ["node"; "npm"; "npx"; "yarn"; "pnpm"; "bun"; "deno"; "vite"; "next"; "nuxt"; "webpack"; "esbuild";
   "rollup"; "tsx"; "ts-node";
   "python"; "python3"; "flask"; "uvicorn"; "gunicorn"; "django"; "celery"; "streamlit"; "gradio";
   "pytest"; "mypy"; "ruff";
   "cargo"; "rustc"; "go"; "ruby"; "rails"; "php";
   "postgres"; "mysql"; "mongod"; "redis-server"].

(** The first word of a target with blanks; a target of blanks has none. *)
Definition pkill_target (target : string) : res string :=
  if contains " " target then
    match split_words "" target with w :: _ => Ok w | [] => Err (AppError "IndexError") end
  else Ok target.

Definition validate_pkill_command (command_string : string) : res ValidationResult :=
  match split command_string with
  | Err _ => Ok (refuse "Could not parse pkill command")
  | Ok [] => Ok (refuse "Empty pkill command")
  | Ok (_ :: rest) =>
      match List.rev (keep (fun t => negb (startswith "-" t)) rest) with
      | [] => Ok (refuse "pkill requires a process name")
      | target :: _ =>
          let! target := pkill_target target in
          if key_in ALLOWED_PROCESS_NAMES target then Ok accept
          else Ok (refuse ("pkill only allowed for dev processes: "
                           +:+ list_repr (firstn 10 (sorted_strings ALLOWED_PROCESS_NAMES)) +:+ "..."))
      end
  end.

(** The operands of [kill]: only the first argument may be a signal. *)
Definition kill_operands (args : list string) : list string :=
  let args :=
    match args with
    | t :: args' =>
        if negb (String.eqb t "--") && startswith "-" t
        then if key_in ["-s"; "--signal"; "-n"] t then tl args' else args'
        else args
    | [] => []
    end in
  match args with
  | t :: args' => if String.eqb t "--" then args' else args
  | [] => []
  end.

(** [s.isdigit()] *)
Definition isdigit (s : string) : bool := negb (is_empty s) && all_chars is_digit s.
Definition single_pid (pid : string) : bool := isdigit pid && (0 <? read_digits 0 pid)%Z.

Definition validate_kill_command (command_string : string) : ValidationResult :=
  match split command_string with
  | Err _ => refuse "Could not parse kill command"
  | Ok tokens =>
      match kill_operands (tl tokens) with
      | [] => refuse "kill requires a target PID"
      | pids =>
          match List.find (fun pid => negb (single_pid pid)) pids with
          | Some pid =>
              refuse ("kill target " +:+ py_repr pid +:+ " must be a single positive PID — process "
                      +:+ "groups, -1 and 0 (which signal all processes) are not allowed")
          | None => accept
          end
      end
  end.

Definition validate_killall_command : string -> res ValidationResult := validate_pkill_command.

(** ** database_validators.py *)

Definition spaces1 : rx := Plus (Chr is_space).
Definition spaces0 : rx := Star (Chr is_space).
Definition word1 : rx := Plus (Chr is_word).

Definition DESTRUCTIVE_SQL_PATTERNS : list rx :=
  [seq_of [WordBound; lit_i "DROP"; spaces1;
           alt_of (lit_i <$> ["DATABASE"; "SCHEMA"; "TABLE"; "INDEX"; "VIEW"; "FUNCTION"; "PROCEDURE";
                              "TRIGGER"]); WordBound];
   seq_of [WordBound; lit_i "TRUNCATE"; spaces1; Maybe (Cat (lit_i "TABLE") spaces1); word1];
   seq_of [WordBound; lit_i "DELETE"; spaces1; lit_i "FROM"; spaces1; word1; spaces0; Alt (lit ";") LineEnd];
   seq_of [WordBound; lit_i "DROP"; spaces1; lit_i "ALL"; WordBound];
   seq_of [WordBound; lit_i "DESTROY"; WordBound]].

Definition begins (s : string) : rx := Cat TextStart (lit s).
Definition finishes (s : string) : rx := Cat (lit s) LineEnd.
Definition SAFE_DATABASE_PATTERNS : list rx :=
  [begins "test"; finishes "_test"; begins "dev"; finishes "_dev"; begins "local"; finishes "_local";
   begins "tmp"; finishes "_tmp"; begins "temp"; finishes "_temp"; begins "scratch"; begins "sandbox";
   begins "mock"; finishes "_mock"].

Definition _is_safe_database_name (db_name : string) : bool :=
  existsb (fun p => searches p (lower db_name)) SAFE_DATABASE_PATTERNS.

(** The text the first destructive pattern matches, None when no pattern does. *)
Fixpoint first_hit (patterns : list rx) (text : string) : option string :=
  match patterns with
  | [] => None
  | p :: patterns' =>
      match re_search p text with
      | Some (a, b) => Some (text_between a b)
      | None => first_hit patterns' text
      end
  end.
Definition _contains_destructive_sql (sql : string) : option string :=
  first_hit DESTRUCTIVE_SQL_PATTERNS (upper sql).

(** The last word that is neither a flag nor the argument of one of [flags]. *)
Fixpoint last_operand (flags : list string) (skip_next : bool) (found : option string) (tokens : list string)
  : option string :=
  match tokens with
  | [] => found
  | token :: tokens' =>
      if skip_next then last_operand flags false found tokens'
      else if key_in flags token then last_operand flags true found tokens'
      else if startswith "-" token then last_operand flags false found tokens'
      else last_operand flags false (Some token) tokens'
  end.

Definition user_flags : list string :=
  ["-h"; "--host"; "-p"; "--port"; "-U"; "--username"; "-w"; "--no-password"; "-W"; "--password"].
Definition database_flags : list string := user_flags ++ ["--maintenance-db"].

Definition validate_dropdb_command (command_string : string) : ValidationResult :=
  match split command_string with
  | Err _ => refuse "Could not parse dropdb command"
  | Ok [] => refuse "Empty dropdb command"
  | Ok (_ :: args) =>
      match last_operand database_flags false None args with
      | None | Some EmptyString => refuse "dropdb requires a database name"
      | Some db_name =>
          if _is_safe_database_name db_name then accept
          else refuse ("dropdb " +:+ quoted db_name
            +:+ " blocked for safety. Only test/dev databases can be dropped autonomously. "
            +:+ "Safe patterns: test*, *_test, dev*, *_dev, local*, tmp*, temp*, scratch*, sandbox*, mock*")
      end
  end.

Definition safe_user_patterns : list rx :=
  [begins "test"; finishes "_test"; begins "dev"; finishes "_dev"; begins "tmp"; begins "temp"; begins "mock"].

Definition validate_dropuser_command (command_string : string) : ValidationResult :=
  match split command_string with
  | Err _ => refuse "Could not parse dropuser command"
  | Ok [] => refuse "Empty dropuser command"
  | Ok (_ :: args) =>
      match last_operand user_flags false None args with
      | None | Some EmptyString => refuse "dropuser requires a username"
      | Some username =>
          if existsb (fun p => searches p (lower username)) safe_user_patterns then accept
          else refuse ("dropuser " +:+ quoted username
            +:+ " blocked for safety. Only test/dev users can be dropped autonomously. "
            +:+ "Safe patterns: test*, *_test, dev*, *_dev, tmp*, temp*, mock*")
      end
  end.

(** The SQL given to psql: the word after the first [-c], or what follows it in the word. *)
Fixpoint psql_sql (tokens : list string) : option string :=
  match tokens with
  | [] => None
  | token :: tokens' =>
      match tokens' with
      | sql :: _ => if String.eqb token "-c" then Some sql
                    else match after_prefix "-c" token with Some s => Some s | None => psql_sql tokens' end
      | [] => after_prefix "-c" token
      end
  end.

Definition destructive_refusal (tool : string) (sql : option string) : ValidationResult :=
  match sql with
  | None | Some EmptyString => accept
  | Some sql =>
      match _contains_destructive_sql sql with
      | Some matched => refuse (tool +:+ " command contains destructive SQL: " +:+ quoted matched
                                +:+ ". DROP/TRUNCATE/DELETE operations require manual confirmation.")
      | None => accept
      end
  end.

Definition validate_psql_command (command_string : string) : ValidationResult :=
  match split command_string with
  | Err _ => refuse "Could not parse psql command"
  | Ok [] => refuse "Empty psql command"
  | Ok tokens => destructive_refusal "psql" (psql_sql tokens)
  end.

(** The SQL given to mysql, by [-e] or [--execute]. *)
Fixpoint mysql_sql (tokens : list string) : option string :=
  match tokens with
  | [] => None
  | token :: tokens' =>
      match tokens' with
      | sql :: _ =>
          if String.eqb token "-e" then Some sql
          else match after_prefix "-e" token with
               | Some s => Some s
               | None => if String.eqb token "--execute" then Some sql else mysql_sql tokens'
               end
      | [] => after_prefix "-e" token
      end
  end.

Definition validate_mysql_command (command_string : string) : ValidationResult :=
  match split command_string with
  | Err _ => refuse "Could not parse mysql command"
  | Ok [] => refuse "Empty mysql command"
  | Ok tokens => destructive_refusal "mysql" (mysql_sql tokens)
  end.

Definition dangerous_mysqladmin_ops : list string := ["drop"; "shutdown"; "kill"].

Definition validate_mysqladmin_command (command_string : string) : ValidationResult :=
  match split command_string with
  | Err _ => refuse "Could not parse mysqladmin command"
  | Ok [] => refuse "Empty mysqladmin command"
  | Ok (_ :: args) =>
      match List.find (fun t => key_in dangerous_mysqladmin_ops (lower t)) args with
      | Some token => refuse ("mysqladmin " +:+ quoted token +:+ " is blocked for safety. "
                              +:+ "Destructive operations require manual confirmation.")
      | None => accept
      end
  end.

Definition dangerous_redis_commands : list string :=
  ["FLUSHALL"; "FLUSHDB"; "DEBUG"; "SHUTDOWN"; "SLAVEOF"; "REPLICAOF"; "CONFIG"; "BGSAVE"; "BGREWRITEAOF";
   "CLUSTER"].
Definition redis_flags : list string := ["-h"; "-p"; "-a"; "-n"; "--pass"; "--user"; "-u"].

(** The first word that is neither a flag nor the argument of one. *)
Fixpoint first_operand (flags : list string) (skip_next : bool) (tokens : list string) : option string :=
  match tokens with
  | [] => None
  | token :: tokens' =>
      if skip_next then first_operand flags false tokens'
      else if key_in flags token then first_operand flags true tokens'
      else if startswith "-" token then first_operand flags false tokens'
      else Some token
  end.

Definition validate_redis_cli_command (command_string : string) : ValidationResult :=
  match split command_string with
  | Err _ => refuse "Could not parse redis-cli command"
  | Ok [] => refuse "Empty redis-cli command"
  | Ok (_ :: args) =>
      match first_operand redis_flags false args with
      | Some token =>
          let redis_cmd := upper token in
          if key_in dangerous_redis_commands redis_cmd
          then refuse ("redis-cli command " +:+ quoted redis_cmd +:+ " is blocked for safety. "
                       +:+ "Destructive Redis operations require manual confirmation.")
          else accept
      | None => accept
      end
  end.

(** The patterns with the text the message shows. *)
Definition braces_call (name : string) : rx :=
  seq_of [lit_i name; spaces0; lit "("; spaces0; lit "{"; spaces0; lit "}"; spaces0; lit ")"].
Definition call (name : string) : rx := seq_of [lit_i name; spaces0; lit "("].
Definition dangerous_mongo_patterns : list (string * rx) :=
  [("\.dropDatabase\s*\(", call ".dropDatabase");
   ("\.drop\s*\(", call ".drop");
   ("\.deleteMany\s*\(\s*\{\s*\}\s*\)", braces_call ".deleteMany");
   ("\.remove\s*\(\s*\{\s*\}\s*\)", braces_call ".remove");
   ("db\.dropAllUsers\s*\(", call "db.dropAllUsers");
   ("db\.dropAllRoles\s*\(", call "db.dropAllRoles")].

Fixpoint eval_script (tokens : list string) : option string :=
  match tokens with
  | token :: tokens' =>
      match tokens' with
      | script :: _ => if String.eqb token "--eval" then Some script else eval_script tokens'
      | [] => None
      end
  | [] => None
  end.

Definition validate_mongosh_command (command_string : string) : ValidationResult :=
  match split command_string with
  | Err _ => refuse "Could not parse mongosh command"
  | Ok [] => refuse "Empty mongosh command"
  | Ok tokens =>
      match eval_script tokens with
      | None | Some EmptyString => accept
      | Some script =>
          match List.find (fun p => searches p.2 script) dangerous_mongo_patterns with
          | Some p => refuse ("mongosh command contains destructive operation matching " +:+ quoted p.1
                              +:+ ". Database drop/delete operations require manual confirmation.")
          | None => accept
          end
      end
  end.

(** ** git_validators.py *)

Record SecretMatch := {
  file_path : string;
  line_number : Z;
  pattern_name : string;
  matched_text : string;
}.

(** The module scan_secrets, when it can be imported. *)
Record Scanner {W : Type} := {
  get_staged_files : W -> res (list string);
  scan_files : list string -> W -> res (list SecretMatch);
  redacted_fingerprint : string -> string;
}.
Arguments Scanner : clear implicits.

(** [git diff --cached --name-only] (None when it fails or raises), [git reset HEAD -- files]
    (false when it raises) and the scanner. *)
Record CommitHooks {W : Type} := {
  ch_diff : W -> option string;
  ch_reset : list string -> W -> bool * W;
  ch_scanner : option (Scanner W);
}.
Arguments CommitHooks : clear implicits.

Definition refusal_text (r : refusal) : string :=
  match r with
  | EditMode tok => "git blocked: `git config " +:+ tok +:+ "` can rewrite config to "
                    +:+ "execute an arbitrary command. Not permitted."
  | NonLiteral => "git blocked: `git config` with a non-literal argument "
                  +:+ "could set a command-executing key. Not permitted."
  | ConfigKey key => "git blocked: `git config` on `" +:+ key +:+ "` can execute an "
                     +:+ "arbitrary command (config injection). Not permitted."
  | InlineConfig key => "git blocked: `-c " +:+ key +:+ "=…` can execute an arbitrary "
                        +:+ "command (config injection). Remove the inline config."
  | ExecFlag flag => "git blocked: `" +:+ flag +:+ "` runs an arbitrary program "
                     +:+ "(transport/exec hijack). Not permitted."
  end.

(** [files_with_secrets]: the matches of each file, files in the order of their first match. *)
Fixpoint add_match (m : SecretMatch) (d : list (string * list SecretMatch)) : list (string * list SecretMatch) :=
  match d with
  | [] => [(file_path m, [m])]
  | (f, l) :: d' => if String.eqb (file_path m) f then (f, l ++ [m]) :: d' else (f, l) :: add_match m d'
  end.

Definition match_lines (fingerprint : string -> string) (m : SecretMatch) : list string :=
  ["  Line " +:+ pretty (line_number m) +:+ ": " +:+ pattern_name m;
   "    Found: " +:+ fingerprint (matched_text m)].

Definition required_actions : list string :=
  ["ACTION REQUIRED:";
   "";
   "1. Move secrets to environment variables:";
   "   - Add the secret value to .env (create if needed)";
   "   - Update the code to use os.environ.get('VAR_NAME') or process.env.VAR_NAME";
   "   - Add the variable name (not value) to .env.example";
   "";
   "2. Example fix:";
   "   BEFORE: api_key = 'sk-abc123...'";
   "   AFTER:  api_key = os.environ.get('API_KEY')";
   "";
   "3. If this is a FALSE POSITIVE (test data, example, mock):";
   "   - Add the file pattern to .secretsignore";
   "   - Example: echo 'tests/fixtures/' >> .secretsignore";
   "";
   "After fixing, stage the changes with 'git add .' and retry the commit."].

Definition _format_secret_error {W} (sc : Scanner W) (found : list SecretMatch) : ValidationResult :=
  let files := foldl (fun d m => add_match m d) [] found in
  refuse (join nl
    (["SECRETS DETECTED - COMMIT BLOCKED"; "";
      "The following potential secrets were found in staged files:"; ""]
     ++ flat_map (fun f => ("File: " +:+ f.1) :: flat_map (match_lines (redacted_fingerprint sc)) f.2 ++ [""]) files
     ++ required_actions)).

(** [" -c " in f" {lowered} "] and the other signs in a command that cannot be split. *)
Definition looks_dangerous (command_string : string) : bool :=
  let lowered := lower command_string in
  let padded := " " +:+ lowered +:+ " " in
  contains " -c " padded
  || existsb (fun f => contains f lowered) _DANGEROUS_GIT_FLAGS
  || (contains " config " padded && existsb _is_dangerous_git_config (split_words "" lowered)).

Section Validators.
Context {W E : Type} (getcwd : string) (hooks : CommitHooks W).
Abbreviation M := (Eff (Ctx W) E).

Definition spec_artifacts (out : string) : list string :=
  keep (startswith ".aifactory/") (keep (fun f => negb (is_empty f)) (split_on newline (strip out))).

Definition _unstage_spec_artifacts : M (list string) :=
  out ← reads (fun s => ch_diff hooks (ctx_world s));
  match spec_artifacts (default "" out) with
  | [] => mret []
  | spec_files =>
      done ← hooked (fun s => let '(ok, w) := ch_reset hooks spec_files (ctx_world s) in
                              (Ok ok, Build_Ctx (_worktree_root s) w));
      mret (if done : bool then spec_files else [])
  end.

(** The scan of the staged files, shared by the two paths of the validator. *)
Definition scan_staged (sc : Scanner W) : M ValidationResult :=
  staged ← lift (fun s => get_staged_files sc (ctx_world s));
  match staged with
  | [] => mret accept
  | _ =>
      found ← lift (fun s => scan_files sc staged (ctx_world s));
      mret (match found with [] => accept | _ => _format_secret_error sc found end)
  end.

Definition scan_commit : M ValidationResult :=
  _ ← _unstage_spec_artifacts;
  match ch_scanner hooks with Some sc => scan_staged sc | None => mret accept end.

Definition validate_git_commit (command_string : string) : M ValidationResult :=
  match split command_string with
  | Err _ =>
      let stripped := strip command_string in
      if startswith "git commit" stripped || startswith "git -c" stripped then scan_commit
      else mret (refuse "Could not parse git command")
  | Ok tokens =>
      match tokens with
      | git :: commit :: _ =>
          if String.eqb git "git" && String.eqb commit "commit" then scan_commit else mret accept
      | _ => mret accept
      end
  end.

Definition validate_git (command_string : string) : M ValidationResult :=
  match split command_string with
  | Err _ =>
      if looks_dangerous command_string
      then mret (refuse ("git blocked: command uses a config/exec option that can run "
                         +:+ "arbitrary code and could not be parsed for validation."))
      else validate_git_commit command_string
  | Ok tokens =>
      match option_refusal tokens with
      | Some r => mret (refuse (refusal_text r))
      | None =>
          match _git_config_refusal tokens with
          | Some r => mret (refuse (refusal_text r))
          | None => validate_git_commit command_string
          end
      end
  end.

(** ** validator_registry.py *)

(** A validator that reads the worktree root, and one that does not. *)
Definition in_worktree (f : option string -> string -> ValidationResult) (cmd : string) : M ValidationResult :=
  root ← get_worktree_root; mret (f root cmd).
Definition plain (f : string -> ValidationResult) (cmd : string) : M ValidationResult := mret (f cmd).
Definition raising (f : string -> res ValidationResult) (cmd : string) : M ValidationResult :=
  lift (fun _ => f cmd).

Definition VALIDATORS : list (string * (string -> M ValidationResult)) :=
  [("pkill", raising validate_pkill_command);
   ("kill", plain validate_kill_command);
   ("killall", raising validate_killall_command);
   ("chmod", in_worktree (validate_chmod_command getcwd));
   ("rm", in_worktree (validate_rm_command getcwd));
   ("init.sh", plain validate_init_script);
   ("git", validate_git);
   ("dropdb", plain validate_dropdb_command);
   ("dropuser", plain validate_dropuser_command);
   ("psql", plain validate_psql_command);
   ("mysql", plain validate_mysql_command);
   ("mariadb", plain validate_mysql_command);
   ("mysqladmin", plain validate_mysqladmin_command);
   ("redis-cli", plain validate_redis_cli_command);
   ("mongosh", plain validate_mongosh_command);
   ("mongo", plain validate_mongosh_command)].

Fixpoint lookup_in {A} (name : string) (l : list (string * A)) : option A :=
  match l with
  | [] => None
  | (k, v) :: l' => if String.eqb name k then Some v else lookup_in name l'
  end.
Definition get_validator (command_name : string) : option (string -> M ValidationResult) :=
  lookup_in command_name VALIDATORS.
End Validators.
