(* ===== verification/CommandParser.v ===== *)
(** backend/security/ast_parser.py: every command a shell string runs, read from the tree of
    [bashlex] and through the wrappers that run another command; what cannot be seen
    statically is refused.

    [parse] is [bashlex.parse]: a list of trees, or None when it raises.  A node carries
    the identity Python gives it, since a tree of bashlex may hold a node twice. *)
From S2P Require Import Prelude Regex Shlex ExecContext.
Local Open Scope nat_scope.

Definition unparseable : exn := AppError "UnparseableCommand".
Definition refused {A} : res A := Err unparseable.
Definition require (b : bool) : res () := if b then Ok () else refused.

(** ** Trees *)

(** [texts] are the attributes that hold a text, [kids] those that hold a node or a list
    of nodes, in the order of [vars(node)]. *)
Inductive ast :=
  | Ast (ident : nat) (kind : string) (span : nat * nat) (texts : list (string * string))
        (kids : list (string * list ast)).

Definition ident (n : ast) : nat := let 'Ast i _ _ _ _ := n in i.
Definition kind (n : ast) : string := let 'Ast _ k _ _ _ := n in k.
Definition span (n : ast) : nat * nat := let 'Ast _ _ p _ _ := n in p.
Definition texts (n : ast) : list (string * string) := let 'Ast _ _ _ t _ := n in t.
Definition kids (n : ast) : list (string * list ast) := let 'Ast _ _ _ _ k := n in k.

Fixpoint attr {A} (name : string) (l : list (string * A)) : option A :=
  match l with
  | [] => None
  | (k, v) :: l' => if String.eqb name k then Some v else attr name l'
  end.
Definition text_attr (name : string) (n : ast) : option string := attr name (texts n).
Definition kids_attr (name : string) (n : ast) : list ast := default [] (attr name (kids n)).

(** [n.word] of a word node. *)
Definition word_of (n : ast) : res string :=
  match text_attr "word" n with Some w => Ok w | None => Err AttributeError end.

(** A word of a command: its value, its source text, the kinds of its parts. *)
Record word := { w_word : string; w_raw : string; w_parts : list string }.

Definition has_char (c : ascii) (s : string) : bool := contains (String c "") s.
(** [s.removesuffix("+")] *)
Definition without_plus (s : string) : string :=
  match String.rev s with String "+" r => String.rev r | _ => s end.
(** [os.path.basename(s)] *)
Definition _basename (s : string) : string := List.last (split_on "/" s) "".
(** [tok[1:]] *)
Definition tail (s : string) : string := match s with String _ s' => s' | EmptyString => EmptyString end.

(** ** Tables *)

Definition _SHELL_INTERPRETERS : list string := ["bash"; "sh"; "zsh"; "dash"; "ksh"].
Definition _FIND_EXEC_ACTIONS : list string := ["-exec"; "-execdir"; "-ok"; "-okdir"].
Definition _MAX_DEPTH : nat := 25.

Definition _SAFE_UNQUOTED : ascii -> bool := either is_alpha (either is_digit (one_of "_./=:@%+,-")).
Definition _DQ_UNSAFE (c : ascii) : bool := one_of "$`" c || Ascii.eqb c backslash.

Definition _SAFE_GIT_KEYS : list string :=
  ["GIT_AUTHOR_NAME"; "GIT_AUTHOR_EMAIL"; "GIT_AUTHOR_DATE"; "GIT_COMMITTER_NAME";
   "GIT_COMMITTER_EMAIL"; "GIT_COMMITTER_DATE"; "GIT_TERMINAL_PROMPT"; "GIT_OPTIONAL_LOCKS";
   "GIT_FLUSH"; "GIT_MERGE_AUTOEDIT"; "GIT_LFS_SKIP_SMUDGE"].
Definition _PROGRAM_KEYS : list string :=
  ["GIT_PAGER"; "GIT_EDITOR"; "GIT_SEQUENCE_EDITOR"; "PAGER"; "EDITOR"; "VISUAL"].
Definition _NOOP_PROGRAMS : list string := [""; "cat"; "true"; ":"].
Definition _REFUSED_KEYS : list string := ["SSH_ASKPASS"].
Definition _VAR_SETTERS : list string :=
  ["export"; "read"; "unset"; "declare"; "typeset"; "local"; "readonly"; "mapfile"; "readarray";
   "getopts"].
Definition _NAMEREF_SETTERS : list string := ["declare"; "typeset"; "local"].
Definition _UNKNOWN_VALUE_SETTERS : list string := ["read"; "mapfile"; "readarray"; "getopts"].

Definition name_head : rx := Chr (either is_alpha (is_char "_")).
Definition var_name : rx := Cat name_head (Star (Chr is_word)).
Definition _NAME_ASSIGN : rx := seq_of [var_name; Maybe (lit "+"); lit "="].
Definition _DEFAULT_ASSIGN : rx := seq_of [lit "${"; Group 1 var_name; Maybe (lit ":"); lit "="].

Definition tab : ascii := ascii_of_nat 9.
Definition blank_tab : ascii -> bool := either (is_char " ") (is_char tab).
Definition _TIME_KEYWORD : rx :=
  seq_of [Group 1 (Alt TextStart (Chr (either (one_of ";&|({!") (is_char newline_char))));
          Group 2 (Star (Chr blank_tab)); lit "time";
          Alt (Ahead (Chr (either blank_tab (either (is_char newline_char) (one_of ";&|)"))))) TextEnd].

Definition delim_char : ascii -> bool := either is_word (one_of ".-").
Definition in_quotes (q : ascii) : rx := seq_of [Chr (is_char q); Star (Chr delim_char); Chr (is_char q)].
Definition _QUOTED_HEREDOC : rx :=
  seq_of [NotBehind (is_char "<"); Group 1 (Cat (lit "<<") (Maybe (lit "-"))); NotAhead (is_char "<");
          Group 2 (Star (Chr blank_tab));
          Group 3 (Plus (alt_of [Chr delim_char; in_quotes squote; in_quotes dquote;
                                 Cat (Chr (is_char backslash)) (Chr delim_char)]));
          Alt (Ahead (Chr (either is_space (one_of ";&|<>()")))) TextEnd].

(** ** Heredocs with a quoted delimiter *)

Definition quoting (c : ascii) : bool := is_quote c || Ascii.eqb c backslash.
Fixpoint drop_chars (f : ascii -> bool) (s : string) : string :=
  match s with EmptyString => "" | String c s' => if f c then drop_chars f s' else String c (drop_chars f s') end.

(** The text with the delimiters unquoted, and their offsets in it. *)
Definition unquote_piece (acc : string * list nat) (x : piece) : string * list nat :=
  let '(out, offsets) := acc in
  match x with
  | Plain c => (out +:+ String c "", offsets)
  | Hit text g =>
      let delim := default "" (group_in 3 g) in
      if all_chars (other_than quoting) delim then (out +:+ text, offsets)
      else
        let out := out +:+ default "" (group_in 1 g) +:+ default "" (group_in 2 g) in
        (out +:+ drop_chars quoting delim, String.length out :: offsets)
  end.
Definition _unquote_heredocs (text : string) : string * list nat :=
  foldl unquote_piece ("", []) (pieces _QUOTED_HEREDOC text).

Definition nat_in (l : list nat) (x : nat) : bool := existsb (Nat.eqb x) l.
Definition with_value (v : string) (n : ast) : ast :=
  let 'Ast i k p t c := n in
  Ast i k p (("value", v) :: List.filter (fun kv => negb (String.eqb kv.1 "value")) t) c.

(** The offset of a heredoc redirection whose delimiter was rewritten. *)
Definition rewritten_heredoc (offsets : list nat) (n : ast) : option nat :=
  if String.eqb (kind n) "redirect" && key_in ["<<"; "<<-"] (default "" (text_attr "type" n)) then
    match kids_attr "output" n, kids_attr "heredoc" n with
    | o :: _, _ :: _ => let start := fst (span o) in if nat_in offsets start then Some start else None
    | _, _ => None
    end
  else None.

(** The tree with the bodies of these heredocs emptied, and the offsets met. *)
Fixpoint _blank_quoted_bodies (offsets : list nat) (n : ast) : ast * list nat :=
  let 'Ast i k p t c := n in
  let hit := rewritten_heredoc offsets n in
  let kid (name : string) (x : ast) :=
    let '(x, found) := _blank_quoted_bodies offsets x in
    (if String.eqb name "heredoc" then match hit with Some _ => with_value "" x | None => x end else x, found) in
  let c' := map (fun a : string * list ast => (a.1, map (kid a.1) a.2)) c in
  (Ast i k p t (map (fun a => (a.1, map fst a.2)) c'),
   match hit with Some s => [s] | None => [] end ++ flat_map (fun a => flat_map snd a.2) c').

(** ** Assignments and literal words *)

(** Whether the key [name] may be set to [value], or unset. *)
Definition key_allowed (name : string) (value : option string) : bool :=
  if startswith "LD_" name then false
  else if key_in _PROGRAM_KEYS name
  then match value with None => true | Some v => key_in _NOOP_PROGRAMS v end
  else negb (key_in _REFUSED_KEYS name)
       && (negb (startswith "GIT_" name) || key_in _SAFE_GIT_KEYS name).

Definition _env_key_refusal (assignment : string) : res () :=
  let '(raw_name, value) :=
    match cut_at "=" assignment with Some (n, v) => (n, Some v) | None => (assignment, None) end in
  let name := without_plus raw_name in
  if has_char "[" name then refused else require (key_allowed name value).

(** Where the scan of a word stands: outside of quotes, in quotes, or before a character
    that belongs to the one read. *)
Inductive shape := Bare | InQuote (q : ascii) | Taken.

Fixpoint static_from (st : shape) (s : string) : bool :=
  match s with
  | EmptyString => match st with Bare => true | _ => false end
  | String c s' =>
      match st with
      | Taken => static_from Bare s'
      | InQuote q =>
          if Ascii.eqb c q then static_from Bare s'
          else negb (Ascii.eqb q dquote && _DQ_UNSAFE c) && static_from st s'
      | Bare =>
          if is_quote c then static_from (InQuote c) s'
          else if startswith "{}" s || (Ascii.eqb c backslash && negb (is_empty s'))
          then static_from Taken s'
          else _SAFE_UNQUOTED c && static_from Bare s'
      end
  end.
Definition _static_shape (raw : string) : bool :=
  key_in ["["; "]"] raw || static_from Bare raw.

Definition _word_parts_are_literal (w : word) : bool :=
  _static_shape (w_raw w)
  && negb (existsb (key_in ["commandsubstitution"; "parameter"; "arithmetic"; "processsubstitution"])
             (w_parts w)).

Definition _require_literal (words : list word) : res () :=
  require (forallb _word_parts_are_literal words).

Definition _check_var_word (unknown_value : bool) (w : word) : res () :=
  let! _ := require (_static_shape (w_raw w) || matches _NAME_ASSIGN (w_raw w)) in
  _env_key_refusal (if unknown_value && negb (has_char "=" (w_word w)) then w_word w +:+ "=?" else w_word w).

(** A flag among the letters of a short option. *)
Definition short_flag (c : ascii) (tok : string) : bool :=
  negb (startswith "--" tok) && has_char c (tail tok).

Fixpoint _check_var_setter (setter : string) (args : list word) : res () :=
  match args with
  | [] => Ok ()
  | w :: args' =>
      let! _ :=
        if startswith "-" (w_word w) then
          let! _ := _require_literal [w] in
          let! _ := require (negb (key_in _NAMEREF_SETTERS setter && short_flag "n" (w_word w))) in
          let! _ := require (negb (key_in _NAMEREF_SETTERS setter && short_flag "i" (w_word w))) in
          require (negb (key_in ["mapfile"; "readarray"] setter && has_char "C" (tail (w_word w))))
        else _check_var_word (key_in _UNKNOWN_VALUE_SETTERS setter) w in
      _check_var_setter setter args'
  end.

Fixpoint _check_printf (args : list word) : res () :=
  match args with
  | [] => Ok ()
  | w :: args' =>
      let tok := w_word w in
      if String.eqb tok "--" || negb (startswith "-" tok) || String.eqb tok "-" then Ok ()
      else
        let! _ := _require_literal [w] in
        if String.eqb tok "-v" then
          match args' with
          | [] => refused
          | target :: args'' => let! _ := _check_var_word false target in _check_printf args''
          end
        else if startswith "-v" tok then
          let! _ := require (_static_shape (w_raw w)) in
          let! _ := _env_key_refusal (tail (tail tok)) in _check_printf args'
        else _check_printf args'
  end.

(** ** Parameters and heredoc bodies *)

Definition _RUNS_COMMAND : rx := alt_of [lit "$("; lit "`"; lit "$["].
Definition digits1 : rx := Plus (Chr is_digit).
Definition _PARAM_RE : rx :=
  seq_of [Group 1 (Maybe (Chr (one_of "#!")));
          Group 2 (alt_of [var_name; digits1; Chr (one_of "@*#?$!-")]);
          Maybe (seq_of [lit "["; Group 3 (Alt (Cat (Maybe (lit "-")) digits1) (Chr (one_of "@*"))); lit "]"]);
          Alt TextEnd (Ahead (Chr (one_of "-*@#%/^,:?+=")));
          Group 4 (Star (Chr any_char))].
Definition signed_digits : rx := seq_of [Star (Chr is_space); Maybe (lit "-"); digits1].
Definition _OFFSET_RE : rx :=
  seq_of [lit ":"; signed_digits; Maybe (Cat (lit ":") signed_digits)].

(** [name.isidentifier()] *)
Definition isidentifier (s : string) : bool := fullmatches var_name s.

(** The operator of a parameter expansion, refused when it evaluates text. *)
Definition expansion_operator (value : string) : res string :=
  match re_fullmatch _PARAM_RE value with
  | None => refused
  | Some m =>
      let prefix := default "" (group 1 m) in
      let name := default "" (group 2 m) in
      let sub := group 3 m in
      let rest := default "" (group 4 m) in
      let indirect := String.eqb prefix "!" in
      let listing :=
        match sub with
        | None => key_in ["*"; "@"] rest
        | Some s => key_in ["@"; "*"] s && is_empty rest
        end in
      if (indirect && (negb (isidentifier name) || negb listing))
         || (negb indirect && startswith "*" rest)
         || existsb (fun p => startswith p rest) ["@P"; "@E"; "@A"]
         || (startswith ":" rest && negb (existsb (fun p => startswith p rest) [":-"; ":="; ":?"; ":+"])
             && negb (fullmatches _OFFSET_RE rest))
      then refused else Ok rest
  end.

(** The text up to the brace that closes [depth] open ones, and what follows it. *)
Fixpoint close_brace (depth : nat) (inner : string) (s : string) : option (string * string) :=
  match s with
  | EmptyString => None
  | String c s' =>
      if Ascii.eqb c backslash then
        match s' with
        | String d s'' => close_brace depth (put (put inner c) d) s''
        | EmptyString => None
        end
      else if Ascii.eqb c "{" then close_brace (S depth) (put inner c) s'
      else if Ascii.eqb c "}" then
        match depth with
        | S (S d) => close_brace (S d) (put inner c) s'
        | _ => Some (inner, s')
        end
      else close_brace depth (put inner c) s'
  end.

(** The texts between [${] and its brace, left to right. *)
Fixpoint expansions (n : nat) (value : string) : res (list string) :=
  match n with
  | O => refused
  | S n' =>
      match cut_at "${" value with
      | None => Ok []
      | Some (_, after) =>
          match close_brace 1 "" after with
          | None => refused
          | Some (inner, more) => cons inner <$> expansions n' more
          end
      end
  end.

(** The recursion is on the length of the text. *)
Fixpoint check_text (n : nat) (heredoc : bool) (value : string) : res () :=
  match n with
  | O => refused
  | S n' =>
      if searches _RUNS_COMMAND value then refused
      else
        let! rest := if heredoc then Ok value else expansion_operator value in
        let! inner := expansions (S (String.length rest)) rest in
        fold_res (fun _ x => check_text n' false x) () inner
  end.
Definition _check_parameter (heredoc : bool) (value : string) : res () :=
  check_text (S (String.length value)) heredoc value.

(** ** The command nodes of a tree *)

(** [node.parts[1].word], the variable of a [for]. *)
Definition loop_variable (n : ast) : res string :=
  match kids_attr "parts" n with
  | _ :: v :: _ => word_of v
  | _ => Err (AppError "IndexError")
  end.

Definition check_node (n : ast) : res () :=
  let! _ := if String.eqb (kind n) "for" then let! v := loop_variable n in _env_key_refusal (v +:+ "=?")
            else Ok () in
  if key_in ["parameter"; "heredoc"] (kind n)
  then _check_parameter (String.eqb (kind n) "heredoc") (default "" (text_attr "value" n))
  else Ok ().

(** The state of the walk: the command nodes so far, and the nodes visited. *)
Abbreviation walked := (list ast * list nat)%type.

Fixpoint _collect_command_nodes (n : ast) (st : walked) : res walked :=
  let '(out, seen) := st in
  if nat_in seen (ident n) then Ok st
  else
    let! _ := check_node n in
    let 'Ast i k p t c := n in
    fold_res (fun st (a : string * list ast) =>
                fold_res (fun st x => _collect_command_nodes x st) st a.2)
      (if String.eqb k "command" then out ++ [n] else out, i :: seen) c.

(** ** Reading a command string *)

(** (name, segment, dynamic_args) *)
Abbreviation entry := (string * string * bool)%type.
Definition entry_name (e : entry) : string := e.1.1.
Abbreviation emitter := (bool -> list word -> res (list entry)).

Section Parser.
Variable parse : string -> option (list ast).

Definition _parse (text : string) : res (list ast) :=
  match parse text with Some trees => Ok trees | None => refused end.

Definition same_offsets (l k : list nat) : bool := forallb (nat_in k) l && forallb (nat_in l) k.

(** The trees and the text their positions refer to: the text with its heredocs unquoted,
    unless that cannot be parsed or is not confirmed by the trees. *)
Definition parsed_text (command_string : string) : res (string * list ast) :=
  let timed :=
    re_sub _TIME_KEYWORD
      (fun g => default "" (group_in 1 g) +:+ default "" (group_in 2 g) +:+ String backslash "time")
      command_string in
  let '(text, offsets) := _unquote_heredocs timed in
  let first :=
    let! trees := _parse text in
    let blanked := map (_blank_quoted_bodies offsets) trees in
    if same_offsets (flat_map snd blanked) offsets then Ok (text, map fst blanked) else refused in
  match first with
  | Ok r => Ok r
  | Err e =>
      match offsets with
      | [] => Err e
      | _ => let! trees := _parse timed in Ok (timed, trees)
      end
  end.

(** [s[a:b]] *)
Definition slice (s : string) (p : nat * nat) : string := String.substring p.1 (p.2 - p.1) s.

Definition word_node (text : string) (n : ast) : res word :=
  let! w := word_of n in
  Ok {| w_word := w; w_raw := slice text (span n); w_parts := map kind (kids_attr "parts" n) |}.

Definition is_kind (k : string) (n : ast) : bool := String.eqb (kind n) k.
Definition _command_words (n : ast) : list ast := keep (is_kind "word") (kids_attr "parts" n).

(** The words of a command node, its assignments checked. *)
Definition node_words (text : string) (n : ast) : res (list word) :=
  let! _ := fold_res (fun _ a => let! w := word_of a in _env_key_refusal w) ()
              (keep (is_kind "assignment") (kids_attr "parts" n)) in
  mapM (word_node text) (_command_words n).

Definition command_nodes (trees : list ast) : res (list ast) :=
  fold_res (fun out t => fst <$> _collect_command_nodes t (out, [])) [] trees.

(** What [_extract] reads before it unwraps: the words of every command. *)
Definition read_commands (command_string : string) : res (list (list word)) :=
  let! (text, trees) := parsed_text command_string in
  let! _ := fold_res (fun _ g => _env_key_refusal (default "" (group_in 1 g) +:+ "=?")) ()
              (hits _DEFAULT_ASSIGN text) in
  let! nodes := command_nodes trees in
  mapM (node_words text) nodes.

(** ** Builtins *)

Fixpoint check_test (args : list word) : res () :=
  match args with
  | w :: args' =>
      match args' with
      | target :: _ =>
          let! _ := if String.eqb (w_word w) "-v" then _check_var_word false target else Ok () in
          check_test args'
      | [] => Ok ()
      end
  | [] => Ok ()
  end.

Fixpoint check_set (args : list word) : res () :=
  match args with
  | [] => Ok ()
  | w :: args' =>
      let tok := w_word w in
      if String.eqb tok "--" then Ok ()
      else
        let! _ := _require_literal [w] in
        let! _ := require (negb (String.eqb tok "allexport"
                                 || (startswith "-" tok && has_char "a" (tail tok)))) in
        check_set args'
  end.

Definition _check_builtin (name : string) (args : list word) : res () :=
  let! _ := require (negb (String.eqb name "let")) in
  let! _ := if key_in ["test"; "["] name then check_test args else Ok () in
  let! _ := if String.eqb name "set" then check_set args else Ok () in
  if key_in _VAR_SETTERS name then _check_var_setter name args
  else if String.eqb name "printf" then _check_printf args
  else Ok ().

(** ** Options of the wrappers

    An [option skipper] returns the number of words before the command. *)

Definition _SHELL_FLAGS : ascii -> bool := one_of "eulxv".
Definition _DASH_C_SHELLS : list string := ["bash"; "sh"; "dash"].
Definition not_newline : ascii -> bool := other_than (is_char newline_char).
Definition under (dir : string) : rx := Cat (lit dir) (Star (Chr not_newline)).
Definition _STDIN_SCRIPT : rx := alt_of [lit "-"; under "/dev/"; under "/proc/"].

(** [re.sub(r"^/+", "/", s)] *)
Fixpoint strip_slashes (s : string) : string :=
  match s with String "/" s' => strip_slashes s' | _ => s end.
Definition one_slash (s : string) : string :=
  if startswith "/" s then String "/" (strip_slashes s) else s.
Definition _is_stdin_path (tok : string) : bool := fullmatches _STDIN_SCRIPT (one_slash (normpath tok)).

(** The options of a shell: whether [-c] is one, and the words after them. *)
Fixpoint shell_options (dash_c : bool) (args : list word) : res (bool * list word) :=
  match args with
  | [] => Ok (dash_c, [])
  | w :: args' =>
      let! _ := _require_literal [w] in
      let tok := w_word w in
      if String.eqb tok "--" then Ok (dash_c, args')
      else if negb (startswith "-" tok || startswith "+" tok) || String.eqb tok "-" then Ok (dash_c, args)
      else
        let c := startswith "-" tok && has_char "c" (tail tok) in
        let flags := if c then drop_chars (is_char "c") (tail tok) else tail tok in
        let! _ := require (all_chars _SHELL_FLAGS flags && negb (is_empty (tail tok))) in
        shell_options (dash_c || c) args'
  end.

Definition _ENV_VALUE_LONG : list string := ["--unset"; "--chdir"; "--argv0"].
Definition _ENV_FLAG_LONG : list string :=
  ["--ignore-environment"; "--null"; "--debug"; "--default-signal"; "--ignore-signal"; "--block-signal";
   "--list-signal-handling"].

(** The letters of a short option of [env]; [next] is the word after it. *)
Fixpoint env_letters (next : option string) (s : string) : res () :=
  match s with
  | EmptyString => Ok ()
  | String ch s' =>
      if is_char "i" ch then refused
      else if is_char "u" ch then
        match s', next with
        | EmptyString, None => refused
        | EmptyString, Some name => _env_key_refusal name
        | _, _ => _env_key_refusal s'
        end
      else if one_of "Ca" ch then Ok ()
      else env_letters next s'
  end.

Definition _check_env_opt (tok : string) (next : option string) : res () :=
  if startswith "--" tok then
    let '(opt, val) := match cut_at "=" tok with Some (o, v) => (o, Some v) | None => (tok, None) end in
    let! _ := require (negb (negb (String.eqb opt "--") && startswith opt "--ignore-environment")) in
    if negb (String.eqb opt "--") && startswith opt "--unset" then
      match val, next with
      | Some v, _ => _env_key_refusal v
      | None, Some name => _env_key_refusal name
      | None, None => refused
      end
    else Ok ()
  else env_letters next (tail tok).

(** Whether the value of a short option is the next word. *)
Fixpoint env_value_next (s : string) : bool :=
  match s with
  | EmptyString => false
  | String ch s' => if one_of "uCa" ch then is_empty s' else env_value_next s'
  end.

Definition before_equals (tok : string) : string := hd "" (split_on "=" tok).

(** Whether the option takes the next word as its value. *)
Definition _skip_env_opt (tok : string) : res bool :=
  if startswith "--s" tok || (has_char "S" (tail tok) && negb (startswith "--" tok)) then refused
  else if startswith "--" tok then
    let name := before_equals tok in
    if negb (String.eqb name "--") && existsb (fun v => startswith name v) _ENV_VALUE_LONG
    then Ok (negb (has_char "=" tok))
    else if key_in _ENV_FLAG_LONG name || String.eqb tok "--" then Ok false
    else refused
  else Ok (env_value_next (tail tok)).

(** [opts]: [env] still reads options; [skip]: the word is the value of the option before. *)
Fixpoint env_words (opts skip : bool) (l : list string) : res nat :=
  match l with
  | [] => Ok 0
  | tok :: l' =>
      if skip then S <$> env_words opts false l'
      else if opts && key_in ["--"; "-"] tok then
        if String.eqb tok "-" then refused else S <$> env_words false false l'
      else if opts && startswith "-" tok then
        let! _ := _check_env_opt tok (hd_error l') in
        let! takes_next := _skip_env_opt tok in
        S <$> env_words opts takes_next l'
      else if has_char "=" tok && negb (startswith "=" tok) then
        let! _ := _env_key_refusal tok in S <$> env_words false false l'
      else Ok 0
  end.

Definition _XARGS_VALUE_SHORT : ascii -> bool := one_of "InPdEsLa".
Definition _XARGS_ATTACHED_SHORT : ascii -> bool := one_of "iel".
Definition _XARGS_FLAG_LONG : list string :=
  ["--null"; "--open-tty"; "--exit"; "--no-run-if-empty"; "--verbose"; "--interactive"; "--show-limits";
   "--help"; "--version"; "--eof"; "--replace"; "--max-lines"].

Definition _skip_xargs_opt (tok : string) : res bool :=
  if startswith "--" tok then
    if has_char "=" tok || key_in _XARGS_FLAG_LONG tok || String.eqb tok "--" then Ok false else refused
  else
    match tail tok with
    | EmptyString => Ok false
    | String c s =>
        if _XARGS_VALUE_SHORT c then Ok (is_empty s)
        else if negb (_XARGS_ATTACHED_SHORT c)
                && negb (all_chars (other_than (either _XARGS_VALUE_SHORT _XARGS_ATTACHED_SHORT)) s)
        then refused else Ok false
    end.

Definition _is_opt (tok : string) : bool := startswith "-" tok && negb (String.eqb tok "-").

Fixpoint xargs_words (skip : bool) (l : list string) : res nat :=
  match l with
  | [] => Ok 0
  | tok :: l' =>
      if skip then S <$> xargs_words false l'
      else if String.eqb tok "--" then Ok 1
      else if _is_opt tok then
        let! takes_next := _skip_xargs_opt tok in S <$> xargs_words takes_next l'
      else Ok 0
  end.

(** None: [command -v] looks a name up and runs nothing. *)
Fixpoint _skip_command_opts (l : list string) : option nat :=
  match l with
  | [] => Some 0
  | tok :: l' =>
      if _is_opt tok then
        if String.eqb tok "--" then Some 1
        else if short_flag "v" tok || short_flag "V" tok then None
        else S <$> _skip_command_opts l'
      else Some 0
  end.

(** [tok.find("a") == len(tok) - 1] *)
Fixpoint first_a_last (s : string) : bool :=
  match s with
  | EmptyString => false
  | String c s' => if is_char "a" c then is_empty s' else first_a_last s'
  end.

Fixpoint _skip_exec_opts (skip : bool) (l : list string) : res nat :=
  match l with
  | [] => Ok 0
  | tok :: l' =>
      if skip then S <$> _skip_exec_opts false l'
      else if _is_opt tok then
        let! _ := require (negb (short_flag "c" tok)) in
        if String.eqb tok "--" then Ok 1
        else S <$> _skip_exec_opts (negb (startswith "--" tok) && first_a_last tok) l'
      else Ok 0
  end.

Fixpoint _skip_timeout_opts (skip : bool) (l : list string) : nat :=
  match l with
  | [] => 1
  | tok :: l' =>
      if skip then S (_skip_timeout_opts false l')
      else if startswith "-" tok
      then S (_skip_timeout_opts (key_in ["-s"; "--signal"; "-k"; "--kill-after"] tok) l')
      else 1
  end.

Definition _TIME_VALUE_OPTS : list string := ["-f"; "-o"; "--format"; "--output"].
Definition _TIME_FLAG_OPTS : list string :=
  ["-p"; "-a"; "-v"; "-q"; "--portability"; "--append"; "--verbose"; "--quiet"].

Fixpoint _skip_time_opts (skip : bool) (l : list string) : res nat :=
  match l with
  | [] => Ok 0
  | tok :: l' =>
      if skip then S <$> _skip_time_opts false l'
      else if startswith "-" tok then
        if String.eqb tok "--" then Ok 1
        else if key_in _TIME_VALUE_OPTS tok then S <$> _skip_time_opts true l'
        else if key_in _TIME_FLAG_OPTS tok || startswith "--format=" tok || startswith "--output=" tok
        then S <$> _skip_time_opts false l'
        else refused
      else Ok 0
  end.

Definition skip_prefix_opts (name : string) (l : list string) : res (option nat) :=
  if String.eqb name "command" then Ok (_skip_command_opts l)
  else if String.eqb name "exec" then Some <$> _skip_exec_opts false l
  else if String.eqb name "timeout" then Ok (Some (_skip_timeout_opts false l))
  else Some <$> _skip_time_opts false l.

(** ** Package runners *)

Definition _RUNNER_FLAGS : list string :=
  ["--no"; "-q"; "--quiet"; "--ignore-existing"; "--no-install"; "--include-workspace-root"; "--workspaces";
   "-ws"].
Definition _RUNNER_VALUE_OPTS : list string := ["-w"; "--workspace"].

Definition _RUNNER_SUBCOMMANDS : list (string * list (list string)) :=
  [("pnpm", [["exec"]; ["dlx"]]); ("yarn", [["exec"]; ["dlx"]]); ("bun", [["x"]; ["run"]]);
   ("uv", [["tool"; "run"]; ["run"]]); ("pipx", [["run"]])].

(** The flags and the options with a value each tool reads before its subcommand. *)
Definition _RUNNER_GLOBALS : list (string * (list string * list string)) :=
  [("pnpm", (["-r"; "--recursive"; "-w"; "--workspace-root"; "-s"; "--silent"; "--parallel"; "--stream"],
             ["--filter"; "-F"; "-C"; "--dir"]));
   ("yarn", (["-s"; "--silent"], ["--cwd"]));
   ("bun", (["--bun"; "--silent"], ["--cwd"]))].

Definition _YARN_FOREACH_OPTS : list string * list string :=
  (["-A"; "--all"; "-R"; "--recursive"; "-W"; "--worktree"; "-p"; "--parallel"; "-i"; "--interlaced"; "-t";
    "--topological"; "--topological-dev"; "-v"; "--verbose"],
   ["--include"; "--exclude"; "--from"; "-j"; "--jobs"]).

Definition _RUNNER_BUILTINS : list (string * list string) :=
  [("pnpm",
    ["add"; "approve-builds"; "audit"; "bin"; "c"; "cache"; "cat-file"; "cat-index"; "config";
     "create"; "dedupe"; "deploy"; "doctor"; "env"; "fetch"; "find-hash"; "help"; "i";
     "ignored-builds"; "import"; "init"; "install"; "install-test"; "it"; "la"; "licenses"; "link";
     "list"; "ll"; "ln"; "ls"; "outdated"; "pack"; "patch"; "patch-commit"; "patch-remove";
     "prune"; "publish"; "rb"; "rebuild"; "remove"; "rm"; "root"; "run"; "run-script";
     "self-update"; "server"; "setup"; "start"; "store"; "t"; "test"; "tst"; "un"; "uninstall";
     "unlink"; "up"; "update"; "upgrade"; "why"]);
   ("yarn",
    ["add"; "audit"; "autoclean"; "bin"; "cache"; "check"; "config"; "constraints"; "create";
     "dedupe"; "explain"; "generate-lock-entry"; "global"; "help"; "import"; "info"; "init";
     "install"; "licenses"; "link"; "list"; "login"; "logout"; "npm"; "outdated"; "owner"; "pack";
     "patch"; "patch-commit"; "plugin"; "policies"; "publish"; "rebuild"; "remove"; "run";
     "search"; "set"; "stage"; "tag"; "team"; "test"; "unlink"; "unplug"; "up"; "upgrade";
     "upgrade-interactive"; "version"; "versions"; "why"; "workspaces"]);
   ("bun",
    ["a"; "add"; "audit"; "build"; "c"; "completions"; "create"; "help"; "i"; "info"; "init";
     "install"; "link"; "outdated"; "patch"; "patch-commit"; "pm"; "publish"; "remove"; "repl";
     "rm"; "test"; "unlink"; "update"; "upgrade"; "why"])].

Definition _NPM_GLOBAL_FLAGS : list string :=
  ["-g"; "--global"; "-s"; "--silent"; "-q"; "--quiet"; "-d"; "--verbose"; "-y"; "--yes"; "-ws";
   "--workspaces"; "--include-workspace-root"; "-v"; "--version"; "-h"; "--help"].
Definition _NPM_GLOBAL_VALUE_OPTS : list string :=
  ["-w"; "--workspace"; "--prefix"; "--loglevel"; "--registry"].
Definition _NPM_SUBCOMMAND_OPTS : list string :=
  ["--save"; "-S"; "--save-dev"; "-D"; "--save-exact"; "-E"; "--save-optional"; "-O";
   "--save-peer"; "--no-save"; "--omit"; "--include"; "--production"; "--only";
   "--legacy-peer-deps"; "--strict-peer-deps"; "--ignore-scripts"; "--no-audit"; "--no-fund";
   "--force"; "-f"; "--dry-run"; "--json"; "--parseable"; "--depth"; "--all"; "-a";
   "--audit-level"; "--if-present"; "--long"; "-l"; "--prefer-offline"; "--prefer-online";
   "--offline"; "--no-package-lock"; "--package-lock-only"; "--frozen-lockfile";
   "--no-git-tag-version"].

(** The words after the options of a runner; the option words and the operand must be
    literal. *)
Fixpoint runner_options (flags value_opts : list string) (skip : bool) (l : list word) : res (list word) :=
  match l with
  | [] => Ok []
  | w :: l' =>
      let tok := w_word w in
      if skip then let! _ := _require_literal [w] in runner_options flags value_opts false l'
      else if String.eqb tok "--" then Ok l'
      else if negb (startswith "-" tok) then Ok l
      else
        let name := before_equals tok in
        if key_in value_opts name then
          let! _ := _require_literal [w] in runner_options flags value_opts (negb (has_char "=" tok)) l'
        else if key_in flags tok then
          let! _ := _require_literal [w] in runner_options flags value_opts false l'
        else refused
  end.

Definition _check_package_runner (opts : list string * list string) (l : list word) : res (list word) :=
  let! l := runner_options opts.1 opts.2 false l in
  let! _ := _require_literal (firstn 1 l) in Ok l.

Definition npx_opts : list string * list string := (_RUNNER_FLAGS, _RUNNER_VALUE_OPTS).
Definition no_opts : list string * list string := ([], []).

(** The words after a prefix that says where to run, None without one. *)
Definition _skip_runner_prefix (tool : string) (w : word) (l : list word) : res (option (list word)) :=
  if String.eqb tool "pnpm" && key_in ["recursive"; "multi"; "m"] (w_word w)
  then Some <$> _check_package_runner no_opts l
  else if String.eqb tool "yarn" && String.eqb (w_word w) "workspace" then
    let! _ := _require_literal (firstn 1 l) in Some <$> _check_package_runner no_opts (tl l)
  else if String.eqb tool "yarn" && String.eqb (w_word w) "workspaces" then
    match l with
    | x :: l' =>
        let! _ := _require_literal [x] in
        if String.eqb (w_word x) "foreach" then Some <$> _check_package_runner _YARN_FOREACH_OPTS l'
        else Ok None
    | [] => Ok None
    end
  else Ok None.

(** The target of a subcommand that starts the words [l], None when none does. *)
Fixpoint _subcommand_target (subcommands : list (list string)) (l : list word) : res (option (list word)) :=
  match subcommands with
  | [] => Ok None
  | sub :: subcommands' =>
      if String.eqb (hd "" (w_word <$> l)) (hd "" sub) then
        let n := length sub in
        let! _ := _require_literal (firstn n l) in
        let got := w_word <$> firstn n l in
        if bool_decide (got = sub) then Some <$> _check_package_runner no_opts (skipn n l)
        else if existsb (startswith "-") (tl got) then refused
        else _subcommand_target subcommands' l
      else _subcommand_target subcommands' l
  end.

(** ** Emission *)


Fixpoint emit_all (emit : list word -> res (list entry)) (l : list (list word)) : res (list entry) :=
  match l with
  | [] => Ok []
  | ws :: l' =>
      let! a := match ws with [] => Ok [] | _ => emit ws end in
      let! b := emit_all emit l' in Ok (a ++ b)
  end.

(** [_extract]: the commands of a text, each emitted. *)
Definition _extract (emit : emitter) (dynamic_args : bool) (command_string : string) : res (list entry) :=
  let! cmds := read_commands command_string in emit_all (emit dynamic_args) cmds.

Definition emit_rest (emit : emitter) (dynamic_args : bool) (l : list word) : res (list entry) :=
  match l with [] => Ok [] | _ => emit dynamic_args l end.

Section Unwrappers.
Variable emit : emitter.

Definition _unwrap_dash_c (name : string) (args : list word) (dynamic_args : bool) : res (list entry) :=
  let! (dash_c, operands) := shell_options false args in
  match operands with
  | [] => refused
  | w :: _ =>
      let! _ := _require_literal [w] in
      if dash_c : bool then
        let! _ := require (key_in _DASH_C_SHELLS name) in _extract emit dynamic_args (w_word w)
      else let! _ := require (negb (_is_stdin_path (w_word w))) in Ok []
  end.

Definition _unwrap_env (args : list word) (dynamic_args : bool) : res (list entry) :=
  let! n := env_words true false (w_word <$> args) in
  let! _ := _require_literal (firstn n args) in
  emit_rest emit dynamic_args (skipn n args).

Definition _unwrap_xargs (args : list word) : res (list entry) :=
  let! n := xargs_words false (w_word <$> args) in
  let! _ := _require_literal (firstn n args) in
  emit_rest emit true (skipn n args).

(** The words after each action of [find] that runs a command. *)
Fixpoint exec_targets (args : list word) : list (list word) :=
  match args with
  | [] => []
  | w :: args' => if key_in _FIND_EXEC_ACTIONS (w_word w) then args' :: exec_targets args' else exec_targets args'
  end.

Definition _unwrap_find_exec (args : list word) : res (list entry) :=
  let! _ := _require_literal args in emit_all (emit true) (exec_targets args).

(** The words before the first that is no option. *)
Fixpoint leading_options (args : list word) : list word :=
  match args with
  | w :: args' => if _is_opt (w_word w) then w :: leading_options args' else []
  | [] => []
  end.

Definition _unwrap_prefix (name : string) (args : list word) (dynamic_args : bool) : res (list entry) :=
  let! _ := _require_literal (leading_options args) in
  let! n := skip_prefix_opts name (w_word <$> args) in
  match n with
  | None => Ok []
  | Some n => let! _ := _require_literal (firstn n args) in emit_rest emit dynamic_args (skipn n args)
  end.

Definition _unwrap_source (args : list word) : res (list entry) :=
  match args with
  | [] => Ok []
  | w :: _ =>
      let! _ := _require_literal [w] in
      let! _ := require (negb (startswith "-" (w_word w) || _is_stdin_path (w_word w))) in Ok []
  end.

Definition _unwrap_npx (name : string) (args : list word) (dynamic_args : bool) : res (list entry) :=
  let! l := _check_package_runner (if String.eqb name "npx" then npx_opts else no_opts) args in
  emit_rest emit dynamic_args l.

(** The loop of [_unwrap_subcommand_runner] over the prefixes. *)
Fixpoint subcommand_loop (n : nat) (tool : string) (dynamic_args : bool) (l : list word) : res (list entry) :=
  match n, l with
  | _, [] => Ok []
  | O, _ => refused
  | S n', w :: l' =>
      let! next := _skip_runner_prefix tool w l' in
      match next with
      | Some next => subcommand_loop n' tool dynamic_args next
      | None =>
          if String.eqb tool "bun" && String.eqb (w_word w) "exec" then
            match l' with
            | [x] => let! _ := _require_literal [x] in _extract emit dynamic_args (w_word x)
            | _ => refused
            end
          else
            let! _ := _require_literal [w] in
            let! target := _subcommand_target (default [] (attr tool _RUNNER_SUBCOMMANDS)) l in
            match target with
            | Some target => emit_rest emit dynamic_args target
            | None =>
                match attr tool _RUNNER_BUILTINS with
                | Some builtins => if key_in builtins (w_word w) then Ok [] else emit dynamic_args l
                | None => Ok []
                end
            end
      end
  end.

Definition _unwrap_subcommand_runner (tool : string) (args : list word) (dynamic_args : bool) : res (list entry) :=
  match args with
  | [] => Ok []
  | w :: _ =>
      match attr tool _RUNNER_GLOBALS with
      | Some opts =>
          let! l := _check_package_runner opts args in subcommand_loop (S (length l)) tool dynamic_args l
      | None =>
          if startswith "-" (w_word w) then
            let! _ := _require_literal args in
            let! _ := require (negb (existsb (fun x => existsb (fun sub => String.eqb (w_word x) (hd "" sub))
                                                        (default [] (attr tool _RUNNER_SUBCOMMANDS))) args)) in
            Ok []
          else subcommand_loop (S (length args)) tool dynamic_args args
      end
  end.

(** The global options of npm. *)
Fixpoint npm_globals (skip : bool) (l : list word) : res (list word) :=
  match l with
  | [] => Ok []
  | w :: l' =>
      let tok := w_word w in
      if skip then let! _ := _require_literal [w] in npm_globals false l'
      else if String.eqb tok "--" then Ok l'
      else if negb (startswith "-" tok) then Ok l
      else if key_in _NPM_GLOBAL_VALUE_OPTS (before_equals tok) then
        let! _ := _require_literal [w] in npm_globals (negb (has_char "=" tok)) l'
      else if key_in _NPM_GLOBAL_FLAGS tok then let! _ := _require_literal [w] in npm_globals false l'
      else refused
  end.

(** The options up to [--] are known ones. *)
Fixpoint npm_allowed (allowed : string -> bool) (l : list word) : res () :=
  match l with
  | [] => Ok ()
  | w :: l' =>
      if String.eqb (w_word w) "--" then Ok ()
      else
        let! _ := _require_literal [w] in
        let! _ := require (negb (startswith "-" (w_word w)) || allowed (before_equals (w_word w))) in
        npm_allowed allowed l'
  end.

Definition npm_option (is_exec : bool) (name : string) : bool :=
  (key_in _NPM_GLOBAL_FLAGS name && negb (is_exec && key_in ["-y"; "--yes"] name))
  || key_in _NPM_GLOBAL_VALUE_OPTS name || key_in _NPM_SUBCOMMAND_OPTS name
  || (is_exec && (key_in _RUNNER_FLAGS name || key_in _RUNNER_VALUE_OPTS name)).

Definition _unwrap_npm (args : list word) (dynamic_args : bool) : res (list entry) :=
  let! l := npm_globals false args in
  match l with
  | [] => Ok []
  | w :: l' =>
      let! _ := _require_literal [w] in
      let is_exec := key_in ["exec"; "x"] (w_word w) in
      let! _ := npm_allowed (npm_option is_exec) (if is_exec then args else l') in
      if is_exec then let! target := _check_package_runner npx_opts l' in emit_rest emit dynamic_args target
      else Ok []
  end.

Definition toml_path : rx := Cat (Plus (Chr (either is_word (one_of "./-")))) (lit ".toml").

Fixpoint _unwrap_cargo (args : list word) : res (list entry) :=
  match args with
  | [] => Ok []
  | w :: args' =>
      let tok := w_word w in
      let! _ := require (negb (String.eqb tok "watch")) in
      let! _ :=
        if String.eqb tok "--config" || startswith "--config=" tok then
          match cut_at "=" tok, args' with
          | Some (_, val), _ => let! _ := _require_literal [w] in require (fullmatches toml_path val)
          | None, x :: _ => let! _ := _require_literal [w; x] in require (fullmatches toml_path (w_word x))
          | None, [] => refused
          end
        else Ok () in
      _unwrap_cargo args'
  end.

(** [_UNWRAPPERS]: what a command name unwraps, None when it wraps nothing. *)
Definition _UNWRAPPERS (name : string) (args : list word) (dynamic_args : bool) : option (res (list entry)) :=
  if key_in _SHELL_INTERPRETERS name then Some (_unwrap_dash_c name args dynamic_args)
  else if String.eqb name "env" then Some (_unwrap_env args dynamic_args)
  else if String.eqb name "xargs" then Some (_unwrap_xargs args)
  else if String.eqb name "find" then Some (_unwrap_find_exec args)
  else if key_in ["command"; "exec"; "timeout"; "time"] name then Some (_unwrap_prefix name args dynamic_args)
  else if key_in ["source"; "."] name then Some (_unwrap_source args)
  else if key_in ["npx"; "pnpx"; "bunx"; "uvx"] name then Some (_unwrap_npx name args dynamic_args)
  else if String.eqb name "npm" then Some (_unwrap_npm args dynamic_args)
  else if key_in ["pnpm"; "yarn"; "bun"; "uv"; "pipx"] name
  then Some (_unwrap_subcommand_runner name args dynamic_args)
  else if String.eqb name "cargo" then Some (_unwrap_cargo args)
  else None.
End Unwrappers.

(** [left] is the number of levels that remain: [_MAX_DEPTH + 1 - depth]. *)
Fixpoint _emit (left : nat) (dynamic_args : bool) (words : list word) : res (list entry) :=
  match left, words with
  | O, _ => refused
  | S _, [] => Err (AppError "IndexError")
  | S left', w :: args =>
      let! _ := _require_literal [w] in
      let name := _basename (w_word w) in
      let! _ := _check_builtin name args in
      let! more := match _UNWRAPPERS (_emit left') name args dynamic_args with
                   | Some more => more
                   | None => Ok []
                   end in
      Ok ((name, join_words (w_word <$> words), dynamic_args) :: more)
  end.

Definition extract_command_segments_ast (command_string : string) : res (list entry) :=
  if is_empty command_string || is_empty (strip command_string) then Ok []
  else _extract (_emit (S _MAX_DEPTH)) false command_string.

Definition extract_commands_ast (command_string : string) : res (list string) :=
  map entry_name <$> extract_command_segments_ast command_string.
End Parser.
