(* ===== verification/WriteGuard.v ===== *)
(** The paths agents may not write (git_metadata_write_refusal,
    source_aifactory_write_refusal and protected_write_refusal of
    backend/security/filesystem_validators.py): git metadata, the .aifactory directory of the
    source project, the security profile.

    [expanduser] and [resolve] are Path.expanduser and Path.resolve, which ask the system
    and may raise; [getcwd] is the working directory. *)
From S2P Require Import Prelude GitPins ExecContext.
Local Open Scope nat_scope.

(** ** pathlib *)

(** [str(Path(s))] *)
Definition path_str (s : string) : string :=
  let text := slashes (initial_slashes s) +:+ join "/" (comps s) in
  if is_empty text then "." else text.
(** [Path(s).parts] *)
Definition parts (s : string) : list string :=
  (if isabs s then [slashes (initial_slashes s)] else []) ++ comps s.
(** [Path(a) / b] *)
Definition path_div (a b : string) : string := path_str (path_join (path_str a) (path_str b)).
(** [p.is_relative_to(q)] *)
Definition starts_list (l k : list string) : bool := bool_decide (l `prefix_of` k).
Definition is_relative_to (p q : string) : bool := starts_list (parts q) (parts p).
Definition path_name (p : string) : string := List.last (comps p) "".
(** [Path(os.path.normpath(p))] *)
Definition lexical (p : string) : string := path_str (normpath (path_str p)).

(** [s.rsplit(sep, 1)] when [sep] occurs in [s]: the texts around its last occurrence. *)
Definition rcut_at (sep s : string) : option (string * string) :=
  match cut_at (String.rev sep) (String.rev s) with
  | Some (a, b) => Some (String.rev b, String.rev a)
  | None => None
  end.

Section Guard.
Variables (getcwd : string) (expanduser resolve : string -> res string).

(** OSError, RuntimeError or ValueError: what [except] catches. *)
Definition expected (e : exn) : bool :=
  match e with ValueError => true | AppError n => key_in ["OSError"; "RuntimeError"] n | _ => false end.
Definition caught {A} (r : res A) (dflt : A) : res A :=
  match r with Err e => if expected e then Ok dflt else Err e | Ok a => Ok a end.

Definition or_else_str (a : option string) (b : string) : string :=
  match a with Some s => if is_empty s then b else s | None => b end.

(** The path from the directory [base], and its lexical and resolved forms. *)
Definition from_base (base path : string) : res string :=
  let! p := expanduser (path_str path) in
  Ok (if isabs p then path_str p else path_div base p).
Definition path_forms (cwd : option string) (path : string) : res (list string) :=
  let! p := from_base (or_else_str cwd getcwd) path in
  let! r := resolve p in Ok [lexical p; r].

Definition git_refusal : string := "Refused: writes into git metadata (.git) are not allowed.".
Definition has_git_part (forms : list string) : bool :=
  existsb (fun f => existsb (fun c => String.eqb (lower c) ".git") (parts f)) forms.

Definition git_metadata_write_refusal (path : string) (cwd : option string) : res (option string) :=
  caught (let! forms := path_forms cwd path in
          Ok (if has_git_part forms then Some git_refusal else None)) (Some git_refusal).

(** ** The source project of a worktree *)

Definition _WORKTREE_MARKERS : list string :=
  ["/.aifactory/worktrees/tasks/"; "/.aifactory/github/pr/worktrees/"].

(** (source .aifactory, worktree root) of a path inside a worktree. *)
Definition _worktree_source (p : string) : option (string * string) :=
  let s := p +:+ "/" in
  match List.find (fun m => contains m s) _WORKTREE_MARKERS with
  | None => None
  | Some marker =>
      match rcut_at marker s with
      | None => None
      | Some (prefix, rest) =>
          let name := hd "" (split_on "/" rest) in
          Some (path_div prefix ".aifactory", path_str (prefix +:+ marker +:+ name))
      end
  end.

Definition source_refusal : string :=
  "Refused: the source project's .aifactory/ is read-only for agents.".

(** [Path(p).expanduser().absolute()] *)
Definition absolute (p : string) : res string :=
  let! p := expanduser (path_str p) in Ok (if isabs p then path_str p else path_div getcwd p).

(** (start, target), in the lexical and in the resolved form. *)
Definition source_pairs (base path : string) (cwd : option string) : res (list (string * string)) :=
  let! start := absolute base in
  let! p := expanduser (path_str path) in
  let! p := if isabs p then Ok (path_str p)
            else (let! dir := absolute (or_else_str cwd base) in Ok (path_div dir p)) in
  let! start_resolved := resolve start in
  let! p_resolved := resolve p in
  Ok [(lexical start, lexical p); (start_resolved, p_resolved)].

Definition writes_source (pair : string * string) : bool :=
  match _worktree_source pair.1 with
  | None => false
  | Some (source, worktree) => is_relative_to pair.2 source && negb (is_relative_to pair.2 worktree)
  end.

Definition source_aifactory_write_refusal (path : string) (cwd root : option string) : res (option string) :=
  match or_else_str root (or_else_str cwd "") with
  | EmptyString => Ok None
  | base =>
      caught (let! pairs := source_pairs base path cwd in
              Ok (if existsb writes_source pairs then Some source_refusal else None)) (Some source_refusal)
  end.

Definition _PROFILE_FILENAMES : list string := [".aifactory-security.json"; ".aifactory-allowlist"].
Definition profile_refusal : string :=
  "Refused: the security profile is managed by AIFactory and cannot be written.".

Definition profile_write_refusal (path : string) (cwd : option string) : res (option string) :=
  caught (let! forms := path_forms cwd path in
          Ok (if existsb (fun f => key_in _PROFILE_FILENAMES (lower (path_name f))) forms
              then Some profile_refusal else None)) (Some profile_refusal).

Definition protected_write_refusal (path : string) (cwd root : option string) : res (option string) :=
  let! refusal := git_metadata_write_refusal path cwd in
  match refusal with
  | Some r => Ok (Some r)
  | None =>
      let! refusal := source_aifactory_write_refusal path cwd root in
      match refusal with
      | Some r => Ok (Some r)
      | None => profile_write_refusal path cwd
      end
  end.
End Guard.

(** ** Where a path leads *)

Lemma comps_path_str s : comps (path_str s) = comps s.
Proof.
  unfold path_str. pose proof (comps_render (initial_slashes s) (comps s) (comps_Forall s)) as R.
  destruct (slashes (initial_slashes s) +:+ join "/" (comps s)) as [|c t] eqn:X; [|done].
  rewrite <- R. reflexivity.
Qed.

Lemma isabs_path_str s : isabs (path_str s) = isabs s.
Proof.
  unfold path_str. destruct (isabs s) eqn:A.
  - apply initial_slashes_abs in A. destruct (initial_slashes s) as [|n]; [lia|]. cbn [slashes].
    rewrite string_app_cons. cbn [is_empty]. unfold isabs. rewrite startswith_head.
    by destruct (slashes n +:+ join "/" (comps s)).
  - assert (Z : initial_slashes s = 0).
    { destruct (initial_slashes s) eqn:N; [done|].
      assert (isabs s = true) by (apply initial_slashes_abs; lia). congruence. }
    rewrite Z. cbn [slashes]. rewrite string_app_nil.
    pose proof (join_relative (comps s) (comps_Forall s)) as J. by destruct (join "/" (comps s)).
Qed.

Lemma walk_path_str dir s : walk dir (path_str s) = walk dir s.
Proof. by rewrite !walk_comps, comps_path_str, isabs_path_str. Qed.

Lemma comps_lexical p : isabs p = true -> comps (lexical p) = walk [] p.
Proof.
  intros A. unfold lexical. rewrite comps_path_str, comps_normpath by (by rewrite isabs_path_str).
  apply walk_path_str.
Qed.

Lemma path_div_walk a b : isabs a = true -> isabs b = false ->
  isabs (path_div a b) = true /\ walk [] (path_div a b) = walk (walk [] a) b.
Proof.
  intros A B. unfold path_div. rewrite isabs_path_str, walk_path_str.
  destruct (walk_join (path_str a) (path_str b)) as [J ->]; [by rewrite isabs_path_str..|].
  by rewrite !walk_path_str.
Qed.

(** The path a write goes to, read from [base]. *)
Definition written (base p : string) : list string := walk (walk [] base) p.

Lemma from_base_walk expanduser base path p t : isabs base = true ->
  expanduser (path_str path) = Ok p -> from_base expanduser base path = Ok t ->
  isabs t = true /\ walk [] t = written base p.
Proof.
  intros A X F. unfold from_base in F. rewrite X in F. cbn [mbind res_bind] in F. injection F as <-.
  unfold written. destruct (isabs p) eqn:P.
  - rewrite isabs_path_str, walk_path_str. split; [done|]. unfold walk. by rewrite P.
  - by apply path_div_walk.
Qed.

Lemma caught_None {A} (r : res (option A)) (d : A) : caught r (Some d) = Ok None -> r = Ok None.
Proof. destruct r as [|e]; cbn; [done|]. by destruct (expected e). Qed.

Lemma bind_if_None {A} (r : res A) (f : A -> bool) (d : string) :
  (let! x := r in Ok (if f x then Some d else None)) = Ok None -> exists x, r = Ok x /\ f x = false.
Proof. intros (x & -> & E)%bind_Ok_inv. exists x. split; [done|]. by destruct (f x). Qed.

(** A path is under a directory. *)
Lemma is_relative_to_prefix p q : isabs p = true -> isabs q = true ->
  initial_slashes p = initial_slashes q -> is_relative_to p q = true <-> comps q `prefix_of` comps p.
Proof.
  intros P Q E. unfold is_relative_to, starts_list, parts. rewrite P, Q, E, bool_decide_eq_true. cbn [app].
  split; [apply prefix_cons_inv_2 | apply prefix_cons].
Qed.

Section Writes.
Context (getcwd : string) (expanduser resolve : string -> res string).
Abbreviation guard := (protected_write_refusal getcwd expanduser resolve).

Lemma guard_None path cwd root : guard path cwd root = Ok None ->
  (exists forms, path_forms getcwd expanduser resolve cwd path = Ok forms
     /\ has_git_part forms = false
     /\ existsb (fun f => key_in _PROFILE_FILENAMES (lower (path_name f))) forms = false)
  /\ source_aifactory_write_refusal getcwd expanduser resolve path cwd root = Ok None.
Proof.
  unfold protected_write_refusal. intros (r1 & G & E)%bind_Ok_inv. destruct r1; [done|].
  apply bind_Ok_inv in E as (r2 & S & E). destruct r2; [done|]. split; [|done].
  unfold git_metadata_write_refusal in G. apply caught_None, bind_if_None in G as (forms & F & G).
  unfold profile_write_refusal in E. apply caught_None, bind_if_None in E as (forms' & F' & E).
  rewrite F in F'. injection F' as <-. by exists forms.
Qed.

(** What no written path may be, in the forms a path is looked at. *)
Definition unprotected (dirs : list string) : Prop :=
  (forall c, c ∈ dirs -> lower c <> ".git") /\ lower (List.last dirs "") ∉ _PROFILE_FILENAMES.

Lemma form_unprotected forms f : has_git_part forms = false ->
  existsb (fun f => key_in _PROFILE_FILENAMES (lower (path_name f))) forms = false ->
  f ∈ forms -> unprotected (comps f).
Proof.
  intros G N I. split.
  - intros c Hc E. unfold has_git_part in G. rewrite existsb_false in G. specialize (G f I).
    rewrite existsb_false in G. assert (Ic : c ∈ parts f) by (unfold parts; apply elem_of_app; by right).
    specialize (G c Ic). rewrite E in G. done.
  - rewrite existsb_false in N. specialize (N f I). intros H. apply key_in_elem in H.
    unfold path_name in N. congruence.
Qed.

End Writes.

Definition same_path (s : string) : res string := Ok (path_str (normpath s)).

