(* ===== verification/CommandGate.v ===== *)
(** The gate of the tools an agent calls (backend/security/hooks.py): the Bash hook with
    the profile of the project (project/models.py, project/__init__.py), the parser, the
    validators and the egress policy (security/egress.py); the hook of the web tools; the
    hook of the file tools.

    The profile of a directory, the SSRF guard, [bashlex] and the hooks of the validators
    are parameters; [environ] is the environment. *)
From S2P Require Import Prelude PyData EventMonad TrustedPlan GitPins Regex Shlex ExecContext CommandValidators CommandParser WriteGuard.
Local Open Scope nat_scope.

(** ** The profile *)

Definition _EXTRA_CMD_NAME (name : string) : bool :=
  match name with
  | String c s =>
      either is_alpha is_digit c && all_chars (either is_alpha (either is_digit (one_of "._-"))) s
      && (String.length s <=? 63)
  | EmptyString => false
  end.
Definition _EXTRA_CMD_DENY : list string :=
  ["sudo"; "su"; "doas"; "pkexec"; "shutdown"; "reboot"; "halt"; "poweroff"; "mkfs"; "fdisk"; "dd"].

(** [re.split(r"[,\s]+", s)]: the texts between runs of separators. *)
Definition separator : ascii -> bool := either (is_char ",") is_space.
Fixpoint split_runs (sep : ascii -> bool) (word : string) (in_run : bool) (s : string) : list string :=
  match s with
  | EmptyString => if in_run then [""] else [word]
  | String c s' =>
      if sep c then (if in_run then [] else [word]) ++ split_runs sep "" true s'
      else split_runs sep (if in_run then String c "" else put word c) false s'
  end.

Definition _extra_allowed_commands_from_env (environ : env_list) : list string :=
  let raw := default "" (env_get "AIFACTORY_EXTRA_ALLOWED_COMMANDS" environ) in
  if is_empty (strip raw) then []
  else keep (fun name => _EXTRA_CMD_NAME name && negb (key_in _EXTRA_CMD_DENY name))
         (strip <$> split_runs separator "" false (strip raw)).

(** The fields of the profile the gate reads. *)
Record SecurityProfile := {
  base_commands : list string;
  stack_commands : list string;
  script_commands : list string;
  custom_commands : list string;
  shell_scripts : list string;
}.

Definition get_all_allowed_commands (environ : env_list) (p : SecurityProfile) : list string :=
  base_commands p ++ stack_commands p ++ script_commands p ++ custom_commands p
  ++ _extra_allowed_commands_from_env environ.

Definition is_command_allowed (environ : env_list) (command : string) (profile : SecurityProfile) : bool * string :=
  if key_in (get_all_allowed_commands environ profile) command then (true, "")
  else if (startswith "./" command || startswith "/" command)
          && (key_in (shell_scripts profile) (_basename command) || key_in (script_commands profile) command)
  then (true, "")
  else (false, "Command " +:+ quoted command +:+ " is not in the allowed commands for this project").

Definition BASE_COMMANDS : list string :=
  ["echo"; "printf"; "cat"; "head"; "tail"; "less"; "more"; "ls"; "pwd"; "cd"; "pushd"; "popd";
   "cp"; "mv"; "mkdir"; "rmdir"; "touch"; "ln"; "find"; "fd"; "grep"; "egrep"; "fgrep"; "rg"; "ag";
   "sort"; "uniq"; "cut"; "tr"; "sed"; "awk"; "gawk"; "wc"; "diff"; "cmp"; "comm"; "tee"; "xargs";
   "read"; "file"; "stat"; "tree"; "du"; "df"; "which"; "whereis"; "type"; "command"; "date";
   "time"; "sleep"; "timeout"; "true"; "false"; "test"; "["; "[["; "env"; "printenv"; "export";
   "unset"; "set"; "source"; "."; "exec"; "exit"; "return"; "break"; "continue"; "sh"; "bash";
   "zsh"; "tar"; "zip"; "unzip"; "gzip"; "gunzip"; "curl"; "wget"; "ping"; "host"; "dig"; "git";
   "gh"; "ps"; "pgrep"; "lsof"; "jobs"; "kill"; "pkill"; "killall"; "rm"; "chmod"; "paste"; "join";
   "split"; "fold"; "fmt"; "nl"; "rev"; "shuf"; "column"; "expand"; "unexpand"; "iconv"; "clear";
   "reset"; "man"; "help"; "uname"; "whoami"; "id"; "basename"; "dirname"; "realpath"; "readlink";
   "mktemp"; "bc"; "expr"; "seq"; "yes"; "jq"; "yq"].
Definition base_profile : SecurityProfile :=
  {| base_commands := BASE_COMMANDS; stack_commands := []; script_commands := []; custom_commands := [];
     shell_scripts := [] |}.

(** ** Egress *)

Definition EGRESS_COMMANDS : list string :=
  ["curl"; "wget"; "nc"; "ncat"; "netcat"; "telnet"; "ssh"; "scp"; "sftp"; "ftp"; "ftps"; "tftp"; "rsync";
   "socat"; "lynx"; "links"; "aria2c"; "httpie"].

Definition scheme_char : ascii -> bool := either is_alpha (either is_digit (one_of "+.-")).
Definition host_char : ascii -> bool := either is_alpha (either is_digit (one_of ".-")).
Definition _URL_RE : rx :=
  seq_of [WordBound; Chr is_alpha; Star (Chr scheme_char); lit "://";
          Group 1 (Plus (Chr (other_than (either is_space (one_of "/:?#")))))].
Definition _USERHOST_RE : rx :=
  seq_of [WordBound; Plus (Chr (either is_word (one_of ".-"))); lit "@"; Group 1 (Plus (Chr host_char))].
Definition letters2 : rx := seq_of [Chr is_alpha; Chr is_alpha; Star (Chr is_alpha)].
Definition _HOSTPORT_RE : rx :=
  seq_of [WordBound;
          Group 1 (seq_of [Chr (either is_alpha is_digit); Plus (Chr host_char); lit "."; letters2]);
          lit ":"; digits1].

Definition egress_policy (environ : env_list) : string :=
  let val := lower (strip (default "off" (env_get "AIFACTORY_EGRESS_POLICY" environ))) in
  if key_in ["deny"; "allowlist"] val then val else "off".

Definition allowed_hosts (environ : env_list) : list string :=
  keep (fun h => negb (is_empty h))
    ((fun h => lower (strip h)) <$>
       split_on "," (default "" (env_get "AIFACTORY_EGRESS_ALLOWED_HOSTS" environ))).

(** [m.split("@")[-1].split(":")[0].strip().lower()] *)
Definition host_name (m : string) : string :=
  lower (strip (hd "" (split_on ":" (List.last (split_on "@" m) "")))).

Definition extract_hosts (command : string) : list string :=
  keep (fun h => negb (is_empty h))
    (flat_map (fun r => (fun g => host_name (default "" (group_in 1 g))) <$> hits r command)
       [_URL_RE; _USERHOST_RE; _HOSTPORT_RE]).

Definition _host_allowed (host : string) (allow : list string) : bool :=
  let host := lower host in
  existsb (fun a => String.eqb host a || endswith (String "." a) host) allow.

(** A set of strings, sorted. *)
Definition sorted_set (l : list string) : list string :=
  sort_by String.leb (base.elements (list_to_set l : gset string)).

Definition check_egress (environ : env_list) (command : string) (commands : list string) : bool * string :=
  let policy := egress_policy environ in
  if String.eqb policy "off" then (true, "")
  else
    let present := sorted_set (keep (key_in EGRESS_COMMANDS) commands) in
    match present with
    | [] => (true, "")
    | _ =>
        if String.eqb policy "deny"
        then (false, "Egress command(s) " +:+ list_repr present +:+ " blocked by AIFACTORY_EGRESS_POLICY=deny. "
                     +:+ "Network access from agent commands is disabled.")
        else
          let allow := allowed_hosts environ in
          let hosts := extract_hosts command in
          match hosts with
          | [] => (false, "Egress command(s) " +:+ list_repr present
                          +:+ " blocked: no target host could be parsed "
                          +:+ "for allowlist verification (AIFACTORY_EGRESS_POLICY=allowlist, fail-closed).")
          | _ =>
              match sorted_set (keep (fun h => negb (_host_allowed h allow)) hosts) with
              | [] => (true, "")
              | disallowed =>
                  (false, "Egress to " +:+ list_repr disallowed
                          +:+ " blocked: not in AIFACTORY_EGRESS_ALLOWED_HOSTS ("
                          +:+ (match allow with [] => "empty" | _ => list_repr (sorted_set allow) end) +:+ ").")
              end
          end
    end.

(** ** The hooks *)

Inductive decision := Allow | Block (reason : string).

(** [type(v).__name__] *)
Definition type_name (v : json) : string :=
  match v with
  | JNull => "NoneType" | JBool _ => "bool" | JInt _ => "int" | JStr _ => "str" | JList _ => "list"
  | JObj _ => "dict"
  end.

Definition unparsed_reason (why : string) : string :=
  "Command blocked: could not be safely parsed for security "
  +:+ "validation (" +:+ why +:+ "). Rewrite it without dynamic shell "
  +:+ "payloads (e.g. avoid `bash -c " +:+ String dquote ("$VAR" +:+ String dquote "`).").
Definition no_bashlex_reason : string :=
  "Command blocked: bash commands cannot be validated without bashlex.".

Section Gate.
Context {W E : Type}.
Context (getcwd : string) (environ : env_list) (hooks : CommitHooks W).
(** [bashlex.parse] when it is installed, and the text of the refusal of a command. *)
Context (bashlex : option (string -> option (list ast))) (refusal_of : string -> string).
Context (get_security_profile : string -> res SecurityProfile).
Context (ssrf_refusal : string -> option string).
Context (expanduser resolve : string -> res string).
Abbreviation M := (Eff (Ctx W) E).

Definition web_fetch_security_hook (input_data : dict) : decision :=
  match dget "tool_name" input_data with
  | Some (JStr tool) =>
      if negb (key_in ["WebFetch"; "WebSearch"] tool) then Allow
      else
        match dget "tool_input" input_data with
        | Some (JObj tool_input) =>
            match dget "url" tool_input with
            | Some (JStr url) =>
                if is_empty url then Allow
                else match ssrf_refusal url with
                     | None => Allow
                     | Some exc => Block ("WebFetch blocked: " +:+ exc +:+ ". Only public http(s) URLs are "
                                          +:+ "permitted; private/loopback/link-local/metadata hosts and "
                                          +:+ "non-http schemes are refused.")
                     end
            | _ => Allow
            end
        | _ => Allow
        end
  | _ => Allow
  end.

(** The commands, or the reason to block. *)
Definition _extract_commands_fail_closed (command : string) : res (list entry + string) :=
  match bashlex with
  | Some parse =>
      match extract_command_segments_ast parse command with
      | Ok cmds => Ok (inl cmds)
      | Err e => if bool_decide (e = unparseable) then Ok (inr (unparsed_reason (refusal_of command))) else Err e
      end
  | None => Ok (inr no_bashlex_reason)
  end.

Definition dynamic_reason (name : string) : string :=
  "`" +:+ name +:+ "` run by xargs or find -exec takes arguments the "
  +:+ name +:+ " validator cannot check. Pass explicit arguments "
  +:+ "instead (or use `find -delete`).".

(** [try: validator(seg) finally: reset]: the root is restored when the validator raises. *)
Definition under_root (root : option string) (m : M ValidationResult) : M ValidationResult := fun s =>
  let '(token, s, _) := set_worktree_root (E := E) root s in
  match token with
  | Ok token => let '(r, s, l) := m s in (r, set_root token s, l)
  | Err e => (Err e, s, [])
  end.

Fixpoint _validator_refusal (cmds : list entry) (root : string) : M (option string) :=
  match cmds with
  | [] => mret None
  | (name, seg, dynamic_args) :: cmds' =>
      match get_validator getcwd hooks name with
      | None => _validator_refusal cmds' root
      | Some validator =>
          result ← under_root (Some root) (validator seg);
          if negb (fst result) then mret (Some (snd result))
          else if dynamic_args : bool then mret (Some (dynamic_reason name))
          else _validator_refusal cmds' root
      end
  end.

(** The first command that is not allowed. *)
Fixpoint first_disallowed (profile : SecurityProfile) (names : list string) : option string :=
  match names with
  | [] => None
  | cmd :: names' =>
      let '(is_allowed, reason) := is_command_allowed environ cmd profile in
      if is_allowed : bool then first_disallowed profile names' else Some reason
  end.

Definition names_profile (command : string) : bool :=
  existsb (fun n => contains n (lower command)) [".aifactory-security.json"; ".aifactory-allowlist"].

(** A reason counts when it is not empty. *)
Definition truthy_reason (r : option string) : option string :=
  match r with Some EmptyString => None | _ => r end.

(** The checks on a command that was extracted. *)
Definition judge_commands (profile : SecurityProfile) (cwd command : string) (commands : list entry)
  : M decision :=
  match first_disallowed profile (entry_name <$> commands) with
  | Some reason => mret (Block reason)
  | None =>
      refusal ← _validator_refusal commands cwd;
      match truthy_reason refusal with
      | Some reason => mret (Block reason)
      | None =>
          let '(egress_ok, egress_reason) := check_egress environ command (entry_name <$> commands) in
          mret (if egress_ok : bool then Allow else Block egress_reason)
      end
  end.

Definition run_bash_checks (cwd command : string) : M decision :=
  let profile := match get_security_profile cwd with Ok p => p | Err _ => base_profile end in
  extracted ← lift (fun _ => _extract_commands_fail_closed command);
  match extracted with
  | inr block_reason => mret (Block block_reason)
  | inl [] => mret (Block ("Could not parse command for security validation: " +:+ command))
  | inl commands => judge_commands profile cwd command commands
  end.

(** [input_data.get("cwd") or os.getcwd()] *)
Definition hook_cwd (input_data : dict) : res string :=
  match dget "cwd" input_data with
  | None => Ok getcwd
  | Some (JStr s) => Ok (if is_empty s then getcwd else s)
  | Some v => if truthy v then Err Untyped else Ok getcwd
  end.

Definition bash_security_hook (input_data : dict) : M decision :=
  match dget "tool_name" input_data with
  | Some (JStr "Bash") =>
      match dget "tool_input" input_data with
      | None | Some JNull => mret (Block "Bash tool_input is None - malformed tool call from SDK")
      | Some (JObj tool_input) =>
          let command := default (JStr "") (dget "command" tool_input) in
          if negb (truthy command) then mret Allow
          else
            command ← lift (fun _ => match command with JStr s => Ok s | _ => Err AttributeError end);
            if names_profile command
            then mret (Block "Refused: the security profile is managed by AIFactory.")
            else
              cwd ← lift (fun _ => hook_cwd input_data);
              run_bash_checks cwd command
      | Some v => mret (Block ("Bash tool_input must be dict, got " +:+ type_name v))
      end
  | _ => mret Allow
  end.

(** None: the directory of the process. *)
Definition validate_command (command : string) (project_dir : option string) : M (bool * string) :=
  let project_dir := default getcwd project_dir in
  profile ← lift (fun _ => get_security_profile project_dir);
  extracted ← lift (fun _ => _extract_commands_fail_closed command);
  match extracted with
  | inr block_reason => mret (false, block_reason)
  | inl [] => mret (false, "Could not parse command")
  | inl commands =>
      match first_disallowed profile (entry_name <$> commands) with
      | Some reason => mret (false, reason)
      | None =>
          refusal ← _validator_refusal commands project_dir;
          mret (match truthy_reason refusal with Some reason => (false, reason) | None => (true, "") end)
      end
  end.

Definition _GIT_DIR_WRITE_TOOLS : list string := ["Write"; "Edit"; "MultiEdit"; "NotebookEdit"].

(** The paths of a tool call; None when one of them is no path. *)
Fixpoint write_paths (tool_input : dict) (keys : list string) : option (list string) :=
  match keys with
  | [] => Some []
  | k :: keys' =>
      match dget k tool_input with
      | None => write_paths tool_input keys'
      | Some (JStr p) => if is_empty p then None else cons p <$> write_paths tool_input keys'
      | Some _ => None
      end
  end.

Fixpoint first_write_refusal (cwd root : option string) (paths : list string) : res decision :=
  match paths with
  | [] => Ok Allow
  | p :: paths' =>
      let! refusal := protected_write_refusal getcwd expanduser resolve p cwd root in
      match truthy_reason refusal with
      | Some r => Ok (Block r)
      | None => first_write_refusal cwd root paths'
      end
  end.

Definition git_dir_write_hook (input_data : dict) (project_dir : option string) : res decision :=
  match dget "tool_name" input_data with
  | Some (JStr tool) =>
      if negb (key_in _GIT_DIR_WRITE_TOOLS tool) then Ok Allow
      else
        match dget "tool_input" input_data with
        | Some (JObj tool_input) =>
            match write_paths tool_input ["file_path"; "notebook_path"] with
            | None | Some [] => Ok (Block "Missing or invalid file path.")
            | Some paths =>
                let! cwd := get_opt as_str "cwd" input_data in first_write_refusal cwd project_dir paths
            end
        | _ => Ok (Block "Malformed tool input.")
        end
  | _ => Ok Allow
  end.
End Gate.
