(* ===== verification/ParserSpec.v ===== *)
(** What the command parser promises: the walk over a tree meets every command, a recorded
    segment reads back as the argument vector it was made from, everything a wrapper runs is
    recorded, and nesting is bounded. *)
From S2P Require Import Prelude Regex Shlex ExecContext CommandParser.
Local Open Scope nat_scope.

Lemma require_Ok b : require b = Ok () <-> b = true.
Proof. by destruct b. Qed.

Lemma fold_res_inv {A B} (I : B -> Prop) (f : B -> A -> res B) l b b' :
  (forall x b b', x ∈ l -> I b -> f b x = Ok b' -> I b') -> I b -> fold_res f b l = Ok b' -> I b'.
Proof.
  revert b. induction l as [|x l IH]; intros b F Hb E; cbn in E; [by injection E as <-|].
  destruct (f b x) as [c|] eqn:Fx; [|done]. eapply IH; [|eapply F; [|exact Hb|exact Fx]|exact E].
  - intros y c1 c2 Hy. apply F. by apply list_elem_of_further.
  - apply list_elem_of_here.
Qed.

(** ** The walk over a tree *)

Section Walk.

(** The nodes of a tree. *)
Inductive within : ast -> ast -> Prop :=
  | within_self n : within n n
  | within_kid n name l x m : (name, l) ∈ kids n -> x ∈ l -> within x m -> within n m.

Fixpoint size (n : ast) : nat :=
  let 'Ast _ _ _ _ c := n in S (sum_list (map (fun a : string * list ast => sum_list (map size a.2)) c)).

Lemma sum_list_elem (l : list nat) x : x ∈ l -> x <= sum_list l.
Proof. induction 1; cbn; lia. Qed.

Lemma sum_map_elem {A} (f : A -> nat) l x : x ∈ l -> f x <= sum_list (map f l).
Proof. intros H%list_elem_of_In%(in_map f)%list_elem_of_In. by apply sum_list_elem. Qed.

Lemma size_kid n name l x : (name, l) ∈ kids n -> x ∈ l -> size x < size n.
Proof.
  destruct n as [i k p t c]. cbn. intros H Hx.
  apply (sum_map_elem (fun a : string * list ast => sum_list (map size a.2))) in H.
  apply (sum_map_elem size) in Hx. cbn in H. lia.
Qed.

Lemma size_within n m : within n m -> size m <= size n.
Proof.
  induction 1 as [|n name l x m H Hx _ IH]; [done|]. pose proof (size_kid _ _ _ _ H Hx). lia.
Qed.

(** The nodes of a walk: two with one identity are one node. *)
Context (identified : ast -> Prop).
Hypothesis identity : forall n m, identified n -> identified m -> ident n = ident m -> n = m.

Definition is_command (n : ast) : Prop := kind n = "command".

(** A node whose commands have all been met. *)
Definition done_with (st : walked) (n : ast) : Prop :=
  forall m, within n m -> ident m ∈ st.2 /\ (is_command m -> m ∈ st.1).
Definition later (st st' : walked) : Prop := st.1 ⊆ st'.1 /\ st.2 ⊆ st'.2.
(** Every node seen is met with all its commands, but for those larger than [k]: the
    nodes the walk is in. *)
Definition settled (k : nat) (st : walked) : Prop :=
  forall m, identified m -> ident m ∈ st.2 -> size m <= k -> done_with st m.

Lemma later_refl st : later st st.
Proof. by split. Qed.
Lemma later_trans a b c : later a b -> later b c -> later a c.
Proof. intros [] []. split; etrans; eauto. Qed.
Lemma done_later st st' n : later st st' -> done_with st n -> done_with st' n.
Proof. intros [L1 L2] D m Hm. destruct (D m Hm) as [D1 D2]. split; [set_solver | intros C; set_solver]. Qed.

(** A step of the walk settles what it adds. *)
Definition step_ok (st st' : walked) : Prop :=
  later st st' /\ forall m, identified m -> ident m ∈ st'.2 -> ident m ∈ st.2 \/ done_with st' m.

Lemma step_ok_trans a b c : step_ok a b -> step_ok b c -> step_ok a c.
Proof.
  intros [L1 S1] [L2 S2]. split; [by eapply later_trans|]. intros m I H.
  destruct (S2 m I H) as [H'|D]; [|by right]. destruct (S1 m I H') as [?|D]; [by left | right].
  by eapply done_later.
Qed.

Lemma settled_step k st st' : settled k st -> step_ok st st' -> settled k st'.
Proof.
  intros S [L N] m I H K. destruct (N m I H) as [H'|D]; [|done]. eapply done_later; [done|]. by apply S.
Qed.

Lemma fold_kids_ok k (l : list ast) st st' :
  (forall x st st', x ∈ l -> settled (size x) st -> _collect_command_nodes x st = Ok st' ->
     step_ok st st' /\ done_with st' x) ->
  (forall x, x ∈ l -> size x <= k) -> settled k st ->
  fold_res (fun st x => _collect_command_nodes x st) st l = Ok st' ->
  step_ok st st' /\ forall x, x ∈ l -> done_with st' x.
Proof.
  revert st. induction l as [|x l IH]; intros st F K S E; cbn in E.
  - injection E as <-. split; [|by intros x Hx%elem_of_nil]. split; [apply later_refl | auto].
  - destruct (_collect_command_nodes x st) as [st1|] eqn:Ex; [|done].
    destruct (F x st st1 (list_elem_of_here _ _)) as [S1 D1]; [|done|].
    { intros m I H M. apply S; [done | done|]. etrans; [done|]. apply K, list_elem_of_here. }
    destruct (IH st1) as [S2 D2]; [..|exact E|].
    + intros y ? ? Hy. apply F. by apply list_elem_of_further.
    + intros y Hy. apply K. by apply list_elem_of_further.
    + by eapply settled_step.
    + split; [by eapply step_ok_trans|]. intros y [->|Hy]%elem_of_cons; [|by apply D2].
      eapply done_later; [apply S2 | exact D1].
Qed.

Lemma fold_res_concat {A B C} (f : B -> C -> res B) (g : A -> list C) (l : list A) b :
  fold_res (fun b a => fold_res f b (g a)) b l = fold_res f b (flat_map g l).
Proof.
  assert (App : forall l k b, fold_res f b (l ++ k) = match fold_res f b l with Ok b => fold_res f b k | Err e => Err e end).
  { clear. induction l as [|x l IH]; intros k b; cbn; [done|]. destruct (f b x); [apply IH | done]. }
  revert b. induction l as [|a l IH]; intros b; [done|]. cbn. rewrite App.
  destruct (fold_res f b (g a)); [apply IH | done].
Qed.

Lemma collect_unfold n st : nat_in st.2 (ident n) = false ->
  _collect_command_nodes n st =
  (let! _ := check_node n in
   fold_res (fun st x => _collect_command_nodes x st)
     (if String.eqb (kind n) "command" then st.1 ++ [n] else st.1, ident n :: st.2) (flat_map snd (kids n))).
Proof.
  intros H. destruct n as [i k p t c], st as [out seen]. cbn [ident kind kids fst snd] in *.
  rewrite <- fold_res_concat. cbn [_collect_command_nodes ident]. by rewrite H.
Qed.

Lemma collect_seen n st : nat_in st.2 (ident n) = true -> _collect_command_nodes n st = Ok st.
Proof.
  intros H. destruct n as [i k p t c], st as [out seen]. cbn [ident snd] in H.
  cbn [_collect_command_nodes ident]. by rewrite H.
Qed.

Lemma nat_in_elem l x : nat_in l x = true <-> x ∈ l.
Proof.
  unfold nat_in. rewrite existsb_spec. split; [by intros (y & Hy & ->%Nat.eqb_eq)|].
  intros H. exists x. by rewrite Nat.eqb_refl.
Qed.

Lemma kids_elem n x : x ∈ flat_map snd (kids n) -> exists name l, (name, l) ∈ kids n /\ x ∈ l.
Proof. intros ([name l] & H & Hx)%elem_of_flat_map. eauto. Qed.

Lemma collect_ok n st st' :
  (forall m, within n m -> identified m) -> settled (size n) st ->
  _collect_command_nodes n st = Ok st' -> step_ok st st' /\ done_with st' n.
Proof.
  remember (size n) as k eqn:Hk. assert (Hle : size n <= k) by lia. clear Hk.
  revert n st st' Hle. induction k as [k IH] using lt_wf_ind. intros n st st' Hle Id S E.
  pose proof (Id n (within_self n)) as In.
  destruct (nat_in st.2 (ident n)) eqn:Seen.
  { rewrite collect_seen in E by done. injection E as <-. apply nat_in_elem in Seen.
    split; [split; [apply later_refl | auto] | by apply S]. }
  rewrite collect_unfold in E by done. res_inv. clear Hv.
  set (st0 := (if String.eqb (kind n) "command" then st.1 ++ [n] else st.1, ident n :: st.2)) in *.
  assert (L0 : later st st0).
  { split; cbn; [case_if; set_solver | set_solver]. }
  assert (M0 : forall m, identified m -> ident m ∈ st0.2 -> m = n \/ ident m ∈ st.2).
  { intros m Im [Hm|Hm]%elem_of_cons; [left; by apply identity | by right]. }
  destruct (fold_kids_ok (size n - 1) (flat_map snd (kids n)) st0 st') as [S1 D1]; [..|exact E|].
  - intros x s1 s2 (name & l & Hl & Hx)%kids_elem Sx Ex. pose proof (size_kid _ _ _ _ Hl Hx).
    apply (IH (size x)); [lia | done | | done | done].
    intros m Hm. apply Id. by eapply within_kid.
  - intros x (name & l & Hl & Hx)%kids_elem. pose proof (size_kid _ _ _ _ Hl Hx). lia.
  - intros m Im Hm Lm. assert (0 < size n) by (destruct n; cbn; lia).
    destruct (M0 m Im Hm) as [->|Hm']; [lia|]. eapply done_later; [exact L0|]. apply S; [done | done | lia].
  - assert (D : done_with st' n).
    { intros m Hm. inversion Hm as [|? name l x ? Hl Hx Hw]; subst.
      - destruct S1 as [[L1 L2] _]. split; [set_solver|]. intros C. apply L1. unfold st0. cbn.
        unfold is_command in C. rewrite C. cbn. set_solver.
      - apply (D1 x); [|done]. apply elem_of_flat_map. by exists (name, l). }
    split; [|done]. split; [eapply later_trans; [exact L0 | apply S1]|].
    intros m Im Hm. destruct (proj2 S1 m Im Hm) as [Hm'|Dm]; [|by right].
    destruct (M0 m Im Hm') as [->|?]; [by right | by left].
Qed.
End Walk.

(** The identity of Python: nodes of one tree with the same identity are the same. *)
Definition well_identified (t : ast) : Prop :=
  forall n m, within t n -> within t m -> ident n = ident m -> n = m.

Lemma collect_complete t out st m : well_identified t ->
  _collect_command_nodes t (out, []) = Ok st -> within t m -> kind m = "command" -> m ∈ st.1.
Proof.
  intros W E Hm C.
  destruct (collect_ok (within t) (fun a b Ha Hb => W a b Ha Hb) t (out, []) st) as [_ D]; [done|..|].
  - intros x _ Hx. by apply elem_of_nil in Hx.
  - done.
  - by apply D.
Qed.

Lemma collect_keeps n st st' : _collect_command_nodes n st = Ok st' -> st.1 ⊆ st'.1.
Proof.
  remember (size n) as k eqn:Hk. assert (Hle : size n <= k) by lia. clear Hk.
  revert n st st' Hle. induction k as [k IH] using lt_wf_ind. intros n st st' Hle E.
  destruct (nat_in st.2 (ident n)) eqn:Seen.
  { rewrite collect_seen in E by done. by injection E as <-. }
  rewrite collect_unfold in E by done. res_inv.
  eapply (fold_res_inv (fun s => st.1 ⊆ s.1)); [|..|exact E].
  - intros x b b' (name & l & Hl & Hx)%kids_elem Hb Ex. pose proof (size_kid _ _ _ _ Hl Hx).
    etrans; [exact Hb|]. by eapply (IH (size x)); [lia | |].
  - cbn. case_if; set_solver.
Qed.

Lemma command_nodes_complete trees nodes t m :
  (forall t, t ∈ trees -> well_identified t) -> command_nodes trees = Ok nodes ->
  t ∈ trees -> within t m -> kind m = "command" -> m ∈ nodes.
Proof.
  unfold command_nodes. generalize (@nil ast) as out. induction trees as [|t' trees IH]; intros out W E Ht Hm C.
  - by apply elem_of_nil in Ht.
  - cbn in E. destruct (_collect_command_nodes t' (out, [])) as [st|] eqn:Et; [|done]. cbn in E.
    assert (K : st.1 ⊆ nodes).
    { eapply (fold_res_inv (fun o => st.1 ⊆ o)); [|done|exact E].
      intros x b b' _ Hb Ex. cbv beta in Ex. destruct (_collect_command_nodes x (b, [])) as [s|] eqn:Ex'; [|done].
      injection Ex as <-. etrans; [exact Hb|]. by apply (collect_keeps x (b, [])). }
    apply elem_of_cons in Ht as [->|Ht].
    + apply K. eapply collect_complete; [apply W, list_elem_of_here | exact Et | done | done].
    + eapply IH; [|exact E|done|done|done]. intros y Hy. apply W. by apply list_elem_of_further.
Qed.

(** ** Emission *)

Section Emission.
Variable parse : string -> option (list ast).
Abbreviation emit := (_emit parse).

Definition head_entry (dyn : bool) (w : word) (args : list word) : entry :=
  (_basename (w_word w), join_words (w_word <$> w :: args), dyn).
Definition unwrapped (left : nat) (dyn : bool) (w : word) (args : list word) : res (list entry) :=
  match _UNWRAPPERS parse (emit left) (_basename (w_word w)) args dyn with Some more => more | None => Ok [] end.

Lemma emit_inv left dyn ws l : emit left dyn ws = Ok l ->
  exists left' w args more, left = S left' /\ ws = w :: args
    /\ _word_parts_are_literal w = true /\ _check_builtin (_basename (w_word w)) args = Ok ()
    /\ unwrapped left' dyn w args = Ok more /\ l = head_entry dyn w args :: more.
Proof.
  destruct left as [|left]; [done|]. destruct ws as [|w args]; [done|]. cbn [_emit]. intros E.
  apply bind_Ok_inv in E as ([] & L & E). apply bind_Ok_inv in E as ([] & B & E).
  apply bind_Ok_inv in E as (more & U & E). injection E as <-. exists left, w, args, more.
  unfold _require_literal in L. apply require_Ok in L. cbn in L. rewrite andb_true_r in L. done.
Qed.

Lemma emit_all_Forall (P : entry -> Prop) f l r :
  (forall ws a, f ws = Ok a -> Forall P a) -> emit_all f l = Ok r -> Forall P r.
Proof.
  intros F. revert r. induction l as [|ws l IH]; cbn; intros r E; [by injection E as <-|].
  apply bind_Ok_inv in E as (a & Ha & E). apply bind_Ok_inv in E as (b & Hb & E). injection E as <-.
  apply Forall_app. split; [|by apply IH]. destruct ws; [by injection Ha as <- | eauto].
Qed.

Lemma emit_all_elem f l r ws : emit_all f l = Ok r -> ws ∈ l -> ws <> [] ->
  exists a, f ws = Ok a /\ a ⊆ r.
Proof.
  revert r. induction l as [|x l IH]; cbn; intros r E H N; [by apply elem_of_nil in H|].
  apply bind_Ok_inv in E as (a & Ha & E). apply bind_Ok_inv in E as (b & Hb & E). injection E as <-.
  apply elem_of_cons in H as [->|H].
  - exists a. destruct x; [done|]. split; [done | set_solver].
  - destruct (IH b Hb H N) as (c & Hc & S). exists c. split; [done | set_solver].
Qed.

Section Unwrapping.
Context (P : entry -> Prop) (em : emitter).
Hypothesis em_ok : forall dyn ws l, em dyn ws = Ok l -> Forall P l.

Lemma emit_rest_Forall dyn ws l : emit_rest em dyn ws = Ok l -> Forall P l.
Proof. destruct ws; [by intros [= <-] | apply em_ok]. Qed.

Lemma extract_Forall dyn text l : _extract parse em dyn text = Ok l -> Forall P l.
Proof.
  unfold _extract. intros (cmds & _ & E)%bind_Ok_inv. eapply emit_all_Forall; [|exact E]. apply em_ok.
Qed.

Lemma subcommand_loop_Forall n tool dyn ws l : subcommand_loop parse em n tool dyn ws = Ok l -> Forall P l.
Proof.
  revert ws l. induction n as [|n IH]; intros [|w ws] l E; cbn [subcommand_loop] in E;
    try (by injection E as <-); [done|].
  apply bind_Ok_inv in E as (next & _ & E). destruct next as [next|]; [by eapply IH|].
  destruct (_ && _) in E.
  - destruct ws as [|x [|]]; try done. apply bind_Ok_inv in E as (? & _ & E). by eapply extract_Forall.
  - apply bind_Ok_inv in E as (? & _ & E). apply bind_Ok_inv in E as (target & _ & E).
    destruct target; [by eapply emit_rest_Forall|].
    destruct (attr tool _RUNNER_BUILTINS); [|by injection E as <-].
    destruct (key_in _ _) in E; [by injection E as <- | by eapply em_ok].
Qed.

(** Opens the binds and the tests of an unwrapper down to what it emits. *)
Ltac open_unwrap :=
  repeat match goal with
  | E : mbind _ _ = Ok _ |- _ => let a := fresh "a" in apply bind_Ok_inv in E as (a & ? & E); cbv beta in E
  | E : (let '(_, _) := ?x in _) = Ok _ |- _ => destruct x
  | E : Ok [] = Ok _ |- _ => injection E as <-
  | E : refused = Ok _ |- _ => discriminate E
  | E : (match ?x with _ => _ end) = Ok _ |- _ => destruct x
  end.

Lemma unwrap_Forall name args dyn r l :
  _UNWRAPPERS parse em name args dyn = Some r -> r = Ok l -> Forall P l.
Proof.
  unfold _UNWRAPPERS. intros U ->.
  repeat match type of U with (if ?b then _ else _) = _ => destruct b end; try discriminate U;
    injection U as E;
    unfold _unwrap_dash_c, _unwrap_env, _unwrap_xargs, _unwrap_find_exec, _unwrap_prefix, _unwrap_source,
      _unwrap_npx, _unwrap_npm, _unwrap_subcommand_runner in E; open_unwrap;
    try (by constructor); try (by eapply emit_rest_Forall); try (by eapply extract_Forall);
    try (by eapply subcommand_loop_Forall).
  - eapply emit_all_Forall; [|exact E]. apply em_ok.
  - clear -E. revert l E. induction args as [|w args IH]; intros l E; cbn [_unwrap_cargo] in E;
      [by injection E as <-|]. open_unwrap; eauto.
Qed.
End Unwrapping.

(** A property of the entry of every command that passes the checks holds of all. *)
Lemma emit_Forall (P : entry -> Prop) :
  (forall dyn w args, _word_parts_are_literal w = true ->
     _check_builtin (_basename (w_word w)) args = Ok () -> P (head_entry dyn w args)) ->
  forall left dyn ws l, emit left dyn ws = Ok l -> Forall P l.
Proof.
  intros H. induction left as [|left IH]; intros dyn ws l E;
    destruct (emit_inv _ _ _ _ E) as (left' & w & args & more & L & -> & Lit & B & U & ->); [done|].
  injection L as <-. constructor; [by apply H|]. unfold unwrapped in U.
  destruct (_UNWRAPPERS _ _ _ _ _) as [r|] eqn:R; [|by injection U as <-].
  by eapply unwrap_Forall; [apply IH | exact R|].
Qed.

Lemma segments_Forall (P : entry -> Prop) command l :
  (forall dyn w args, _word_parts_are_literal w = true ->
     _check_builtin (_basename (w_word w)) args = Ok () -> P (head_entry dyn w args)) ->
  extract_command_segments_ast parse command = Ok l -> Forall P l.
Proof.
  intros H. unfold extract_command_segments_ast. destruct (_ || _); [by intros [= <-]|].
  apply extract_Forall. intros dyn ws r. by apply emit_Forall.
Qed.
End Emission.

(** ** What a command runs

    The documented ways a command runs another one, stated on the words alone. *)

Definition name_of (w : word) : string := _basename (w_word w).
(** A word that a wrapper does not read as an option. *)
Definition operand (w : word) : Prop := startswith "-" (w_word w) = false.
Definition assignment (w : word) : Prop :=
  has_char "=" (w_word w) = true /\ startswith "=" (w_word w) = false /\ operand w.
Definition no_assignment (w : word) : Prop := has_char "=" (w_word w) = false.

Inductive launches : list word -> list word -> Prop :=
  | launch_prefix w cmd rest : name_of w ∈ ["command"; "exec"; "time"] -> operand cmd ->
      launches (w :: cmd :: rest) (cmd :: rest)
  | launch_timeout w duration cmd rest : name_of w = "timeout" -> operand duration ->
      launches (w :: duration :: cmd :: rest) (cmd :: rest)
  | launch_env w assigns cmd rest : name_of w = "env" -> Forall assignment assigns ->
      no_assignment cmd -> operand cmd ->
      launches (w :: assigns ++ cmd :: rest) (cmd :: rest)
  | launch_xargs w cmd rest : name_of w = "xargs" -> operand cmd ->
      launches (w :: cmd :: rest) (cmd :: rest)
  | launch_find w pre action cmd rest : name_of w = "find" -> w_word action ∈ _FIND_EXEC_ACTIONS ->
      launches (w :: pre ++ action :: cmd :: rest) (cmd :: rest)
  | launch_package w cmd rest : name_of w ∈ ["npx"; "pnpx"; "bunx"; "uvx"] -> operand cmd ->
      launches (w :: cmd :: rest) (cmd :: rest)
  | launch_npm w sub cmd rest : name_of w = "npm" -> w_word sub ∈ ["exec"; "x"] -> operand cmd ->
      launches (w :: sub :: cmd :: rest) (cmd :: rest)
  | launch_runner w sub cmd rest : name_of w ∈ ["pnpm"; "yarn"] -> w_word sub ∈ ["exec"; "dlx"] ->
      operand cmd -> launches (w :: sub :: cmd :: rest) (cmd :: rest).

(** A shell runs the text after a [-c] option. *)
Inductive interprets : list word -> string -> Prop :=
  | shell_payload w flag text rest : name_of w ∈ _DASH_C_SHELLS ->
      startswith "-" (w_word flag) = true -> startswith "--" (w_word flag) = false ->
      has_char "c" (tail (w_word flag)) = true ->
      operand text -> startswith "+" (w_word text) = false ->
      interprets (w :: flag :: text :: rest) (w_word text).

Section Coverage.
Variable parse : string -> option (list ast).
Abbreviation emit := (_emit parse).

(** The names of the commands that running [ws] runs. *)
Inductive runs : list word -> string -> Prop :=
  | runs_self w args : runs (w :: args) (name_of w)
  | runs_launched ws cmd n : launches ws cmd -> runs cmd n -> runs ws n
  | runs_interpreted ws text cmds cmd n : interprets ws text -> read_commands parse text = Ok cmds ->
      cmd ∈ cmds -> runs cmd n -> runs ws n.

Lemma emit_rest_cons (em : emitter) dyn w l : emit_rest em dyn (w :: l) = em dyn (w :: l).
Proof. done. Qed.

Lemma operand_parts w : operand w ->
  startswith "-" (w_word w) = false /\ String.eqb (w_word w) "--" = false /\ String.eqb (w_word w) "-" = false
  /\ _is_opt (w_word w) = false.
Proof.
  unfold operand, _is_opt. intros O. rewrite O. repeat split; destruct (String.eqb_spec (w_word w) "--") as [E|],
    (String.eqb_spec (w_word w) "-") as [E'|]; try done; rewrite ?E, ?E' in O; done.
Qed.

Lemma env_words_assigns opts assigns cmd rest n :
  Forall assignment assigns -> no_assignment cmd -> operand cmd ->
  env_words opts false (w_word <$> assigns ++ cmd :: rest) = Ok n -> n = length assigns.
Proof.
  intros H Nc Oc. revert opts n. destruct (operand_parts _ Oc) as (O1 & O2 & O3 & _).
  unfold no_assignment in Nc.
  induction H as [|a l (A1 & A2 & A3) H IH]; intros opts n E; cbn [app fmap list_fmap env_words] in E.
  - change (w_word <$> cmd :: rest) with (w_word cmd :: (w_word <$> rest)) in E. cbn [env_words] in E.
    unfold key_in in E. cbn [existsb] in E. rewrite O1, O2, O3, Nc in E. cbn in E.
    rewrite !andb_false_r in E. by injection E as <-.
  - destruct (operand_parts _ A3) as (B1 & B2 & B3 & _).
    change (w_word <$> a :: (l ++ cmd :: rest)) with (w_word a :: (w_word <$> l ++ cmd :: rest)) in E.
    cbn [env_words] in E. unfold key_in in E. cbn [existsb] in E.
    rewrite B1, B2, B3, A1, A2 in E. cbn [orb negb andb] in E. rewrite !andb_false_r in E.
    apply bind_Ok_inv in E as ([] & _ & E). destruct (env_words false false _) as [k|] eqn:K; [|done].
    injection E as <-. cbn. f_equal. by eapply IH.
Qed.

Lemma exec_targets_elem pre action l : w_word action ∈ _FIND_EXEC_ACTIONS ->
  l ∈ exec_targets (pre ++ action :: l).
Proof.
  intros A%key_in_elem. induction pre as [|x pre IH]; cbn [app exec_targets].
  - rewrite A. apply list_elem_of_here.
  - case_if; [by apply list_elem_of_further | done].
Qed.

Lemma skip_prefix_operand name cmd rest k : operand cmd -> name ∈ ["command"; "exec"; "time"] ->
  skip_prefix_opts name (w_word <$> cmd :: rest) = Ok k -> k = Some 0.
Proof.
  intros O N E. destruct (operand_parts _ O) as (O1 & O2 & O3 & O4).
  change (w_word <$> cmd :: rest) with (w_word cmd :: (w_word <$> rest)) in E. unfold skip_prefix_opts in E.
  apply elem_of_cons in N as [->|N]; [|apply elem_of_cons in N as [->|N]; [|apply list_elem_of_singleton in N as ->]];
    cbn in E; rewrite ?O4, ?O1 in E; by injection E as <-.
Qed.

Lemma runner_options_operand flags vopts cmd rest l : operand cmd ->
  runner_options flags vopts false (cmd :: rest) = Ok l -> l = cmd :: rest.
Proof.
  intros O E. destruct (operand_parts _ O) as (O1 & O2 & _). cbn [runner_options] in E.
  rewrite O1, O2 in E. by injection E as <-.
Qed.

Lemma package_runner_operand opts cmd rest l : operand cmd ->
  _check_package_runner opts (cmd :: rest) = Ok l -> l = cmd :: rest.
Proof.
  intros O E. unfold _check_package_runner in E. apply bind_Ok_inv in E as (l' & H & E).
  apply runner_options_operand in H as ->; [|done]. apply bind_Ok_inv in E as (? & _ & E). by injection E as <-.
Qed.

(** Peels the checks of an unwrapper off the equation of its result. *)
Ltac peel E :=
  repeat (cbv beta in E; let H := fresh "C" in apply (bind_Ok_inv (A := unit)) in E as ([] & H & E)).

(** The unwrapper of a known name. *)
Lemma unwrapper_of em name args dyn r l :
  _UNWRAPPERS parse em name args dyn = Some r -> r = Ok l ->
  forall r', _UNWRAPPERS parse em name args dyn = Some r' -> r' = Ok l.
Proof. congruence. Qed.

Section Launch.
Context (left : nat) (dyn : bool).
Definition reaches (cmd : list word) (l : list entry) : Prop :=
  exists dyn' l', emit left dyn' cmd = Ok l' /\ l' ⊆ l.

Lemma npm_launch sub cmd rest l : w_word sub ∈ ["exec"; "x"] -> operand cmd ->
  _unwrap_npm (emit left) (sub :: cmd :: rest) dyn = Ok l -> reaches (cmd :: rest) l.
Proof.
  intros S O E. unfold _unwrap_npm in E. apply bind_Ok_inv in E as (k & K & E).
  assert (G : npm_globals false (sub :: cmd :: rest) = Ok (sub :: cmd :: rest)).
  { cbn [npm_globals]. by apply elem_of_cons in S as [->| ->%list_elem_of_singleton]. }
  rewrite G in K. injection K as <-. apply key_in_elem in S. rewrite S in E. peel E.
  apply bind_Ok_inv in E as (k & K & E). apply package_runner_operand in K as ->; [|done]. by exists dyn, l.
Qed.

Lemma runner_launch tool sub cmd rest l : tool ∈ ["pnpm"; "yarn"] -> w_word sub ∈ ["exec"; "dlx"] ->
  operand cmd ->
  match _UNWRAPPERS parse (emit left) tool (sub :: cmd :: rest) dyn with Some r => r | None => Ok [] end = Ok l ->
  reaches (cmd :: rest) l.
Proof.
  intros T S O E. assert (Os : operand sub).
  { unfold operand. by apply elem_of_cons in S as [->| ->%list_elem_of_singleton]. }
  assert (U : _UNWRAPPERS parse (emit left) tool (sub :: cmd :: rest) dyn
              = Some (_unwrap_subcommand_runner parse (emit left) tool (sub :: cmd :: rest) dyn)).
  { by apply elem_of_cons in T as [->| ->%list_elem_of_singleton]. }
  rewrite U in E. clear U.
  assert (G : exists opts, attr tool _RUNNER_GLOBALS = Some opts).
  { apply elem_of_cons in T as [->| ->%list_elem_of_singleton]; by eexists. }
  destruct G as [opts G]. unfold _unwrap_subcommand_runner in E. rewrite G in E.
  apply bind_Ok_inv in E as (k & K & E). apply package_runner_operand in K as ->; [|done].
  cbn [length subcommand_loop] in E.
  assert (Pre : _skip_runner_prefix tool sub (cmd :: rest) = Ok None).
  { unfold _skip_runner_prefix.
    apply elem_of_cons in T as [->| ->%list_elem_of_singleton];
      by apply elem_of_cons in S as [->| ->%list_elem_of_singleton]. }
  rewrite Pre in E. clear Pre G.
  assert (B : String.eqb tool "bun" = false) by (by apply elem_of_cons in T as [->| ->%list_elem_of_singleton]).
  cbn [mbind res_bind] in E. rewrite B in E. cbn [andb] in E. peel E.
  apply bind_Ok_inv in E as (target & Tg & E).
  assert (Tg' : target = Some (cmd :: rest)).
  { assert (Sub : default [] (attr tool _RUNNER_SUBCOMMANDS) = [["exec"]; ["dlx"]])
      by (by apply elem_of_cons in T as [->| ->%list_elem_of_singleton]).
    rewrite Sub in Tg. cbn [_subcommand_target length firstn skipn] in Tg.
    apply elem_of_cons in S as [S|S%list_elem_of_singleton]; cbn -[_check_package_runner] in Tg; rewrite S in Tg; cbn -[_check_package_runner] in Tg;
      apply bind_Ok_inv in Tg as ([] & _ & Tg); rewrite ?S in Tg; cbn -[_check_package_runner] in Tg; rewrite ?bool_decide_eq_true_2 in Tg by done;
      (destruct (_check_package_runner no_opts (cmd :: rest)) eqn:R; [|done]);
      (apply package_runner_operand in R as ->; [|done]); by injection Tg as <-. }
  subst target. by exists dyn, l.
Qed.

Lemma launch_unwrapped w args cmd l : launches (w :: args) cmd ->
  unwrapped parse left dyn w args = Ok l -> reaches cmd l.
Proof.
  unfold unwrapped. intros L E.
  inversion L as [? c rest N O|? d c rest N O|? assigns c rest N A Nc O|? c rest N O|? pre action c rest N A
                 |? c rest N O|? sub c rest N S O|? sub c rest N S O]; subst; unfold name_of in N.
  - assert (U : _UNWRAPPERS parse (emit left) (_basename (w_word w)) (c :: rest) dyn
                = Some (_unwrap_prefix (emit left) (_basename (w_word w)) (c :: rest) dyn)).
    { apply elem_of_cons in N as [->|N]; [done|]. apply elem_of_cons in N as [->|N]; [done|].
      by apply list_elem_of_singleton in N as ->. }
    rewrite U in E. unfold _unwrap_prefix in E. apply bind_Ok_inv in E as ([] & _ & E).
    apply bind_Ok_inv in E as (k & K & E). apply skip_prefix_operand in K as ->; [|done|done].
    peel E. cbn [skipn] in E. exists dyn, l. done.
  - rewrite N in E. change (_unwrap_prefix (emit left) "timeout" (d :: c :: rest) dyn = Ok l) in E.
    unfold _unwrap_prefix in E. apply bind_Ok_inv in E as ([] & _ & E).
    destruct (operand_parts _ O) as (O1 & _). cbn in E. rewrite O1 in E. cbn in E. peel E. exists dyn, l. done.
  - rewrite N in E. change (_unwrap_env (emit left) (assigns ++ c :: rest) dyn = Ok l) in E.
    unfold _unwrap_env in E. apply bind_Ok_inv in E as (k & K & E).
    apply env_words_assigns in K as ->; [|done..]. peel E. rewrite drop_app_length in E. exists dyn, l. done.
  - rewrite N in E. change (_unwrap_xargs (emit left) (c :: rest) = Ok l) in E.
    unfold _unwrap_xargs in E. destruct (operand_parts _ O) as (O1 & O2 & _ & O4).
    change (w_word <$> c :: rest) with (w_word c :: (w_word <$> rest)) in E. cbn [xargs_words] in E.
    rewrite O2, O4 in E. apply bind_Ok_inv in E as (k & K & E). injection K as <-. peel E. exists true, l. done.
  - rewrite N in E. change (_unwrap_find_exec (emit left) (pre ++ action :: c :: rest) = Ok l) in E.
    unfold _unwrap_find_exec in E. peel E.
    destruct (emit_all_elem _ _ _ _ E (exec_targets_elem pre action (c :: rest) A)) as (a & Ha & Sa); [done|].
    exists true, a. done.
  - assert (U : _UNWRAPPERS parse (emit left) (_basename (w_word w)) (c :: rest) dyn
                = Some (_unwrap_npx (emit left) (_basename (w_word w)) (c :: rest) dyn)).
    { repeat (apply elem_of_cons in N as [->|N]; [done|]). by apply elem_of_nil in N. }
    rewrite U in E. unfold _unwrap_npx in E. apply bind_Ok_inv in E as (k & K & E).
    apply package_runner_operand in K as ->; [|done]. exists dyn, l. done.
  - rewrite N in E. by eapply npm_launch.
  - by eapply runner_launch.
Qed.

Lemma interpreted_unwrapped w args text cmds cmd l : interprets (w :: args) text ->
  read_commands parse text = Ok cmds -> cmd ∈ cmds -> cmd <> [] ->
  unwrapped parse left dyn w args = Ok l -> reaches cmd l.
Proof.
  intros I R Hc Ne E. inversion I as [? flag t rest N F1 F2 F3 O P]; subst.
  destruct (operand_parts _ O) as (O1 & O2 & O3 & _). unfold unwrapped in E. unfold name_of in N.
  assert (U : _UNWRAPPERS parse (emit left) (_basename (w_word w)) (flag :: t :: rest) dyn
              = Some (_unwrap_dash_c parse (emit left) (_basename (w_word w)) (flag :: t :: rest) dyn)).
  { repeat (apply elem_of_cons in N as [->|N]; [done|]). by apply elem_of_nil in N. }
  rewrite U in E. clear U. unfold _unwrap_dash_c in E. apply bind_Ok_inv in E as ([c ops] & K & E).
  assert (Ko : c = true /\ ops = t :: rest).
  { cbn [shell_options] in K. apply (bind_Ok_inv (A := unit)) in K as ([] & _ & K).
    assert (D : String.eqb (w_word flag) "--" = false) by (destruct (String.eqb_spec (w_word flag) "--") as [X|]; [by rewrite X in F2|done]).
    assert (D' : String.eqb (w_word flag) "-" = false) by (destruct (String.eqb_spec (w_word flag) "-") as [X|]; [by rewrite X in F3|done]).
    rewrite D, D', F1, F3 in K. cbn [orb negb andb] in K.
    apply (bind_Ok_inv (A := unit)) in K as ([] & _ & K).
    apply (bind_Ok_inv (A := unit)) in K as ([] & _ & K).
    rewrite O2, O1, P in K. cbn [orb negb] in K. by injection K as <- <-. }
  destruct Ko as [-> ->]. cbn beta iota in E. peel E. unfold _extract in E. rewrite R in E.
  destruct (emit_all_elem _ _ _ _ E Hc Ne) as (a & Ha & Sa). by exists dyn, a.
Qed.
End Launch.

Lemma launches_nonempty ws cmd : launches ws cmd -> exists w args, ws = w :: args.
Proof. inversion 1; eauto. Qed.

Lemma runs_nonempty ws n : runs ws n -> ws <> [].
Proof.
  destruct 1 as [| ? ? ? L _|? ? ? ? ? I _ _ _]; [done| |].
  - by destruct (launches_nonempty _ _ L) as (? & ? & ->).
  - by inversion I.
Qed.

(** Everything a command runs is recorded with it. *)
Lemma runs_recorded ws n : runs ws n ->
  forall left dyn l, emit left dyn ws = Ok l -> n ∈ map entry_name l.
Proof.
  induction 1 as [w args|ws cmd n L R IH|ws text cmds cmd n I T Hc R IH]; intros left dyn l E;
    destruct (emit_inv _ _ _ _ _ E) as (left' & w' & args' & more & -> & E' & _ & _ & U & ->).
  - injection E' as <- <-. apply list_elem_of_here.
  - subst ws. destruct (launch_unwrapped _ _ _ _ _ _ L U) as (d & l' & El & Sl).
    specialize (IH _ _ _ El). cbn. apply list_elem_of_further.
    apply list_elem_of_In, in_map_iff in IH as (e & <- & He). apply list_elem_of_In, in_map.
    apply list_elem_of_In, Sl. by apply list_elem_of_In.
  - subst ws. destruct (interpreted_unwrapped _ _ _ _ _ _ _ _ I T Hc (runs_nonempty _ _ R) U) as (d & l' & El & Sl).
    specialize (IH _ _ _ El). cbn. apply list_elem_of_further.
    apply list_elem_of_In, in_map_iff in IH as (e & <- & He). apply list_elem_of_In, in_map.
    apply list_elem_of_In, Sl. by apply list_elem_of_In.
Qed.

Lemma extracted_commands command l cmds cmd n :
  extract_command_segments_ast parse command = Ok l -> is_empty (strip command) = false ->
  read_commands parse command = Ok cmds -> cmd ∈ cmds -> runs cmd n -> n ∈ map entry_name l.
Proof.
  unfold extract_command_segments_ast. intros E Ne R Hc Hr.
  destruct (is_empty command) eqn:C; [by destruct command|]. rewrite Ne in E. cbn [orb] in E.
  unfold _extract in E. rewrite R in E. cbn [mbind res_bind] in E.
  destruct (emit_all_elem _ _ _ _ E Hc (runs_nonempty _ _ Hr)) as (a & Ha & Sa).
  pose proof (runs_recorded _ _ Hr _ _ _ Ha) as I.
  apply list_elem_of_In, in_map_iff in I as (e & <- & He). apply list_elem_of_In, in_map.
  apply list_elem_of_In, Sa. by apply list_elem_of_In.
Qed.
End Coverage.

(** The words of every command node of the trees are read. *)
Lemma read_commands_nodes parse command cmds text trees t m : 
  read_commands parse command = Ok cmds -> parsed_text parse command = Ok (text, trees) ->
  (forall t, t ∈ trees -> well_identified t) -> t ∈ trees -> within t m -> kind m = "command" ->
  exists ws, node_words text m = Ok ws /\ ws ∈ cmds.
Proof.
  intros R T W Ht Hm C. unfold read_commands in R. rewrite T in R. cbn [mbind res_bind] in R.
  apply bind_Ok_inv in R as (? & _ & R). apply bind_Ok_inv in R as (nodes & N & R).
  pose proof (command_nodes_complete trees nodes t m W N Ht Hm C) as I.
  exact (mapM_res_elem _ _ _ _ R I).
Qed.

Lemma extract_reads parse command l : is_empty (strip command) = false ->
  extract_command_segments_ast parse command = Ok l -> exists cmds, read_commands parse command = Ok cmds.
Proof.
  unfold extract_command_segments_ast. intros Ne E. destruct (is_empty command) eqn:C; [by destruct command|].
  rewrite Ne in E. cbn [orb] in E. unfold _extract in E. apply bind_Ok_inv in E as (cmds & R & _). eauto.
Qed.

(** ** Assignments *)

(** The name and the value of an assignment, [NAME+=value] included. *)
Definition assigned (s : string) : string * option string :=
  match cut_at "=" s with Some (n, v) => (without_plus n, Some v) | None => (without_plus s, None) end.

(** An assignment that loads no library, runs no program and leaves git as it is pinned. *)
Definition harmless (s : string) : Prop :=
  let '(name, value) := assigned s in
  has_char "[" name = false /\ startswith "LD_" name = false
  /\ (name ∈ _PROGRAM_KEYS -> forall v, value = Some v -> v ∈ _NOOP_PROGRAMS)
  /\ (name ∉ _PROGRAM_KEYS -> name <> "SSH_ASKPASS" /\ (startswith "GIT_" name = true -> name ∈ _SAFE_GIT_KEYS)).

Lemma key_allowed_harmless name value : key_allowed name value = true ->
  startswith "LD_" name = false
  /\ (name ∈ _PROGRAM_KEYS -> forall v, value = Some v -> v ∈ _NOOP_PROGRAMS)
  /\ (name ∉ _PROGRAM_KEYS -> name <> "SSH_ASKPASS" /\ (startswith "GIT_" name = true -> name ∈ _SAFE_GIT_KEYS)).
Proof.
  unfold key_allowed. destruct (startswith "LD_" name); [done|]. intros H. split; [done|].
  destruct (key_in _PROGRAM_KEYS name) eqn:K.
  - apply key_in_elem in K. split; [|done]. intros _ v ->. by apply key_in_elem.
  - split; [by intros K'%key_in_elem; rewrite K' in K|]. intros _. apply andb_true_iff in H as [H1 H2]. split.
    + intros E. by rewrite E in H1.
    + intros G. rewrite G in H2. by apply key_in_elem.
Qed.

Lemma env_key_harmless s : _env_key_refusal s = Ok () -> harmless s.
Proof.
  unfold _env_key_refusal, harmless, assigned.
  destruct (cut_at "=" s) as [[n v]|]; [set (name := without_plus n) | set (name := without_plus s)];
    (destruct (has_char "[" name); [done|]); intros H%require_Ok; (split; [done|]); by apply key_allowed_harmless.
Qed.

Lemma node_assignments text m ws a s : node_words text m = Ok ws ->
  a ∈ kids_attr "parts" m -> kind a = "assignment" -> word_of a = Ok s -> harmless s.
Proof.
  intros E Ha K S. unfold node_words in E. apply (bind_Ok_inv (A := unit)) in E as ([] & E & _).
  assert (I : a ∈ keep (is_kind "assignment") (kids_attr "parts" m)).
  { apply elem_of_keep. split; [done|]. unfold is_kind. by rewrite K. }
  revert E I. generalize (keep (is_kind "assignment") (kids_attr "parts" m)) as l.
  induction l as [|x l IH]; intros E I; [by apply elem_of_nil in I|]. cbn in E.
  destruct (let! w := word_of x in _env_key_refusal w) as [[]|] eqn:X; [|done].
  apply elem_of_cons in I as [->|I]; [|by apply IH]. rewrite S in X. by apply env_key_harmless.
Qed.

(** ** Nesting *)

(** A word that stands for itself. *)
Definition bare (s : string) : word := {| w_word := s; w_raw := s; w_parts := [] |}.

Lemma nested_command parse left dyn k : 
  is_ok (_emit parse left dyn (replicate k (bare "command") ++ [bare "ls"])) = (k <? left).
Proof.
  revert left. induction k as [|k IH]; intros [|left]; [done|done|done|].
  specialize (IH left). destruct k as [|k].
  - cbn [replicate app] in *. by destruct left.
  - change (replicate (S (S k)) (bare "command") ++ [bare "ls"])
      with (bare "command" :: replicate (S k) (bare "command") ++ [bare "ls"]).
    assert (U : _emit parse (S left) dyn (bare "command" :: replicate (S k) (bare "command") ++ [bare "ls"])
                = (let! more := _emit parse left dyn (replicate (S k) (bare "command") ++ [bare "ls"]) in
                   Ok (head_entry dyn (bare "command") (replicate (S k) (bare "command") ++ [bare "ls"]) :: more)))
      by reflexivity.
    rewrite U. destruct (_emit parse left dyn _); exact IH.
Qed.

(** ** Fuel *)

Lemma step_groups r p q n s : q ∈ step r p -> (n, s) ∈ groups q ->
  (n, s) ∈ groups p \/ String.length s <= String.length (rest p).
Proof.
  assert (Le : forall p q, ends_in (rest p) (rest q) -> String.length (rest q) <= String.length (rest p)).
  { intros a b [w ->]. rewrite string_app_length. lia. }
  assert (R : forall r, (forall p q, q ∈ step r p -> (n, s) ∈ groups q ->
                   (n, s) ∈ groups p \/ String.length s <= String.length (rest p)) ->
            forall k p q, q ∈ repeat_from (step r) k p -> (n, s) ∈ groups q ->
              (n, s) ∈ groups p \/ String.length s <= String.length (rest p)).
  { intros e IHe k. induction k as [|k IHk]; intros x y H G; cbn [repeat_from] in H.
    - apply list_elem_of_singleton in H as ->. by left.
    - apply elem_of_app in H as [H|H]; [|apply list_elem_of_singleton in H as ->; by left].
      apply elem_of_flat_map in H as (z & Hz & H). destruct (advanced x z); [|by apply elem_of_nil in H].
      pose proof (Le _ _ (step_ends _ _ _ Hz)).
      destruct (IHk z y H G) as [G'|L]; [by eapply IHe | right; lia]. }
  revert p q. induction r; cbn [step]; intros p q H G; try by (apply guard_pos_elem in H as [_ ->]; left).
  - destruct (rest p) as [|c t]; [by apply elem_of_nil in H|]. apply guard_pos_elem in H as [_ ->]. by left.
  - apply list_elem_of_singleton in H as ->. by left.
  - apply elem_of_flat_map in H as (x & Hx & H). pose proof (Le _ _ (step_ends _ _ _ Hx)).
    destruct (IHr2 _ _ H G) as [G'|L]; [by eapply IHr1 | right; lia].
  - apply elem_of_app in H as [H|H]; eauto.
  - eapply R; [exact IHr | exact H | exact G].
  - apply repeat_lazy_elem in H. eapply R; [exact IHr | exact H | exact G].
  - apply list_elem_of_fmap in H as (x & -> & H). cbn [groups] in G.
    apply elem_of_cons in G as [[= -> ->]|G]; [|by eapply IHr].
    right. unfold text_between. pose proof (step_ends _ _ _ H) as [w Ew]. rewrite Ew, substring_app.
    rewrite string_app_length. lia.
  - destruct (step r p) as [|x l] eqn:Sx; [by apply elem_of_nil in H|].
    apply list_elem_of_singleton in H as ->. cbn [groups] in G. eapply IHr; [|exact G].
    rewrite Sx. apply list_elem_of_here.
Qed.

Lemma group_in_elem n g s : group_in n g = Some s -> (n, s) ∈ g.
Proof.
  induction g as [|[k t] g IH]; [done|]. cbn. destruct (Nat.eqb_spec n k) as [->|].
  - intros [= ->]. apply list_elem_of_here.
  - intros H. by apply list_elem_of_further, IH.
Qed.

Lemma operator_shorter value rest : expansion_operator value = Ok rest -> String.length rest <= String.length value.
Proof.
  unfold expansion_operator. destruct (re_fullmatch _PARAM_RE value) as [m|] eqn:M; [|done].
  destruct (_ || _); [done|]. intros [= <-]. unfold re_fullmatch in M. apply find_some in M as [M _].
  apply list_elem_of_In in M. unfold group. destruct (group_in 4 (groups m)) as [t|] eqn:G; cbn; [|lia].
  apply group_in_elem in G. destruct (step_groups _ _ _ _ _ M G) as [H|H]; [by apply elem_of_nil in H | done].
Qed.

Lemma close_brace_shorter depth inner s x more : close_brace depth inner s = Some (x, more) ->
  String.length x + String.length more < String.length inner + String.length s.
Proof.
  assert (P : forall t c, String.length (put t c) = S (String.length t)).
  { intros t c. unfold put. rewrite string_app_length. cbn. lia. }
  assert (L : exists n, String.length s <= n) by eauto. destruct L as [n L]. revert depth inner s L.
  induction n as [|n IH]; intros depth inner s L H; destruct s as [|c s]; try done; [cbn in L; lia|].
  cbn [String.length] in *. cbn [close_brace] in H.
  destruct (Ascii.eqb c backslash).
  - destruct s as [|d s]; [done|]. cbn [String.length] in *. apply IH in H; [|lia]. rewrite !P in H. lia.
  - destruct (Ascii.eqb c "{"); [apply IH in H; [|lia]; rewrite P in H; lia|].
    destruct (Ascii.eqb c "}"); [|apply IH in H; [|lia]; rewrite P in H; lia].
    destruct depth as [|[|d]]; [injection H as <- <-; lia | injection H as <- <-; lia|].
    apply IH in H; [|lia]. rewrite P in H. lia.
Qed.

Lemma cut_at_shorter sep s a b : cut_at sep s = Some (a, b) -> String.length sep + String.length b <= String.length s.
Proof.
  assert (A : forall p s r, after_prefix p s = Some r -> String.length p + String.length r = String.length s).
  { clear. induction p as [|c p IH]; intros [|d s] r H; cbn in *; try (by injection H as <-); [done|].
    destruct (Ascii.eqb c d); [|done]. apply IH in H. lia. }
  revert a. induction s as [|c s IH]; intros a H; cbn in H;
    destruct (after_prefix sep _) eqn:E; try done.
  - injection H as <- <-. apply A in E. lia.
  - injection H as <- <-. apply A in E. lia.
  - destruct (cut_at sep s) as [[x y]|]; [|done]. injection H as <- <-. specialize (IH x eq_refl). cbn. lia.
Qed.

Lemma expansions_step n value x l : expansions (S n) value = Ok (x :: l) ->
  exists a after more, cut_at "${" value = Some (a, after) /\ close_brace 1 "" after = Some (x, more)
    /\ expansions n more = Ok l.
Proof.
  cbn [expansions]. destruct (cut_at "${" value) as [[a after]|]; [|done].
  destruct (close_brace 1 "" after) as [[inner more]|] eqn:C; [|done].
  destruct (expansions n more) as [k|] eqn:E; [|done]. cbn. intros [= -> ->]. by exists a, after, more.
Qed.

Lemma expansions_shorter n value l x : expansions n value = Ok l -> x ∈ l -> String.length x < String.length value.
Proof.
  revert value l. induction n as [|n IH]; intros value l E I; [done|].
  destruct l as [|y l]; [by apply elem_of_nil in I|].
  apply expansions_step in E as (a & after & more & Hc & Hb & E).
  apply cut_at_shorter in Hc. apply close_brace_shorter in Hb. cbn in Hc, Hb.
  apply elem_of_cons in I as [->|I]; [lia|]. specialize (IH _ _ E I). lia.
Qed.

Lemma expansions_fuel n m value : String.length value < n -> String.length value < m ->
  expansions n value = expansions m value.
Proof.
  revert m value. induction n as [|n IH]; intros [|m] value L M; [lia..|]. cbn [expansions].
  destruct (cut_at "${" value) as [[a after]|] eqn:Hc; [|done].
  destruct (close_brace 1 "" after) as [[inner more]|] eqn:Hb; [|done].
  apply cut_at_shorter in Hc. apply close_brace_shorter in Hb. cbn in Hc, Hb. f_equal. apply IH; lia.
Qed.

Lemma fold_res_ext {A B} (f g : B -> A -> res B) l b :
  (forall x b, x ∈ l -> f b x = g b x) -> fold_res f b l = fold_res g b l.
Proof.
  revert b. induction l as [|x l IH]; intros b H; [done|]. cbn. rewrite H by apply list_elem_of_here.
  destruct (g b x); [|done]. apply IH. intros y c Hy. apply H. by apply list_elem_of_further.
Qed.

(** The check of a text does not depend on the fuel beyond its length. *)
Lemma check_text_fuel n m heredoc value : String.length value < n -> String.length value < m ->
  check_text n heredoc value = check_text m heredoc value.
Proof.
  revert m heredoc value. induction n as [|n IH]; intros [|m] heredoc value L M; [lia..|]. cbn [check_text].
  destruct (searches _RUNS_COMMAND value); [done|].
  destruct (if heredoc then Ok value else expansion_operator value) as [r|] eqn:R; [|done].
  assert (Lr : String.length r <= String.length value).
  { destruct heredoc; [by injection R as ->|]. by apply operator_shorter. }
  cbn [mbind res_bind]. destruct (expansions (S (String.length r)) r) as [inner|] eqn:X; [|done].
  cbn [mbind res_bind]. apply fold_res_ext. intros x [] I. pose proof (expansions_shorter _ _ _ _ X I).
  apply IH; lia.
Qed.

Lemma runner_options_shorter flags vopts skip l k :
  runner_options flags vopts skip l = Ok k -> length k <= length l.
Proof.
  revert skip. induction l as [|w l IH]; intros skip E; cbn [runner_options] in E; [by injection E as <-|].
  cbn [length]. destruct skip; [apply (bind_Ok_inv (A := unit)) in E as ([] & _ & E); apply IH in E; lia|].
  destruct (String.eqb (w_word w) "--"); [injection E as <-; lia|].
  destruct (negb (startswith "-" (w_word w))); [by injection E as <-|].
  destruct (key_in vopts _); [apply (bind_Ok_inv (A := unit)) in E as ([] & _ & E); apply IH in E; lia|].
  destruct (key_in flags _); [|done]. apply (bind_Ok_inv (A := unit)) in E as ([] & _ & E). apply IH in E. lia.
Qed.

Lemma package_runner_shorter opts l k : _check_package_runner opts l = Ok k -> length k <= length l.
Proof.
  unfold _check_package_runner. intros (k' & H & E)%bind_Ok_inv. apply runner_options_shorter in H.
  apply (bind_Ok_inv (A := unit)) in E as ([] & _ & E). by injection E as <-.
Qed.

Lemma runner_prefix_shorter tool w l k : _skip_runner_prefix tool w l = Ok (Some k) -> length k <= length l.
Proof.
  unfold _skip_runner_prefix. destruct (_ && _).
  { destruct (_check_package_runner _ _) eqn:R; [|done]. intros [= <-]. by eapply package_runner_shorter. }
  destruct (_ && _).
  { intros ([] & _ & E)%(bind_Ok_inv (A := unit)). destruct (_check_package_runner _ _) eqn:R; [|done].
    injection E as <-. apply package_runner_shorter in R. destruct l; cbn in *; lia. }
  destruct (_ && _); [|done]. destruct l as [|x l]; [done|].
  intros ([] & _ & E)%(bind_Ok_inv (A := unit)). destruct (String.eqb _ _); [|done].
  destruct (_check_package_runner _ _) eqn:R; [|done]. injection E as <-. apply package_runner_shorter in R. cbn. lia.
Qed.

Lemma subcommand_loop_fuel parse em n m tool dyn l : length l < n -> length l < m ->
  subcommand_loop parse em n tool dyn l = subcommand_loop parse em m tool dyn l.
Proof.
  revert m l. induction n as [|n IH]; intros [|m] l L M; [lia..|]. destruct l as [|w l]; [done|].
  cbn [subcommand_loop]. cbn [length] in *.
  destruct (_skip_runner_prefix tool w l) as [[next|]|] eqn:R; [|done|done].
  cbn [mbind res_bind]. apply runner_prefix_shorter in R. apply IH; lia.
Qed.

(** The two loops that are not structural run on a bound that is never
    reached: the check of an expansion does not change with more steps than its text is
    long, nor the search for a subcommand with more steps than there are words. *)
Theorem parser_loops_end parse em tool dynamic_args :
  (forall heredoc value extra,
     check_text (S (String.length value) + extra) heredoc value = _check_parameter heredoc value)
  /\ (forall words extra,
     subcommand_loop parse em (S (length words) + extra) tool dynamic_args words
     = subcommand_loop parse em (S (length words)) tool dynamic_args words).
Proof. split; intros; [apply check_text_fuel | apply subcommand_loop_fuel]; lia. Qed.

(** ** Trees by hand *)

Fixpoint nodes_of (n : ast) : list ast :=
  let 'Ast _ _ _ _ c := n in n :: flat_map (fun a : string * list ast => flat_map nodes_of a.2) c.

Lemma within_nodes n m : within n m -> m ∈ nodes_of n.
Proof.
  induction 1 as [[]|n name l x m Hl Hx _ IH]; [apply list_elem_of_here|].
  destruct n as [i k p t c]. cbn [nodes_of]. apply list_elem_of_further, elem_of_flat_map.
  exists (name, l). split; [exact Hl|]. apply elem_of_flat_map. by exists x.
Qed.

Lemma distinct_identified t : NoDup (ident <$> nodes_of t) -> well_identified t.
Proof. intros H n m Hn%within_nodes Hm%within_nodes E. by eapply (NoDup_fmap_elem ident). Qed.

(** A parser of words between blanks and single quotes, for examples. *)
Definition flush_word (start stop : nat) (text : string) : list ast :=
  if start <? stop
  then [Ast (S start) "word" (start, stop) [("word", text)] []] else [].
Fixpoint words_at (start i : nat) (in_quote : bool) (text s : string) : list ast :=
  match s with
  | EmptyString => flush_word start i text
  | String c s' =>
      if Ascii.eqb c squote then words_at start (S i) (negb in_quote) text s'
      else if Ascii.eqb c " " && negb in_quote
      then flush_word start i text ++ words_at (S i) (S i) false "" s'
      else words_at start (S i) in_quote (put text c) s'
  end.
(** The words before the command that assign. *)
Fixpoint mark_assignments (l : list ast) : list ast :=
  match l with
  | Ast i k p t c :: l' =>
      if matches _NAME_ASSIGN (default "" (attr "word" t)) then Ast i "assignment" p t c :: mark_assignments l'
      else l
  | [] => []
  end.
Definition simple_parse (s : string) : option (list ast) :=
  Some [Ast 0 "command" (0, String.length s) [] [("parts", mark_assignments (words_at 0 0 false "" s))]].

Definition names_of (r : res (list entry)) : res (list string) := map entry_name <$> r.

Example unwrapping_examples :
  names_of (extract_command_segments_ast simple_parse "A=1 env B=2 timeout 5 bash -lc 'xargs rm -r'")
    = Ok ["env"; "timeout"; "bash"; "xargs"; "rm"]
  /\ names_of (extract_command_segments_ast simple_parse "find . -name x -exec rm {} \; -ok kill 1")
    = Ok ["find"; "rm"; "kill"]
  /\ names_of (extract_command_segments_ast simple_parse "env GIT_CONFIG_COUNT=1 ls") = refused
  /\ names_of (extract_command_segments_ast simple_parse "LD_PRELOAD=x ls") = refused
  /\ names_of (extract_command_segments_ast simple_parse "pnpm -r exec rm x") = Ok ["pnpm"; "rm"]
  /\ names_of (extract_command_segments_ast simple_parse "npm --prefix d x -q rm x") = Ok ["npm"; "rm"].
Proof. by vm_compute. Qed.


Definition example_command : string := "A=1 env B=2 bash -c 'rm x'".
Definition example_words : list word :=
  [bare "env"; bare "B=2"; bare "bash"; bare "-c"; {| w_word := "rm x"; w_raw := "'rm x'"; w_parts := [] |}].




(** A command behind [k] nested wrappers is accepted when [k] is at most
    [_MAX_DEPTH], and refused beyond it, whatever [bashlex] does. *)
Theorem nesting_is_bounded parse dynamic_args k :
  is_ok (_emit parse (S _MAX_DEPTH) dynamic_args (replicate k (bare "command") ++ [bare "ls"]))
  = (k <=? _MAX_DEPTH).
Proof. rewrite nested_command. apply eq_true_iff_eq. rewrite Nat.ltb_lt, Nat.leb_le. lia. Qed.
