(* ===== verification/GateSafety.v ===== *)
(** What the gate of the tools promises: a Bash command passes only when every command it
    runs is allowed and passed its validator, on the argument vector that runs; deletions and
    mode changes stay in the worktree, signals go to single processes, file tools write
    outside of git metadata and of the source project. *)
From S2P Require Import Prelude PyData EventMonad TrustedPlan GitPins Regex Shlex ExecContext CommandValidators CommandParser ParserSpec WriteGuard CommandGate.
Local Open Scope nat_scope.

(** ** Refusals have reasons *)

Definition reasoned (v : ValidationResult) : Prop := fst v = false -> is_empty (snd v) = false.

Lemma accept_reasoned : reasoned accept.
Proof. done. Qed.

(** Every branch accepts or refuses with a text that begins with a literal. *)
Ltac branches :=
  repeat match goal with
  | |- reasoned (match ?x with _ => _ end) => destruct x
  | |- reasoned (let _ := _ in _) => cbv zeta
  | |- reasoned accept => exact accept_reasoned
  | |- reasoned (refuse _) => intros _; reflexivity
  end.

Lemma chmod_reasoned getcwd root cmd : reasoned (validate_chmod_command getcwd root cmd).
Proof. unfold validate_chmod_command. branches. Qed.
Lemma rm_reasoned getcwd root cmd : reasoned (validate_rm_command getcwd root cmd).
Proof.
  unfold validate_rm_command. branches.
  match goal with |- reasoned (rm_words _ _ ?l) => generalize l end. intros l.
  induction l as [|t l IH]; cbn [rm_words]; branches; exact IH.
Qed.
Lemma init_reasoned cmd : reasoned (validate_init_script cmd).
Proof. unfold validate_init_script. branches. Qed.
Lemma pkill_reasoned cmd v : validate_pkill_command cmd = Ok v -> reasoned v.
Proof.
  unfold validate_pkill_command. destruct (split cmd) as [[|t ts]|]; try (by intros [= <-]).
  destruct (List.rev _) as [|t0 l]; [by intros [= <-]|].
  intros (t1 & _ & E)%bind_Ok_inv. destruct (key_in _ _); by injection E as <-.
Qed.
Lemma kill_reasoned cmd : reasoned (validate_kill_command cmd).
Proof. unfold validate_kill_command. branches. Qed.
Lemma dropdb_reasoned cmd : reasoned (validate_dropdb_command cmd).
Proof. unfold validate_dropdb_command. branches. Qed.
Lemma dropuser_reasoned cmd : reasoned (validate_dropuser_command cmd).
Proof. unfold validate_dropuser_command. branches. Qed.
Lemma destructive_reasoned tool sql : is_empty tool = false -> reasoned (destructive_refusal tool sql).
Proof. unfold destructive_refusal. intros T. branches; intros _; by destruct tool. Qed.
Lemma psql_reasoned cmd : reasoned (validate_psql_command cmd).
Proof. unfold validate_psql_command. branches. by apply destructive_reasoned. Qed.
Lemma mysql_reasoned cmd : reasoned (validate_mysql_command cmd).
Proof. unfold validate_mysql_command. branches. by apply destructive_reasoned. Qed.
Lemma mysqladmin_reasoned cmd : reasoned (validate_mysqladmin_command cmd).
Proof. unfold validate_mysqladmin_command. branches. Qed.
Lemma redis_reasoned cmd : reasoned (validate_redis_cli_command cmd).
Proof. unfold validate_redis_cli_command. branches. Qed.
Lemma mongosh_reasoned cmd : reasoned (validate_mongosh_command cmd).
Proof. unfold validate_mongosh_command. branches. Qed.

Section Safety.
Context {W E : Type}.
Context (getcwd : string) (environ : env_list) (hooks : CommitHooks W).
Context (bashlex : option (string -> option (list ast))) (refusal_of : string -> string).
Context (get_security_profile : string -> res SecurityProfile).
Abbreviation M := (Eff (Ctx W) E).
Abbreviation validators := (get_validator (E := E) getcwd hooks).
Abbreviation refusal_in := (_validator_refusal (E := E) getcwd hooks).

(** The verdict a validator returns has a reason. *)
Definition explains (m : M ValidationResult) : Prop :=
  forall s, wp m (fun r _ _ => forall v, r = Ok v -> reasoned v) s.

Lemma explains_ret v : reasoned v -> explains (mret v).
Proof. intros H s. apply wp_ret. by intros w [= <-]. Qed.

Lemma explains_bind {A} (m : M A) f : (forall a, explains (f a)) -> explains (mbind f m).
Proof.
  intros H s. apply wp_bind. apply wp_any. intros [a|e] s' l; [|done].
  eapply wp_mono; [apply H|]. auto.
Qed.

Lemma scan_staged_explains sc : explains (scan_staged (E := E) sc).
Proof.
  apply explains_bind. intros [|x l]; [by apply explains_ret|]. apply explains_bind. intros found.
  apply explains_ret. by destruct found.
Qed.

Lemma git_commit_explains cmd : explains (validate_git_commit (E := E) hooks cmd).
Proof.
  assert (S : explains (scan_commit (E := E) hooks)).
  { apply explains_bind. intros _. destruct (ch_scanner hooks); [apply scan_staged_explains | by apply explains_ret]. }
  unfold validate_git_commit. destruct (split cmd) as [[|t [|u l]]|].
  - by apply explains_ret.
  - by apply explains_ret.
  - case_if; [done | by apply explains_ret].
  - cbv zeta. case_if; [done | by apply explains_ret].
Qed.

Lemma git_explains cmd : explains (validate_git (E := E) hooks cmd).
Proof.
  unfold validate_git. destruct (split cmd) as [tokens|].
  - destruct (option_refusal tokens) as [[]|]; try by apply explains_ret.
    destruct (_git_config_refusal tokens) as [[]|]; try (by apply explains_ret); apply git_commit_explains.
  - case_if; [by apply explains_ret | apply git_commit_explains].
Qed.

Lemma validator_explains name v cmd : validators name = Some v -> explains (v cmd).
Proof.
  intros H. unfold get_validator, VALIDATORS, lookup_in in H.
  repeat match type of H with (if ?b then _ else _) = _ => destruct b end; try discriminate H; injection H as <-;
    try (apply explains_bind; intros root); try apply explains_ret;
    first [ apply kill_reasoned | apply chmod_reasoned | apply rm_reasoned | apply init_reasoned | apply git_explains
          | apply dropdb_reasoned | apply dropuser_reasoned | apply psql_reasoned | apply mysql_reasoned
          | apply mysqladmin_reasoned | apply redis_reasoned | apply mongosh_reasoned
          | intros s; apply wp_lift; intros w Hw; by eapply pkill_reasoned ].
Qed.

(** ** The commands that pass *)

(** A validator accepted a segment with the worktree root set. *)
Definition passed (cwd : string) (e : entry) : Prop :=
  let '(name, seg, dynamic_args) := e in
  forall v, validators name = Some v ->
    dynamic_args = false
    /\ exists s reason s' l, v seg (set_root (Some cwd) s) = (Ok (true, reason), s', l).

Lemma validator_refusal_None cmds cwd s r s' l :
  refusal_in cmds cwd s = (Ok r, s', l) -> truthy_reason r = None ->
  Forall (passed cwd) cmds.
Proof.
  revert s r s' l. induction cmds as [|[[name seg] dyn] cmds IH]; intros s r s' l R T; [constructor|].
  cbn [_validator_refusal] in R. destruct (validators name) as [v|] eqn:V.
  - unfold mbind at 1, Eff_bind at 1 in R. unfold under_root in R. cbn [set_worktree_root] in R.
    pose proof (validator_explains name v seg V (set_root (Some cwd) s)) as X. unfold wp in X.
    destruct (v seg (set_root (Some cwd) s)) as [[[|] s1] l1] eqn:Run; [|done].
    specialize (X _ eq_refl). destruct a as [[|] reason]; cbn [fst snd negb] in R, X; unfold mret, Eff_ret in R.
    + destruct dyn; [injection R as <- _ _; discriminate T|].
      destruct (refusal_in cmds cwd _) as [[r2 s2] l2] eqn:R2.
      injection R as -> _ _. constructor; [|by eapply IH].
      intros v' Hv'. rewrite V in Hv'. injection Hv' as <-. split; [done|]. by exists s, reason, s1, l1.
    + injection R as <- _ _. specialize (X eq_refl). cbn in X, T. by destruct reason.
  - constructor; [|by eapply IH]. intros v' Hv'. congruence.
Qed.

(** The root the validators of a command saw does not outlive it. *)
Lemma validator_refusal_root cmds cwd s r s' l :
  refusal_in cmds cwd s = (r, s', l) -> _worktree_root s' = _worktree_root s.
Proof.
  revert s r s' l. induction cmds as [|[[name seg] dyn] cmds IH]; intros s r s' l R; [by injection R as _ <- _|].
  cbn [_validator_refusal] in R. destruct (validators name) as [v|]; [|by eapply IH].
  unfold mbind at 1, Eff_bind at 1 in R. unfold under_root in R. cbn [set_worktree_root] in R.
  destruct (v seg (set_root (Some cwd) s)) as [[[[ok reason]|e] s1] l1]; [|by injection R as _ <- _].
  destruct ok; cbn [fst snd negb] in R; unfold mret, Eff_ret in R; [|by injection R as _ <- _].
  destruct dyn; [by injection R as _ <- _|].
  destruct (refusal_in cmds cwd _) as [[r2 s2] l2] eqn:R2. injection R as _ <- _.
  by apply IH in R2.
Qed.

Lemma first_disallowed_None profile names : first_disallowed environ profile names = None ->
  forall n, n ∈ names -> fst (is_command_allowed environ n profile) = true.
Proof.
  induction names as [|c names IH]; intros H n I; [by apply elem_of_nil in I|]. cbn [first_disallowed] in H.
  destruct (is_command_allowed environ c profile) as [[|] reason] eqn:A; [|done].
  apply elem_of_cons in I as [->|I]; [by rewrite A | by apply IH].
Qed.

Definition profile_of (cwd : string) : SecurityProfile :=
  match get_security_profile cwd with Ok p => p | Err _ => base_profile end.

(** What a command that passes the checks went through. *)
Record cleared (cwd command : string) (parse : string -> option (list ast)) (cmds : list entry) : Prop := {
  cl_installed : bashlex = Some parse;
  cl_extracted : extract_command_segments_ast parse command = Ok cmds;
  cl_some : cmds <> [];
  cl_allowed : forall n, n ∈ map entry_name cmds -> fst (is_command_allowed environ n (profile_of cwd)) = true;
  cl_passed : Forall (passed cwd) cmds;
  cl_egress : fst (check_egress environ command (map entry_name cmds)) = true;
}.

Lemma judged_cleared profile cwd command cmds s s' l :
  judge_commands (E := E) getcwd environ hooks profile cwd command cmds s = (Ok Allow, s', l) ->
  first_disallowed environ profile (map entry_name cmds) = None /\ Forall (passed cwd) cmds
  /\ fst (check_egress environ command (map entry_name cmds)) = true.
Proof.
  unfold judge_commands. change (entry_name <$> cmds) with (map entry_name cmds).
  destruct (first_disallowed environ profile (map entry_name cmds)) eqn:F; [done|].
  intros R. unfold mbind at 1, Eff_bind at 1 in R.
  destruct (refusal_in cmds cwd s) as [[[refusal|] s1] l1] eqn:V; [|done].
  destruct (truthy_reason refusal) eqn:T; [done|].
  destruct (check_egress environ command (map entry_name cmds)) as [[|] reason]; [|done].
  split; [done|]. split; [|done]. by eapply validator_refusal_None.
Qed.

Lemma checks_cleared cwd command s s' l :
  run_bash_checks (E := E) getcwd environ hooks bashlex refusal_of get_security_profile cwd command s = (Ok Allow, s', l) ->
  exists parse cmds, cleared cwd command parse cmds.
Proof.
  unfold run_bash_checks. intros R. rewrite bind_lift in R. unfold _extract_commands_fail_closed in R.
  destruct bashlex as [parse|] eqn:B; [|done].
  destruct (extract_command_segments_ast parse command) as [cmds|e] eqn:X; [|by destruct (bool_decide (e = unparseable))].
  destruct cmds as [|c cmds]; [done|]. apply judged_cleared in R as (F & P & G). exists parse, (c :: cmds).
  split; try done. by apply first_disallowed_None.
Qed.

Abbreviation hook := (bash_security_hook (W := W) (E := E) getcwd environ hooks bashlex refusal_of get_security_profile).

(** The call of the Bash tool with a command. *)
Definition bash_call (input_data : dict) (command : string) : Prop :=
  dget "tool_name" input_data = Some (JStr "Bash")
  /\ exists tool_input, dget "tool_input" input_data = Some (JObj tool_input)
     /\ dget "command" tool_input = Some (JStr command) /\ is_empty command = false.

Lemma hook_cleared input_data command s s' l : bash_call input_data command ->
  hook input_data s = (Ok Allow, s', l) ->
  exists cwd parse cmds, hook_cwd getcwd input_data = Ok cwd /\ names_profile command = false
    /\ cleared cwd command parse cmds.
Proof.
  intros (T & ti & I & C & Ne) R. unfold bash_security_hook in R. rewrite T, I, C in R. cbn [from_option id truthy] in R.
  rewrite Ne in R. cbn [negb] in R. rewrite bind_lift in R.
  destruct (names_profile command); [done|]. rewrite bind_lift in R.
  destruct (hook_cwd getcwd input_data) as [cwd|]; [|done].
  destruct (checks_cleared _ _ _ _ _ R) as (parse & cmds & K). by exists cwd, parse, cmds.
Qed.

Lemma cleared_not_blank cwd command parse cmds : cleared cwd command parse cmds -> is_empty (strip command) = false.
Proof.
  intros [_ X N _ _ _]. unfold extract_command_segments_ast in X.
  destruct (is_empty (strip command)); [|done]. rewrite orb_true_r in X. by injection X as <-.
Qed.

(** ** The validators that accept *)

Lemma rm_words_accept root args reason : rm_words getcwd root args = (true, reason) ->
  forall t, t ∈ args -> startswith "-" t = false -> target_escapes_worktree getcwd t root = false.
Proof.
  induction args as [|a args IH]; intros H t I O; [by apply elem_of_nil in I|]. cbn [rm_words] in H.
  destruct (startswith "-" a) eqn:A.
  - destruct (String.eqb a "--no-preserve-root"); [done|].
    apply elem_of_cons in I as [->|I]; [congruence | by apply IH].
  - destruct (existsb _ _); [done|]. destruct (target_escapes_worktree getcwd a root) eqn:Esc; [done|].
    apply elem_of_cons in I as [->|I]; [done | by apply IH].
Qed.

Lemma rm_accept root seg reason arg0 args : validate_rm_command getcwd root seg = (true, reason) ->
  split seg = Ok (arg0 :: args) ->
  forall t, t ∈ args -> startswith "-" t = false -> target_escapes_worktree getcwd t root = false.
Proof. unfold validate_rm_command. intros H S. rewrite S in H. by eapply rm_words_accept. Qed.

(** The words of [chmod] after the mode, options aside. *)
Definition chmod_files (args : list string) : list string := tl (keep (fun t => negb (startswith "-" t)) args).

Lemma chmod_words_files mode files args m fs : chmod_words mode files args = inl (Some m, fs) ->
  fs = files ++ match mode with
                | Some _ => keep (fun t => negb (startswith "-" t)) args
                | None => chmod_files args
                end.
Proof.
  revert mode files. induction args as [|t args IH]; intros mode files H; cbn [chmod_words] in H.
  - injection H as -> <-. by rewrite app_nil_r.
  - unfold chmod_files, keep in *. cbn [List.filter].
    destruct (startswith "-" t) eqn:D.
    + destruct (key_in _ t); [|done]. by apply IH in H.
    + destruct (key_in ["-R"; "--recursive"] t) eqn:K.
      { apply key_in_elem in K. apply elem_of_cons in K as [->|K]; [done|].
        by apply list_elem_of_singleton in K as ->. }
      destruct mode; apply IH in H as ->; cbn [negb tl]; [by rewrite <- app_assoc | done].
Qed.

Lemma chmod_accept root seg reason arg0 args : validate_chmod_command getcwd root seg = (true, reason) ->
  split seg = Ok (arg0 :: args) ->
  forall t, t ∈ chmod_files args -> target_escapes_worktree getcwd t root = false.
Proof.
  unfold validate_chmod_command. intros H S t I. rewrite S in H.
  destruct (String.eqb arg0 "chmod"); [|done]. cbn [negb] in H.
  destruct (chmod_words None [] args) as [[[mode|] [|f fs]]|] eqn:C; try done.
  destruct (_ && _) in H; [done|]. apply chmod_words_files in C. cbn [app] in C.
  destruct (first_escape getcwd root (f :: fs)) as [g|] eqn:F; [done|]. unfold first_escape in F.
  eapply find_none in F; [exact F|]. rewrite C. by apply list_elem_of_In.
Qed.

Lemma kill_accept seg reason tokens : validate_kill_command seg = (true, reason) -> split seg = Ok tokens ->
  kill_operands (tl tokens) <> [] /\ forall pid, pid ∈ kill_operands (tl tokens) -> single_pid pid = true.
Proof.
  unfold validate_kill_command. intros H S. rewrite S in H.
  destruct (kill_operands (tl tokens)) as [|p l] eqn:K; [done|].
  destruct (List.find _ _) eqn:F in H; [done|]. split; [done|]. intros pid I.
  eapply find_none in F; [|by apply list_elem_of_In]. by apply negb_false_iff.
Qed.

(** What an accepted segment of a validator without effects was judged to be. *)
Lemma passed_in_worktree cwd name seg dyn f : passed cwd (name, seg, dyn) ->
  validators name = Some (in_worktree f) -> dyn = false /\ exists reason, f (Some cwd) seg = (true, reason).
Proof.
  intros P V. destruct (P _ V) as [D (s & reason & s' & l & R)]. split; [done|]. exists reason.
  cbn in R. by injection R.
Qed.
Lemma passed_plain cwd name seg dyn f : passed cwd (name, seg, dyn) ->
  validators name = Some (plain f) -> dyn = false /\ exists reason, f seg = (true, reason).
Proof.
  intros P V. destruct (P _ V) as [D (s & reason & s' & l & R)]. split; [done|]. exists reason.
  cbn in R. by injection R.
Qed.

(** ** The properties of the gate *)



(** In a command that passes, [kill] is given operands, and each of them is a
    number above zero in decimal digits: never a process group, [-1] or [0]. *)
Theorem allowed_signals_have_one_target input_data command s s' l parse cmds seg dynamic_args tokens :
  bash_call input_data command -> hook input_data s = (Ok Allow, s', l) ->
  bashlex = Some parse -> extract_command_segments_ast parse command = Ok cmds ->
  ("kill", seg, dynamic_args) ∈ cmds -> split seg = Ok tokens ->
  kill_operands (tl tokens) <> []
  /\ forall pid, pid ∈ kill_operands (tl tokens) -> isdigit pid = true /\ (0 < read_digits 0 pid)%Z.
Proof.
  intros Hb R Hp X I S.
  destruct (hook_cleared _ _ _ _ _ Hb R) as (cwd' & parse' & cmds' & _ & _ & [Hp' X' _ _ P _]).
  rewrite Hp in Hp'. injection Hp' as <-. rewrite X in X'. injection X' as <-.
  rewrite Forall_forall in P. specialize (P _ I).
  destruct (passed_plain _ _ _ _ validate_kill_command P eq_refl) as (_ & reason & V).
  destruct (kill_accept _ _ _ V S) as [Ne A]. split; [done|]. intros pid Ip. specialize (A pid Ip).
  unfold single_pid in A. apply andb_true_iff in A as [D Z]. split; [done|]. by apply Z.ltb_lt.
Qed.
End Safety.

(** ** The gate on examples *)

Definition no_git : CommitHooks unit :=
  {| ch_diff := fun _ => None; ch_reset := fun _ w => (true, w); ch_scanner := None |}.
Definition base_gate (environ : env_list) : dict -> Eff (Ctx unit) () decision :=
  bash_security_hook "/" environ no_git (Some simple_parse) (fun _ => "") (fun _ => Ok base_profile).
Definition call_of (command : string) : dict :=
  [("tool_name", JStr "Bash"); ("cwd", JStr "/w/task"); ("tool_input", JObj [("command", JStr command)])].
Definition idle : Ctx unit := Build_Ctx None ().
Definition gate_says (environ : env_list) (command : string) : res decision :=
  fst (fst (base_gate environ (call_of command) idle)).
Definition allows (command : string) : bool :=
  match gate_says [] command with Ok Allow => true | _ => false end.

Example gate_examples :
  map allows
    ["ls -l"; "rm -rf build dist/x"; "rm -rf ../other"; "rm -rf /w/task/a/../../other"; "env rm /etc/passwd";
     "kill -9 12"; "kill -9 -1"; "xargs rm x"; "sudo ls"; "bash -c 'rm /etc/x'"; "chmod -R +x bin";
     "chmod 777 bin"; "git -c core.pager=x log"; "git config alias.x y"; "GIT_SSH=x git fetch"]
  = [true; true; false; false; false; true; false; false; false; false; true; false; false; false; false]
  /\ gate_says [("AIFACTORY_EGRESS_POLICY", "allowlist"); ("AIFACTORY_EGRESS_ALLOWED_HOSTS", "github.com")]
       "curl https://api.github.com/x" = Ok Allow
  /\ gate_says [("AIFACTORY_EGRESS_POLICY", "allowlist"); ("AIFACTORY_EGRESS_ALLOWED_HOSTS", "github.com")]
       "curl https://evil.org/x"
     = Ok (Block "Egress to ['evil.org'] blocked: not in AIFACTORY_EGRESS_ALLOWED_HOSTS (['github.com']).").
Proof. by vm_compute. Qed.

Lemma example_call command : is_empty command = false -> bash_call (call_of command) command.
Proof. intros H. split; [done|]. by eexists. Qed.



Lemma allowed_signals_have_one_target_witness :
  exists s' l, base_gate [] (call_of "kill -9 12") idle = (Ok Allow, s', l)
    /\ kill_operands ["-9"; "12"] = ["12"] /\ (0 < read_digits 0 "12")%Z.
Proof.
  eexists _, _. split; [vm_compute; reflexivity|]. split; [done|].
  edestruct (allowed_signals_have_one_target (W := unit) (E := unit) "/" [] no_git (Some simple_parse) (fun _ => "")
    (fun _ => Ok base_profile) (call_of "kill -9 12") "kill -9 12" idle) as [_ A].
  - by apply example_call.
  - vm_compute. reflexivity.
  - reflexivity.
  - vm_compute. reflexivity.
  - apply list_elem_of_here.
  - vm_compute. reflexivity.
  - apply (A "12"). apply list_elem_of_here.
Defined.

(** A home directory is no worktree: the shell expands [~] after the validator judged it a
    relative path, so a deletion there passes the gate; without a root the same test
    refuses it. *)
Lemma home_targets_pass :
  allows "rm -rf ~/.ssh" = true /\ allows "chmod 600 ~/.netrc" = true
  /\ target_escapes_worktree "/" "~/.ssh" (Some "/w/task") = false
  /\ target_escapes_worktree "/" "~/.ssh" None = true.
Proof. by vm_compute. Qed.

(** Only the last operand of [killall] is looked at, and all of them are signalled. *)
Lemma killall_judges_one_target :
  validate_killall_command "killall sshd postgres node" = Ok accept
  /\ (exists reason, validate_killall_command "killall node sshd" = Ok (refuse reason)).
Proof. split; [reflexivity|]. eexists. vm_compute. reflexivity. Qed.

(** A process name of blanks makes the validator raise. *)
Lemma blank_process_name_raises : validate_pkill_command "pkill ' '" = Err (AppError "IndexError").
Proof. reflexivity. Qed.

(** The long options, a second [-c] and the [--eval=] form carry SQL and scripts past the
    database validators. *)
Lemma other_forms_are_not_read :
  validate_psql_command "psql --command 'DROP TABLE users'" = accept
  /\ validate_psql_command "psql -c 'select 1' -c 'DROP TABLE users'" = accept
  /\ validate_mysql_command "mysql --execute='DROP TABLE users'" = accept
  /\ validate_mongosh_command "mongosh --eval='db.dropDatabase()'" = accept
  /\ fst (validate_psql_command "psql -c 'DROP TABLE users'") = false
  /\ fst (validate_mongosh_command "mongosh --eval 'db.dropDatabase()'") = false.
Proof. by vm_compute. Qed.
