(* ===== verification/Evidence.v ===== *)
(** backend/agents/test_evidence.py and the hook that feeds it (act_loop_hooks.py): the
    ledger of the test commands a build ran, the window of it that belongs to one subtask,
    and the search for a test that reaches the application that ships.

    The ledger is a file of lines; what is not JSON is [None].  A project is a tree of
    directories and files, whose contents are bytes. *)
From S2P Require Import Prelude PyData JsonText GitPins Regex Shlex ExecContext CommandValidators.
Local Open Scope nat_scope.

(** ** [str] of a JSON value *)

Fixpoint json_repr (v : json) : string :=
  match v with
  | JNull => "None"
  | JBool b => if b then "True" else "False"
  | JInt z => pretty z
  | JStr s => py_repr s
  | JList l => "[" +:+ join ", " (List.map json_repr l) +:+ "]"
  | JObj d => "{" +:+ join ", " (List.map (fun kv => py_repr kv.1 +:+ ": " +:+ json_repr kv.2) d) +:+ "}"
  end.
Definition str_of (v : json) : string := match v with JStr s => s | _ => json_repr v end.
(** [str(d.get(k, ""))] and [str(d.get(k) or "")] *)
Definition text_field (k : string) (d : dict) : string :=
  match dget k d with Some v => str_of v | None => "" end.
Definition text_or_empty (k : string) (d : dict) : string :=
  match dget k d with Some v => if truthy v then str_of v else "" | None => "" end.

(** ** Which commands run tests *)

Definition _TEST_RUNNER_PATTERNS : list string :=
  ["pytest"; "py.test"; "unittest"; "nosetests"; "go test"; "gotestsum"; "npm test"; "npm run test";
   "yarn test"; "pnpm test"; "jest"; "vitest"; "mocha"; "cargo test"; "cargo nextest"; "mvn test";
   "mvn verify"; "gradle test"; "gradlew test"; "rspec"; "rails test"; "phpunit"; "dotnet test";
   "ctest"; "bats"; "tox"; "rebar3 eunit"; "mix test"].

Definition blank : rx := Chr is_space.
Definition solid : rx := Chr (other_than is_space).
Definition word_char : rx := Chr is_word.
Definition digit : rx := Chr is_digit.
(** Words with blanks between them. *)
Definition spaced (a b : string) : rx := seq_of [lit_i a; Plus blank; lit_i b].

Definition _LEADING_WRAPPERS : rx :=
  seq_of [TextStart; Star blank;
    alt_of [seq_of [lit_i "cd"; Plus blank; Plus solid]; lit_i "sudo"; lit_i "env"; lit_i "time"; lit_i "nice";
      seq_of [Chr (either is_alpha (is_char "_")); Star word_char; lit "="; Plus solid];
      lit_i "npx"; spaced "poetry" "run"; spaced "pipenv" "run"; spaced "uv" "run"; spaced "pdm" "run";
      spaced "hatch" "run"; seq_of [lit_i "python"; Maybe (lit "3"); Plus blank; lit_i "-m"]; spaced "py" "-m"];
    Plus blank].

Definition shell_operators : rx :=
  alt_of [lit "&&"; lit "||"; lit ";"; lit "|"; seq_of [WordBound; lit "then"; WordBound];
          seq_of [WordBound; lit "do"; WordBound]].

(** One turn of the loop that peels wrappers, and the loop: it ends when nothing is left or
    nothing changes. *)
Definition peel_once (sub : string) : string :=
  let sub := strip (drop_match _LEADING_WRAPPERS sub) in
  match after_prefix "./" sub with Some r => r | None => sub end.
Fixpoint peel (n : nat) (sub : string) : string :=
  match n with
  | O => sub
  | S n' =>
      if is_empty sub then sub
      else let sub' := peel_once sub in
           if String.eqb sub' sub then sub' else peel n' sub'
  end.
Definition invoked (part : string) : string := let sub := strip part in peel (S (String.length sub)) sub.

Definition runs_tests (low : string) : bool :=
  existsb (fun pat => String.eqb low pat || startswith (pat +:+ " ") low) _TEST_RUNNER_PATTERNS.
Definition is_test_command (command : string) : bool :=
  negb (is_empty command)
  && existsb (fun part => runs_tests (lower (invoked part))) (re_split shell_operators command).

(** ** Which outputs failed *)

Definition _FAIL_MARKERS : rx :=
  alt_of [seq_of [WordBound; lit_i "FAILED"; WordBound]; seq_of [WordBound; lit_i "FAIL"; WordBound];
    seq_of [Plus digit; Plus blank; lit_i "failed"]; lit_i "--- FAIL"; lit_i "AssertionError";
    lit_i "Traceback (most recent call last)"; seq_of [lit_i "test"; Maybe (lit_i "s"); lit_i " failed"];
    seq_of [lit_i "exit code "; Chr (between 49 57)]; seq_of [lit_i "exit status "; Chr (between 49 57)];
    lit_i "npm ERR!"; lit_i "error: test failed"; lit_i "FAILURES!"; lit_i "BUILD FAILURE"].

Definition looks_failed (output : json) : bool :=
  searches _FAIL_MARKERS (match output with JStr s => s | v => enc Spaced v end).

(** ** Which subtasks are about tests *)

Definition optional_the : rx := Maybe (lit_i "the ").
Definition _VERIFY_KEYWORDS : rx :=
  seq_of [WordBound;
    alt_of [seq_of [lit_i "run "; Maybe (Alt (lit_i "all ") (lit_i "the ")); lit_i "test"; Maybe (lit_i "s")];
      lit_i "test suite"; seq_of [lit_i "unit test"; Maybe (lit_i "s")];
      seq_of [lit_i "integration test"; Maybe (lit_i "s")]; lit_i "pytest"; lit_i "go test"; lit_i "npm test";
      seq_of [lit_i "verify "; optional_the;
              alt_of [seq_of [lit_i "test"; Maybe (lit_i "s")]; lit_i "build"; lit_i "implementation"]];
      seq_of [lit_i "validate "; optional_the;
              alt_of [seq_of [lit_i "test"; Maybe (lit_i "s")]; lit_i "implementation"]];
      seq_of [lit_i "ensure test"; Maybe (lit_i "s"); lit_i " pass"]; lit_i "testing"];
    WordBound].

Definition is_verification_subtask (subtask : dict) : bool :=
  searches _VERIFY_KEYWORDS (join " " ((fun k => text_field k subtask) <$> ["title"; "description"; "name"])).

(** The value of AIFACTORY_TEST_EVIDENCE_GATE. *)
Definition gate_enabled (setting : option string) : bool :=
  negb (key_in ["off"; "0"; "false"; "no"] (lower (strip (default "" setting)))).

(** ** The ledger *)

Definition _COMPLETION_KEY : string := "subtask_completed".

(** Lines that are not blank; a file that is not text is [Undecodable]. *)
Inductive ledger :=
  | NoLedger
  | Undecodable
  | Lines (l : list (option json)).

(** [writable]: the directory can be made and the file appended to. *)
Definition _append (writable : bool) (entry : dict) (l : ledger) : ledger :=
  if writable then
    match l with
    | NoLedger => Lines [Some (JObj entry)]
    | Undecodable => Undecodable
    | Lines k => Lines (k ++ [Some (JObj entry)])
    end
  else l.

Definition record_test_run (writable : bool) (ts : json) (command : string) (output : json) : ledger -> ledger :=
  _append writable [("ts", ts); ("command", JStr (String.substring 0 500 command));
                    ("failed", JBool (looks_failed output))].
Definition record_subtask_completed (writable : bool) (ts : json) (subtask_id : string) : ledger -> ledger :=
  _append writable [("ts", ts); (_COMPLETION_KEY, JStr subtask_id)].

(** The entries read before the first line that is not JSON. *)
Fixpoint parsed (l : list (option json)) : list json :=
  match l with Some v :: l' => v :: parsed l' | _ => [] end.
Definition entries_of (l : ledger) : list json :=
  match l with Lines k => parsed k | NoLedger | Undecodable => [] end.

(** A marker that ends the window of [subtask_id]. *)
Definition closes (subtask_id : option string) (entry : dict) : bool :=
  match dget _COMPLETION_KEY entry with
  | Some m => truthy m && match subtask_id with None => true | Some s => negb (String.eqb (str_of m) s) end
  | None => false
  end.
Fixpoint window_start (subtask_id : option string) (start : nat) (l : list (nat * dict)) : nat :=
  match l with
  | [] => start
  | (i, entry) :: l' => window_start subtask_id (if closes subtask_id entry then S i else start) l'
  end.

Record Evidence := { ev_ran : bool; ev_last_failed : bool; ev_runs : nat; ev_last_command : json }.

Definition get_truthy (k : string) (d : dict) : bool :=
  match dget k d with Some v => truthy v | None => false end.

Definition read_test_evidence (subtask_id : option string) (l : ledger) : res Evidence :=
  let! entries := fold_res (fun acc v => with_get v (fun d => Ok (acc ++ [d]))) [] (entries_of l) in
  let start := window_start subtask_id 0 (enumerate entries) in
  let runs := keep (fun e => negb (dmem _COMPLETION_KEY e)) (drop start entries) in
  let last_ := match last runs with Some ((_ :: _) as d) => Some d | _ => None end in
  Ok {| ev_ran := list_truthy runs;
        ev_last_failed := match last_ with Some d => get_truthy "failed" d | None => false end;
        ev_runs := length runs;
        ev_last_command := match last_ with Some d => default JNull (dget "command" d) | None => JNull end |}.

(** The hook after a tool call: the test run it records; [session] is whether a build runs
    in the directory of the call. *)
Definition test_run_of (setting : option string) (session : bool) (input_data : dict) : option (string * json) :=
  if negb (gate_enabled setting) then None
  else if negb (match dget "tool_name" input_data with Some (JStr t) => String.eqb t "Bash" | _ => false end) then None
  else if negb session then None
  else match dget "tool_input" input_data with
       | Some (JObj tool_input) =>
           match dget "command" tool_input with
           | Some (JStr command) =>
               if is_test_command command then Some (command, default JNull (dget "tool_response" input_data))
               else None
           | _ => None
           end
       | _ => None
       end.
Definition test_evidence_posttool_hook (setting : option string) (session writable : bool) (ts : json)
    (input_data : dict) (l : ledger) : ledger :=
  match test_run_of setting session input_data with
  | Some (command, output) => record_test_run writable ts command output l
  | None => l
  end.

(** ** Which paths a subtask promises to serve *)

Definition path_char : rx := Chr (either is_word (one_of "-./{}")).
Definition _METHOD_PATH : rx :=
  seq_of [WordBound; alt_of (lit_i <$> ["GET"; "POST"; "PUT"; "PATCH"; "DELETE"; "HEAD"; "OPTIONS"]); WordBound;
    Plus blank; Group 1 (Cat (lit "/") (Star path_char))].
Definition http : rx := seq_of [lit "http"; Maybe (lit "s"); lit "://"].
Definition loopback : rx := alt_of [lit "localhost"; lit "127.0.0.1"; lit "0.0.0.0"].
Definition host_char : ascii -> bool :=
  other_than (either is_space (one_of (String quote_char (String backslash "'`")))).
Definition _URL_PATH : rx :=
  seq_of [http; Lazy (Chr host_char); Group 1 (Cat (lit "/") (Star path_char))].
Definition _LOCAL_URL_PATH : rx :=
  seq_of [http; loopback; Maybe (Cat (lit ":") (Plus digit)); Group 1 (Cat (lit "/") (Star path_char))].
Definition _BARE_PATH : rx :=
  seq_of [NotBehind (either is_word (one_of "./"));
    Group 1 (seq_of [lit "/"; Alt (lit_i "api") (Cat (lit_i "v") digit); lit "/"; Star path_char])].

(** [s.rstrip(chars)] *)
Definition rstrip_of (chars s : string) : string := String.rev (lstrip_of chars (String.rev s)).

Definition quote : string := String quote_char "".
Definition cleaned_path (raw : string) : string := strip (rstrip_of ("/.,;:)" +:+ quote +:+ "'") raw).

Definition add_path (found : list string) (raw : string) : list string :=
  let path := cleaned_path raw in
  if (1 <? String.length path) && negb (key_in found path) then found ++ [path] else found.
Definition http_paths (local_urls_only : bool) (subtask : dict) : list string :=
  let blob := enc Spaced (JObj subtask) in
  fold_left add_path
    (flat_map (fun pattern => default "" ∘ group_in 1 <$> hits pattern blob)
       [_METHOD_PATH; if local_urls_only then _LOCAL_URL_PATH else _URL_PATH; _BARE_PATH]) [].

(** ** Which tests reach the application *)

Definition _ENTRYPOINT_MODULES : list string :=
  ["main"; "app"; "application"; "server"; "api"; "wsgi"; "asgi"].
Definition _APP_NAMES : list string :=
  ["app"; "application"; "api"; "server"; "create_app"; "get_app"; "make_app"].

Definition gap : rx := Chr (one_of (String (ascii_of_nat 9) " ")).
Definition module_char : rx := Chr (either is_word (is_char ".")).
Definition _IMPORT_FROM : rx :=
  seq_of [LineStart; Star gap; lit "from"; Plus gap; Group 1 (Plus module_char); Plus gap; lit "import"; Plus gap;
    Group 2 (Plus (Chr (other_than (one_of (String newline_char "#")))))].
Definition _IMPORT_PLAIN : rx :=
  seq_of [LineStart; Star gap; lit "import"; Plus gap; Group 1 (Plus module_char)].
Definition _LOCAL_APP : rx :=
  seq_of [WordBound;
    alt_of (lit <$> ["FastAPI"; "Flask"; "Starlette"; "Quart"; "Sanic"; "Bottle"; "Falcon"; "Chalice"]);
    Star blank; lit "("].
Definition _LIVE_SERVER : rx := seq_of [http; loopback; Chr (one_of ":/")].

(** [module.rsplit(".", 1)[-1]] *)
Definition last_name (module : string) : string := List.last (split_on "." module) "".
(** The name an import binds, before its [as]. *)
Definition imported (part : string) : string :=
  let t := strip part in strip (match cut_at " as " t with Some (a, _) => a | None => t end).
Fixpoint without (chars s : string) : string :=
  match s with
  | EmptyString => ""
  | String c s' => if one_of chars c then without chars s' else String c (without chars s')
  end.

Definition pair_in (l : list (string * string)) (x : string * string) : bool :=
  existsb (fun y => String.eqb x.1 y.1 && String.eqb x.2 y.2) l.
Definition add_entrypoint (module : string) (found : list (string * string)) (part : string)
  : list (string * string) :=
  let name := imported part in
  if key_in _APP_NAMES name && negb (pair_in found (module, name)) then found ++ [(module, name)] else found.
Definition add_import (found : list (string * string)) (g : list (nat * string)) : list (string * string) :=
  let module := default "" (group_in 1 g) in
  if key_in _ENTRYPOINT_MODULES (last_name module)
  then fold_left (add_entrypoint module) (split_on "," (without "()" (default "" (group_in 2 g)))) found
  else found.
Definition app_entrypoints (text : string) : list (string * string) :=
  fold_left add_import (hits _IMPORT_FROM text) [].

Definition imports_app_entrypoint (text : string) : bool :=
  list_truthy (app_entrypoints text)
  || existsb (fun g => key_in _ENTRYPOINT_MODULES (last_name (default "" (group_in 1 g)))) (hits _IMPORT_PLAIN text).

Definition exercises_shipped_app (text : string) : bool :=
  searches _LIVE_SERVER text || (imports_app_entrypoint text && negb (searches _LOCAL_APP text)).

(** ** The tree of a project *)

(** A file that cannot be read has no content. *)
Inductive tree :=
  | TFile (content : option string)
  | TDir (entries : list (string * tree)).

Definition is_dir (t : tree) : bool := match t with TDir _ => true | TFile _ => false end.
Fixpoint entry_at (name : string) (l : list (string * tree)) : option tree :=
  match l with [] => None | (n, t) :: l' => if String.eqb name n then Some t else entry_at name l' end.
Fixpoint at_path (path : list string) (t : tree) : option tree :=
  match path with
  | [] => Some t
  | name :: path' =>
      match t with
      | TDir l => match entry_at name l with Some u => at_path path' u | None => None end
      | TFile _ => None
      end
  end.

Definition _SKIP_DIRS : list string :=
  [".git"; ".venv"; "venv"; "env"; "node_modules"; "__pycache__"; ".aifactory"; ".worktrees"; ".mypy_cache";
   ".pytest_cache"; ".ruff_cache"; "site-packages"; "dist"; "build"].
Definition _MAX_TEST_FILES : nat := 500.
Definition _MAX_TEST_BYTES : N := 400000.

Definition endswith (p s : string) : bool := startswith (String.rev p) (String.rev s).
Definition is_test_file (name : string) : bool :=
  (startswith "test_" name || endswith "_test.py" name) && endswith ".py" name.

(** [os.walk]: the files of a directory, then its directories in their order. *)
Fixpoint test_files (here : list string) (t : tree) : list (list string) :=
  match t with
  | TFile _ => []
  | TDir l =>
      ((fun e => here ++ [e.1]) <$> keep (fun e => negb (is_dir e.2) && is_test_file e.1) l)
      ++ flat_map (fun e => if key_in _SKIP_DIRS e.1 then [] else test_files (here ++ [e.1]) e.2) l
  end.
Definition _python_test_files (project : tree) : list (list string) :=
  firstn _MAX_TEST_FILES (test_files [] project).

Definition _read (project : tree) (path : list string) : string :=
  match at_path path project with
  | Some (TFile (Some text)) => if (_MAX_TEST_BYTES <? N.of_nat (String.length text))%N then "" else text
  | _ => ""
  end.

(** The directories above a path, from the nearest to the root. *)
Fixpoint parents (path : list string) : list (list string) :=
  match path with
  | [] => []
  | name :: path' => ((fun d => name :: d) <$> parents path') ++ [[]]
  end.
Definition newline : string := String newline_char "".
Definition _with_conftests (project : tree) (path : list string) : string :=
  join newline (_read project path :: ((fun d => _read project (d ++ ["conftest.py"])) <$> parents path)).

(** The entrypoint most of the test files import; the least in order among equals. *)
Definition distinct_pairs (l : list (string * string)) : list (string * string) :=
  fold_left (fun acc x => if pair_in acc x then acc else acc ++ [x]) l [].
Definition pair_le (x y : string * string) : bool :=
  if String.eqb x.1 y.1 then String.leb x.2 y.2 else String.leb x.1 y.1.
Definition discover_app_entrypoint (project : tree) : option string :=
  let all := flat_map (fun path => app_entrypoints (_with_conftests project path)) (_python_test_files project) in
  let count x := countb (fun y => String.eqb x.1 y.1 && String.eqb x.2 y.2) all in
  let le x y := (count y <? count x) || ((count y =? count x) && pair_le x y) in
  match distinct_pairs all with
  | [] => None
  | x :: l => let best := min_by le x l in Some (best.1 +:+ ":" +:+ best.2)
  end.

(** ** The gate on deliverables *)

(** The test files that mention a path: a file that reaches the application ends the
    search, the others are gathered. *)
Fixpoint hollow_tests (project : tree) (paths : list string) (files : list (list string)) : option (list string) :=
  match files with
  | [] => Some []
  | path :: files' =>
      let text := _read project path in
      if is_empty text || negb (existsb (fun p => contains p text) paths) then hollow_tests project paths files'
      else if exercises_shipped_app (_with_conftests project path) then None
      else cons (join "/" path) <$> hollow_tests project paths files'
  end.

(** An em dash, in UTF-8. *)
Definition dash : string := String (ascii_of_nat 226) (String (ascii_of_nat 128) (String (ascii_of_nat 148) "")).

Definition deliverable_refusal (paths hollow : list string) : string :=
  "Refused: this subtask delivers " +:+ join ", " (firstn 3 paths) +:+ ", but the only tests "
  +:+ "that mention it (" +:+ join ", " (firstn 3 (sorted_strings hollow)) +:+ ") never touch the shipped "
  +:+ "application. They import the feature module and assert against an app "
  +:+ "constructed inside the test file, so they would still pass if the route "
  +:+ "were never registered " +:+ dash +:+ " which is how a green suite shipped a 404 (#1111). "
  +:+ "Import the real application entrypoint (e.g. `from app.main import app`) "
  +:+ "and assert through it, register the route there if it is not registered "
  +:+ "yet, re-run the tests, then complete this subtask. If the route genuinely "
  +:+ "cannot be reached, mark this subtask 'failed' with the reason rather than "
  +:+ "reporting unverified work complete (RFC-0006).".

Definition deliverable_evidence_gap (subtask : dict) (project : tree) : option string :=
  let paths := http_paths false subtask in
  if list_truthy paths then
    match hollow_tests project paths (_python_test_files project) with
    | Some ((_ :: _) as hollow) => Some (deliverable_refusal paths hollow)
    | _ => None
    end
  else None.

(** ** The examples of the module *)

Example test_commands :
  is_test_command "pytest -q" && is_test_command "cd api && go test ./..." && is_test_command "python -m pytest tests/"
  && negb (is_test_command "pip install pytest") && negb (is_test_command "cat tests/test_foo.py")
  && negb (is_test_command "echo running tests") && negb (is_test_command "") = true.
Proof. by vm_compute. Qed.

Example verification_subtasks :
  is_verification_subtask [("title", JStr "Run all tests")]
  && is_verification_subtask [("description", JStr "verify the implementation with pytest")]
  && negb (is_verification_subtask [("title", JStr "Create strutil module")]) = true.
Proof. by vm_compute. Qed.

Example failures :
  looks_failed (JStr "=== 2 failed, 1 passed ===") && looks_failed (JStr "--- FAIL: TestX")
  && negb (looks_failed (JStr "=== 5 passed in 0.1s ===")) = true.
Proof. by vm_compute. Qed.

Example promised_paths :
  http_paths false [("description", JStr "Add POST /api/quote")] = ["/api/quote"]
  /\ http_paths false [("verification", JObj [("url", JStr "http://localhost:5000/api/x")])] = ["/api/x"]
  /\ http_paths false [("description", JStr "Create strutil.slugify")] = []
  /\ http_paths false [("description", JStr "see https://docs.example.com/latest/ for rounding")] = ["/latest"]
  /\ http_paths true [("description", JStr "see https://docs.example.com/latest/ for rounding")] = []
  /\ http_paths true [("verification", JObj [("url", JStr "http://localhost:5000/api/x")])] = ["/api/x"].
Proof. by vm_compute. Qed.

Definition hollow_source : string :=
  join newline ["from fastapi import FastAPI"; "from fastapi.testclient import TestClient";
    "from app.vat_quote import router"; "_app = FastAPI()"; "_app.include_router(router)";
    "client = TestClient(_app)"; "def test_q():"; "    assert client.post('/api/quote').status_code == 200"].
Definition honest_source : string :=
  join newline ["from fastapi.testclient import TestClient"; "from app.main import app";
    "client = TestClient(app)"; "def test_q():"; "    assert client.post('/api/quote').status_code == 200"].
Definition project_with (files : list (string * string)) : tree :=
  TDir [("tests", TDir ((fun f => (f.1, TFile (Some f.2))) <$> files))].

Example entrypoints :
  app_entrypoints honest_source = [("app.main", "app")] /\ app_entrypoints hollow_source = []
  /\ imports_app_entrypoint "import server" = true
  /\ exercises_shipped_app hollow_source = false /\ exercises_shipped_app honest_source = true
  /\ discover_app_entrypoint (project_with [("test_vat_quote.py", hollow_source)]) = None
  /\ discover_app_entrypoint (project_with [("test_vat_quote.py", hollow_source); ("test_api.py", honest_source)])
     = Some "app.main:app".
Proof. by vm_compute. Qed.

Example deliverables :
  let subtask := [("id", JStr "1.1"); ("description", JStr "Add POST /api/quote endpoint")] in
  (exists why, deliverable_evidence_gap subtask (project_with [("test_vat_quote.py", hollow_source)]) = Some why)
  /\ deliverable_evidence_gap subtask (project_with [("test_vat_quote.py", hollow_source); ("test_api.py", honest_source)])
     = None.
Proof. split; [eexists|]; by vm_compute. Qed.

(** A runner that reports no failures in its summary is read as failed. *)
Lemma green_cargo_run_looks_failed :
  is_test_command "cargo test" = true
  /\ looks_failed (JStr "test result: ok. 5 passed; 0 failed; 0 ignored; 0 measured") = true.
Proof. by vm_compute. Qed.

(** A ledger with a broken line is read up to it: the runs after it are not seen, those
    before it count for every subtask. *)
Lemma broken_line_hides_the_rest command : 
  let old := [Some (JObj [("command", JStr command); ("failed", JBool false)]); None;
              Some (JObj [(_COMPLETION_KEY, JStr "1.1")]);
              Some (JObj [("command", JStr "pytest"); ("failed", JBool true)])] in
  read_test_evidence (Some "1.2") (Lines old)
  = Ok {| ev_ran := true; ev_last_failed := false; ev_runs := 1; ev_last_command := JStr command |}.
Proof. reflexivity. Qed.

(** ** The window of a subtask

    The reference is a log of what was recorded: runs, and completions the gate accepted. *)

Inductive act :=
  | Ran (command : string) (output : json)
  | Done (subtask_id : string).

(** What follows the last element with [f]; everything when there is none. *)
Fixpoint since {A} (f : A -> bool) (l : list A) : list A :=
  match l with
  | [] => []
  | x :: l' => if existsb f l' then since f l' else if f x then l' else l
  end.

Definition ends_window (subtask_id : string) (a : act) : bool :=
  match a with
  | Ran _ _ => false
  | Done s => negb (is_empty s) && negb (String.eqb s subtask_id)
  end.
Definition run_of (a : act) : option (string * json) :=
  match a with Ran c o => Some (c, o) | Done _ => None end.
(** The runs recorded while the subtask was worked on, the oldest first. *)
Definition own_runs (subtask_id : string) (log : list act) : list (string * json) :=
  omap run_of (since (ends_window subtask_id) log).

Definition recorded (l : ledger) (x : json * act) : ledger :=
  match x.2 with
  | Ran c o => record_test_run true x.1 c o l
  | Done s => record_subtask_completed true x.1 s l
  end.
Definition ledger_of (log : list (json * act)) : ledger := fold_left recorded log NoLedger.

Lemma since_app {A} (f : A -> bool) (l k : list A) : existsb f k = true -> since f (l ++ k) = since f k.
Proof.
  intros H. induction l as [|x l IH]; [done|]. cbn [app since]. by rewrite existsb_app, H, orb_true_r.
Qed.

Lemma since_none {A} (f : A -> bool) (l : list A) : existsb f l = false -> since f l = l.
Proof. destruct l as [|x l]; [done|]. cbn. by intros [-> ->]%orb_false_iff. Qed.

(** The window is the suffix after the last element with [f]. *)
Lemma since_spec {A} (f : A -> bool) (l : list A) :
  existsb f (since f l) = false
  /\ exists before, l = before ++ since f l /\ (before = [] \/ exists b x, before = b ++ [x] /\ f x = true).
Proof.
  induction l as [|x l (N & b & E & B)]; [by split; [|exists []; split; [|left]]|]. cbn [since].
  destruct (existsb f l) eqn:X.
  - split; [done|]. exists (x :: b). split; [cbn; by f_equal|]. right. destruct B as [->|(c & y & -> & F)].
    + cbn in E. rewrite <- E in N. congruence.
    + by exists (x :: c), y.
  - destruct (f x) eqn:F.
    + split; [done|]. exists [x]. split; [done|]. right. by exists [], x.
    + split; [by cbn; rewrite F|]. exists []. split; [done | by left].
Qed.

Lemma window_start_since sid l : drop (window_start sid 0 (enumerate l)) l = since (closes sid) l.
Proof.
  assert (G : forall k s l, window_start sid s (zip (seq k (length l)) l)
              = if existsb (closes sid) l then k + (length l - length (since (closes sid) l)) else s).
  { assert (Le : forall k, length (since (closes sid) k) <= length k).
    { intros k. destruct (since_spec (closes sid) k) as (_ & b & E & _).
      rewrite E at 2. rewrite length_app. lia. }
    intros k s k'. revert k s. induction k' as [|x k' IH]; intros k s; [done|].
    cbn [length seq zip zip_with window_start existsb since]. rewrite (IH (S k)). pose proof (Le k') as L.
    destruct (existsb (closes sid) k'); [rewrite orb_true_r; cbn [length]; lia|].
    rewrite orb_false_r. destruct (closes sid x); [cbn [length]; lia | done]. }
  unfold enumerate. rewrite G. destruct (existsb (closes sid) l) eqn:X.
  - destruct (since_spec (closes sid) l) as (_ & b & E & _). cbn [Nat.add].
    rewrite E at 1 3. rewrite length_app, Nat.add_sub. apply drop_app_length.
  - symmetry. by apply since_none.
Qed.

Definition entry_of (x : json * act) : dict :=
  match x.2 with
  | Ran c o => [("ts", x.1); ("command", JStr (String.substring 0 500 c)); ("failed", JBool (looks_failed o))]
  | Done s => [("ts", x.1); (_COMPLETION_KEY, JStr s)]
  end.

Lemma entries_of_log log : entries_of (ledger_of log) = JObj ∘ entry_of <$> log.
Proof.
  unfold ledger_of. assert (P : forall l k, entries_of (fold_left recorded l (Lines (Some <$> k)))
                               = k ++ (JObj ∘ entry_of <$> l)).
  { induction l as [|[ts a] l IH]; intros k.
    - cbn. rewrite app_nil_r. induction k as [|v k IHk]; [done|]. cbn. by f_equal.
    - cbn [fold_left]. replace (recorded (Lines (Some <$> k)) (ts, a)) with (Lines (Some <$> (k ++ [JObj (entry_of (ts, a))]))).
      { rewrite IH. by rewrite <- app_assoc. }
      rewrite fmap_app. by destruct a. }
  destruct log as [|[ts a] log]; [done|]. cbn [fold_left].
  replace (recorded NoLedger (ts, a)) with (Lines (Some <$> [JObj (entry_of (ts, a))])) by (by destruct a).
  apply P.
Qed.

Lemma fold_objects l acc :
  fold_res (fun acc v => with_get v (fun d => Ok (acc ++ [d]))) acc (JObj <$> l) = Ok (acc ++ l).
Proof.
  revert acc. induction l as [|d l IH]; intros acc; cbn; [by rewrite app_nil_r|].
  rewrite IH. by rewrite <- app_assoc.
Qed.

Lemma closes_entry sid x : closes (Some sid) (entry_of x) = ends_window sid x.2.
Proof. destruct x as [ts [c o|s]]; [done|]. cbn. by destruct s. Qed.

Lemma since_fmap {A B} (g : A -> B) (f : B -> bool) (h : A -> bool) l :
  (forall x, f (g x) = h x) -> since f (g <$> l) = g <$> since h l.
Proof.
  intros H. assert (X : forall l, existsb f (g <$> l) = existsb h l).
  { induction l0 as [|x k IH]; [done|]. cbn. by rewrite H, IH. }
  induction l as [|x l IH]; [done|]. cbn [fmap list_fmap since]. change (list_fmap _ _ g l) with (g <$> l).
  rewrite X, H. destruct (existsb h l); [done|]. by destruct (h x).
Qed.

Definition is_run (x : json * act) : bool := match x.2 with Ran _ _ => true | Done _ => false end.

Lemma keep_runs l : keep (fun e => negb (dmem _COMPLETION_KEY e)) (entry_of <$> l) = entry_of <$> keep is_run l.
Proof.
  unfold keep. induction l as [|[ts a] l IH]; [done|]. cbn [fmap list_fmap List.filter].
  change (list_fmap _ _ entry_of l) with (entry_of <$> l). rewrite IH. by destruct a.
Qed.

Lemma last_run l :
  last (omap run_of (snd <$> l)) = (match last (keep is_run l) with Some x => run_of x.2 | None => None end).
Proof.
  induction l as [|[ts [c o|s]] l IH] using rev_ind; [done|..]; unfold keep in *;
    rewrite fmap_app, omap_app, List.filter_app; cbn; by rewrite ?last_snoc, ?app_nil_r.
Qed.

Lemma read_log subtask_id log :
  let runs := own_runs subtask_id (snd <$> log) in
  read_test_evidence (Some subtask_id) (ledger_of log)
  = Ok {| ev_ran := list_truthy runs;
          ev_last_failed := match last runs with Some (_, output) => looks_failed output | None => false end;
          ev_runs := length runs;
          ev_last_command := match last runs with
                             | Some (command, _) => JStr (String.substring 0 500 command)
                             | None => JNull
                             end |}.
Proof.
  cbn zeta. unfold read_test_evidence. rewrite entries_of_log, list_fmap_compose, fold_objects.
  cbn [mbind res_bind app]. rewrite window_start_since, (since_fmap entry_of _ (ends_window subtask_id ∘ snd))
    by (intros; apply closes_entry).
  rewrite keep_runs. unfold own_runs.
  rewrite (since_fmap snd _ (ends_window subtask_id ∘ snd)) by done. rewrite last_run.
  set (l := since _ log). assert (N : length (omap run_of (snd <$> l)) = length (keep is_run l)).
  { unfold keep. clearbody l. induction l as [|[ts [c o|s]] l IH]; [done|cbn; by f_equal|done]. }
  assert (T : list_truthy (entry_of <$> keep is_run l) = list_truthy (omap run_of (snd <$> l))).
  { by destruct (keep is_run l), (omap run_of (snd <$> l)). }
  rewrite T, length_fmap, <- N, fmap_last. f_equal.
  destruct (last (keep is_run l)) as [[ts a]|] eqn:L; [|done].
  assert (I : (ts, a) ∈ keep is_run l) by (by apply last_Some_elem_of).
  apply elem_of_keep in I as [_ R]. by destruct a.
Qed.

(** C14 (refinement): The evidence read for a subtask is what a log of the build says of it:
    the test runs recorded after the last completion of another subtask, how many they are,
    whether the last of them failed, and its command. *)
Theorem evidence_is_of_the_subtask subtask_id log :
  let runs := own_runs subtask_id (snd <$> log) in
  read_test_evidence (Some subtask_id) (ledger_of log)
  = Ok {| ev_ran := list_truthy runs;
          ev_last_failed := match last runs with Some (_, output) => looks_failed output | None => false end;
          ev_runs := length runs;
          ev_last_command := match last runs with
                             | Some (command, _) => JStr (String.substring 0 500 command)
                             | None => JNull
                             end |}.
Proof. apply read_log. Qed.

(** ** The loop that peels wrappers ends *)

Definition shrinks (s t : string) : Prop := t = s \/ String.length t < String.length s.

Lemma shrinks_trans s t u : shrinks s t -> shrinks t u -> shrinks s u.
Proof. unfold shrinks. intros [->|H] [->|K]; auto; right; lia. Qed.

Lemma ends_shrinks s t : ends_in s t -> shrinks s t.
Proof.
  intros [w ->]. destruct w as [|c w]; [by left|]. right. rewrite string_app_length. cbn. lia.
Qed.

Lemma length_rev_text s : String.length (String.rev s) = String.length s.
Proof.
  induction s as [|c s IH]; [done|]. change (String.rev (String c s)) with (String.rev_app s (String c "")).
  rewrite rev_app_eq, string_app_length, IH. cbn. lia.
Qed.

Lemma strip_shrinks s : shrinks s (strip s).
Proof.
  assert (L : forall s, shrinks s (lstrip s)) by (intros t; by apply ends_shrinks, lstrip_suffix).
  unfold strip. apply (shrinks_trans _ (lstrip s)); [done|]. set (t := lstrip s).
  destruct (L (String.rev t)) as [E|Lt].
  - left. by rewrite E, string_rev_involutive.
  - right. rewrite length_rev_text in *. lia.
Qed.

Lemma after_prefix_ends p s r : after_prefix p s = Some r -> ends_in s r.
Proof.
  revert s. induction p as [|c p IH]; intros s; cbn; [intros [= ->]; by exists ""|].
  destruct s as [|d s]; [done|]. destruct (Ascii.eqb c d); [|done]. intros H.
  destruct (IH _ H) as [w ->]. by exists (String d w).
Qed.

Lemma peel_once_shrinks s : shrinks s (peel_once s).
Proof.
  assert (D : shrinks s (drop_match _LEADING_WRAPPERS s)).
  { unfold drop_match. destruct (re_match _LEADING_WRAPPERS s) as [q|] eqn:M; [|by left].
    apply ends_shrinks. exact (first_match_ends _ (start s) q M). }
  unfold peel_once. pose proof (shrinks_trans _ _ _ D (strip_shrinks _)) as S.
  destruct (after_prefix _ _) as [r|] eqn:A; [|done].
  eapply shrinks_trans; [exact S|]. by eapply ends_shrinks, after_prefix_ends.
Qed.

(** Peeling the wrappers off a command ends: more turns than the command
    has characters change nothing, and what is left has no wrapper any more. *)
Theorem peeling_ends s extra :
  peel (S (String.length s) + extra) s = peel (S (String.length s)) s
  /\ (is_empty (peel (S (String.length s)) s) = true
      \/ peel_once (peel (S (String.length s)) s) = peel (S (String.length s)) s).
Proof.
  assert (G : forall n s, String.length s < n ->
    (forall extra, peel (n + extra) s = peel n s) /\ (is_empty (peel n s) = true \/ peel_once (peel n s) = peel n s)).
  { clear. induction n as [|n IH]; intros s L; [lia|]. cbn [Nat.add peel].
    destruct (is_empty s) eqn:E; [split; [done | by left]|].
    destruct (String.eqb_spec (peel_once s) s) as [Q|Q]; [split; [done|]; right; by rewrite Q|].
    destruct (peel_once_shrinks s) as [|Lt]; [done|]. apply IH. lia. }
  destruct (G (S (String.length s)) s) as [F P]; [lia|]. split; [apply F | exact P].
Qed.

(** ** What the gate on deliverables lets through *)

Definition mentions (project : tree) (paths : list string) (file : list string) : bool :=
  let text := _read project file in negb (is_empty text) && existsb (fun p => contains p text) paths.

Lemma hollow_cases project paths files :
  match hollow_tests project paths files with
  | None => exists f, f ∈ files /\ mentions project paths f = true
                      /\ exercises_shipped_app (_with_conftests project f) = true
  | Some hollow => hollow = join "/" <$> keep (mentions project paths) files
                   /\ forall f, f ∈ files -> mentions project paths f = true ->
                        exercises_shipped_app (_with_conftests project f) = false
  end.
Proof.
  induction files as [|f files IH]; [split; [done|]; intros f H; by apply elem_of_nil in H|].
  cbn [hollow_tests]. unfold keep in *. cbn [List.filter].
  destruct (is_empty (_read project f) || negb (existsb (fun p => contains p (_read project f)) paths)) eqn:M.
  - assert (N : mentions project paths f = false)
      by (unfold mentions; by rewrite <- (negb_involutive (existsb _ _)), <- negb_orb, M).
    rewrite N. destruct (hollow_tests project paths files).
    + destruct IH as [E A]. split; [done|]. intros g [->|Hg]%elem_of_cons Mg; [congruence | by apply A].
    + destruct IH as (g & Hg & Mg & Xg). exists g. split; [by apply list_elem_of_further | done].
  - assert (N : mentions project paths f = true)
      by (unfold mentions; by rewrite <- (negb_involutive (existsb _ _)), <- negb_orb, M).
    destruct (exercises_shipped_app (_with_conftests project f)) eqn:X.
    + exists f. split; [apply list_elem_of_here | done].
    + rewrite N. destruct (hollow_tests project paths files); cbn.
      * destruct IH as [-> A]. split; [done|]. intros g [->|Hg]%elem_of_cons Mg; [done | by apply A].
      * destruct IH as (g & Hg & Mg & Xg). exists g. split; [by apply list_elem_of_further | done].
Qed.

(** A subtask passes when it promises no path, when no test file mentions one of its paths,
    or when one that does reaches the application. *)
Lemma deliverable_None subtask project :
  deliverable_evidence_gap subtask project = None <->
  http_paths false subtask = []
  \/ (forall f, f ∈ _python_test_files project -> mentions project (http_paths false subtask) f = false)
  \/ exists f, f ∈ _python_test_files project /\ mentions project (http_paths false subtask) f = true
               /\ exercises_shipped_app (_with_conftests project f) = true.
Proof.
  unfold deliverable_evidence_gap. set (paths := http_paths false subtask). clearbody paths.
  set (files := _python_test_files project). clearbody files.
  pose proof (hollow_cases project paths files) as H.
  destruct paths as [|p paths]; [by split; [left|]|]. cbn [list_truthy].
  destruct (hollow_tests project (p :: paths) files) as [[|h hollow]|]; [..|by split; [right; right|]].
  - split; [|done]. intros _. right. left. intros f Hf. destruct H as [E _].
    destruct (mentions project (p :: paths) f) eqn:M; [|done].
    assert (I : f ∈ keep (mentions project (p :: paths)) files) by (by apply elem_of_keep).
    by destruct (keep _ files); [apply elem_of_nil in I|].
  - split; [done|]. intros [|[N|(f & Hf & M & X)]]; [done|..].
    + destruct H as [E _]. exfalso. unfold keep in E. by rewrite keep_none in E.
    + destruct H as [_ A]. by rewrite A in X.
Qed.
