(* ===== verification/CompletionGate.v ===== *)
(** What a subtask has to pass to be called completed: the checks of its files
    (backend/agents/testing_evidence.py) and of its pipeline (pipeline_evidence.py), the
    gate (completion_gate.py), and the two engines that ask it: the tool of the serial coder
    (tools_pkg/tools/subtask.py) and the waves (gated_mark_complete of
    parallel_integration.py with the writers of agents/utils.py).

    The project is the directory [root] with the tree [project]; [path_exists] is
    Path.exists, which follows paths out of the tree. *)
From S2P Require Import Prelude PyData JsonText PlanData PlanLogic GitPins Regex ExecContext CommandValidators WriteGuard Evidence.
Local Open Scope nat_scope.

(** ** testing_evidence.py *)

Definition _TESTING_SERVICES : list string := ["testing"; "test"; "qa"].
Definition _DOC_SUFFIXES : list string := [".md"; ".rst"; ".txt"; ".adoc"].
Definition _DOC_DIRS : list string := ["docs/"; "doc/"; "documentation/"].

Definition is_testing_subtask (subtask : dict) : bool :=
  key_in _TESTING_SERVICES (lower (strip (text_or_empty "service" subtask))).

(** [[str(p).strip() for p in value if str(p).strip()]] for a list. *)
Definition file_names (v : option json) : list string :=
  match v with
  | Some (JList l) => keep (fun s => negb (is_empty s)) (strip ∘ str_of <$> l)
  | _ => []
  end.
Definition declared_files (subtask : dict) : list string :=
  flat_map (fun k => file_names (dget k subtask)) ["files_to_create"; "files_to_modify"].

Definition _is_doc (path : string) : bool :=
  let low := lower (slash_backslashes path) in
  existsb (fun s => endswith s low) _DOC_SUFFIXES || existsb (fun d => startswith d low) _DOC_DIRS.

(** [str(subtask.get("id", "")) or "?"] *)
Definition shown_id (subtask : dict) : string :=
  let s := text_field "id" subtask in if is_empty s then "?" else s.

Definition prose_refusal (subtask_id : string) (declared : list string) : string :=
  "Refused: subtask '" +:+ subtask_id +:+ "' is the plan's testing work, but every "
  +:+ "file it declares is documentation (" +:+ join ", " (sorted_strings declared) +:+ "). A design document cannot "
  +:+ "satisfy criteria about test lanes being scaffolded and RUNNABLE " +:+ dash +:+ " this "
  +:+ "is the same defect the CI/CD subtask had, where a 278-line strategy "
  +:+ "document shipped and QA rejected sign-off. Write the actual tests into "
  +:+ "the repo's test directory (follow the layout the repo already uses) and "
  +:+ "run them, then mark this completed. Keep the strategy document if it is "
  +:+ "useful; it is not the deliverable. If this repo genuinely has no place "
  +:+ "to put tests, mark this subtask 'failed' with that reason " +:+ dash +:+ " do NOT "
  +:+ "report it completed on prose (RFC-0006).".
Definition missing_refusal (subtask_id : string) (code : list string) : string :=
  "Refused: subtask '" +:+ subtask_id +:+ "' promised test file(s) that do not "
  +:+ "exist: " +:+ join ", " (sorted_strings code) +:+ ". Create them (or the equivalent tests in the repo's "
  +:+ "actual test layout) and run the suite before completing this subtask. "
  +:+ "If the tests belong somewhere else, put them there and say so in the "
  +:+ "completion note; if they cannot be written, mark this subtask 'failed' "
  +:+ "with the reason rather than reporting it completed.".

(** ** pipeline_evidence.py *)

Definition _CICD_SERVICES : list string := ["cicd"; "ci/cd"; "ci-cd"].
Definition _CICD_TEXT : rx :=
  alt_of [seq_of [WordBound; lit_i "ci/cd"; WordBound]; seq_of [WordBound; lit_i "ci pipeline"; WordBound];
          seq_of [WordBound; lit_i "github actions"; WordBound]].
Definition _DEFAULT_CI_PATH : string := ".github/workflows/ci.yml".
Definition _MAX_CI_BYTES : N := 200000.

Definition _STAGE_EVIDENCE : list (string * list string) :=
  [("lint", ["lint"; "ruff"; "eslint"; "flake8"; "pylint"; "golangci"; "clippy"; "gofmt"; "black"; "prettier";
             "rubocop"; "checkstyle"]);
   ("test", ["test"; "pytest"; "jest"; "vitest"; "mocha"; "rspec"; "phpunit"; "gotestsum"; "nextest"; "tox"]);
   ("build", ["build"; "docker build"; "compile"; "package"; "bundle"; "wheel"; "buildx"; "sdist"]);
   ("security scan", ["security"; "trivy"; "bandit"; "pip-audit"; "npm audit"; "codeql"; "semgrep"; "snyk";
             "gitleaks"; "grype"; "osv-scanner"; "dependency-audit"; "dependency-review"; "sast"; "secret-scan";
             "safety"; "govulncheck"; "cargo audit"])].
Definition _STAGE_DEMAND : list (string * list string) :=
  [("lint", ["lint"; "static analysis"; "formatting check"]);
   ("test", ["test"; "coverage"]);
   ("build", ["build"; "compile"; "package"; "container image"]);
   ("security scan", ["security scan"; "security-scan"; "securityscan"; "vulnerability"; "dependency audit";
             "dependency-audit"; "sast"; "secret scan"; "secret-scan"; "scanned"])].

Definition _subtask_text (subtask : dict) : string :=
  lower (join newline (((fun k => text_or_empty k subtask) <$> ["id"; "title"; "name"; "description"])
           ++ match dget "acceptance_criteria" subtask with Some (JList l) => str_of <$> l | _ => [] end)).
Definition is_cicd_subtask (subtask : dict) : bool :=
  key_in _CICD_SERVICES (lower (strip (text_or_empty "service" subtask)))
  || searches _CICD_TEXT (_subtask_text subtask).

Definition says (text : string) (phrases : list string) : bool := existsb (fun p => contains p text) phrases.
Definition demanded_stages (subtask : dict) : list string :=
  let text := _subtask_text subtask in fst <$> keep (fun x => says text x.2) _STAGE_DEMAND.

(** [_CI_GLOBS]: a directory with the names it takes there. *)
Definition _CI_GLOBS : list (list string * (string -> bool)) :=
  [([".github"; "workflows"], endswith ".yml"); ([".github"; "workflows"], endswith ".yaml");
   ([], String.eqb ".gitlab-ci.yml"); ([], String.eqb "azure-pipelines.yml");
   ([".circleci"], String.eqb "config.yml"); ([], String.eqb "bitbucket-pipelines.yml");
   ([], String.eqb "Jenkinsfile")].
Definition glob (project : tree) (dir : list string) (takes : string -> bool) : list (list string) :=
  match at_path dir project with
  | Some (TDir l) =>
      (fun name => dir ++ [name]) <$> sorted_strings (fst <$> keep (fun e => negb (is_dir e.2) && takes e.1) l)
  | _ => []
  end.
Definition path_eqb (p q : list string) : bool := bool_decide (p = q).
Definition add_new (found : list (list string)) (p : list string) : list (list string) :=
  if existsb (path_eqb p) found then found else found ++ [p].
Definition ci_files (project : tree) : list (list string) :=
  fold_left add_new (flat_map (fun g => glob project g.1 g.2) _CI_GLOBS) [].

Definition readable (project : tree) (p : list string) : option string :=
  match at_path p project with
  | Some (TFile (Some text)) => if (_MAX_CI_BYTES <? N.of_nat (String.length text))%N then None else Some text
  | _ => None
  end.
Definition _pipeline_text (project : tree) (paths : list (list string)) : string :=
  lower (join newline (omap (readable project) paths)).

Definition evidence_for (stage : string) : list string :=
  match List.find (fun x => String.eqb x.1 stage) _STAGE_EVIDENCE with Some (_, l) => l | None => [] end.
Definition missing_stages (subtask : dict) (project : tree) : list string :=
  let text := _pipeline_text project (ci_files project) in
  keep (fun stage => negb (says text (evidence_for stage))) (demanded_stages subtask).

Definition no_pipeline_refusal (wanted : list string) : string :=
  "Refused: this is the CI/CD subtask and it promises "
  +:+ join ", " wanted +:+ " stages, but this repo has no pipeline file at "
  +:+ "all. Create `" +:+ _DEFAULT_CI_PATH +:+ "` (or the pipeline file for this "
  +:+ "repo's CI system) and wire those stages into it. A design document "
  +:+ "under docs/ satisfies none of the acceptance criteria, which are "
  +:+ "about stages that RUN on push and PR (#1113). If the pipeline "
  +:+ "genuinely cannot be written, mark this subtask 'failed' with the "
  +:+ "reason rather than reporting unverified work complete (RFC-0006).".
Definition no_stage_refusal (wanted names gaps : list string) : string :=
  "Refused: this is the CI/CD subtask and it promises " +:+ join ", " wanted
  +:+ " stages, but the pipeline (" +:+ join ", " names +:+ ") has no " +:+ join ", " gaps +:+ " stage. Edit "
  +:+ "the pipeline file itself so those stages run on push and PR " +:+ dash +:+ " that is "
  +:+ "what the acceptance criteria ask for, and a document describing the "
  +:+ "pipeline satisfies none of them (#1113: this exact subtask shipped a "
  +:+ "343-line design doc and an unchanged ci.yml, twice). Then re-run the "
  +:+ "linters/tests and complete this subtask, or mark it 'failed' with the "
  +:+ "reason.".

(** ** The gate *)

Section Gate.
Context (setting : option string) (root : string) (project : tree) (path_exists : string -> bool).

(** [root / p] *)
Definition below_root (p : string) : string := path_str (path_join root p).

Definition testing_deliverable_gap (subtask : dict) : option string :=
  if negb (is_testing_subtask subtask) then None
  else
    let declared := declared_files subtask in
    if negb (list_truthy declared) then None
    else
      let code := keep (fun p => negb (_is_doc p)) declared in
      if negb (list_truthy code) then Some (prose_refusal (shown_id subtask) declared)
      else if negb (existsb (fun p => path_exists (below_root p)) code)
      then Some (missing_refusal (shown_id subtask) code)
      else None.

Definition pipeline_evidence_gap (subtask : dict) : option string :=
  if negb (is_cicd_subtask subtask) then None
  else
    let wanted := demanded_stages subtask in
    if negb (list_truthy wanted) then None
    else
      let present := ci_files project in
      if negb (list_truthy present) then Some (no_pipeline_refusal wanted)
      else
        let gaps := missing_stages subtask project in
        if negb (list_truthy gaps) then None
        else Some (no_stage_refusal wanted ((fun p => below_root (join "/" p)) <$> firstn 3 present) gaps).

Definition not_run_refusal (subtask_id : string) : string :=
  "Refused: subtask '" +:+ subtask_id +:+ "' is a test/verification subtask, "
  +:+ "but no test command ran while it was being worked. A run recorded "
  +:+ "under an EARLIER subtask does not count for this one. Run the tests "
  +:+ "now (e.g. pytest / go test / npm test) " +:+ dash +:+ " the build records the run "
  +:+ "automatically " +:+ dash +:+ " then mark it completed. If this repo has NO "
  +:+ "runnable test environment, mark this subtask 'failed' with a note "
  +:+ "saying tests could not be executed. Do NOT report it completed "
  +:+ "unverified (RFC-0006: never claim verification that did not happen).".
Definition failed_run_refusal (subtask_id : string) (last_command : json) : string :=
  "Refused: the last recorded test run failed (command: "
  +:+ json_repr last_command +:+ "). Fix the failures and re-run the "
  +:+ "tests green before completing subtask '" +:+ subtask_id +:+ "', or mark it "
  +:+ "'failed' with the reason. Do NOT report it completed over failing "
  +:+ "tests.".

Definition verification_gap (subtask : dict) (evidence : Evidence) : option string :=
  if is_verification_subtask subtask then
    if negb (ev_ran evidence) then Some (not_run_refusal (shown_id subtask))
    else if ev_last_failed evidence then Some (failed_run_refusal (shown_id subtask) (ev_last_command evidence))
    else None
  else None.

(** The first refusal of the gates, in their order; every refusal is a text. *)
Fixpoint first_gap (gaps : list (option string)) : option string :=
  match gaps with
  | [] => None
  | Some gap :: gaps' => if is_empty gap then first_gap gaps' else Some gap
  | None :: gaps' => first_gap gaps'
  end.

Definition completion_refusal (subtask : dict) (evidence : Evidence) : option string :=
  if negb (gate_enabled setting) then None
  else
    match first_gap [pipeline_evidence_gap subtask; testing_deliverable_gap subtask;
                     deliverable_evidence_gap subtask project] with
    | Some gap => Some gap
    | None => verification_gap subtask evidence
    end.

(** ** The tool of the serial coder

    The plan is edited as the document it is.  What the tool writes: the plan file and the
    ledger next to it. *)

Record store := { s_plan : file; s_ledger : ledger }.

(** What the tool answers: a text, or the text of an error. *)
Inductive reply :=
  | Said (text : string)
  | InvalidJson
  | UpdateError (e : exn).

Definition valid_statuses : list string := ["pending"; "in_progress"; "completed"; "failed"].

(** The first subtask with an id, edited in place: its new record, and the list around it. *)
Fixpoint edit_subtask (subtask_id : string) (f : dict -> dict) (l : list json) : res (option (dict * list json)) :=
  match l with
  | [] => Ok None
  | st :: l' =>
      with_get st (fun d =>
        if match dget "id" d with Some (JStr s) => String.eqb s subtask_id | _ => false end
        then Ok (Some (f d, JObj (f d) :: l'))
        else let! r := edit_subtask subtask_id f l' in
             Ok ((fun x => (x.1, st :: x.2)) <$> r))
  end.
Fixpoint edit_phase (subtask_id : string) (f : dict -> dict) (l : list json) : res (option (dict * list json)) :=
  match l with
  | [] => Ok None
  | ph :: l' =>
      with_get ph (fun d =>
        let! subtasks := iter_field "subtasks" d in
        let! r := edit_subtask subtask_id f subtasks in
        match r with
        | Some (st, subtasks') => Ok (Some (st, JObj (dset "subtasks" (JList subtasks') d) :: l'))
        | None => let! r := edit_phase subtask_id f l' in Ok ((fun x => (x.1, ph :: x.2)) <$> r)
        end)
  end.
Definition edit_plan (subtask_id : string) (f : dict -> dict) (plan : json) : res (option (dict * dict)) :=
  with_get plan (fun d =>
    let! phases := iter_field "phases" d in
    let! r := edit_phase subtask_id f phases in
    Ok ((fun x => (x.1, dset "phases" (JList x.2) d)) <$> r)).

(** What the tool writes into the record. *)
Definition stamped (now status notes : string) (st : dict) : dict :=
  let st := dset "status" (JStr status) st in
  let st := dset_if (negb (is_empty notes)) "notes" (JStr notes) st in
  let st := dset "updated_at" (JStr now) st in
  dset_if (String.eqb status "in_progress" && negb (get_truthy "started_at" st)) "started_at" (JStr now) st.

(** What an update writes, or the answer when it writes nothing.  [now] and [ts] are readings
    of the clock; [plan_writable] and [ledger_writable] say whether the files can be written.
    publish_plan uploads the plan and never raises. *)
Definition updated_store (now now' : string) (ts : json) (plan_writable ledger_writable : bool)
    (subtask_id status notes : string) (s : store) : reply + store :=
  if negb (key_in valid_statuses status) then
    inl (Said ("Error: Invalid status '" +:+ status +:+ "'. Must be one of: " +:+ list_repr valid_statuses))
  else
    match s_plan s with
    | Missing => inl (Said "Error: implementation_plan.json not found")
    | Broken => inl InvalidJson
    | Json plan =>
        match edit_plan subtask_id (stamped now status notes) plan with
        | Err e => inl (UpdateError e)
        | Ok None => inl (Said ("Error: Subtask '" +:+ subtask_id +:+ "' not found in implementation plan"))
        | Ok (Some (target, plan')) =>
            let completed := String.eqb status "completed" in
            let refusal :=
              if completed then
                let! evidence := read_test_evidence (Some subtask_id) (s_ledger s) in
                Ok (completion_refusal target evidence)
              else Ok None in
            match refusal with
            | Err e => inl (UpdateError e)
            | Ok (Some text) => inl (Said text)
            | Ok None =>
                if plan_writable then
                  inr {| s_plan := Json (JObj (dset "last_updated" (JStr now') plan'));
                         s_ledger := if completed
                                     then record_subtask_completed ledger_writable ts subtask_id (s_ledger s)
                                     else s_ledger s |}
                else inl (UpdateError (AppError "OSError"))
            end
        end
    end.

Definition apply_subtask_status_update (now now' : string) (ts : json) (plan_writable ledger_writable : bool)
    (subtask_id status notes : string) (s : store) : reply * store :=
  match updated_store now now' ts plan_writable ledger_writable subtask_id status notes s with
  | inl r => (r, s)
  | inr s' => (Said ("Successfully updated subtask '" +:+ subtask_id +:+ "' to status '" +:+ status +:+ "'"), s')
  end.

(** ** The waves

    The parent of a wave writes the plan and the ledger of its own directory, and copies the
    plan to the source directory, when there is another one. *)

Record wave_store := { w_store : store; w_source : option file }.

Definition with_plan (s : store) (f : file) : store := {| s_plan := f; s_ledger := s_ledger s |}.
Definition with_ledger (s : store) (l : ledger) : store := {| s_plan := s_plan s; s_ledger := l |}.
Definition present (f : file) : bool := match f with Missing => false | _ => true end.

Definition complete_item (now subtask_id : string) (i : Item) : Item :=
  if String.eqb (item_id i) subtask_id then item_complete now None i else i.
Definition set_item_pending (subtask_id : string) (i : Item) : Item :=
  if String.eqb (item_id i) subtask_id then
    match i with
    | ISub s => ISub (Subtask.track s PENDING (st_started_at s) (st_completed_at s) (st_actual_output s))
    | IStory s => IStory (Story.track s PENDING (us_started_at s) (us_completed_at s))
    end
  else i.
Definition has_item (subtask_id : string) (p : ImplementationPlan) : bool :=
  existsb (fun ph => existsb (fun i => String.eqb (item_id i) subtask_id) (ph_subtasks ph)) (pl_phases p).

(** Loads a plan, edits the subtasks with an id, saves; [None]: no such subtask. *)
Definition edit_saved (now : string) (edit : Item -> Item) (subtask_id : string) (f : file) : res (option file) :=
  match f with
  | Json v =>
      let! p := Plan.load v in
      Ok (if has_item subtask_id p then Some (Json (JObj (Plan.save now (map_items edit p)).2)) else None)
  | Missing => Err (AppError "FileNotFoundError")
  | Broken => Err ValueError
  end.

(** [copied]: the copy to the source directory succeeds. *)
Definition sync_plan_to_source (copied : bool) (w : wave_store) : wave_store :=
  match w_source w with
  | Some _ => if present (s_plan (w_store w)) && copied
              then {| w_store := w_store w; w_source := Some (s_plan (w_store w)) |} else w
  | None => w
  end.

Definition record_subtask_completion (now now' : string) (copied : bool) (subtask_id : string) (w : wave_store)
  : res bool * wave_store :=
  let edited := edit_saved now' (complete_item now subtask_id) subtask_id in
  match s_plan (w_store w), w_source w with
  | Missing, Some Missing | Missing, None => (Ok false, w)
  | Missing, Some f =>
      match edited f with
      | Err e => (Err e, w)
      | Ok None => (Ok false, w)
      | Ok (Some f') => (Ok true, {| w_store := w_store w; w_source := Some f' |})
      end
  | f, _ =>
      match edited f with
      | Err e => (Err e, w)
      | Ok None => (Ok false, w)
      | Ok (Some f') =>
          (Ok true, sync_plan_to_source copied {| w_store := with_plan (w_store w) f'; w_source := w_source w |})
      end
  end.

Definition gated_mark_complete (now now' : string) (ts : json) (writable copied : bool) (subtask : Item)
    (evidence : Evidence) (w : wave_store) : res bool * wave_store :=
  match completion_refusal (item_to_dict subtask) evidence with
  | Some _ => (Ok false, w)
  | None =>
      let marked := record_subtask_completed writable ts (item_id subtask) (s_ledger (w_store w)) in
      let '(r, w') := record_subtask_completion now now' copied (item_id subtask)
                        {| w_store := with_ledger (w_store w) marked; w_source := w_source w |} in
      (match r with Ok _ => Ok true | Err e => Err e end, w')
  end.

(** A refused subtask is done again by the serial coder. *)
Definition reset_subtask_status_pending (now : string) (subtask_id : string) (s : store) : bool * store :=
  match edit_saved now (set_item_pending subtask_id) subtask_id (s_plan s) with
  | Ok (Some f) => (true, with_plan s f)
  | _ => (false, s)
  end.
Definition _reset_to_pending (now : string) (copied : bool) (subtask_id : string) (w : wave_store) : wave_store :=
  let '(found, s) := reset_subtask_status_pending now subtask_id (w_store w) in
  if found then sync_plan_to_source copied {| w_store := s; w_source := w_source w |} else w.

(** The hook of the runner: [child] is the evidence read in the child's directory. *)
Definition mark_complete (now now' : string) (ts : json) (writable copied : bool) (subtask : Item)
    (child : option Evidence) (w : wave_store) : bool * wave_store :=
  let evidence := match child with
                  | Some e => Ok e
                  | None => read_test_evidence (Some (item_id subtask)) (s_ledger (w_store w))
                  end in
  match evidence with
  | Err _ => (true, w)
  | Ok e =>
      match gated_mark_complete now now' ts writable copied subtask e w with
      | (Err _, w') => (true, w')
      | (Ok true, w') => (true, w')
      | (Ok false, w') => (false, _reset_to_pending now copied (item_id subtask) w')
      end
  end.
End Gate.

(** ** What the gate lets through *)

(** Every refusal is a text, so that [if gap:] means that there is one. *)
Definition telling (gap : option string) : Prop := forall t, gap = Some t -> is_empty t = false.

Section Passed.
Context (setting : option string) (root : string) (project : tree) (path_exists : string -> bool).

Lemma testing_telling subtask : telling (testing_deliverable_gap root path_exists subtask).
Proof.
  intros t. unfold testing_deliverable_gap. repeat case_if; intros [= <-]; done.
Qed.

Lemma pipeline_telling subtask : telling (pipeline_evidence_gap root project subtask).
Proof. intros t. unfold pipeline_evidence_gap. repeat case_if; intros [= <-]; done. Qed.

Lemma deliverable_telling subtask : telling (deliverable_evidence_gap subtask project).
Proof.
  intros t. unfold deliverable_evidence_gap. case_if; [|done].
  destruct (hollow_tests _ _ _) as [[|h l]|]; [done| |done]. by intros [= <-].
Qed.

Lemma first_gap_None gaps : Forall telling gaps -> first_gap gaps = None <-> Forall (fun g => g = None) gaps.
Proof.
  induction 1 as [|g gaps T _ IH]; cbn; [by split|]. rewrite Forall_cons, <- IH. destruct g as [t|].
  - rewrite (T t eq_refl). by split; [|intros [? _]].
  - tauto.
Qed.

(** A testing subtask passes when it declares no file, or a file that is not documentation
    and exists. *)
Lemma testing_None subtask :
  testing_deliverable_gap root path_exists subtask = None <->
  is_testing_subtask subtask = false \/ declared_files subtask = []
  \/ exists p, p ∈ declared_files subtask /\ _is_doc p = false /\ path_exists (below_root root p) = true.
Proof.
  unfold testing_deliverable_gap. destruct (is_testing_subtask subtask); [|by split; [left|]]. cbn [negb].
  set (declared := declared_files subtask). clearbody declared.
  set (code := keep (fun p => negb (_is_doc p)) declared).
  assert (C : forall p, p ∈ code <-> p ∈ declared /\ _is_doc p = false)
    by (intros p; unfold code; by rewrite elem_of_keep, negb_true_iff).
  destruct declared as [|p0 declared]; [by split; [right; left|]|]. cbn [list_truthy negb].
  destruct (existsb (fun p => path_exists (below_root root p)) code) eqn:X.
  - apply existsb_spec in X as (p & Ip & Px).
    assert (T : list_truthy code = true) by (by destruct code; [apply elem_of_nil in Ip|]).
    rewrite T. cbn [negb]. split; [|done]. intros _. right. right. exists p. apply C in Ip as [? ?]. done.
  - split; [by destruct (list_truthy code)|]. intros [|[|(p & Ip & D & Px)]]; [done|done|].
    rewrite existsb_false in X. rewrite X in Px; [done|]. by apply C.
Qed.

(** A subtask of the pipeline passes when the pipeline files speak of every stage its text
    demands. *)
Lemma pipeline_None subtask :
  pipeline_evidence_gap root project subtask = None ->
  is_cicd_subtask subtask = true -> forall stage, stage ∈ demanded_stages subtask ->
  exists token, token ∈ evidence_for stage /\ contains token (_pipeline_text project (ci_files project)) = true.
Proof.
  unfold pipeline_evidence_gap. intros H C stage I. rewrite C in H. cbn [negb] in H.
  destruct (demanded_stages subtask) as [|s0 l] eqn:D; [by apply elem_of_nil in I|]. cbn [list_truthy negb] in H.
  destruct (list_truthy (ci_files project)); [|done]. cbn [negb] in H.
  destruct (missing_stages subtask project) as [|g gaps] eqn:M; [|done].
  unfold missing_stages in M. rewrite D in M.
  destruct (says (_pipeline_text project (ci_files project)) (evidence_for stage)) eqn:S.
  - apply existsb_spec in S as (t & It & Ct). by exists t.
  - assert (F : stage ∈ []); [|by apply elem_of_nil in F]. rewrite <- M. apply elem_of_keep. by rewrite S.
Qed.

Lemma completion_None subtask evidence : gate_enabled setting = true ->
  completion_refusal setting root project path_exists subtask evidence = None <->
  pipeline_evidence_gap root project subtask = None
  /\ testing_deliverable_gap root path_exists subtask = None
  /\ deliverable_evidence_gap subtask project = None
  /\ (is_verification_subtask subtask = true -> ev_ran evidence = true /\ ev_last_failed evidence = false).
Proof.
  intros On. unfold completion_refusal. rewrite On. cbn [negb].
  assert (G := first_gap_None [pipeline_evidence_gap root project subtask; testing_deliverable_gap root path_exists subtask;
                               deliverable_evidence_gap subtask project]).
  rewrite !Forall_cons in G. specialize (G (conj (pipeline_telling _) (conj (testing_telling _)
    (conj (deliverable_telling _) (Forall_nil_2 _))))).
  assert (V : verification_gap subtask evidence = None <->
    (is_verification_subtask subtask = true -> ev_ran evidence = true /\ ev_last_failed evidence = false)).
  { unfold verification_gap. destruct (is_verification_subtask subtask), (ev_ran evidence), (ev_last_failed evidence);
      cbn; split; try done; intros H; by destruct (H eq_refl). }
  destruct (first_gap _) as [t|].
  - split; [done|]. intros (P & T & D & _). assert (Some t = None) as [=] by (by apply G).
  - rewrite V. destruct (proj1 G eq_refl) as (P & T & D & _). tauto.
Qed.
End Passed.

(** ** Builds

    A build of the serial coder, as its tool calls and its updates.  The directory of the
    specification can be written; the project changes between the calls. *)

Inductive call :=
  | ToolCall (session : bool) (ts : json) (input : dict)
  | Update (now now' : string) (ts : json) (subtask_id status notes : string)
           (project : tree) (path_exists : string -> bool).

Section Builds.
Context (setting : option string) (root : string).

Definition update_with (project : tree) (path_exists : string -> bool) (now now' : string) (ts : json)
    (subtask_id status notes : string) : store -> reply + store :=
  updated_store setting root project path_exists now now' ts true true subtask_id status notes.

Definition step_build (s : store) (c : call) : store :=
  match c with
  | ToolCall session ts input =>
      {| s_plan := s_plan s; s_ledger := test_evidence_posttool_hook setting session true ts input (s_ledger s) |}
  | Update now now' ts id status notes project path_exists =>
      snd (apply_subtask_status_update setting root project path_exists now now' ts true true id status notes s)
  end.

(** What a call leaves in the log of the build. *)
Definition acts_of (s : store) (c : call) : list (json * act) :=
  match c with
  | ToolCall session ts input =>
      match test_run_of setting session input with Some (c, o) => [(ts, Ran c o)] | None => [] end
  | Update now now' ts id status notes project path_exists =>
      match update_with project path_exists now now' ts id status notes s with
      | inr _ => if String.eqb status "completed" then [(ts, Done id)] else []
      | inl _ => []
      end
  end.
Definition build (plan : file) (calls : list call) : store * list (json * act) :=
  fold_left (fun x c => (step_build x.1 c, x.2 ++ acts_of x.1 c)) calls ({| s_plan := plan; s_ledger := NoLedger |}, []).

Lemma ledger_snoc log x : ledger_of (log ++ [x]) = recorded (ledger_of log) x.
Proof. unfold ledger_of. by rewrite fold_left_app. Qed.

Lemma updated_inv project path_exists now now' ts id status notes s s' :
  update_with project path_exists now now' ts id status notes s = inr s' ->
  exists plan target plan',
    s_plan s = Json plan /\ edit_plan id (stamped now status notes) plan = Ok (Some (target, plan'))
    /\ s_plan s' = Json (JObj (dset "last_updated" (JStr now') plan'))
    /\ (if String.eqb status "completed" then
          (exists e, read_test_evidence (Some id) (s_ledger s) = Ok e
                     /\ completion_refusal setting root project path_exists target e = None)
          /\ s_ledger s' = record_subtask_completed true ts id (s_ledger s)
        else s_ledger s' = s_ledger s).
Proof.
  unfold update_with, updated_store. case_if; [done|]. destruct (s_plan s) as [| |plan] eqn:P; [done|done|].
  destruct (edit_plan id (stamped now status notes) plan) as [[[target plan']|]|] eqn:Ed; [|done|done].
  intros H. exists plan, target, plan'. do 2 (split; [done|]). destruct (String.eqb status "completed").
  - destruct (read_test_evidence (Some id) (s_ledger s)) as [e|] eqn:R; [|done]. cbn [mbind res_bind] in H.
    destruct (completion_refusal _ _ _ _ target e) eqn:C; [done|]. injection H as <-.
    split; [done|]. split; [|done]. by exists e.
  - injection H as <-. done.
Qed.

(** The ledger is the log, and the runs in it are of test commands. *)
Definition logged (x : store * list (json * act)) : Prop :=
  s_ledger x.1 = ledger_of x.2
  /\ forall ts c o, (ts, Ran c o) ∈ x.2 -> is_test_command c = true.

Lemma test_run_is_test session input c o : test_run_of setting session input = Some (c, o) -> is_test_command c = true.
Proof.
  unfold test_run_of. repeat (case_if; [done|]).
  destruct (dget "tool_input" input) as [[| | | | |d]|]; try done.
  destruct (dget "command" d) as [[| | |cmd| |]|]; try done.
  destruct (is_test_command cmd) eqn:T; [|done]. by intros [= <- <-].
Qed.

Lemma step_logged s log c : logged (s, log) -> logged (step_build s c, log ++ acts_of s c).
Proof.
  intros [L T]. cbn [fst snd] in *.
  assert (A : forall x, ledger_of (log ++ [x]) = recorded (s_ledger s) x)
    by (intros x; by rewrite ledger_snoc, L).
  assert (R : forall x, (forall c o, x.2 = Ran c o -> is_test_command c = true) ->
              forall ts c o, (ts, Ran c o) ∈ log ++ [x] -> is_test_command c = true).
  { intros [t a] Hx ts c' o [I|I]%elem_of_app; [by eapply T|].
    apply list_elem_of_singleton in I as [= <- <-]. by eapply Hx. }
  destruct c as [session ts input | now now' ts id status notes project pe]; unfold logged; cbn [fst snd step_build acts_of].
  - unfold test_evidence_posttool_hook. destruct (test_run_of setting session input) as [[c o]|] eqn:E.
    + rewrite A. split; [done|]. apply R. intros c' o' [= <- <-]. by eapply test_run_is_test.
    + by rewrite app_nil_r.
  - unfold apply_subtask_status_update. fold (update_with project pe now now' ts id status notes s).
    destruct (update_with project pe now now' ts id status notes s) as [r|s'] eqn:U; [by rewrite app_nil_r|].
    apply updated_inv in U as (plan & target & plan' & _ & _ & _ & U). cbn [snd].
    destruct (String.eqb status "completed").
    + rewrite A. split; [apply U|]. by apply R.
    + by rewrite app_nil_r, U.
Qed.

Lemma build_logged plan calls : logged (build plan calls).
Proof.
  unfold build. assert (B : logged ({| s_plan := plan; s_ledger := NoLedger |}, []))
    by (split; [done|]; intros ? ? ? H; by apply elem_of_nil in H).
  revert B. generalize (({| s_plan := plan; s_ledger := NoLedger |}, []) : store * list (json * act)).
  induction calls as [|c calls IH]; intros [s log] H; [done|]. apply IH. by apply step_logged.
Qed.

Lemma own_run_logged id (log : list (json * act)) c o : (c, o) ∈ own_runs id (snd <$> log) -> exists ts, (ts, Ran c o) ∈ log.
Proof.
  unfold own_runs. intros (a & I & E)%list_elem_of_omap. destruct a as [c' o'|]; [|done]. injection E as -> ->.
  destruct (since_spec (ends_window id) (snd <$> log)) as (_ & b & E & _).
  assert (I' : Ran c o ∈ snd <$> log) by (rewrite E; apply elem_of_app; by right).
  apply list_elem_of_fmap in I' as ([ts a] & Ea & Ia). cbn in Ea. subst a. by exists ts.
Qed.

End Builds.

(** ** What an update writes *)

Definition has_id (subtask_id : string) (st : dict) : bool :=
  match dget "id" st with Some (JStr s) => String.eqb s subtask_id | _ => false end.

Lemma edit_subtask_one id f l t l' : edit_subtask id f l = Ok (Some (t, l')) ->
  exists l1 st l2, l = l1 ++ JObj st :: l2 /\ l' = l1 ++ JObj (f st) :: l2 /\ t = f st /\ has_id id st = true
    /\ forall x, JObj x ∈ l1 -> has_id id x = false.
Proof.
  revert t l'. induction l as [|v l IH]; intros t l' H; [done|]. cbn [edit_subtask] in H.
  destruct v as [| | | | |d]; try done. cbn [with_get] in H. fold (has_id id d) in H.
  destruct (has_id id d) eqn:I.
  - injection H as <- <-. exists [], d, l. do 4 (split; [done|]). intros x Hx. by apply elem_of_nil in Hx.
  - destruct (edit_subtask id f l) as [[[u k]|]|]; [|done|done]. injection H as <- <-.
    destruct (IH _ _ eq_refl) as (l1 & st & l2 & -> & -> & -> & S & N). exists (JObj d :: l1), st, l2.
    do 4 (split; [done|]). intros x [[= ->]|Hx]%elem_of_cons; [done | by apply N].
Qed.

Lemma iter_objects v l l1 st l2 : iter_any v = Ok l -> l = l1 ++ JObj st :: l2 -> v = JList l.
Proof.
  intros H E. assert (I : JObj st ∈ l) by (rewrite E; apply elem_of_app; right; apply list_elem_of_here).
  destruct v as [| | |s|k|d]; try done; injection H as <-; [|done|];
    apply list_elem_of_fmap in I as (x & [=] & _).
Qed.

Lemma iter_field_objects k d l l1 st l2 :
  iter_field k d = Ok l -> l = l1 ++ JObj st :: l2 -> dget k d = Some (JList l).
Proof.
  unfold iter_field. destruct (dget k d) as [v|]; intros H E; [|injection H as <-; by destruct l1].
  by rewrite (iter_objects v l l1 st l2).
Qed.

Lemma edit_phase_one id f l t l' : edit_phase id f l = Ok (Some (t, l')) ->
  exists p1 ph p2 s1 st s2, l = p1 ++ JObj ph :: p2 /\ dget "subtasks" ph = Some (JList (s1 ++ JObj st :: s2))
    /\ l' = p1 ++ JObj (dset "subtasks" (JList (s1 ++ JObj (f st) :: s2)) ph) :: p2
    /\ t = f st /\ has_id id st = true.
Proof.
  revert t l'. induction l as [|v l IH]; intros t l' H; [done|]. cbn [edit_phase] in H.
  destruct v as [| | | | |d]; try done. cbn [with_get] in H. res_step. rename v into subtasks. res_step.
  destruct v as [[u k]|].
  - injection H as <- <-. destruct (edit_subtask_one _ _ _ _ _ Hv0) as (s1 & st & s2 & -> & -> & -> & S & _).
    exists [], d, l, s1, st, s2. split; [done|]. split; [by eapply iter_field_objects|]. done.
  - destruct (edit_phase id f l) as [[[u k]|]|]; [|done|done]. injection H as <- <-.
    destruct (IH _ _ eq_refl) as (p1 & ph & p2 & s1 & st & s2 & -> & G & -> & -> & S).
    exists (JObj d :: p1), ph, p2, s1, st, s2. done.
Qed.

(** An update that is written replaces one record of the plan, the one with
    its id, which keeps its place, and stamps the plan; a completion also closes the window
    of the subtask in the ledger. *)
Theorem updates_change_one_record setting root project path_exists now now' ts id status notes s s' :
  update_with setting root project path_exists now now' ts id status notes s = inr s' ->
  exists d p1 ph p2 s1 st s2,
    s_plan s = Json (JObj d)
    /\ dget "phases" d = Some (JList (p1 ++ JObj ph :: p2))
    /\ dget "subtasks" ph = Some (JList (s1 ++ JObj st :: s2)) /\ has_id id st = true
    /\ s_plan s' = Json (JObj (dset "last_updated" (JStr now')
         (dset "phases" (JList (p1 ++ JObj (dset "subtasks"
            (JList (s1 ++ JObj (stamped now status notes st) :: s2)) ph) :: p2)) d)))
    /\ s_ledger s' = if String.eqb status "completed"
                     then record_subtask_completed true ts id (s_ledger s) else s_ledger s.
Proof.
  intros U. apply updated_inv in U as (plan & target & plan' & P & Ed & P' & U).
  unfold edit_plan in Ed. destruct plan as [| | | | |d]; try done. cbn [with_get] in Ed.
  res_step. rename v into phases. res_step. destruct v as [[t l']|]; [|done]. cbn in Ed. injection Ed as <- <-.
  destruct (edit_phase_one _ _ _ _ _ Hv0) as (p1 & ph & p2 & s1 & st & s2 & E & G & -> & _ & I).
  exists d, p1, ph, p2, s1, st, s2. split; [done|]. split; [rewrite <- E; by eapply iter_field_objects|].
  split; [done|]. split; [done|]. split; [done|].
  destruct (String.eqb status "completed"); [apply U | exact U].
Qed.

(** A wave counts a subtask as completed exactly when the gate has nothing to
    say about it, on the evidence its own directory held; only a ledger that cannot be read
    leaves the gate unasked, and then nothing is written. *)
Theorem waves_ask_the_gate setting root project path_exists now now' ts writable copied subtask child w b w' :
  mark_complete setting root project path_exists now now' ts writable copied subtask child w = (b, w') ->
  let evidence := match child with
                  | Some e => Ok e
                  | None => read_test_evidence (Some (item_id subtask)) (s_ledger (w_store w))
                  end in
  (exists e, evidence = Ok e
     /\ (b = true <-> completion_refusal setting root project path_exists (item_to_dict subtask) e = None))
  \/ (is_ok evidence = false /\ b = true /\ w' = w).
Proof.
  unfold mark_complete. intros H. cbn zeta. set (evidence := match child with Some e => Ok e | None => _ end) in *. destruct evidence as [e|e].
  - left. exists e. split; [done|]. unfold gated_mark_complete in H.
    destruct (completion_refusal _ _ _ _ _ e) as [t|].
    + injection H as <- _. by split.
    + destruct (record_subtask_completion _ _ _ _ _) as [[r|r] w2]; injection H as <- _; by split.
  - right. injection H as <- <-. done.
Qed.

(** ** Builds on examples *)

Definition plan_of (subtasks : list dict) : file :=
  Json (JObj [("phases", JList [JObj [("subtasks", JList (JObj <$> subtasks))]])]).
Definition bash_run (command output : string) : dict :=
  [("tool_name", JStr "Bash"); ("tool_input", JObj [("command", JStr command)]); ("tool_response", JStr output)].
Definition complete (id notes : string) (project : tree) : call :=
  Update "now" "now" JNull id "completed" notes project (fun _ => false).
Definition tests_of (id : string) : dict := [("id", JStr id); ("title", JStr "Run all tests")].
Definition accepted {A B} (r : A + B) : bool := match r with inr _ => true | inl _ => false end.
Definition completes (plan : file) (calls : list call) (id notes : string) (project : tree) : bool :=
  accepted (update_with None "/repo" project (fun _ => false) "now" "now" JNull id "completed" notes
              (build None "/repo" plan calls).1).

(** The second subtask does not pass on the run of the first. *)
Example runs_are_not_shared :
  let plan := plan_of [tests_of "1.1"; tests_of "1.2"] in
  let run := ToolCall true JNull (bash_run "pytest -q" "=== 5 passed ===") in
  let fst_ := [run; complete "1.1" "" (TDir [])] in
  completes plan [] "1.1" "" (TDir []) = false /\ completes plan [run] "1.1" "" (TDir []) = true
  /\ completes plan fst_ "1.2" "" (TDir []) = false /\ completes plan fst_ "1.1" "" (TDir []) = true
  /\ completes plan (fst_ ++ [run]) "1.2" "" (TDir []) = true.
Proof. by vm_compute. Qed.


Lemma updates_change_one_record_witness :
  exists d p1 ph p2, plan_of [tests_of "1.1"; tests_of "1.2"] = Json (JObj d)
    /\ dget "phases" d = Some (JList (p1 ++ JObj ph :: p2)).
Proof.
  assert (R : exists s', update_with None "/repo" (TDir []) (fun _ => false) "now" "now" JNull "1.2" "failed" ""
              {| s_plan := plan_of [tests_of "1.1"; tests_of "1.2"]; s_ledger := NoLedger |} = inr s')
    by (eexists; vm_compute; reflexivity).
  destruct R as [s' R].
  destruct (updates_change_one_record None "/repo" (TDir []) (fun _ => false) "now" "now" JNull "1.2" "failed" "" _ s' R)
    as (d & p1 & ph & p2 & s1 & st & s2 & P & G & _).
  by exists d, p1, ph, p2.
Defined.

Definition no_run : Evidence :=
  {| ev_ran := false; ev_last_failed := false; ev_runs := 0; ev_last_command := JNull |}.
Definition empty_wave : wave_store :=
  {| w_store := {| s_plan := Missing; s_ledger := NoLedger |}; w_source := None |}.
Definition testing_item : Item :=
  ISub (default (Build_Subtask "" "" PENDING None false [] None [] [] [] None [] None None None None None)
          (match Subtask.from_dict [("id", JStr "1.1"); ("description", JStr "run the tests")] with
           | Ok s => Some s | Err _ => None end)).

Lemma waves_ask_the_gate_witness :
  (mark_complete None "/repo" (TDir []) (fun _ => false) "now" "now" JNull true true testing_item (Some no_run) empty_wave).1
    = false
  /\ completion_refusal None "/repo" (TDir []) (fun _ => false) (item_to_dict testing_item) no_run <> None.
Proof.
  destruct (mark_complete None "/repo" (TDir []) (fun _ => false) "now" "now" JNull true true testing_item (Some no_run) empty_wave)
    as [b w'] eqn:M.
  destruct (waves_ask_the_gate _ _ _ _ _ _ _ _ _ _ _ _ _ _ M) as [(e & [= <-] & I)|(N & _)]; [|done].
  assert (F : b = false) by (vm_compute in M; by injection M as <- _).
  split; [exact F|]. intros C. apply I in C. congruence.
Defined.

(** ** Departures from the documentation *)

(** The notes of the agent are in the record the gate reads: a note that names another path
    lets a test of that path speak for the deliverable. *)
Definition health_source : string :=
  join newline ["from app.main import app"; "client = TestClient(app)"; "def test_h():";
    "    assert client.get('/api/health').status_code == 200"].
Lemma notes_free_a_hollow_deliverable :
  let plan := plan_of [[("id", JStr "1.1"); ("description", JStr "Add POST /api/quote")]] in
  let project := project_with [("test_vat_quote.py", hollow_source); ("test_health.py", health_source)] in
  completes plan [] "1.1" "" project = false /\ completes plan [] "1.1" "done, see GET /api/health" project = true.
Proof. by vm_compute. Qed.

(** The waves read the record through the typed plan, which keeps no title: a subtask whose
    title alone is about tests is gated by the serial coder and not in a wave. *)
Lemma waves_forget_titles :
  let raw := [("id", JStr "1.1"); ("description", JStr "the suite"); ("title", JStr "Run all tests")] in
  is_ok (Subtask.from_dict raw) = true
  /\ completion_refusal None "/repo" (TDir []) (fun _ => false) raw no_run <> None
  /\ forall s, Subtask.from_dict raw = Ok s ->
       completion_refusal None "/repo" (TDir []) (fun _ => false) (Subtask.to_dict s) no_run = None.
Proof.
  split; [reflexivity|]. split; [by vm_compute|]. intros s [= <-]. by vm_compute.
Qed.

(** The completion gate speaks for a lone subtask of the pipeline that names a plan: the
    word latest demands the stage test. *)
Lemma stages_are_found_in_other_words :
  demanded_stages [("service", JStr "cicd"); ("description", JStr "pin the latest runner image")] = ["test"]
  /\ says "# latest" (evidence_for "test") = true.
Proof. by vm_compute. Qed.
