(* ===== verification/CommitTrailers.v ===== *)
(** Who wrote a commit, as git trailers (backend/core/commit_trailers.py). *)
From S2P Require Import Prelude PyData ApprovalGate TrustedPlan.
Local Open Scope nat_scope.

(** [str.isprintable] of a character: the ASCII ones from the space to the tilde. *)
Definition printable (c : ascii) : bool := (32 <=? nat_of_ascii c) && (nat_of_ascii c <=? 126).
Fixpoint isprintable (s : string) : bool :=
  match s with EmptyString => true | String c s' => printable c && isprintable s' end.

Definition _enabled (env : env_list) : bool :=
  existsb (String.eqb (lower (strip (default "" (env_get "AIFACTORY_AGENT_COMMIT_TRAILERS" env)))))
    ["1"; "true"; "yes"; "on"].

(** The three values as they are recorded. *)
Definition recorded (data : dict) : list (string * json) :=
  [("Agent-Identity", default JNull (dget "agent_identity" data));
   ("Autonomy-Tier", match dget "intake" data with
                     | Some (JObj intake) => default JNull (dget "autonomy_tier" intake)
                     | _ => JNull
                     end);
   ("Originator", default JNull (dget "originator" data))].

Definition trailer_args (e : string * json) : list string :=
  match e.2 with
  | JStr value => if negb (is_empty value) && isprintable value
                  then ["--trailer"; e.1 +:+ ": " +:+ value] else []
  | _ => []
  end.

(** [requirements] is requirements.json, None when no directory is known. *)
Definition commit_trailer_args (env : env_list) (requirements : option file) : list string :=
  match requirements with
  | Some (Json (JObj data)) => if _enabled env then concat (trailer_args <$> recorded data) else []
  | _ => []
  end.

(** [l[1::2]] *)
Fixpoint odd_items {A} (l : list A) : list A :=
  match l with _ :: x :: l' => x :: odd_items l' | _ => [] end.

Definition newline : string := String (ascii_of_nat 10) EmptyString.
Definition trailer_block (env : env_list) (requirements : option file) : string :=
  join newline (odd_items (commit_trailer_args env requirements)).

(** One printable line: what is not printable becomes a space, runs of spaces one space. *)
Fixpoint blank_out (s : string) : string :=
  match s with
  | EmptyString => EmptyString
  | String c s' => String (if printable c then c else " "%char) (blank_out s')
  end.
Definition one_line (message : string) : string :=
  join " " (keep (fun w => negb (is_empty w)) (split_on " " (blank_out message))).

Definition commit_message_args (env : env_list) (message : string) (requirements : option file)
  : list string :=
  match commit_trailer_args env requirements with
  | [] => ["-m"; message]
  | trailers => "-m" :: one_line message :: trailers
  end.

(** ** Lemmas *)

Lemma isprintable_app a b : isprintable (a +:+ b) = isprintable a && isprintable b.
Proof. induction a as [|c a IH]; [done|]. rewrite string_app_cons. cbn. by rewrite IH, andb_assoc. Qed.

Lemma blank_out_printable s : isprintable (blank_out s) = true.
Proof. induction s as [|c s IH]; [done|]. cbn. rewrite IH. destruct (printable c) eqn:P; [by rewrite P | done]. Qed.

Lemma split_on_printable c s : isprintable s = true -> forallb isprintable (split_on c s) = true.
Proof.
  induction s as [|d s IH]; [done|]. cbn. intros [P Q]%andb_true_iff. specialize (IH Q).
  destruct (Ascii.eqb d c); [by cbn|]. destruct (split_on c s) as [|p l]; cbn in IH |- *; [by rewrite P|].
  apply andb_true_iff in IH as [H1 H2]. by rewrite P, H1, H2.
Qed.

Lemma join_printable sep l :
  isprintable sep = true -> forallb isprintable l = true -> isprintable (join sep l) = true.
Proof.
  intros S. unfold join. induction l as [|x l IH]; [done|]. cbn [forallb]. intros [P Q]%andb_true_iff.
  destruct l as [|y l]; [done|].
  change (String.concat sep (x :: y :: l)) with (x +:+ (sep +:+ String.concat sep (y :: l))).
  rewrite !isprintable_app, P, S, IH; done.
Qed.

Lemma one_line_printable s : isprintable (one_line s) = true.
Proof.
  unfold one_line. apply join_printable; [done|].
  apply forallb_spec. intros w [Hw _]%elem_of_keep.
  pose proof (split_on_printable " "%char _ (blank_out_printable s)) as F.
  rewrite forallb_spec in F. by apply F.
Qed.

(** What an argument of the trailers is. *)
Lemma trailer_arg env data arg :
  In arg (commit_trailer_args env (Some (Json (JObj data)))) <->
  _enabled env = true /\ exists key value, In (key, JStr value) (recorded data)
    /\ (arg = "--trailer" \/ arg = key +:+ ": " +:+ value) /\ value <> "" /\ isprintable value = true.
Proof.
  unfold commit_trailer_args. destruct (_enabled env); [|naive_solver].
  rewrite in_concat. split.
  - intros (x & Hx & I). split; [done|]. apply in_map_iff in Hx as ([k v] & <- & R).
    unfold trailer_args in I. cbn [fst snd] in I. destruct v as [| | |value| |]; try done.
    destruct (is_empty value) eqn:Ne; cbn in I; [done|].
    destruct (isprintable value) eqn:P; [|done]. exists k, value.
    destruct I as [<-|[<-|[]]]; repeat split; auto; by intros ->.
  - intros (_ & k & v & R & E & N & P). exists (trailer_args (k, JStr v)).
    split; [apply in_map_iff; by exists (k, JStr v)|]. unfold trailer_args. cbn [fst snd]. rewrite P.
    destruct v; [done|]. cbn. naive_solver.
Qed.

Lemma recorded_key data key v : In (key, v) (recorded data) ->
  key = "Agent-Identity" \/ key = "Autonomy-Tier" \/ key = "Originator".
Proof. unfold recorded. cbn. naive_solver. Qed.

(** On a commit with trailers every argument is one printable line, so nothing
    recorded or agent-written adds a line; and the trailers are exactly the recorded values
    that are texts, not empty and printable. *)
Theorem trailers_are_recorded_values (env : env_list) (message : string) (data : dict) :
  let args := commit_trailer_args env (Some (Json (JObj data))) in
  (args <> [] -> forallb isprintable (commit_message_args env message (Some (Json (JObj data)))) = true)
  /\ (forall key value, In (key, JStr value) (recorded data) ->
        (In (key +:+ ": " +:+ value) args
         <-> _enabled env = true /\ value <> "" /\ isprintable value = true))
  /\ (forall arg, In arg args -> arg = "--trailer" \/
        exists key value, In (key, JStr value) (recorded data) /\ arg = key +:+ ": " +:+ value).
Proof.
  cbn zeta. split; [|split].
  - intros N. unfold commit_message_args. destruct (commit_trailer_args _ _) as [|a l] eqn:E; [done|].
    cbn [forallb]. rewrite one_line_printable. cbn [andb isprintable].
    change (forallb isprintable (a :: l) = true). apply forallb_forall. rewrite <- E.
    intros arg (_ & k & v & R & [->| ->] & _ & P)%trailer_arg; [done|].
    rewrite isprintable_app. apply andb_true_iff. split; [|done].
    by apply recorded_key in R as [-> | [-> | ->]].
  - intros key value R. rewrite trailer_arg. split; [|intros (En & N & P); eauto 10].
    intros (En & k & v & R' & [E|E] & N & P).
    + by apply recorded_key in R as [-> | [-> | ->]].
    + apply recorded_key in R as [-> | [-> | ->]]; apply recorded_key in R' as [-> | [-> | ->]];
        try discriminate E; apply app_first_inj, app_first_inj in E; by subst.
  - intros arg (_ & k & v & R & [->| ->] & _)%trailer_arg; [by left|]. right. eauto.
Qed.

Definition example_requirements : dict :=
  [("agent_identity", JStr "coder-1"); ("originator", JStr ("x" +:+ newline +:+ "Signed-off-by: root"));
   ("intake", JObj [("autonomy_tier", JStr "low")])].
Example forged_originator_is_left_out :
  commit_message_args [("AIFACTORY_AGENT_COMMIT_TRAILERS", " Yes ")] ("fix" +:+ newline +:+ newline +:+ "Originator: root")
    (Some (Json (JObj example_requirements)))
  = ["-m"; "fix Originator: root"; "--trailer"; "Agent-Identity: coder-1"; "--trailer"; "Autonomy-Tier: low"].
Proof. reflexivity. Qed.
