(* ===== verification/RepoRef.v ===== *)
(** Repository references that may name their host (backend/repo_ref.py). *)
From S2P Require Import Prelude.

Definition GITHUB : string := "github".
Definition GITLAB : string := "gitlab".
Definition AZURE_DEVOPS : string := "azure_devops".
Definition SUPPORTED_PROVIDERS : list string := [GITHUB; GITLAB; AZURE_DEVOPS].

Definition supported (p : string) : bool := existsb (String.eqb p) SUPPORTED_PROVIDERS.

Definition parse_repo_ref (ref : option string) : option (string * string) :=
  let value := strip (default "" ref) in
  if is_empty value then None
  else match cut_at ":" value with
       | Some (head, tail) =>
           let head := lower (strip head) in
           if supported head && negb (is_empty (strip tail)) then Some (head, strip tail)
           else Some (GITHUB, value)
       | None => Some (GITHUB, value)
       end.

(** [x or GITHUB], blanks and letter case aside. *)
Definition provider_name (p : string) : string := lower (strip (if is_empty p then GITHUB else p)).

Definition provider_of (ref : option string) (dflt : string) : string :=
  match parse_repo_ref ref with Some (p, _) => p | None => provider_name dflt end.
Definition project_of (ref : option string) : string :=
  match parse_repo_ref ref with Some (_, project) => project | None => "" end.
Definition qualify_repo (provider project : option string) : string :=
  let project := default "" project in
  if is_empty project then ""
  else
    let kind := provider_name (default "" provider) in
    if String.eqb kind GITHUB then project else kind +:+ ":" +:+ project.
Definition is_github (ref : option string) (dflt : string) : bool :=
  String.eqb (provider_of ref dflt) GITHUB.

(** ** Lemmas *)

Lemma after_prefix_app (p s : string) : after_prefix p (p +:+ s) = Some s.
Proof. induction p as [|c p IH]; [by destruct s|]. rewrite string_app_cons. cbn. by rewrite Ascii.eqb_refl. Qed.

Lemma supported_cases p : supported p = true -> p = GITHUB \/ p = GITLAB \/ p = AZURE_DEVOPS.
Proof.
  unfold supported, SUPPORTED_PROVIDERS. cbn [existsb]. rewrite !orb_true_iff, !String.eqb_eq. naive_solver.
Qed.

Lemma lstrip_length_eq s : String.length s <= String.length (lstrip s) -> lstrip s = s.
Proof.
  intros L. destruct (lstrip_suffix s) as [p Hp].
  assert (String.length s = String.length (p +:+ lstrip s)) as E by (by rewrite <- Hp).
  rewrite string_app_length in E. destruct p; [by rewrite string_app_nil in Hp | cbn in E; lia].
Qed.

Lemma rev_length s : String.length (String.rev s) = String.length s.
Proof.
  induction s as [|c s IH]; [done|]. change (String c s) with (String c "" +:+ s).
  rewrite string_rev_app, !string_app_length, IH. cbn. lia.
Qed.

Lemma lstrip_length s : String.length (lstrip s) <= String.length s.
Proof. induction s as [|c s IH]; [done|]. cbn. destruct (is_blank c); cbn; lia. Qed.

Lemma strip_fixed s : strip s = s <-> lstrip s = s /\ lstrip (String.rev s) = String.rev s.
Proof.
  split.
  - intros E. assert (lstrip s = s) as L.
    { apply lstrip_length_eq. rewrite <- E at 1. unfold strip. rewrite rev_length.
      etransitivity; [apply lstrip_length|]. by rewrite rev_length. }
    split; [done|]. unfold strip in E. rewrite L in E. rewrite <- E at 2. by rewrite string_rev_involutive.
  - intros [L R]. unfold strip. by rewrite L, R, string_rev_involutive.
Qed.

Lemma lstrip_app_fixed a b : lstrip a = a -> is_empty a = false -> lstrip (a +:+ b) = a +:+ b.
Proof.
  destruct a as [|c a]; [done|]. intros A _. rewrite string_app_cons. cbn in A |- *.
  destruct (is_blank c); [|done]. pose proof (lstrip_length a) as L. rewrite A in L. cbn in L. lia.
Qed.

Lemma strip_app_fixed a b :
  strip a = a -> is_empty a = false -> strip b = b -> is_empty b = false -> strip (a +:+ b) = a +:+ b.
Proof.
  rewrite !strip_fixed. intros [A _] Na [_ B] Nb. split; [by apply lstrip_app_fixed|].
  rewrite string_rev_app. apply lstrip_app_fixed; [done|].
  destruct b as [|c b]; [done|]. pose proof (rev_length (String c b)) as L.
  by destruct (String.rev (String c b)).
Qed.

Lemma strip_empty_inv s : strip s = s -> is_empty s = false -> is_empty (strip s) = false.
Proof. by intros ->. Qed.

(** A name that begins with the name of a known host and a colon. *)
Definition qualified (project : string) : bool :=
  match cut_at ":" project with
  | Some (head, tail) => supported (lower (strip head)) && negb (is_empty (strip tail))
  | None => false
  end.

Lemma parse_unqualified project :
  strip project = project -> is_empty project = false -> qualified project = false ->
  parse_repo_ref (Some project) = Some (GITHUB, project).
Proof.
  intros F N Q. unfold parse_repo_ref. change (default "" (Some project)) with project.
  rewrite F, N. unfold qualified in Q.
  destruct (cut_at ":" project) as [[h t]|]; [|done]. by rewrite Q.
Qed.

Lemma parse_qualified h project :
  supported h = true -> strip h = h -> is_empty h = false -> contains ":" h = false -> lower h = h ->
  strip project = project -> is_empty project = false ->
  parse_repo_ref (Some (h +:+ ":" +:+ project)) = Some (h, project).
Proof.
  intros S Fh Nh C L F N. unfold parse_repo_ref.
  change (default "" (Some (h +:+ ":" +:+ project))) with (h +:+ ":" +:+ project).
  rewrite string_app_cons, string_app_nil.
  assert (strip (h +:+ String ":" project) = h +:+ String ":" project) as ->.
  { change (String ":" project) with (":" +:+ project). apply strip_app_fixed; try done.
    by apply (strip_app_fixed ":"). }
  rewrite cut_at_first, Fh, L, S, F, N by done. cbn [andb negb].
  by destruct h.
Qed.

(** A project of a known host reads back as the host and the project it was
    qualified with; on GitHub, which is not written, unless the name itself begins with a
    host. *)
Theorem qualified_reference_reads_back (p project : string) :
  supported p = true -> strip project = project -> is_empty project = false ->
  p <> GITHUB \/ qualified project = false ->
  parse_repo_ref (Some (qualify_repo (Some p) (Some project))) = Some (p, project).
Proof.
  intros S F N Q. unfold qualify_repo.
  change (default "" (Some project)) with project. change (default "" (Some p)) with p. rewrite N.
  apply supported_cases in S as [-> | [-> | ->]].
  - cbn. apply parse_unqualified; [done..|]. by destruct Q.
  - by apply (parse_qualified GITLAB).
  - by apply (parse_qualified AZURE_DEVOPS).
Qed.

Lemma qualified_reference_reads_back_witness :
  parse_repo_ref (Some (qualify_repo (Some "gitlab") (Some "group/sub/project")))
  = Some ("gitlab", "group/sub/project").
Proof.
  apply (qualified_reference_reads_back "gitlab" "group/sub/project"); try reflexivity.
  left. discriminate.
Defined.

Example references :
  parse_repo_ref (Some " GitLab : group/project ") = Some ("gitlab", "group/project")
  /\ parse_repo_ref (Some "https://gitlab.example/g/p") = Some ("github", "https://gitlab.example/g/p")
  /\ parse_repo_ref (Some "  ") = None.
Proof. repeat split; reflexivity. Qed.

(** [qualify_repo] is said to be the inverse of [parse_repo_ref]; a project of GitHub whose
    name begins with another host reads back as a project of that host. *)
Lemma qualify_is_not_the_inverse :
  parse_repo_ref (Some "github:gitlab:group/project") = Some ("github", "gitlab:group/project")
  /\ parse_repo_ref (Some (qualify_repo (Some "github") (Some "gitlab:group/project")))
     = Some ("gitlab", "group/project").
Proof. split; reflexivity. Qed.
