(* ===== verification/TaskBranch.v ===== *)
(** Which branch holds a task's work (web-server/server/services/task_branch.py).

    [h_git] runs git in a directory: its output, None when the call failed; it may change
    the state, as a fetch does.  The marker is the file .task_branch of the spec directory:
    None when it is not there or cannot be read. *)
From S2P Require Import Prelude JsonText EventMonad.
Local Open Scope nat_scope.

Definition last_segment (r : string) : string := List.last (split_on "/" r) "".
Definition _matches (refs : list string) (spec_id : string) : list string :=
  keep (fun r => String.eqb (last_segment r) spec_id) refs.

(** Why nothing was found. *)
Inductive miss := Ambiguous (scope : string) (found : list string) | NoBranch | Unreadable (branch : string).

Section task_branch.
Context {S : Type}.

Record GitHooks := {
  h_git : list string -> string -> S -> option string * S;
  h_marker : S -> option string;
  h_is_dir : string -> S -> bool;
}.
Context (h : GitHooks) (project_path worktree_path spec_id : string).
Abbreviation M := (Eff S (list string)).

(** Every call is recorded. *)
Definition _git (args : list string) (cwd : string) : M (list string) := fun s =>
  let '(o, s') := h_git h args cwd s in
  (Ok (match o with
       | Some text => keep (fun l => negb (is_empty l)) (strip <$> splitlines text)
       | None => []
       end), s', [args]).

Definition current_branch (dflt : string) : M string :=
  lines ← _git ["rev-parse"; "--abbrev-ref"; "HEAD"] project_path;
  let name := hd "" lines in
  mret (if is_empty name || String.eqb name "HEAD" then dflt else name).

Definition recorded_branch (s : S) : option string :=
  match h_marker h s with
  | Some text => let b := strip text in if is_empty b then None else Some b
  | None => None
  end.

Definition ALL_REFS : list string :=
  ["for-each-ref"; "--format=%(refname:short)"; "refs/heads"; "refs/remotes/origin"].

Definition is_ref (r : string) (refs : list string) : bool := existsb (String.eqb r) refs.

Definition _exists (branch : string) : M bool :=
  refs ← _git ALL_REFS project_path;
  mret (is_ref branch refs || is_ref ("origin/" +:+ branch) refs).

(** One scope of one root: None goes on with the next. *)
Definition search_scope (root scope refspec : string) : M (option (string + miss)) :=
  refs ← _git ["for-each-ref"; "--format=%(refname:short)"; refspec] root;
  match _matches refs spec_id with
  | [] => mret None
  | [r] =>
      if String.eqb scope "origin" then
        match cut_at "/" r with
        | Some (_, branch) => mret (Some (inl branch))
        | None => fails (AppError "IndexError")
        end
      else mret (Some (inl r))
  | found => mret (Some (inr (Ambiguous scope found)))
  end.

Fixpoint search_roots (roots : list (string * (string * string))) : M (string + miss) :=
  match roots with
  | [] => mret (inr NoBranch)
  | (root, (scope, refspec)) :: roots' =>
      found ← search_scope root scope refspec;
      match found with Some r => mret r | None => search_roots roots' end
  end.

Definition SCOPES : list (string * string) :=
  [("local", "refs/heads"); ("origin", "refs/remotes/origin")].

Definition _discover : M (string + miss) :=
  roots ← lift (fun s => Ok (keep (fun r => h_is_dir h r s) [worktree_path; project_path]));
  search_roots (root ← roots; pair root <$> SCOPES).

(** The branch that is checked out in the worktree, unless it is the base. *)
Definition from_worktree (base_branch : string) : M (option string) :=
  there ← lift (fun s => Ok (h_is_dir h worktree_path s));
  if there : bool then
    head ← _git ["rev-parse"; "--abbrev-ref"; "HEAD"] worktree_path;
    mret (match head with
          | branch :: _ => if String.eqb branch "HEAD" || String.eqb branch base_branch then None
                           else Some branch
          | [] => None
          end)
  else mret None.

Definition resolve_task_branch (base_branch : string) : M (string + miss) :=
  recorded ← lift (fun s => Ok (recorded_branch s));
  known ← match recorded with
          | Some r => if String.eqb r base_branch then mret false else _exists r
          | None => mret false
          end;
  match (if known : bool then recorded else None) with
  | Some r => mret (inl r)
  | None =>
      b ← from_worktree base_branch;
      match b with Some b => mret (inl b) | None => _discover end
  end.

Definition resolve_task_branch_fetching (base_branch : string) : M (string + miss) :=
  r ← resolve_task_branch base_branch;
  match r with
  | inl b => mret (inl b)
  | inr _ => _f ← _git ["fetch"; "--prune"; "origin"] project_path; resolve_task_branch base_branch
  end.

(** The branch, and the ref to read it by in the project. *)
Definition resolve_work_ref (base_branch : string) : M (string * string + miss) :=
  r ← resolve_task_branch_fetching base_branch;
  match r with
  | inr why => mret (inr why)
  | inl branch =>
      _f ← _git ["fetch"; "origin"; branch] project_path;
      refs ← _git ALL_REFS project_path;
      mret (if is_ref ("origin/" +:+ branch) refs then inl (branch, "origin/" +:+ branch)
            else if is_ref branch refs then inl (branch, branch)
            else inr (Unreadable branch))
  end.

(** ** Lemmas *)

Lemma matches_last r refs : r ∈ _matches refs spec_id -> last_segment r = spec_id.
Proof. unfold _matches. rewrite elem_of_keep. by intros [_ ?%String.eqb_eq]. Qed.

Lemma split_on_nil c s : split_on c s <> [].
Proof.
  destruct s as [|d s]; cbn; [done|]. destruct (Ascii.eqb d c); [done|]. by destruct (split_on c s).
Qed.

Lemma split_on_cut (c : ascii) (s a b : string) : cut_at (String c "") s = Some (a, b) ->
  split_on c s = a :: split_on c b.
Proof.
  revert a. induction s as [|d s IH]; intros a; cbn [cut_at after_prefix]; [done|].
  destruct (Ascii.eqb_spec c d) as [->|N].
  - intros E. assert (a = "" /\ b = s) as [-> ->] by (destruct s; by injection E as <- <-). cbn [split_on].
    by rewrite Ascii.eqb_refl.
  - destruct (cut_at (String c "") s) as [[a' b']|]; [|done]. intros [= <- <-]. cbn [split_on].
    destruct (Ascii.eqb_spec d c) as [->|_]; [done|]. by rewrite (IH a' eq_refl).
Qed.

Lemma last_segment_cut s a b : cut_at "/" s = Some (a, b) -> last_segment b = last_segment s.
Proof.
  intros E. unfold last_segment. rewrite (split_on_cut _ _ _ _ E).
  destruct (split_on "/" b) eqn:B; [|done]. by apply split_on_nil in B.
Qed.

(** Whatever discovery returns ends with the task. *)
Lemma search_scope_last root scope refspec s :
  wp (search_scope root scope refspec)
     (fun r _ _ => forall b, r = Ok (Some (inl b)) -> last_segment b = spec_id) s.
Proof.
  unfold search_scope. apply wp_bind, (wp_mono _ _ _ _ (wp_true _ _)). intros [refs|e] s1 l1 _; [|done].
  destruct (_matches refs spec_id) as [|r [|r' found]] eqn:F; [by apply wp_ret| |by apply wp_ret].
  assert (last_segment r = spec_id) as L by (apply (matches_last r refs); rewrite F; apply list_elem_of_here).
  destruct (String.eqb scope "origin"); [|apply wp_ret; by intros b [= <-]].
  destruct (cut_at "/" r) as [[a b]|] eqn:C; [|done]. apply wp_ret. intros b' [= <-].
  by rewrite (last_segment_cut _ _ _ C).
Qed.

Lemma discover_last s :
  wp _discover (fun r _ _ => forall b, r = Ok (inl b) -> last_segment b = spec_id) s.
Proof.
  unfold _discover. apply wp_bind, wp_lift.
  generalize (root ← keep (fun r => h_is_dir h r s) [worktree_path; project_path]; pair root <$> SCOPES).
  intros roots. cbn [app]. revert s. induction roots as [|[root [scope refspec]] roots IH]; intros s; [by apply wp_ret|].
  apply wp_bind, (wp_mono _ _ _ _ (search_scope_last root scope refspec s)). intros [[[b|m]|]|e] s1 l1 F; [..|done].
  - apply wp_ret. intros b' [= <-]. by apply F.
  - by apply wp_ret.
  - apply (wp_mono _ _ _ _ (IH s1)). done.
Qed.

(** A resolved branch is not the base, or is what discovery found. *)
Definition sound (base_branch : string) (r : res (string + miss)) : Prop :=
  forall b, r = Ok (inl b) -> b <> base_branch \/ last_segment b = spec_id.

Lemma resolve_sound base_branch s :
  wp (resolve_task_branch base_branch) (fun r _ _ => sound base_branch r) s.
Proof.
  unfold resolve_task_branch. apply wp_bind, wp_lift, wp_bind.
  apply (wp_mono _ (fun r _ _ => r = Ok true -> recorded_branch s <> Some base_branch)).
  - destruct (recorded_branch s) as [r|]; [|by apply wp_ret].
    destruct (String.eqb_spec r base_branch) as [|N]; [by apply wp_ret|].
    apply (wp_mono _ _ _ _ (wp_true _ _)). intros r' _ _ _ _ [= ->]. done.
  - intros [known|e] s1 l1 K; [|done].
    destruct (if known then recorded_branch s else None) as [r|] eqn:R.
    + destruct known; [|done]. apply wp_ret. intros b [= <-]. left. intros ->. by apply K.
    + apply wp_bind. apply (wp_mono _ (fun r _ _ => forall b, r = Ok (Some b) -> b <> base_branch)).
      * unfold from_worktree. apply wp_bind, wp_lift. destruct (h_is_dir h worktree_path s1); [|by apply wp_ret].
        apply wp_bind, (wp_mono _ _ _ _ (wp_true _ _)). intros [[|b l]|e] s2 l2 _; [by apply wp_ret| |done].
        apply wp_ret. intros b'. destruct (String.eqb_spec b "HEAD"), (String.eqb_spec b base_branch); try done.
        by intros [= <-].
      * intros [[b|]|e] s2 l2 N; [|apply (wp_mono _ _ _ _ (discover_last s2))|done].
        -- apply wp_ret. intros b' [= <-]. left. by apply N.
        -- intros r _ _ L b E. right. by apply L.
Qed.

Lemma fetching_sound base_branch s :
  wp (resolve_task_branch_fetching base_branch) (fun r _ _ => sound base_branch r) s.
Proof.
  unfold resolve_task_branch_fetching. apply wp_bind, (wp_mono _ _ _ _ (resolve_sound base_branch s)).
  intros [[b|m]|e] s1 l1 So; [by apply wp_ret| |done].
  apply wp_bind, (wp_mono _ _ _ _ (wp_true _ _)). intros [?|e] s2 l2 _; [|done]. apply resolve_sound.
Qed.

(** The branch a task's work is read from is never the base branch, unless the
    base itself ends with the task's name; and the ref is the pushed branch or the local one. *)
Theorem work_ref_is_not_the_base (base_branch branch ref : string) (s s' : S) (l : list (list string)) :
  resolve_work_ref base_branch s = (Ok (inl (branch, ref)), s', l) -> last_segment base_branch <> spec_id ->
  branch <> base_branch /\ (ref = branch \/ ref = "origin/" +:+ branch).
Proof.
  intros R N. refine (wp_run (resolve_work_ref base_branch) (fun r _ _ => forall p, r = Ok (inl p) ->
    p.1 <> base_branch /\ (p.2 = p.1 \/ p.2 = "origin/" +:+ p.1)) _ _ _ _ _ R (branch, ref) eq_refl). clear R.
  unfold resolve_work_ref. apply wp_bind, (wp_mono _ _ _ _ (fetching_sound base_branch s)).
  intros [[b|m]|e] s1 l1 So; [|by apply wp_ret|done].
  apply wp_bind, (wp_mono _ _ _ _ (wp_true _ _)). intros [?|e] s2 l2 _; [|done].
  apply wp_bind, (wp_mono _ _ _ _ (wp_true _ _)). intros [refs|e] s3 l3 _; [|done].
  apply wp_ret. assert (b <> base_branch) as Nb.
  { intros ->. destruct (So base_branch eq_refl) as [?|?]; done. }
  intros p. destruct (is_ref ("origin/" +:+ b) refs); [|destruct (is_ref b refs)]; intros [= <-]; cbn; auto.
Qed.
End task_branch.

(** ** Example: a task built in another pod *)

Definition pushed_hooks : GitHooks (S := bool) := {|
  h_git := fun args cwd fetched =>
    let line := join " " args in
    if contains "fetch" line then (Some "", true)
    else if contains "rev-parse" line then (Some "main", fetched)
    else if contains "refs/remotes/origin" line then
      (Some (if fetched : bool then "origin/aifactory/001-shop" else "origin/main"), fetched)
    else (Some "main", fetched);
  h_marker := fun _ => None;
  h_is_dir := fun _ _ => true;
|}.
Lemma work_ref_is_not_the_base_witness :
  "aifactory/001-shop" <> "main" /\ ("origin/aifactory/001-shop" = "aifactory/001-shop"
    \/ "origin/aifactory/001-shop" = "origin/" +:+ "aifactory/001-shop").
Proof.
  apply (work_ref_is_not_the_base pushed_hooks "/p" "/w" "001-shop" "main" "aifactory/001-shop"
           "origin/aifactory/001-shop" false true
           (resolve_work_ref pushed_hooks "/p" "/w" "001-shop" "main" false).2).
  - vm_compute. reflexivity.
  - discriminate.
Defined.

(** Discovery does not exclude the base: a task that is built on a branch whose last segment
    is its own name resolves to the base, which the module says never happens. *)
Lemma discovery_can_return_the_base :
  (resolve_task_branch (S := ()) {| h_git := fun args _ s => (Some "team/001-shop", s);
                                    h_marker := fun _ => None; h_is_dir := fun _ _ => true |}
     "/p" "/w" "001-shop" "team/001-shop" ()).1.1 = Ok (inl "team/001-shop").
Proof. vm_compute. reflexivity. Qed.
