(* ===== verification/Recovery.v ===== *)
(** The recovery manager (apps/backend/services/recovery.py): attempt history, failure
    classification, recovery decisions, good commits and stuck subtasks.

    The two memory files are records the manager writes itself; a file that is missing,
    unreadable or not JSON is None.  A time stamp that cannot be read back is None too. *)
From stdpp Require Import gmap.
From S2P Require Import Prelude PyData JsonText PlanData PlanLogic ApprovalGate.

Definition ATTEMPT_WINDOW_SECONDS : Z := 7200.
Definition MAX_ATTEMPT_HISTORY_PER_SUBTASK : nat := 50.

Inductive FailureType :=
  | BROKEN_BUILD | VERIFICATION_FAILED | CIRCULAR_FIX | CONTEXT_EXHAUSTED | UNKNOWN.

Record RecoveryAction := { ra_action : string; ra_target : string; ra_reason : string }.

(** ** The memory files *)

Record Attempt := {
  at_session : Z;
  at_timestamp : option Z;
  at_approach : string;
  at_success : bool;
  at_error : option string;
}.

Record SubtaskHistory := { sh_attempts : list Attempt; sh_status : string }.

Record StuckEntry := {
  se_subtask_id : string;
  se_reason : string;
  se_escalated_at : Z;
  se_attempt_count : nat;
}.

Record History := {
  hi_subtasks : gmap string SubtaskHistory;
  hi_stuck : list StuckEntry;
  hi_created_at : Z;
  hi_last_updated : Z;
}.

Record CommitRecord := { cr_hash : string; cr_subtask_id : string; cr_timestamp : Z }.

Record BuildCommits := {
  bc_commits : list CommitRecord;
  bc_last_good : option string;
  bc_created_at : Z;
  bc_last_updated : Z;
}.

(** The plan file: None when missing or unreadable. *)
Record Recovery := {
  re_history : option History;
  re_commits : option BuildCommits;
  re_plan : option json;
}.

Definition init_attempt_history (now : Z) : History :=
  {| hi_subtasks := ∅; hi_stuck := []; hi_created_at := now; hi_last_updated := now |}.
Definition init_build_commits (now : Z) : BuildCommits :=
  {| bc_commits := []; bc_last_good := None; bc_created_at := now; bc_last_updated := now |}.

(** A load writes the initial file when there is none to read. *)
Definition load_attempt_history (now : Z) (s : Recovery) : History :=
  match re_history s with Some h => h | None => init_attempt_history now end.
Definition load_build_commits (now : Z) (s : Recovery) : BuildCommits :=
  match re_commits s with Some c => c | None => init_build_commits now end.

Definition set_history (s : Recovery) (h : History) : Recovery :=
  {| re_history := Some h; re_commits := re_commits s; re_plan := re_plan s |}.
Definition set_commits (s : Recovery) (c : BuildCommits) : Recovery :=
  {| re_history := re_history s; re_commits := Some c; re_plan := re_plan s |}.
Definition set_plan (s : Recovery) (p : json) : Recovery :=
  {| re_history := re_history s; re_commits := re_commits s; re_plan := Some p |}.

Definition save_attempt_history (now : Z) (h : History) (s : Recovery) : Recovery :=
  set_history s {| hi_subtasks := hi_subtasks h; hi_stuck := hi_stuck h;
                   hi_created_at := hi_created_at h; hi_last_updated := now |}.

(** [RecoveryManager(...)]: both files exist afterwards, unreadable ones as they were. *)
Definition new_manager (now : Z) (history_exists commits_exists : bool) (s : Recovery) : Recovery :=
  let s := if history_exists then s else set_history s (init_attempt_history now) in
  if commits_exists then s else set_commits s (init_build_commits now).

(** [history["subtasks"].get(id, {}).get("attempts", [])] *)
Definition attempts_of (id : string) (h : History) : list Attempt :=
  match hi_subtasks h !! id with Some d => sh_attempts d | None => [] end.

Definition no_attempts : SubtaskHistory := {| sh_attempts := []; sh_status := "pending" |}.

(** ** Attempts *)

(** An attempt whose time stamp cannot be read is counted. *)
Definition recent (now : Z) (a : Attempt) : bool :=
  match at_timestamp a with
  | Some t => (now - ATTEMPT_WINDOW_SECONDS <=? t)%Z
  | None => true
  end.

Definition get_attempt_count (now : Z) (id : string) (s : Recovery) : nat :=
  countb (recent now) (attempts_of id (load_attempt_history now s)).

(** [l[-n:]] *)
Definition lastn {A} (n : nat) (l : list A) : list A := drop (length l - n) l.

Definition record_attempt (now : Z) (id : string) (session : Z) (success : bool)
    (approach : string) (error : option string) (s : Recovery) : Recovery :=
  let h := load_attempt_history now s in
  let attempts := attempts_of id h ++
    [{| at_session := session; at_timestamp := Some now; at_approach := approach;
        at_success := success; at_error := error |}] in
  let attempts :=
    if MAX_ATTEMPT_HISTORY_PER_SUBTASK <? length attempts
    then lastn MAX_ATTEMPT_HISTORY_PER_SUBTASK attempts else attempts in
  let d := {| sh_attempts := attempts;
              sh_status := if success then "completed" else "failed" |} in
  save_attempt_history now
    {| hi_subtasks := <[id := d]> (hi_subtasks h); hi_stuck := hi_stuck h;
       hi_created_at := hi_created_at h; hi_last_updated := hi_last_updated h |} s.

(** ** Circular fixes *)

Definition split (s : string) : list string := split_words "" s.

Definition stop_words : list string :=
  ["with"; "using"; "the"; "a"; "an"; "and"; "or"; "but"; "in"; "on"; "at"; "to"; "for";
   "trying"].

Definition keywords (text : string) : gset string :=
  list_to_set (keep (fun w => negb (existsb (String.eqb w) stop_words)) (split (lower text))).

(** [overlap / total > 0.3], which for sizes of sets is [3 * total < 10 * overlap]. *)
Definition similar (current other : gset string) : bool :=
  let overlap := size (current ∩ other) in
  let total := size (current ∪ other) in
  (0 <? total) && (3 * total <? 10 * overlap).

Definition is_circular_fix (now : Z) (id current_approach : string) (s : Recovery) : bool :=
  let attempts := attempts_of id (load_attempt_history now s) in
  if length attempts <? 2 then false
  else
    let recent_attempts := lastn 3 attempts in
    2 <=? countb (fun a => similar (keywords current_approach) (keywords (at_approach a)))
            recent_attempts.

(** ** Classification and decision *)

Definition build_errors : list string :=
  ["syntax error"; "compilation error"; "module not found"; "import error";
   "cannot find module"; "unexpected token"; "indentation error"; "parse error"].
Definition verification_errors : list string :=
  ["verification failed"; "expected"; "assertion"; "test failed"; "status code"].
Definition context_errors : list string := ["context"; "token limit"; "maximum length"].

Definition classify_failure (now : Z) (error id : string) (s : Recovery) : FailureType :=
  let error_lower := lower error in
  let any l := existsb (fun e => contains e error_lower) l in
  if any build_errors then BROKEN_BUILD
  else if any verification_errors then VERIFICATION_FAILED
  else if any context_errors then CONTEXT_EXHAUSTED
  else if is_circular_fix now id error s then CIRCULAR_FIX
  else UNKNOWN.

Definition get_last_good_commit (now : Z) (s : Recovery) : option string :=
  bc_last_good (load_build_commits now s).

Definition action (a t r : string) : RecoveryAction :=
  {| ra_action := a; ra_target := t; ra_reason := r |}.

Definition determine_recovery_action (now : Z) (failure_type : FailureType) (id : string)
    (s : Recovery) : RecoveryAction :=
  let attempt_count := get_attempt_count now id s in
  match failure_type with
  | BROKEN_BUILD =>
      match truthy_opt (get_last_good_commit now s) with
      | Some last_good =>
          action "rollback" last_good
            ("Build broken in subtask " +:+ id +:+ ", rolling back to working state")
      | None => action "escalate" id "Build broken and no good commit found to rollback to"
      end
  | VERIFICATION_FAILED =>
      if attempt_count <? 3 then
        action "retry" id
          ("Verification failed, retry with different approach (attempt "
           +:+ pretty (S attempt_count) +:+ "/3)")
      else
        action "skip" id
          ("Verification failed after " +:+ pretty attempt_count +:+ " attempts, marking as stuck")
  | CIRCULAR_FIX =>
      action "skip" id "Circular fix detected - same approach tried multiple times"
  | CONTEXT_EXHAUSTED =>
      action "continue" id
        "Context exhausted, will commit progress and continue in next session"
  | UNKNOWN =>
      if attempt_count <? 2 then
        action "retry" id
          ("Unknown error, retrying (attempt " +:+ pretty (S attempt_count) +:+ "/2)")
      else
        action "escalate" id
          ("Unknown error persists after " +:+ pretty attempt_count +:+ " attempts")
  end.

Definition check_and_recover (now : Z) (id : string) (error : option string) (s : Recovery)
  : option RecoveryAction :=
  match truthy_opt error with
  | None => None
  | Some e => Some (determine_recovery_action now (classify_failure now e id s) id s)
  end.

Definition record_good_commit (now : Z) (commit_hash id : string) (s : Recovery) : Recovery :=
  let c := load_build_commits now s in
  set_commits s
    {| bc_commits := bc_commits c ++
         [{| cr_hash := commit_hash; cr_subtask_id := id; cr_timestamp := now |}];
       bc_last_good := Some commit_hash; bc_created_at := bc_created_at c;
       bc_last_updated := now |}.

(** ** Stuck subtasks *)

(** The note in the plan: what an earlier output is joined to. *)
Definition stuck_output (note : string) (existing : option json) : res string :=
  match existing with
  | Some v =>
      if truthy v then let! t := py_str v in Ok (note +:+ String (ascii_of_nat 10) "" +:+ t)
      else Ok note
  | None => Ok note
  end.

(** [subtask.get("id") == subtask_id] *)
Definition is_subtask (id : string) (d : dict) : bool :=
  match dget "id" d with Some (JStr i) => String.eqb i id | _ => false end.

(** The inner loop: the subtasks afterwards and whether one was updated.  An element that
    is not an object has no [get]. *)
Fixpoint mark_subtasks (id note : string) (l : list json) : res (list json * bool) :=
  match l with
  | [] => Ok ([], false)
  | JObj d :: l' =>
      if is_subtask id d then
        let! out := stuck_output note (dget "actual_output" d) in
        Ok (JObj (dset "actual_output" (JStr out) (dset "status" (JStr "failed") d)) :: l', true)
      else
        match mark_subtasks id note l' with
        | Ok (k, b) => Ok (JObj d :: k, b)
        | Err e => Err e
        end
  | _ :: _ => Err AttributeError
  end.

(** The subtasks of a phase: a list, or a value without elements of its own. *)
Definition mark_phase (id note : string) (phase : dict) : res (dict * bool) :=
  match dget "subtasks" phase with
  | Some (JList l) =>
      match mark_subtasks id note l with
      | Ok (k, b) => Ok (dset "subtasks" (JList k) phase, b)
      | Err e => Err e
      end
  | Some v => let! l := as_iter v in Ok (phase, false)
  | None => Ok (phase, false)
  end.

Fixpoint mark_phases (id note : string) (l : list json) : res (list json * bool) :=
  match l with
  | [] => Ok ([], false)
  | JObj phase :: l' =>
      match mark_phase id note phase with
      | Ok (phase', true) => Ok (JObj phase' :: l', true)
      | Ok (phase', false) =>
          match mark_phases id note l' with
          | Ok (k, b) => Ok (JObj phase' :: k, b)
          | Err e => Err e
          end
      | Err e => Err e
      end
  | _ :: _ => Err AttributeError
  end.

(** The plan afterwards, if it was updated. *)
Definition mark_plan (id reason : string) (plan : json) : res (option json) :=
  match plan with
  | JObj p =>
      match dget "phases" p with
      | Some (JList l) =>
          match mark_phases id ("Marked as stuck: " +:+ reason) l with
          | Ok (k, true) => Ok (Some (JObj (dset "phases" (JList k) p)))
          | Ok (_, false) => Ok None
          | Err e => Err e
          end
      | Some v => let! l := as_iter v in Ok None
      | None => Ok None
      end
  | _ => Err AttributeError
  end.

Definition mark_subtask_stuck (now : Z) (id reason : string) (s : Recovery)
  : res unit * Recovery :=
  let h := load_attempt_history now s in
  let entry := {| se_subtask_id := id; se_reason := reason; se_escalated_at := now;
                  se_attempt_count := get_attempt_count now id s |} in
  let stuck :=
    if existsb (fun e => String.eqb (se_subtask_id e) id) (hi_stuck h)
    then hi_stuck h else hi_stuck h ++ [entry] in
  let subtasks :=
    match hi_subtasks h !! id with
    | Some d => <[id := {| sh_attempts := sh_attempts d; sh_status := "stuck" |}]> (hi_subtasks h)
    | None => hi_subtasks h
    end in
  let s := save_attempt_history now
    {| hi_subtasks := subtasks; hi_stuck := stuck; hi_created_at := hi_created_at h;
       hi_last_updated := hi_last_updated h |} s in
  match re_plan s with
  | None => (Ok tt, s)
  | Some plan =>
      match mark_plan id reason plan with
      | Ok (Some plan') => (Ok tt, set_plan s plan')
      | Ok None => (Ok tt, s)
      | Err e => (Err e, s)
      end
  end.

Definition get_stuck_subtasks (now : Z) (s : Recovery) : list StuckEntry :=
  hi_stuck (load_attempt_history now s).

Definition get_subtask_history (now : Z) (id : string) (s : Recovery) : SubtaskHistory :=
  default no_attempts (hi_subtasks (load_attempt_history now s) !! id).

Definition get_recovery_hints (now : Z) (id : string) (s : Recovery) : list string :=
  let attempts := sh_attempts (get_subtask_history now id s) in
  match attempts with
  | [] => ["This is the first attempt at this subtask"]
  | _ =>
      ["Previous attempts: " +:+ pretty (length attempts)]
      ++ concat (imap (fun i a =>
           ("Attempt " +:+ pretty (S i) +:+ ": " +:+ at_approach a +:+ " - "
            +:+ (if at_success a then "SUCCESS" else "FAILED"))
           :: match truthy_opt (at_error a) with
              | Some e => ["  Error: " +:+ String.substring 0 100 e]
              | None => []
              end) (lastn 3 attempts))
      ++ (if 2 <=? length attempts then
            [String (ascii_of_nat 10) "IMPORTANT: Try a DIFFERENT approach than previous attempts";
             "Consider: different library, different pattern, or simpler implementation"]
          else [])
  end.

Definition clear_stuck_subtasks (now : Z) (s : Recovery) : Recovery :=
  let h := load_attempt_history now s in
  save_attempt_history now
    {| hi_subtasks := hi_subtasks h; hi_stuck := []; hi_created_at := hi_created_at h;
       hi_last_updated := hi_last_updated h |} s.

Definition reset_subtask (now : Z) (id : string) (s : Recovery) : Recovery :=
  let h := load_attempt_history now s in
  let subtasks :=
    match hi_subtasks h !! id with
    | Some _ => <[id := no_attempts]> (hi_subtasks h)
    | None => hi_subtasks h
    end in
  save_attempt_history now
    {| hi_subtasks := subtasks;
       hi_stuck := keep (fun e => negb (String.eqb (se_subtask_id e) id)) (hi_stuck h);
       hi_created_at := hi_created_at h; hi_last_updated := hi_last_updated h |} s.

(** ** The log of what happened *)

Inductive rec_op :=
  | RRecord (now : Z) (id : string) (session : Z) (success : bool) (approach : string)
      (error : option string)
  | RCommit (now : Z) (commit_hash id : string)
  | RStuck (now : Z) (id reason : string)
  | RReset (now : Z) (id : string)
  | RClear (now : Z)
  | RLose.

(** [RLose]: the history file disappears or is damaged. *)
Definition rec_step (s : Recovery) (op : rec_op) : Recovery :=
  match op with
  | RRecord now id session success approach error =>
      record_attempt now id session success approach error s
  | RCommit now h id => record_good_commit now h id s
  | RStuck now id reason => (mark_subtask_stuck now id reason s).2
  | RReset now id => reset_subtask now id s
  | RClear now => clear_stuck_subtasks now s
  | RLose => {| re_history := None; re_commits := re_commits s; re_plan := re_plan s |}
  end.

(** The attempts made on a subtask since its last reset, all of them. *)
Definition log_step (id : string) (log : list Attempt) (op : rec_op) : list Attempt :=
  match op with
  | RRecord now id' session success approach error =>
      if String.eqb id' id then
        log ++ [{| at_session := session; at_timestamp := Some now; at_approach := approach;
                   at_success := success; at_error := error |}]
      else log
  | RReset _ id' => if String.eqb id' id then [] else log
  | RLose => []
  | _ => log
  end.

(** The last good commit recorded. *)
Definition commit_step (last : option string) (op : rec_op) : option string :=
  match op with RCommit _ h _ => Some h | _ => last end.

Definition op_time (op : rec_op) : option Z :=
  match op with
  | RRecord now _ _ _ _ _ | RCommit now _ _ | RStuck now _ _ | RReset now _ | RClear now => Some now
  | RLose => None
  end.

(** The clock of a sequence of operations does not go back. *)
Fixpoint clock_sorted (t : Z) (ops : list rec_op) : Prop :=
  match ops with
  | [] => True
  | op :: ops' =>
      match op_time op with
      | Some now => (t <= now)%Z /\ clock_sorted now ops'
      | None => clock_sorted t ops'
      end
  end.

Definition no_files (plan : option json) : Recovery :=
  {| re_history := None; re_commits := None; re_plan := plan |}.

Definition rec_run (ops : list rec_op) (plan : option json) : Recovery :=
  foldl rec_step (no_files plan) ops.
Definition log_of (id : string) (ops : list rec_op) : list Attempt := foldl (log_step id) [] ops.
Definition last_commit (ops : list rec_op) : option string := foldl commit_step None ops.

(** ** Lemmas *)

Lemma lastn_all {A} n (l : list A) : length l <= n -> lastn n l = l.
Proof. intros H. unfold lastn. by replace (length l - n) with 0 by lia. Qed.

Lemma lastn_snoc {A} n (l : list A) x :
  0 < n -> lastn n (lastn n l ++ [x]) = lastn n (l ++ [x]).
Proof.
  intros Hn. unfold lastn. rewrite !length_app, length_drop. cbn [length].
  rewrite !drop_app, !length_drop, drop_drop. f_equal.
  - f_equal. lia.
  - f_equal. lia.
Qed.

Lemma length_lastn {A} n (l : list A) : length (lastn n l) = Nat.min n (length l).
Proof. unfold lastn. rewrite length_drop. lia. Qed.

Lemma lastn_if {A} n (l : list A) : (if n <? length l then lastn n l else l) = lastn n l.
Proof.
  destruct (n <? length l) eqn:E; [done|]. apply Nat.ltb_ge in E. by rewrite lastn_all.
Qed.

(** What every file the manager reads holds: the last fifty attempts of the log, a stuck
    list without repetition, the last commit. *)
Record represents (s : Recovery) (log : string -> list Attempt) (last : option string) : Prop := {
  rep_attempts : forall now id,
    attempts_of id (load_attempt_history now s) = lastn MAX_ATTEMPT_HISTORY_PER_SUBTASK (log id);
  rep_stuck : forall now, NoDup (se_subtask_id <$> hi_stuck (load_attempt_history now s));
  rep_commit : forall now, get_last_good_commit now s = last;
}.

Lemma attempts_of_insert id id' d h t c u :
  attempts_of id {| hi_subtasks := <[id' := d]> (hi_subtasks h); hi_stuck := t; hi_created_at := c;
                    hi_last_updated := u |}
  = if String.eqb id' id then sh_attempts d else attempts_of id h.
Proof.
  unfold attempts_of. cbn [hi_subtasks]. destruct (String.eqb_spec id' id) as [->|Hne].
  - by rewrite lookup_insert_eq.
  - by rewrite lookup_insert_ne.
Qed.

Lemma stuck_nodup id h now n reason :
  NoDup (se_subtask_id <$> hi_stuck h) ->
  NoDup (se_subtask_id <$>
    (if existsb (fun e => String.eqb (se_subtask_id e) id) (hi_stuck h) then hi_stuck h
     else hi_stuck h ++ [{| se_subtask_id := id; se_reason := reason; se_escalated_at := now;
                            se_attempt_count := n |}])).
Proof.
  intros H. destruct (existsb _ _) eqn:E; [done|]. rewrite fmap_app. apply NoDup_app.
  split; [done|]. split; [|apply NoDup_singleton]. intros x Hx Hx'.
  apply list_elem_of_singleton in Hx' as ->. apply list_elem_of_fmap in Hx as (e & Ee & He).
  rewrite existsb_false in E. specialize (E e He). cbn in E, Ee. by rewrite <- Ee, String.eqb_refl in E.
Qed.

(** A save that keeps the attempts and has no repetition among the stuck entries. *)
Lemma represents_save s log log' last now h :
  represents s log last ->
  (forall id, attempts_of id h = lastn MAX_ATTEMPT_HISTORY_PER_SUBTASK (log' id)) ->
  NoDup (se_subtask_id <$> hi_stuck h) ->
  represents (save_attempt_history now h s) log' last.
Proof. intros [_ _ H3] Ha Hs. split; [done|done|]. intros now'. apply (H3 now'). Qed.

Lemma represents_plan s log last p : represents s log last -> represents (set_plan s p) log last.
Proof. by intros [H1 H2 H3]. Qed.

Lemma represents_step s log last op :
  represents s log last ->
  represents (rec_step s op) (fun id => log_step id (log id) op) (commit_step last op).
Proof.
  intros Hrep. pose proof Hrep as [H1 H2 H3].
  destruct op as [now id ses ok ap err|now h id|now id reason|now id|now|]; cbn [rec_step commit_step].
  - apply (represents_save s log); [done| |apply H2]. intros id'. cbn [log_step].
    rewrite attempts_of_insert. cbn [sh_attempts]. rewrite lastn_if, !H1.
    destruct (String.eqb_spec id id') as [->|]; [|done]. apply lastn_snoc, Nat.lt_0_succ.
  - split; [exact H1|exact H2|]. done.
  - assert (R : represents (save_attempt_history now
        {| hi_subtasks := match hi_subtasks (load_attempt_history now s) !! id with
                          | Some d => <[id := {| sh_attempts := sh_attempts d; sh_status := "stuck" |}]>
                                        (hi_subtasks (load_attempt_history now s))
                          | None => hi_subtasks (load_attempt_history now s)
                          end;
           hi_stuck := if existsb (fun e => String.eqb (se_subtask_id e) id)
                            (hi_stuck (load_attempt_history now s))
                       then hi_stuck (load_attempt_history now s)
                       else hi_stuck (load_attempt_history now s) ++
                         [{| se_subtask_id := id; se_reason := reason; se_escalated_at := now;
                             se_attempt_count := get_attempt_count now id s |}];
           hi_created_at := hi_created_at (load_attempt_history now s);
           hi_last_updated := hi_last_updated (load_attempt_history now s) |} s)
        (fun id' => log_step id' (log id') (RStuck now id reason)) last).
    { apply (represents_save s log); [done| |by apply stuck_nodup].
      intros id'. cbn [log_step]. rewrite <- (H1 now id').
      destruct (hi_subtasks (load_attempt_history now s) !! id) as [d|] eqn:Ed; [|done].
      rewrite attempts_of_insert. destruct (String.eqb_spec id id') as [->|]; [|done].
      unfold attempts_of. by rewrite Ed. }
    unfold mark_subtask_stuck. destruct (re_plan _) as [plan|]; [|exact R].
    destruct (mark_plan id reason plan) as [[p|]|e]; [|exact R|exact R].
    exact (represents_plan _ _ _ p R).
  - apply (represents_save s log); [done| |].
    + intros id'. cbn [log_step]. destruct (hi_subtasks (load_attempt_history now s) !! id) eqn:Ed.
      * rewrite attempts_of_insert, (H1 now). destruct (String.eqb_spec id id'); reflexivity.
      * destruct (String.eqb_spec id id') as [->|]; [|by rewrite <- (H1 now)].
        unfold attempts_of. cbn [hi_subtasks]. by rewrite Ed.
    + cbn [hi_stuck]. eapply sublist_NoDup; [apply (H2 now)|]. apply sublist_map, keep_sublist.
  - apply (represents_save s log); [done| |cbn; apply NoDup_nil_2].
    intros id'. cbn [log_step]. by rewrite <- (H1 now).
  - split; [done| |exact H3]. intros now. cbn. apply NoDup_nil_2.
Qed.

Lemma represents_run ops plan :
  represents (rec_run ops plan) (fun id => log_of id ops) (last_commit ops).
Proof.
  unfold rec_run, log_of, last_commit.
  assert (H : represents (no_files plan) (fun _ => []) None).
  { split; [done| |done]. intros now. cbn. apply NoDup_nil_2. }
  induction ops as [|op ops IH] using rev_ind; [exact H|].
  rewrite !foldl_app. cbn [foldl]. apply (represents_step _ _ _ op) in IH.
  split; [|apply IH|apply IH]. intros now id. rewrite foldl_app. apply IH.
Qed.

(** ** The window on a sorted log *)

(** Attempts in the order of their time stamps, none later than [t]. *)
Fixpoint times_sorted (l : list Attempt) : Prop :=
  match l with
  | [] => True
  | a :: l' =>
      (exists t, at_timestamp a = Some t /\
         forall b, b ∈ l' -> exists u, at_timestamp b = Some u /\ (t <= u)%Z)
      /\ times_sorted l'
  end.

Lemma times_sorted_snoc l a t :
  times_sorted l -> at_timestamp a = Some t ->
  (forall b, b ∈ l -> exists u, at_timestamp b = Some u /\ (u <= t)%Z) ->
  times_sorted (l ++ [a]).
Proof.
  intros Hl Ha. induction l as [|b l IH]; intros Hb.
  - cbn. split; [|done]. exists t. split; [done|]. intros c Hc. by apply elem_of_nil in Hc.
  - cbn. destruct Hl as [(u & Hu & Hmin) Hl]. split.
    + exists u. split; [done|]. intros c Hc. apply elem_of_app in Hc as [Hc| ->%list_elem_of_singleton].
      * by apply Hmin.
      * exists t. split; [done|]. destruct (Hb b (list_elem_of_here _ _)) as (u' & Hu' & ?). congruence.
    + apply IH; [done|]. intros c Hc. apply (Hb c). by apply list_elem_of_further.
Qed.

(** The clock orders the log. *)
Lemma log_sorted id ops l t :
  times_sorted l -> (forall b, b ∈ l -> exists u, at_timestamp b = Some u /\ (u <= t)%Z) ->
  clock_sorted t ops -> times_sorted (foldl (log_step id) l ops).
Proof.
  revert l t. induction ops as [|op ops IH]; intros l t Hl Hb Hc; [done|]. cbn [foldl].
  assert (Hup : forall now, (t <= now)%Z ->
            forall b, b ∈ l -> exists u, at_timestamp b = Some u /\ (u <= now)%Z).
  { intros now Hle b Hin. destruct (Hb b Hin) as (u & Hu & Hut). exists u. split; [done | lia]. }
  destruct op as [now id' ses ok ap err|now h id'|now id' reason|now id'|now|];
    cbn [clock_sorted op_time log_step] in *.
  1: destruct Hc as [Ht Hc]; destruct (String.eqb id' id); [|by apply (IH l now); auto].
  1: apply (IH _ now); [by apply (times_sorted_snoc _ _ now); auto| |done].
  1: intros b Hin; apply elem_of_app in Hin as [Hin| ->%list_elem_of_singleton]; [by apply Hup|].
  1: exists now; split; [done | lia].
  1, 2, 4: destruct Hc as [Ht Hc]; by apply (IH l now); auto.
  - destruct Hc as [Ht Hc]. destruct (String.eqb id' id); [|by apply (IH l now); auto].
    apply (IH [] now); [done| |done]. intros b Hin. by apply elem_of_nil in Hin.
  - apply (IH [] t); [done| |done]. intros b Hin. by apply elem_of_nil in Hin.
Qed.

(** On a sorted log the recent attempts are the last ones, so keeping fifty is enough. *)
Lemma sorted_window now l n :
  times_sorted l -> countb (recent now) (lastn n l) = Nat.min n (countb (recent now) l).
Proof.
  induction l as [|a l IH]; intros Hs.
  { unfold lastn. rewrite drop_nil. cbn. lia. }
  destruct Hs as [(t & Ht & Hmin) Hs]. specialize (IH Hs).
  destruct (decide (length (a :: l) <= n)) as [Hle|Hgt].
  { rewrite lastn_all by done. pose proof (countb_le (recent now) (a :: l)). lia. }
  assert (E : lastn n (a :: l) = lastn n l).
  { unfold lastn. cbn [length] in Hgt |- *. by replace (S (length l) - n) with (S (length l - n)) by lia. }
  rewrite E, IH, countb_cons. destruct (recent now a) eqn:Ea; [|done].
  assert (Hall : countb (recent now) l = length l).
  { apply countb_all, forallb_spec. intros b Hb. destruct (Hmin b Hb) as (u & Hu & Hle).
    unfold recent in Ea |- *. rewrite Ht in Ea. rewrite Hu. apply Z.leb_le in Ea. apply Z.leb_le. lia. }
  rewrite Hall. cbn [length] in Hgt. lia.
Qed.

Lemma window_of_log ops plan now id t :
  clock_sorted t ops ->
  get_attempt_count now id (rec_run ops plan)
  = Nat.min MAX_ATTEMPT_HISTORY_PER_SUBTASK (countb (recent now) (log_of id ops)).
Proof.
  intros Hc. destruct (represents_run ops plan) as [H1 _ _].
  unfold get_attempt_count. rewrite H1. apply sorted_window.
  apply (log_sorted id ops [] t); [done| |done]. intros b Hb. by apply elem_of_nil in Hb.
Qed.

(** ** Lemmas on the stuck note *)

Lemma mark_subtasks_content id note l k b :
  mark_subtasks id note l = Ok (k, b) -> strip_subtask <$> k = strip_subtask <$> l.
Proof.
  revert k b. induction l as [|v l IH]; intros k b H; cbn in H; [by injection H as <- <-|].
  destruct v as [| | | | |d]; try discriminate. destruct (is_subtask id d).
  - apply bind_Ok_inv in H as (out & _ & H). injection H as <- <-. cbn. f_equal. f_equal.
    by rewrite !without_dset.
  - destruct (mark_subtasks id note l) as [[k' b']|]; [|discriminate]. injection H as <- <-.
    cbn. f_equal. by apply (IH k' b').
Qed.

Lemma mark_phase_content id note ph ph' b :
  mark_phase id note ph = Ok (ph', b) -> strip_phase (JObj ph') = strip_phase (JObj ph).
Proof.
  unfold mark_phase. destruct (dget "subtasks" ph) as [[| | | |l|]|] eqn:E; intros H.
  1-4, 6: apply bind_Ok_inv in H as (x & _ & H); by injection H as <- <-.
  2: by injection H as <- <-.
  destruct (mark_subtasks id note l) as [[k b']|] eqn:Em; [|discriminate]. injection H as <- <-.
  apply mark_subtasks_content in Em. unfold strip_phase. rewrite E, dget_dset, String.eqb_refl.
  f_equal. rewrite without_dset. change (key_in ["chunks"] "subtasks") with false. cbv iota.
  set (P := without_keys ["chunks"] ph).
  assert (EP : dget "subtasks" P = Some (JList l)) by (unfold P; by rewrite dget_without).
  assert (S : strip_key "subtasks" (dset "subtasks" (JList k) P) = strip_key "subtasks" P).
  { unfold strip_key. rewrite dget_dset, String.eqb_refl, EP.
    by rewrite dset_dset, Em. }
  by rewrite S.
Qed.

Lemma mark_phases_content id note l k b :
  mark_phases id note l = Ok (k, b) -> strip_phase <$> k = strip_phase <$> l.
Proof.
  revert k b. induction l as [|v l IH]; intros k b H; cbn in H; [by injection H as <- <-|].
  destruct v as [| | | | |ph]; try discriminate.
  destruct (mark_phase id note ph) as [[ph' []]|] eqn:Em; try discriminate;
    apply mark_phase_content in Em.
  - injection H as <- <-. by rewrite !fmap_cons, Em.
  - destruct (mark_phases id note l) as [[k' b']|]; [|discriminate]. injection H as <- <-.
    rewrite !fmap_cons, Em. f_equal. by apply (IH k' b').
Qed.

Lemma mark_plan_content id reason p p' :
  mark_plan id reason (JObj p) = Ok (Some (JObj p')) ->
  strip_plan_progress p' = strip_plan_progress p.
Proof.
  unfold mark_plan. destruct (dget "phases" p) as [[| | | |l|]|] eqn:E; intros H.
  1-4, 6: apply bind_Ok_inv in H as (x & _ & H); discriminate.
  2: discriminate.
  destruct (mark_phases id _ l) as [[k []]|] eqn:Em; try discriminate. injection H as <-.
  apply mark_phases_content in Em. unfold strip_plan_progress.
  assert (EC : dget "phases" (without_keys PLAN_PROGRESS_KEYS p) = Some (JList l))
    by (by rewrite dget_without).
  rewrite without_dset. change (key_in PLAN_PROGRESS_KEYS "phases") with false. cbv iota.
  rewrite EC, dget_dset, String.eqb_refl. by rewrite dset_dset, Em.
Qed.

(** ** Properties *)

(** C31 (refinement): the history file implements the log of attempts.  After any sequence
    of attempts, commits, escalations, resets and losses of the file, the attempts stored
    for a subtask are the last fifty of those made since its last reset or the last loss,
    in order; no subtask is twice in the stuck list; the commit to roll back to is the
    last one recorded. *)
Theorem history_refines_log (ops : list rec_op) (plan : option json) (now : Z) (id : string) :
  let s := rec_run ops plan in
  sh_attempts (get_subtask_history now id s) = lastn MAX_ATTEMPT_HISTORY_PER_SUBTASK (log_of id ops)
  /\ length (sh_attempts (get_subtask_history now id s)) <= MAX_ATTEMPT_HISTORY_PER_SUBTASK
  /\ NoDup (se_subtask_id <$> get_stuck_subtasks now s)
  /\ get_last_good_commit now s = last_commit ops.
Proof.
  intros s. destruct (represents_run ops plan) as [H1 H2 H3]. fold s in H1, H2, H3.
  assert (E : sh_attempts (get_subtask_history now id s) = attempts_of id (load_attempt_history now s)).
  { unfold get_subtask_history, attempts_of. by destruct (hi_subtasks _ !! id). }
  rewrite E, H1. split; [done|]. split; [rewrite length_lastn; lia|]. split; [apply H2 | apply H3].
Qed.

(** The decision follows the log.  On a clock that does not go back, with
    [n] the number of attempts of the log in the last two hours (the cap on stored
    attempts never shows): a failed verification is retried while [n < 3] and then
    skipped, an unknown error while [n < 2] and then escalated, a circular fix is skipped,
    an exhausted context continues, and a broken build rolls back to the last recorded
    commit or escalates.  So three attempts within two hours end the retries. *)
Theorem recovery_follows_log (ops : list rec_op) (plan : option json) (now t : Z) (id : string)
    (f : FailureType) :
  clock_sorted t ops ->
  let s := rec_run ops plan in
  let n := countb (recent now) (log_of id ops) in
  let a := determine_recovery_action now f id s in
  ra_action a =
    match f with
    | BROKEN_BUILD => match truthy_opt (last_commit ops) with Some _ => "rollback" | None => "escalate" end
    | VERIFICATION_FAILED => if n <? 3 then "retry" else "skip"
    | CIRCULAR_FIX => "skip"
    | CONTEXT_EXHAUSTED => "continue"
    | UNKNOWN => if n <? 2 then "retry" else "escalate"
    end
  /\ ra_target a =
    match f with
    | BROKEN_BUILD => default id (truthy_opt (last_commit ops))
    | _ => id
    end
  /\ (3 <= n -> ra_action a <> "retry").
Proof.
  intros Hc s n a. unfold a, determine_recovery_action.
  assert (En : get_attempt_count now id s = Nat.min 50 n) by apply (window_of_log ops plan now id t Hc).
  destruct (represents_run ops plan) as [_ _ H3]. fold s in H3. rewrite H3, En.
  destruct f; cbn [action].
  - by destruct (truthy_opt (last_commit ops)).
  - destruct (n <? 3) eqn:E.
    + apply Nat.ltb_lt in E. rewrite (proj2 (Nat.ltb_lt _ _)) by lia. split_and!; [done|done|lia].
    + apply Nat.ltb_ge in E. rewrite (proj2 (Nat.ltb_ge _ _)) by lia. done.
  - done.
  - done.
  - destruct (n <? 2) eqn:E.
    + apply Nat.ltb_lt in E. rewrite (proj2 (Nat.ltb_lt _ _)) by lia. split_and!; [done|done|lia].
    + apply Nat.ltb_ge in E. rewrite (proj2 (Nat.ltb_ge _ _)) by lia. done.
Qed.

(** Escalating a subtask does not touch what was approved.  When the plan
    file is updated for a stuck subtask, its reviewed content is unchanged, so an approval
    of the spec is valid exactly when it was valid before. *)
Theorem stuck_note_keeps_approval (md5 : string -> string) (now : Z) (id reason : string)
    (s s' : Recovery) (p p' : dict) (rs : ReviewState) (d : SpecDir) :
  re_plan s = Some (JObj p) -> mark_subtask_stuck now id reason s = (Ok tt, s') ->
  re_plan s' = Some (JObj p') ->
  strip_plan_progress p' = strip_plan_progress p
  /\ is_approval_valid md5 rs (with_content d (sd_spec d) (PlanDoc p'))
     = is_approval_valid md5 rs (with_content d (sd_spec d) (PlanDoc p)).
Proof.
  intros Hp H Hp'.
  assert (E : strip_plan_progress p' = strip_plan_progress p).
  { unfold mark_subtask_stuck in H.
    cbn [save_attempt_history set_history re_plan] in H. rewrite Hp in H.
    destruct (mark_plan id reason (JObj p)) as [[v|]|e] eqn:Em; [|injection H as <-|discriminate].
    - injection H as <-. cbn in Hp'. injection Hp' as ->. by apply mark_plan_content in Em.
    - cbn in Hp'. rewrite Hp in Hp'. by injection Hp' as ->. }
  split; [done|]. unfold is_approval_valid, _compute_spec_hash, _read_plan, content_text.
  cbn [with_content sd_plan sd_spec]. rewrite E. done.
Qed.

(** ** Witnesses *)

Definition three_failures : list rec_op :=
  [RRecord 10 "t1" 1 false "use requests" None; RRecord 20 "t1" 2 false "use urllib" None;
   RCommit 25 "abc123" "t0"; RRecord 30 "t1" 3 false "use httpx" None].

Lemma recovery_follows_log_witness :
  ra_action (determine_recovery_action 40 VERIFICATION_FAILED "t1" (rec_run three_failures None))
  = "skip".
Proof.
  destruct (recovery_follows_log three_failures None 40 0 "t1" VERIFICATION_FAILED) as [H _];
    [cbn; lia | exact H].
Defined.

Lemma stuck_note_keeps_approval_witness :
  is_approval_valid toy_hex example_approved
    (with_content example_dir (sd_spec example_dir)
       (PlanDoc (match re_plan (mark_subtask_stuck 5 "t1" "no luck" (no_files (Some (JObj example_plan)))).2
                 with Some (JObj q) => q | _ => [] end)))
  = is_approval_valid toy_hex example_approved
      (with_content example_dir (sd_spec example_dir) (PlanDoc example_plan)).
Proof.
  destruct (stuck_note_keeps_approval toy_hex 5 "t1" "no luck" (no_files (Some (JObj example_plan)))
              (mark_subtask_stuck 5 "t1" "no luck" (no_files (Some (JObj example_plan)))).2
              example_plan
              (match re_plan (mark_subtask_stuck 5 "t1" "no luck" (no_files (Some (JObj example_plan)))).2
                 with Some (JObj q) => q | _ => [] end)
              example_approved example_dir) as [_ H];
    [reflexivity | vm_compute; reflexivity | vm_compute; reflexivity | exact H].
Defined.
