(* ===== verification/Scheduler.v ===== *)
(** The wave scheduler (apps/backend/implementation_plan/scheduler.py): which subtasks of
    a phase may run together, and the validation of the dependency graph. *)
From S2P Require Import Prelude PyData PlanData.

(** ** What the scheduler asks of a subtask *)

(** The protocol [SubtaskLike]: the scheduler and the parallel runner are written, and
    verified, against it. *)
Class SubtaskLike (A : Type) := {
  sl_id : A -> string;
  sl_status : A -> SubtaskStatus;
  sl_depends_on : A -> list string;
  sl_files_to_create : A -> list string;
  sl_files_to_modify : A -> list string;
}.

#[export] Instance item_subtask_like : SubtaskLike Item := {
  sl_id := item_id;
  sl_status := item_status;
  sl_depends_on := item_depends_on;
  sl_files_to_create := item_files_to_create;
  sl_files_to_modify := item_files_to_modify;
}.

(** ** Paths *)

(** [os.path.normpath] of the POSIX library on a non-empty path: the components after
    dropping the empty ones and ["."], a [".."] removing the component before it. *)
Definition norm_step (absolute : bool) (comps : list string) (comp : string) : list string :=
  if String.eqb comp "" || String.eqb comp "." then comps
  else if negb (String.eqb comp "..")
          || (negb absolute && negb (list_truthy comps))
          || match last comps with Some c => String.eqb c ".." | None => false end
  then comps ++ [comp]
  else removelast comps.

Definition normpath (path : string) : string :=
  if is_empty path then "."
  else
    let slashes :=
      if startswith "/" path then
        if startswith "//" path && negb (startswith "///" path) then "//" else "/"
      else "" in
    let comps := foldl (norm_step (negb (is_empty slashes))) [] (split_on "/"%char path) in
    let result := slashes +:+ join "/" comps in
    if is_empty result then "." else result.

Definition norm_path (path : string) : string :=
  let cleaned := strip path in
  if is_empty cleaned then "" else normpath cleaned.

Example norm_path_examples :
  (norm_path " ./app/config.py ", norm_path "app//x/../config.py", norm_path "//a/../../b",
   norm_path "../../a/..", norm_path "./", norm_path "   ")
  = ("app/config.py", "app/config.py", "//b", "../..", ".", "").
Proof. vm_compute. reflexivity. Qed.

(** ** Conflicts and waves *)

Section Waves.
Context {A : Type} `{SubtaskLike A}.

Definition file_set (s : A) : gset string :=
  list_to_set (keep (fun p => negb (is_empty p))
                 (norm_path <$> (sl_files_to_create s ++ sl_files_to_modify s))).

Definition conflicts (a b : A) : bool :=
  let fa := file_set a in
  let fb := file_set b in
  if bool_decide (fa = ∅) || bool_decide (fb = ∅) then true
  else negb (bool_decide (fa ## fb)).

(** The tests of the selection loop on one candidate, in the order of the code. *)
Definition selectable (completed_ids : gset string) (reserved : list A) (s : A) : bool :=
  bool_decide (sl_status s = PENDING)
  && negb (bool_decide (sl_id s ∈ completed_ids))
  && negb (existsb (fun r => String.eqb (sl_id s) (sl_id r)) reserved)
  && forallb (fun dep => bool_decide (dep ∈ completed_ids)) (sl_depends_on s)
  && negb (existsb (conflicts s) reserved).

Fixpoint pick_loop (free_slots : nat) (completed_ids : gset string)
    (reserved picked : list A) (subtasks : list A) : list A :=
  match subtasks with
  | [] => picked
  | s :: rest =>
      if free_slots <=? length picked then picked
      else if selectable completed_ids reserved s
      then pick_loop free_slots completed_ids (reserved ++ [s]) (picked ++ [s]) rest
      else pick_loop free_slots completed_ids reserved picked rest
  end.

Definition select_ready_wave (subtasks : list A) (completed_ids : gset string)
    (in_flight : list A) (max_workers : Z) : list A :=
  let free_slots := (Z.max 1 max_workers - Z.of_nat (length in_flight))%Z in
  if (free_slots <=? 0)%Z then []
  else pick_loop (Z.to_nat free_slots) completed_ids in_flight [] subtasks.

(** A candidate whose turn has come, conflicts aside. *)
Definition ready (completed_ids : gset string) (s : A) : Prop :=
  sl_status s = PENDING /\ (sl_id s ∉ completed_ids)
  /\ forall d, d ∈ sl_depends_on s -> d ∈ completed_ids.

(** Two subtasks may run together: known, disjoint footprints and different ids. *)
Definition compatible (a b : A) : Prop :=
  file_set a <> ∅ /\ file_set b <> ∅ /\ file_set a ## file_set b /\ sl_id a <> sl_id b.

#[global] Instance compatible_dec a b : Decision (compatible a b).
Proof. unfold compatible. apply _. Defined.

(** *** Lemmas *)

Lemma conflicts_false a b :
  conflicts a b = false <-> file_set a <> ∅ /\ file_set b <> ∅ /\ file_set a ## file_set b.
Proof.
  unfold conflicts. destruct (bool_decide (file_set a = ∅)) eqn:Ea; bprop; cbn;
    [split; [done | by intros []]|].
  destruct (bool_decide (file_set b = ∅)) eqn:Eb; bprop; cbn;
    [split; [done | by intros (_ & ? & _)]|].
  rewrite negb_false_iff, bool_decide_eq_true. naive_solver.
Qed.

Lemma compatible_sym a b : compatible a b -> compatible b a.
Proof. unfold compatible. intros (? & ? & Hd & ?). split_and!; auto; by symmetry. Qed.

Lemma selectable_spec completed reserved s :
  selectable completed reserved s = true <->
  ready completed s /\ forall r, r ∈ reserved -> compatible s r.
Proof.
  unfold selectable, ready, compatible. rewrite !andb_true_iff, !negb_true_iff.
  rewrite bool_decide_eq_true, bool_decide_eq_false, forallb_spec, !existsb_false.
  split.
  - intros ((((H1 & H2) & H3) & H4) & H5). repeat split; auto.
    + intros d Hd. specialize (H4 d Hd). by bprop.
    + by apply (conflicts_false s r), H5.
    + by apply (conflicts_false s r), H5.
    + by apply (conflicts_false s r), H5.
    + specialize (H3 r H0). by apply String.eqb_neq in H3.
  - intros ((H1 & H2 & H4) & H5). repeat split; auto.
    + intros r Hr. by apply String.eqb_neq, (H5 r).
    + intros d Hd. apply bool_decide_eq_true; auto.
    + intros r Hr. apply conflicts_false. destruct (H5 r Hr) as (? & ? & ? & _). auto.
Qed.

(** The loop, started with [reserved = in_flight ++ picked]: what it keeps true. *)
Record wave_ok (subtasks : list A) (completed : gset string) (in_flight wave : list A) : Prop := {
  wave_sub : wave `sublist_of` subtasks;
  wave_ready : forall s, s ∈ wave -> ready completed s;
  wave_flight : forall s r, s ∈ wave -> r ∈ in_flight -> compatible s r;
  wave_pairwise : ForallOrdPairs compatible wave;
}.

Lemma ForallOrdPairs_snoc {B} (R : B -> B -> Prop) l x :
  ForallOrdPairs R l -> (forall y, y ∈ l -> R y x) -> ForallOrdPairs R (l ++ [x]).
Proof.
  induction 1 as [|y l Hy Hl IH]; intros Hx; cbn.
  - constructor; constructor.
  - constructor.
    + apply Forall_app. split; [done|]. constructor; [|constructor]. apply Hx, list_elem_of_here.
    + apply IH. intros z Hz. by apply Hx, list_elem_of_further.
Qed.

Lemma pick_loop_ok slots completed in_flight done_ picked rest :
  wave_ok done_ completed in_flight picked ->
  length picked <= slots ->
  let w := pick_loop slots completed (in_flight ++ picked) picked rest in
  wave_ok (done_ ++ rest) completed in_flight w /\ length w <= slots /\ picked `prefix_of` w.
Proof.
  revert done_ picked. induction rest as [|s rest IH]; intros done_ picked Hok Hlen; cbn zeta.
  - cbn. rewrite app_nil_r. split; [done|]. by split.
  - cbn [pick_loop]. destruct (slots <=? length picked) eqn:Es.
    + split; [|by split]. destruct Hok as [Hs Hr Hf Hp]. split; auto.
      apply sublist_inserts_r. exact Hs.
    + apply Nat.leb_gt in Es. destruct (selectable completed (in_flight ++ picked) s) eqn:E.
      * apply selectable_spec in E as [Hrdy Hcomp].
        rewrite <- app_assoc.
        destruct (IH (done_ ++ [s]) (picked ++ [s])) as (H1 & H2 & H3).
        -- destruct Hok as [Hs Hr Hf Hp]. split.
           ++ apply sublist_app; [done | reflexivity].
           ++ intros x Hx. apply elem_of_app in Hx as [Hx|Hx]; [by apply Hr|].
              by apply list_elem_of_singleton in Hx as ->.
           ++ intros x r Hx Hr'. apply elem_of_app in Hx as [Hx|Hx]; [by apply Hf|].
              apply list_elem_of_singleton in Hx as ->. apply Hcomp, elem_of_app. by left.
           ++ apply ForallOrdPairs_snoc; [done|]. intros y Hy.
              apply compatible_sym, Hcomp, elem_of_app. by right.
        -- rewrite length_app. cbn. lia.
        -- rewrite <- app_assoc in H1. split; [exact H1|]. split; [exact H2|].
           etrans; [|exact H3]. by apply prefix_app_r.
      * destruct (IH (done_ ++ [s]) picked) as (H1 & H2 & H3); [|done|].
        -- destruct Hok as [Hs Hr Hf Hp]. split; auto. by apply sublist_inserts_r.
        -- rewrite <- app_assoc in H1. split; [done|]. by split.
Qed.

Lemma select_ready_wave_ok subtasks completed in_flight mw :
  let w := select_ready_wave subtasks completed in_flight mw in
  wave_ok subtasks completed in_flight w
  /\ (w <> [] -> (Z.of_nat (length in_flight + length w) <= Z.max 1 mw)%Z).
Proof.
  cbn zeta. unfold select_ready_wave. destruct (_ <=? 0)%Z eqn:E.
  - split; [|done]. split; [apply sublist_nil_l | | | constructor]; intros s; intros;
      exfalso; by eapply elem_of_nil.
  - bprop. set (n := Z.to_nat _).
    assert (H0 : wave_ok [] completed in_flight []).
    { split; [done | | | constructor]; intros s; intros; exfalso; by eapply elem_of_nil. }
    destruct (pick_loop_ok n completed in_flight [] [] subtasks H0 ltac:(cbn; lia)) as (H1 & H2 & _).
    rewrite app_nil_r in *. split; [exact H1|]. lia.
Qed.

(** A candidate the loop reaches with a slot left is picked or excluded. *)
Lemma pick_loop_maximal slots completed in_flight picked rest s :
  let w := pick_loop slots completed (in_flight ++ picked) picked rest in
  s ∈ rest -> ready completed s -> length w < slots ->
  s ∈ w \/ exists r, r ∈ in_flight ++ w /\ ~ compatible s r.
Proof.
  revert picked. induction rest as [|x rest IH]; intros picked; cbn zeta; intros Hs Hr Hlen.
  - by apply elem_of_nil in Hs.
  - cbn [pick_loop] in *. destruct (slots <=? length picked) eqn:Es;
      [apply Nat.leb_le in Es; lia|].
    assert (Hpre : forall p, p `prefix_of` pick_loop slots completed (in_flight ++ p) p rest).
    { clear. intros p. revert p. induction rest as [|y rest IH]; intros p; cbn; [done|].
      destruct (_ <=? _); [done|]. destruct (selectable _ _ y); [|apply IH].
      rewrite <- app_assoc. etrans; [|apply IH]. by apply prefix_app_r. }
    destruct (selectable completed (in_flight ++ picked) x) eqn:E.
    + rewrite <- app_assoc in *. apply elem_of_cons in Hs as [->|Hs]; [|by apply IH].
      left. destruct (Hpre (picked ++ [x])) as [l ->].
      apply elem_of_app. left. apply elem_of_app. right. apply list_elem_of_here.
    + apply elem_of_cons in Hs as [->|Hs]; [|by apply IH]. right.
      destruct (decide (Forall (compatible x) (in_flight ++ picked))) as [Ha|Ha].
      * exfalso. assert (Et : selectable completed (in_flight ++ picked) x = true); [|congruence].
        apply selectable_spec. split; [done|]. by apply Forall_forall.
      * apply not_Forall_Exists in Ha; [|apply _]. apply Exists_exists in Ha as (r & Hr' & Hn).
        exists r. split; [|done]. destruct (Hpre picked) as [l ->]. rewrite app_assoc.
        apply elem_of_app. by left.
Qed.
End Waves.

(** ** Validation of the dependency graph *)

Inductive color := WHITE | GREY | BLACK.

#[export] Instance color_eq_dec : EqDecision color.
Proof. solve_decision. Defined.

(** The errors, before they are rendered. *)
Inductive dep_error :=
  | SelfDep (id : string)
  | UnknownDep (id dep : string)
  | Cycle (path : list string).

Definition dep_error_str (e : dep_error) : string :=
  match e with
  | SelfDep i => "Subtask '" +:+ i +:+ "' depends on itself"
  | UnknownDep i d => "Subtask '" +:+ i +:+ "' depends on unknown subtask '" +:+ d +:+ "'"
  | Cycle path => "Dependency cycle: " +:+ join " -> " path
  end.

(** [stack[stack.index(x):]] *)
Fixpoint from_elem (x : string) (l : list string) : list string :=
  match l with
  | [] => []
  | y :: l' => if String.eqb x y then l else from_elem x l'
  end.

(** The elements in order of their first occurrence. *)
Fixpoint dedup (seen : gset string) (l : list string) : list string :=
  match l with
  | [] => []
  | e :: l' =>
      if bool_decide (e ∈ seen) then dedup seen l' else e :: dedup ({[e]} ∪ seen) l'
  end.

(** The state of the depth-first search: the colors and the errors found so far. *)
Definition dfs_state : Type := gmap string color * list dep_error.

Section Graph.
Context {A : Type} `{SubtaskLike A}.

(** [{s.id: s for s in subtasks if s.id}]: the last subtask of an id wins. *)
Definition by_id (subtasks : list A) : gmap string A :=
  foldl (fun m s => if is_empty (sl_id s) then m else <[sl_id s := s]> m) ∅ subtasks.

(** Its keys in insertion order. *)
Definition by_id_keys (subtasks : list A) : list string :=
  dedup ∅ (keep (fun i => negb (is_empty i)) (sl_id <$> subtasks)).

(** [_depends_on(by_id[node])] *)
Definition deps_of (m : gmap string A) (node : string) : list string :=
  match m !! node with Some s => sl_depends_on s | None => [] end.

Fixpoint visit (fuel : nat) (m : gmap string A) (node : string) (stack : list string)
    (st : dfs_state) : option dfs_state :=
  match fuel with
  | O => None
  | S fuel => (* one unit per nested call: a call colors a WHITE node GREY *)
      let stack := stack ++ [node] in
      let step (acc : option dfs_state) (dep : string) : option dfs_state :=
        match acc with
        | None => None
        | Some (colors, errors) =>
            match m !! dep with
            | None => Some (colors, errors)
            | Some _ =>
                match colors !! dep with
                | Some GREY =>
                    Some (colors, errors ++ [Cycle (from_elem dep stack ++ [dep])])
                | Some WHITE => visit fuel m dep stack (colors, errors)
                | _ => Some (colors, errors)
                end
            end
        end in
      match foldl step (Some (<[node := GREY]> st.1, st.2)) (deps_of m node) with
      | Some (colors, errors) => Some (<[node := BLACK]> colors, errors)
      | None => None
      end
  end.

(** The outer loop over the ids. *)
Fixpoint visit_all (fuel : nat) (m : gmap string A) (ids : list string) (st : dfs_state)
  : option dfs_state :=
  match ids with
  | [] => Some st
  | sid :: rest =>
      st' ← match st.1 !! sid with
            | Some WHITE => visit fuel m sid [] st
            | _ => Some st
            end;
      visit_all fuel m rest st'
  end.

(** The first loop: self-dependencies and unknown references. *)
Definition reference_errors (subtasks : list A) : list dep_error :=
  let ids := list_to_set (C := gset string) (sl_id <$> subtasks) in
  concat ((fun s =>
    concat ((fun dep =>
      if String.eqb dep (sl_id s) then [SelfDep (sl_id s)]
      else if negb (bool_decide (dep ∈ ids)) then [UnknownDep (sl_id s) dep]
      else []) <$> sl_depends_on s)) <$> subtasks).

Definition dependency_errors (subtasks : list A) : option (list dep_error) :=
  let m := by_id subtasks in
  let ids := by_id_keys subtasks in
  let colors := list_to_map ((fun i => (i, WHITE)) <$> ids) in
  match visit_all (length ids) m ids (colors, reference_errors subtasks) with
  | Some (_, errors) => Some errors
  | None => None
  end.

Definition validate_dependencies (subtasks : list A) : option (list string) :=
  errors ← dependency_errors subtasks; Some (dedup ∅ (dep_error_str <$> errors)).

(** The dependency relation between known ids. *)
Definition edge (m : gmap string A) (x y : string) : Prop :=
  is_Some (m !! x) /\ is_Some (m !! y) /\ y ∈ deps_of m x.
Definition acyclic (m : gmap string A) : Prop := forall x, ~ tc (edge m) x x.

(** *** The step of the search over one dependency *)

Definition dep_step (fuel : nat) (m : gmap string A) (stack : list string)
    (st : dfs_state) (dep : string) : option dfs_state :=
  match m !! dep with
  | None => Some st
  | Some _ =>
      match st.1 !! dep with
      | Some GREY => Some (st.1, st.2 ++ [Cycle (from_elem dep stack ++ [dep])])
      | Some WHITE => visit fuel m dep stack st
      | _ => Some st
      end
  end.

Fixpoint dep_loop (fuel : nat) (m : gmap string A) (stack : list string)
    (st : dfs_state) (deps : list string) : option dfs_state :=
  match deps with
  | [] => Some st
  | d :: ds => st' ← dep_step fuel m stack st d; dep_loop fuel m stack st' ds
  end.

Lemma visit_unfold fuel m node stack st :
  visit (S fuel) m node stack st =
  match dep_loop fuel m (stack ++ [node]) (<[node := GREY]> st.1, st.2) (deps_of m node) with
  | Some (colors, errors) => Some (<[node := BLACK]> colors, errors)
  | None => None
  end.
Proof.
  cbn [visit]. cbn zeta. generalize (<[node := GREY]> st.1, st.2). intros st0.
  match goal with |- match foldl ?step _ _ with _ => _ end = _ =>
    assert (E : forall l s, foldl step (Some s) l = dep_loop fuel m (stack ++ [node]) s l)
  end.
  - assert (En : forall l, foldl (fun (acc : option dfs_state) (dep : string) =>
        match acc with
        | None => None
        | Some (colors, errors) =>
            match m !! dep with
            | None => Some (colors, errors)
            | Some _ =>
                match colors !! dep with
                | Some GREY =>
                    Some (colors, errors ++ [Cycle (from_elem dep (stack ++ [node]) ++ [dep])])
                | Some WHITE => visit fuel m dep (stack ++ [node]) (colors, errors)
                | _ => Some (colors, errors)
                end
            end
        end) None l = None) by (clear; intros l; induction l; auto).
    intros l. induction l as [|d l IH]; intros [c e]; [done|].
    cbn. unfold dep_step. cbn. destruct (m !! d); [|apply IH].
    destruct (c !! d) as [[]|]; cbn; try apply IH.
    destruct (visit fuel m d (stack ++ [node]) (c, e)); cbn; [apply IH | apply En].
  - by rewrite E.
Qed.

(** *** The search terminates *)

Definition white (st : dfs_state) (x : string) : Prop := st.1 !! x = Some WHITE.
#[local] Instance white_dec st x : Decision (white st x).
Proof. unfold white. apply _. Defined.
Definition whites (st : dfs_state) (ids : list string) : nat :=
  countb (fun x => bool_decide (white st x)) ids.

Lemma whites_mono st st' ids :
  (forall x, white st' x -> white st x) -> whites st' ids <= whites st ids.
Proof.
  intros Hs. apply countb_mono. intros x Hx. apply bool_decide_eq_true in Hx.
  apply bool_decide_eq_true. auto.
Qed.

Lemma white_insert st node col x :
  col <> WHITE -> white (<[node := col]> st.1, st.2) x -> white st x /\ x <> node.
Proof.
  unfold white. cbn. intros Hc Hx. destruct (decide (x = node)) as [->|].
  - rewrite lookup_insert_eq in Hx. congruence.
  - by rewrite lookup_insert_ne in Hx.
Qed.

Lemma whites_grey st node ids :
  white st node -> node ∈ ids ->
  whites (<[node := GREY]> st.1, st.2) ids < whites st ids.
Proof.
  intros Hw Hin. unfold whites. apply (countb_lt _ _ _ node); [|done|..].
  - intros x Hx. apply bool_decide_eq_true in Hx. apply bool_decide_eq_true.
    by apply white_insert in Hx as [Hx _].
  - by apply bool_decide_eq_true.
  - apply bool_decide_eq_false. intros Hx. by apply white_insert in Hx as [_ Hx].
Qed.

Lemma visit_total m ids fuel node stack st :
  (forall x, white st x -> x ∈ ids) -> white st node -> whites st ids <= fuel ->
  exists st', visit fuel m node stack st = Some st' /\ forall x, white st' x -> white st x.
Proof.
  revert node stack st. induction fuel as [|fuel IH]; intros node stack st Hids Hw Hf.
  - assert (0 < whites st ids); [|lia]. apply countb_pos, existsb_spec.
    exists node. split; [auto | by apply bool_decide_eq_true].
  - rewrite visit_unfold.
    assert (L : forall deps st, (forall x, white st x -> x ∈ ids) -> whites st ids <= fuel ->
      exists st', dep_loop fuel m (stack ++ [node]) st deps = Some st'
                  /\ forall x, white st' x -> white st x).
    { clear -IH. induction deps as [|d ds IHd]; intros st Hids Hf; cbn; [eauto|].
      assert (S1 : exists st1, dep_step fuel m (stack ++ [node]) st d = Some st1
                               /\ forall x, white st1 x -> white st x).
      { unfold dep_step. destruct (m !! d); [|eauto].
        destruct (st.1 !! d) as [[]|] eqn:Ed; eauto. }
      destruct S1 as (st1 & -> & H1). cbn.
      destruct (IHd st1) as (st2 & E2 & H2); [auto | |eauto].
      pose proof (whites_mono st st1 ids H1). lia. }
    destruct (L (deps_of m node) (<[node := GREY]> st.1, st.2)) as (st' & -> & H').
    + intros x Hx. apply white_insert in Hx as [Hx _]; [auto | done].
    + pose proof (whites_grey st node ids Hw (Hids node Hw)). lia.
    + destruct st' as [c e]. eexists. split; [done|]. intros x Hx.
      apply (white_insert (c, e)) in Hx as [Hx _]; [|done].
      apply H' in Hx. by apply white_insert in Hx as [Hx _].
Qed.

(** *** No error, no cycle *)

Lemma dep_loop_errors m fuel stack deps st st' :
  (forall node st st', visit fuel m node stack st = Some st' -> length st.2 <= length st'.2) ->
  dep_loop fuel m stack st deps = Some st' -> length st.2 <= length st'.2.
Proof.
  intros IH. revert st. induction deps as [|d ds IHd]; intros st; cbn; [by intros [= ->]|].
  destruct (dep_step fuel m stack st d) as [st1|] eqn:E; cbn; [|done].
  intros E2. apply IHd in E2. etrans; [|exact E2].
  unfold dep_step in E. destruct (m !! d); [|by injection E as ->].
  destruct (st.1 !! d) as [[]|]; try by injection E as ->.
  - by apply IH in E.
  - injection E as <-. cbn. rewrite length_app. lia.
Qed.

Lemma visit_errors m fuel node stack st st' :
  visit fuel m node stack st = Some st' -> length st.2 <= length st'.2.
Proof.
  revert node stack st st'. induction fuel as [|fuel IH]; intros node stack st st'; [done|].
  rewrite visit_unfold.
  destruct (dep_loop _ _ _ _ _) as [[c e]|] eqn:E; [|done]. intros [= <-].
  apply dep_loop_errors in E; [exact E|]. intros n s s'. apply IH.
Qed.

(** A list of ids, latest finished first, in which dependencies come later. *)
Fixpoint topo (m : gmap string A) (l : list string) : Prop :=
  match l with
  | [] => True
  | x :: l' => (forall d, d ∈ deps_of m x -> is_Some (m !! d) -> d ∈ l')
               /\ (x ∉ l') /\ topo m l'
  end.

Record clean (m : gmap string A) (st : dfs_state) (order : list string) : Prop := {
  clean_black : forall x, st.1 !! x = Some BLACK <-> x ∈ order;
  clean_topo : topo m order;
  clean_dom : forall x, is_Some (m !! x) -> is_Some (st.1 !! x);
}.

(** What a part of the search that reported nothing does to the state. *)
Definition clean_run (m : gmap string A) (st st' : dfs_state) (order order' : list string)
  : Prop :=
  clean m st' order' /\ (forall x, x ∈ order -> x ∈ order')
  /\ forall x, st'.1 !! x = Some GREY <-> st.1 !! x = Some GREY.

Lemma clean_run_trans m st1 st2 st3 o1 o2 o3 :
  clean_run m st1 st2 o1 o2 -> clean_run m st2 st3 o2 o3 -> clean_run m st1 st3 o1 o3.
Proof. intros (C1 & S1 & G1) (C2 & S2 & G2). split; [done|]. split; naive_solver. Qed.

Lemma clean_start m st order node :
  clean m st order -> white st node -> clean m (<[node := GREY]> st.1, st.2) order.
Proof.
  intros [Hb Ht Hd] Hw. split; [|done|]; cbn.
  - intros x. rewrite <- Hb. destruct (decide (x = node)) as [->|].
    + rewrite lookup_insert_eq. unfold white in Hw. rewrite Hw. done.
    + by rewrite lookup_insert_ne.
  - intros x Hx. destruct (decide (x = node)) as [->|]; [by rewrite lookup_insert_eq|].
    rewrite lookup_insert_ne by done. auto.
Qed.

Lemma clean_finish m st order node :
  clean m st order -> st.1 !! node = Some GREY ->
  (forall d, d ∈ deps_of m node -> is_Some (m !! d) -> d ∈ order) ->
  clean m (<[node := BLACK]> st.1, st.2) (node :: order).
Proof.
  intros [Hb Ht Hd] Hg Hdeps. split; cbn.
  - intros x. rewrite elem_of_cons, <- Hb. destruct (decide (x = node)) as [->|].
    + rewrite lookup_insert_eq. naive_solver.
    + rewrite lookup_insert_ne by done. naive_solver.
  - split; [done|]. split; [|done]. rewrite <- Hb, Hg. done.
  - intros x Hx. destruct (decide (x = node)) as [->|]; [by rewrite lookup_insert_eq|].
    rewrite lookup_insert_ne by done. auto.
Qed.

(** The statement proved of [visit] by induction on the fuel. *)
Definition visits_clean (m : gmap string A) (fuel : nat) (stack : list string) : Prop :=
  forall node st st' order,
    visit fuel m node stack st = Some st' -> white st node ->
    clean m st order -> length st'.2 <= length st.2 ->
    exists order', clean_run m st st' order order' /\ node ∈ order'.

Lemma dep_step_clean m fuel stack st st' order d :
  visits_clean m fuel stack ->
  dep_step fuel m stack st d = Some st' -> clean m st order ->
  length st'.2 <= length st.2 ->
  exists order', clean_run m st st' order order' /\ (is_Some (m !! d) -> d ∈ order').
Proof.
  intros IH E Hc Hlen. unfold dep_step in E. destruct (m !! d) as [sd|] eqn:Em.
  2:{ injection E as <-. exists order. split; [done|]. intros Hs. by apply is_Some_None in Hs. }
  destruct (st.1 !! d) as [[]|] eqn:Ed.
  - destruct (IH _ _ _ order E Ed Hc Hlen) as (o1 & R & Hin). eauto.
  - injection E as <-. cbn in Hlen. rewrite length_app in Hlen. cbn in Hlen. lia.
  - injection E as <-. exists order. split; [done|]. intros _. by apply (clean_black _ _ _ Hc).
  - destruct (clean_dom _ _ _ Hc d) as [c Hcd]; [eauto|]. congruence.
Qed.

Lemma dep_loop_clean m fuel stack deps st st' order :
  visits_clean m fuel stack ->
  dep_loop fuel m stack st deps = Some st' -> clean m st order ->
  length st'.2 <= length st.2 ->
  exists order', clean_run m st st' order order'
    /\ forall d, d ∈ deps -> is_Some (m !! d) -> d ∈ order'.
Proof.
  intros IH. revert st order. induction deps as [|d ds IHd]; intros st order; cbn.
  - intros [= ->] Hc _. exists order. split; [done|]. intros d Hd. by apply elem_of_nil in Hd.
  - destruct (dep_step fuel m stack st d) as [st1|] eqn:E; cbn; [|done].
    intros E2 Hc Hlen.
    pose proof (dep_loop_errors _ _ _ _ _ _ (fun n s s' => visit_errors m fuel n _ s s') E2).
    assert (H1 : length st.2 <= length st1.2).
    { apply (dep_loop_errors m fuel stack [d]); [intros n s s'; apply visit_errors|].
      cbn. by rewrite E. }
    destruct (dep_step_clean m fuel stack st st1 order d IH E Hc) as (o1 & R1 & Hd1); [lia|].
    destruct (IHd st1 o1 E2) as (o2 & R2 & Hd2); [apply R1 | lia |].
    exists o2. split; [by eapply clean_run_trans|].
    intros x Hx Hs. apply elem_of_cons in Hx as [->|Hx]; [|by apply Hd2].
    apply R2. by apply Hd1.
Qed.

Lemma visit_clean m fuel stack : visits_clean m fuel stack.
Proof.
  revert stack. induction fuel as [|fuel IH]; intros stack node st st' order; [done|].
  rewrite visit_unfold. intros Hv Hw Hc Hlen.
  destruct (dep_loop _ _ _ _ _) as [[c e]|] eqn:E; [|done]. injection Hv as <-. cbn in Hlen.
  destruct (dep_loop_clean _ _ _ _ _ _ order (IH _) E) as (o & (Hc' & Hs & Hg) & Hd);
    [by apply clean_start | done |].
  assert (Hgn : c !! node = Some GREY) by (apply (Hg node); apply lookup_insert_eq).
  exists (node :: o). split; [|apply list_elem_of_here]. split; [|split].
  - by apply (clean_finish m (c, e)).
  - intros x Hx. apply list_elem_of_further. auto.
  - intros x. cbn. cbn in Hg. destruct (decide (x = node)) as [->|].
    + rewrite lookup_insert_eq. unfold white in Hw. rewrite Hw. done.
    + rewrite lookup_insert_ne by done. rewrite Hg. by rewrite lookup_insert_ne.
Qed.

(** A finishing order is closed under dependencies and leaves no room for a cycle. *)
Lemma topo_closed m l x y : topo m l -> x ∈ l -> tc (edge m) x y -> y ∈ l.
Proof.
  intros Ht Hx Hxy. revert Hx.
  assert (Step : forall a b, edge m a b -> a ∈ l -> b ∈ l).
  { intros a b (_ & Hb & Hin). induction l as [|z l IH]; intros Ha; [by apply elem_of_nil in Ha|].
    destruct Ht as (Hd & _ & Ht). apply list_elem_of_further.
    apply elem_of_cons in Ha as [->|Ha]; auto. }
  induction Hxy as [a b Hab|a b c Hab Hbc IH]; intros Ha; [by eapply Step|].
  by eapply IH, Step.
Qed.

Lemma topo_acyclic m l x : topo m l -> x ∈ l -> ~ tc (edge m) x x.
Proof.
  induction l as [|z l IH]; intros Ht Hx Hc; [by apply elem_of_nil in Hx|].
  destruct Ht as (Hd & Hz & Ht). apply elem_of_cons in Hx as [->|Hx]; [|by apply IH].
  apply Hz. inversion Hc as [a b (_ & Hb & Hin)|a b c (_ & Hb & Hin) Hbc]; subst; [auto|].
  eapply topo_closed; [done | by apply Hd | done].
Qed.

(** In a graph without cycles the search reports nothing: what is GREY is on the stack,
    and reaches the node under visit. *)
Lemma visit_acyclic m fuel node stack st st' :
  acyclic m ->
  visit fuel m node stack st = Some st' -> is_Some (m !! node) ->
  (forall x, st.1 !! x = Some GREY -> x ∈ stack) ->
  (forall x, x ∈ stack -> tc (edge m) x node) ->
  st'.2 = st.2 /\ forall x, st'.1 !! x = Some GREY -> x ∈ stack.
Proof.
  intros Hac. revert node stack st st'.
  induction fuel as [|fuel IH]; intros node stack st st'; [done|].
  rewrite visit_unfold. intros Hv Hn Hg Hs.
  assert (L : forall deps st st', (forall d, d ∈ deps -> d ∈ deps_of m node) ->
    dep_loop fuel m (stack ++ [node]) st deps = Some st' ->
    (forall x, st.1 !! x = Some GREY -> x ∈ stack ++ [node]) ->
    st'.2 = st.2 /\ forall x, st'.1 !! x = Some GREY -> x ∈ stack ++ [node]).
  { clear Hv Hg st st'. induction deps as [|d ds IHd]; intros st st' Hin; cbn.
    - by intros [= ->].
    - destruct (dep_step fuel m (stack ++ [node]) st d) as [st1|] eqn:E; cbn; [|done].
      intros E2 Hg. assert (Hd : d ∈ deps_of m node) by apply Hin, list_elem_of_here.
      assert (Hto : is_Some (m !! d) -> forall x, x ∈ stack ++ [node] -> tc (edge m) x d).
      { intros Hsd x Hx. apply elem_of_app in Hx as [Hx|Hx].
        - eapply tc_r; [by apply Hs | done].
        - apply list_elem_of_singleton in Hx as ->. by apply tc_once. }
      assert (S1 : st1.2 = st.2 /\ forall x, st1.1 !! x = Some GREY -> x ∈ stack ++ [node]).
      { unfold dep_step in E. destruct (m !! d) as [sd|] eqn:Em; [|by injection E as ->].
        destruct (st.1 !! d) as [[]|] eqn:Ed; try by injection E as ->.
        - apply (IH d _ st st1 E); eauto.
        - exfalso. apply (Hac d), Hto; eauto. }
      destruct S1 as [H1 H2]. destruct (IHd st1 st') as [H3 H4]; [|done..|].
      { intros x Hx. by apply Hin, list_elem_of_further. }
      split; [congruence | done]. }
  destruct (dep_loop _ _ _ _ _) as [[c e]|] eqn:E; [|done]. injection Hv as <-.
  destruct (L _ _ _ (fun d Hd => Hd) E) as [H1 H2].
  { cbn. intros x Hx. apply elem_of_app. destruct (decide (x = node)) as [->|].
    - right. apply list_elem_of_here.
    - left. rewrite lookup_insert_ne in Hx by done. auto. }
  split; [done|]. cbn. intros x Hx. destruct (decide (x = node)) as [->|Hne].
  - by rewrite lookup_insert_eq in Hx.
  - rewrite lookup_insert_ne in Hx by done. specialize (H2 x Hx).
    apply elem_of_app in H2 as [|H2]; [done|]. by apply list_elem_of_singleton in H2.
Qed.

(** *** The outer loop *)

Lemma visit_all_total m ids todo st fuel :
  (forall x, white st x -> x ∈ ids) -> length ids <= fuel ->
  exists st', visit_all fuel m todo st = Some st'.
Proof.
  intros Hids Hf. revert st Hids. induction todo as [|x todo IH]; intros st Hids; cbn; [eauto|].
  destruct (st.1 !! x) as [[]|] eqn:E; cbn; auto.
  destruct (visit_total m ids fuel x [] st Hids E) as (st1 & -> & H1).
  - pose proof (countb_le (fun x => bool_decide (white st x)) ids). unfold whites. lia.
  - cbn. apply IH. auto.
Qed.

Lemma visit_all_errors m todo st st' fuel :
  visit_all fuel m todo st = Some st' -> length st.2 <= length st'.2.
Proof.
  revert st. induction todo as [|x todo IH]; intros st; cbn; [by intros [= ->]|].
  destruct (st.1 !! x) as [[]|] eqn:E; cbn; try apply IH.
  destruct (visit fuel m x [] st) as [st1|] eqn:Ev; cbn; [|done].
  intros H1. apply IH in H1. apply visit_errors in Ev. lia.
Qed.

Lemma visit_all_clean m todo st st' order fuel :
  visit_all fuel m todo st = Some st' ->
  clean m st order -> (forall x, st.1 !! x <> Some GREY) ->
  (forall x, x ∈ todo -> is_Some (m !! x)) -> length st'.2 <= length st.2 ->
  exists order', clean m st' order' /\ (forall x, x ∈ order -> x ∈ order')
                 /\ forall x, x ∈ todo -> x ∈ order'.
Proof.
  revert st order. induction todo as [|x todo IH]; intros st order; cbn.
  - intros [= ->] Hc _ _ _. exists order. split; [done|]. split; [done|].
    intros x Hx. by apply elem_of_nil in Hx.
  - intros E Hc Hg Hm Hlen.
    assert (Hm' : forall y, y ∈ todo -> is_Some (m !! y))
      by (intros y Hy; by apply Hm, list_elem_of_further).
    destruct (st.1 !! x) as [[]|] eqn:Ex; cbn in E.
    + destruct (visit fuel m x [] st) as [st1|] eqn:Ev; cbn in E; [|done].
      pose proof (visit_all_errors _ _ _ _ _ E). pose proof (visit_errors _ _ _ _ _ _ Ev).
      destruct (visit_clean m fuel [] x st st1 order Ev Ex Hc) as (o1 & (C1 & S1 & G1) & Hx1); [lia|].
      destruct (IH st1 o1 E C1) as (o2 & C2 & S2 & H2); [|done|lia|].
      { intros y Hy. by apply G1, Hg in Hy. }
      exists o2. split; [done|]. split; [auto|].
      intros y Hy. apply elem_of_cons in Hy as [->|Hy]; auto.
    + exfalso. by apply (Hg x).
    + destruct (IH st order E Hc Hg Hm' Hlen) as (o2 & C2 & S2 & H2).
      exists o2. split; [done|]. split; [done|].
      intros y Hy. apply elem_of_cons in Hy as [->|Hy]; auto.
      by apply S2, (clean_black _ _ _ Hc).
    + destruct (clean_dom _ _ _ Hc x) as [c Hcx]; [apply Hm, list_elem_of_here|]. congruence.
Qed.

Lemma visit_all_acyclic m todo st st' fuel :
  acyclic m -> visit_all fuel m todo st = Some st' ->
  (forall x, st.1 !! x <> Some GREY) -> (forall x, x ∈ todo -> is_Some (m !! x)) ->
  st'.2 = st.2.
Proof.
  intros Hac. revert st. induction todo as [|x todo IH]; intros st; cbn; [by intros [= ->]|].
  intros E Hg Hm.
  assert (Hm' : forall y, y ∈ todo -> is_Some (m !! y))
    by (intros y Hy; by apply Hm, list_elem_of_further).
  destruct (st.1 !! x) as [[]|] eqn:Ex; cbn in E; try by apply IH.
  destruct (visit fuel m x [] st) as [st1|] eqn:Ev; cbn in E; [|done].
  destruct (visit_acyclic m fuel x [] st st1 Hac Ev) as [H1 H2].
  - apply Hm, list_elem_of_here.
  - intros y Hy. by apply Hg in Hy.
  - intros y Hy. by apply elem_of_nil in Hy.
  - rewrite <- H1. apply IH; [done| |done]. intros y Hy. apply H2 in Hy. by apply elem_of_nil in Hy.
Qed.

(** *** The tables *)

Lemma elem_of_dedup seen l x : x ∈ dedup seen l <-> x ∈ l /\ (x ∉ seen).
Proof.
  revert seen. induction l as [|y l IH]; intros seen; cbn.
  - split; [intros Hx | intros [Hx _]]; by apply elem_of_nil in Hx.
  - destruct (bool_decide (y ∈ seen)) eqn:E; bprop.
    + rewrite IH, elem_of_cons. naive_solver.
    + rewrite !elem_of_cons, IH, not_elem_of_union, not_elem_of_singleton.
      destruct (decide (x = y)); naive_solver.
Qed.

Lemma dedup_nil l : dedup ∅ l = [] <-> l = [].
Proof.
  split; [|by intros ->]. destruct l as [|x l]; [done|]. intros E.
  assert (Hx : x ∈ dedup ∅ (x :: l)).
  { apply elem_of_dedup. split; [apply list_elem_of_here | apply not_elem_of_empty]. }
  rewrite E in Hx. by apply elem_of_nil in Hx.
Qed.

Lemma by_id_keys_spec subtasks x :
  is_Some (by_id subtasks !! x) <-> x ∈ by_id_keys subtasks.
Proof.
  unfold by_id_keys. rewrite elem_of_dedup, elem_of_keep, list_elem_of_fmap.
  unfold by_id. rewrite negb_true_iff.
  assert (G : forall l (m0 : gmap string A),
    is_Some (foldl (fun m s => if is_empty (sl_id s) then m else <[sl_id s := s]> m) m0 l !! x)
    <-> is_Some (m0 !! x) \/ is_empty x = false /\ exists s, x = sl_id s /\ s ∈ l).
  { induction l as [|s l IH]; intros m0; cbn.
    - split; [auto|]. intros [|(_ & s & _ & Hs)]; [done | by apply elem_of_nil in Hs].
    - rewrite IH. setoid_rewrite elem_of_cons. destruct (is_empty (sl_id s)) eqn:E.
      + split; [naive_solver|]. intros [|(Hx & s' & -> & [->|Hs'])]; [auto | congruence | eauto].
      + destruct (decide (x = sl_id s)) as [->|Hne].
        * rewrite lookup_insert_eq. split; [eauto 6 | eauto].
        * rewrite lookup_insert_ne by done. naive_solver. }
  rewrite G, lookup_empty.
  split; [intros [Hx|Hx]; [by apply is_Some_None in Hx|] | intros [Hx _]; right]; [|tauto].
  split; [tauto | apply not_elem_of_empty].
Qed.

(** The state the search starts from. *)
Lemma initial_colors subtasks x :
  (list_to_map ((fun i => (i, WHITE)) <$> by_id_keys subtasks) : gmap string color) !! x
  = if bool_decide (x ∈ by_id_keys subtasks) then Some WHITE else None.
Proof.
  induction (by_id_keys subtasks) as [|y l IH]; [done|]. cbn.
  destruct (decide (x = y)) as [->|Hne].
  - rewrite lookup_insert_eq. rewrite bool_decide_true; [done | apply list_elem_of_here].
  - rewrite lookup_insert_ne, IH by done.
    rewrite (bool_decide_ext (x ∈ y :: l) (x ∈ l)); [done|]. rewrite elem_of_cons. naive_solver.
Qed.

Lemma reference_errors_nil subtasks :
  reference_errors subtasks = [] <->
  forall s d, s ∈ subtasks -> d ∈ sl_depends_on s ->
              d <> sl_id s /\ exists s', s' ∈ subtasks /\ sl_id s' = d.
Proof.
  unfold reference_errors. rewrite concat_fmap_nil.
  assert (Hids : forall d, d ∈ list_to_set (C := gset string) (sl_id <$> subtasks)
                           <-> exists s', s' ∈ subtasks /\ sl_id s' = d).
  { intros d. rewrite elem_of_list_to_set, list_elem_of_fmap. naive_solver. }
  split.
  - intros Hn s d Hs Hd. specialize (Hn s Hs). rewrite concat_fmap_nil in Hn.
    specialize (Hn d Hd).
    destruct (String.eqb_spec d (sl_id s)); [done|]. split; [done|]. apply Hids.
    destruct (bool_decide _) eqn:E; [by bprop | done].
  - intros Hok s Hs. rewrite concat_fmap_nil. intros d Hd.
    destruct (Hok s d Hs Hd) as [Hne Hin]. apply String.eqb_neq in Hne. rewrite Hne. apply Hids in Hin.
    by rewrite bool_decide_true.
Qed.

Lemma dependency_errors_spec subtasks :
  exists errs, dependency_errors subtasks = Some errs
    /\ (errs = [] <->
         (forall s d, s ∈ subtasks -> d ∈ sl_depends_on s ->
              d <> sl_id s /\ exists s', s' ∈ subtasks /\ sl_id s' = d)
         /\ acyclic (by_id subtasks)).
Proof.
  unfold dependency_errors.
  set (m := by_id subtasks). set (ids := by_id_keys subtasks).
  set (st := (list_to_map ((fun i => (i, WHITE)) <$> ids), reference_errors subtasks)).
  assert (Hcol : forall x, st.1 !! x = if bool_decide (x ∈ ids) then Some WHITE else None)
    by apply initial_colors.
  assert (Hids : forall x, x ∈ ids <-> is_Some (m !! x)) by (intros x; symmetry; apply by_id_keys_spec).
  assert (Hgrey : forall x, st.1 !! x <> Some GREY) by (intros x; rewrite Hcol; by case_bool_decide).
  destruct (visit_all_total m ids ids st (length ids)) as [[c errs] E]; [|done|].
  { intros x. unfold white. rewrite Hcol. by case_bool_decide. }
  rewrite E. exists errs. split; [done|]. rewrite <- reference_errors_nil.
  assert (Hpre := visit_all_errors _ _ _ _ _ E). cbn [snd] in Hpre. split.
  - intros ->. cbn in Hpre. assert (Hr : reference_errors subtasks = []).
    { destruct (reference_errors subtasks); [done | cbn in Hpre; lia]. }
    split; [done|].
    destruct (visit_all_clean m ids st (c, []) [] (length ids) E) as (o & [_ Ht _] & _ & Hin).
    + split; [|done|].
      * intros x. rewrite Hcol, elem_of_nil. by case_bool_decide.
      * intros x Hx. rewrite Hcol. apply Hids in Hx. by rewrite bool_decide_true.
    + done.
    + intros x Hx. by apply Hids.
    + cbn. lia.
    + intros x Hx. assert (Hxm : is_Some (m !! x)) by (inversion Hx; subst; by match goal with H : edge _ _ _ |- _ => apply H end).
      apply (topo_acyclic m o x); [done | apply Hin; by apply Hids | done].
  - intros [Hr Hac]. apply (visit_all_acyclic _ _ _ _ _ Hac) in E; [|done|].
    + cbn in E. congruence.
    + intros x Hx. by apply Hids.
Qed.
End Graph.

Lemma select_ready_wave_maximal {A} `{SubtaskLike A} (subtasks : list A) completed in_flight mw s :
  let w := select_ready_wave subtasks completed in_flight mw in
  s ∈ subtasks -> ready completed s ->
  (Z.of_nat (length in_flight + length w) < Z.max 1 mw)%Z ->
  s ∈ w \/ exists r, r ∈ in_flight ++ w /\ ~ compatible s r.
Proof.
  cbn zeta. unfold select_ready_wave. intros Hs Hr Hlen.
  destruct (_ <=? 0)%Z eqn:E; bprop; [lia|].
  pose proof (pick_loop_maximal (Z.to_nat (Z.max 1 mw - Z.of_nat (length in_flight)))
                completed in_flight [] subtasks s) as M.
  rewrite app_nil_r in M. apply M; [done..|]. lia.
Qed.

(** The next wave of a phase with nothing in flight is empty only when nothing is ready. *)
Lemma select_ready_wave_progress {A} `{SubtaskLike A} (subtasks : list A) completed mw :
  select_ready_wave subtasks completed [] mw = [] <->
  forall s, s ∈ subtasks -> ~ ready completed s.
Proof.
  split.
  - intros Hw s Hs Hr. pose proof (select_ready_wave_maximal subtasks completed [] mw s) as M.
    cbn zeta in M. rewrite Hw in M. destruct M as [M|(r & M & _)]; [done..| | |].
    + cbn. lia.
    + by apply elem_of_nil in M.
    + by apply elem_of_nil in M.
  - intros Hn. destruct (select_ready_wave_ok subtasks completed [] mw) as [[Hsub Hready _ _] _].
    destruct (select_ready_wave subtasks completed [] mw) as [|s w] eqn:E; [done|].
    exfalso. apply (Hn s); [|apply Hready, list_elem_of_here].
    eapply elem_of_submseteq; [apply list_elem_of_here | by apply sublist_submseteq].
Qed.

(** Two independent subtasks, one that overlaps the first, one without files. *)
Definition scheduler_example : list Item :=
  let sub i deps files :=
    ISub {| st_id := i; st_description := ""; st_status := PENDING; st_service := None;
      st_all_services := false; st_depends_on := deps; st_model := None;
      st_files_to_modify := files; st_files_to_create := []; st_patterns_from := [];
      st_verification := None; st_acceptance_criteria := []; st_expected_output := None;
      st_actual_output := None; st_started_at := None; st_completed_at := None;
      st_critique_result := None |} in
  [sub "a" [] ["app/config.py"]; sub "b" [] ["./app//config.py"; "x"];
   sub "c" [] ["tests/t.py"]; sub "d" [] []; sub "e" ["a"] ["y"]].

Example first_wave :
  item_id <$> select_ready_wave scheduler_example ∅ [] 3 = ["a"; "c"].
Proof. vm_compute. reflexivity. Qed.

(** ** Properties *)

(** C11 (safety): a wave may run concurrently.  Its members are subtasks of the phase in
    the phase's order, pending, not completed, with every dependency completed; any two
    members, and any member and any subtask in flight, have known and disjoint file sets
    and different ids; with the subtasks in flight it respects the worker cap; and a
    subtask of unknown footprint is alone in it, with nothing in flight. *)
Theorem wave_is_safe {A} `{SubtaskLike A} (subtasks : list A) (completed : gset string)
    (in_flight : list A) (max_workers : Z) :
  let w := select_ready_wave subtasks completed in_flight max_workers in
  w `sublist_of` subtasks
  /\ (forall s, s ∈ w ->
        sl_status s = PENDING /\ (sl_id s ∉ completed)
        /\ (forall d, d ∈ sl_depends_on s -> d ∈ completed)
        /\ forall r, r ∈ in_flight -> compatible s r)
  /\ ForallOrdPairs compatible w
  /\ (w <> [] -> (Z.of_nat (length in_flight + length w) <= Z.max 1 max_workers)%Z)
  /\ (forall s, s ∈ w -> file_set s = ∅ -> w = [s] /\ in_flight = []).
Proof.
  cbn zeta. destruct (select_ready_wave_ok subtasks completed in_flight max_workers)
    as [[Hs Hr Hf Hp] Hl].
  set (w := select_ready_wave _ _ _ _) in *. split; [done|]. split.
  { intros s Hin. destruct (Hr s Hin) as (? & ? & ?). auto. }
  split; [done|]. split; [done|]. intros s Hin He. split.
  - clear Hs Hr Hf Hl. induction Hp as [|x l Hx Hp IH]; [by apply elem_of_nil in Hin|].
    rewrite Forall_forall in Hx. apply elem_of_cons in Hin as [->|Hin].
    + destruct l as [|y l]; [done|]. destruct (Hx y (list_elem_of_here _ _)) as [Hne _]. done.
    + destruct (Hx s Hin) as (_ & Hne & _). done.
  - destruct in_flight as [|r l]; [done|].
    destruct (Hf s r Hin (list_elem_of_here _ _)) as [Hne _]. done.
Qed.

(** C38 (liveness): the selection is greedy-maximal and never idles.  While a worker is
    free, a ready subtask that is left out overlaps, or may overlap, one that is chosen
    or in flight; and with nothing in flight the wave is empty exactly when no subtask of
    the phase is ready. *)
Theorem wave_is_maximal {A} `{SubtaskLike A} (subtasks : list A) (completed : gset string)
    (in_flight : list A) (max_workers : Z) :
  (let w := select_ready_wave subtasks completed in_flight max_workers in
   forall s, s ∈ subtasks -> ready completed s ->
     (Z.of_nat (length in_flight + length w) < Z.max 1 max_workers)%Z ->
     s ∈ w \/ exists r, r ∈ in_flight ++ w /\ ~ compatible s r)
  /\ (select_ready_wave subtasks completed [] max_workers = [] <->
      forall s, s ∈ subtasks -> ~ ready completed s).
Proof.
  split; [|apply select_ready_wave_progress].
  intros w s Hs Hr Hl. by apply select_ready_wave_maximal.
Qed.

(** C36 (functional): the validation of the dependency graph always returns (the depth
    bound, the number of ids, is enough), and reports no error exactly when every
    dependency names another subtask of the list and the graph of the known ids has no
    cycle. *)
Theorem validation_finds_every_fault {A} `{SubtaskLike A} (subtasks : list A) :
  exists errors, validate_dependencies subtasks = Some errors
    /\ (errors = [] <->
        (forall s d, s ∈ subtasks -> d ∈ sl_depends_on s ->
           d <> sl_id s /\ exists s', s' ∈ subtasks /\ sl_id s' = d)
        /\ acyclic (by_id subtasks)).
Proof.
  destruct (dependency_errors_spec subtasks) as (errs & E & Hiff).
  unfold validate_dependencies. rewrite E. cbn. eexists. split; [done|].
  rewrite <- Hiff, dedup_nil. split; [|by intros ->]. intros Hn. by destruct errs.
Qed.
