(* ===== verification/ParallelRunner.v ===== *)
(** The parallel phase runner (apps/backend/agents/parallel_runner.py): waves of isolated
    sessions, then merges and completion marks one at a time.

    The three hooks the caller injects are parameters over a world [W]: [gather] runs the
    sessions of a wave and returns their outcomes in the order of the wave, whatever
    their interleaving; [merge_subtask] and [mark_complete] return a value or raise.
    [clock] is [datetime.now].  The hooks do not touch the subtask objects, which the
    module's concurrency model reserves to the runner.  A subtask object is identified by
    its position in the phase, so that two objects with one id stay two objects. *)
From S2P Require Import Prelude PyData PlanData Scheduler.

(** ** What the runner asks of a subtask, beyond the scheduler's view *)

Class TrackedSubtask (A : Type) `{SubtaskLike A} := {
  tk_complete : string -> A -> A;
  tk_fail : option string -> A -> A;
  tk_complete_status : forall now s, sl_status (tk_complete now s) = COMPLETED;
  tk_fail_status : forall why s, sl_status (tk_fail why s) = FAILED;
  tk_complete_id : forall now s, sl_id (tk_complete now s) = sl_id s;
  tk_fail_id : forall why s, sl_id (tk_fail why s) = sl_id s;
  tk_complete_deps : forall now s, sl_depends_on (tk_complete now s) = sl_depends_on s;
}.

#[export, program] Instance item_tracked : TrackedSubtask Item := {
  tk_complete now := item_complete now None;
  tk_fail := item_fail;
}.
Solve All Obligations with (intros ? []; reflexivity).

(** A subtask object: its position and its current value. *)
#[export] Instance positioned_like {A} `{SubtaskLike A} : SubtaskLike (nat * A) := {
  sl_id o := sl_id o.2;
  sl_status o := sl_status o.2;
  sl_depends_on o := sl_depends_on o.2;
  sl_files_to_create o := sl_files_to_create o.2;
  sl_files_to_modify o := sl_files_to_modify o.2;
}.

Record SubtaskResult := {
  sr_subtask_id : string;
  sr_success : bool;
  sr_worktree_name : option string;
  sr_error : option string;
  sr_detail : dict;
}.

(** One entry of [asyncio.gather(..., return_exceptions=True)]. *)
Inductive outcome :=
  | Raised (message : string)
  | Ran (r : SubtaskResult).

Record PhaseRunResult := {
  pr_completed_ids : list string;
  pr_failed_ids : list string;
  pr_stalled : bool;
  pr_remaining_ids : list string;
  pr_waves : nat;
}.

Definition PhaseRunResult_ok (r : PhaseRunResult) : bool :=
  negb (pr_stalled r) && negb (list_truthy (pr_failed_ids r))
  && negb (list_truthy (pr_remaining_ids r)).

(** [sorted(ids)]: code point order. *)
Definition sorted_ids (ids : gset string) : list string := sort_by String.leb (elements ids).

Section Runner.
Context {A : Type} `{HT : TrackedSubtask A} {W : Type}.
Variable gather : W -> list A -> W * list outcome.
Variable merge_subtask : W -> A -> SubtaskResult -> W * res bool.
Variable mark_complete : W -> A -> W * res (option bool).
Variable on_wave : W -> nat -> list A -> W.
Variable clock : W -> string.

Record RunState := {
  rs_subtasks : list A;
  rs_completed : gset string;
  rs_failed : gset string;
  rs_waves : nat;
  rs_world : W;
}.

Definition with_world (st : RunState) (w : W) : RunState :=
  {| rs_subtasks := rs_subtasks st; rs_completed := rs_completed st;
     rs_failed := rs_failed st; rs_waves := rs_waves st; rs_world := w |}.

(** [_mark_failed] on the object at position [i]. *)
Definition mark_failed (st : RunState) (i : nat) (s : A) (reason : string) : RunState :=
  {| rs_subtasks := alter (tk_fail (Some reason)) i (rs_subtasks st);
     rs_completed := rs_completed st;
     rs_failed := {[sl_id s]} ∪ rs_failed st; rs_waves := rs_waves st;
     rs_world := rs_world st |}.

Definition mark_done (st : RunState) (i : nat) (s : A) : RunState :=
  {| rs_subtasks := alter (tk_complete (clock (rs_world st))) i (rs_subtasks st);
     rs_completed := {[sl_id s]} ∪ rs_completed st;
     rs_failed := rs_failed st; rs_waves := rs_waves st; rs_world := rs_world st |}.

(** The body of the sequential loop: the state and whether the subtask completed. *)
Definition process (st : RunState) (i : nat) (s : A) (o : outcome) : RunState * res bool :=
  match o with
  | Raised message => (mark_failed st i s message, Ok false)
  | Ran r =>
      if negb (sr_success r) then
        (mark_failed st i s (default "session failed" (truthy_opt (sr_error r))), Ok false)
      else
        let '(w, merged) := merge_subtask (rs_world st) s r in
        let st := with_world st w in
        match merged with
        | Err e => (st, Err e)
        | Ok false => (mark_failed st i s "merge failed", Ok false)
        | Ok true =>
            let '(w, marked) := mark_complete (rs_world st) s in
            let st := with_world st w in
            match marked with
            | Err e => (st, Err e)
            | Ok (Some false) =>
                (mark_failed st i s "completion gate refused", Ok false)
            | Ok _ => (mark_done st i s, Ok true)
            end
        end
  end.

(** [for subtask, run_res in zip(wave, run_results)], with [progressed]. *)
Fixpoint process_all (st : RunState) (l : list ((nat * A) * outcome)) : RunState * res bool :=
  match l with
  | [] => (st, Ok false)
  | ((i, s), o) :: l' =>
      match process st i s o with
      | (st', Err e) => (st', Err e)
      | (st', Ok b) =>
          let '(st'', r) := process_all st' l' in (st'', orb b <$> r)
      end
  end.

Definition objects (st : RunState) : list (nat * A) := imap pair (rs_subtasks st).

Definition is_done (st : RunState) (s : A) : bool :=
  bool_decide (sl_id s ∈ rs_completed st) || bool_decide (sl_status s = COMPLETED).

Definition remaining (st : RunState) : list A :=
  keep (fun s => negb (bool_decide (sl_id s ∈ rs_completed st))
                 && negb (bool_decide (sl_id s ∈ rs_failed st))
                 && negb (bool_decide (sl_status s = COMPLETED))) (rs_subtasks st).

Definition next_wave (workers : Z) (st : RunState) : list (nat * A) :=
  keep (fun o => negb (bool_decide (sl_id o ∈ rs_failed st)))
    (select_ready_wave (objects st) (rs_completed st) [] workers).

(** One wave: the count, the callback, the sessions, the sequential part. *)
Definition run_wave (st : RunState) (wave : list (nat * A)) : RunState * res bool :=
  let n := S (rs_waves st) in
  let w := on_wave (rs_world st) n (snd <$> wave) in
  let '(w, results) := gather w (snd <$> wave) in
  process_all {| rs_subtasks := rs_subtasks st; rs_completed := rs_completed st;
                 rs_failed := rs_failed st; rs_waves := n; rs_world := w |}
    (zip wave results).

(** The [while True] loop: the final state and ([stalled], [remaining_ids]).  One unit
    of fuel per wave. *)
Fixpoint run_loop (fuel : nat) (workers : Z) (st : RunState)
  : option (RunState * res (bool * list string)) :=
  match fuel with
  | O => None
  | S fuel =>
      match remaining st with
      | [] => Some (st, Ok (false, []))
      | rem =>
          match next_wave workers st with
          | [] => Some (st, Ok (true, sl_id <$> rem))
          | wave =>
              match run_wave st wave with
              | (st', Err e) => Some (st', Err e)
              | (st', Ok true) => run_loop fuel workers st'
              | (st', Ok false) =>
                  Some (st', Ok (true, sl_id <$> keep (fun s => negb (is_done st' s))
                                                 (rs_subtasks st')))
              end
          end
      end
  end.

Definition start_state (subtasks : list A) (w : W) : RunState :=
  {| rs_subtasks := subtasks;
     rs_completed := list_to_set (sl_id <$> keep (fun s => bool_decide (sl_status s = COMPLETED))
                                               subtasks);
     rs_failed := ∅; rs_waves := 0; rs_world := w |}.

(** The validation of the dependency graph only logs. *)
Definition run_parallel_phase (subtasks : list A) (workers : Z) (w : W)
  : option (RunState * res PhaseRunResult) :=
  match run_loop (S (length subtasks)) (Z.max 1 workers) (start_state subtasks w) with
  | None => None
  | Some (st, Err e) => Some (st, Err e)
  | Some (st, Ok (stalled, remaining_ids)) =>
      Some (st, Ok {| pr_completed_ids := sorted_ids (rs_completed st);
                      pr_failed_ids := sorted_ids (rs_failed st);
                      pr_stalled := stalled; pr_remaining_ids := remaining_ids;
                      pr_waves := rs_waves st |})
  end.

(** *** What one subtask of a wave goes through *)

(** The session succeeded, the merge returned true and the gate did not refuse. *)
Definition honest (s : A) : Prop :=
  exists w r w1 w2 v,
    sr_success r = true /\ merge_subtask w s r = (w1, Ok true)
    /\ mark_complete w1 s = (w2, Ok v) /\ v <> Some false.

Inductive processed (st : RunState) (i : nat) (s : A) : RunState -> res bool -> Prop :=
  | proc_failed w why : processed st i s (mark_failed (with_world st w) i s why) (Ok false)
  | proc_done w : honest s -> processed st i s (mark_done (with_world st w) i s) (Ok true)
  | proc_raised w e : processed st i s (with_world st w) (Err e).

Lemma process_spec st i s o st' r : process st i s o = (st', r) -> processed st i s st' r.
Proof.
  assert (E0 : st = with_world st (rs_world st)) by (by destruct st).
  unfold process. destruct o as [m|r0].
  - intros [= <- <-]. rewrite E0 at 2. constructor.
  - destruct (sr_success r0) eqn:Es; cbn [negb].
    2:{ intros [= <- <-]. rewrite E0 at 2. constructor. }
    destruct (merge_subtask (rs_world st) s r0) as [w1 [[]|e]] eqn:Em.
    + destruct (mark_complete (rs_world (with_world st w1)) s) as [w2 [v|e]] eqn:Ek.
      * cbn in Ek. destruct v as [[]|]; intros [= <- <-].
        -- apply (proc_done st i s w2). by exists (rs_world st), r0, w1, w2, (Some true).
        -- apply (proc_failed st i s w2).
        -- apply (proc_done st i s w2). by exists (rs_world st), r0, w1, w2, None.
      * intros [= <- <-]. apply (proc_raised st i s w2).
    + intros [= <- <-]. apply (proc_failed st i s w1).
    + intros [= <- <-]. apply (proc_raised st i s w1).
Qed.

(** *** The invariant of the run, relative to the subtasks it started from *)

Record run_inv (subs0 : list A) (st : RunState) : Prop := {
  inv_ids : sl_id <$> rs_subtasks st = sl_id <$> subs0;
  inv_disjoint : rs_completed st ## rs_failed st;
  inv_completed : forall x, x ∈ rs_completed st <->
    exists s, s ∈ rs_subtasks st /\ sl_id s = x /\ sl_status s = COMPLETED;
  inv_objects : forall i s0 s, subs0 !! i = Some s0 -> rs_subtasks st !! i = Some s ->
    s = s0 \/ sl_status s = FAILED
    \/ (sl_status s = COMPLETED /\ honest s0
        /\ forall d, d ∈ sl_depends_on s0 -> d ∈ rs_completed st);
}.

(** A subtask whose turn in the sequential part has not come. *)
Record todo (st : RunState) (i : nat) (s : A) : Prop := {
  todo_at : rs_subtasks st !! i = Some s;
  todo_pending : sl_status s = PENDING;
  todo_completed : sl_id s ∉ rs_completed st;
  todo_failed : sl_id s ∉ rs_failed st;
  todo_deps : forall d, d ∈ sl_depends_on s -> d ∈ rs_completed st;
}.

Lemma ids_alter (f : A -> A) (i : nat) (l : list A) :
  (forall s, sl_id (f s) = sl_id s) -> sl_id <$> alter f i l = sl_id <$> l.
Proof.
  intros Hf. revert i. induction l as [|s l IH]; intros [|i]; cbn; try done.
  - by rewrite Hf.
  - f_equal. apply IH.
Qed.

Lemma elem_of_alter (f : A -> A) (i : nat) (l : list A) s x :
  l !! i = Some s -> x ∈ alter f i l <-> x = f s \/ exists j, j <> i /\ l !! j = Some x.
Proof.
  intros Hi. rewrite list_elem_of_lookup. split.
  - intros (j & Hj). destruct (decide (j = i)) as [->|Hne].
    + rewrite list_lookup_alter_eq, Hi in Hj. injection Hj as <-. auto.
    + rewrite list_lookup_alter_ne in Hj by done. eauto.
  - intros [->|(j & Hne & Hj)].
    + exists i. by rewrite list_lookup_alter_eq, Hi.
    + exists j. by rewrite list_lookup_alter_ne.
Qed.

(** A pending object is the one the run started with. *)
Lemma pending_untouched subs0 st i s0 s :
  run_inv subs0 st -> subs0 !! i = Some s0 -> todo st i s -> s = s0.
Proof.
  intros Hinv H0 Ht. destruct (inv_objects _ _ Hinv i s0 s H0 (todo_at _ _ _ Ht))
    as [|[Hs|[Hs _]]]; [done|..]; rewrite (todo_pending _ _ _ Ht) in Hs; done.
Qed.

Lemma with_world_inv subs0 st w : run_inv subs0 st -> run_inv subs0 (with_world st w).
Proof. by intros [? ? ? ?]. Qed.

Lemma mark_failed_inv subs0 st i s why :
  run_inv subs0 st -> todo st i s -> run_inv subs0 (mark_failed st i s why).
Proof.
  intros Hinv Ht. destruct Ht as [Hat Hp Hc Hf Hd]. split; cbn.
  - rewrite ids_alter by apply tk_fail_id. apply Hinv.
  - pose proof (inv_disjoint _ _ Hinv). set_solver.
  - intros x. rewrite (inv_completed _ _ Hinv). split.
    + intros (s' & Hin & Hid & Hst). apply list_elem_of_lookup in Hin as (j & Hj).
      exists s'. split; [|done]. rewrite elem_of_alter by done. right. exists j.
      split; [|done]. intros ->. rewrite Hat in Hj. injection Hj as ->. congruence.
    + intros (s' & Hin & Hid & Hst). rewrite elem_of_alter in Hin by done.
      destruct Hin as [->|(j & _ & Hj)].
      * rewrite tk_fail_status in Hst. done.
      * exists s'. split; [by eapply list_elem_of_lookup_2 | done].
  - intros j s0 s' H0 H'. destruct (decide (j = i)) as [->|Hne].
    + rewrite list_lookup_alter_eq, Hat in H'. injection H' as <-.
      right. left. apply tk_fail_status.
    + rewrite list_lookup_alter_ne in H' by done. by apply (inv_objects _ _ Hinv j).
Qed.

Lemma mark_done_inv subs0 st i s :
  run_inv subs0 st -> todo st i s -> honest s -> run_inv subs0 (mark_done st i s).
Proof.
  intros Hinv Ht Hh. assert (Ht' := Ht). destruct Ht as [Hat Hp Hc Hf Hd]. split; cbn.
  - rewrite ids_alter by apply tk_complete_id. apply Hinv.
  - pose proof (inv_disjoint _ _ Hinv). set_solver.
  - intros x. rewrite elem_of_union, elem_of_singleton, (inv_completed _ _ Hinv). split.
    + intros [->|(s' & Hin & Hid & Hst)].
      * eexists. split; [rewrite elem_of_alter by done; left; reflexivity|].
        split; [apply tk_complete_id | apply tk_complete_status].
      * apply list_elem_of_lookup in Hin as (j & Hj).
        exists s'. split; [|done]. rewrite elem_of_alter by done. right. exists j.
        split; [|done]. intros ->. rewrite Hat in Hj. injection Hj as ->. congruence.
    + intros (s' & Hin & Hid & Hst). rewrite elem_of_alter in Hin by done.
      destruct Hin as [->|(j & _ & Hj)].
      * left. by rewrite tk_complete_id in Hid.
      * right. exists s'. split; [by eapply list_elem_of_lookup_2 | done].
  - intros j s0 s' H0 H'. destruct (decide (j = i)) as [->|Hne].
    + rewrite list_lookup_alter_eq, Hat in H'. injection H' as <-.
      right. right. split; [apply tk_complete_status|].
      rewrite <- (pending_untouched _ _ _ _ _ Hinv H0 Ht'). split; [done|]. set_solver.
    + rewrite list_lookup_alter_ne in H' by done.
      destruct (inv_objects _ _ Hinv j s0 s' H0 H') as [|[|(? & ? & ?)]]; auto.
      right. right. split; [done|]. split; [done|]. set_solver.
Qed.

Lemma processed_inv subs0 st i s st' r :
  run_inv subs0 st -> todo st i s -> processed st i s st' r -> run_inv subs0 st'.
Proof.
  intros Hinv Ht [w why|w Hh|w e].
  - apply (mark_failed_inv subs0 (with_world st w)); [by apply with_world_inv | by destruct Ht].
  - apply (mark_done_inv subs0 (with_world st w)); [by apply with_world_inv | by destruct Ht | done].
  - by apply with_world_inv.
Qed.

Lemma processed_todo st i s st' r j s' :
  processed st i s st' r -> todo st i s -> todo st j s' -> sl_id s' <> sl_id s ->
  todo st' j s'.
Proof.
  intros Hp Hi Hj Hne.
  assert (Hij : j <> i).
  { intros ->. destruct Hi as [Hi _ _ _ _], Hj as [Hj _ _ _ _]. congruence. }
  destruct Hj as [Ha Hpe Hc Hf Hd], Hp as [w why|w Hh|w e]; split; cbn; auto.
  - by rewrite list_lookup_alter_ne.
  - set_solver.
  - by rewrite list_lookup_alter_ne.
  - set_solver.
  - set_solver.
Qed.

(** *** The sequential part of a wave *)

Definition todo_all (st : RunState) (l : list (nat * A)) : Prop :=
  NoDup ((fun o => sl_id o.2) <$> l) /\ forall o, o ∈ l -> todo st o.1 o.2.

Lemma process_all_inv subs0 st l st' r :
  run_inv subs0 st -> todo_all st (l.*1) -> process_all st l = (st', r) ->
  run_inv subs0 st' /\ rs_waves st' = rs_waves st
  /\ (forall x, x ∈ rs_completed st -> x ∈ rs_completed st')
  /\ (r = Ok true ->
      exists s, s ∈ rs_subtasks st /\ (sl_id s ∉ rs_completed st) /\ sl_id s ∈ rs_completed st').
Proof.
  revert st r. induction l as [|[[i s] o] l IH]; intros st r Hinv [Hnd Ht]; cbn [process_all].
  - intros [= <- <-]. done.
  - destruct (process st i s o) as [st1 r1] eqn:E. apply process_spec in E.
    cbn in Hnd, Ht. apply NoDup_cons in Hnd as [Hfresh Hnd].
    assert (Hi : todo st i s) by apply (Ht (i, s)), list_elem_of_here.
    assert (Hinv1 := processed_inv _ _ _ _ _ _ Hinv Hi E).
    assert (H1 : rs_waves st1 = rs_waves st
                 /\ (forall x, x ∈ rs_completed st -> x ∈ rs_completed st1)
                 /\ (r1 = Ok true -> sl_id s ∈ rs_completed st1)
                 /\ forall s', s' ∈ rs_subtasks st1 -> exists s'', s'' ∈ rs_subtasks st /\ sl_id s'' = sl_id s').
    { assert (Hids : sl_id <$> rs_subtasks st1 = sl_id <$> rs_subtasks st)
        by (rewrite (inv_ids _ _ Hinv1), (inv_ids _ _ Hinv); done).
      split; [by destruct E|]. split; [destruct E; set_solver|].
      split; [destruct E; [done| |done]; set_solver|].
      intros s' Hs'. apply (list_elem_of_fmap_2 sl_id) in Hs'. rewrite Hids in Hs'.
      apply list_elem_of_fmap in Hs' as (s'' & -> & Hs''). eauto. }
    destruct H1 as (Hw & Hmono & Hdone & Hback).
    destruct r1 as [b|e]; [|by intros [= <- <-]].
    destruct (process_all st1 l) as [st2 r2] eqn:E2. intros [= <- <-].
    destruct (IH st1 r2 Hinv1) as (Hinv2 & Hw2 & Hmono2 & Hprog); [|done|].
    { split; [done|]. intros [j s'] Hj. eapply processed_todo; [done..| |].
      - apply (Ht (j, s')). by apply list_elem_of_further.
      - intros Heq. apply Hfresh. rewrite <- Heq.
        by apply (list_elem_of_fmap_2 (fun o : nat * A => sl_id o.2) _ (j, s')). }
    split; [done|]. split; [congruence|]. split; [auto|].
    intros Hr. destruct b.
    + exists s. split; [eapply list_elem_of_lookup_2, Hi|]. split; [apply Hi | auto].
    + destruct r2 as [[]|]; [|done..]. destruct Hprog as (s' & Hs' & Hn & Hy); [done|].
      destruct (Hback s' Hs') as (s'' & Hs'' & Hid). exists s''. rewrite Hid.
      split; [done|]. split; [|done]. intros Hc. apply Hn. auto.
Qed.

(** *** The wave *)

Lemma elem_of_objects st i s : (i, s) ∈ objects st <-> rs_subtasks st !! i = Some s.
Proof.
  unfold objects. rewrite elem_of_lookup_imap. split.
  - by intros (j & x & [= -> ->] & Hx).
  - intros Hs. eauto.
Qed.

Lemma compatible_NoDup (l : list (nat * A)) :
  ForallOrdPairs compatible l -> NoDup ((fun o => sl_id o.2) <$> l).
Proof.
  induction 1 as [|o l Ho Hl IH]; cbn; constructor; [|done].
  intros Hin. apply list_elem_of_fmap in Hin as (o' & Hid & Ho').
  rewrite Forall_forall in Ho. destruct (Ho o' Ho') as (_ & _ & _ & Hne). by apply Hne.
Qed.

Lemma next_wave_todo workers st wave :
  wave `sublist_of` next_wave workers st -> todo_all st wave.
Proof.
  intros Hsub. unfold next_wave in Hsub.
  destruct (select_ready_wave_ok (objects st) (rs_completed st) [] workers)
    as [[Hs Hr _ Hp] _].
  assert (Hsub' : wave `sublist_of` select_ready_wave (objects st) (rs_completed st) [] workers).
  { etrans; [exact Hsub | apply keep_sublist]. }
  split.
  - eapply sublist_NoDup; [by apply compatible_NoDup | by apply sublist_map].
  - intros [i s] Ho. destruct (Hr (i, s)) as (H1 & H2 & H3); [by eapply elem_of_sublist|].
    assert (Hf : (i, s) ∈ next_wave workers st) by (by eapply elem_of_sublist).
    apply elem_of_keep in Hf as [_ Hf]. bprop. split; try done.
    apply elem_of_objects. eapply elem_of_sublist; [exact Hs|]. by eapply elem_of_sublist.
Qed.

Lemma run_wave_inv subs0 workers st st' r :
  run_inv subs0 st -> run_wave st (next_wave workers st) = (st', r) ->
  run_inv subs0 st' /\ rs_waves st' = S (rs_waves st)
  /\ (forall x, x ∈ rs_completed st -> x ∈ rs_completed st')
  /\ (r = Ok true ->
      exists s, s ∈ rs_subtasks st /\ (sl_id s ∉ rs_completed st) /\ sl_id s ∈ rs_completed st').
Proof.
  intros Hinv. unfold run_wave. destruct (gather _ _) as [w results]. intros E.
  eapply process_all_inv in E; [exact E | by destruct Hinv |].
  assert (Hsub : (zip (next_wave workers st) results).*1 `sublist_of` next_wave workers st)
    by apply prefix_sublist, fst_zip_prefix.
  apply next_wave_todo in Hsub as [Hn Ht]. split; [done|].
  intros o Ho. by destruct (Ht o Ho).
Qed.

(** *** The loop *)

Definition undone (ids : list string) (st : RunState) : nat :=
  countb (fun x => negb (bool_decide (x ∈ rs_completed st))) ids.

Lemma undone_lt subs0 st st' s :
  run_inv subs0 st -> (forall x, x ∈ rs_completed st -> x ∈ rs_completed st') ->
  s ∈ rs_subtasks st -> sl_id s ∉ rs_completed st -> sl_id s ∈ rs_completed st' ->
  undone (sl_id <$> subs0) st' < undone (sl_id <$> subs0) st.
Proof.
  intros Hinv Hmono Hs Hn Hy. apply (countb_lt _ _ _ (sl_id s)).
  - intros x Hx. apply negb_true_iff, bool_decide_eq_false in Hx.
    apply negb_true_iff, bool_decide_eq_false. auto.
  - rewrite <- (inv_ids _ _ Hinv). by apply list_elem_of_fmap_2.
  - by apply negb_true_iff, bool_decide_eq_false.
  - by apply negb_false_iff, bool_decide_eq_true.
Qed.

(** How the loop ends: the state satisfies the invariant, and a normal end without a
    stall leaves nothing to do. *)
Lemma run_loop_ends subs0 workers fuel st :
  run_inv subs0 st -> undone (sl_id <$> subs0) st < fuel ->
  exists st' r, run_loop fuel workers st = Some (st', r) /\ run_inv subs0 st'
    /\ rs_waves st' <= rs_waves st + undone (sl_id <$> subs0) st + 1
    /\ (forall stalled rem, r = Ok (stalled, rem) -> stalled = false ->
           rem = [] /\ remaining st' = []).
Proof.
  revert st. induction fuel as [|fuel IH]; intros st Hinv Hf; [lia|].
  cbn [run_loop]. destruct (remaining st) as [|s0 rest] eqn:Er.
  { exists st, (Ok (false, [])). split; [done|]. split; [done|]. split; [lia|].
    intros ? ? [= <- <-] _. done. }
  destruct (next_wave workers st) as [|o wave] eqn:Ew.
  { eexists st, _. split; [done|]. split; [done|]. split; [lia|]. by intros ? ? [= <- _]. }
  rewrite <- Ew. destruct (run_wave st (next_wave workers st)) as [st1 r1] eqn:E.
  destruct (run_wave_inv subs0 workers st st1 r1 Hinv E) as (Hinv1 & Hw & Hmono & Hprog).
  destruct r1 as [[]|e].
  - destruct Hprog as (s & Hs & Hn & Hy); [done|].
    pose proof (undone_lt subs0 st st1 s Hinv Hmono Hs Hn Hy) as Hlt.
    destruct (IH st1 Hinv1) as (st' & r & -> & Hinv' & Hw' & Hend); [lia|].
    exists st', r. split; [done|]. split; [done|]. split; [lia|done].
  - eexists st1, _. split; [done|]. split; [done|]. split; [lia|]. by intros ? ? [= <- _].
  - eexists st1, _. split; [done|]. split; [done|]. split; [lia|]. by intros ? ? [=].
Qed.

Lemma start_inv subtasks w : run_inv subtasks (start_state subtasks w).
Proof.
  split; cbn; [done | set_solver | |].
  - intros x. rewrite elem_of_list_to_set, list_elem_of_fmap. split.
    + intros (s & -> & Hs). apply elem_of_keep in Hs as [Hs Hc]. bprop. eauto.
    + intros (s & Hs & <- & Hc). exists s. split; [done|]. apply elem_of_keep.
      split; [done|]. by apply bool_decide_eq_true.
  - intros i s0 s H1 H2. left. congruence.
Qed.

Lemma run_parallel_phase_ends subtasks workers w :
  exists st r, run_parallel_phase subtasks workers w = Some (st, r)
    /\ run_inv subtasks st /\ rs_waves st <= S (length subtasks)
    /\ forall res, r = Ok res ->
         pr_completed_ids res = sorted_ids (rs_completed st)
         /\ pr_failed_ids res = sorted_ids (rs_failed st)
         /\ (pr_stalled res = false -> remaining st = []).
Proof.
  unfold run_parallel_phase.
  pose proof (countb_le (fun x => negb (bool_decide (x ∈ rs_completed (start_state subtasks w))))
                (sl_id <$> subtasks)) as Hle. rewrite length_fmap in Hle.
  destruct (run_loop_ends subtasks (Z.max 1 workers) (S (length subtasks))
              (start_state subtasks w) (start_inv _ _)) as (st & r & -> & Hinv & Hw & Hend).
  { unfold undone. lia. }
  unfold undone in Hw. cbn [rs_waves start_state] in Hw.
  destruct r as [[stalled rem]|e]; (eexists st, _; split; [done|]; split; [done|]; split; [lia|]).
  - intros res [= <-]. cbn. split; [done|]. split; [done|].
    intros ->. by destruct (Hend false rem eq_refl eq_refl).
  - by intros res [=].
Qed.

Lemma elem_of_sorted_ids x (ids : gset string) : x ∈ sorted_ids ids <-> x ∈ ids.
Proof. unfold sorted_ids. by rewrite elem_of_sort_by, elem_of_elements. Qed.
End Runner.

(** Some pair of positions [i < j] of the list. *)
Fixpoint exists_pair {A} (f : A -> A -> bool) (l : list A) : bool :=
  match l with
  | [] => false
  | x :: l' => existsb (f x) l' || exists_pair f l'
  end.

Definition is_phase_parallel_eligible (phase : Phase) (workers : Z) : bool :=
  if (workers <=? 1)%Z then false
  else
    let pending := keep (fun s => bool_decide (item_status s = PENDING)) (ph_subtasks phase) in
    if length pending <? 2 then false
    else if ph_parallel_safe phase then true
    else exists_pair (fun a b =>
           negb (bool_decide (item_id a ∈ item_depends_on b)
                 || bool_decide (item_id b ∈ item_depends_on a))
           && negb (conflicts a b)) pending.

(** Hooks for examples: every session succeeds; the subtask "c" does not merge. *)
Definition example_gather (w : nat) (wave : list Item) : nat * list outcome :=
  (w + length wave,
   (fun s => Ran {| sr_subtask_id := item_id s; sr_success := true; sr_worktree_name := None;
                    sr_error := None; sr_detail := [] |}) <$> wave).
Definition example_merge (failing : string) (w : nat) (s : Item) (r : SubtaskResult)
  : nat * res bool := (w, Ok (negb (String.eqb (item_id s) failing))).
Definition example_mark (w : nat) (s : Item) : nat * res (option bool) := (w, Ok None).
Definition example_run (failing : string) : option (RunState (W := nat) * res PhaseRunResult) :=
  run_parallel_phase example_gather (example_merge failing) example_mark
    (fun w _ _ => w) (fun _ => "now") scheduler_example 3 0.

Example example_run_ok :
  match example_run "" with
  | Some (st, Ok r) => Some (r, item_status <$> rs_subtasks st, rs_world st)
  | _ => None
  end
  = Some ({| pr_completed_ids := ["a"; "b"; "c"; "d"; "e"]; pr_failed_ids := [];
             pr_stalled := false; pr_remaining_ids := []; pr_waves := 3 |},
          [COMPLETED; COMPLETED; COMPLETED; COMPLETED; COMPLETED], 5).
Proof. vm_compute. reflexivity. Qed.

Example example_run_merge_fails :
  match example_run "a" with
  | Some (_, Ok r) => Some r
  | _ => None
  end
  = Some {| pr_completed_ids := ["b"; "c"; "d"]; pr_failed_ids := ["a"];
            pr_stalled := true; pr_remaining_ids := ["e"]; pr_waves := 3 |}.
Proof. vm_compute. reflexivity. Qed.

(** ** Properties *)

(** Whatever the hooks do, the phase run ends, raising only what a
    merge or a completion hook raised, after at most one wave more than there are
    subtasks; and the subtasks keep their ids and their number. *)
Theorem parallel_phase_terminates {A} `{TrackedSubtask A} {W} gather merge mark
    (on_wave : W -> nat -> list A -> W) clock (subtasks : list A) (workers : Z) (w : W) :
  exists st r,
    run_parallel_phase gather merge mark on_wave clock subtasks workers w = Some (st, r)
    /\ rs_waves st <= S (length subtasks)
    /\ sl_id <$> rs_subtasks st = sl_id <$> subtasks.
Proof.
  destruct (run_parallel_phase_ends gather merge mark on_wave clock subtasks workers w)
    as (st & r & E & Hinv & Hw & _).
  exists st, r. split; [done|]. split; [done | apply Hinv].
Qed.

(** The result of a run that returns is consistent with the subtasks it
    leaves behind.  The completed ids are exactly the ids of the subtasks marked
    COMPLETED, none of them is also failed, and when [ok] holds the id of every subtask
    is completed; with distinct ids every subtask is then marked COMPLETED. *)
Theorem parallel_phase_accounting {A} `{TrackedSubtask A} {W} gather merge mark
    (on_wave : W -> nat -> list A -> W) clock (subtasks : list A) (workers : Z) (w : W) :
  match run_parallel_phase gather merge mark on_wave clock subtasks workers w with
  | Some (st, Ok r) =>
      (forall x, x ∈ pr_completed_ids r <->
         exists s, s ∈ rs_subtasks st /\ sl_id s = x /\ sl_status s = COMPLETED)
      /\ (forall x, x ∈ pr_completed_ids r -> x ∉ pr_failed_ids r)
      /\ (PhaseRunResult_ok r = true ->
            (forall s, s ∈ rs_subtasks st -> sl_id s ∈ pr_completed_ids r)
            /\ (NoDup (sl_id <$> subtasks) ->
                forall s, s ∈ rs_subtasks st -> sl_status s = COMPLETED))
  | Some (_, Err _) => True
  | None => False
  end.
Proof.
  destruct (run_parallel_phase_ends gather merge mark on_wave clock subtasks workers w)
    as (st & r & -> & Hinv & _ & Hres).
  destruct r as [res|e]; [|done]. destruct (Hres res eq_refl) as (Hc & Hf & Hrem).
  rewrite Hc, Hf.
  assert (Hcomp := inv_completed _ _ _ _ Hinv).
  split; [intros x; by rewrite elem_of_sorted_ids, Hcomp|]. split.
  - intros x. rewrite !elem_of_sorted_ids. pose proof (inv_disjoint _ _ _ _ Hinv). set_solver.
  - unfold PhaseRunResult_ok. rewrite Hf. intros Hok. bprop.
    assert (Hnf : forall x, x ∉ rs_failed st).
    { intros x Hx. apply elem_of_sorted_ids in Hx.
      destruct (sorted_ids (rs_failed st)); [by apply elem_of_nil in Hx | done]. }
    specialize (Hrem ltac:(done)).
    assert (Hall : forall s, s ∈ rs_subtasks st -> sl_id s ∈ rs_completed st).
    { intros s Hs. destruct (decide (sl_id s ∈ rs_completed st)) as [|Hn]; [done|].
      destruct (decide (sl_status s = COMPLETED)) as [Hst|Hst]; [apply Hcomp; eauto|].
      assert (Hin : s ∈ remaining st).
      { apply elem_of_keep. split; [done|].
        rewrite (bool_decide_false _ Hn), (bool_decide_false _ (Hnf _)), (bool_decide_false _ Hst). done. }
      rewrite Hrem in Hin. by apply elem_of_nil in Hin. }
    split; [intros s Hs; apply elem_of_sorted_ids; auto|].
    intros Hnd s Hs. specialize (Hall s Hs). apply Hcomp in Hall as (s' & Hs' & Hid & Hst).
    rewrite <- (inv_ids _ _ _ _ Hinv) in Hnd.
    by rewrite <- (NoDup_fmap_elem sl_id _ s' s Hnd Hs' Hs Hid).
Qed.

