(* ===== verification/MergePolicy.v ===== *)
(** The merge gate (apps/backend/merge/merge_policy.py) and the review tier of a plan
    (apps/backend/review_tier.py): when a change may merge by itself, and which human
    review it gets.

    Values the code declares [object] are JSON values.  [repr] is [str] on a list or a
    dictionary: the gate names of a deployment block may hold anything. *)
From S2P Require Import Prelude PyData.
From Stdlib Require Import QArith.
Close Scope Q_scope.

(** ** Review tiers (review_tier.py) *)

Definition AUTO : string := "auto".
Definition ASYNC : string := "async".
Definition BLOCKING : string := "blocking".

Definition HIGH_RISK_PATTERNS : list string :=
  ["auth"; "login"; "session"; "password"; "secret"; "credential"; "token"; "oauth"; "iam";
   "rbac"; "permission"; "migration"; "alembic"; "schema.prisma"; "terraform"; ".tf";
   "dockerfile"; "docker-compose"; "k8s"; "kubernetes"; "helm"; ".github/workflows";
   "ci.yml"; "deploy"; "payment"; "billing"].

Definition TRIVIAL_MAX_SUBTASKS : nat := 2.
Definition TRIVIAL_MAX_FILES : nat := 3.
Definition LOW_CONFIDENCE_THRESHOLD : Q := 1 # 2.

(** [_RISK_RE.search(s)]: some pattern occurs, letter case aside. *)
Definition risk_search (s : string) : bool :=
  existsb (fun p => contains p (lower s)) HIGH_RISK_PATTERNS.

(** The reasons of an assessment, before they are rendered. *)
Inductive review_reason :=
  | HighRiskPaths (first : list string)
  | TrustedPlan
  | LowConfidence (confidence : Q)
  | SoloMode
  | TrivialChange (subtasks files : nat)
  | StandardChange.

Record ReviewAssessment := {
  ra_tier : string;
  ra_pre_merge_gate : bool;
  ra_reasons : list review_reason;
  ra_high_risk_files : list string;
}.

(** The loops over phases and subtasks skip what is not a dictionary. *)
Definition subtask_files (st : json) : res (list json) :=
  match st with
  | JObj d =>
      let! created := iter_key "files_to_create" d in
      let! modified := iter_key "files_to_modify" d in
      Ok (created ++ modified)
  | _ => Ok []
  end.
Definition phase_files (phase : json) : res (list json) :=
  match phase with
  | JObj d =>
      let! subtasks := iter_key "subtasks" d in
      let! files := mapM subtask_files subtasks in
      Ok (concat files)
  | _ => Ok []
  end.
Definition all_files (plan : dict) : res (list json) :=
  let! phases := iter_key "phases" plan in
  let! files := mapM phase_files phases in
  Ok (concat files).

(** [len(p.get("subtasks", []) or [])] *)
Definition phase_len (phase : json) : res nat :=
  match phase with
  | JObj d => let! l := iter_key "subtasks" d in Ok (length l)
  | _ => Ok 0
  end.
Definition count_subtasks (plan : dict) : res nat :=
  let! phases := iter_key "phases" plan in
  let! lens := mapM phase_len phases in
  Ok (sum_list lens).

(** [sorted({f for f in files if _RISK_RE.search(f)})]: a pattern is only searched in a
    string. *)
Definition string_set (l : list string) : gset string := list_to_set l.
Definition sorted_set (s : gset string) : list string := sort_by String.leb (elements s).

Definition search_file (f : json) : res (option string) :=
  match f with
  | JStr s => Ok (if risk_search s then Some s else None)
  | _ => Err TypeError
  end.
Definition high_risk (files : list json) : res (list string) :=
  let! found := mapM search_file files in
  Ok (sorted_set (string_set (omap id found))).

(** [confidence is not None and confidence < LOW_CONFIDENCE_THRESHOLD] *)
Definition low_confidence (confidence : option Q) : bool :=
  match confidence with
  | Some c => negb (Qle_bool LOW_CONFIDENCE_THRESHOLD c)
  | None => false
  end.

Definition classify_review_tier (plan : dict) (trusted solo : bool) (confidence : option Q)
  : res ReviewAssessment :=
  let! files := all_files plan in
  let! high_risk_files := high_risk files in
  let is_high_risk := list_truthy high_risk_files in
  let assess tier reasons :=
    {| ra_tier := tier; ra_pre_merge_gate := is_high_risk; ra_reasons := reasons;
       ra_high_risk_files := high_risk_files |} in
  let reasons := if is_high_risk then [HighRiskPaths (take 5 high_risk_files)] else [] in
  if trusted then Ok (assess AUTO (reasons ++ [TrustedPlan]))
  else if is_high_risk || low_confidence confidence then
    Ok (assess BLOCKING
          (reasons ++ (match confidence with
                       | Some c => if low_confidence confidence then [LowConfidence c] else []
                       | None => []
                       end)))
  else
    let! n_subtasks := count_subtasks plan in
    if solo then Ok (assess AUTO (reasons ++ [SoloMode]))
    else if (n_subtasks <=? TRIVIAL_MAX_SUBTASKS) && (length files <=? TRIVIAL_MAX_FILES) then
      Ok (assess AUTO (reasons ++ [TrivialChange n_subtasks (length files)]))
    else Ok (assess ASYNC (reasons ++ [StandardChange])).

(** ** The merge gate (merge_policy.py) *)

Definition AUTO_MERGE : string := "auto-merge".
Definition HOLD_ASYNC : string := "hold-async".
Definition HOLD_BLOCKING : string := "hold-blocking".

Definition HUMAN_ONLY_GATES : list string := ["human-approval"].
Definition NON_AUTONOMOUS_RISK : list string := ["high"].

Inductive bucket := LOW | MEDIUM | HARD.

#[export] Instance bucket_eq_dec : EqDecision bucket.
Proof. solve_decision. Defined.

(** [_TIER_ALIASES.get(s)] *)
Definition TIER_ALIASES (s : string) : option bucket :=
  match s with
  | "low" | "auto" => Some LOW
  | "medium" | "async" => Some MEDIUM
  | "hard" | "blocking" => Some HARD
  | _ => None
  end.

Definition BUCKET_RANK (b : bucket) : Z :=
  match b with LOW => 0 | MEDIUM => 1 | HARD => 2 end.

(** [_TIER_ALIASES.get(str(tier or "").strip().lower())] *)
Definition tier_bucket (tier : option string) : option bucket :=
  TIER_ALIASES (lower (strip (default "" tier))).

(** [_BUCKET_RANK.get(..., -1)] *)
Definition tier_rank (tier : option string) : Z :=
  match tier_bucket tier with Some b => BUCKET_RANK b | None => -1 end.

(** [isinstance(x, Iterable)], strings excluded. *)
Definition iterable_not_str (v : json) : option (list json) :=
  match v with
  | JList l => Some l
  | JObj d => Some ((fun kv => JStr kv.1) <$> d)
  | _ => None
  end.

(** [table] says whether the pattern table could be imported. *)
Definition floor_from_paths (table : bool) (changed : json) : string :=
  if negb table then BLOCKING
  else match iterable_not_str changed with
       | None => AUTO
       | Some paths =>
           if existsb (fun p => match p with
                                | JStr s => negb (is_empty (strip s)) && risk_search s
                                | _ => false
                                end) paths
           then BLOCKING else AUTO
       end.

Definition raise_review_tier (tier floor : option string) : option string :=
  if (tier_rank tier <? tier_rank floor)%Z then floor else tier.

Definition verdict_pass (v : json) : bool :=
  match v with
  | JBool b => b
  | JStr s => bool_decide (lower (strip s) ∈ ["pass"; "passed"; "green"; "ok"])
  | _ => false
  end.

Definition val_rank (v : json) : option Z :=
  match v with
  | JInt n => Some n
  | JStr s => first_int s
  | _ => None
  end.

Definition floor_absent (v : json) : bool :=
  match v with
  | JNull => true
  | JStr s => is_empty (strip s)
  | _ => false
  end.

Definition val_meets_floor (achieved_val val_floor : json) : bool :=
  match val_rank achieved_val with
  | None => false
  | Some a =>
      match val_rank val_floor with
      | None => floor_absent val_floor
      | Some f => (f <=? a)%Z
      end
  end.

Inductive block_reason :=
  | RiskClass (class : string)
  | ProductionChange
  | HumanGate (gate : string)
  | UnsatisfiedGate (gate : string).

Section Deployment.
Variable repr : json -> string.

(** [str(v)] *)
Definition py_str (v : json) : string :=
  match v with
  | JNull => "None"
  | JBool true => "True"
  | JBool false => "False"
  | JInt z => pretty z
  | JStr s => s
  | JList _ | JObj _ => repr v
  end.

Definition str_set (v : json) : gset string :=
  match iterable_not_str v with
  | None => ∅
  | Some l =>
      list_to_set ((fun x => lower (strip (py_str x)))
                     <$> keep (fun x => negb (is_empty (strip (py_str x)))) l)
  end.

(** [str(deployment.get(k, "")).strip().lower()] *)
Definition norm_field (k : string) (d : dict) : string :=
  lower (strip (match dget k d with Some v => py_str v | None => "" end)).

Definition deployment_block_reasons (deployment satisfied_gates : json) : list block_reason :=
  match deployment with
  | JObj d =>
      let risk_class := norm_field "risk_class" d in
      let required_gates :=
        str_set (match dget "system_gates" d with Some v => v | None => JNull end) in
      let have := str_set satisfied_gates in
      (if bool_decide (risk_class ∈ NON_AUTONOMOUS_RISK) then [RiskClass risk_class] else [])
      ++ (if String.eqb (norm_field "production_classification" d) "production"
          then [ProductionChange] else [])
      ++ ((fun gate => if bool_decide (gate ∈ HUMAN_ONLY_GATES) then HumanGate gate
                       else UnsatisfiedGate gate)
            <$> sorted_set (required_gates ∖ have))
  | _ => []
  end.

Definition decide_merge (tier : option string) (host_ci_green : bool)
    (tfactory_verdict achieved_val val_floor : json) (ci_parity : bool)
    (deployment satisfied_gates : json) : string :=
  match tier_bucket tier with
  | None => HOLD_BLOCKING
  | Some b =>
      if list_truthy (deployment_block_reasons deployment satisfied_gates) then HOLD_BLOCKING
      else match b with
           | HARD => HOLD_BLOCKING
           | MEDIUM => HOLD_ASYNC
           | LOW =>
               if host_ci_green && verdict_pass tfactory_verdict
                  && val_meets_floor achieved_val val_floor && ci_parity
               then AUTO_MERGE else HOLD_ASYNC
           end
  end.
End Deployment.

Definition tier_permits_auto_merge (tier : option string) : bool :=
  match tier with
  | None => true
  | Some s => if is_empty (strip s) then true
              else bool_decide (TIER_ALIASES (lower (strip s)) = Some LOW)
  end.

Definition BUCKET_DISPOSITION (b : bucket) : string :=
  match b with LOW => AUTO_MERGE | MEDIUM => HOLD_ASYNC | HARD => HOLD_BLOCKING end.

(** [_DISPOSITION_RANK.get(d)] *)
Definition DISPOSITION_RANK (d : string) : option Z :=
  if String.eqb d AUTO_MERGE then Some 0%Z
  else if String.eqb d HOLD_ASYNC then Some 1%Z
  else if String.eqb d HOLD_BLOCKING then Some 2%Z
  else None.

Definition cap_disposition (decision : string) (ceiling : option string) : string :=
  match DISPOSITION_RANK decision with
  | None => HOLD_BLOCKING
  | Some r =>
      match ceiling with
      | None => decision
      | Some c =>
          if is_empty (strip c) then decision
          else match TIER_ALIASES (lower (strip c)) with
               | None => HOLD_BLOCKING
               | Some b =>
                   let cap := BUCKET_DISPOSITION b in
                   match DISPOSITION_RANK cap with
                   | Some rc => if (r <? rc)%Z then cap else decision
                   | None => decision
                   end
               end
      end
  end.

(** ** Lemmas *)

Lemma elem_of_sorted_set x s : x ∈ sorted_set s <-> x ∈ s.
Proof. unfold sorted_set. by rewrite elem_of_sort_by, elem_of_elements. Qed.

Lemma list_truthy_false {A} (l : list A) : list_truthy l = false <-> l = [].
Proof. by destruct l. Qed.

(** The deployment overlay imposes nothing. *)
Definition deployment_clear (repr : json -> string) (deployment satisfied_gates : json) : Prop :=
  forall d, deployment = JObj d ->
    (norm_field repr "risk_class" d ∉ NON_AUTONOMOUS_RISK)
    /\ norm_field repr "production_classification" d <> "production"
    /\ str_set repr (match dget "system_gates" d with Some v => v | None => JNull end)
       ⊆ str_set repr satisfied_gates.

Lemma block_reasons_nil repr deployment gates :
  list_truthy (deployment_block_reasons repr deployment gates) = false <->
  deployment_clear repr deployment gates.
Proof.
  rewrite list_truthy_false. unfold deployment_clear.
  destruct deployment as [| | | | |d]; cbn; try (split; [intros _ ? [=] | done]).
  rewrite !app_nil. set (req := str_set repr _). set (have := str_set repr gates).
  assert (Hg : ((fun gate => if bool_decide (gate ∈ HUMAN_ONLY_GATES) then HumanGate gate
                             else UnsatisfiedGate gate) <$> sorted_set (req ∖ have)) = []
               <-> req ⊆ have).
  { split.
    - intros E g Hg. destruct (decide (g ∈ have)) as [|Hn]; [done|].
      apply fmap_nil_inv in E. assert (Hin : g ∈ sorted_set (req ∖ have)).
      { apply elem_of_sorted_set, elem_of_difference. auto. }
      rewrite E in Hin. by apply elem_of_nil in Hin.
    - intros Hs. destruct (sorted_set (req ∖ have)) as [|g l] eqn:E; [done|].
      assert (Hin : g ∈ sorted_set (req ∖ have)) by (rewrite E; apply list_elem_of_here).
      apply elem_of_sorted_set, elem_of_difference in Hin as [H1 H2]. exfalso. auto. }
  rewrite Hg. case_bool_decide as Hr; destruct (String.eqb_spec (norm_field repr "production_classification" d) "production") as [Hp|Hp];
    split; try naive_solver.
Qed.

Lemma disposition_ranks :
  DISPOSITION_RANK AUTO_MERGE = Some 0%Z /\ DISPOSITION_RANK HOLD_ASYNC = Some 1%Z
  /\ DISPOSITION_RANK HOLD_BLOCKING = Some 2%Z.
Proof. done. Qed.

(** The decision in terms of the bucket, the overlay and the four signals. *)
Definition signals (ci : bool) (verdict achieved floor : json) (parity : bool) : bool :=
  ci && verdict_pass verdict && val_meets_floor achieved floor && parity.

Lemma tier_rank_cases t :
  tier_rank t = match tier_bucket t with
                | None => -1 | Some LOW => 0 | Some MEDIUM => 1 | Some HARD => 2 end%Z.
Proof. unfold tier_rank. by destruct (tier_bucket t) as [[]|]. Qed.

Lemma raise_rank t f : tier_rank (raise_review_tier t f) = Z.max (tier_rank t) (tier_rank f).
Proof.
  unfold raise_review_tier. destruct (tier_rank t <? tier_rank f)%Z eqn:E; bprop; lia.
Qed.

(** A tier raised to at least the hard bucket blocks, whatever the signals. *)
Lemma hard_blocks repr tier ci v a f parity dep gates :
  (2 <= tier_rank tier)%Z ->
  decide_merge repr tier ci v a f parity dep gates = HOLD_BLOCKING.
Proof.
  rewrite tier_rank_cases. unfold decide_merge.
  destruct (tier_bucket tier) as [[]|]; try lia. intros _. by destruct (list_truthy _).
Qed.

Lemma high_risk_spec files l path :
  high_risk files = Ok l -> JStr path ∈ files -> risk_search path = true -> path ∈ l.
Proof.
  unfold high_risk. intros E Hin Hr. apply bind_Ok_inv in E as (found & Hf & E).
  injection E as <-. destruct (mapM_res_elem _ _ _ _ Hf Hin) as (y & Hy & Hyin).
  unfold search_file in Hy. rewrite Hr in Hy. injection Hy as <-.
  apply elem_of_sorted_set. unfold string_set. apply elem_of_list_to_set.
  apply list_elem_of_omap. by exists (Some path).
Qed.

(** ** Properties *)

(** A change merges by itself exactly when its tier is the low bucket,
    host CI is green, the verdict passes, the achieved level is known and reaches the
    floor (an absent floor is reached by any level, an unreadable one by none), CI ran
    what was verified, and the deployment block, if there is one, is neither high risk
    nor production and has every required gate satisfied. *)
Theorem auto_merge_iff (repr : json -> string) (tier : option string) (ci : bool)
    (verdict achieved floor : json) (parity : bool) (deployment gates : json) :
  decide_merge repr tier ci verdict achieved floor parity deployment gates = AUTO_MERGE <->
  tier_bucket tier = Some LOW /\ ci = true /\ verdict_pass verdict = true
  /\ (exists n, val_rank achieved = Some n
        /\ match val_rank floor with
           | Some m => (m <= n)%Z
           | None => floor_absent floor = true
           end)
  /\ parity = true
  /\ (forall d, deployment = JObj d ->
        norm_field repr "risk_class" d <> "high"
        /\ norm_field repr "production_classification" d <> "production"
        /\ forall g, g ∈ str_set repr (default JNull (dget "system_gates" d)) ->
                     g ∈ str_set repr gates).
Proof.
  assert (Hd : list_truthy (deployment_block_reasons repr deployment gates) = false <->
    forall d, deployment = JObj d ->
        norm_field repr "risk_class" d <> "high"
        /\ norm_field repr "production_classification" d <> "production"
        /\ forall g, g ∈ str_set repr (default JNull (dget "system_gates" d)) ->
                     g ∈ str_set repr gates).
  { rewrite block_reasons_nil. unfold deployment_clear, NON_AUTONOMOUS_RISK, default, from_option.
    setoid_rewrite list_elem_of_singleton. unfold id. split; intros H d Hdd; destruct (H d Hdd) as (? & ? & ?);
      repeat split; auto. }
  rewrite <- Hd. unfold decide_merge.
  assert (Hv : val_meets_floor achieved floor = true <->
    exists n, val_rank achieved = Some n
        /\ match val_rank floor with
           | Some m => (m <= n)%Z
           | None => floor_absent floor = true
           end).
  { unfold val_meets_floor. destruct (val_rank achieved) as [n|].
    - destruct (val_rank floor) as [m|]; [rewrite Z.leb_le|]; naive_solver.
    - naive_solver. }
  rewrite <- Hv.
  destruct (tier_bucket tier) as [[]|]; destruct (list_truthy _);
    try (split; [discriminate | intros (? & ? & ? & ? & ? & ?); discriminate]).
  destruct ci, (verdict_pass verdict), (val_meets_floor achieved floor), parity; cbn;
    (split; [intros; repeat split; (done || discriminate) | intros (? & ? & ? & ? & ? & ?); (done || discriminate)]).
Qed.

(** Every overlay only tightens.  A deployment block never yields a less
    strict disposition than no block; satisfying more gates never yields a stricter one;
    the capped decision has the greater of the two strictness ranks (an absent ceiling
    ranks lowest, an unreadable one highest); and a raised tier has the greater of the
    two tier ranks. *)
Theorem policy_only_tightens (repr : json -> string) (tier : option string) (ci : bool)
    (verdict achieved floor : json) (parity : bool) (deployment gates gates' : json)
    (ceiling f : option string) :
  let decide dep g := decide_merge repr tier ci verdict achieved floor parity dep g in
  (exists r0 r, DISPOSITION_RANK (decide JNull JNull) = Some r0
     /\ DISPOSITION_RANK (decide deployment gates) = Some r /\ (r0 <= r)%Z)
  /\ (str_set repr gates ⊆ str_set repr gates' ->
      exists r r', DISPOSITION_RANK (decide deployment gates) = Some r
        /\ DISPOSITION_RANK (decide deployment gates') = Some r' /\ (r' <= r)%Z)
  /\ (forall decision r, DISPOSITION_RANK decision = Some r ->
      DISPOSITION_RANK (cap_disposition decision ceiling)
      = Some (Z.max r (match ceiling with
                       | None => 0
                       | Some c => if is_empty (strip c) then 0
                                   else match TIER_ALIASES (lower (strip c)) with
                                        | Some b => BUCKET_RANK b
                                        | None => 2
                                        end
                       end)))
  /\ tier_rank (raise_review_tier tier f) = Z.max (tier_rank tier) (tier_rank f).
Proof.
  cbn zeta. split; [|split; [|split; [|apply raise_rank]]].
  - unfold decide_merge. cbn [deployment_block_reasons].
    change (list_truthy (A := block_reason) []) with false.
    destruct (tier_bucket tier) as [[]|];
      destruct (list_truthy (deployment_block_reasons repr deployment gates));
      destruct (ci && verdict_pass verdict && val_meets_floor achieved floor && parity);
      cbn; eexists _, _; repeat split; lia.
  - intros Hsub. unfold decide_merge.
    assert (Hm : list_truthy (deployment_block_reasons repr deployment gates) = false ->
                 list_truthy (deployment_block_reasons repr deployment gates') = false).
    { rewrite !block_reasons_nil. intros H d Hd. destruct (H d Hd) as (? & ? & ?).
      repeat split; auto. by etrans. }
    destruct (list_truthy (deployment_block_reasons repr deployment gates)) eqn:E1;
      [|rewrite Hm by done];
      [destruct (list_truthy (deployment_block_reasons repr deployment gates'))|];
      destruct (tier_bucket tier) as [[]|];
      destruct (ci && verdict_pass verdict && val_meets_floor achieved floor && parity);
      cbn; eexists _, _; repeat split; lia.
  - intros decision r Hr. unfold cap_disposition. rewrite Hr.
    assert (Hr02 : (0 <= r <= 2)%Z).
    { revert Hr. unfold DISPOSITION_RANK. repeat case_if; intros [= <-]; lia. }
    destruct ceiling as [c|]; [|rewrite Hr; f_equal; lia].
    destruct (is_empty (strip c)); [rewrite Hr; f_equal; lia|].
    destruct (TIER_ALIASES (lower (strip c))) as [b|]; [|cbn; f_equal; lia].
    assert (Hb : DISPOSITION_RANK (BUCKET_DISPOSITION b) = Some (BUCKET_RANK b)) by by destruct b.
    rewrite Hb. destruct (r <? BUCKET_RANK b)%Z eqn:E; bprop; [rewrite Hb | rewrite Hr]; f_equal; lia.
Qed.

(** A change that touches a high-risk path gets a human.  The floor derived
    from its paths raises any tier, readable or not, to one the gate never merges on,
    whatever the signals say; and a plan that declares such a file is classified with the
    pre-merge gate set and, unless its plan is trusted, in the blocking tier. *)
Theorem high_risk_paths_need_a_human (repr : json -> string) (path : string) (changed : list json)
    (plan : dict) (files : list json) :
  risk_search path = true -> is_empty (strip path) = false -> JStr path ∈ changed ->
  all_files plan = Ok files -> JStr path ∈ files ->
  (forall tier table ci verdict achieved floor parity deployment gates,
     decide_merge repr (raise_review_tier tier (Some (floor_from_paths table (JList changed))))
       ci verdict achieved floor parity deployment gates = HOLD_BLOCKING)
  /\ (forall trusted solo confidence a,
        classify_review_tier plan trusted solo confidence = Ok a ->
        ra_pre_merge_gate a = true /\ path ∈ ra_high_risk_files a
        /\ ra_tier a = if trusted then AUTO else BLOCKING).
Proof.
  intros Hrisk Hne Hin Hfiles Hf. split.
  - intros tier table ci verdict achieved floor parity deployment gates.
    apply hard_blocks. rewrite raise_rank.
    assert (E : floor_from_paths table (JList changed) = BLOCKING).
    { unfold floor_from_paths. destruct table; [|done]. cbn [negb iterable_not_str].
      rewrite (proj2 (existsb_spec _ _)); [done|]. exists (JStr path).
      split; [done|]. by rewrite Hne, Hrisk. }
    rewrite E. change (tier_rank (Some BLOCKING)) with 2%Z. lia.
  - intros trusted solo confidence a E. unfold classify_review_tier in E. rewrite Hfiles in E.
    cbn in E. apply bind_Ok_inv in E as (l & Hl & E).
    pose proof (high_risk_spec _ _ _ Hl Hf Hrisk) as Hpl.
    assert (Ht : list_truthy l = true) by (destruct l; [by apply elem_of_nil in Hpl | done]).
    rewrite Ht in E. destruct trusted; [injection E as <-; auto|]. cbn in E. injection E as <-. auto.
Qed.

Definition risky_plan : dict :=
  [("phases", JList [JObj [("subtasks",
      JList [JObj [("files_to_create", JList [JStr "web/Login.tsx"])]])]])].

Lemma high_risk_paths_need_a_human_witness :
  risk_search "web/Login.tsx" = true
  /\ decide_merge (fun _ => "") (raise_review_tier (Some "auto")
       (Some (floor_from_paths true (JList [JStr "web/Login.tsx"]))))
       true (JBool true) (JInt 3) JNull true JNull JNull = HOLD_BLOCKING.
Proof.
  split; [reflexivity|].
  apply (high_risk_paths_need_a_human (fun _ => "") "web/Login.tsx" [JStr "web/Login.tsx"]
           risky_plan [JStr "web/Login.tsx"]); try reflexivity; apply list_elem_of_here.
Defined.

Example low_tier_merges :
  decide_merge (fun _ => "") (Some " Auto ") true (JStr "Passed") (JStr "VAL-2 (3 lanes)")
    (JStr "VAL-2") true JNull JNull = AUTO_MERGE.
Proof. reflexivity. Qed.
