(* ===== verification/PrGate.v ===== *)
(** The merge gate of a pull request (web-server/server/services/pr_endgame.py and
    pfactory/tfactory_client.py): the signals of a task, the disposition they decide, and
    the reads of GitHub and TFactory that supply the evidence for one commit.

    Every command runs through [h_run] and every request through [h_get]; either may change
    the spec directory and the rest of the world ([St]), as the agent can while the endgame
    waits.  Text is Latin-1.  Commands and what was read of a commit are recorded as
    events. *)
From Stdlib Require Import QArith.
From S2P Require Import MergePolicy.
From S2P Require Import Prelude PyData JsonText JsonRead ApprovalGate TrustedPlan.
From S2P Require Import ContractTrust GitPins EventMonad.
Local Open Scope nat_scope.

(** ** Tiers *)

(** [meta] is the parsed task_metadata.json. *)
Definition review_tier_of (meta : json) : option string :=
  match meta with
  | JObj d => match dget "reviewTier" d with
              | Some (JStr s) => if is_empty (strip s) then None else Some s
              | _ => None
              end
  | _ => None
  end.

Definition _TIER_LOG_LABEL : list string := ["auto"; "async"; "blocking"; "low"; "medium"; "hard"].
Definition _describe_tier (tier : option string) : string :=
  match tier with
  | None => "none"
  | Some t => let t := lower (strip t) in
              if existsb (String.eqb t) _TIER_LOG_LABEL then t else "unrecognised"
  end.

Definition blank (tier : option string) : bool :=
  match tier with None => true | Some t => is_empty (strip t) end.

(** [tier if tier is not None and str(tier).strip() else "low"] *)
Definition tier_or_low (tier : option string) : string := if blank tier then "low" else default "" tier.

Definition _raise_to_signed (tier : option string) (signed : string) : string * bool :=
  let effective := tier_or_low tier in
  let below := negb (blank tier)
               && negb (bool_decide (raise_review_tier tier (Some signed) = tier)) in
  let effective :=
    if String.eqb (_describe_tier (Some effective)) "unrecognised" then effective
    else match raise_review_tier (Some signed) (Some effective) with
         | Some t => if is_empty t then effective else t
         | None => effective
         end in
  (effective, below).

(** ** Signals *)

Record Signals := {
  sg_host_ci_green : bool;
  sg_tfactory_verdict : json;
  sg_achieved_val : json;
  sg_val_floor : json;
  sg_ci_parity : bool;
}.

(** What was fetched of the commit. *)
Record Fetched := { ft_verdict : option string; ft_ci : option bool }.

Definition _SIGNAL_KEYS (key : string) : list string :=
  match key with
  | "tfactory_verdict" => ["tfactoryVerdict"; "tfactory_verdict"]
  | "achieved_val" => ["achievedVal"; "achieved_val"]
  | "val_floor" => ["valFloor"; "val_floor"]
  | "ci_parity" => ["ciParity"; "ci_parity"]
  | _ => ["hostCiGreen"; "host_ci_green"]
  end.

(** The first of the names that is a key; its value may be null. *)
Definition _meta_signal (meta : dict) (key : string) : json :=
  match List.find (fun name => dmem name meta) (_SIGNAL_KEYS key) with
  | Some name => default JNull (dget name meta)
  | None => JNull
  end.

Definition start_signals (fetched : option Fetched) : Signals :=
  match fetched with
  | None => {| sg_host_ci_green := false; sg_tfactory_verdict := JNull; sg_achieved_val := JInt 0;
               sg_val_floor := JNull; sg_ci_parity := true |}
  | Some f => {| sg_host_ci_green := bool_decide (ft_ci f = Some true);
                 sg_tfactory_verdict := JOpt (ft_verdict f); sg_achieved_val := JInt 0;
                 sg_val_floor := JNull; sg_ci_parity := true |}
  end.

Definition recorded_or (v dflt : json) : json := match v with JNull => dflt | _ => v end.

(** Metadata that is a JSON object. *)
Definition apply_metadata (meta : dict) (s : Signals) : Signals :=
  let verdict := _meta_signal meta "tfactory_verdict" in
  {| sg_host_ci_green :=
       match _meta_signal meta "host_ci_green" with JBool false => false | _ => sg_host_ci_green s end;
     sg_tfactory_verdict := if verdict_pass verdict then sg_tfactory_verdict s
                            else recorded_or verdict (sg_tfactory_verdict s);
     sg_achieved_val := recorded_or (_meta_signal meta "achieved_val") (sg_achieved_val s);
     sg_val_floor := recorded_or (_meta_signal meta "val_floor") (sg_val_floor s);
     sg_ci_parity :=
       match _meta_signal meta "ci_parity" with JBool b => b | _ => sg_ci_parity s end |}.

Definition with_verdict (v : json) (s : Signals) : Signals :=
  {| sg_host_ci_green := sg_host_ci_green s; sg_tfactory_verdict := v;
     sg_achieved_val := sg_achieved_val s; sg_val_floor := sg_val_floor s;
     sg_ci_parity := sg_ci_parity s |}.

(** [receipt] says whether handback_received.json is there, [metadata] is task_metadata.json. *)
Definition merge_gate_signals (receipt : bool) (metadata : file) (fetched : option Fetched) : Signals :=
  let s := start_signals fetched in
  let s := match metadata with Json (JObj meta) => apply_metadata meta s | _ => s end in
  if receipt then with_verdict (JStr "handback") s else s.

Definition _contract_unreadable (contract : file) : bool :=
  match contract with
  | Missing | Json (JObj _) => false
  | Broken | Json _ => true
  end.

(** ** The state and the events *)

Record CmdResult := { rc : Z; out : string; err : string }.
Definition cmd_ok (c : CmdResult) : bool := (rc c =? 0)%Z.

Record ReviewState := {
  rv_verdict : string;
  rv_copilot_reviewed : bool;
  rv_copilot_approved : bool;
  rv_copilot_changes_requested : bool;
  rv_findings : json;
}.
Definition plain_review (verdict : string) (findings : json) : ReviewState :=
  {| rv_verdict := verdict; rv_copilot_reviewed := false; rv_copilot_approved := false;
     rv_copilot_changes_requested := false; rv_findings := findings |}.

Inductive ev :=
  | EvRun (cwd : option string) (argv : list string)
  | EvSleep
  | EvReview (rs : ReviewState)
  | EvVerdict (head : string) (verdict : option string)
  | EvCi (head : string) (green : option bool)
  | EvRequired (head : string) (green : option bool)
  | EvDecide (tier : string) (s : Signals) (deployment : json) (gates : list string) (d : string)
  | EvGate (head : string) (ok : bool)
  | EvApproval (head : option string)
  | EvFix (ok : bool)
  | EvResolve (resolved : bool)
  | EvPushed (ok : bool)
  | EvRetest.

(** The variables of the gate: what it fetched in this call, and the evidence block it last
    wrote. *)
Record GateVars := {
  gv_fetched : option (Fetched * dict);
  gv_written : list string;
}.

(** The spec directory, the receipt file, the receipts of the database, the baselines of the
    repository's configuration, the variables of the gate, and the rest. *)
Record St {W : Type} := {
  es_dir : ContractDir;
  es_receipt : bool;
  es_receipts : receipt_table;
  es_baselines : gmap string file;
  es_vars : GateVars;
  es_world : W;
}.
Arguments St : clear implicits.

Definition with_vars {W} (v : GateVars) (s : St W) : St W :=
  {| es_dir := es_dir s; es_receipt := es_receipt s; es_receipts := es_receipts s;
     es_baselines := es_baselines s; es_vars := v; es_world := es_world s |}.
Definition with_baselines {W} (b : gmap string file) (s : St W) : St W :=
  {| es_dir := es_dir s; es_receipt := es_receipt s; es_receipts := es_receipts s;
     es_baselines := b; es_vars := es_vars s; es_world := es_world s |}.
Definition set_fetched (f : option (Fetched * dict)) (v : GateVars) : GateVars :=
  {| gv_fetched := f; gv_written := gv_written v |}.
Definition set_written (l : list string) (v : GateVars) : GateVars :=
  {| gv_fetched := gv_fetched v; gv_written := l |}.

(** [any(f(x) for x in l)] for a test that may raise: it stops at the first True. *)
Fixpoint any_res {A} (f : A -> res bool) (l : list A) : res bool :=
  match l with
  | [] => Ok false
  | x :: l' => let! b := f x in if b : bool then Ok true else any_res f l'
  end.

(** [json.loads(ln)] of every line that is not blank. *)
Definition json_lines (text : string) : res (list json) :=
  mapM loads (keep (fun ln => negb (is_empty (strip ln))) (splitlines text)).

(** [v[k]] *)
Definition item (k : string) (v : json) : res json :=
  match v with
  | JObj d => match dget k d with Some x => Ok x | None => Err (KeyError k) end
  | _ => Err TypeError
  end.

(** [v in {...}] for a set of strings: a list or an object cannot be hashed. *)
Definition in_set (l : list string) (v : json) : res bool :=
  match v with
  | JStr s => Ok (existsb (String.eqb s) l)
  | JList _ | JObj _ => Err TypeError
  | _ => Ok false
  end.

(** [v == s] *)
Definition equals (s : string) (v : json) : bool := match v with JStr t => String.eqb t s | _ => false end.

(** [v > 0] *)
Definition positive (v : json) : res bool :=
  match v with
  | JInt z => Ok (0 <? z)%Z
  | JBool b => Ok b
  | _ => Err TypeError
  end.

(** ** Python on parsed JSON *)

(** Equality of the scalars: [True == 1]. *)
Definition py_eq (a b : json) : res bool :=
  let num v := match v with JBool b => Some (if b then 1 else 0)%Z | JInt z => Some z | _ => None end in
  match a, b with
  | JNull, JNull => Ok true
  | JStr s, JStr t => Ok (String.eqb s t)
  | JList _, JList _ | JObj _, JObj _ => Err Untyped
  | _, _ => Ok (match num a, num b with Some x, Some y => (x =? y)%Z | _, _ => false end)
  end.

(** [d[k] = row] for a dictionary with scalar keys; a container cannot be hashed. *)
Fixpoint put_row (k : json) (row : dict) (d : list (json * dict)) : res (list (json * dict)) :=
  match d with
  | [] => match k with JList _ | JObj _ => Err TypeError | _ => Ok [(k, row)] end
  | (k', row') :: d' =>
      match k with
      | JList _ | JObj _ => Err TypeError
      | _ => let! same := py_eq k k' in
             if same : bool then Ok ((k', row) :: d') else let! d'' := put_row k row d' in Ok ((k', row') :: d'')
      end
  end.

(** The first for which the test holds; the tests before it may raise. *)
Fixpoint find_res {A} (f : A -> res bool) (l : list A) : res (option A) :=
  match l with
  | [] => Ok None
  | x :: l' => let! b := f x in if b : bool then Ok (Some x) else find_res f l'
  end.

(** [json.loads(text)] of a text a command printed. *)
Definition or_empty (dflt text : string) : string := if is_empty text then dflt else text.

(** ** Verdicts of a review *)

Definition _BLOCKING_SEVERITIES : list string := ["critical"; "high"; "blocker"; "blocking"; "error"].
Definition _APPROVE : list string := ["approve"; "approved"; "ready_to_merge"].
Definition _CHANGES : list string :=
  ["request_changes"; "changes_requested"; "reject"; "rejected"; "merge_with_changes";
   "needs_revision"; "blocked"; "do_not_merge"].

Section Reviews.
Variable repr : json -> string.

(** [a.get(k) or b] *)
Definition get_truthy (k : string) (d : dict) : option json :=
  match dget k d with Some v => if truthy v then Some v else None | None => None end.

Definition verdict_from_review_result (result : json) : ReviewState :=
  match result with
  | JObj ((_ :: _) as top) =>
      let data := match dget "data" top with Some (JObj d) => d | _ => top end in
      let raw := lower (match get_truthy "verdict" data, get_truthy "recommendation" data with
                        | Some v, _ | None, Some v => MergePolicy.py_str repr v
                        | None, None => ""
                        end) in
      match dget "blockers" data with
      | Some (JList ((_ :: _) as blockers)) => plain_review "changes_requested" (JList blockers)
      | _ =>
          if existsb (String.eqb raw) _APPROVE then plain_review "approved" (JList [])
          else if existsb (String.eqb raw) _CHANGES
          then plain_review "changes_requested" (default (JList []) (get_truthy "findings" data))
          else match dget "findings" data with
               | Some (JList findings) =>
                   let blocking := keep (fun f =>
                     match f with
                     | JObj d => existsb (String.eqb (lower (MergePolicy.py_str repr
                                   (default (JStr "") (dget "severity" d))))) _BLOCKING_SEVERITIES
                     | _ => false
                     end) findings in
                   if list_truthy blocking then plain_review "changes_requested" (JList blocking)
                   else plain_review "approved" (JList [])
               | _ => plain_review "pending" (JList [])
               end
      end
  | _ => plain_review "pending" (JList [])
  end.

(** [login or ""], in lower case; only a text has [lower]. *)
Definition _is_copilot (login : json) : res bool :=
  match login with
  | JStr s => Ok (contains "copilot" (lower s))
  | v => if truthy v then Err AttributeError else Ok false
  end.

Definition review_state (r : dict) : string :=
  upper (MergePolicy.py_str repr (default (JStr "") (dget "state" r))).

(** What [read_review_verdict] makes of the parsed reviews. *)
Definition summarize_reviews (reviews : json) : res ReviewState :=
  let! l := iter_any reviews in
  let rows := omap (fun r => match r with JObj d => Some d | _ => None end) l in
  let states := review_state <$> rows in
  let! flags := mapM (fun r => _is_copilot (default (JStr "") (dget "login" r))) rows in
  let copilot_states := review_state <$> (keep snd (zip rows flags)).*1 in
  let has s l := existsb (String.eqb s) l in
  Ok {| rv_verdict := if has "CHANGES_REQUESTED" states then "changes_requested"
                      else if has "APPROVED" states then "approved" else "pending";
        rv_copilot_reviewed := list_truthy copilot_states;
        rv_copilot_approved := has "APPROVED" copilot_states;
        rv_copilot_changes_requested := has "CHANGES_REQUESTED" copilot_states;
        rv_findings := JList [] |}.
End Reviews.

Definition _DECISIVE_STATES : list string := ["APPROVED"; "CHANGES_REQUESTED"; "DISMISSED"].

(** The latest decisive review of each login, oldest login first. *)
Definition latest_reviews (lines : list json) : res (list (json * dict)) :=
  fold_res (fun latest row =>
    let! state := item "state" row in
    let! decisive := in_set _DECISIVE_STATES state in
    if decisive : bool then
      let! login := item "login" row in
      match row with JObj d => put_row login d latest | _ => Err TypeError end
    else Ok latest) [] lines.

Definition change_requested (author : string) (e : json * dict) : bool :=
  negb (equals author e.1) && is_text "CHANGES_REQUESTED" (dget "state" e.2).

Definition approves (author : string) (head : json) (e : json * dict) : res bool :=
  match e.1 with
  | JStr login =>
      if negb (is_empty login) && negb (String.eqb login author)
         && is_text "User" (dget "type" e.2) && is_text "APPROVED" (dget "state" e.2)
      then py_eq (default JNull (dget "commit_id" e.2)) head else Ok false
  | _ => Ok false
  end.

(** What [human_approval_head] makes of the two texts. *)
Definition approved_head (pr_text reviews_text : string) : res (option string) :=
  let! info := loads pr_text in
  let! head := item "head" info in
  let! author := item "author" info in
  match author with
  | JStr author =>
      if truthy head && negb (is_empty author) then
        let! rows := json_lines reviews_text in
        let! latest := latest_reviews rows in
        if existsb (change_requested author) latest then Ok None
        else
          let! found := find_res (approves author head) latest in
          match found with Some _ => Some <$> PyData.py_str head | None => Ok None end
      else Ok None
  | _ => Ok None
  end.

(** ** The outside *)

(** [h_run] is the injectable runner, [h_get] the HTTP getter; [h_db] says whether the
    database answers, [h_now] is the monotonic clock in seconds.  The last four show the
    repository to [GitPins]; [h_git_lfs] says whether git-lfs is on PATH, [h_str_exn] is [str] of an exception. *)
Record Hooks {W : Type} := {
  h_hmac : string -> string -> string;
  h_sha256 : string -> string;
  h_repr : json -> string;
  h_env : env_list;
  h_run : option string -> list string -> St W -> res CmdResult * St W;
  h_get : string -> list (string * string) -> St W -> res (Z * json) * St W;
  h_db : St W -> bool;
  h_now : St W -> Q;
  h_sleep : Z -> St W -> St W;
  h_git_lfs : bool;
  h_str_exn : exn -> string;
  h_resolve : St W -> string -> string -> string;
  h_attributes : St W -> string -> res (option string);
  h_writable : St W -> bool;
}.
Arguments Hooks : clear implicits.

(** One task: the key of its rows, its name, the resolved and the given path of its spec
    directory (an absolute path begins with "/"), and its repository. *)
Record Task := {
  tk_key : string;
  tk_id : string;
  tk_resolved : list string;
  tk_path : list string;
}.

(** [urllib.parse.quote(s, safe='')] of a Latin-1 text. *)
Definition hex_upper (n : nat) : ascii := ascii_of_nat (if n <? 10 then 48 + n else 55 + n).
Definition percent (n : nat) : string :=
  String "%" (String (hex_upper (n / 16)) (String (hex_upper (n mod 16)) EmptyString)).
Definition unreserved (n : nat) : bool :=
  (48 <=? n) && (n <=? 57) || (65 <=? n) && (n <=? 90) || (97 <=? n) && (n <=? 122)
  || existsb (Nat.eqb n) [95; 46; 45; 126].
Fixpoint quote (s : string) : string :=
  match s with
  | EmptyString => EmptyString
  | String c s' =>
      let n := nat_of_ascii c in
      (if unreserved n then String c EmptyString
       else if n <? 128 then percent n
       else percent (192 + n / 64) +:+ percent (128 + n mod 64)) +:+ quote s'
  end.

(** [s.rstrip("/")] *)
Fixpoint drop_slashes (s : string) : string :=
  match s with String "/" s' => drop_slashes s' | _ => s end.
Definition rstrip_slash (s : string) : string := String.rev (drop_slashes (String.rev s)).

(** [env.get(a) or env.get(b) or ""] *)
Definition env_first (names : list string) (env : env_list) : string :=
  default "" (head (keep (fun s => negb (is_empty s)) (omap (fun k => env_get k env) names))).

Definition _DEFAULT_PATH : string := "/api/specs/ingest".
Record TFactoryConfig := { tf_base_url : string; tf_token : string; tf_path : string }.
Definition tfactory_config (env : env_list) : TFactoryConfig :=
  {| tf_base_url := rstrip_slash (env_first ["TFACTORY_BASE_URL"] env);
     tf_token := env_first ["TFACTORY_TOKEN"; "APP_API_TOKEN"] env;
     tf_path := let p := env_first ["TFACTORY_HANDOFF_PATH"] env in
                if is_empty p then _DEFAULT_PATH else p |}.

Fixpoint after_workspaces (parts : list string) : option string :=
  match parts with
  | [] => None
  | p :: rest => if String.eqb p "workspaces" then head rest else after_workspaces rest
  end.
(** [path.parents[2].name], "" when there is none. *)
Definition third_parent (parts : list string) : string :=
  match last (take (length parts - 3) parts) with
  | Some n => if String.eqb n "/" then "" else n
  | None => ""
  end.
Definition _aifactory_project_name (t : Task) : string :=
  match after_workspaces (tk_resolved t) with Some n => n | None => third_parent (tk_path t) end.

Definition VERDICT_KINDS : list string := ["accept"; "flag"; "reject"].

(** The verdicts of the two documents TFactory answered, before they are weighed. *)
Definition is_success (code : Z) : bool := (200 <=? code)%Z && (code <? 300)%Z.

Definition task_matches (project_id head : string) (code : Z) (task : json) : bool :=
  match task with
  | JObj t =>
      is_success code && is_text project_id (dget "project_id" t) && negb (is_empty head)
      && is_text head (dget "source_sha" t)
      && match dget "status_json" t with
         | Some (JObj st) => is_text "triaged" (dget "status" st)
         | _ => false
         end
  | _ => false
  end.

Definition verdict_kinds (code : Z) (doc : json) : option (list json) :=
  match doc with
  | JObj d =>
      match dget "verdicts" d with
      | Some (JList l) =>
          if is_success code
          then Some ((fun e => match e with JObj e => default JNull (dget "verdict" e) | _ => JNull end)
                       <$> l)
          else None
      | _ => None
      end
  | _ => None
  end.

Definition weigh (kinds : list json) : option string :=
  if negb (list_truthy kinds)
     || existsb (fun k => negb (existsb (fun n => equals n k) VERDICT_KINDS)) kinds then None
  else Some (if existsb (equals "reject") kinds then "fail" else "pass").

Definition vote_of (doc : json) : dict :=
  match doc with
  | JObj d => match dget "verdict_vote" d with Some (JObj v) => v | _ => [] end
  | _ => []
  end.

Section Gate.
Context {W : Type} (H : Hooks W) (t : Task).
Abbreviation M := (Eff (St W) ev).

(** The variables of the gate are its own. *)
Definition outside {A} (f : St W -> res A * St W) : M A := fun s =>
  let '(r, s') := f s in (r, with_vars (es_vars s) s', []).
Definition set_vars (f : GateVars -> GateVars) : M () := fun s =>
  (Ok (), with_vars (f (es_vars s)) s, []).

Definition runner (argv : list string) (cwd : option string) : M CmdResult :=
  emit (EvRun cwd argv) ;; outside (h_run H cwd argv).

Definition here {A} (r : res A) : M A := lift (fun _ => r).

(** The verdict and the vote; nothing is logged of what was fetched. *)
Definition tfactory_verdict (head : string) : M (option string * dict) :=
  let config := tfactory_config (h_env H) in
  let project_id :=
    let p := env_first ["TFACTORY_PROJECT_ID"] (h_env H) in
    if is_empty p then _aifactory_project_name t else p in
  if is_empty (tf_base_url config) || is_empty project_id then mret (None, [])
  else
    let headers := if is_empty (tf_token config) then []
                   else [("Authorization", "Bearer " +:+ tf_token config)] in
    let base := tf_base_url config +:+ "/api/tfactory/tasks/" +:+ quote (tk_id t) in
    rescue
      (r ← outside (h_get H base headers);
       if negb (task_matches project_id head r.1 r.2) then mret (None, [])
       else
         r' ← outside (h_get H (base +:+ "/verdicts.json") headers);
         match verdict_kinds r'.1 r'.2 with
         | None => mret (None, [])
         | Some kinds =>
             match weigh kinds with
             | None => mret (None, [])
             | Some v => mret (Some v, vote_of r'.2)
             end
         end)
      (None, []).

(** ** Reads of GitHub *)

Definition pulls (owner repo : string) (pr : Z) : string :=
  "/repos/" +:+ owner +:+ "/" +:+ repo +:+ "/pulls/" +:+ pretty pr.

Definition read_review_verdict (owner repo : string) (pr : Z) : M ReviewState :=
  res_ ← runner ["gh"; "api"; pulls owner repo pr +:+ "/reviews"; "--jq";
                 "[.[] | {state, login: .user.login}]"] None;
  if negb (cmd_ok res_) then mret (plain_review "pending" (JList []))
  else
    match loads (or_empty "[]" (out res_)) with
    | Ok reviews => here (summarize_reviews (h_repr H) reviews)
    | Err ValueError => mret (plain_review "pending" (JList []))
    | Err e => fails e
    end.

Definition human_approval_head (owner repo : string) (pr : Z) : M (option string) :=
  let base := pulls owner repo pr in
  rescue
    (pr_res ← runner ["gh"; "api"; base; "--jq"; "{head: .head.sha, author: .user.login}"] None;
     rv_res ← runner ["gh"; "api"; "--paginate"; base +:+ "/reviews"; "--jq";
                      ".[] | {state, login: .user.login, type: .user.type, commit_id}"] None;
     if negb (cmd_ok pr_res && cmd_ok rv_res) then mret None
     else here (approved_head (out pr_res) (out rv_res)))
    None.

Definition _pr_head (owner repo : string) (pr : Z) : M (option string) :=
  rescue
    (res_ ← runner ["gh"; "api"; pulls owner repo pr; "--jq"; ".head.sha"] None;
     mret (if cmd_ok res_ then
             let head := strip (out res_) in if is_empty head then None else Some head
           else None))
    None.
End Gate.

(** ** Checks of a commit *)

Definition _GREEN_CONCLUSIONS : list string := ["success"; "neutral"; "skipped"].

(** A check run that is completed with a conclusion outside the green ones. *)
Definition red_run (r : json) : res bool :=
  let! status := item "status" r in
  if equals "completed" status then
    let! conclusion := item "conclusion" r in
    let! green := in_set _GREEN_CONCLUSIONS conclusion in
    Ok (negb green)
  else Ok false.

Definition open_run (r : json) : res bool :=
  let! status := item "status" r in Ok (negb (equals "completed" status)).
Definition open_suite (x : json) : res bool :=
  let! n := item "n" x in
  let! some := positive n in
  if some : bool then open_run x else Ok false.

(** [a or b or ...] and [a and b] where a later operand may raise. *)
Definition or_res (a : res bool) (b : res bool) : res bool :=
  let! x := a in if x : bool then Ok true else b.
Definition and_res (a : res bool) (b : res bool) : res bool :=
  let! x := a in if x : bool then b else Ok false.

Definition verdict_of (red pending : res bool) : res (option bool) :=
  let! r := red in
  if r : bool then Ok (Some false)
  else let! p := pending in Ok (if p : bool then None else Some true).

(** What [host_ci_green] makes of the three texts. *)
Definition host_roll_up (runs_text status_text suites_text : string) : res (option bool) :=
  let! runs := json_lines runs_text in
  let! suites := json_lines suites_text in
  let! status := loads status_text in
  let! state := item "state" status in
  let! count := item "total_count" status in
  let! total := PyData.py_int count in
  verdict_of
    (or_res (Ok (equals "failure" state || equals "error" state)) (any_res red_run runs))
    (or_res (any_res open_run runs)
       (or_res (any_res open_suite suites)
          (Ok ((0 <? total)%Z && negb (equals "success" state)
               || negb (list_truthy runs) && (total =? 0)%Z)))).

(** The names protection asks for: [None] when it cannot be read. *)
Definition required_names (protection : option json) (rules : string) : res (option (list string)) :=
  match protection with
  | Some (JObj p) =>
      let! classic := match dget "required_status_checks" p with
                      | Some (JObj rsc) => iter_key "contexts" rsc
                      | _ => Ok []
                      end in
      let ruleset := keep (fun s => negb (is_empty s)) (strip <$> splitlines rules) in
      Ok (Some (keep (fun s => negb (is_empty s))
                  (omap (fun c => match c with JStr s => Some s | _ => None end) classic ++ ruleset)))
  | _ => Ok None
  end.

Definition red_required (required : list string) (r : json) : res bool :=
  let! name := item "name" r in
  and_res (in_set required name) (red_run r).
Definition open_required (required : list string) (r : json) : res bool :=
  let! name := item "name" r in
  and_res (in_set required name) (open_run r).
Definition status_required (required : list string) (bad : json -> bool) (s : json) : res bool :=
  let! context := item "context" s in
  and_res (in_set required context) (let! state := item "state" s in Ok (bad state)).

(** An element of a set: a container cannot be hashed. *)
Definition hashed (v : json) : res (option string) :=
  match v with JStr s => Ok (Some s) | JList _ | JObj _ => Err TypeError | _ => Ok None end.

(** The texts among the names that are green, of the runs and of the statuses. *)
Definition green_run (r : json) : res (option string) :=
  let! status := item "status" r in
  if equals "completed" status then
    let! conclusion := item "conclusion" r in
    let! green := in_set _GREEN_CONCLUSIONS conclusion in
    if green : bool then let! name := item "name" r in hashed name else Ok None
  else Ok None.
Definition green_status (s : json) : res (option string) :=
  let! state := item "state" s in
  if equals "success" state then let! context := item "context" s in hashed context else Ok None.

(** What [required_checks_green] makes of the two texts, for names that are not none. *)
Definition required_roll_up (required : list string) (runs_text statuses_text : string)
  : res (option bool) :=
  let! runs := json_lines runs_text in
  let! statuses := json_lines statuses_text in
  let bad state := equals "failure" state || equals "error" state in
  let unfinished state := negb (equals "success" state) in
  verdict_of
    (or_res (any_res (red_required required) runs)
       (any_res (status_required required bad) statuses))
    (let! green_runs := mapM green_run runs in
     let! green_statuses := mapM green_status statuses in
     let green := omap id (green_runs ++ green_statuses) in
     or_res (Ok (negb (forallb (fun c => existsb (String.eqb c) green) required)))
       (or_res (any_res (open_required required) runs)
          (any_res (status_required required unfinished) statuses))).

(** ** The tier a decision is made on *)

Definition lookup_of (state : trust * dict) (k : string) : json := default JNull (dget k state.2).

(** The signed tier, when it is one the policy knows. *)
Definition signed_tier (state : trust * dict) : option string :=
  match lookup_of state "execution" with
  | JObj execution =>
      match dget "review_tier" execution with
      | Some (JStr s) => if String.eqb (_describe_tier (Some s)) "unrecognised" then None else Some s
      | _ => None
      end
  | _ => None
  end.

(** What [merge_disposition] decides on; None holds. *)
Definition decision_tier (state : trust * dict) (tier floor : option string) : option string :=
  match state.1 with
  | HOLD => None
  | VERIFIED => match signed_tier state with
                | Some s => Some (_raise_to_signed tier s).1
                | None => None
                end
  | LEGACY => let effective := tier_or_low tier in
              if String.eqb (_describe_tier (Some effective)) "unrecognised" then Some effective
              else raise_review_tier (Some effective) floor
  end.

Section Checks.
Context {W : Type} (H : Hooks W).
Abbreviation M := (Eff (St W) ev).

Definition commits (owner repo sha : string) : string :=
  "repos/" +:+ owner +:+ "/" +:+ repo +:+ "/commits/" +:+ sha.

Definition host_ci_green (owner repo sha : string) : M (option bool) :=
  let commit := commits owner repo sha in
  rescue
    (runs_res ← runner H ["gh"; "api"; "--paginate"; commit +:+ "/check-runs"; "--jq";
                          ".check_runs[] | {status, conclusion}"] None;
     st_res ← runner H ["gh"; "api"; commit +:+ "/status"; "--jq"; "{state, total_count}"] None;
     suites_res ← runner H ["gh"; "api"; "--paginate"; commit +:+ "/check-suites"; "--jq";
                            ".check_suites[] | {status, n: .latest_check_runs_count}"] None;
     if negb (cmd_ok runs_res && cmd_ok st_res && cmd_ok suites_res) then mret None
     else here (host_roll_up (out runs_res) (out st_res) (out suites_res)))
    None.

Definition RULES_QUERY : string :=
  ".[] | select(.type == " +:+ ticks "'required_status_checks'"
  +:+ ") | .parameters.required_status_checks[].context".

Definition required_checks_green (owner repo base sha : string) : M (option bool) :=
  let root := "repos/" +:+ owner +:+ "/" +:+ repo in
  let commit := commits owner repo sha in
  rescue
    (br_res ← runner H ["gh"; "api"; root +:+ "/branches/" +:+ base; "--jq"; ".protection"] None;
     rules_res ← runner H ["gh"; "api"; "--paginate"; root +:+ "/rules/branches/" +:+ base; "--jq";
                           RULES_QUERY] None;
     protection ← here (if cmd_ok br_res && cmd_ok rules_res then
                          match loads (out br_res) with
                          | Ok v => Ok (Some v)
                          | Err ValueError => Ok None
                          | Err e => Err e
                          end
                        else Ok None);
     names ← here (required_names protection (out rules_res));
     match names with
     | None => mret None
     | Some [] => mret (Some true)
     | Some required =>
         runs_res ← runner H ["gh"; "api"; "--paginate"; commit +:+ "/check-runs"; "--jq";
                              ".check_runs[] | {name, status, conclusion}"] None;
         st_res ← runner H ["gh"; "api"; commit +:+ "/status"; "--jq";
                            ".statuses[] | {context, state}"] None;
         if negb (cmd_ok runs_res && cmd_ok st_res) then mret None
         else here (required_roll_up required (out runs_res) (out st_res))
     end)
    None.

(** ** The disposition *)

(** [env] of [resolve_contract] is the environment of the server; None holds. *)
Definition merge_inputs (tier : option string) (trusted : lookup_result)
    (fetch_signals : option (M Fetched)) (floor : option string)
  : M (option (string * json * option Fetched)) :=
  state ← lift (fun s => resolve_contract (h_hmac H) (h_env H) (es_dir s) trusted);
  unreadable ← lift (fun s => Ok (bool_decide (state.1 = LEGACY)
                                  && _contract_unreadable (cd_contract (es_dir s))));
  match decision_tier state tier floor with
  | None => mret None
  | Some effective =>
      if unreadable : bool then mret None
      else
        match fetch_signals with
        | None => mret (Some (effective, lookup_of state "deployment", None))
        | Some fetch => fetched ← fetch;
                        mret (Some (effective, lookup_of state "deployment", Some fetched))
        end
  end.

Definition merge_disposition (tier : option string) (trusted : lookup_result)
    (satisfied_gates : list string) (fetch_signals : option (M Fetched)) (floor : option string)
  : M string :=
  if negb (host_isolated (h_env H)) then mret HOLD_BLOCKING
  else
    decided ← rescue (merge_inputs tier trusted fetch_signals floor) None;
    match decided with
    | None => mret HOLD_BLOCKING
    | Some (effective, deployment, fetched) =>
        signals ← lift (fun s => Ok (merge_gate_signals (es_receipt s)
                                       (sd_metadata (cd_spec (es_dir s))) fetched));
        let d := decide_merge (h_repr H) (Some effective) (sg_host_ci_green signals)
                   (sg_tfactory_verdict signals) (sg_achieved_val signals) (sg_val_floor signals)
                   (sg_ci_parity signals) deployment (JStrs satisfied_gates) in
        emit (EvDecide effective signals deployment satisfied_gates d) ;;
        mret d
    end.

Definition _clears_with_human_approval (tier : option string) (trusted : lookup_result)
    (fetch_signals : option (M Fetched)) (floor : option string) : M bool :=
  d ← merge_disposition tier trusted HUMAN_ONLY_GATES fetch_signals floor;
  mret (String.eqb d AUTO_MERGE).
End Checks.

(** ** The evidence section of the PR body *)

Definition _EVIDENCE_START : string := "<!-- aifactory:verify-evidence -->".
Definition _EVIDENCE_END : string := "<!-- /aifactory:verify-evidence -->".
Definition _EVIDENCE_LINE : string :=
  "The verdict is recorded as evidence. The deterministic floor decides: a pass cannot lift a red floor.".

Definition is_hex_any (c : ascii) : bool := hex_char (lower_ascii c).
Fixpoint all_chars (f : ascii -> bool) (s : string) : bool :=
  match s with EmptyString => true | String c s' => f c && all_chars f s' end.
(** [_HEAD_SHA.fullmatch] *)
Definition _HEAD_SHA (s : string) : bool :=
  (7 <=? String.length s) && (String.length s <=? 40) && all_chars is_hex_any s.


Definition some_digits (s : string) : bool := negb (is_empty s) && all_digits s.
(** [re.fullmatch(r"\d+-\d+", k)] *)
Definition split_name (k : string) : bool :=
  match split_on "-" k with [a; b] => some_digits a && some_digits b | _ => false end.

Definition _is_count (n : json) : option Z := match n with JInt z => Some z | _ => None end.

Definition _votes_text (vote : dict) : string :=
  match dget "splits" vote with
  | Some (JObj splits) =>
      let kept := sort_by (fun a b => String.leb a.1 b.1)
                    (omap (fun kv => if split_name kv.1
                                     then (fun n => (kv.1, n)) <$> _is_count kv.2 else None) splits) in
      if negb (list_truthy kept) then "not reported"
      else
        join ", " ((fun kn => kn.1 +:+ " x" +:+ pretty kn.2) <$> kept)
        +:+ match _is_count (default JNull (dget "calls" vote)),
                  _is_count (default JNull (dget "failed_calls" vote)) with
            | Some calls, Some failed =>
                " (" +:+ pretty calls +:+ " calls, " +:+ pretty failed +:+ " failed)"
            | _, _ => ""
            end
  | _ => "not reported"
  end.

Definition yn (b : bool) : string := if b then "yes" else "no".
Definition val_text (rank : option Z) (none : string) : string :=
  match rank with Some n => "VAL-" +:+ pretty n | None => none end.

Definition verdict_label (raw : json) : string :=
  if verdict_pass raw then "pass"
  else match raw with
       | JStr s => if existsb (String.eqb (lower (strip s))) ["fail"; "handback"] then "fail" else "hold"
       | _ => "hold"
       end.

Definition verify_evidence_block (signals : Signals) (vote : dict) (head : string) (allowed : bool)
  : string :=
  let at_ := if _HEAD_SHA head then " at `" +:+ String.substring 0 12 head +:+ "`" else "" in
  let got := val_text (val_rank (sg_achieved_val signals)) "not recorded" in
  let want := val_text (val_rank (sg_val_floor signals)) "none declared" in
  let met := val_meets_floor (sg_achieved_val signals) (sg_val_floor signals) in
  join nl
    [ _EVIDENCE_START; "### Verify evidence";
      "- Verdict: " +:+ verdict_label (sg_tfactory_verdict signals)
        +:+ " (TFactory, model-assisted)" +:+ at_;
      "- Votes: " +:+ _votes_text vote;
      "- Floor: host CI green: " +:+ yn (sg_host_ci_green signals) +:+ "; VAL: " +:+ got
        +:+ " (floor " +:+ want +:+ "): " +:+ (if met then "met" else "not met")
        +:+ "; CI parity: " +:+ yn (sg_ci_parity signals);
      "- Merge gate: " +:+ (if allowed then "allowed" else "held");
      _EVIDENCE_LINE; _EVIDENCE_END ].

(** The body with the last section replaced, or the section at its end. *)
Definition put_evidence (body block : string) : string :=
  match cut_at _EVIDENCE_START body with
  | Some (before, after) =>
      match cut_at _EVIDENCE_END (_EVIDENCE_START +:+ after) with
      | Some (String _ _, rest) => before +:+ block +:+ rest
      | _ => body +:+ nl +:+ nl +:+ block
      end
  | None => body +:+ nl +:+ nl +:+ block
  end.

(** ** The gate of one task *)

(** What stays the same while the gate is asked. *)
Record GateConfig := {
  gc_owner : string;
  gc_name : string;
  gc_trusted : lookup_result;
  gc_review_tier : option string;
  gc_review_tier_floor : option string;
  gc_human_approval_required : bool;
  gc_base : string;
  gc_pr : option Z;
}.

Section MergeGate.
Context {W : Type} (H : Hooks W) (t : Task).
Abbreviation M := (Eff (St W) ev).

Definition write_verify_evidence (owner repo : string) (pr : Z) (block : string) : M bool :=
  let slug := owner +:+ "/" +:+ repo in
  rescue
    (res_ ← runner H ["gh"; "pr"; "view"; pretty pr; "--repo"; slug; "--json"; "body"; "--jq"; ".body"]
              None;
     if negb (cmd_ok res_) then mret false
     else
       edited ← runner H ["gh"; "pr"; "edit"; pretty pr; "--repo"; slug; "--body";
                          put_evidence (out res_) block] None;
       mret (cmd_ok edited))
    false.

Definition fetch (g : GateConfig) (head : string) : M Fetched :=
  v ← tfactory_verdict H t head;
  emit (EvVerdict head v.1) ;;
  ci ← host_ci_green H (gc_owner g) (gc_name g) head;
  emit (EvCi head ci) ;;
  ci ← match ci with
       | Some true =>
           required ← required_checks_green H (gc_owner g) (gc_name g) (gc_base g) head;
           emit (EvRequired head required) ;;
           mret required
       | _ => mret ci
       end;
  let fetched := {| ft_verdict := v.1; ft_ci := ci |} in
  set_vars (set_fetched (Some (fetched, v.2))) ;;
  mret fetched.

Definition record_evidence (g : GateConfig) (head : string) (ok : bool) : M () :=
  vars ← lift (fun s => Ok (es_vars s));
  match gc_pr g, gv_fetched vars with
  | Some pr, Some f =>
      block ← lift (fun s => Ok (verify_evidence_block
                                   (merge_gate_signals (es_receipt s)
                                      (sd_metadata (cd_spec (es_dir s))) (Some f.1))
                                   f.2 head ok));
      if existsb (String.eqb block) (gv_written vars) then mret ()
      else
        wrote ← write_verify_evidence (gc_owner g) (gc_name g) pr block;
        if wrote : bool then set_vars (set_written [block]) else mret ()
  | _, _ => mret ()
  end.

(** [gate] of [_build_merge_gate]. *)
Definition gate (g : GateConfig) (head : string) : M bool :=
  set_vars (set_fetched None) ;;
  ok ← (if gc_human_approval_required g
        then _clears_with_human_approval H (gc_review_tier g) (gc_trusted g) (Some (fetch g head))
               (gc_review_tier_floor g)
        else d ← merge_disposition H (gc_review_tier g) (gc_trusted g) [] (Some (fetch g head))
                   (gc_review_tier_floor g);
             mret (String.eqb d AUTO_MERGE));
  record_evidence g head ok ;;
  mret ok.

(** A receipt in the database, read at each call, closes the gate. *)
Definition _with_receipt_veto (g : GateConfig) (head : string) : M bool :=
  vetoed ← lift (fun s => Ok (on_record (h_env H) (h_db H s) (tk_key t) (es_receipts s)));
  if vetoed : bool then mret false else gate g head.

Definition _gated_head (merge_gate : string -> M bool) (match_head : option string)
    (pr_head : M (option string)) : M (option string) :=
  head ← match match_head with
         | Some h => if is_empty h then pr_head else mret match_head
         | None => pr_head
         end;
  match head with
  | None => mret None
  | Some h => ok ← merge_gate h;
              emit (EvGate h ok) ;;
              mret (if ok : bool then Some h else None)
  end.
End MergeGate.
