(* ===== verification/PrEndgame.v ===== *)
(** The PR endgame (web-server/server/services/pr_endgame.py): open a pull request, watch
    its review, and merge it once the gate of [PrGate] allows exactly its head.

    Every step is recorded as an event.  A runner, a reviewer, a fixer or a hook may change
    whatever the state shows of the world; nothing is assumed of them. *)
From Stdlib Require Import QArith.
From S2P Require Import MergePolicy.
From S2P Require Import Prelude PyData JsonText JsonRead ApprovalGate TrustedPlan.
From S2P Require Import ContractTrust GitPins CommitTrailers RepoRef EventMonad PrGate.
Local Open Scope nat_scope.

(** [except RuntimeError:] around a computation. *)
Definition try_runtime {S E A} (m : Eff S E A) : Eff S E (option A) := fun s =>
  let '(r, s', l) := m s in
  (match r with
   | Ok a => Ok (Some a)
   | Err e => if bool_decide (e = runtime_error) then Ok None else Err e
   end, s', l).

(** [try: m finally: cleanup] for a cleanup that does not fail. *)
Definition finally_ {S E A} (m : Eff S E A) (cleanup : S -> S) : Eff S E A := fun s =>
  let '(r, s', l) := m s in (r, cleanup s', l).

(** [any(s in blob for s in l)] *)
Definition any_in (l : list string) (blob : string) : bool := existsb (fun s => contains s blob) l.

(** The pull request number of the first /pull/<digits> in a text. *)
Fixpoint _parse_pr_number (text : string) : option Z :=
  match text with
  | EmptyString => None
  | String _ text' =>
      match after_prefix "/pull/" text with
      | Some (String c _ as r) =>
          match digit_of c with Some _ => Some (read_digits 0 r) | None => _parse_pr_number text' end
      | _ => _parse_pr_number text'
      end
  end.

Definition _split_repo (repo : string) : option (string * string) :=
  match cut_at "/" repo with
  | Some (owner, name) => if is_empty owner || is_empty name then None else Some (owner, name)
  | None => None
  end.
Definition _is_github (provider : string) : bool :=
  String.eqb (lower (strip (if is_empty provider then "github" else provider))) "github".
Definition _parse_repo_ref (repo : string) : string * string :=
  default ("github", repo) (parse_repo_ref (Some repo)).

Definition COPILOT_REVIEWER : string := "copilot-pull-request-reviewer[bot]".

(** The flag of a merge method. *)
Definition merge_flag (method : string) : string :=
  match method with
  | "rebase" => "--rebase" | "merge" => "--merge" | _ => "--squash"
  end.

(** The command that merges; [match_head] pins it to a commit. *)
Definition merge_argv (owner repo : string) (pr : Z) (method : string) (match_head body : option string)
  : list string :=
  ["gh"; "pr"; "merge"; pretty pr; merge_flag method; "--repo"; owner +:+ "/" +:+ repo]
  ++ (if opt_truthy match_head then ["--match-head-commit"; default "" match_head] else [])
  ++ (if opt_truthy body then ["--body"; default "" body] else []).

Inductive conflict_reason :=
  | FetchFailed | RebaseRefused | RebaseClean | NoConflictedFiles | FixerFailed | ContinueFailed
  | ResolvedByFixer.
Record ConflictResolution := {
  cr_resolved : bool;
  cr_conflicted_files : list string;
  cr_reason : conflict_reason;
}.
Definition unresolved (files : list string) (why : conflict_reason) : ConflictResolution :=
  {| cr_resolved := false; cr_conflicted_files := files; cr_reason := why |}.

Section Endgame.
Context {W : Type} (H : Hooks W) (t : Task).
Abbreviation M := (Eff (St W) ev).

(** ** Git *)

Definition push_with_lfs (push_argv : list string) (ref cwd : string) : M CmdResult :=
  refused ← lfs_upload (fun argv => r ← runner H argv (Some cwd); mret (rc r, (out r, err r)))
              (h_git_lfs H) ref;
  if refused : bool
  then mret {| rc := 1; out := ""; err := "LFS repo but no supported LFS endpoint for this origin; refusing to push pointers without objects" |}
  else runner H push_argv (Some cwd).

Definition git_store : GitStore (St W) := {|
  gs_files := es_baselines;
  gs_put := with_baselines;
  gs_resolve := h_resolve H;
  gs_attributes := h_attributes H;
  gs_writable := h_writable H;
|}.
Definition git_run (cwd : string) (argv : list string) : M (Z * string) :=
  r ← runner H argv (Some cwd); mret (rc r, out r).
Definition pins (worktree : string) : M (option (list string)) :=
  try_runtime (merge_driver_pins (h_sha256 H) git_store (git_run worktree) worktree).

Definition create_pr (worktree branch base title body : string) : M (option Z) :=
  _f ← runner H ["git"; "fetch"; "origin"; branch +:+ ":" +:+ branch] (Some worktree);
  _p ← push_with_lfs ["git"; "push"; "-u"; "origin"; branch] branch worktree;
  res_ ← runner H ["gh"; "pr"; "create"; "--base"; base; "--head"; branch; "--title"; title;
                   "--body"; body] (Some worktree);
  mret (_parse_pr_number (out res_ +:+ nl +:+ err res_)).

Definition request_copilot_review (owner repo : string) (pr : Z) : M bool :=
  res_ ← runner H ["gh"; "api"; "--method"; "POST"; pulls owner repo pr +:+ "/requested_reviewers";
                   "-f"; "reviewers[]=" +:+ COPILOT_REVIEWER] None;
  mret (cmd_ok res_).

Definition not_clean (r : CmdResult) : bool :=
  any_in ["not mergeable"; "cannot be cleanly"; "conflict"; "behind"] (lower (err r +:+ " " +:+ out r)).

Definition merge_pr (owner repo : string) (pr : Z) (method : string) (match_head body : option string)
  : M bool :=
  let argv := merge_argv owner repo pr method match_head body in
  res_ ← runner H argv None;
  if cmd_ok res_ then mret true
  else if not_clean res_ then
    if opt_truthy match_head then mret false
    else
      upd ← runner H ["gh"; "pr"; "update-branch"; pretty pr; "--repo"; owner +:+ "/" +:+ repo] None;
      if cmd_ok upd then res2 ← runner H argv None; mret (cmd_ok res2) else mret false
  else mret false.

(** ** Conflicts *)

Definition conflict_fixer := (list string -> string -> St W -> res bool * St W).

Definition abort_rebase (worktree : string) : M () :=
  _a ← runner H ["git"; "rebase"; "--abort"] (Some worktree); mret ().

Definition _resolve_pr_conflicts (worktree base_branch : string) (fixer : conflict_fixer)
  : M ConflictResolution :=
  fetch ← runner H ["git"; "fetch"; "origin"; base_branch] (Some worktree);
  if negb (cmd_ok fetch) then mret (unresolved [] FetchFailed)
  else
    p ← pins worktree;
    match p with
    | None => mret (unresolved [] RebaseRefused)
    | Some p =>
        reb ← runner H ("git" :: p ++ ["rebase"; "origin/" +:+ base_branch]) (Some worktree);
        if cmd_ok reb
        then mret {| cr_resolved := true; cr_conflicted_files := []; cr_reason := RebaseClean |}
        else
          status ← runner H ("git" :: p ++ ["diff"; "--no-ext-diff"; "--no-textconv"; "--name-only";
                                            "--diff-filter=U"]) (Some worktree);
          let conflicted := keep (fun f => negb (is_empty (strip f))) (splitlines (out status)) in
          if negb (list_truthy conflicted) then
            abort_rebase worktree ;; mret (unresolved [] NoConflictedFiles)
          else
            fixed ← outside (fixer conflicted worktree);
            if negb fixed then abort_rebase worktree ;; mret (unresolved conflicted FixerFailed)
            else
              p ← pins worktree;
              match p with
              | None => abort_rebase worktree ;; mret (unresolved conflicted RebaseRefused)
              | Some p =>
                  _a ← runner H ("git" :: p ++ ["add"; "-A"]) (Some worktree);
                  cont ← runner H ("git" :: p ++ ["-c"; "core.editor=true"; "rebase"; "--continue"])
                           (Some worktree);
                  if negb (cmd_ok cont)
                  then abort_rebase worktree ;; mret (unresolved conflicted ContinueFailed)
                  else mret {| cr_resolved := true; cr_conflicted_files := conflicted;
                               cr_reason := ResolvedByFixer |}
              end
    end.

(** A baseline that was not there before does not stay. *)
Definition resolve_pr_conflicts (worktree base_branch : string) (fixer : conflict_fixer)
  : M ConflictResolution :=
  path ← try_runtime (baseline_file (h_sha256 H) git_store (git_run worktree) worktree);
  match path with
  | None => mret (unresolved [] RebaseRefused)
  | Some path =>
      before ← lift (fun s => Ok (files_at git_store path s));
      finally_ (_resolve_pr_conflicts worktree base_branch fixer)
        (fun s => match before with
                  | Missing => with_baselines (delete path (es_baselines s)) s
                  | _ => s
                  end)
  end.
(** ** The watch *)

Record Watch := {
  w_owner : string;
  w_repo : string;
  w_pr : Z;
  w_auto_merge : bool;
  w_require_copilot : bool;
  w_review_fn : option (St W -> res ReviewState * St W);
  w_fix_fn : option (json -> St W -> res bool * St W);
  w_max_fix_cycles : nat;
  w_on_approved_merged : option (St W -> res () * St W);
  w_conflict_fixer : option conflict_fixer;
  w_worktree : option string;
  w_base_branch : string;
  w_max_conflict_cycles : nat;
  w_poll_interval : Z;
  w_max_minutes : Z;
  w_human_approval_required : bool;
  w_merge_gate : option (string -> M bool);
  w_merge_body : option string;
}.

(** The local variables of the loop. *)
Record Cycles := { cy_fix : nat; cy_conflict : nat; cy_gate_held : bool }.

(** With an engine of its own the reviewer is not asked through GitHub. *)
Definition copilot_required (w : Watch) : bool :=
  match w_review_fn w with Some _ => false | None => w_require_copilot w end.

Definition finished (w : Watch) (verdict : string) (merged : bool) (reason : json) (rest : dict) : dict :=
  [("pr", JInt (w_pr w)); ("verdict", JStr verdict); ("merged", JBool merged); ("reason", reason)] ++ rest.
Definition nat_json (n : nat) : json := JInt (Z.of_nat n).

(** The loop goes on with [inl], and ends with [inr]. *)
Definition on_changes_requested (w : Watch) (c : Cycles) (rs : ReviewState) : M (Cycles + dict) :=
  let human_stop :=
    finished w (rv_verdict rs) false
      (JStr (if cy_fix c =? 0 then "changes_requested" else "needs_human_after_fixes"))
      [("fix_cycles", nat_json (cy_fix c));
       ("copilot_changes_requested", JBool (rv_copilot_changes_requested rs))] in
  match w_fix_fn w with
  | Some fix_ =>
      if cy_fix c <? w_max_fix_cycles w then
        ok ← outside (fix_ (rv_findings rs));
        emit (EvFix ok) ;;
        mret (if ok : bool
              then inl {| cy_fix := S (cy_fix c); cy_conflict := cy_conflict c;
                          cy_gate_held := cy_gate_held c |}
              else inr (finished w (rv_verdict rs) false (JStr "fix_failed")
                          [("fix_cycles", nat_json (S (cy_fix c)))]))
      else mret (inr human_stop)
  | None => mret (inr human_stop)
  end.

(** Conflicts of an approved pull request that did not merge: None when there is nothing to
    resolve them with. *)
Definition resolve_and_push (w : Watch) (c : Cycles) : option (M (Cycles + dict)) :=
  match w_conflict_fixer w, w_worktree w with
  | Some fixer, Some worktree =>
      if negb (is_empty worktree) && (cy_conflict c <? w_max_conflict_cycles w) then Some (
        let c' := {| cy_fix := cy_fix c; cy_conflict := S (cy_conflict c);
                     cy_gate_held := cy_gate_held c |} in
        let stopped := finished w "approved" false (JStr "merge_conflict_unresolved")
                         [("conflict_cycles", nat_json (S (cy_conflict c)))] in
        cr ← resolve_pr_conflicts worktree (w_base_branch w) fixer;
        emit (EvResolve (cr_resolved cr)) ;;
        if cr_resolved cr then
          push ← push_with_lfs ["git"; "push"; "--force-with-lease"; "origin"; "HEAD"] "HEAD" worktree;
          emit (EvPushed (cmd_ok push)) ;;
          mret (if cmd_ok push then inl c' else inr stopped)
        else mret (inr stopped))
      else None
  | _, _ => None
  end.

(** The commit to merge: None holds this poll. *)
Definition head_to_merge (w : Watch) (approved : option string) : M (option (option string)) :=
  match w_merge_gate w with
  | None => mret (Some approved)
  | Some gate =>
      h ← _gated_head gate approved (_pr_head H (w_owner w) (w_repo w) (w_pr w));
      mret (match h with Some h => Some (Some h) | None => None end)
  end.

Definition merge_approved (w : Watch) (c : Cycles) (rs : ReviewState) (match_head : option string)
  : M (Cycles + dict) :=
  merged ← merge_pr (w_owner w) (w_repo w) (w_pr w) "squash" match_head (w_merge_body w);
  match (if merged : bool then None else resolve_and_push w c) with
  | Some resolve => resolve
  | None =>
      match w_on_approved_merged w with
      | Some hook => if merged then emit EvRetest ;; shielded (outside hook) else mret ()
      | None => mret ()
      end ;;
      mret (inr (finished w "approved" merged (if merged then JNull else JStr "merge_failed")
                   [("copilot_approved", JBool (rv_copilot_approved rs))]))
  end.

Definition on_approved (w : Watch) (c : Cycles) (rs : ReviewState) : M (Cycles + dict) :=
  if negb (w_auto_merge w) then
    mret (inr (finished w "approved" false (JStr "auto_merge_disabled")
                 [("copilot_approved", JBool (rv_copilot_approved rs))]))
  else
    approved ← (if w_human_approval_required w
                then h ← human_approval_head H (w_owner w) (w_repo w) (w_pr w);
                     emit (EvApproval h) ;; mret h
                else mret None);
    if w_human_approval_required w && bool_decide (approved = None) then mret (inl c)
    else if bool_decide (is_Some (w_merge_gate w)) && negb ((cy_fix c =? 0) && (cy_conflict c =? 0)) then
      mret (inr (finished w "approved" false (JStr "merge_gate_unverified_head")
                   [("fix_cycles", nat_json (cy_fix c)); ("conflict_cycles", nat_json (cy_conflict c))]))
    else
      h ← head_to_merge w approved;
      match h with
      | None => mret (inl {| cy_fix := cy_fix c; cy_conflict := cy_conflict c; cy_gate_held := true |})
      | Some match_head => merge_approved w c rs match_head
      end.

Definition clean_approval (w : Watch) (rs : ReviewState) : bool :=
  if copilot_required w then rv_copilot_approved rs else String.eqb (rv_verdict rs) "approved".

Definition poll (w : Watch) (c : Cycles) : M (Cycles + dict) :=
  rs ← match w_review_fn w with
       | Some review => outside review
       | None => read_review_verdict H (w_owner w) (w_repo w) (w_pr w)
       end;
  emit (EvReview rs) ;;
  if String.eqb (rv_verdict rs) "changes_requested" then on_changes_requested w c rs
  else if clean_approval w rs then on_approved w c rs
  else mret (inl c).

Definition timed_out (w : Watch) (c : Cycles) : dict :=
  finished w "pending" false
    (JStr (if cy_gate_held c then "merge_gate_timeout"
           else if copilot_required w then "review_timeout (no Copilot approval)"
           else "review_timeout")) [].

Fixpoint watch_loop (w : Watch) (deadline : Q) (polls : nat) (c : Cycles) : M dict :=
  match polls with
  | O => mret (timed_out w c)
  | S polls' =>
      late ← lift (fun s => Ok (Qle_bool deadline (h_now H s)));
      if late : bool then mret (timed_out w c)
      else
        emit EvSleep ;;
        outside (fun s => (Ok (), h_sleep H (w_poll_interval w) s)) ;;
        r ← poll w c;
        match r with
        | inl c' => watch_loop w deadline polls' c'
        | inr d => mret d
        end
  end.

Definition poll_count (w : Watch) : nat :=
  Z.to_nat (Z.max 1 (w_max_minutes w * 60 / Z.max 1 (w_poll_interval w))).

Definition watch_and_finish (w : Watch) : M dict :=
  start ← lift (fun s => Ok (h_now H s));
  watch_loop w (start + inject_Z (w_max_minutes w * 60))%Q (poll_count w)
    {| cy_fix := 0; cy_conflict := 0; cy_gate_held := false |}.
End Endgame.

(** ** Title and body *)

(** [s.replace(p, "")]: one pass from the left. *)
Fixpoint remove_from (p : string) (skip : nat) (s : string) : string :=
  match s with
  | EmptyString => EmptyString
  | String c s' =>
      match skip with
      | S k => remove_from p k s'
      | O => if startswith p s then remove_from p (String.length p - 1) s'
             else String c (remove_from p 0 s')
      end
  end.
Definition remove_all (p s : string) : string := if is_empty p then s else remove_from p 0 s.

Definition clean_description (desc : string) : string :=
  remove_all _EVIDENCE_END (remove_all _EVIDENCE_START desc).

(** [isinstance(v, int)]: a boolean is one. *)
Definition int_value (v : option json) : option json :=
  match v with Some (JInt _ | JBool _) => v | _ => None end.
Definition issue_number (req : dict) : option json :=
  let field k d := match dget k req with Some (JObj o) => int_value (dget d o) | _ => None end in
  match field "provenance" "issue_number" with
  | Some n => Some n
  | None => field "githubIssue" "number"
  end.

Definition DEFAULT_BODY : string := "Automated PR from AIFactory (clean build).".
Definition BODY_TAIL : string := "🤖 AIFactory auto-PR on a clean, QA-passed build.".

(** requirements.json that parses but is not an object has no [get]: the error is not caught. *)
Definition _pr_title_body (repr : json -> string) (requirements : file) (spec_id : string)
  : res (string * string) :=
  match requirements with
  | Json (JObj req) =>
      let title := String.substring 0 120
        (match get_truthy "title" req with Some v => MergePolicy.py_str repr v | None => spec_id end) in
      let body :=
        match get_truthy "description" req with
        | Some v => clean_description (MergePolicy.py_str repr v) +:+ nl +:+ nl +:+ "---" +:+ nl +:+ BODY_TAIL
        | None => DEFAULT_BODY
        end in
      Ok (title, match issue_number req with
                 | Some n => body +:+ nl +:+ nl +:+ "Fixes #" +:+ MergePolicy.py_str repr n
                 | None => body
                 end)
  | Json _ => Err AttributeError
  | Missing | Broken => Ok (spec_id, DEFAULT_BODY)
  end.

Definition unsigned_note (tier : option string) : string :=
  "Review tier: " +:+ (if blank tier then "none (decided as low)" else _describe_tier tier)
  +:+ " (not checked against a signed contract).".

Definition signed_note (tier : option string) (signed : string) : string :=
  let '(effective, below) := _raise_to_signed tier signed in
  let eff := _describe_tier (Some effective) in
  let sig := _describe_tier (Some signed) in
  "Effective review tier: " +:+ eff +:+ " (signed floor " +:+ sig +:+ ")."
  +:+ (if below then
         nl +:+ nl +:+ "> **Possible tampering:** task metadata reviewTier " +:+ _describe_tier tier
         +:+ " is below the signed tier " +:+ sig +:+ "; the merge gate decides on " +:+ eff +:+ "."
       else "").

Definition PATH_RISK_FLOOR_NOTE : string := "path-derived risk floor raises reviewTier".

(** ** The endgame *)

Section Run.
Context {W : Type} (H : Hooks W) (t : Task).
Abbreviation M := (Eff (St W) ev).

Record Endgame := {
  e_trusted : lookup_result;
  e_worktree : string;
  e_branch : string;
  e_base : string;
  e_repo : string;
  e_provider : string;
  e_auto_merge : bool;
  e_review_tier : option string;
  e_review_tier_floor : option string;
  e_reviewer : string;
  e_review_fn : option (St W -> res ReviewState * St W);
  e_fix_fn : option (json -> St W -> res bool * St W);
  e_conflict_fixer : option (@conflict_fixer W);
  e_on_pr_opened : option (Z -> St W -> res () * St W);
  e_re_test : option (St W -> res () * St W);
}.

Definition review_tier_note (tier : option string) (trusted : lookup_result) : M string :=
  signed ← rescue
    (state ← lift (fun s => resolve_contract (h_hmac H) (h_env H) (es_dir s) trusted);
     mret (match state.1 with VERIFIED => signed_tier state | _ => None end))
    None;
  mret (match signed with Some s => signed_note tier s | None => unsigned_note tier end).

(** PR-open policy: what the decision would be with everything green. *)
Definition _prospective : M Fetched := mret {| ft_verdict := Some "pass"; ft_ci := Some true |}.

(** Auto-merge and the human approval it waits for. *)
Definition merge_policy_at_open (e : Endgame) : M (bool * bool) :=
  if negb (e_auto_merge e) then mret (false, false)
  else
    handback ← lift (fun s => Ok (on_record (h_env H) (h_db H s) (tk_key t) (es_receipts s)));
    if handback : bool then mret (false, false)
    else
      d ← merge_disposition H (e_review_tier e) (e_trusted e) [] (Some _prospective)
            (e_review_tier_floor e);
      if String.eqb d AUTO_MERGE then mret (true, false)
      else
        clears ← _clears_with_human_approval H (e_review_tier e) (e_trusted e) (Some _prospective)
                   (e_review_tier_floor e);
        mret (if clears : bool then (true, true) else (false, false)).

Definition pr_body (e : Endgame) : M (string * string) :=
  tb ← lift (fun s => _pr_title_body (h_repr H) (sd_requirements (cd_spec (es_dir s))) (tk_id t));
  note ← review_tier_note (e_review_tier e) (e_trusted e);
  let body := tb.2 +:+ nl +:+ nl +:+ note in
  mret (tb.1,
        if opt_truthy (e_review_tier_floor e) then
          body +:+ nl +:+ nl +:+ "> " +:+ PATH_RISK_FLOOR_NOTE +:+ " " +:+ _describe_tier (e_review_tier e)
          +:+ " -> " +:+ _describe_tier (e_review_tier_floor e) +:+ "."
        else body).

(** The pull request, or the text of the exception. *)
Definition try_create_pr (e : Endgame) (title body : string) : M (option Z + string) := fun s =>
  let '(r, s', l) := create_pr H (e_worktree e) (e_branch e) (e_base e) title body s in
  (match r with
   | Ok pr => Ok (inl pr)
   | Err Untyped => Err Untyped
   | Err x => Ok (inr (String.substring 0 300 (h_str_exn H x)))
   end, s', l).

Definition failed (reason : string) (rest : dict) : dict :=
  [("ok", JBool false); ("reason", JStr reason)] ++ rest.

Definition gate_config (e : Endgame) (owner name : string) (human : bool) (pr : Z) : GateConfig := {|
  gc_owner := owner; gc_name := name; gc_trusted := e_trusted e; gc_review_tier := e_review_tier e;
  gc_review_tier_floor := e_review_tier_floor e; gc_human_approval_required := human;
  gc_base := e_base e; gc_pr := Some pr;
|}.

Definition watch_of (e : Endgame) (owner name : string) (pr : Z) (auto human : bool) (body : string)
  : Watch := {|
  w_owner := owner; w_repo := name; w_pr := pr; w_auto_merge := auto;
  w_require_copilot := String.eqb (e_reviewer e) "copilot";
  w_review_fn := e_review_fn e; w_fix_fn := e_fix_fn e; w_max_fix_cycles := 2;
  w_on_approved_merged := e_re_test e; w_conflict_fixer := e_conflict_fixer e;
  w_worktree := Some (e_worktree e); w_base_branch := e_base e; w_max_conflict_cycles := 1;
  w_poll_interval := 30; w_max_minutes := 20; w_human_approval_required := human;
  w_merge_gate := if auto then Some (_with_receipt_veto H t (gate_config e owner name human pr))
                  else None;
  w_merge_body := if is_empty body then None else Some body;
|}.

(** Everything up to the watch: a result, or the pull request with its watch. *)
Definition open_endgame (e : Endgame) : M (dict + Watch) :=
  if negb (_is_github (e_provider e)) then
    mret (inl (failed "provider_not_github"
                 [("provider", JStr (e_provider e)); ("repo", JStr (e_repo e))]))
  else
    policy ← merge_policy_at_open e;
    let '(auto, human) := policy in
    match _split_repo (e_repo e) with
    | None => mret (inl (failed "no_repo" [("repo", JStr (e_repo e))]))
    | Some (owner, name) =>
        tb ← pr_body e;
        created ← try_create_pr e tb.1 tb.2;
        match created with
        | inr error => mret (inl (failed "create_pr_error" [("error", JStr error)]))
        | inl None => mret (inl (failed "pr_not_created" []))
        | inl (Some pr) =>
            set_vars (fun _ => {| gv_fetched := None; gv_written := [] |}) ;;
            (if String.eqb (e_reviewer e) "copilot"
             then _r ← request_copilot_review H owner name pr; mret ()
             else match e_on_pr_opened e with
                  | Some hook => shielded (outside (hook pr))
                  | None => mret ()
                  end) ;;
            body ← lift (fun s => Ok (trailer_block (h_env H)
                                        (Some (sd_requirements (cd_spec (es_dir s))))));
            mret (inr (watch_of e owner name pr auto human body))
        end
    end.

(** [{**a, **b}] *)
Definition merge_dicts (a b : dict) : dict := foldl (fun d kv => dset kv.1 kv.2 d) a b.

(** In the background the watch is left to the event loop. *)
Definition run_pr_endgame (e : Endgame) (background : bool) : M (dict * option (Watch (W := W))) :=
  opened ← open_endgame e;
  match opened with
  | inl d => mret (d, None)
  | inr w =>
      if background then
        mret ([("ok", JBool true); ("pr", JInt (w_pr w)); ("watching", JBool true)], Some w)
      else
        d ← watch_and_finish H w;
        mret (merge_dicts [("ok", JBool true); ("pr", JInt (w_pr w)); ("watching", JBool false)] d, None)
  end.
End Run.
