(* ===== verification/PrContext.v ===== *)
(** What the PR endgame starts from (web-server/server/services/pr_endgame.py): the flags,
    the tier raised by the paths of the real diff, and the branch, base and repository of a
    task.

    [setting] is the snapshot of the project's settings, None when it was never loaded; the
    diff and the resolver of a task's branch are arguments. *)
From Stdlib Require Import QArith.
From S2P Require Import MergePolicy.
From S2P Require Import Prelude PyData ApprovalGate TrustedPlan ContractTrust GitPins RepoRef.
From S2P Require Import EventMonad PrGate PrEndgame.
Local Open Scope nat_scope.

Abbreviation settings := (option (list (string * string))).

(** ** Flags *)

Definition _TRUTHY : list string := ["1"; "true"; "yes"; "on"].
Definition cached_setting (s : settings) (key : string) : option string :=
  match s with Some l => env_get key l | None => None end.
(** [project] is None when no project is named. *)
Definition _project_env (project : option settings) (key : string) : option string :=
  match project with Some s => cached_setting s key | None => None end.
Definition setting_or_env (env : env_list) (project : option settings) (key : string) : string :=
  lower (strip (match _project_env project key with Some v => v | None => default "" (env_get key env) end)).
Definition _flag (env : env_list) (project : option settings) (key : string) : bool :=
  is_in _TRUTHY (setting_or_env env project key).

Definition is_auto_pr_enabled (env : env_list) (project : option settings) : bool :=
  _flag env project "AIFACTORY_AUTO_PR".
Definition is_auto_merge_enabled (env : env_list) (project : option settings) : bool :=
  match project with
  | Some None => false
  | _ => _flag env project "AIFACTORY_AUTO_MERGE"
  end.
Definition is_graphiti_enabled (env : env_list) (project : option settings) : bool :=
  _flag env project "GRAPHITI_ENABLED".
Definition path_floor_enforced (env : env_list) (project : option settings) : bool :=
  _flag env project "AIFACTORY_PATH_RISK_FLOOR_ENFORCE".

Definition _VALID_REVIEWERS : list string := ["aifactory"; "copilot"; "any"].
Definition resolve_pr_reviewer (env : env_list) (project : option settings) : string :=
  let val := setting_or_env env project "AIFACTORY_PR_REVIEWER" in
  if is_in _VALID_REVIEWERS val then val else "aifactory".

(** ** The floor of the paths *)

(** [writable] is false when the write fails. *)
Definition _record_path_risk_floor (floor : string) (enforced writable : bool) (metadata : file) : file :=
  match metadata with
  | Json (JObj meta) =>
      let meta := dset "pathRiskFloor" (JStr floor) meta in
      let meta := if enforced then dset "reviewTier" (JStr floor) meta else meta in
      if writable then Json (JObj meta) else metadata
  | _ => metadata
  end.

Section Floor.
Context {W : Type} (H : Hooks W) (project : option settings).
Abbreviation M := (Eff (St W) ev).

Definition with_meta (f : file -> file) (s : St W) : St W :=
  let d := es_dir s in
  let sd := cd_spec d in
  {| es_dir := with_spec_dir d (with_metadata sd (f (sd_metadata sd)));
     es_receipt := es_receipt s; es_receipts := es_receipts s; es_baselines := es_baselines s;
     es_vars := es_vars s; es_world := es_world s |}.

Definition record_floor (floor : string) (enforced : bool) : M () := fun s =>
  (Ok (), with_meta (_record_path_risk_floor floor enforced (h_writable H s)) s, []).

(** The tier decided on, and the floor when something raised it. *)
Definition apply_floor (tier : option string) (floor : string) : M (option string * option string) :=
  let enforced := path_floor_enforced (h_env H) project in
  record_floor floor enforced ;;
  mret (if enforced then Some floor else tier, Some floor).

Definition _path_risk_floor_closed (tier : option string) : M (option string * option string) :=
  apply_floor tier "blocking".

(** [importable]: the policy could be imported; [table]: so could its pattern table;
    [changed]: the files of the diff, or the error of reading it. *)
Definition apply_path_risk_floor (importable table : bool) (changed : M json) (tier : option string)
    (trusted : lookup_result) : M (option string * option string) :=
  if negb importable then _path_risk_floor_closed tier
  else
    floor ← rescue (files ← changed; mret (floor_from_paths table files)) "auto";
    floor ← rescue
      (state ← lift (fun s => resolve_contract (h_hmac H) (h_env H) (es_dir s) trusted);
       mret (if bool_decide (state.1 = HOLD)
                || list_truthy (deployment_block_reasons (h_repr H) (lookup_of state "deployment") JNull)
             then "blocking" else floor))
      floor;
    let raised := raise_review_tier tier (Some floor) in
    if bool_decide (raised = tier) then mret (tier, None)
    else apply_floor tier (default "" raised).
End Floor.

(** ** The context of a task *)

(** [a or b or ...] over fields that hold texts. *)
Fixpoint first_text (l : list (option json)) : res string :=
  match l with
  | [] => Ok ""
  | Some v :: l' => if truthy v then as_str v else first_text l'
  | None :: l' => first_text l'
  end.

(** [re.search(r"[:/]([^/]+/[^/]+?)(?:\.git)?$", url)] on a text of one line. *)
Fixpoint origin_slug (url : string) : option string :=
  match url with
  | EmptyString => None
  | String c rest =>
      let here :=
        if Ascii.eqb c ":" || Ascii.eqb c "/" then
          match split_on "/" rest with
          | [owner; name] =>
              let bare := match drop_suffix ".git" name with
                          | Some n => if is_empty n then name else n
                          | None => name
                          end in
              if is_empty owner || is_empty bare then None else Some (owner +:+ "/" +:+ bare)
          | _ => None
          end
        else None in
      match here with Some r => Some r | None => origin_slug rest end
  end.

Record PrContext := {
  pc_worktree : string;
  pc_branch : string;
  pc_base : string;
  pc_repo : string;
  pc_provider : string;
  pc_review_tier : option string;
  pc_review_tier_floor : option string;
}.

Definition github_repo (req : json) : res string :=
  match req with
  | JObj r =>
      let! linked := match dget "githubIssue" r with
                     | Some (JObj gh) => first_text [dget "repo" gh; dget "repository" gh]
                     | _ => Ok ""
                     end in
      if is_empty linked then first_text [dget "github_repo" r; dget "repo" r] else Ok linked
  | _ => Err AttributeError
  end.

Section Context_.
Context {W : Type} (H : Hooks W) (t : Task) (project : option settings).
Abbreviation M := (Eff (St W) ev).

Definition meta_of (f : file) : dict := match f with Json (JObj d) => d | _ => [] end.

(** [task_repo_dir] is the build's repository, [resolve] the resolver of [TaskBranch]. *)
Definition gather_pr_context (task_repo_dir : option string) (resolve : string -> M (option string))
    (importable table : bool) (changed : string -> M json) (trusted : lookup_result)
  : M (option PrContext) :=
  match task_repo_dir with
  | None => mret None
  | Some worktree =>
      head ← runner H ["git"; "rev-parse"; "--abbrev-ref"; "HEAD"] (Some worktree);
      let branch := if cmd_ok head then strip (out head) else "" in
      meta ← lift (fun s => Ok (meta_of (sd_metadata (cd_spec (es_dir s)))));
      base ← here (first_text [dget "base_branch" meta; dget "baseBranch" meta]);
      let base := if is_empty base then "main" else base in
      branch ← (if is_empty branch || is_in ["HEAD"; "main"; "master"; base] branch
                then r ← resolve base;
                     mret (match r with
                           | Some b => if is_empty b then "aifactory/" +:+ tk_id t else b
                           | None => "aifactory/" +:+ tk_id t
                           end)
                else mret branch);
      repo ← lift (fun s => match sd_requirements (cd_spec (es_dir s)) with
                            | Json req => github_repo req
                            | Missing | Broken => Ok ""
                            end);
      repo ← (if is_empty repo then here (first_text [dget "github_repo" meta; dget "githubRepo" meta])
              else mret repo);
      repo ← (if is_empty repo then
                url ← runner H ["git"; "remote"; "get-url"; "origin"] (Some worktree);
                mret (if cmd_ok url then default "" (origin_slug (strip (out url))) else "")
              else mret repo);
      if is_empty repo then mret None
      else
        let '(provider, bare) := _parse_repo_ref repo in
        tiers ← apply_path_risk_floor H project importable table (changed base)
                  (review_tier_of (JObj meta)) trusted;
        mret (Some {| pc_worktree := worktree; pc_branch := branch; pc_base := base; pc_repo := bare;
                      pc_provider := provider; pc_review_tier := tiers.1;
                      pc_review_tier_floor := tiers.2 |})
  end.
End Context_.

(** ** Lemmas *)

Lemma raise_rank_le tier floor : (tier_rank tier <= tier_rank (raise_review_tier tier floor))%Z.
Proof. unfold raise_review_tier. destruct (Z.ltb_spec (tier_rank tier) (tier_rank floor)); lia. Qed.

(** The floor of the paths never lowers a tier.  The tier decided on ranks at
    least as high as the declared one, and equals the floor that is noted whenever the floor
    is enforced; without a floor the tier is the declared one; and a floor that could not be
    measured is the strictest. *)
Theorem path_floor_only_raises {W} (H : Hooks W) (project : option settings) (importable table : bool)
    (changed : Eff (St W) ev json) (tier : option string) (trusted : lookup_result)
    (s s' : St W) (l : list ev) (eff floor : option string) :
  apply_path_risk_floor H project importable table changed tier trusted s = (Ok (eff, floor), s', l) ->
  (tier_rank tier <= tier_rank eff)%Z
  /\ (floor = None -> eff = tier)
  /\ (forall f, floor = Some f ->
        (tier_rank tier <= tier_rank (Some f))%Z
        /\ eff = (if path_floor_enforced (h_env H) project then Some f else tier))
  /\ (importable = false -> floor = Some "blocking").
Proof.
  intros R.
  assert (forall f s0, (tier_rank tier <= tier_rank (Some f))%Z ->
    wp (apply_floor H project tier f) (fun r _ _ => forall e fl, r = Ok (e, fl) ->
      fl = Some f /\ e = (if path_floor_enforced (h_env H) project then Some f else tier)
      /\ (tier_rank tier <= tier_rank e)%Z) s0) as A.
  { intros f s0 L. unfold wp. cbn -[tier_rank path_floor_enforced]. intros e fl [= <- <-].
    split; [done|]. split; [done|]. destruct (path_floor_enforced _ _); [done | lia]. }
  assert (forall t0, (tier_rank t0 <= tier_rank (Some "blocking"))%Z) as Top.
  { intros t0. assert (tier_rank (Some "blocking") = 2%Z) as -> by reflexivity.
    unfold tier_rank. by destruct (tier_bucket t0) as [[]|]. }
  refine (wp_run _ (fun r _ _ => forall e fl, r = Ok (e, fl) -> _) _ _ _ _ _ R eff floor eq_refl). clear R.
  unfold apply_path_risk_floor. destruct importable; cbn [negb].
  - apply wp_bind, (wp_mono _ _ _ _ (wp_true _ _)). intros [f0|x] s1 l1 _; [|done].
    apply wp_bind, (wp_mono _ _ _ _ (wp_true _ _)). intros [f1|x] s2 l2 _; [|done]. cbv zeta.
    destruct (bool_decide_reflect (raise_review_tier tier (Some f1) = tier)) as [E|N].
    + apply wp_ret. intros e fl [= <- <-]. split; [lia|]. by repeat split.
    + assert (raise_review_tier tier (Some f1) = Some f1) as Er
        by (unfold raise_review_tier in *; by destruct (_ <? _)%Z).
      pose proof (raise_rank_le tier (Some f1)) as L. rewrite Er in L |- *.
      apply (wp_mono _ _ _ _ (A f1 s2 L)). intros r s3 l3 F e fl ->.
      destruct (F e fl eq_refl) as (-> & -> & Le). split; [done|]. split; [done|]. split; [|done].
      by intros f [= <-].
  - apply (wp_mono _ _ _ _ (A "blocking" s (Top tier))). intros r s3 l3 F e fl ->.
    destruct (F e fl eq_refl) as (-> & -> & Le). split; [done|]. split; [done|]. split; [|done].
    by intros f [= <-].
Qed.

Lemma path_floor_only_raises_witness :
  (tier_rank (Some "low") <= tier_rank (Some "blocking"))%Z.
Proof.
  refine (proj1 (path_floor_only_raises
    (W := ()) {| h_hmac := fun k x => k; h_sha256 := id; h_repr := fun _ => "";
       h_env := [("AIFACTORY_PATH_RISK_FLOOR_ENFORCE", "on")];
       h_run := fun _ _ s => (Err TypeError, s); h_get := fun _ _ s => (Err TypeError, s);
       h_db := fun _ => false; h_now := fun _ => 0%Q; h_sleep := fun _ s => s; h_git_lfs := false;
       h_str_exn := fun _ => ""; h_resolve := fun _ _ r => r; h_attributes := fun _ _ => Ok None;
       h_writable := fun _ => true |}
    None true true (mret (JList [JStr "src/auth/login.py"])) (Some "low") NoRecord
    {| es_dir := {| cd_spec := {| sd_spec := None; sd_plan := PlanAbsent; sd_review := Missing;
                                  sd_metadata := Json (JObj []); sd_requirements := Missing |};
                    cd_contract := Missing |};
       es_receipt := false; es_receipts := ∅; es_baselines := ∅;
       es_vars := {| gv_fetched := None; gv_written := [] |}; es_world := () |} _ _
    (Some "blocking") (Some "blocking") _)).
  vm_compute. reflexivity.
Defined.

Example remotes :
  origin_slug "git@github.com:acme/shop.git" = Some "acme/shop"
  /\ origin_slug "https://github.com/acme/shop" = Some "acme/shop"
  /\ origin_slug "/srv/repo" = Some "srv/repo" /\ origin_slug "shop" = None.
Proof. repeat split; reflexivity. Qed.
