(* ===== verification/GateReads.v ===== *)
(** What the reads of the merge gate ([PrGate]) vouch for: a green roll-up, a human approval
    and a passing verdict, each of exactly one commit. *)
From Stdlib Require Import QArith.
From S2P Require Import MergePolicy.
From S2P Require Import Prelude PyData JsonText JsonRead ApprovalGate TrustedPlan.
From S2P Require Import ContractTrust GitPins EventMonad PrGate.
Local Open Scope nat_scope.

(** [v[k]] is the text [s]. *)
Definition has_text (k s : string) (v : json) : Prop :=
  exists d, v = JObj d /\ dget k d = Some (JStr s).

(** ** Lemmas *)

Lemma item_Ok k v x : item k v = Ok x -> exists d, v = JObj d /\ dget k d = Some x.
Proof.
  destruct v as [| | | | |d]; try done. cbn. destruct (dget k d) eqn:E; [|done]. intros [= <-]. eauto.
Qed.

Lemma equals_true s v : equals s v = true <-> v = JStr s.
Proof.
  destruct v; cbn; try (split; [done | by intros [=]]). rewrite String.eqb_eq. split; [by intros -> | by intros [= ->]].
Qed.
Lemma is_text_true s v : is_text s v = true <-> v = Some (JStr s).
Proof.
  destruct v as [[| | |x| |]|]; cbn; try (split; [done | by intros [=]]).
  rewrite String.eqb_eq. split; [by intros -> | by intros [= ->]].
Qed.

Lemma in_set_true l v : in_set l v = Ok true -> exists s, v = JStr s /\ s ∈ l.
Proof.
  destruct v as [| | |s| |]; cbn; try done. intros [= E]. exists s. split; [done|].
  apply existsb_spec in E as (x & I & ->%String.eqb_eq). done.
Qed.
Lemma in_set_text l s : in_set l (JStr s) = Ok (existsb (String.eqb s) l).
Proof. done. Qed.

Lemma any_res_false {A} (f : A -> res bool) l : any_res f l = Ok false -> forall x, x ∈ l -> f x = Ok false.
Proof.
  induction l as [|y l IH]; cbn; [by intros _ x ?%elem_of_nil|].
  destruct (f y) as [[]|] eqn:E; cbn; try done. intros R x [->|I]%elem_of_cons; [done | by apply IH].
Qed.

Lemma or_res_false a b : or_res a b = Ok false -> a = Ok false /\ b = Ok false.
Proof. destruct a as [[]|]; cbn; naive_solver. Qed.

Lemma and_res_false a b : and_res a b = Ok false -> a = Ok false \/ a = Ok true /\ b = Ok false.
Proof. destruct a as [[]|]; cbn; naive_solver. Qed.

Lemma verdict_green red pending : verdict_of red pending = Ok (Some true) ->
  red = Ok false /\ pending = Ok false.
Proof. destruct red as [[]|]; cbn; try done. by destruct pending as [[]|]. Qed.

(** ** The roll-up of the host *)

(** A check run that is completed and green. *)
Definition run_green (r : json) : Prop :=
  has_text "status" "completed" r
  /\ exists c, has_text "conclusion" c r /\ c ∈ _GREEN_CONCLUSIONS.

Lemma open_run_false r : open_run r = Ok false -> has_text "status" "completed" r.
Proof.
  unfold open_run. intros (v & Hv & R)%bind_Ok_inv. injection R as R%negb_false_iff.
  apply equals_true in R as ->. by apply item_Ok in Hv.
Qed.

Lemma red_run_false r : has_text "status" "completed" r -> red_run r = Ok false -> run_green r.
Proof.
  intros (d & -> & S). unfold red_run. cbn [item]. rewrite S. cbn.
  destruct (dget "conclusion" d) as [c|] eqn:C; cbn [mbind res_bind]; [|done].
  intros (b & Hb & R)%bind_Ok_inv. injection R as R%negb_false_iff. subst.
  apply in_set_true in Hb as (s & -> & I). split; [by exists d|]. exists s. split; [by exists d | done].
Qed.

Lemma open_suite_false x : open_suite x = Ok false ->
  exists n, (exists d, x = JObj d /\ dget "n" d = Some n)
            /\ (positive n = Ok false \/ has_text "status" "completed" x).
Proof.
  unfold open_suite. intros (n & Hn & R)%bind_Ok_inv. apply bind_Ok_inv in R as (b & Hb & R).
  exists n. split; [by apply item_Ok in Hn|]. destruct b; [right; by apply open_run_false | by left].
Qed.

(** Host CI is green only when there is evidence and none against: some check
    run or status exists, every check run is completed with a green conclusion, every suite
    that has runs is completed, and the combined status is a success or counts nothing. *)
Theorem green_host_is_green (runs_text status_text suites_text : string) :
  host_roll_up runs_text status_text suites_text = Ok (Some true) ->
  exists runs suites status total,
    json_lines runs_text = Ok runs /\ json_lines suites_text = Ok suites
    /\ loads status_text = Ok (JObj status)
    /\ (exists v, dget "total_count" status = Some v /\ PyData.py_int v = Ok total)
    /\ (runs <> [] \/ total <> 0%Z)
    /\ (forall r, r ∈ runs -> run_green r)
    /\ (forall x, x ∈ suites -> exists n d, x = JObj d /\ dget "n" d = Some n
          /\ (positive n = Ok false \/ has_text "status" "completed" x))
    /\ (forall s, s ∈ ["failure"; "error"] -> dget "state" status <> Some (JStr s))
    /\ ((0 < total)%Z -> dget "state" status = Some (JStr "success")).
Proof.
  unfold host_roll_up. intros (runs & Hr & R)%bind_Ok_inv. apply bind_Ok_inv in R as (suites & Hs & R).
  apply bind_Ok_inv in R as (st & Hst & R). apply bind_Ok_inv in R as (state & Hstate & R).
  apply bind_Ok_inv in R as (count & Hcount & R). apply bind_Ok_inv in R as (total & Ht & R).
  apply verdict_green in R as [[Bad Reds]%or_res_false Pend].
  apply or_res_false in Pend as [Open Pend]. apply or_res_false in Pend as [Suites Rest].
  apply item_Ok in Hstate as (status & -> & Ss). apply item_Ok in Hcount as (d & [= <-] & Sc).
  injection Bad as [B1 B2]%orb_false_iff. injection Rest as [R1 R2]%orb_false_iff.
  exists runs, suites, status, total. split; [done|]. split; [done|]. split; [done|].
  split; [by exists count|]. split; [|split; [|split; [|split]]].
  - destruct runs; [|by left]. right. cbn in R2. intros ->. done.
  - intros r I. apply red_run_false; [by apply open_run_false, (any_res_false _ _ Open)|].
    by apply (any_res_false _ _ Reds).
  - intros x I. destruct (open_suite_false x (any_res_false _ _ Suites x I)) as (n & (d & E & En) & F).
    by exists n, d.
  - intros s I E. rewrite Ss in E. injection E as ->.
    apply elem_of_cons in I as [->|I%list_elem_of_singleton]; [by cbn in B1|]. subst. by cbn in B2.
  - intros P. rewrite Ss. f_equal. rewrite (proj2 (Z.ltb_lt 0 total) P) in R1. cbn in R1.
    apply negb_false_iff in R1. by apply equals_true.
Qed.

Lemma green_host_is_green_witness :
  exists runs, json_lines (ticks "{'status':'completed','conclusion':'success'}") = Ok runs
    /\ forall r, r ∈ runs -> run_green r.
Proof.
  destruct (green_host_is_green (ticks "{'status':'completed','conclusion':'success'}")
              (ticks "{'state':'pending','total_count':0}") "") as (runs & suites & status & total & A & _ & _ & _ & _ & B & _).
  - vm_compute. reflexivity.
  - exists runs. split; [exact A | exact B].
Defined.

(** ** Required checks *)

Lemma green_run_some r name : green_run r = Ok (Some name) -> run_green r /\ has_text "name" name r.
Proof.
  unfold green_run. intros (st & Hst & R)%bind_Ok_inv. apply item_Ok in Hst as (d & -> & S).
  destruct (equals "completed" st) eqn:E; [|done]. apply equals_true in E as ->.
  apply bind_Ok_inv in R as (c & Hc & R). apply bind_Ok_inv in R as (b & Hb & R). destruct b; [|done].
  apply in_set_true in Hb as (s & -> & I). apply item_Ok in Hc as (d' & [= <-] & C).
  apply bind_Ok_inv in R as (n & Hn & R). apply item_Ok in Hn as (d' & [= <-] & N).
  destruct n as [| | |x| |]; try done. injection R as ->.
  split; [|by exists d]. split; [by exists d|]. exists s. split; [by exists d | done].
Qed.

Lemma green_status_some x name : green_status x = Ok (Some name) ->
  has_text "state" "success" x /\ has_text "context" name x.
Proof.
  unfold green_status. intros (st & Hst & R)%bind_Ok_inv. apply item_Ok in Hst as (d & -> & S).
  destruct (equals "success" st) eqn:E; [|done]. apply equals_true in E as ->.
  apply bind_Ok_inv in R as (n & Hn & R). apply item_Ok in Hn as (d' & [= <-] & N).
  destruct n as [| | |y| |]; try done. injection R as ->. split; by exists d.
Qed.

Lemma green_found {A} (f : A -> res (option string)) (l : list A) found name :
  mapM f l = Ok found -> Some name ∈ found -> exists x, x ∈ l /\ f x = Ok (Some name).
Proof.
  revert found. induction l as [|x l IH]; intros found M I.
  - injection M as <-. by apply elem_of_nil in I.
  - cbn in M. apply bind_Ok_inv in M as (o & Ho & M). apply bind_Ok_inv in M as (os & Hos & M).
    injection M as <-. apply elem_of_cons in I as [<-|I].
    + exists x. split; [by apply list_elem_of_here | done].
    + destruct (IH os Hos I) as (y & Iy & Ey). exists y. split; [by apply list_elem_of_further | done].
Qed.

(** What the guards say of an element with a name that is required. *)
Lemma required_false required (f : json -> res bool) key x n :
  n ∈ required -> has_text key n x ->
  (let! v := item key x in and_res (in_set required v) (f x)) = Ok false -> f x = Ok false.
Proof.
  intros I (d & -> & E). cbn [item]. rewrite E. cbn [mbind res_bind]. rewrite in_set_text.
  assert (existsb (String.eqb n) required = true) as ->.
  { apply existsb_spec. exists n. by rewrite String.eqb_refl. }
  cbn. done.
Qed.

(** The required checks are green only when each is a check run that is
    completed and green or a status that is a success, no run with its name is unfinished or
    red, and no status with its name is anything but a success. *)
Theorem green_required_is_green (required : list string) (runs_text statuses_text : string) :
  required_roll_up required runs_text statuses_text = Ok (Some true) ->
  exists runs statuses,
    json_lines runs_text = Ok runs /\ json_lines statuses_text = Ok statuses
    /\ forall name, name ∈ required ->
         ((exists r, r ∈ runs /\ has_text "name" name r /\ run_green r)
          \/ exists s, s ∈ statuses /\ has_text "context" name s /\ has_text "state" "success" s)
         /\ (forall r, r ∈ runs -> has_text "name" name r -> run_green r)
         /\ (forall s, s ∈ statuses -> has_text "context" name s -> has_text "state" "success" s).
Proof.
  unfold required_roll_up. intros (runs & Hr & R)%bind_Ok_inv. apply bind_Ok_inv in R as (statuses & Hs & R).
  apply verdict_green in R as [[RedR RedS]%or_res_false R].
  apply bind_Ok_inv in R as (gr & Hgr & R). apply bind_Ok_inv in R as (gs & Hgs & R).
  apply or_res_false in R as [Sub R]. apply or_res_false in R as [OpenR OpenS].
  injection Sub as Sub%negb_false_iff. rewrite forallb_spec in Sub.
  exists runs, statuses. split; [done|]. split; [done|]. intros name I. split; [|split].
  - specialize (Sub name I). apply existsb_spec in Sub as (x & Ix & ->%String.eqb_eq).
    apply list_elem_of_omap in Ix as (o & Io & Eo). unfold id in Eo. subst o. apply elem_of_app in Io as [Io|Io].
    + left. destruct (green_found _ _ _ _ Hgr Io) as (r & Ir & G). apply green_run_some in G as [].
      by exists r.
    + right. destruct (green_found _ _ _ _ Hgs Io) as (s & Is & G). apply green_status_some in G as [].
      by exists s.
  - intros r Ir N. apply red_run_false.
    + apply open_run_false, (required_false required open_run "name" r name I N).
      exact (any_res_false _ _ OpenR r Ir).
    + apply (required_false required red_run "name" r name I N). exact (any_res_false _ _ RedR r Ir).
  - intros s Is N.
    pose proof (required_false required
      (fun s => let! state := item "state" s in Ok (negb (equals "success" state))) "context" s name I N
      (any_res_false _ _ OpenS s Is)) as F.
    apply bind_Ok_inv in F as (st & Hst & F). injection F as F%negb_false_iff.
    apply equals_true in F as ->. by apply item_Ok in Hst.
Qed.

Lemma green_required_is_green_witness :
  exists runs, json_lines (ticks "{'name':'build','status':'completed','conclusion':'skipped'}") = Ok runs
    /\ forall r, r ∈ runs -> has_text "name" "build" r -> run_green r.
Proof.
  destruct (green_required_is_green ["build"]
              (ticks "{'name':'build','status':'completed','conclusion':'skipped'}") "")
    as (runs & statuses & A & _ & B).
  - vm_compute. reflexivity.
  - exists runs. split; [exact A|]. exact (proj1 (proj2 (B "build" (list_elem_of_here _ _)))).
Defined.

(** ** Human approval *)

(** A review of [login] that counts. *)
Definition decisive (login : string) (review : dict) : Prop :=
  dget "login" review = Some (JStr login)
  /\ exists st, dget "state" review = Some (JStr st) /\ st ∈ _DECISIVE_STATES.

Definition text_keys (d : list (json * dict)) : list string :=
  omap (fun e => match e.1 with JStr s => Some s | _ => None end) d.

Lemma text_key_elem x r (d : list (json * dict)) : (JStr x, r) ∈ d -> x ∈ text_keys d.
Proof. intros I. apply list_elem_of_omap. by exists (JStr x, r). Qed.

Lemma put_text k row d d' : NoDup (text_keys d) -> put_row (JStr k) row d = Ok d' ->
  (forall x, x ∈ text_keys d' <-> x = k \/ x ∈ text_keys d) /\ NoDup (text_keys d')
  /\ forall x r, (JStr x, r) ∈ d' <-> (x = k /\ r = row) \/ (x <> k /\ (JStr x, r) ∈ d).
Proof.
  revert d'. induction d as [|[k' row'] d IH]; intros d' N R; cbn [put_row] in R.
  - injection R as <-. cbn. split; [|split].
    + intros x. rewrite list_elem_of_singleton, elem_of_nil. tauto.
    + apply NoDup_singleton.
    + intros x r. rewrite list_elem_of_singleton, elem_of_nil. split; [intros [= -> ->]; by left|].
      by intros [[-> ->]|[_ []]].
  - destruct (py_eq (JStr k) k') as [[]|] eqn:E; cbn in R; [|..|done].
    + injection R as <-. destruct k' as [| | |s| |]; try done. cbn in E. injection E as ->%String.eqb_eq.
      cbn in N |- *. apply NoDup_cons in N as [Nk N]. split; [|split].
      * intros x. rewrite elem_of_cons. tauto.
      * by apply NoDup_cons.
      * intros x r. rewrite !elem_of_cons. split.
        -- intros [[= -> ->]|I]; [by left|]. right. split; [intros ->; by apply text_key_elem in I | by right].
        -- intros [[-> ->]|[Ne [[= -> _]|I]]]; [by left | done | by right].
    + destruct (put_row (JStr k) row d) as [d1|] eqn:P; [|done]. injection R as <-.
      assert (k' <> JStr k) as Nk.
      { intros ->. cbn in E. by rewrite String.eqb_refl in E. }
      assert (NoDup (text_keys d)) as Nd.
      { destruct k'; cbn in N; try done. by apply NoDup_cons in N as [_ ?]. }
      destruct (IH d1 Nd eq_refl) as (K & N1 & M). split; [|split].
      * intros x. destruct k'; cbn; rewrite ?elem_of_cons, K; tauto.
      * destruct k' as [| | |s| |]; cbn; try done. cbn in N. apply NoDup_cons in N as [Ns _].
        apply NoDup_cons. split; [|done]. rewrite K. intros [->|?]; done.
      * intros x r. rewrite !elem_of_cons, M. split.
        -- intros [[= <- <-]|[?|[? ?]]]; [right | by left | right]; (split; [|auto]); congruence.
        -- intros [?|[? [?|?]]]; auto.
Qed.

Lemma put_other k row d d' : (forall s, k <> JStr s) -> put_row k row d = Ok d' ->
  text_keys d' = text_keys d /\ forall x r, (JStr x, r) ∈ d' <-> (JStr x, r) ∈ d.
Proof.
  intros O. revert d'. induction d as [|[k' row'] d IH]; intros d' R; cbn [put_row] in R.
  - assert (d' = [(k, row)]) as -> by (destruct k; (discriminate R || (injection R as <-; done))). split.
    + destruct k as [| | |s| |]; try done. by destruct (O s).
    + intros x r. rewrite list_elem_of_singleton, elem_of_nil. split; [|done]. intros [= E _]. by destruct (O x).
  - assert ((let! same := py_eq k k' in
             if same : bool then Ok ((k', row) :: d) else let! d'' := put_row k row d in Ok ((k', row') :: d''))
            = Ok d') as R' by (by destruct k). clear R.
    destruct (py_eq k k') as [[]|] eqn:E; cbn in R'; [|..|done].
    + injection R' as <-. assert (forall s, k' <> JStr s) as O'.
      { intros s ->. destruct k as [|[]| |s'| |]; try done. by destruct (O s'). }
      split; [destruct k' as [| | |s| |]; try done; by destruct (O' s)|].
      intros x r. rewrite !elem_of_cons. split; (intros [[= E' E2]|?]; [by destruct (O' x) | by right]).
    + destruct (put_row k row d) as [d1|] eqn:P; [|done]. injection R' as <-.
      destruct (IH d1 eq_refl) as [K M]. split; [destruct k'; first [exact K | exact (f_equal (cons _) K)]|].
      intros x r. by rewrite !elem_of_cons, M.
Qed.

Lemma fold_res_snoc {A B} (f : B -> A -> res B) acc l x :
  fold_res f acc (l ++ [x]) = (let! b := fold_res f acc l in f b x).
Proof.
  revert acc. induction l as [|y l IH]; intros acc; cbn.
  - by destruct (f acc x).
  - destruct (f acc y); cbn; [apply IH | done].
Qed.

Lemma text_or_not (k : json) : (exists s, k = JStr s) \/ forall s, k <> JStr s.
Proof. destruct k; try (by right); left; eauto. Qed.

(** Each login has one entry, its last review that counts. *)
Lemma latest_is_last rows : forall latest, latest_reviews rows = Ok latest ->
  NoDup (text_keys latest)
  /\ forall login review, (JStr login, review) ∈ latest <->
       exists a b, rows = a ++ JObj review :: b /\ decisive login review
         /\ forall later, JObj later ∈ b -> ~ decisive login later.
Proof.
  unfold latest_reviews. induction rows as [|row rows IH] using rev_ind; intros latest R.
  { injection R as <-. split; [constructor|]. intros login review. split; [by intros ?%elem_of_nil|].
    by intros ([|] & b & [=] & _). }
  rewrite fold_res_snoc in R. apply bind_Ok_inv in R as (l0 & F & R). destruct (IH l0 F) as [N M]. clear IH F.
  apply bind_Ok_inv in R as (state & Hs & R). apply item_Ok in Hs as (d & -> & Es).
  assert (forall login review, (exists a b, rows ++ [JObj d] = a ++ JObj review :: b /\ decisive login review
            /\ forall later, JObj later ∈ b -> ~ decisive login later)
          <-> (review = d /\ decisive login d)
              \/ (~ decisive login d /\ exists a b, rows = a ++ JObj review :: b /\ decisive login review
                    /\ forall later, JObj later ∈ b -> ~ decisive login later)) as Step.
  { intros login review. split.
    - intros (a & b & E & D & L). destruct b as [|y b] using rev_ind.
      + apply app_inj_tail in E as [_ [= ->]]. by left.
      + clear IHb. rewrite app_comm_cons, app_assoc in E. apply app_inj_tail in E as [E <-]. right. split.
        * apply L. apply elem_of_app. right. by apply list_elem_of_here.
        * exists a, b. split; [done|]. split; [done|]. intros later I. apply L, elem_of_app. by left.
    - intros [[-> D]|[Nd (a & b & -> & D & L)]].
      + exists rows, []. split; [done|]. split; [done|]. by intros later ?%elem_of_nil.
      + exists a, (b ++ [JObj d]). split; [by rewrite <- app_assoc|]. split; [done|].
        intros later [I|[= ->]%list_elem_of_singleton]%elem_of_app; [by apply L | done]. }
  destruct (in_set _DECISIVE_STATES state) as [[]|] eqn:In; cbn [mbind res_bind] in R; [|..|done].
  - apply in_set_true in In as (st & -> & In). apply bind_Ok_inv in R as (k & Hk & R).
    apply item_Ok in Hk as (d' & [= <-] & Ek).
    assert (forall login, decisive login d <-> k = JStr login) as Dk.
    { intros login. unfold decisive. rewrite Ek. split; [by intros [[= ->] _]|]. intros ->. eauto. }
    destruct (text_or_not k) as [[s ->]|O].
    + destruct (put_text s d l0 latest N R) as (_ & N' & M'). split; [done|].
      intros login review. rewrite M', Step, M, Dk. naive_solver.
    + destruct (put_other k d l0 latest O R) as [K M']. rewrite K. split; [done|].
      intros login review. rewrite M', Step, M, Dk. naive_solver.
  - injection R as <-. split; [done|].
    assert (forall login, ~ decisive login d) as Nd.
    { intros login (_ & st & Est & I). rewrite Es in Est. injection Est as ->.
      assert (existsb (String.eqb st) _DECISIVE_STATES = false) as In2 by (by injection In).
      clear In. rename In2 into In. rewrite existsb_false in In. apply (In st) in I. by rewrite String.eqb_refl in I. }
    intros login review. rewrite Step, M. naive_solver.
Qed.

Lemma find_res_Some {A} (f : A -> res bool) l x : find_res f l = Ok (Some x) -> x ∈ l /\ f x = Ok true.
Proof.
  induction l as [|y l IH]; cbn; [done|]. destruct (f y) as [[]|] eqn:E; cbn; [|..|done].
  - intros [= ->]. split; [by apply list_elem_of_here | done].
  - intros [I F]%IH. split; [by apply list_elem_of_further | done].
Qed.

(** C19 (safety): an approved head is the head GitHub reported, approved by a person who is
    not the author: the last review of some user other than the author, comments aside,
    approved exactly that commit, and nobody but the author has a last review that requests
    changes. *)
Theorem approval_is_of_the_head (pr_text reviews_text h : string) :
  approved_head pr_text reviews_text = Ok (Some h) ->
  exists info head author rows login review before after,
    loads pr_text = Ok (JObj info) /\ dget "head" info = Some head /\ PyData.py_str head = Ok h
    /\ dget "author" info = Some (JStr author) /\ author <> ""
    /\ json_lines reviews_text = Ok rows
    /\ rows = before ++ JObj review :: after /\ decisive login review
    /\ (forall later, JObj later ∈ after -> ~ decisive login later)
    /\ login <> "" /\ login <> author
    /\ dget "type" review = Some (JStr "User") /\ dget "state" review = Some (JStr "APPROVED")
    /\ py_eq (default JNull (dget "commit_id" review)) head = Ok true
    /\ (forall who other before' after', rows = before' ++ JObj other :: after' ->
          decisive who other -> (forall later, JObj later ∈ after' -> ~ decisive who later) ->
          dget "state" other = Some (JStr "CHANGES_REQUESTED") -> who = author).
Proof.
  unfold approved_head. intros (i & Hi & R)%bind_Ok_inv. apply bind_Ok_inv in R as (head & Hh & R).
  apply bind_Ok_inv in R as (au & Ha & R). destruct au as [| | |author| |]; try done.
  destruct (truthy head && negb (is_empty author)) eqn:T; [|done]. apply andb_true_iff in T as [T Na].
  apply bind_Ok_inv in R as (rows & Hrows & R). apply bind_Ok_inv in R as (latest & Hl & R).
  destruct (existsb _ latest) eqn:B; [done|]. apply bind_Ok_inv in R as ([[k review]|] & Hf & R); [|done].
  apply item_Ok in Hh as (info & -> & Eh). apply item_Ok in Ha as (d & [= <-] & Ea).
  apply find_res_Some in Hf as [I F]. unfold approves in F. cbn [fst snd] in F.
  destruct k as [| | |login| |]; try done.
  destruct (negb (is_empty login) && negb (String.eqb login author) && is_text "User" (dget "type" review)
            && is_text "APPROVED" (dget "state" review)) eqn:C; [|done].
  rewrite !andb_true_iff, !negb_true_iff, !is_text_true in C. destruct C as [[[C1 C2] C3] C4].
  destruct (latest_is_last rows latest Hl) as [_ L].
  destruct (proj1 (L login review) I) as (before & after & Er & D & Last).
  exists info, head, author, rows, login, review, before, after.
  split; [done|]. split; [done|]. split.
  { by destruct (PyData.py_str head); [injection R as ->|]. }
  split; [done|]. split; [by intros ->|]. do 4 (split; [done|]). split; [by intros ->|].
  split; [by apply String.eqb_neq in C2|]. do 3 (split; [done|]).
  intros who other b' a' Er' D' Last' E.
  assert ((JStr who, other) ∈ latest) as Io by (apply L; by exists b', a').
  rewrite existsb_false in B. specialize (B _ Io). unfold change_requested in B.
  cbn [fst snd] in B. rewrite (proj2 (is_text_true _ _) E), andb_true_r in B.
  apply negb_false_iff, equals_true in B. by injection B.
Qed.

Definition example_pr : string := ticks "{'head':'abc1234','author':'bot-author'}".
Definition example_reviews : string :=
  ticks "{'state':'CHANGES_REQUESTED','login':'ann','type':'User','commit_id':'abc1234'}" +:+ nl
  +:+ ticks "{'state':'APPROVED','login':'ann','type':'User','commit_id':'abc1234'}" +:+ nl
  +:+ ticks "{'state':'COMMENTED','login':'ann','type':'User','commit_id':'abc1234'}".

Lemma approval_is_of_the_head_witness :
  exists info, loads example_pr = Ok (JObj info) /\ dget "head" info = Some (JStr "abc1234").
Proof.
  destruct (approval_is_of_the_head example_pr example_reviews "abc1234")
    as (info & head & author & rows & login & review & before & after & A & B & _).
  - vm_compute. reflexivity.
  - exists info. split; [exact A|]. vm_compute in A. injection A as <-. reflexivity.
Defined.

(** ** TFactory's verdict *)

Lemma weigh_pass kinds : weigh kinds = Some "pass" ->
  kinds <> [] /\ forall k, k ∈ kinds -> k = JStr "accept" \/ k = JStr "flag".
Proof.
  unfold weigh. destruct (negb (list_truthy kinds) || _) eqn:B; [done|]. apply orb_false_iff in B as [B1 B2].
  destruct (existsb (equals "reject") kinds) eqn:Rj; [done|]. intros _. split; [by intros ->|].
  intros k I. rewrite existsb_false in B2, Rj. specialize (B2 k I). specialize (Rj k I).
  apply negb_false_iff in B2. unfold VERDICT_KINDS in B2. cbn [existsb] in B2.
  rewrite !orb_true_iff, !equals_true in B2. destruct B2 as [E|[E|[E|E]]]; [by left | by right | | done].
  by rewrite E in Rj.
Qed.

Lemma task_matches_inv project head code task : task_matches project head code task = true ->
  is_success code = true /\ head <> "" /\ has_text "project_id" project task
  /\ has_text "source_sha" head task
  /\ exists t status, task = JObj t /\ dget "status_json" t = Some status
       /\ has_text "status" "triaged" status.
Proof.
  unfold task_matches. destruct task as [| | | | |t]; try done. rewrite !andb_true_iff.
  intros [[[[S P] N] Sh] St]. rewrite is_text_true in P, Sh. split; [done|].
  split; [by intros ->|]. split; [by exists t|]. split; [by exists t|].
  destruct (dget "status_json" t) as [st|] eqn:E; [|done]. exists t, st. split; [done|]. split; [done|].
  destruct st as [| | | | |x]; try done. apply is_text_true in St. by exists x.
Qed.


(** ** Example: a task of a project, with everything green *)

Definition example_env : env_list :=
  [("AIFACTORY_BUILD_BACKEND", "kubejob"); ("DATABASE_URL", "postgres://db");
   ("TFACTORY_BASE_URL", "https://tfactory/"); ("TFACTORY_PROJECT_ID", "shop")].

Definition answer (argv : list string) : string :=
  let line := join " " argv in
  if contains "check-runs" line then
    ticks "{'name':'build','status':'completed','conclusion':'success'}"
  else if contains "check-suites" line then ""
  else if contains ".statuses[]" line then ""
  else if contains "/status" line then ticks "{'state':'pending','total_count':0}"
  else if contains "rules/branches" line then "build"
  else if contains "/branches/" line then "{}"
  else if contains ".head.sha" line then "abc1234"
  else if contains "pr create" line then "https://github.com/acme/shop/pull/7"
  else "".

Definition example_hooks : Hooks () := {|
  h_hmac := fun k x => k +:+ x;
  h_sha256 := toy_hex;
  h_repr := fun _ => "";
  h_env := example_env;
  h_run := fun _ argv s => (Ok {| rc := 0; out := answer argv; err := "" |}, s);
  h_get := fun url _ s =>
    (Ok (200%Z, if contains "verdicts.json" url
                then JObj [("verdicts", JList [JObj [("verdict", JStr "accept")]])]
                else JObj [("project_id", JStr "shop"); ("source_sha", JStr "abc1234");
                           ("status_json", JObj [("status", JStr "triaged")])]), s);
  h_db := fun _ => true;
  h_now := fun _ => 0%Q;
  h_sleep := fun _ s => s;
  h_git_lfs := false;
  h_str_exn := fun _ => "";
  h_resolve := fun _ _ raw => raw;
  h_attributes := fun _ _ => Ok None;
  h_writable := fun _ => true;
|}.
Definition example_task : Task :=
  {| tk_key := "k"; tk_id := "001-shop"; tk_resolved := []; tk_path := [] |}.
Definition example_start : St () := {|
  es_dir := {| cd_spec := {| sd_spec := None; sd_plan := PlanAbsent; sd_review := Missing;
                             sd_metadata := Missing; sd_requirements := Missing |};
               cd_contract := Missing |};
  es_receipt := false; es_receipts := ∅; es_baselines := ∅;
  es_vars := {| gv_fetched := None; gv_written := [] |}; es_world := ();
|}.

