(* ===== verification/MergeConflicts.v ===== *)
(** Conflict analysis of the intent-aware merge (apps/backend/merge/types.py,
    compatibility_rules.py, conflict_analysis.py): the classification of changes, the
    compatibility rules and their index, and the conflicts found at each location. *)
From S2P Require Import Prelude PyData.

(** ** Types (types.py) *)

Inductive ChangeType :=
  | ADD_IMPORT | REMOVE_IMPORT | MODIFY_IMPORT | ADD_FUNCTION | REMOVE_FUNCTION
  | MODIFY_FUNCTION | RENAME_FUNCTION | ADD_HOOK_CALL | REMOVE_HOOK_CALL | WRAP_JSX
  | UNWRAP_JSX | ADD_JSX_ELEMENT | MODIFY_JSX_PROPS | ADD_VARIABLE | REMOVE_VARIABLE
  | MODIFY_VARIABLE | ADD_CONSTANT | ADD_CLASS | REMOVE_CLASS | MODIFY_CLASS
  | ADD_METHOD | REMOVE_METHOD | MODIFY_METHOD | ADD_PROPERTY | ADD_TYPE | MODIFY_TYPE
  | ADD_INTERFACE | MODIFY_INTERFACE | ADD_DECORATOR | REMOVE_DECORATOR | ADD_COMMENT
  | MODIFY_COMMENT | FORMATTING_ONLY | UNKNOWN.

#[export] Instance change_type_eq_dec : EqDecision ChangeType.
Proof. solve_decision. Defined.

Definition change_type_value (c : ChangeType) : string :=
  match c with
  | ADD_IMPORT => "add_import" | REMOVE_IMPORT => "remove_import"
  | MODIFY_IMPORT => "modify_import" | ADD_FUNCTION => "add_function"
  | REMOVE_FUNCTION => "remove_function" | MODIFY_FUNCTION => "modify_function"
  | RENAME_FUNCTION => "rename_function" | ADD_HOOK_CALL => "add_hook_call"
  | REMOVE_HOOK_CALL => "remove_hook_call" | WRAP_JSX => "wrap_jsx"
  | UNWRAP_JSX => "unwrap_jsx" | ADD_JSX_ELEMENT => "add_jsx_element"
  | MODIFY_JSX_PROPS => "modify_jsx_props" | ADD_VARIABLE => "add_variable"
  | REMOVE_VARIABLE => "remove_variable" | MODIFY_VARIABLE => "modify_variable"
  | ADD_CONSTANT => "add_constant" | ADD_CLASS => "add_class"
  | REMOVE_CLASS => "remove_class" | MODIFY_CLASS => "modify_class"
  | ADD_METHOD => "add_method" | REMOVE_METHOD => "remove_method"
  | MODIFY_METHOD => "modify_method" | ADD_PROPERTY => "add_property"
  | ADD_TYPE => "add_type" | MODIFY_TYPE => "modify_type"
  | ADD_INTERFACE => "add_interface" | MODIFY_INTERFACE => "modify_interface"
  | ADD_DECORATOR => "add_decorator" | REMOVE_DECORATOR => "remove_decorator"
  | ADD_COMMENT => "add_comment" | MODIFY_COMMENT => "modify_comment"
  | FORMATTING_ONLY => "formatting_only" | UNKNOWN => "unknown"
  end.

#[export, program] Instance change_type_enum : PyEnum ChangeType := {|
  members := [ADD_IMPORT; REMOVE_IMPORT; MODIFY_IMPORT; ADD_FUNCTION; REMOVE_FUNCTION;
    MODIFY_FUNCTION; RENAME_FUNCTION; ADD_HOOK_CALL; REMOVE_HOOK_CALL; WRAP_JSX;
    UNWRAP_JSX; ADD_JSX_ELEMENT; MODIFY_JSX_PROPS; ADD_VARIABLE; REMOVE_VARIABLE;
    MODIFY_VARIABLE; ADD_CONSTANT; ADD_CLASS; REMOVE_CLASS; MODIFY_CLASS; ADD_METHOD;
    REMOVE_METHOD; MODIFY_METHOD; ADD_PROPERTY; ADD_TYPE; MODIFY_TYPE; ADD_INTERFACE;
    MODIFY_INTERFACE; ADD_DECORATOR; REMOVE_DECORATOR; ADD_COMMENT; MODIFY_COMMENT;
    FORMATTING_ONLY; UNKNOWN];
  value := change_type_value |}.
Solve All Obligations with solve_enum.

Inductive ConflictSeverity :=
  | NONE | LOW | MEDIUM | HIGH | CRITICAL.

#[export] Instance severity_eq_dec : EqDecision ConflictSeverity.
Proof. solve_decision. Defined.

Definition severity_value (c : ConflictSeverity) : string :=
  match c with
  | NONE => "none" | LOW => "low" | MEDIUM => "medium" | HIGH => "high"
  | CRITICAL => "critical"
  end.

#[export, program] Instance severity_enum : PyEnum ConflictSeverity := {|
  members := [NONE; LOW; MEDIUM; HIGH; CRITICAL];
  value := severity_value |}.
Solve All Obligations with solve_enum.

Inductive MergeStrategy :=
  | COMBINE_IMPORTS | HOOKS_FIRST | HOOKS_THEN_WRAP | APPEND_STATEMENTS
  | APPEND_FUNCTIONS | APPEND_METHODS | COMBINE_PROPS | ORDER_BY_DEPENDENCY
  | ORDER_BY_TIME | AI_REQUIRED | HUMAN_REQUIRED.

#[export] Instance strategy_eq_dec : EqDecision MergeStrategy.
Proof. solve_decision. Defined.

Definition strategy_value (c : MergeStrategy) : string :=
  match c with
  | COMBINE_IMPORTS => "combine_imports" | HOOKS_FIRST => "hooks_first"
  | HOOKS_THEN_WRAP => "hooks_then_wrap" | APPEND_STATEMENTS => "append_statements"
  | APPEND_FUNCTIONS => "append_functions" | APPEND_METHODS => "append_methods"
  | COMBINE_PROPS => "combine_props" | ORDER_BY_DEPENDENCY => "order_by_dependency"
  | ORDER_BY_TIME => "order_by_time" | AI_REQUIRED => "ai_required"
  | HUMAN_REQUIRED => "human_required"
  end.

#[export, program] Instance strategy_enum : PyEnum MergeStrategy := {|
  members := [COMBINE_IMPORTS; HOOKS_FIRST; HOOKS_THEN_WRAP; APPEND_STATEMENTS; APPEND_FUNCTIONS;
    APPEND_METHODS; COMBINE_PROPS; ORDER_BY_DEPENDENCY; ORDER_BY_TIME; AI_REQUIRED;
    HUMAN_REQUIRED];
  value := strategy_value |}.
Solve All Obligations with solve_enum.

Record SemanticChange := {
  sc_change_type : ChangeType;
  sc_target : string;
  sc_location : string;
  sc_line_start : Z;
  sc_line_end : Z;
  sc_content_before : option string;
  sc_content_after : option string;
  sc_metadata : dict;
}.

Module SemanticChange.

Definition to_dict (c : SemanticChange) : dict :=
  [("change_type", JStr (value (sc_change_type c))); ("target", JStr (sc_target c));
   ("location", JStr (sc_location c)); ("line_start", JInt (sc_line_start c));
   ("line_end", JInt (sc_line_end c)); ("content_before", JOpt (sc_content_before c));
   ("content_after", JOpt (sc_content_after c)); ("metadata", JObj (sc_metadata c))].

Definition from_dict (data : dict) : res SemanticChange :=
  let! change_type := req enum_of "change_type" data in
  let! target := req as_str "target" data in
  let! location := req as_str "location" data in
  let! line_start := req as_int "line_start" data in
  let! line_end := req as_int "line_end" data in
  let! content_before := get_opt as_str "content_before" data in
  let! content_after := get_opt as_str "content_after" data in
  let! metadata := get_or as_obj "metadata" [] data in
  Ok {| sc_change_type := change_type; sc_target := target; sc_location := location;
        sc_line_start := line_start; sc_line_end := line_end;
        sc_content_before := content_before; sc_content_after := content_after;
        sc_metadata := metadata |}.

Definition overlaps_with (a b : SemanticChange) : bool :=
  if String.eqb (sc_location a) (sc_location b) then true
  else (sc_line_start b <=? sc_line_end a)%Z && (sc_line_start a <=? sc_line_end b)%Z.

Definition is_additive (c : SemanticChange) : bool :=
  bool_decide (sc_change_type c ∈
    [ADD_IMPORT; ADD_FUNCTION; ADD_HOOK_CALL; ADD_VARIABLE; ADD_CONSTANT; ADD_CLASS;
     ADD_METHOD; ADD_PROPERTY; ADD_TYPE; ADD_INTERFACE; ADD_DECORATOR; ADD_JSX_ELEMENT;
     ADD_COMMENT]).

End SemanticChange.

(** The summary sets of an analysis are not read by the conflict analysis. *)
Record FileAnalysis := {
  fa_file_path : string;
  fa_changes : list SemanticChange;
}.

Module FileAnalysis.

Definition get_changes_at_location (location : string) (f : FileAnalysis)
  : list SemanticChange :=
  keep (fun c => String.eqb (sc_location c) location) (fa_changes f).

Definition is_additive_only (f : FileAnalysis) : bool :=
  forallb SemanticChange.is_additive (fa_changes f).

Definition locations_changed (f : FileAnalysis) : gset string :=
  list_to_set (sc_location <$> fa_changes f).

End FileAnalysis.

Record ConflictRegion := {
  cr_file_path : string;
  cr_location : string;
  cr_tasks_involved : list string;
  cr_change_types : list ChangeType;
  cr_severity : ConflictSeverity;
  cr_can_auto_merge : bool;
  cr_merge_strategy : option MergeStrategy;
  cr_reason : string;
}.

Module ConflictRegion.

Definition to_dict (r : ConflictRegion) : dict :=
  [("file_path", JStr (cr_file_path r)); ("location", JStr (cr_location r));
   ("tasks_involved", JStrs (cr_tasks_involved r));
   ("change_types", JList (JStr ∘ value <$> cr_change_types r));
   ("severity", JStr (value (cr_severity r))); ("can_auto_merge", JBool (cr_can_auto_merge r));
   ("merge_strategy", JOpt (value <$> cr_merge_strategy r)); ("reason", JStr (cr_reason r))].

(** [MergeStrategy(v) if data.get("merge_strategy") else None] *)
Definition strategy_field (data : dict) : res (option MergeStrategy) :=
  match dget "merge_strategy" data with
  | Some v => if truthy v then Some <$> enum_of v else Ok None
  | None => Ok None
  end.

Definition from_dict (data : dict) : res ConflictRegion :=
  let! file_path := req as_str "file_path" data in
  let! location := req as_str "location" data in
  let! tasks := req as_strs "tasks_involved" data in
  let! type_data := req as_iter "change_types" data in
  let! change_types := mapM enum_of type_data in
  let! severity := req enum_of "severity" data in
  let! can_auto_merge := req as_bool "can_auto_merge" data in
  let! merge_strategy := strategy_field data in
  let! reason := get_or as_str "reason" "" data in
  Ok {| cr_file_path := file_path; cr_location := location; cr_tasks_involved := tasks;
        cr_change_types := change_types; cr_severity := severity;
        cr_can_auto_merge := can_auto_merge; cr_merge_strategy := merge_strategy;
        cr_reason := reason |}.

End ConflictRegion.

(** ** Compatibility rules (compatibility_rules.py) *)

Record CompatibilityRule := {
  ru_change_type_a : ChangeType;
  ru_change_type_b : ChangeType;
  ru_compatible : bool;
  ru_strategy : option MergeStrategy;
  ru_reason : string;
  ru_bidirectional : bool;
}.

(** [CompatibilityRule(...)] with the default [bidirectional]. *)
Definition rule (a b : ChangeType) (compatible : bool) (s : MergeStrategy) (reason : string)
  : CompatibilityRule :=
  {| ru_change_type_a := a; ru_change_type_b := b; ru_compatible := compatible;
     ru_strategy := Some s; ru_reason := reason; ru_bidirectional := true |}.

(** IMPORT and FUNCTION rules. *)
Definition import_function_rules : list CompatibilityRule :=
  [rule ADD_IMPORT ADD_IMPORT true COMBINE_IMPORTS
     "Adding different imports is always compatible";
   rule ADD_IMPORT REMOVE_IMPORT false AI_REQUIRED
     "Import add/remove may conflict if same module";
   rule ADD_FUNCTION ADD_FUNCTION true APPEND_FUNCTIONS
     "Adding different functions is compatible";
   rule ADD_FUNCTION MODIFY_FUNCTION true APPEND_FUNCTIONS
     "Adding a function doesn't affect modifications to other functions";
   rule MODIFY_FUNCTION MODIFY_FUNCTION false AI_REQUIRED
     "Multiple modifications to same function need analysis"].

(** REACT HOOK and JSX rules. *)
Definition react_rules : list CompatibilityRule :=
  [rule ADD_HOOK_CALL ADD_HOOK_CALL true ORDER_BY_DEPENDENCY
     "Multiple hooks can be added with correct ordering";
   rule ADD_HOOK_CALL WRAP_JSX true HOOKS_THEN_WRAP
     "Hooks are added at function start, wrap is on return";
   rule ADD_HOOK_CALL MODIFY_FUNCTION true HOOKS_FIRST
     "Hooks go at start, other modifications likely elsewhere";
   rule WRAP_JSX WRAP_JSX true ORDER_BY_DEPENDENCY
     "Multiple wraps can be nested in correct order";
   rule WRAP_JSX ADD_JSX_ELEMENT true APPEND_STATEMENTS
     "Wrapping and adding elements are independent";
   rule MODIFY_JSX_PROPS MODIFY_JSX_PROPS true COMBINE_PROPS
     "Props can usually be combined if different"].

(** CLASS and VARIABLE rules. *)
Definition class_variable_rules : list CompatibilityRule :=
  [rule ADD_METHOD ADD_METHOD true APPEND_METHODS
     "Adding different methods is compatible";
   rule MODIFY_METHOD MODIFY_METHOD false AI_REQUIRED
     "Multiple modifications to same method need analysis";
   rule ADD_CLASS MODIFY_CLASS true APPEND_FUNCTIONS
     "New classes don't conflict with modifications";
   rule ADD_VARIABLE ADD_VARIABLE true APPEND_STATEMENTS
     "Adding different variables is compatible";
   rule ADD_CONSTANT ADD_VARIABLE true APPEND_STATEMENTS
     "Constants and variables are independent"].

(** TYPE, DECORATOR and COMMENT rules. *)
Definition type_comment_rules : list CompatibilityRule :=
  [rule ADD_TYPE ADD_TYPE true APPEND_FUNCTIONS
     "Adding different types is compatible";
   rule ADD_INTERFACE ADD_INTERFACE true APPEND_FUNCTIONS
     "Adding different interfaces is compatible";
   rule MODIFY_INTERFACE MODIFY_INTERFACE false AI_REQUIRED
     "Multiple interface modifications need analysis";
   rule ADD_DECORATOR ADD_DECORATOR true ORDER_BY_DEPENDENCY
     "Decorators can be stacked with correct order";
   rule ADD_COMMENT ADD_COMMENT true APPEND_STATEMENTS
     "Comments are independent";
   rule FORMATTING_ONLY FORMATTING_ONLY true ORDER_BY_TIME
     "Formatting doesn't affect semantics"].

Definition build_default_rules : list CompatibilityRule :=
  import_function_rules ++ react_rules ++ class_variable_rules ++ type_comment_rules.

(** The index, through its lookup. *)
Definition rule_index : Type := ChangeType -> ChangeType -> option CompatibilityRule.

(** [index[(a, b)] = rule] *)
Definition index_set (a b : ChangeType) (r : CompatibilityRule) (index : rule_index)
  : rule_index :=
  fun x y => if bool_decide (x = a) && bool_decide (y = b) then Some r else index x y.

Definition index_rule (index : rule_index) (r : CompatibilityRule) : rule_index :=
  let index := index_set (ru_change_type_a r) (ru_change_type_b r) r index in
  if ru_bidirectional r && negb (bool_decide (ru_change_type_a r = ru_change_type_b r))
  then index_set (ru_change_type_b r) (ru_change_type_a r) r index
  else index.

Definition index_rules (rules : list CompatibilityRule) : rule_index :=
  foldl index_rule (fun _ _ => None) rules.

(** ** Conflict analysis (conflict_analysis.py) *)

(** [sorted(ranges)]: tuples compare lexicographically. *)
Definition range_le (a b : Z * Z) : bool :=
  (a.1 <? b.1)%Z || ((a.1 =? b.1)%Z && (a.2 <=? b.2)%Z).

Fixpoint adjacent_overlap (l : list (Z * Z)) : bool :=
  match l with
  | a :: (b :: _) as l' => (b.1 <=? a.2)%Z || adjacent_overlap l'
  | _ => false
  end.

Definition ranges_overlap (ranges : list (Z * Z)) : bool :=
  adjacent_overlap (sort_by range_le ranges).

Definition modify_types : list ChangeType := [MODIFY_FUNCTION; MODIFY_METHOD; MODIFY_CLASS].
Definition structural_types : list ChangeType :=
  [WRAP_JSX; UNWRAP_JSX; REMOVE_FUNCTION; REMOVE_CLASS].

Definition assess_severity (change_types : list ChangeType) (changes : list SemanticChange)
  : ConflictSeverity :=
  let modify_count := countb (fun ct => bool_decide (ct ∈ modify_types)) change_types in
  if (2 <=? modify_count)
     && ranges_overlap ((fun c => (sc_line_start c, sc_line_end c)) <$> changes)
  then CRITICAL
  else if existsb (fun ct => bool_decide (ct ∈ structural_types)) change_types then HIGH
  else if 1 <=? modify_count then MEDIUM
  else LOW.

(** The accumulators of the pairwise loop: [all_compatible], [final_strategy],
    [reasons]. *)
Definition pair_acc : Type := bool * option MergeStrategy * list string.

Definition check_pair (index : rule_index) (acc : pair_acc) (a b : ChangeType) : pair_acc :=
  let '(all_compatible, final_strategy, reasons) := acc in
  match index a b with
  | Some r =>
      if negb (ru_compatible r) then (false, final_strategy, reasons ++ [ru_reason r])
      else match ru_strategy r with
           | Some s => (all_compatible, Some s, reasons)
           | None => acc
           end
  | None =>
      (false, final_strategy, reasons ++ ["No rule for " +:+ value a +:+ " + " +:+ value b])
  end.

Fixpoint check_pairs (index : rule_index) (acc : pair_acc) (types : list ChangeType)
  : pair_acc :=
  match types with
  | [] => acc
  | a :: rest => check_pairs index (foldl (fun acc b => check_pair index acc a b) acc rest) rest
  end.

(** [len({c.target for c in changes}) > 1] *)
Definition many_targets (changes : list SemanticChange) : bool :=
  1 <? size (list_to_set (sc_target <$> changes) : gset string).

Definition analyze_location_conflict (file_path location : string)
    (task_changes : list (string * SemanticChange)) (index : rule_index)
  : option ConflictRegion :=
  let changes := task_changes.*2 in
  let change_types := sc_change_type <$> changes in
  if many_targets changes then None
  else
    let '(all_compatible, final_strategy, reasons) :=
      check_pairs index (true, None, []) change_types in
    Some {| cr_file_path := file_path; cr_location := location;
            cr_tasks_involved := task_changes.*1; cr_change_types := change_types;
            cr_severity :=
              if all_compatible then NONE else assess_severity change_types changes;
            cr_can_auto_merge := all_compatible;
            cr_merge_strategy := if all_compatible then final_strategy else Some AI_REQUIRED;
            cr_reason :=
              if list_truthy reasons then join " | " reasons else "Changes are compatible" |}.

(** A checker that finds nothing yet. *)
Definition detect_implicit_conflicts (task_analyses : list (string * FileAnalysis))
  : list ConflictRegion := [].

(** [location_changes[loc].append((task_id, change))] on an ordered dictionary of
    lists. *)
Fixpoint group_add (loc : string) (x : string * SemanticChange)
    (groups : list (string * list (string * SemanticChange)))
  : list (string * list (string * SemanticChange)) :=
  match groups with
  | [] => [(loc, [x])]
  | (l, xs) :: rest =>
      if String.eqb loc l then (l, xs ++ [x]) :: rest else (l, xs) :: group_add loc x rest
  end.

Definition all_changes (task_analyses : list (string * FileAnalysis))
  : list (string * SemanticChange) :=
  concat ((fun ta => pair ta.1 <$> fa_changes ta.2) <$> task_analyses).

Definition group_changes (task_analyses : list (string * FileAnalysis))
  : list (string * list (string * SemanticChange)) :=
  foldl (fun groups x => group_add (sc_location x.2) x groups) [] (all_changes task_analyses).

(** The analyses are those of a dictionary: task ids are distinct. *)
Definition detect_conflicts (task_analyses : list (string * FileAnalysis)) (index : rule_index)
  : list ConflictRegion :=
  match task_analyses with
  | [] | [_] => []
  | (_, first) :: _ =>
      omap (fun g =>
              if length g.2 <=? 1 then None
              else analyze_location_conflict (fa_file_path first) g.1 g.2 index)
        (group_changes task_analyses)
      ++ detect_implicit_conflicts task_analyses
  end.

Definition analyze_compatibility (a b : SemanticChange) (index : rule_index)
  : bool * option MergeStrategy * string :=
  match index (sc_change_type a) (sc_change_type b) with
  | Some r => (ru_compatible r, ru_strategy r, ru_reason r)
  | None => (false, Some AI_REQUIRED, "No compatibility rule defined")
  end.

(** ** Lemmas *)

(** The pair of types has a rule that lets it merge. *)
Definition compat (index : rule_index) (a b : ChangeType) : bool :=
  match index a b with Some r => ru_compatible r | None => false end.

Lemma check_pair_compat index acc a b :
  (check_pair index acc a b).1.1 = acc.1.1 && compat index a b
  /\ (compat index a b = true -> (check_pair index acc a b).2 = acc.2)
  /\ (compat index a b = false -> (check_pair index acc a b).2 <> []).
Proof.
  destruct acc as [[ok st] rs]. unfold check_pair, compat. destruct (index a b) as [r|]; cbn.
  - destruct (ru_compatible r); cbn.
    + destruct (ru_strategy r); cbn; rewrite andb_true_r; done.
    + rewrite andb_false_r. repeat split; [done|]. intros _ E. by apply app_nil in E as [_ ?].
  - rewrite andb_false_r. repeat split; [done|]. intros _ E. by apply app_nil in E as [_ ?].
Qed.

Lemma check_row_compat index a rest acc :
  let acc' := foldl (fun acc b => check_pair index acc a b) acc rest in
  acc'.1.1 = acc.1.1 && forallb (compat index a) rest
  /\ (forallb (compat index a) rest = true -> acc'.2 = acc.2).
Proof.
  revert acc. induction rest as [|b rest IH]; intros acc; cbn; [by rewrite andb_true_r|].
  destruct (IH (check_pair index acc a b)) as [H1 H2].
  destruct (check_pair_compat index acc a b) as (E1 & E2 & _).
  rewrite H1, E1, andb_assoc. split; [done|]. intros Ha. bprop. rewrite H2, E2; done.
Qed.

Lemma check_pairs_compat index types acc :
  (check_pairs index acc types).1.1 = acc.1.1 && all_pairs (compat index) types
  /\ (all_pairs (compat index) types = true -> (check_pairs index acc types).2 = acc.2).
Proof.
  revert acc. induction types as [|a rest IH]; intros acc; cbn; [by rewrite andb_true_r|].
  destruct (check_row_compat index a rest acc) as [E1 E2].
  destruct (IH (foldl (fun acc b => check_pair index acc a b) acc rest)) as [H1 H2].
  rewrite H1, E1, andb_assoc. split; [done|]. intros Ha. bprop. rewrite H2, E2; done.
Qed.

(** The decision of [analyze_location_conflict], without its texts. *)
Lemma analyze_cases file loc l index :
  let changes := l.*2 in
  let types := sc_change_type <$> changes in
  (many_targets changes = true /\ analyze_location_conflict file loc l index = None)
  \/ (many_targets changes = false /\ exists r,
      analyze_location_conflict file loc l index = Some r
      /\ cr_can_auto_merge r = all_pairs (compat index) types
      /\ cr_severity r = (if all_pairs (compat index) types then NONE
                          else assess_severity types changes)
      /\ (all_pairs (compat index) types = false -> cr_merge_strategy r = Some AI_REQUIRED)
      /\ (all_pairs (compat index) types = true -> cr_reason r = "Changes are compatible")).
Proof.
  cbn zeta. unfold analyze_location_conflict.
  destruct (many_targets l.*2); [by left|]. right. split; [done|].
  destruct (check_pairs_compat index (sc_change_type <$> l.*2) (true, None, [])) as [H1 H2].
  destruct (check_pairs index (true, None, []) (sc_change_type <$> l.*2)) as [[ok st] rs].
  cbn in H1, H2. rewrite <- H1 in *. eexists. split; [done|]. cbn.
  repeat split; [by intros -> |]. intros Hok. by rewrite H2.
Qed.

Lemma many_targets_spec changes :
  many_targets changes = true <->
  exists a b, a ∈ changes /\ b ∈ changes /\ sc_target a <> sc_target b.
Proof.
  unfold many_targets. rewrite Nat.ltb_lt. set (X := list_to_set _ : gset string).
  assert (HX : forall t, t ∈ X <-> exists c, c ∈ changes /\ sc_target c = t).
  { intros t. unfold X. rewrite elem_of_list_to_set, list_elem_of_fmap. naive_solver. }
  clearbody X. split.
  - intros Hs.
    assert (exists a, a ∈ changes) as (a & Ha).
    { destruct changes as [|a rest]; [|exists a; apply list_elem_of_here].
      assert (X = ∅) as ->; [|rewrite size_empty in Hs; lia].
      apply elem_of_equiv_empty_L. intros t Ht. apply HX in Ht as (c & Hc & _).
      by apply elem_of_nil in Hc. }
    destruct (decide (X ⊆ {[sc_target a]})) as [Hsub|Hsub].
    + apply subseteq_size in Hsub. rewrite size_singleton in Hsub. lia.
    + assert (exists t, t ∈ X ∖ {[sc_target a]}) as (t & Ht).
      { apply set_choose_L. intros He. apply Hsub. intros t Ht.
        destruct (decide (t ∈ ({[sc_target a]} : gset string))) as [|Hn]; [done|].
        exfalso. apply (not_elem_of_empty (C := gset string) t). rewrite <- He.
        by apply elem_of_difference. }
      apply elem_of_difference in Ht as [Ht Hne]. apply HX in Ht as (b & Hb & <-).
      exists a, b. split; [done|]. split; [done|]. intros Heq. apply Hne.
      rewrite Heq. by apply elem_of_singleton.
  - intros (a & b & Ha & Hb & Hne).
    assert (Hsub : {[sc_target a; sc_target b]} ⊆ X).
    { intros t Ht. apply HX. apply elem_of_union in Ht as [Ht|Ht];
        apply elem_of_singleton in Ht as ->; eauto. }
    apply subseteq_size in Hsub. rewrite size_union, !size_singleton in Hsub; [lia|].
    intros t H1 H2. apply elem_of_singleton in H1, H2. congruence.
Qed.

(** *** Ranges *)

Definition disjoint_ranges (a b : Z * Z) : Prop := (a.2 < b.1 \/ b.2 < a.1)%Z.

Lemma range_le_trans a b c : range_le a b = true -> range_le b c = true -> range_le a c = true.
Proof.
  unfold range_le. rewrite !orb_true_iff, !andb_true_iff, !Z.ltb_lt, !Z.eqb_eq, !Z.leb_le. lia.
Qed.
Lemma range_le_total a b : range_le a b = false -> range_le b a = true.
Proof.
  unfold range_le. rewrite orb_false_iff, andb_false_iff, orb_true_iff, andb_true_iff.
  rewrite !Z.ltb_lt, !Z.ltb_ge, !Z.eqb_eq, !Z.eqb_neq, !Z.leb_le, !Z.leb_gt. lia.
Qed.
Lemma range_le_antisym a b : range_le a b = true -> range_le b a = true -> a = b.
Proof.
  destruct a as [a1 a2], b as [b1 b2]. unfold range_le. cbn.
  rewrite !orb_true_iff, !andb_true_iff, !Z.ltb_lt, !Z.eqb_eq, !Z.leb_le.
  intros. f_equal; lia.
Qed.

Lemma adjacent_overlap_spec l :
  StronglySorted (fun a b => range_le a b = true) l -> Forall (fun r => (r.1 <= r.2)%Z) l ->
  adjacent_overlap l = false <-> ForallOrdPairs disjoint_ranges l.
Proof.
  intros Hs Hw. induction l as [|a [|b l] IH]; cbn [adjacent_overlap].
  - split; [constructor | done].
  - split; [repeat constructor | done].
  - apply StronglySorted_inv in Hs as [Hs Ha]. apply Forall_cons in Hw as [Hwa Hw].
    specialize (IH Hs Hw). apply StronglySorted_inv in Hs as [Hs Hb].
    rewrite orb_false_iff, IH, Z.leb_gt. split.
    + intros [Hab Hp]. constructor; [|done]. constructor; [by left|].
      rewrite Forall_forall in Hb |- *. intros c Hc. left. specialize (Hb c Hc).
      unfold range_le in Hb. apply orb_true_iff in Hb.
      rewrite andb_true_iff, Z.ltb_lt, Z.eqb_eq in Hb. lia.
    + intros Hp. inversion Hp as [|? ? Hd Hp']; subst. split; [|done].
      rewrite Forall_cons in Hd, Ha. destruct Hd as [Hd _], Ha as [Ha _].
      unfold range_le in Ha. apply orb_true_iff in Ha.
      rewrite andb_true_iff, Z.ltb_lt, Z.eqb_eq in Ha.
      apply Forall_cons in Hw as [Hwb _]. unfold disjoint_ranges in Hd. lia.
Qed.

Lemma ranges_overlap_perm l k : l ≡ₚ k -> ranges_overlap l = ranges_overlap k.
Proof.
  intros Hp. unfold ranges_overlap. f_equal. apply sort_by_perm_eq; [..|done].
  - apply range_le_trans.
  - apply range_le_total.
  - apply range_le_antisym.
Qed.

(** *** Order of the tasks *)

Definition symmetric_index (index : rule_index) : Prop := forall a b, index a b = index b a.

Lemma index_rule_symmetric index r :
  symmetric_index index -> ru_bidirectional r = true -> symmetric_index (index_rule index r).
Proof.
  intros Hs Hb a b. unfold index_rule. rewrite Hb. unfold index_set.
  destruct (bool_decide (ru_change_type_a r = ru_change_type_b r)) eqn:E; cbn; bprop;
    repeat case_bool_decide; subst; cbn; try done; try congruence; apply Hs.
Qed.

Lemma index_rules_symmetric rules :
  Forall (fun r => ru_bidirectional r = true) rules -> symmetric_index (index_rules rules).
Proof.
  unfold index_rules. intros H.
  assert (G : forall index, symmetric_index index -> symmetric_index (foldl index_rule index rules)).
  { induction H as [|r rules Hr _ IH]; intros index Hi; [done|]. cbn. apply IH.
    by apply index_rule_symmetric. }
  by apply G.
Qed.

Lemma default_rules_bidirectional : Forall (fun r => ru_bidirectional r = true) build_default_rules.
Proof. repeat (constructor; [reflexivity|]). constructor. Qed.

Lemma all_pairs_perm index l k :
  symmetric_index index -> l ≡ₚ k -> all_pairs (compat index) l = all_pairs (compat index) k.
Proof.
  intros Hs Hp.
  assert (Hsym : forall a b, compat index a b = true -> compat index b a = true)
    by (intros a b; unfold compat; by rewrite (Hs a b)).
  apply eq_true_iff_eq. rewrite !all_pairs_spec.
  split; apply ForallOrdPairs_perm; auto; by symmetry.
Qed.

Lemma assess_severity_perm changes changes' :
  changes ≡ₚ changes' ->
  assess_severity (sc_change_type <$> changes) changes
  = assess_severity (sc_change_type <$> changes') changes'.
Proof.
  intros Hp. unfold assess_severity.
  assert (Ht : sc_change_type <$> changes ≡ₚ sc_change_type <$> changes') by by rewrite Hp.
  rewrite (countb_perm _ _ _ Ht).
  rewrite (ranges_overlap_perm ((fun c => (sc_line_start c, sc_line_end c)) <$> changes)
             ((fun c => (sc_line_start c, sc_line_end c)) <$> changes')) by by rewrite Hp.
  assert (Hex : forall f : ChangeType -> bool,
    existsb f (sc_change_type <$> changes) = existsb f (sc_change_type <$> changes')).
  { intros f. apply eq_true_iff_eq. rewrite !existsb_spec. by setoid_rewrite Ht. }
  by rewrite Hex.
Qed.

Lemma many_targets_perm changes changes' :
  changes ≡ₚ changes' -> many_targets changes = many_targets changes'.
Proof.
  intros Hp. apply eq_true_iff_eq. rewrite !many_targets_spec. by setoid_rewrite Hp.
Qed.

Lemma SemanticChange_reload c : SemanticChange.from_dict (SemanticChange.to_dict c) = Ok c.
Proof.
  unfold SemanticChange.from_dict. read_back SemanticChange.to_dict. read_fields. by destruct c.
Qed.

Lemma ConflictRegion_reload r : ConflictRegion.from_dict (ConflictRegion.to_dict r) = Ok r.
Proof.
  unfold ConflictRegion.from_dict, ConflictRegion.strategy_field.
  read_back ConflictRegion.to_dict. cbn [as_iter]. read_fields.
  rewrite (mapM_res_fmap enum_of (JStr ∘ value))
    by (apply Forall_forall; intros; apply enum_of_value).
  cbn [mbind res_bind]. destruct r as [? ? ? ? ? ? [s|] ?]; cbn [cr_merge_strategy fmap option_fmap option_map JOpt].
  - replace (truthy (JStr (value s))) with true by by destruct s.
    rewrite enum_of_value. reflexivity.
  - reflexivity.
Qed.

(** Two tasks rewrite one function on the same lines; a third touches another target of
    the location. *)
Definition change (t : ChangeType) (target location : string) (a b : Z) : SemanticChange :=
  {| sc_change_type := t; sc_target := target; sc_location := location; sc_line_start := a;
     sc_line_end := b; sc_content_before := None; sc_content_after := None;
     sc_metadata := [] |}.
Definition clashing : list (string * SemanticChange) :=
  [("t1", change MODIFY_FUNCTION "main" "function:main" 10 20);
   ("t2", change MODIFY_FUNCTION "main" "function:main" 15 30)].
Definition bystander : string * SemanticChange :=
  ("t3", change ADD_VARIABLE "limit" "function:main" 40 40).

(** ** Properties *)

(** What the analysis of a location decides.  It reports nothing exactly
    when two changes have different targets.  Otherwise the region can be merged
    automatically exactly when every pair of changes has a rule that is compatible; its
    severity is NONE exactly then; without it the strategy is AI_REQUIRED, and the
    severity is CRITICAL exactly when at least two changes modify code and two line
    ranges overlap. *)
Theorem location_conflict_decision (file loc : string) (l : list (string * SemanticChange))
    (index : rule_index) :
  match analyze_location_conflict file loc l index with
  | None => exists a b, a ∈ l.*2 /\ b ∈ l.*2 /\ sc_target a <> sc_target b
  | Some r =>
      (forall a b, a ∈ l.*2 -> b ∈ l.*2 -> sc_target a = sc_target b)
      /\ (cr_can_auto_merge r = true <->
          ForallOrdPairs (fun a b => exists ru, index a b = Some ru /\ ru_compatible ru = true)
            (sc_change_type <$> l.*2))
      /\ (cr_severity r = NONE <-> cr_can_auto_merge r = true)
      /\ (cr_can_auto_merge r = false -> cr_merge_strategy r = Some AI_REQUIRED)
      /\ (cr_severity r = CRITICAL <->
          cr_can_auto_merge r = false
          /\ 2 <= countb (fun ct => bool_decide (ct ∈ modify_types)) (sc_change_type <$> l.*2)
          /\ ranges_overlap ((fun c => (sc_line_start c, sc_line_end c)) <$> l.*2) = true)
  end.
Proof.
  destruct (analyze_cases file loc l index) as [[Hm ->]|(Hm & r & -> & Hauto & Hsev & Hstrat & _)];
    [by apply many_targets_spec|].
  split.
  { intros a b Ha Hb. destruct (decide (sc_target a = sc_target b)) as [|Hn]; [done|].
    assert (many_targets l.*2 = true) by (apply many_targets_spec; eauto). congruence. }
  rewrite Hauto, Hsev. split.
  { rewrite all_pairs_spec.
    assert (Hc : forall a b, compat index a b = true <->
                 exists ru, index a b = Some ru /\ ru_compatible ru = true).
    { intros a b. unfold compat. destruct (index a b); naive_solver. }
    by apply ForallOrdPairs_iff. }
  destruct (all_pairs _ _); [by split; [|split; [|split; [|intros (? & _)]]]|].
  unfold assess_severity. split; [split; [repeat case_if; done | done]|].
  split; [by intros _; apply Hstrat|].
  destruct (2 <=? _) eqn:E2; [apply Nat.leb_le in E2 | apply Nat.leb_gt in E2]; cbn [andb].
  - destruct (ranges_overlap _); [by split|]. split; [repeat case_if; done|]. by intros (_ & _ & ?).
  - split; [repeat case_if; done|]. intros (_ & ? & _). lia.
Qed.

(** The verdict does not depend on the order of the tasks.  The index of
    the default rules is symmetric, and for it any two orders of the changes of a
    location agree on whether there is a region, whether it merges automatically, and
    how severe it is. *)
Theorem verdict_ignores_task_order (file loc : string) (l k : list (string * SemanticChange)) :
  let index := index_rules build_default_rules in
  l ≡ₚ k ->
  (forall a b, index a b = index b a)
  /\ (fun r => (cr_can_auto_merge r, cr_severity r)) <$> analyze_location_conflict file loc l index
     = (fun r => (cr_can_auto_merge r, cr_severity r)) <$> analyze_location_conflict file loc k index.
Proof.
  cbn zeta. intros Hp. set (index := index_rules build_default_rules).
  assert (Hs : symmetric_index index) by apply index_rules_symmetric, default_rules_bidirectional.
  split; [exact Hs|].
  assert (Hp2 : l.*2 ≡ₚ k.*2) by by rewrite Hp.
  pose proof (many_targets_perm _ _ Hp2) as Hm.
  assert (Ha : all_pairs (compat index) (sc_change_type <$> l.*2)
               = all_pairs (compat index) (sc_change_type <$> k.*2))
    by (apply all_pairs_perm; [done | by rewrite Hp2]).
  pose proof (assess_severity_perm _ _ Hp2) as Hv.
  destruct (analyze_cases file loc l index) as [[M1 ->]|(M1 & r1 & -> & A1 & S1 & _)];
    destruct (analyze_cases file loc k index) as [[M2 ->]|(M2 & r2 & -> & A2 & S2 & _)];
    try congruence; cbn. f_equal. rewrite A1, A2, S1, S2, Ha, Hv. done.
Qed.

(** On well-formed ranges the sort-and-scan test of [ranges_overlap] is
    the pairwise definition: it answers no exactly when every two ranges are disjoint. *)
Theorem ranges_overlap_is_pairwise (ranges : list (Z * Z)) :
  Forall (fun r => (r.1 <= r.2)%Z) ranges ->
  ranges_overlap ranges = false <->
  ForallOrdPairs (fun a b => (a.2 < b.1)%Z \/ (b.2 < a.1)%Z) ranges.
Proof.
  intros Hw. unfold ranges_overlap.
  pose proof (sort_by_perm range_le ranges) as Hp.
  rewrite adjacent_overlap_spec.
  - split; (apply ForallOrdPairs_perm; [unfold disjoint_ranges; tauto | done || by symmetry]).
  - apply sort_by_sorted; [apply range_le_trans | apply range_le_total].
  - by rewrite Hp.
Qed.

(** One change with another target hides every conflict of its location.
    Whatever the other changes are, the analysis of the location then reports nothing,
    also when two of them were reported as a CRITICAL conflict without it. *)
Theorem other_target_hides_conflict (file loc : string) (index : rule_index)
    (l : list (string * SemanticChange)) (task : string) (c : SemanticChange) :
  (exists b, b ∈ l.*2 /\ sc_target b <> sc_target c) ->
  analyze_location_conflict file loc (l ++ [(task, c)]) index = None
  /\ (let default_index := index_rules build_default_rules in
      (cr_severity <$> analyze_location_conflict "a.py" "function:main" clashing default_index)
        = Some CRITICAL
      /\ detect_conflicts
           ((fun tc => (tc.1, {| fa_file_path := "a.py"; fa_changes := [tc.2] |}))
              <$> (clashing ++ [bystander])) default_index = []).
Proof.
  intros (b & Hb & Hne). split; [|split; vm_compute; reflexivity].
  destruct (analyze_cases file loc (l ++ [(task, c)]) index) as [[_ E]|(Hm & _)]; [done|].
  assert (Ht : many_targets (l ++ [(task, c)]).*2 = true); [|congruence].
  apply many_targets_spec. exists b, c. rewrite fmap_app.
  split; [apply elem_of_app; by left|]. split; [|done].
  apply elem_of_app. right. apply list_elem_of_here.
Qed.

Lemma verdict_ignores_task_order_witness :
  [nth 0 clashing bystander; nth 1 clashing bystander] ≡ₚ [nth 1 clashing bystander; nth 0 clashing bystander]
  /\ (fun r => (cr_can_auto_merge r, cr_severity r)) <$>
       analyze_location_conflict "a.py" "function:main" clashing (index_rules build_default_rules)
     = (fun r => (cr_can_auto_merge r, cr_severity r)) <$>
       analyze_location_conflict "a.py" "function:main"
         [nth 1 clashing bystander; nth 0 clashing bystander] (index_rules build_default_rules).
Proof.
  assert (H : [nth 0 clashing bystander; nth 1 clashing bystander]
              ≡ₚ [nth 1 clashing bystander; nth 0 clashing bystander]) by apply Permutation_swap.
  split; [exact H|]. exact (proj2 (verdict_ignores_task_order "a.py" "function:main" _ _ H)).
Defined.

Lemma ranges_overlap_is_pairwise_witness :
  Forall (fun r => (r.1 <= r.2)%Z) [(1, 5); (9, 12); (5, 7)]%Z
  /\ (ranges_overlap [(1, 5); (9, 12); (5, 7)]%Z = false <->
      ForallOrdPairs (fun a b => (a.2 < b.1)%Z \/ (b.2 < a.1)%Z) [(1, 5); (9, 12); (5, 7)]%Z).
Proof.
  assert (H : Forall (fun r => (r.1 <= r.2)%Z) [(1, 5); (9, 12); (5, 7)]%Z)
    by (repeat constructor; cbn; lia).
  split; [exact H | exact (ranges_overlap_is_pairwise _ H)].
Defined.

Lemma other_target_hides_conflict_witness :
  (exists b, b ∈ clashing.*2 /\ sc_target b <> sc_target bystander.2)
  /\ analyze_location_conflict "a.py" "function:main" (clashing ++ [bystander])
       (index_rules build_default_rules) = None.
Proof.
  assert (H : exists b, b ∈ clashing.*2 /\ sc_target b <> sc_target bystander.2).
  { eexists. split; [apply list_elem_of_here | discriminate]. }
  split; [exact H|].
  exact (proj1 (other_target_hides_conflict "a.py" "function:main" _ clashing "t3" _ H)).
Defined.
