(* ===== verification/JobStore.v ===== *)
(** The durable job-state store (apps/web-server/server/services/job_state_store.py):
    admission under the concurrency cap, the FIFO queue, worker claims and terminal
    transitions, over one database table.

    A table is the list of its rows.  [admit] (here [admit_job]) and [drain] hold the service's advisory
    lock and the active rows for their whole transaction, so each operation is one atomic
    step.  Instants are integers, and an ISO 8601 string is represented by its instant.
    [ORDER BY created_at] leaves rows of equal time in table order. *)
From S2P Require Import Prelude PyData.

Definition SERVICE : string := "aifactory".
Definition KIND : string := "build".
Definition KIND_PENDING : string := "pending".
Definition ACTIVE_STATES : list string := ["queued"; "running"].

(** [bool(os.environ.get("DATABASE_URL", "").strip())] *)
Definition store_enabled (database_url : option string) : bool :=
  negb (is_empty (strip (default "" database_url))).

(** ** Spawn arguments *)

Record SpawnArgs := {
  sa_project_path : string;
  sa_spec_id : string;
  sa_auto_continue : bool;
  sa_base_branch : option string;
  sa_mode : option string;
  sa_force : bool;
  sa_user_id : string;
  sa_stop_after_planning : bool;
  sa_parallel : option bool;
  sa_workers : option Z;
}.

Module SpawnArgs.

Definition JOptB (b : option bool) : json := match b with Some b => JBool b | None => JNull end.

Definition to_json (a : SpawnArgs) : dict :=
  [("project_path", JStr (sa_project_path a)); ("spec_id", JStr (sa_spec_id a));
   ("auto_continue", JBool (sa_auto_continue a)); ("base_branch", JOpt (sa_base_branch a));
   ("mode", JOpt (sa_mode a)); ("force", JBool (sa_force a));
   ("user_id", JStr (sa_user_id a));
   ("stop_after_planning", JBool (sa_stop_after_planning a));
   ("parallel", JOptB (sa_parallel a)); ("workers", JOptZ (sa_workers a))].

(** A constructor argument without a default. *)
Definition arg {A} (dec : json -> res A) (k : string) (d : dict) : res A :=
  match dget k d with Some v => dec v | None => Err TypeError end.

Definition from_json (data : dict) : res SpawnArgs :=
  let! project_path := arg as_str "project_path" data in
  let! spec_id := arg as_str "spec_id" data in
  let! auto_continue := get_or as_bool "auto_continue" true data in
  let! base_branch := get_opt as_str "base_branch" data in
  let! mode := get_or (as_opt as_str) "mode" (Some "full") data in
  let! force := get_or as_bool "force" false data in
  let! user_id := get_or as_str "user_id" "" data in
  let! stop_after_planning := get_or as_bool "stop_after_planning" false data in
  let! parallel := get_opt as_bool "parallel" data in
  let! workers := get_opt as_int "workers" data in
  Ok {| sa_project_path := project_path; sa_spec_id := spec_id;
        sa_auto_continue := auto_continue; sa_base_branch := base_branch; sa_mode := mode;
        sa_force := force; sa_user_id := user_id;
        sa_stop_after_planning := stop_after_planning; sa_parallel := parallel;
        sa_workers := workers |}.

End SpawnArgs.

(** ** The table *)

Record JobState := {
  js_job_id : string;
  js_correlation_key : option string;
  js_service : string;
  js_kind : string;
  js_lifecycle_state : string;
  js_service_status : option string;
  js_phase : option string;
  js_attempt : option Z;
  js_admission : option dict;
  js_worker_ref : option dict;
  js_spawn_args : option dict;
  js_result : option dict;
  js_error : option string;
  js_usage : option dict;
  js_created_at : Z;
  js_updated_at : Z;
  js_ended_at : option Z;
}.

Abbreviation table := (list JobState).

(** [session.get(JobState, job_id)] *)
Definition get (job_id : string) (db : table) : option JobState :=
  List.find (fun r => String.eqb (js_job_id r) job_id) db.

(** Assignments to the attributes of the row of a job. *)
Definition update (job_id : string) (f : JobState -> JobState) (db : table) : table :=
  (fun r => if String.eqb (js_job_id r) job_id then f r else r) <$> db.

Definition in_service (states : list string) (r : JobState) : bool :=
  String.eqb (js_service r) SERVICE && bool_decide (js_lifecycle_state r ∈ states).

Definition count_running (db : table) : nat := countb (in_service ["running"]) db.
Definition queue_size (db : table) : nat := countb (in_service ["queued"]) db.

(** [ORDER BY created_at] *)
Definition by_created (a b : JobState) : bool := (js_created_at a <=? js_created_at b)%Z.
Definition rows_in (states : list string) (db : table) : list JobState :=
  sort_by by_created (keep (in_service states) db).

(** ** Row updates *)

Definition claim (now : Z) (state : string) (phase : option string) (admission worker : option dict)
    (r : JobState) : JobState :=
  {| js_job_id := js_job_id r; js_correlation_key := js_correlation_key r;
     js_service := js_service r; js_kind := js_kind r; js_lifecycle_state := state;
     js_service_status := js_service_status r; js_phase := phase;
     js_attempt := js_attempt r; js_admission := admission; js_worker_ref := worker;
     js_spawn_args := js_spawn_args r; js_result := js_result r; js_error := js_error r;
     js_usage := js_usage r; js_created_at := js_created_at r; js_updated_at := now;
     js_ended_at := js_ended_at r |}.

Definition readmit (now : Z) (state : string) (phase : option string) (key : option string)
    (admission : dict) (worker : option dict) (spawn : dict) (r : JobState) : JobState :=
  {| js_job_id := js_job_id r;
     js_correlation_key := if opt_truthy key then key else js_correlation_key r;
     js_service := js_service r; js_kind := js_kind r; js_lifecycle_state := state;
     js_service_status := js_service_status r; js_phase := phase;
     js_attempt := js_attempt r; js_admission := Some admission; js_worker_ref := worker;
     js_spawn_args := Some spawn; js_result := None; js_error := None;
     js_usage := js_usage r; js_created_at := js_created_at r; js_updated_at := now;
     js_ended_at := None |}.

Definition finish (now : Z) (state : string) (result : option dict) (error : option string)
    (usage : option dict) (status : option string) (ended : option Z) (r : JobState) : JobState :=
  {| js_job_id := js_job_id r; js_correlation_key := js_correlation_key r;
     js_service := js_service r; js_kind := js_kind r; js_lifecycle_state := state;
     js_service_status := match status with Some _ => status | None => js_service_status r end;
     js_phase := js_phase r; js_attempt := js_attempt r; js_admission := js_admission r;
     js_worker_ref := js_worker_ref r; js_spawn_args := js_spawn_args r;
     js_result := match result with Some _ => result | None => js_result r end;
     js_error := match error with Some _ => error | None => js_error r end;
     js_usage := match usage with Some _ => usage | None => js_usage r end;
     js_created_at := js_created_at r; js_updated_at := now;
     js_ended_at := match ended with Some _ => ended | None => js_ended_at r end |}.

Definition set_ref (now : Z) (ref : dict) (live : bool) (r : JobState) : JobState :=
  {| js_job_id := js_job_id r; js_correlation_key := js_correlation_key r;
     js_service := js_service r; js_kind := js_kind r;
     js_lifecycle_state := if live then "running" else js_lifecycle_state r;
     js_service_status := js_service_status r; js_phase := js_phase r;
     js_attempt := js_attempt r; js_admission := js_admission r; js_worker_ref := Some ref;
     js_spawn_args := js_spawn_args r; js_result := js_result r; js_error := js_error r;
     js_usage := js_usage r; js_created_at := js_created_at r; js_updated_at := now;
     js_ended_at := if live then None else js_ended_at r |}.

Definition set_attempt (now : Z) (attempt : option Z) (r : JobState) : JobState :=
  {| js_job_id := js_job_id r; js_correlation_key := js_correlation_key r;
     js_service := js_service r; js_kind := js_kind r;
     js_lifecycle_state := js_lifecycle_state r; js_service_status := js_service_status r;
     js_phase := js_phase r; js_attempt := attempt; js_admission := js_admission r;
     js_worker_ref := js_worker_ref r; js_spawn_args := js_spawn_args r;
     js_result := js_result r; js_error := js_error r; js_usage := js_usage r;
     js_created_at := js_created_at r; js_updated_at := now; js_ended_at := js_ended_at r |}.

(** ** Operations *)

Module JobStateStore.

Definition pending_ref : dict := [("kind", JStr KIND_PENDING)].

(** [grant = cap <= 0 or running < cap] *)
Definition grants (cap : Z) (db : table) : bool :=
  (cap <=? 0)%Z || (Z.of_nat (count_running db) <? cap)%Z.

Definition admit_job (now : Z) (job_id : string) (spawn_args : SpawnArgs) (cap : Z)
    (correlation_key : option string) (db : table) : res (table * string) :=
  let existing := get job_id db in
  match existing with
  | Some r =>
      if bool_decide (js_lifecycle_state r ∈ ACTIVE_STATES) then Err ValueError
      else
        let grant := grants cap db in
        let admission :=
          if grant then [("enqueued_at", JNull); ("queue_position", JNull); ("started_at", JInt now)]
          else [("enqueued_at", JInt now); ("queue_position", JInt (Z.of_nat (queue_size db)));
                ("started_at", JNull)] in
        Ok (update job_id
              (readmit now (if grant then "running" else "queued")
                 (if grant then Some "coding" else None) correlation_key admission
                 (if grant then Some pending_ref else None) (SpawnArgs.to_json spawn_args)) db,
            if grant then "started" else "queued")
  | None =>
      let grant := grants cap db in
      let admission :=
        if grant then [("enqueued_at", JNull); ("queue_position", JNull); ("started_at", JInt now)]
        else [("enqueued_at", JInt now); ("queue_position", JInt (Z.of_nat (queue_size db)));
              ("started_at", JNull)] in
      Ok (db ++ [{| js_job_id := job_id; js_correlation_key := correlation_key;
                    js_service := SERVICE; js_kind := KIND;
                    js_lifecycle_state := if grant then "running" else "queued";
                    js_service_status := None;
                    js_phase := if grant then Some "coding" else None;
                    js_attempt := Some 1%Z; js_admission := Some admission;
                    js_worker_ref := if grant then Some pending_ref else None;
                    js_spawn_args := Some (SpawnArgs.to_json spawn_args);
                    js_result := None; js_error := None; js_usage := None;
                    js_created_at := now; js_updated_at := now; js_ended_at := None |}],
          if grant then "started" else "queued")
  end.

Definition mark_running (now : Z) (pod boot job_id : string) (db : table) : table :=
  match get job_id db with
  | Some r =>
      if String.eqb (js_lifecycle_state r) "running" then
        let adm := default [] (js_admission r) in
        let adm := if dmem "started_at" adm then adm else dset "started_at" (JInt now) adm in
        update job_id
          (claim now "running" (Some "coding") (Some adm)
             (Some [("kind", JStr "subprocess"); ("pod", JStr pod); ("boot", JStr boot)])) db
      else db
  | None => db
  end.

(** The promotion of one queued row. *)
Definition promote (now : Z) (r : JobState) : JobState :=
  let adm := dset "queue_position" JNull
               (dset "started_at" (JInt now) (default [] (js_admission r))) in
  claim now "running" (Some "coding") (Some adm) (Some pending_ref) r.

Definition free_slots (cap : Z) (db : table) : Z :=
  if (0 <? cap)%Z then (cap - Z.of_nat (count_running db))%Z else 1000000%Z.

(** The rows [drain] selects. *)
Definition drained (cap : Z) (db : table) : list JobState :=
  take (Z.to_nat (free_slots cap db)) (rows_in ["queued"] db).

Definition spawn_of (r : JobState) : res (string * SpawnArgs) :=
  let! a := SpawnArgs.from_json (default [] (js_spawn_args r)) in Ok (js_job_id r, a).

(** An exception rolls the transaction back. *)
Definition drain (now : Z) (cap : Z) (db : table) : res (table * list (string * SpawnArgs)) :=
  if (free_slots cap db <=? 0)%Z then Ok (db, [])
  else
    let rows := drained cap db in
    let! promoted := mapM spawn_of rows in
    Ok (foldl (fun db r => update (js_job_id r) (promote now) db) db rows, promoted).

Definition mark_terminal (now : Z) (job_id lifecycle_state : string) (result : option dict)
    (error : option string) (usage : option dict) (service_status : option string)
    (db : table) : table :=
  let error :=
    if bool_decide (lifecycle_state ∈ ["failed"; "stuck"]) && negb (opt_truthy error)
    then Some "build failed (no detail captured)" else error in
  match get job_id db with
  | Some _ =>
      update job_id
        (finish now lifecycle_state result error usage service_status
           (if bool_decide (lifecycle_state ∈ ["done"; "failed"; "stuck"])
            then Some now else None)) db
  | None => db
  end.

(** [ref.get("kind") == s] *)
Definition kind_is (s : string) (ref : dict) : bool :=
  match dget "kind" ref with Some (JStr k) => String.eqb k s | _ => false end.

Definition set_worker_ref (now : Z) (job_id : string) (worker_ref : dict) (db : table) : table :=
  update job_id (set_ref now worker_ref (kind_is "k8s-job" worker_ref)) db.

Record state_view := {
  sv_job_id : string; sv_lifecycle_state : string; sv_worker_ref : dict;
  sv_result : option dict; sv_error : option string; sv_updated_at : Z }.

Definition get_state (job_id : string) (db : table) : option state_view :=
  r ← get job_id db;
  Some {| sv_job_id := js_job_id r; sv_lifecycle_state := js_lifecycle_state r;
          sv_worker_ref := default [] (js_worker_ref r); sv_result := js_result r;
          sv_error := js_error r; sv_updated_at := js_updated_at r |}.

Record kubejob := { kj_job_id : string; kj_job_name : option json; kj_namespace : option json;
                    kj_updated_at : Z }.

(** No [ORDER BY]: the rows in table order. *)
Definition get_active_kubejobs (db : table) : list kubejob :=
  omap (fun r =>
          let ref := default [] (js_worker_ref r) in
          if kind_is "k8s-job" ref || kind_is KIND_PENDING ref then
            Some {| kj_job_id := js_job_id r; kj_job_name := dget "job_name" ref;
                    kj_namespace := dget "namespace" ref; kj_updated_at := js_updated_at r |}
          else None) (keep (in_service ["running"]) db).

Definition get_running_subprocess_rows (db : table)
  : list (string * option json * option json) :=
  omap (fun r =>
          let ref := default [] (js_worker_ref r) in
          if kind_is "subprocess" ref then Some (js_job_id r, dget "pod" ref, dget "boot" ref)
          else None) (keep (in_service ["running"]) db).

(** [ref.get(k) == s] *)
Definition ref_is (k s : string) (ref : dict) : bool :=
  match dget k ref with Some (JStr v) => String.eqb v s | _ => false end.

Definition fail_subprocess_row (now : Z) (job_id pod boot error : string) (db : table)
  : table * bool :=
  match get job_id db with
  | Some r =>
      let ref := default [] (js_worker_ref r) in
      if negb (String.eqb (js_lifecycle_state r) "running") then (db, false)
      else if negb (kind_is "subprocess" ref && ref_is "pod" pod ref && ref_is "boot" boot ref)
      then (db, false)
      else (update job_id (finish now "failed" None (Some error) None None (Some now)) db, true)
  | None => (db, false)
  end.

(** [(row.attempt or 1) + 1] *)
Definition increment_attempt (now : Z) (job_id : string) (db : table) : table :=
  update job_id
    (fun r => set_attempt now
                (Some (match js_attempt r with
                       | Some n => if (n =? 0)%Z then 2 else n + 1
                       | None => 2
                       end)%Z) r) db.

Definition remove_queued (job_id : string) (db : table) : table * bool :=
  match get job_id db with
  | Some r =>
      if String.eqb (js_lifecycle_state r) "queued"
      then (keep (fun r => negb (String.eqb (js_job_id r) job_id)) db, true)
      else (db, false)
  | None => (db, false)
  end.

Definition has_state (job_id state : string) (db : table) : bool :=
  match get job_id db with Some r => String.eqb (js_lifecycle_state r) state | None => false end.
Definition is_running (job_id : string) (db : table) : bool := has_state job_id "running" db.
Definition is_queued (job_id : string) (db : table) : bool := has_state job_id "queued" db.

Definition job_ids_in (state : string) (db : table) : list string :=
  js_job_id <$> rows_in [state] db.
Definition get_running_job_ids (db : table) : list string := job_ids_in "running" db.
Definition get_queued_job_ids (db : table) : list string := job_ids_in "queued" db.

(** The running and the queued jobs, in order of creation. *)
Definition reconstruct (db : table)
  : res (list (string * SpawnArgs) * list (string * SpawnArgs)) :=
  let rows := rows_in ACTIVE_STATES db in
  let! _ := mapM spawn_of rows in
  let! running := mapM spawn_of (keep (fun r => String.eqb (js_lifecycle_state r) "running") rows) in
  let! queued := mapM spawn_of (keep (fun r => String.eqb (js_lifecycle_state r) "queued") rows) in
  Ok (running, queued).

End JobStateStore.

(** ** The store as a state machine *)

Inductive job_op :=
  | OpAdmit (job_id : string) (args : SpawnArgs) (key : option string)
  | OpMarkRunning (pod boot job_id : string)
  | OpDrain
  | OpTerminal (job_id state : string) (result : option dict) (error : option string)
      (usage : option dict) (status : option string)
  | OpWorkerRef (job_id : string) (ref : dict)
  | OpFailSubprocess (job_id pod boot error : string)
  | OpIncrement (job_id : string)
  | OpRemoveQueued (job_id : string).

(** One operation at an instant: the table after it and the jobs it started.  An
    operation that raises changes nothing. *)
Definition run_op (cap : Z) (now : Z) (op : job_op) (db : table) : table * list string :=
  match op with
  | OpAdmit i args key =>
      match JobStateStore.admit_job now i args cap key db with
      | Ok (db', s) => (db', if String.eqb s "started" then [i] else [])
      | Err _ => (db, [])
      end
  | OpMarkRunning pod boot i => (JobStateStore.mark_running now pod boot i db, [])
  | OpDrain =>
      match JobStateStore.drain now cap db with
      | Ok (db', promoted) => (db', promoted.*1)
      | Err _ => (db, [])
      end
  | OpTerminal i s result error usage status =>
      (JobStateStore.mark_terminal now i s result error usage status db, [])
  | OpWorkerRef i ref => (JobStateStore.set_worker_ref now i ref db, [])
  | OpFailSubprocess i pod boot error =>
      ((JobStateStore.fail_subprocess_row now i pod boot error db).1, [])
  | OpIncrement i => (JobStateStore.increment_attempt now i db, [])
  | OpRemoveQueued i => ((JobStateStore.remove_queued i db).1, [])
  end.

(** [mark_terminal] is called with one of the terminal states of the taxonomy. *)
Definition op_ok (op : job_op) : bool :=
  match op with
  | OpTerminal _ s _ _ _ _ => bool_decide (s ∈ ["done"; "failed"; "stuck"; "review"])
  | _ => true
  end.

(** A k8s-job reference stamped on a row that is not running. *)
Definition revives (op : job_op) (db : table) : bool :=
  match op with
  | OpWorkerRef i ref =>
      JobStateStore.kind_is "k8s-job" ref && negb (JobStateStore.is_running i db)
  | _ => false
  end.

(** Tables reachable from an empty one, with the number of revivals on the way. *)
Inductive reachable (cap : Z) : table -> nat -> Prop :=
  | reach_empty : reachable cap [] 0
  | reach_step db n now op :
      reachable cap db n -> op_ok op = true ->
      reachable cap (run_op cap now op db).1 ((if revives op db then 1 else 0) + n).

(** ** Lemmas *)

Definition ids (db : table) : list string := js_job_id <$> db.

Lemma get_Some i db r : get i db = Some r -> r ∈ db /\ js_job_id r = i.
Proof.
  unfold get. intros E. apply find_some in E as [Hin Hid].
  split; [by apply list_elem_of_In | by apply String.eqb_eq].
Qed.

Lemma get_None i db : get i db = None -> forall r, r ∈ db -> js_job_id r <> i.
Proof.
  unfold get. intros E r Hr Hid. apply find_none with (x := r) in E.
  - rewrite Hid, String.eqb_refl in E. done.
  - by apply list_elem_of_In.
Qed.

Lemma get_elem db r : NoDup (ids db) -> r ∈ db -> get (js_job_id r) db = Some r.
Proof.
  intros Hnd Hr. destruct (get (js_job_id r) db) as [r'|] eqn:E.
  - apply get_Some in E as [Hr' Hid]. f_equal. by apply (NoDup_fmap_elem js_job_id db).
  - by destruct (get_None _ _ E r Hr).
Qed.

Lemma update_ids i f db : (forall r, js_job_id (f r) = js_job_id r) -> ids (update i f db) = ids db.
Proof.
  intros Hf. unfold ids, update. rewrite <- list_fmap_compose. apply list_fmap_ext.
  intros _ r _. cbn. by case_if.
Qed.

Lemma update_absent i f db : (forall r, r ∈ db -> js_job_id r <> i) -> update i f db = db.
Proof.
  intros H. unfold update. induction db as [|r db IH]; [done|]. cbn.
  destruct (String.eqb_spec (js_job_id r) i) as [E|E].
  - destruct (H r (list_elem_of_here _ _) E).
  - rewrite IH; [done|]. intros r' Hr'. by apply H, list_elem_of_further.
Qed.

(** The one place an update acts on. *)
Lemma update_split i f db r :
  NoDup (ids db) -> get i db = Some r ->
  exists d1 d2, db = d1 ++ r :: d2 /\ update i f db = d1 ++ f r :: d2.
Proof.
  intros Hnd E. apply get_Some in E as [Hin Hid].
  apply list_elem_of_split in Hin as (d1 & d2 & ->). exists d1, d2. split; [done|].
  assert (Hne : forall r', r' ∈ d1 ++ d2 -> js_job_id r' <> i).
  { intros r' Hr' Heq. unfold ids in Hnd. rewrite fmap_app, fmap_cons in Hnd.
    apply NoDup_app in Hnd as (_ & H1 & H2). apply NoDup_cons in H2 as [H2 _].
    apply elem_of_app in Hr' as [Hr'|Hr'].
    - apply (H1 (js_job_id r')); [by apply list_elem_of_fmap_2|].
      rewrite Heq, <- Hid. apply list_elem_of_here.
    - apply H2. rewrite Hid, <- Heq. by apply list_elem_of_fmap_2. }
  unfold update. rewrite fmap_app, fmap_cons, Hid, String.eqb_refl.
  f_equal; [|f_equal].
  - apply (update_absent i f d1). intros r' Hr'. apply Hne, elem_of_app. by left.
  - apply (update_absent i f d2). intros r' Hr'. apply Hne, elem_of_app. by right.
Qed.

(** How a count changes when one row does. *)
Lemma count_update (P : JobState -> bool) i f db r :
  NoDup (ids db) -> get i db = Some r ->
  countb P (update i f db) + (if P r then 1 else 0) = countb P db + (if P (f r) then 1 else 0).
Proof.
  intros Hnd E. destruct (update_split i f db r Hnd E) as (d1 & d2 & E1 & E2).
  rewrite E2, E1 at 1. rewrite !countb_app, !countb_cons. destruct (P r), (P (f r)); lia.
Qed.

(** An update that gives no row a running state it did not have. *)
Lemma count_update_le i f db :
  NoDup (ids db) ->
  (forall r, get i db = Some r -> in_service ["running"] (f r) = true -> in_service ["running"] r = true) ->
  count_running (update i f db) <= count_running db.
Proof.
  intros Hnd Hf. unfold count_running. destruct (get i db) as [r|] eqn:E.
  - pose proof (count_update (in_service ["running"]) i f db r Hnd E) as H.
    specialize (Hf r eq_refl). destruct (in_service ["running"] (f r)); [rewrite Hf in H by done|];
      destruct (in_service ["running"] r); lia.
  - by rewrite (update_absent i f db (get_None _ _ E)).
Qed.

Lemma in_running r :
  in_service ["running"] r = String.eqb (js_service r) SERVICE && String.eqb (js_lifecycle_state r) "running".
Proof.
  unfold in_service. f_equal. apply eq_true_iff_eq.
  by rewrite bool_decide_eq_true, list_elem_of_singleton, String.eqb_eq.
Qed.

Lemma in_queued r :
  in_service ["queued"] r = String.eqb (js_service r) SERVICE && String.eqb (js_lifecycle_state r) "queued".
Proof.
  unfold in_service. f_equal. apply eq_true_iff_eq.
  by rewrite bool_decide_eq_true, list_elem_of_singleton, String.eqb_eq.
Qed.

(** *** Draining *)

Lemma elem_of_rows_in states db r : r ∈ rows_in states db <-> r ∈ db /\ in_service states r = true.
Proof. unfold rows_in. by rewrite elem_of_sort_by, elem_of_keep. Qed.

Lemma rows_in_NoDup states db : NoDup (ids db) -> NoDup (ids (rows_in states db)).
Proof.
  intros Hnd. unfold ids, rows_in. rewrite sort_by_perm.
  eapply sublist_NoDup; [exact Hnd | apply sublist_map, keep_sublist].
Qed.

Lemma drained_spec cap db r :
  r ∈ JobStateStore.drained cap db -> r ∈ db /\ in_service ["queued"] r = true.
Proof.
  intros Hr. apply elem_of_rows_in. eapply elem_of_sublist; [|exact Hr]. apply sublist_take.
Qed.

Lemma drained_NoDup cap db : NoDup (ids db) -> NoDup (ids (JobStateStore.drained cap db)).
Proof.
  intros Hnd. eapply sublist_NoDup; [by apply (rows_in_NoDup ["queued"]) |].
  apply sublist_map, sublist_take.
Qed.

(** Promoting queued rows one after the other. *)
Lemma promote_all now rows db :
  NoDup (ids db) -> NoDup (ids rows) ->
  (forall r, r ∈ rows -> r ∈ db /\ in_service ["queued"] r = true) ->
  let db' := foldl (fun db r => update (js_job_id r) (JobStateStore.promote now) db) db rows in
  ids db' = ids db
  /\ count_running db' = count_running db + length rows
  /\ (forall r, r ∈ rows -> JobStateStore.promote now r ∈ db')
  /\ (forall r, r ∈ db -> js_job_id r ∉ ids rows -> r ∈ db')
  /\ (forall r, r ∈ db' -> js_job_id r ∉ ids rows -> r ∈ db).
Proof.
  revert db. induction rows as [|r rows IH]; intros db Hnd Hndr Hin; cbn [foldl length].
  - split; [done|]. split; [by rewrite Nat.add_0_r|]. split; [intros r Hr; by apply elem_of_nil in Hr|].
    split; auto.
  - apply NoDup_cons in Hndr as [Hfresh Hndr].
    destruct (Hin r (list_elem_of_here _ _)) as [Hr Hq].
    pose proof (get_elem db r Hnd Hr) as Hg.
    destruct (update_split _ (JobStateStore.promote now) db r Hnd Hg) as (d1 & d2 & E1 & E2).
    assert (Hids : ids (update (js_job_id r) (JobStateStore.promote now) db) = ids db)
      by (by apply update_ids).
    assert (Hkeep : forall x, x ∈ db -> js_job_id x <> js_job_id r ->
              x ∈ update (js_job_id r) (JobStateStore.promote now) db).
    { intros x Hx Hne. rewrite E2. rewrite E1 in Hx. apply elem_of_app.
      apply elem_of_app in Hx as [|Hx]; [by left|]. right.
      apply elem_of_cons in Hx as [->|Hx]; [done | by apply list_elem_of_further]. }
    assert (Hback : forall x, x ∈ update (js_job_id r) (JobStateStore.promote now) db ->
              js_job_id x <> js_job_id r -> x ∈ db).
    { intros x Hx Hne. rewrite E2 in Hx. rewrite E1. apply elem_of_app.
      apply elem_of_app in Hx as [|Hx]; [by left|]. right.
      apply elem_of_cons in Hx as [->|Hx]; [by destruct Hne | by apply list_elem_of_further]. }
    destruct (IH (update (js_job_id r) (JobStateStore.promote now) db)) as (I1 & I2 & I3 & I4 & I5).
    + by rewrite Hids.
    + done.
    + intros x Hx. destruct (Hin x (list_elem_of_further _ _ _ Hx)) as [Hxd Hxq]. split; [|done].
      apply Hkeep; [done|]. intros Heq. apply Hfresh. rewrite <- Heq. by apply list_elem_of_fmap_2.
    + split; [congruence|]. split.
      { rewrite I2. unfold count_running.
        pose proof (count_update (in_service ["running"]) _ (JobStateStore.promote now) db r Hnd Hg) as Hc.
        rewrite !in_running in Hc. rewrite in_queued in Hq. cbn in Hc. bprop.
        destruct (String.eqb (js_service r) SERVICE); [|done].
        match goal with H : String.eqb (js_lifecycle_state r) "queued" = true |- _ =>
          apply String.eqb_eq in H; rewrite H in Hc end. cbn in Hc. lia. }
      split; [|split].
      * intros x Hx. apply elem_of_cons in Hx as [->|Hx]; [|by apply I3].
        apply I4; [|done]. rewrite E2. apply elem_of_app. right. apply list_elem_of_here.
      * intros x Hx Hn. apply not_elem_of_cons in Hn as [Hn1 Hn2]. apply I4; [|done]. by apply Hkeep.
      * intros x Hx Hn. apply not_elem_of_cons in Hn as [Hn1 Hn2]. apply Hback; [|done]. by apply I5.
Qed.

Lemma drain_inv now cap db db' promoted :
  JobStateStore.drain now cap db = Ok (db', promoted) ->
  ((JobStateStore.free_slots cap db <= 0)%Z /\ db' = db /\ promoted = [])
  \/ ((0 < JobStateStore.free_slots cap db)%Z
      /\ db' = foldl (fun db r => update (js_job_id r) (JobStateStore.promote now) db) db
                 (JobStateStore.drained cap db)
      /\ promoted.*1 = ids (JobStateStore.drained cap db)).
Proof.
  unfold JobStateStore.drain. destruct (_ <=? 0)%Z eqn:E; bprop; [intros [= <- <-]; auto|].
  intros H. apply bind_Ok_inv in H as (p & Hp & H). injection H as <- <-. right.
  split; [done|]. split; [done|]. revert p Hp.
  induction (JobStateStore.drained cap db) as [|r l IH]; intros p Hp.
  - cbn in Hp. by injection Hp as <-.
  - cbn in Hp. apply bind_Ok_inv in Hp as (x & Hx & Hp). apply bind_Ok_inv in Hp as (p' & Hp' & Hp).
    injection Hp as <-. unfold JobStateStore.spawn_of in Hx.
    apply bind_Ok_inv in Hx as (a & _ & Hx). injection Hx as <-. cbn. f_equal. by apply IH.
Qed.

(** *** One operation *)

(** The bound an operation keeps: running rows against the cap plus the revivals. *)
Definition bounded (cap : Z) (db : table) (n : nat) : Prop :=
  NoDup (ids db) /\ (Z.of_nat (count_running db) <= cap + Z.of_nat n)%Z.

Lemma bounded_update cap i f db n :
  (forall r, js_job_id (f r) = js_job_id r) ->
  (forall r, get i db = Some r -> in_service ["running"] (f r) = true -> in_service ["running"] r = true) ->
  bounded cap db n -> bounded cap (update i f db) n.
Proof.
  intros Hid Hf [Hnd Hc]. split; [by rewrite update_ids|].
  pose proof (count_update_le i f db Hnd Hf). lia.
Qed.

Lemma admit_bounded cap now i args key db db' s n :
  (0 < cap)%Z -> JobStateStore.admit_job now i args cap key db = Ok (db', s) ->
  bounded cap db n -> bounded cap db' n.
Proof.
  intros Hcap E [Hnd Hc]. unfold JobStateStore.admit_job in E.
  assert (Hg : JobStateStore.grants cap db = true -> (Z.of_nat (count_running db) < cap)%Z).
  { unfold JobStateStore.grants. rewrite orb_true_iff. intros [H|H]; bprop; lia. }
  destruct (get i db) as [r|] eqn:Eg.
  - destruct (bool_decide _) eqn:Ea; bprop; [done|]. injection E as <- _.
    split; [by rewrite update_ids|]. unfold count_running in *.
    match goal with |- context [update i ?f db] =>
      pose proof (count_update (in_service ["running"]) i f db r Hnd Eg) as H end.
    destruct (in_service ["running"] r); destruct (in_service ["running"] (readmit _ _ _ _ _ _ _ r)) eqn:Er;
      try lia. rewrite in_running in Er. cbn in Er. bprop.
    destruct (JobStateStore.grants cap db); [specialize (Hg eq_refl); lia | done].
  - injection E as <- _. split.
    + unfold ids. rewrite fmap_app. apply NoDup_app. split; [done|].
      split; [|apply NoDup_singleton]. intros x Hx Hx'.
      apply list_elem_of_singleton in Hx' as ->. apply list_elem_of_fmap in Hx as (r & Hr & Hin).
      by destruct (get_None _ _ Eg r Hin).
    + unfold count_running in *. rewrite countb_app, countb_cons, in_running.
      cbn [js_service js_lifecycle_state].
      destruct (JobStateStore.grants cap db); [specialize (Hg eq_refl)|]; cbn; lia.
Qed.

Lemma drain_bounded cap now db db' promoted n :
  (0 < cap)%Z -> JobStateStore.drain now cap db = Ok (db', promoted) ->
  bounded cap db n -> bounded cap db' n.
Proof.
  intros Hcap E [Hnd Hc].
  apply drain_inv in E as [(_ & -> & _)|(Hf & -> & _)]; [by split|].
  destruct (promote_all now (JobStateStore.drained cap db) db Hnd) as (H1 & H2 & _).
  - by apply drained_NoDup.
  - intros r. apply drained_spec.
  - split; [by rewrite H1|]. rewrite H2.
    assert (Hlen : length (JobStateStore.drained cap db) <= Z.to_nat (JobStateStore.free_slots cap db)).
    { unfold JobStateStore.drained. rewrite length_take. lia. }
    unfold JobStateStore.free_slots in *. destruct (0 <? cap)%Z eqn:E0; bprop; lia.
Qed.

Lemma set_ref_bounded cap now i ref db n :
  bounded cap db n ->
  bounded cap (JobStateStore.set_worker_ref now i ref db)
    ((if revives (OpWorkerRef i ref) db then 1 else 0) + n).
Proof.
  intros [Hnd Hc]. split; [unfold JobStateStore.set_worker_ref; by rewrite update_ids|].
  unfold JobStateStore.set_worker_ref, revives, JobStateStore.is_running, JobStateStore.has_state.
  destruct (get i db) as [r|] eqn:Eg.
  - pose proof (count_update (in_service ["running"]) i
                  (set_ref now ref (JobStateStore.kind_is "k8s-job" ref)) db r Hnd Eg) as H.
    unfold count_running in *. rewrite !in_running in H. cbn in H.
    destruct (JobStateStore.kind_is "k8s-job" ref), (String.eqb (js_service r) SERVICE),
      (String.eqb (js_lifecycle_state r) "running"); cbn in *; lia.
  - rewrite (update_absent i _ db (get_None _ _ Eg)). unfold count_running in *.
    destruct (_ && _); lia.
Qed.

Lemma run_op_bounded cap now op db n :
  (0 < cap)%Z -> op_ok op = true -> bounded cap db n ->
  bounded cap (run_op cap now op db).1 ((if revives op db then 1 else 0) + n).
Proof.
  intros Hcap Hok Hb. destruct op as [i args key|pod boot i| |i s res err us st|i ref|i pod boot err|i|i];
    cbn [run_op revives]; cbn [Nat.add].
  - destruct (JobStateStore.admit_job now i args cap key db) as [[db' s]|e] eqn:E; [|done].
    by eapply admit_bounded.
  - unfold JobStateStore.mark_running. destruct (get i db) as [r|] eqn:Eg; [|done].
    destruct (String.eqb_spec (js_lifecycle_state r) "running") as [Er|]; [|done].
    apply bounded_update; [done| |done]. intros r' Hr'. rewrite Hr' in Eg. injection Eg as ->.
    rewrite !in_running, Er. done.
  - destruct (JobStateStore.drain now cap db) as [[db' p]|e] eqn:E; [|done].
    by eapply drain_bounded.
  - unfold JobStateStore.mark_terminal. destruct (get i db) as [r|] eqn:Eg; [|done].
    apply bounded_update; [done| |done]. intros r' _ H. rewrite in_running in H. cbn in H.
    bprop. cbn in Hok. bprop. match goal with H : String.eqb s _ = true |- _ =>
      apply String.eqb_eq in H; subst s end.
    by repeat (apply elem_of_cons in Hok as [Hok|Hok]; [discriminate|]); apply elem_of_nil in Hok.
  - by apply (set_ref_bounded cap now i ref).
  - unfold JobStateStore.fail_subprocess_row. destruct (get i db) as [r|] eqn:Eg; [|done].
    destruct (negb _); [done|]. destruct (negb _); [done|]. cbn [fst].
    apply bounded_update; [done| |done]. intros r' _ H. rewrite in_running in H. cbn in H.
    by rewrite andb_false_r in H.
  - apply bounded_update; [done| |done]. intros r' _ H. rewrite in_running in *. exact H.
  - unfold JobStateStore.remove_queued. destruct (get i db) as [r|] eqn:Eg; [|done].
    destruct (String.eqb _ _); [|done]. cbn [fst]. destruct Hb as [Hnd Hc]. split.
    + eapply sublist_NoDup; [exact Hnd | apply sublist_map, keep_sublist].
    + pose proof (keep_sublist (fun r => negb (String.eqb (js_job_id r) i)) db) as Hs.
      unfold count_running in *. assert (H : countb (in_service ["running"]) (keep (fun r => negb (String.eqb (js_job_id r) i)) db)
        <= countb (in_service ["running"]) db); [|lia].
      clear. induction db as [|r db IH]; [done|]. unfold keep in *. cbn [List.filter].
      destruct (negb _); rewrite !countb_cons; lia.
Qed.

(** *** Ordering *)

Lemma insert_sorted_least (x r : JobState) l :
  (js_created_at r < js_created_at x)%Z ->
  insert_sorted by_created x (r :: l) = r :: insert_sorted by_created x l.
Proof.
  intros H. cbn. unfold by_created at 1. destruct (_ <=? _)%Z eqn:E; bprop; [lia|done].
Qed.

Lemma sort_least_first (r : JobState) l1 l2 :
  (forall q, q ∈ l1 ++ l2 -> (js_created_at r < js_created_at q)%Z) ->
  sort_by by_created (l1 ++ r :: l2) = r :: sort_by by_created (l1 ++ l2).
Proof.
  induction l1 as [|x l1 IH]; intros H; cbn [app sort_by foldr].
  - unfold sort_by. destruct (foldr (insert_sorted by_created) [] l2) as [|y k] eqn:E; [done|].
    cbn. unfold by_created at 1.
    assert (Hy : y ∈ l2).
    { apply (elem_of_sort_by by_created). unfold sort_by. rewrite E. apply list_elem_of_here. }
    specialize (H y Hy). destruct (_ <=? _)%Z eqn:E2; bprop; [done | lia].
  - fold (sort_by by_created (l1 ++ r :: l2)). fold (sort_by by_created (l1 ++ l2)).
    rewrite IH; [|intros q Hq; apply H; by apply list_elem_of_further].
    apply insert_sorted_least, H, list_elem_of_here.
Qed.

Lemma rows_in_sorted states db :
  StronglySorted (fun a b => (js_created_at a <= js_created_at b)%Z) (rows_in states db).
Proof.
  assert (S : StronglySorted (fun a b => by_created a b = true) (rows_in states db)).
  { apply sort_by_sorted; unfold by_created; intros; bprop; lia. }
  induction S as [|a l Hl IH Ha]; constructor; [done|].
  eapply Forall_impl; [exact Ha|]. intros b Hb. unfold by_created in Hb. by bprop.
Qed.

(** Arguments and a history for the examples: "a" runs and finishes, "b" takes the only
    slot, "c" queues, then "a" is restarted and queues behind "c". *)
Definition example_args (spec : string) : SpawnArgs :=
  {| sa_project_path := "/p"; sa_spec_id := spec; sa_auto_continue := true;
     sa_base_branch := None; sa_mode := Some "full"; sa_force := false; sa_user_id := "";
     sa_stop_after_planning := false; sa_parallel := None; sa_workers := None |}.
Definition run_ops (cap : Z) (ops : list job_op) : table :=
  (foldl (fun st op => ((run_op cap st.2 op st.1).1, (st.2 + 1)%Z)) ([], 0%Z) ops).1.
Definition restart_history : list job_op :=
  [OpAdmit "a" (example_args "1") None;
   OpTerminal "a" "done" None None None None;
   OpAdmit "b" (example_args "2") None;
   OpAdmit "c" (example_args "3") None].

Lemma reachable_bounded cap db n : (0 < cap)%Z -> reachable cap db n -> bounded cap db n.
Proof.
  intros Hcap H. induction H as [|db n now op Hr IH Hok].
  - split; [constructor | cbn; lia].
  - by apply run_op_bounded.
Qed.

(** An admission that answers "started" made an idle job running. *)
Lemma admit_started cap now i args key db db' :
  NoDup (ids db) -> JobStateStore.admit_job now i args cap key db = Ok (db', "started") ->
  JobStateStore.is_running i db = false /\ JobStateStore.is_running i db' = true.
Proof.
  intros Hnd E. unfold JobStateStore.admit_job in E.
  unfold JobStateStore.is_running, JobStateStore.has_state.
  destruct (get i db) as [r|] eqn:Eg.
  - destruct (bool_decide _) eqn:Ea; bprop; [done|].
    destruct (JobStateStore.grants cap db); [|by injection E]. injection E as <-. split.
    + apply String.eqb_neq. intros Hr. apply Ea. rewrite Hr. right. left.
    + assert (Eg' := Eg). apply get_Some in Eg' as [Hin Hid].
      match goal with |- context [update i ?f db] =>
        destruct (update_split i f db r Hnd Eg) as (d1 & d2 & E1 & E2);
        pose proof (get_elem (update i f db) (f r)) as G end.
      cbn [readmit js_job_id] in G. rewrite Hid in G. rewrite G; [done| |].
      * by rewrite update_ids.
      * rewrite E2. apply elem_of_app. right. apply list_elem_of_here.
  - destruct (JobStateStore.grants cap db); [|by injection E]. injection E as <-. split; [done|].
    match goal with |- context [get i (db ++ [?r])] =>
      pose proof (get_elem (db ++ [r]) r) as G end.
    cbn [js_job_id] in G. rewrite G; [done| |].
    + unfold ids. rewrite fmap_app. apply NoDup_app. split; [done|].
      split; [|apply NoDup_singleton]. intros x Hx Hx'.
      apply list_elem_of_singleton in Hx' as ->. apply list_elem_of_fmap in Hx as (r & Hr & Hin).
      by destruct (get_None _ _ Eg r Hin).
    + apply elem_of_app. right. apply list_elem_of_here.
Qed.

(** A promoted job was queued and is running. *)
Lemma drain_started cap now db db' promoted i :
  NoDup (ids db) -> JobStateStore.drain now cap db = Ok (db', promoted) -> i ∈ promoted.*1 ->
  JobStateStore.is_queued i db = true /\ JobStateStore.is_running i db = false
  /\ JobStateStore.is_running i db' = true.
Proof.
  intros Hnd E Hi. apply drain_inv in E as [(_ & _ & ->)|(_ & Edb & Ep)]; [by apply elem_of_nil in Hi|].
  rewrite Ep in Hi. apply list_elem_of_fmap in Hi as (r & -> & Hr).
  destruct (promote_all now (JobStateStore.drained cap db) db Hnd) as (P1 & _ & P3 & _).
  { by apply drained_NoDup. }
  { intros r'. apply drained_spec. }
  rewrite <- Edb in P1, P3. destruct (drained_spec _ _ _ Hr) as [Hin Hq].
  rewrite in_queued in Hq. apply andb_true_iff in Hq as [_ Hst%String.eqb_eq].
  unfold JobStateStore.is_queued, JobStateStore.is_running, JobStateStore.has_state.
  rewrite (get_elem db r Hnd Hin), Hst. split_and!; [done | done |].
  pose proof (get_elem db' (JobStateStore.promote now r)) as G.
  cbn [js_job_id JobStateStore.promote claim] in G. rewrite G; [done | by rewrite P1 | by apply P3].
Qed.

Lemma run_op_started cap now op db :
  NoDup (ids db) ->
  NoDup (run_op cap now op db).2
  /\ forall i, i ∈ (run_op cap now op db).2 ->
       JobStateStore.is_running i db = false
       /\ JobStateStore.is_running i (run_op cap now op db).1 = true.
Proof.
  intros Hnd.
  assert (Hnil : forall db' : table, NoDup ([] : list string) /\ forall i, i ∈ ([] : list string) ->
            JobStateStore.is_running i db = false /\ JobStateStore.is_running i db' = true).
  { intros db'. split; [constructor|]. intros i Hi. by apply elem_of_nil in Hi. }
  destruct op as [i args key|pod boot i| |i s res err us st|i ref|i pod boot err|i|i];
    cbn [run_op snd fst]; try apply Hnil.
  - destruct (JobStateStore.admit_job now i args cap key db) as [[db' s]|e] eqn:E;
      cbn [snd fst]; [|apply Hnil].
    destruct (String.eqb_spec s "started") as [->|]; cbn [snd fst]; [|apply Hnil].
    split; [apply NoDup_singleton|]. intros i' Hi'. apply list_elem_of_singleton in Hi' as ->.
    by eapply admit_started.
  - destruct (JobStateStore.drain now cap db) as [[db' p]|e] eqn:E; cbn [snd fst]; [|apply Hnil].
    split; [|intros i Hi; by destruct (drain_started _ _ _ _ _ _ Hnd E Hi)].
    apply drain_inv in E as [(_ & _ & ->)|(_ & _ & ->)]; [apply NoDup_nil_2 | by apply drained_NoDup].
Qed.

(** ** Properties *)

(** C2 (invariant): the cap holds.  After any sequence of operations from the empty table,
    whatever their order and their instants, job ids are unique and the running rows are
    at most the cap, plus one for each time a k8s-job reference was stamped on a row that
    was not running; without such a stamp the cap is never exceeded. *)
Theorem cap_never_exceeded (cap : Z) (db : table) (n : nat) :
  (0 < cap)%Z -> reachable cap db n ->
  NoDup (ids db)
  /\ (Z.of_nat (count_running db) <= cap + Z.of_nat n)%Z
  /\ (n = 0 -> (Z.of_nat (count_running db) <= cap)%Z).
Proof.
  intros Hcap Hr. destruct (reachable_bounded cap db n Hcap Hr) as [H1 H2].
  split; [done|]. split; [done|]. intros ->. lia.
Qed.

(** No job is started twice.  The jobs an operation starts, by admission or
    by draining, are distinct, were not running before it and are running after it; an
    admission of a job that is queued or running raises and changes nothing. *)
Theorem jobs_start_once (cap now : Z) (op : job_op) (db : table) :
  NoDup (ids db) ->
  (let '(db', started) := run_op cap now op db in
   NoDup started
   /\ forall i, i ∈ started ->
        JobStateStore.is_running i db = false /\ JobStateStore.is_running i db' = true)
  /\ (forall i args key,
        JobStateStore.is_running i db || JobStateStore.is_queued i db = true ->
        JobStateStore.admit_job now i args cap key db = Err ValueError).
Proof.
  intros Hnd. split.
  - pose proof (run_op_started cap now op db Hnd) as H. by destruct (run_op cap now op db).
  - intros i args key. unfold JobStateStore.is_running, JobStateStore.is_queued, JobStateStore.has_state,
      JobStateStore.admit_job. destruct (get i db) as [r|]; [|done].
    rewrite orb_true_iff, !String.eqb_eq. intros H. rewrite bool_decide_true; [done|].
    unfold ACTIVE_STATES. rewrite !elem_of_cons. tauto.
Qed.

(** ** What draining takes and leaves *)

(** A queued row that is not taken was created after every row that is. *)
Lemma drained_first cap db r q :
  r ∈ JobStateStore.drained cap db -> q ∈ db -> in_service ["queued"] q = true ->
  js_job_id q ∉ ids (JobStateStore.drained cap db) -> (js_created_at r <= js_created_at q)%Z.
Proof.
  unfold JobStateStore.drained. intros Hr Hq Hs Hn.
  assert (Hqr : q ∈ rows_in ["queued"] db) by by apply elem_of_rows_in.
  pose proof (rows_in_sorted ["queued"] db) as S.
  set (k := Z.to_nat (JobStateStore.free_slots cap db)) in *.
  rewrite <- (take_drop k (rows_in ["queued"] db)) in S, Hqr.
  apply elem_of_app in Hqr as [Hqr|Hqr]; [exfalso; apply Hn; by apply list_elem_of_fmap_2|].
  by apply (StronglySorted_app_1_elem_of (fun a b => (js_created_at a <= js_created_at b)%Z) _ _ r q S).
Qed.

(** When a queued row is not taken, every free slot is. *)
Lemma drained_full cap db q :
  q ∈ db -> in_service ["queued"] q = true ->
  js_job_id q ∉ ids (JobStateStore.drained cap db) ->
  length (JobStateStore.drained cap db) = Z.to_nat (JobStateStore.free_slots cap db).
Proof.
  unfold JobStateStore.drained. intros Hq Hs Hn. rewrite length_take. apply Nat.min_l.
  destruct (le_lt_dec (Z.to_nat (JobStateStore.free_slots cap db)) (length (rows_in ["queued"] db)))
    as [|Hlt]; [done|]. exfalso. apply Hn, list_elem_of_fmap_2.
  rewrite take_ge by lia. by apply elem_of_rows_in.
Qed.

(** After promoting [rows], the rows still queued are queued rows of before, not taken. *)
Lemma still_queued now db db' rows q :
  NoDup (ids db) -> ids db' = ids db ->
  (forall r, r ∈ rows -> JobStateStore.promote now r ∈ db') ->
  (q ∈ db' -> js_job_id q ∉ ids rows -> q ∈ db) ->
  q ∈ db' -> in_service ["queued"] q = true -> q ∈ db /\ js_job_id q ∉ ids rows.
Proof.
  intros Hnd Hids Hpr Hback Hq Hs. assert (Hn : js_job_id q ∉ ids rows); [|by auto].
  intros Hin. apply list_elem_of_fmap in Hin as (r & Hid & Hr).
  assert (q = JobStateStore.promote now r) as ->.
  { apply (NoDup_fmap_elem js_job_id db'); [|done|by apply Hpr|done].
    unfold ids in Hids, Hnd. by rewrite Hids. }
  rewrite in_queued in Hs. cbn in Hs. by rewrite andb_false_r in Hs.
Qed.

(** Draining fills the free slots in order of creation.  It starts
    exactly the jobs it promotes, all of them queued before and running after; no queued
    job created earlier is passed over; and when a queued job is left the cap is
    reached. *)
Theorem drain_is_fair_and_full (cap now : Z) (db db' : table) (promoted : list (string * SpawnArgs)) :
  (0 < cap)%Z -> NoDup (ids db) ->
  JobStateStore.drain now cap db = Ok (db', promoted) ->
  (forall i, i ∈ promoted.*1 ->
     JobStateStore.is_queued i db = true /\ JobStateStore.is_running i db' = true)
  /\ (forall p q, p ∈ db -> js_job_id p ∈ promoted.*1 ->
        q ∈ db' -> in_service ["queued"] q = true -> (js_created_at p <= js_created_at q)%Z)
  /\ count_running db' = count_running db + length promoted
  /\ (queue_size db' <> 0 -> (cap <= Z.of_nat (count_running db'))%Z).
Proof.
  intros Hcap Hnd E. destruct (drain_inv _ _ _ _ _ E) as [(Hf & -> & ->)|(Hf & Edb & Ep)].
  { split; [intros i Hi; by apply elem_of_nil in Hi|].
    split; [intros p q _ Hp; by apply elem_of_nil in Hp|]. split; [cbn; lia|]. intros _.
    unfold JobStateStore.free_slots in Hf. destruct (0 <? cap)%Z eqn:Ec; bprop; lia. }
  set (rows := JobStateStore.drained cap db) in *.
  assert (Hrows : forall r, r ∈ rows -> r ∈ db /\ in_service ["queued"] r = true)
    by (intros r; apply drained_spec).
  destruct (promote_all now rows db Hnd (drained_NoDup cap db Hnd) Hrows) as (P1 & P2 & P3 & P4 & P5).
  rewrite <- Edb in *.
  assert (Hlen : length promoted = length rows).
  { apply (f_equal length) in Ep. unfold ids in Ep. by rewrite !length_fmap in Ep. }
  assert (Hleft : forall q, q ∈ db' -> in_service ["queued"] q = true ->
            q ∈ db /\ js_job_id q ∉ ids rows)
    by (intros q; apply (still_queued now db db' rows q Hnd P1 P3 (P5 q))).
  split; [|split; [|split; [by rewrite P2, Hlen|]]].
  - intros i Hi. by destruct (drain_started _ _ _ _ _ _ Hnd E Hi) as (? & _ & ?).
  - intros p q Hp Hpi Hq Hqs. rewrite Ep in Hpi. apply list_elem_of_fmap in Hpi as (r & Hid & Hr).
    destruct (Hrows r Hr) as [Hrd _].
    assert (p = r) as -> by (by apply (NoDup_fmap_elem js_job_id db)).
    destruct (Hleft q Hq Hqs) as [Hqd Hqn].
    by eapply drained_first.
  - intros Hq. assert (Hfull : length rows = Z.to_nat (JobStateStore.free_slots cap db)).
    { assert (Hex : existsb (in_service ["queued"]) db' = true) by (apply countb_pos; unfold queue_size in Hq; lia).
      apply existsb_spec in Hex as (q & Hqd & Es). destruct (Hleft q Hqd Es) as [Hqdb Hqn].
      by eapply drained_full. }
    rewrite P2, Hfull. unfold JobStateStore.free_slots in *. destruct (0 <? cap)%Z eqn:Ec; bprop; lia.
Qed.

(** The queue is not first in, first out across restarts.  Readmission keeps
    the creation time of a finished job, and the queue is ordered by it: with the cap
    full, a restarted job older than every queued one is queued in front of all of
    them. *)
Theorem restarted_job_jumps_the_queue (cap now : Z) (i : string) (args : SpawnArgs)
    (key : option string) (db : table) (r : JobState) :
  NoDup (ids db) -> get i db = Some r -> js_service r = SERVICE ->
  js_lifecycle_state r ∉ ACTIVE_STATES -> JobStateStore.grants cap db = false ->
  (forall q, q ∈ db -> in_service ["queued"] q = true -> (js_created_at r < js_created_at q)%Z) ->
  exists db', JobStateStore.admit_job now i args cap key db = Ok (db', "queued")
    /\ JobStateStore.get_queued_job_ids db' = i :: JobStateStore.get_queued_job_ids db.
Proof.
  intros Hnd Eg Hs Ha Hg Hold. unfold JobStateStore.admit_job. rewrite Eg, bool_decide_false by done.
  rewrite Hg. eexists. split; [reflexivity|].
  match goal with |- context [update i ?f db] =>
    destruct (update_split i f db r Hnd Eg) as (d1 & d2 & E1 & E2) end.
  unfold JobStateStore.get_queued_job_ids, JobStateStore.job_ids_in, rows_in, keep.
  rewrite E2. rewrite E1 in Hold |- *. rewrite !List.filter_app. cbn [List.filter].
  assert (Hq : forall ad, in_service ["queued"] (readmit now "queued" None key ad None
                 (SpawnArgs.to_json args) r) = true).
  { intros ad. rewrite in_queued. cbn. by rewrite Hs. }
  rewrite Hq.
  assert (Hr : in_service ["queued"] r = false).
  { rewrite in_queued. apply andb_false_intro2, String.eqb_neq. intros Hst. apply Ha. rewrite Hst. left. }
  rewrite Hr, sort_least_first.
  - cbn. f_equal. by apply get_Some in Eg as [_ <-].
  - cbn [js_created_at readmit]. intros q Hqin.
    apply Hold; apply elem_of_app in Hqin as [Hqin|Hqin]; apply elem_of_keep in Hqin as [Hq1 Hq2];
      try done; apply elem_of_app; [by left | right; by apply list_elem_of_further].
Qed.

Lemma cap_never_exceeded_witness :
  (0 < 1)%Z /\ exists db, reachable 1 db 0 /\ count_running db = 1 /\ queue_size db = 1
    /\ NoDup (ids db) /\ (Z.of_nat (count_running db) <= 1)%Z.
Proof.
  set (db1 := (run_op 1 0 (OpAdmit "a" (example_args "1") None) []).1).
  set (db2 := (run_op 1 0 (OpAdmit "b" (example_args "2") None) db1).1).
  assert (H : reachable 1 db2 0).
  { apply (reach_step 1 db1 0 0 (OpAdmit "b" (example_args "2") None)); [|reflexivity].
    apply (reach_step 1 [] 0 0 (OpAdmit "a" (example_args "1") None)); [constructor | reflexivity]. }
  split; [lia|]. exists db2. split; [exact H|].
  destruct (cap_never_exceeded 1 db2 0 ltac:(lia) H) as (Hnd & _ & Hc).
  split_and!; [reflexivity | reflexivity | exact Hnd | exact (Hc eq_refl)].
Defined.

Lemma jobs_start_once_witness :
  NoDup (ids (run_ops 1 restart_history))
  /\ (run_op 1 9 OpDrain (run_ops 1 (restart_history ++ [OpTerminal "b" "done" None None None None]))).2
     = ["c"]
  /\ NoDup (run_op 1 9 OpDrain (run_ops 1 restart_history)).2.
Proof.
  assert (H : NoDup (ids (run_ops 1 restart_history)))
    by (apply (bool_decide_unpack _); vm_compute; exact I).
  split; [exact H|]. split; [vm_compute; reflexivity|].
  exact (proj1 (proj1 (jobs_start_once 1 9 OpDrain (run_ops 1 restart_history) H))).
Defined.

Lemma drain_is_fair_and_full_witness :
  let db := run_ops 1 (restart_history ++ [OpTerminal "b" "done" None None None None]) in
  exists db' promoted,
    JobStateStore.drain 9 1 db = Ok (db', promoted) /\ promoted.*1 = ["c"]
    /\ count_running db' = count_running db + length promoted.
Proof.
  set (db := run_ops 1 (restart_history ++ [OpTerminal "b" "done" None None None None])).
  assert (Hnd : NoDup (ids db)) by (apply (bool_decide_unpack _); vm_compute; exact I).
  destruct (JobStateStore.drain 9 1 db) as [[db' promoted]|e] eqn:E; [|vm_compute in E; discriminate].
  exists db', promoted. split; [exact E|].
  split; [vm_compute in E; injection E as _ <-; reflexivity|].
  exact (proj1 (proj2 (proj2 (drain_is_fair_and_full 1 9 db db' promoted ltac:(lia) Hnd E)))).
Defined.

Lemma restarted_job_jumps_the_queue_witness :
  let db := run_ops 1 restart_history in
  JobStateStore.get_queued_job_ids db = ["c"]
  /\ exists db', JobStateStore.admit_job 4 "a" (example_args "1") 1 None db = Ok (db', "queued")
       /\ JobStateStore.get_queued_job_ids db' = "a" :: JobStateStore.get_queued_job_ids db.
Proof.
  set (db := run_ops 1 restart_history). split; [vm_compute; reflexivity|].
  destruct (get "a" db) as [r|] eqn:Eg; [|vm_compute in Eg; discriminate].
  assert (Hr : js_service r = SERVICE /\ js_lifecycle_state r = "done" /\ js_created_at r = 0%Z)
    by (vm_compute in Eg; injection Eg as <-; repeat split).
  destruct Hr as (H1 & H2 & H3).
  apply (restarted_job_jumps_the_queue 1 4 "a" (example_args "1") None db r).
  - apply (bool_decide_unpack _). vm_compute. exact I.
  - exact Eg.
  - exact H1.
  - rewrite H2. apply (bool_decide_unpack _). vm_compute. exact I.
  - vm_compute. reflexivity.
  - assert (F : forallb (fun q => negb (in_service ["queued"] q) || (0 <? js_created_at q)%Z) db = true)
      by (vm_compute; reflexivity).
    rewrite forallb_spec in F. intros q Hq Hs. specialize (F q Hq). rewrite Hs in F. cbn in F.
    rewrite H3. by bprop.
Defined.
