(* ===== verification/TaskControl.v ===== *)
(** The control state of a task (web-server/server/services/task_control.py), its phases
    (task_phase.py), the status checkpoint of agent_service.py, which writes it, and the
    detection of orphaned tasks (stale_tasks.py).

    [Broken] is a file that exists and cannot be read as JSON; a spec directory that cannot
    be written raises [OSError] and leaves the file as it was, as the write is atomic. *)
From Stdlib Require Import QArith Lqa.
From S2P Require Import Prelude PyData ApprovalGate EventMonad.
Local Open Scope nat_scope.

(** ** The control file *)

Definition CONTROL_FIELDS : list string := ["status"; "reviewReason"].
Definition _PLAN_APPROVAL_KEYS : list string := ["planApproved"; "planApprovedBy"; "planApprovedAt"].
Definition MIGRATED : string := "_migratedFromPlan".

(** task_control.json and implementation_plan.json of the main spec directory. *)
Record ControlDir := {
  cl_control : file;
  cl_plan : file;
  cl_writable : bool;
}.
Definition with_control (d : ControlDir) (f : file) : ControlDir :=
  {| cl_control := f; cl_plan := cl_plan d; cl_writable := cl_writable d |}.
Definition with_plan (d : ControlDir) (f : file) : ControlDir :=
  {| cl_control := cl_control d; cl_plan := f; cl_writable := cl_writable d |}.

Definition os_error : exn := AppError "OSError".

(** [d.pop(k, None)] *)
Definition dpop (k : string) (d : dict) : dict := without_keys [k] d.

(** The fields a legacy plan has, a null one excepted. *)
Definition migrated (plan : dict) : dict :=
  foldl (fun m field =>
           match dget field plan with
           | Some JNull | None => m
           | Some v => dset field v m
           end) [] CONTROL_FIELDS.

Definition read_control (d : ControlDir) : dict :=
  match cl_control d with
  | Json (JObj data) => data
  | _ =>
      match cl_plan d with
      | Json (JObj plan) =>
          let m := migrated plan in
          if list_truthy m then dset MIGRATED (JBool true) m else []
      | _ => []
      end
  end.

Definition _atomic_write_json (data : dict) (d : ControlDir) : res () * ControlDir :=
  if cl_writable d then (Ok (), with_control d (Json (JObj data))) else (Err os_error, d).

Definition drop_approval (current : dict) : dict :=
  foldl (fun c k => dpop k c) current _PLAN_APPROVAL_KEYS.

(** What [write_control] makes of the state it read. *)
Definition updated_control (now : string) (status review_reason : option string)
    (clear_review_reason : bool) (updated_by : string) (current : dict) : dict :=
  let current := dpop MIGRATED current in
  let current := match status with Some s => dset "status" (JStr s) current | None => current end in
  let current :=
    if clear_review_reason then dpop "reviewReason" current
    else match review_reason with
         | Some r => dset "reviewReason" (JStr r) current
         | None => current
         end in
  let current :=
    match review_reason with
    | Some r => if String.eqb r "plan_review" then drop_approval current else current
    | None => current
    end in
  dset "updatedBy" (JStr updated_by) (dset "updatedAt" (JStr now) current).

Definition write_control (now : string) (status review_reason : option string)
    (clear_review_reason : bool) (updated_by : string) (d : ControlDir) : res dict * ControlDir :=
  let current := updated_control now status review_reason clear_review_reason updated_by (read_control d) in
  let '(r, d) := _atomic_write_json current d in
  (match r with Ok _ => Ok current | Err e => Err e end, d).

Definition approved_control (now approved_by : string) (current : dict) : dict :=
  foldl (fun c kv => dset kv.1 kv.2 c) (dpop MIGRATED current)
    [("planApproved", JBool true); ("planApprovedBy", JStr approved_by);
     ("planApprovedAt", JStr now); ("updatedAt", JStr now); ("updatedBy", JStr approved_by)].

Definition record_plan_approval (now approved_by : string) (d : ControlDir) : res dict * ControlDir :=
  let current := approved_control now approved_by (read_control d) in
  let '(r, d) := _atomic_write_json current d in
  (match r with Ok _ => Ok current | Err e => Err e end, d).

Definition clear_plan_approval (d : ControlDir) : res () * ControlDir :=
  let current := dpop MIGRATED (read_control d) in
  if existsb (fun k => dmem k current) _PLAN_APPROVAL_KEYS
  then _atomic_write_json (drop_approval current) d
  else (Ok (), d).

Definition strip_control_fields (plan : dict) : dict := foldl (fun p k => dpop k p) plan CONTROL_FIELDS.

(** ** Phases *)

Inductive TaskPhase :=
  | SPEC_CREATION | PLANNING | PLAN_REVIEW | CODING | QA_REVIEW | QA_FIXING | COMPLETED | FAILED.
#[export] Instance TaskPhase_eq_dec : EqDecision TaskPhase.
Proof. solve_decision. Defined.

Definition phase_value (p : TaskPhase) : string :=
  match p with
  | SPEC_CREATION => "spec_creation" | PLANNING => "planning" | PLAN_REVIEW => "plan_review"
  | CODING => "coding" | QA_REVIEW => "qa_review" | QA_FIXING => "qa_fixing"
  | COMPLETED => "completed" | FAILED => "failed"
  end.

(** The table has an entry for each phase, so its fallback never applies. *)
Definition phase_to_status (phase : TaskPhase) : string :=
  match phase with
  | SPEC_CREATION | PLANNING | CODING | QA_FIXING => "in_progress"
  | QA_REVIEW => "ai_review"
  | PLAN_REVIEW | COMPLETED | FAILED => "human_review"
  end.

Definition phase_to_review_reason (phase : TaskPhase) : option string :=
  match phase with
  | PLAN_REVIEW => Some "plan_review"
  | COMPLETED => Some "completed"
  | FAILED => Some "errors"
  | _ => None
  end.

Definition _append_parallel_flags (cmd : list string) (parallel : option bool) (workers : option Z)
  : list string * bool :=
  match parallel with
  | Some true =>
      (cmd ++ ["--parallel"]
       ++ match workers with
          | Some n => if (0 <? n)%Z then ["--workers"; pretty n] else []
          | None => []
          end, true)
  | _ => (cmd, false)
  end.

Definition _append_quick_mode_flag (cmd : list string) (mode : option string) : list string * bool :=
  match mode with
  | Some m => if String.eqb m "quick" then (cmd ++ ["--skip-qa"], true) else (cmd, false)
  | None => (cmd, false)
  end.

Definition _FAILED_SUBTASK_STATUSES : list string := ["failed"; "stuck"; "error"; "blocked"].

(** How many subtasks there are, completed and failed ones: [(total, completed, failed)].
    [status in _FAILED_SUBTASK_STATUSES] hashes the status. *)
Definition tally_subtask (acc : nat * nat * nat) (subtask : json) : res (nat * nat * nat) :=
  with_get subtask (fun d =>
    let '(total, completed, failed) := acc in
    match default (JStr "pending") (dget "status" d) with
    | JStr s =>
        Ok (if String.eqb s "completed" then (S total, S completed, failed)
            else if key_in _FAILED_SUBTASK_STATUSES s then (S total, completed, S failed)
            else (S total, completed, failed))
    | JList _ | JObj _ => Err TypeError
    | _ => Ok (S total, completed, failed)
    end).

Definition tally_phase (acc : nat * nat * nat) (phase : json) : res (nat * nat * nat) :=
  with_get phase (fun d => let! l := iter_field "subtasks" d in fold_res tally_subtask acc l).

Definition is_failed_build (plan : dict) : res bool :=
  let! phases := iter_field "phases" plan in
  let! t := fold_res tally_phase (0, 0, 0) phases in
  let '(total, completed, failed) := t in
  Ok ((0 <? total) && (completed =? 0) && (1 <=? failed)).

(** [(0, 100)] for a phase the table does not have. *)
Definition phase_range (phase : string) : Q * Q :=
  if key_in ["spec_creation"; "planning"] phase then (0, 20)%Q
  else if String.eqb phase "plan_review" then (20, 20)%Q
  else if String.eqb phase "coding" then (20, 80)%Q
  else if key_in ["qa_review"; "qa_fixing"] phase then (80, 95)%Q
  else if String.eqb phase "completed" then (95, 100)%Q
  else if String.eqb phase "failed" then (0, 0)%Q
  else (0, 100)%Q.

(** [round(x)], ties to even. *)
Definition py_round (x : Q) : Z := round_half_even (Qnum x) (Zpos (Qden x)).

Definition scale_progress (phase : string) (phase_progress : Q) : Z :=
  let '(start, end_) := phase_range phase in
  let width := (end_ - start)%Q in
  py_round (start + phase_progress / 100 * width).

(** ** Orphans *)

Definition MACHINE_OWNED_STATES : list string := ["in_progress"; "ai_review"; "running"].
Definition QUEUED_STATES : list string := ["backlog"; "queued"].
Definition HUMAN_OWNED_STATES : list string := ["human_review"; "review"].
Definition TERMINAL_STATES : list string := ["done"; "completed"; "failed"; "cancelled"; "qa_failed"].
Definition REAPED_STATUS : string := "cancelled".

Definition is_reapable (status : string) : bool := key_in MACHINE_OWNED_STATES status.

Record StaleTask := {
  st_task_id : string; st_status : string; st_phase : option json;
  st_updated_at : string; st_idle : Z;
}.

(** [str(task.get(k) or '')], for a text or a missing value. *)
Definition text_of (v : option json) : res string :=
  match v with
  | Some v => if truthy v then py_str v else Ok ""
  | None => Ok ""
  end.

(** [parse] reads a time stamp in seconds of naive UTC, None when it cannot; [now] and
    [stale_after] are seconds. *)
Definition stale_of (parse : string -> option Z) (now stale_after : Z) (task : dict)
  : res (option StaleTask) :=
  let! status := text_of (dget "status" task) in
  if negb (is_reapable status) then Ok None
  else
    let! raw := match dget "updated_at" task with
                | Some v => if truthy v then py_str v else text_of (dget "updatedAt" task)
                | None => text_of (dget "updatedAt" task)
                end in
    match parse raw with
    | None => Ok None
    | Some updated =>
        let idle := (now - updated)%Z in
        if (idle <? stale_after)%Z then Ok None
        else
          let! task_id := text_of (dget "id" task) in
          Ok (Some {| st_task_id := task_id; st_status := status; st_phase := dget "phase" task;
                      st_updated_at := raw; st_idle := idle |})
    end.

Definition find_stale (parse : string -> option Z) (tasks : list dict) (now stale_after : Z)
  : res (list StaleTask) :=
  let! found := mapM (stale_of parse now stale_after) tasks in
  Ok (omap id found).

(** ** The status checkpoint (agent_service.py) *)

Definition _TERMINAL_PLAN_STATUSES : list string := ["completed"; "failed"].

(** What a checkpoint does besides writing the two files: the control state it wrote, the
    run of the terminal completion, and the two events of the web socket, which never
    raise. *)
Inductive checkpoint_ev :=
  | PvControl (data : dict)
  | PvTerminal (is_terminal is_completed : bool) (terminal_status : string)
  | PvStatus (status : string) (reason : json)
  | PvUpdate (subtasks : list dict) (completed : nat) (phase : option string).

Record CheckpointState {W : Type} := { ps_dir : ControlDir; ps_world : W }.
Arguments CheckpointState : clear implicits.
Definition with_dir {W} (d : ControlDir) (s : CheckpointState W) : CheckpointState W :=
  {| ps_dir := d; ps_world := ps_world s |}.

Record CheckpointHooks {W : Type} := {
  ch_now : CheckpointState W -> string;
  (** [run_terminal_completion] *)
  ch_terminal : bool -> bool -> string -> CheckpointState W -> res () * CheckpointState W;
}.
Arguments CheckpointHooks : clear implicits.

Definition phase_of_status (status : string) : option TaskPhase :=
  if String.eqb status "completed" then Some COMPLETED
  else if String.eqb status "failed" then Some FAILED
  else if String.eqb status "human_review" then Some PLAN_REVIEW
  else None.

Definition subtask_data (subtask : json) : res dict :=
  with_get subtask (fun d =>
    Ok [("id", default (JStr "") (dget "id" d));
        ("status", default (JStr "pending") (dget "status" d));
        ("title", default (JStr "") (dget "description" d))]).

Definition phase_subtasks (phase : json) : res (list dict) :=
  with_get phase (fun d => let! l := iter_field "subtasks" d in mapM subtask_data l).

Definition subtasks_data (plan : dict) : res (list dict) :=
  let! phases := iter_field "phases" plan in
  let! l := mapM phase_subtasks phases in
  Ok (concat l).

(** [d.get("status") == v] *)
Definition status_is (v : string) (d : dict) : bool :=
  match dget "status" d with Some (JStr s) => String.eqb s v | _ => false end.

Section Checkpoint.
Context {W : Type} (h : CheckpointHooks W).
Abbreviation M := (Eff (CheckpointState W) checkpoint_ev).

Definition write_plan (v : dict) : M () := fun s =>
  if cl_writable (ps_dir s) then (Ok (), with_dir (with_plan (ps_dir s) (Json (JObj v))) s, [])
  else (Err os_error, s, []).

(** The plan recorded when the build died before it wrote one. *)
Definition terminal_fallback (status : string) : dict :=
  [("status", JStr status); ("phases", JList []); ("recorded_by", JStr "terminal-status-fallback")].

Definition control_write (status : string) (reason : option string) : M () := fun s =>
  let '(r, d) := write_control (ch_now h s) (Some status) reason (bool_decide (reason = None))
                   "web_server" (ps_dir s) in
  match r with
  | Ok data => (Ok (), with_dir d s, [PvControl data])
  | Err e => (Err e, with_dir d s, [])
  end.

Definition run_terminal (phase : option TaskPhase) : M () :=
  let is_completed := bool_decide (phase = Some COMPLETED) in
  let is_terminal := bool_decide (is_Some phase) in
  let status := if is_completed then "completed"
                else if bool_decide (phase = Some PLAN_REVIEW) then "human_review" else "failed" in
  emit (PvTerminal is_terminal is_completed status) ;;
  hooked (ch_terminal h is_terminal is_completed status).

Definition emit_if (b : bool) (e : checkpoint_ev) : M () := if b then emit e else mret ().

Definition new_status (status : string) : string :=
  match phase_of_status status with Some p => phase_to_status p | None => status end.
Definition new_review_reason (status : string) : option string :=
  p ← phase_of_status status; phase_to_review_reason p.

(** The part inside the [try]. *)
Definition checkpoint (status : string) (emit_events : bool) : M () :=
  v ← lift (fun s => match cl_plan (ps_dir s) with
                     | Json v => Ok v
                     | Missing => Err os_error
                     | Broken => Err ValueError
                     end);
  control ← lift (fun s => Ok (read_control (ps_dir s)));
  if status_is "done" control then mret ()
  else
    plan ← lift (fun _ => with_get v Ok);
    if status_is "done" plan then mret ()
    else if negb (truthy (default JNull (dget "phases" plan))) then
      emit_if emit_events (PvStatus "failed" (JStr "invalid_plan"))
    else
      let plan := dset "status" (JStr (new_status status)) plan in
      let plan := match new_review_reason status with
                  | Some r => dset "reviewReason" (JStr r) plan
                  | None => plan
                  end in
      write_plan plan ;;
      control_write (new_status status) (new_review_reason status) ;;
      run_terminal (phase_of_status status) ;;
      subtasks ← lift (fun _ => subtasks_data plan);
      emit_if emit_events (PvStatus (new_status status) (default JNull (dget "reviewReason" plan))) ;;
      emit_if emit_events
        (PvUpdate subtasks
           (countb (status_is "completed") subtasks)
           (if key_in _TERMINAL_PLAN_STATUSES status then Some status else None)).

Definition _update_plan_status (status : string) (emit_events : bool) : M () :=
  f ← lift (fun s => Ok (cl_plan (ps_dir s)));
  go ← match f with
       | Missing =>
           if key_in _TERMINAL_PLAN_STATUSES status
           then write_plan (terminal_fallback status) ;; mret true
           else mret false
       | _ => mret true
       end;
  if go : bool then
    ok ← rescue (checkpoint status emit_events ;; mret true) false;
    if ok : bool then mret ()
    else emit_if emit_events (PvStatus (new_status status) (JOpt (new_review_reason status)))
  else mret ().
End Checkpoint.

(** ** Lookups *)

Lemma dget_dpop k k' d : dget k (dpop k' d) = if String.eqb k k' then None else dget k d.
Proof.
  unfold dpop. destruct (String.eqb_spec k k') as [<-|Hne].
  - induction d as [|[k0 v0] d IH]; [done|]. unfold without_keys, keep in *. cbn.
    destruct (String.eqb_spec k0 k) as [->|]; cbn; [exact IH|].
    destruct (String.eqb_spec k k0); [by subst|]. exact IH.
  - apply dget_without. unfold key_in. cbn. rewrite orb_false_r. by apply String.eqb_neq.
Qed.

(** Computes the lookup of a literal key through updates and removals. *)
Ltac control_simpl :=
  unfold drop_approval, approved_control; cbn [foldl fst snd _PLAN_APPROVAL_KEYS];
  repeat (rewrite ?dget_dset, ?dget_dpop; cbn [String.eqb Ascii.eqb Bool.eqb andb]).

(** *** The approval *)

Inductive control_op :=
  | Write (now : string) (status review_reason : option string) (clear : bool) (by_ : string)
  | Approve (now by_ : string)
  | Clear
  | PlanChanged (f : file).

Definition run_op (d : ControlDir) (op : control_op) : ControlDir :=
  match op with
  | Write now status reason clear by_ => (write_control now status reason clear by_ d).2
  | Approve now by_ => (record_plan_approval now by_ d).2
  | Clear => (clear_plan_approval d).2
  | PlanChanged f => with_plan d f
  end.

(** An approval: by whom and when. *)
Definition approval_step (a : option (string * string)) (op : control_op) : option (string * string) :=
  match op with
  | Write _ _ (Some r) _ _ => if String.eqb r "plan_review" then None else a
  | Approve now by_ => Some (by_, now)
  | Clear => None
  | _ => a
  end.

Definition shows (c : dict) (a : option (string * string)) : Prop :=
  match a with
  | None => forall k, k ∈ _PLAN_APPROVAL_KEYS -> dget k c = None
  | Some (by_, now) => dget "planApproved" c = Some (JBool true)
      /\ dget "planApprovedBy" c = Some (JStr by_) /\ dget "planApprovedAt" c = Some (JStr now)
  end.

(** The relation [shows] as three lookups. *)
Lemma shows_lookups c a :
  shows c a <-> dget "planApproved" c = (fun _ => JBool true) <$> a
    /\ dget "planApprovedBy" c = (fun x => JStr x.1) <$> a
    /\ dget "planApprovedAt" c = (fun x => JStr x.2) <$> a.
Proof.
  destruct a as [[b n]|]; cbn; [done|]. split.
  - intros H. split_and!; apply H; repeat constructor.
  - intros (A & B & C) k I. unfold _PLAN_APPROVAL_KEYS in I. rewrite !elem_of_cons, elem_of_nil in I.
    by destruct I as [->|[->|[->|[]]]].
Qed.

Lemma shows_updated now status reason clear by_ c a : shows c a ->
  shows (updated_control now status reason clear by_ c) (approval_step a (Write now status reason clear by_)).
Proof.
  rewrite !shows_lookups. intros (A & B & C). unfold updated_control. cbn [approval_step].
  destruct reason as [r|]; [destruct (String.eqb r "plan_review")|]; destruct status, clear;
    control_simpl; done.
Qed.

Lemma shows_approved now by_ c : shows (approved_control now by_ c) (Some (by_, now)).
Proof. cbn. control_simpl. done. Qed.

Lemma shows_dropped c : shows (drop_approval c) None.
Proof. apply shows_lookups. control_simpl. done. Qed.

(** A migrated plan never has an approval. *)
Lemma migrated_get k plan : k ∉ CONTROL_FIELDS -> dget k (migrated plan) = None.
Proof.
  unfold migrated, CONTROL_FIELDS. rewrite !not_elem_of_cons. intros (A & B & _). cbn.
  apply String.eqb_neq in A, B.
  destruct (dget "status" plan) as [[]|], (dget "reviewReason" plan) as [[]|]; cbn; rewrite ?A, ?B; done.
Qed.

Lemma read_plan_shows d : (forall o, cl_control d <> Json (JObj o)) -> shows (read_control d) None.
Proof.
  intros N k I. unfold read_control. unfold _PLAN_APPROVAL_KEYS in I.
  assert (K : forall p, dget k (migrated p) = None /\ dget k (dset MIGRATED (JBool true) (migrated p)) = None).
  { intros p. rewrite !elem_of_cons, elem_of_nil in I.
    destruct I as [->|[->|[->|[]]]]; rewrite dget_dset; split; try (by apply migrated_get, (bool_decide_unpack _));
      by rewrite migrated_get by (by apply (bool_decide_unpack _)). }
  destruct (cl_control d) as [| |[]] eqn:E; try (destruct (cl_plan d) as [| |[| | | | |p]]; try done;
    destruct (list_truthy _); [apply K | done]).
  by destruct (N d0).
Qed.

Lemma shows_plan d f a : shows (read_control d) a -> shows (read_control (with_plan d f)) a.
Proof.
  assert (D : (exists o, cl_control d = Json (JObj o)) \/ forall o, cl_control d <> Json (JObj o)).
  { destruct (cl_control d) as [| |[]]; eauto; by right. }
  destruct D as [[o E]|N].
  - unfold read_control. cbn. by rewrite E.
  - intros S. pose proof (read_plan_shows d N) as S0. rewrite shows_lookups in S, S0.
    destruct S as (A & _ & _), S0 as (A0 & _ & _). rewrite A in A0.
    destruct a; [done|]. by apply read_plan_shows.
Qed.

Lemma read_after_write data d : cl_writable d = true ->
  read_control (_atomic_write_json data d).2 = data.
Proof. unfold _atomic_write_json. by intros ->. Qed.

Lemma writable_step op d : cl_writable (run_op d op) = cl_writable d.
Proof.
  destruct op; cbn; [..|done]; unfold write_control, record_plan_approval, clear_plan_approval, _atomic_write_json.
  3: destruct (existsb _ _).
  all: by destruct (cl_writable d) eqn:E.
Qed.

(** One operation on a writable directory steps the approval. *)
Lemma approval_simulates op d a : cl_writable d = true -> shows (read_control d) a ->
  shows (read_control (run_op d op)) (approval_step a op).
Proof.
  intros Wd S. destruct op as [now status reason clear by_|now by_| |f]; cbn [run_op].
  - unfold write_control. destruct (_atomic_write_json _ d) as [r d'] eqn:E. cbn [snd].
    change d' with (r, d').2. rewrite <- E, read_after_write by done. by apply shows_updated.
  - unfold record_plan_approval. destruct (_atomic_write_json _ d) as [r d'] eqn:E. cbn [snd].
    change d' with (r, d').2. rewrite <- E, read_after_write by done. apply shows_approved.
  - unfold clear_plan_approval. destruct (existsb _ _) eqn:X.
    + rewrite read_after_write by done. apply shows_dropped.
    + apply shows_lookups. rewrite existsb_false in X. unfold dmem in X. split_and!.
      1: specialize (X "planApproved"). 2: specialize (X "planApprovedBy"). 3: specialize (X "planApprovedAt").
      all: rewrite dget_dpop in X; cbn in X |- *; destruct (dget _ _); [|done].
      all: assert (true = false) by (apply X; by apply (bool_decide_unpack _)); done.
  - by apply shows_plan.
Qed.

(** The operation leaves a recorded approval, and its absence, as it is. *)
Definition keeps_approval (op : control_op) : Prop :=
  match op with
  | Write _ _ (Some r) _ _ => r <> "plan_review"
  | Approve _ _ | Clear => False
  | _ => True
  end.

Lemma approval_log ops b n : foldl approval_step None ops = Some (b, n) ->
  exists l1 l2, ops = l1 ++ Approve n b :: l2 /\ Forall keeps_approval l2.
Proof.
  induction ops as [|op ops IH] using rev_ind; [done|]. rewrite foldl_app. cbn. intros E.
  assert (K : forall l1 l2, ops = l1 ++ Approve n b :: l2 -> Forall keeps_approval l2 -> keeps_approval op ->
    exists l1 l2, ops ++ [op] = l1 ++ Approve n b :: l2 /\ Forall keeps_approval l2).
  { intros l1 l2 -> F Ko. exists l1, (l2 ++ [op]). rewrite <- app_assoc. split; [done|].
    apply Forall_app. by repeat constructor. }
  destruct op as [now status [r|] clear by_|now by_| |f]; cbn in E; try done.
  - destruct (String.eqb_spec r "plan_review"); [done|]. destruct (IH E) as (l1 & l2 & A & B).
    by apply (K l1 l2).
  - destruct (IH E) as (l1 & l2 & A & B). by apply (K l1 l2).
  - injection E as -> ->. exists ops, []. by split.
  - destruct (IH E) as (l1 & l2 & A & B). by apply (K l1 l2).
Qed.

Lemma approval_run ops d a : cl_writable d = true -> shows (read_control d) a ->
  shows (read_control (foldl run_op d ops)) (foldl approval_step a ops).
Proof.
  revert d a. induction ops as [|op ops IH]; intros d a Wd S; [done|]. cbn. apply IH.
  - by rewrite writable_step.
  - by apply approval_simulates.
Qed.

(** ** Properties *)

(** C22 (refinement): the control state follows the log of approvals.  Through any sequence of
    writes of the server and of changes of the plan by anyone, a directory without an approval
    shows one exactly as the last operation that touches approvals says; an approval shown was
    recorded by an approval of the person it names, and nothing after it revoked it: writing
    the plan never makes one. *)
Theorem plan_approval_follows_log (d0 : ControlDir) (ops : list control_op) :
  cl_writable d0 = true -> shows (read_control d0) None ->
  let c := read_control (foldl run_op d0 ops) in
  shows c (foldl approval_step None ops)
  /\ forall v, dget "planApproved" c = Some v ->
       v = JBool true /\ exists l1 now by_ l2, ops = l1 ++ Approve now by_ :: l2
         /\ Forall keeps_approval l2
         /\ dget "planApprovedBy" c = Some (JStr by_) /\ dget "planApprovedAt" c = Some (JStr now).
Proof.
  intros Wd S. cbn zeta. pose proof (approval_run ops d0 None Wd S) as R. split; [exact R|].
  intros v V. apply shows_lookups in R as (A & B & C). rewrite V in A.
  destruct (foldl approval_step None ops) as [[b n]|] eqn:E; [|done]. injection A as ->. split; [done|].
  apply approval_log in E as (l1 & l2 & E & F). by exists l1, n, b, l2.
Qed.

(** Orphans: a task is reported when its state says that something runs, its time stamp can
    be read and is old enough; a state owned by a person, a queue or nobody never is. *)
Lemma stale_of_spec parse now stale_after task r :
  stale_of parse now stale_after task = Ok (Some r) ->
  st_status r ∈ MACHINE_OWNED_STATES
  /\ exists updated, parse (st_updated_at r) = Some updated /\ st_idle r = (now - updated)%Z
                     /\ (stale_after <= st_idle r)%Z.
Proof.
  unfold stale_of. intros (status & Hs & R)%bind_Ok_inv.
  destruct (is_reapable status) eqn:Re; cbn [negb] in R; [|done].
  apply bind_Ok_inv in R as (raw & Hr & R). destruct (parse raw) as [u|] eqn:P; [|done].
  cbv zeta in R. destruct (Z.ltb_spec (now - u) stale_after); [done|].
  apply bind_Ok_inv in R as (id & Hi & R). injection R as <-. cbn. split; [|by exists u].
  unfold is_reapable, key_in in Re. apply existsb_spec in Re as (x & I & ->%String.eqb_eq). done.
Qed.

Lemma round_bounds n d a b : (0 < d)%Z -> (a * d <= n <= b * d)%Z ->
  (a <= round_half_even n d <= b)%Z.
Proof.
  intros D [A B]. pose proof (Z_div_mod_eq_full n d) as E.
  pose proof (Z.mod_pos_bound n d D) as M. unfold round_half_even.
  assert (L : (a <= n / d)%Z) by (apply Z.div_le_lower_bound; lia).
  assert (U : (n / d <= b)%Z) by (apply Z.div_le_upper_bound; lia).
  assert (S : (n mod d <> 0 -> n / d + 1 <= b)%Z) by nia.
  destruct (Z.ltb_spec (2 * (n mod d)) d); [lia|]. destruct (Z.ltb_spec d (2 * (n mod d))); [lia|].
  destruct (Z.even _); lia.
Qed.

Lemma py_round_bounds x a b : (inject_Z a <= x)%Q -> (x <= inject_Z b)%Q -> (a <= py_round x <= b)%Z.
Proof.
  unfold Qle, inject_Z, py_round. cbn. intros A B. apply round_bounds; [lia|]. lia.
Qed.

(** The range of every phase has whole bounds. *)
Lemma phase_range_whole phase : exists a b, phase_range phase = (inject_Z a, inject_Z b)
  /\ (0 <= a <= b)%Z /\ (b <= 100)%Z.
Proof.
  unfold phase_range.
  repeat match goal with
  | |- context [if ?c then _ else _] => destruct c
  end; do 2 eexists; (split; [reflexivity | lia]).
Qed.

(** The progress of a phase scales into the range of the phase, so into 0..100. *)
Theorem progress_is_bounded (phase : string) (p : Q) :
  (0 <= p)%Q -> (p <= 100)%Q ->
  exists a b, phase_range phase = (inject_Z a, inject_Z b) /\ (0 <= a)%Z /\ (b <= 100)%Z
              /\ (a <= scale_progress phase p <= b)%Z.
Proof.
  intros P0 P1. destruct (phase_range_whole phase) as (a & b & E & [A L] & B).
  exists a, b. split; [done|]. split; [done|]. split; [done|]. unfold scale_progress. rewrite E. cbv zeta.
  assert (0 <= p / 100 <= 1)%Q as [T0 T1] by (split; [apply Qle_shift_div_l | apply Qle_shift_div_r]; lra).
  set (t := (p / 100)%Q) in *. rewrite Zle_Qle in L. apply py_round_bounds; nra.
Qed.

(** *** The checkpoint *)

Lemma updated_status now s reason by_ c :
  dget "status" (updated_control now (Some s) reason (bool_decide (reason = None)) by_ c) = Some (JStr s).
Proof.
  unfold updated_control. cbv zeta. destruct reason as [r|].
  - rewrite bool_decide_false by done. destruct (String.eqb r _); control_simpl; done.
  - rewrite bool_decide_true by done. control_simpl; done.
Qed.

Lemma updated_reason now s reason by_ c :
  dget "reviewReason" (updated_control now (Some s) reason (bool_decide (reason = None)) by_ c)
  = JStr <$> reason.
Proof.
  unfold updated_control. cbv zeta. destruct reason as [r|].
  - rewrite bool_decide_false by done. destruct (String.eqb r _); control_simpl; done.
  - rewrite bool_decide_true by done. control_simpl; done.
Qed.

(** The events of a checkpoint on a plan with phases that nobody marked as done. *)
Definition recorded (status : string) (l : list checkpoint_ev) : Prop :=
  exists data rest, l = PvControl data
      :: PvTerminal (bool_decide (is_Some (phase_of_status status))) (String.eqb status "completed")
           (if String.eqb status "completed" || String.eqb status "human_review" then status else "failed")
      :: rest
    /\ dget "status" data = Some (JStr (new_status status))
    /\ dget "reviewReason" data = JStr <$> new_review_reason status.

Lemma recorded_app status l l' : recorded status l -> recorded status (l ++ l').
Proof. intros (data & rest & -> & A). by exists data, (rest ++ l'). Qed.

Lemma run_terminal_event {W} (h : CheckpointHooks W) status s :
  wp (run_terminal h (phase_of_status status)) (fun _ _ l => exists rest, l =
    PvTerminal (bool_decide (is_Some (phase_of_status status))) (String.eqb status "completed")
      (if String.eqb status "completed" || String.eqb status "human_review" then status else "failed")
    :: rest) s.
Proof.
  unfold run_terminal. apply wp_bind, wp_emit, wp_any. intros r s' l. exists l. cbn. f_equal.
  unfold phase_of_status.
  destruct (String.eqb_spec status "completed") as [->|]; [done|].
  destruct (String.eqb_spec status "failed") as [->|]; [done|].
  destruct (String.eqb_spec status "human_review") as [->|]; done.
Qed.

Lemma checkpoint_events {W} (h : CheckpointHooks W) status e s plan :
  cl_plan (ps_dir s) = Json (JObj plan) -> cl_writable (ps_dir s) = true ->
  status_is "done" (read_control (ps_dir s)) = false -> status_is "done" plan = false ->
  truthy (default JNull (dget "phases" plan)) = true ->
  wp (checkpoint h status e) (fun _ _ l => recorded status l) s.
Proof.
  intros P Wd C D T. unfold checkpoint. apply wp_bind, wp_lift. rewrite P.
  apply wp_bind, wp_lift. rewrite C. apply wp_bind, wp_lift. cbn [with_get]. rewrite D, T. cbn [negb].
  apply wp_bind. unfold wp at 1, write_plan. rewrite Wd.
  apply wp_bind. unfold wp at 1, control_write, write_control, _atomic_write_json.
  cbn [ps_dir with_dir cl_writable with_plan]. rewrite Wd. cbv beta iota.
  apply wp_bind, (wp_mono _ _ _ _ (run_terminal_event h status _)). intros r s1 l1 (rest & ->).
  destruct r as [u|x]; [apply wp_any; intros r2 s2 l2|];
    (eexists _, _; split; [reflexivity | split; [apply updated_status | apply updated_reason]]).
Qed.

(** A checkpoint records its status before anything else happens.  For a plan
    with phases in a directory that can be written, and no [done] set by hand, the control
    state is written first, with the status and the reason of the phase, and the terminal
    completion runs next, complete exactly for a completed build; after a [done] set by hand
    nothing is written or emitted. *)
Theorem checkpoint_records_status {W} (h : CheckpointHooks W) (status : string) (emit_events : bool)
    (s s' : CheckpointState W) (plan : dict) (r : res ()) (l : list checkpoint_ev) :
  cl_plan (ps_dir s) = Json (JObj plan) ->
  _update_plan_status h status emit_events s = (r, s', l) ->
  if status_is "done" (read_control (ps_dir s)) || status_is "done" plan
  then r = Ok () /\ s' = s /\ l = []
  else cl_writable (ps_dir s) = true -> truthy (default JNull (dget "phases" plan)) = true ->
    recorded status l.
Proof.
  intros P R. destruct (status_is "done" (read_control (ps_dir s)) || status_is "done" plan) eqn:D.
  - unfold _update_plan_status in R. rewrite bind_lift, P in R. cbv beta iota in R.
    rewrite (bind_run _ _ s true s []) in R by done. cbv beta iota in R.
    assert (C : checkpoint h status emit_events s = (Ok (), s, [])).
    { unfold checkpoint. rewrite bind_lift, P. cbv beta iota. rewrite bind_lift.
      destruct (status_is "done" (read_control _)); [done|]. cbn in D.
      rewrite bind_lift. cbn [with_get]. by rewrite D. }
    rewrite (bind_run _ _ s true s []) in R; [by injection R as <- <- <-|].
    unfold mbind, Eff_bind, rescue. by rewrite C.
  - intros Wd T. apply orb_false_iff in D as [D1 D2].
    refine (wp_run _ (fun _ _ l => recorded status l) s r s' l _ R).
    unfold _update_plan_status. apply wp_bind, wp_lift. rewrite P. apply wp_bind, wp_ret.
    apply wp_bind, wp_rescue, wp_bind.
    apply (wp_mono _ _ _ _ (checkpoint_events h status emit_events s plan P Wd D1 D2 T)).
    intros [u|x] s1 l1 K; [apply wp_ret|destruct x]; cbn [rescued app];
      (apply wp_any || idtac); intros; rewrite ?app_nil_r; by repeat apply recorded_app.
Qed.

(** A build that dies before it has a plan, its control file already written: the checkpoint
    records the failure in the plan alone, which nobody reads when there is a control file,
    and runs no completion. *)
Lemma terminal_status_is_lost {W} (h : CheckpointHooks W) (status : string) (emit_events : bool)
    (s : CheckpointState W) (c : dict) :
  status ∈ _TERMINAL_PLAN_STATUSES ->
  cl_plan (ps_dir s) = Missing -> cl_control (ps_dir s) = Json (JObj c) -> status_is "done" c = false ->
  cl_writable (ps_dir s) = true ->
  exists s' l, _update_plan_status h status emit_events s = (Ok (), s', l)
    /\ read_control (ps_dir s') = read_control (ps_dir s)
    /\ l = (if emit_events then [PvStatus "failed" (JStr "invalid_plan")] else []).
Proof.
  intros I P C D Wd. unfold _update_plan_status. rewrite bind_lift, P.
  assert (key_in _TERMINAL_PLAN_STATUSES status = true) as ->.
  { apply existsb_spec. exists status. by rewrite String.eqb_refl. }
  assert (Wp : write_plan (terminal_fallback status) s
    = (Ok (), with_dir (with_plan (ps_dir s) (Json (JObj (terminal_fallback status)))) s, [])).
  { unfold write_plan. by rewrite Wd. }
  set (s1 := with_dir _ s) in Wp.
  rewrite (bind_run _ _ s true s1 []); [|by rewrite (bind_run _ _ _ _ _ _ Wp)]. cbv beta iota.
  assert (K : checkpoint h status emit_events s1
    = (Ok (), s1, if emit_events then [PvStatus "failed" (JStr "invalid_plan")] else [])).
  { unfold checkpoint. rewrite bind_lift. cbn [s1 ps_dir with_dir cl_plan with_plan].
    rewrite bind_lift. unfold read_control at 1. cbn [s1 ps_dir with_dir cl_control with_plan].
    rewrite C, D, bind_lift. cbn [with_get].
    assert (status_is "done" (terminal_fallback status) = false) as ->.
    { unfold _TERMINAL_PLAN_STATUSES in I. rewrite !elem_of_cons, elem_of_nil in I.
      by destruct I as [->|[->|[]]]. }
    cbn. by destruct emit_events. }
  exists s1, (if emit_events then [PvStatus "failed" (JStr "invalid_plan")] else []).
  split; [|split; [|done]].
  - rewrite (bind_run _ _ s1 true s1 (if emit_events then [PvStatus "failed" (JStr "invalid_plan")] else [])).
    + cbn. by rewrite app_nil_r.
    + unfold mbind, Eff_bind, rescue. rewrite K. cbn. by rewrite app_nil_r.
  - unfold read_control. cbn. by rewrite C.
Qed.

(** The overall progress is meant never to go back; it does when planning starts after the
    specification, and when a build fails, where the last value was meant to stay. *)
Lemma progress_goes_back :
  scale_progress "spec_creation" 100 = 20%Z /\ scale_progress "planning" 0 = 0%Z
  /\ scale_progress "coding" 50 = 50%Z /\ scale_progress "failed" 50 = 0%Z.
Proof. by vm_compute. Qed.

Lemma progress_is_bounded_witness : (80 <= scale_progress "qa_review" 50 <= 95)%Z.
Proof.
  destruct (progress_is_bounded "qa_review" 50) as (a & b & E & _ & _ & K); [by vm_compute | by vm_compute |].
  injection E as <- <-. exact K.
Defined.

Lemma plan_approval_follows_log_witness :
  exists by_, dget "planApprovedBy" (read_control (foldl run_op
      {| cl_control := Missing; cl_plan := Json (JObj [("status", JStr "done"); ("planApproved", JBool true)]);
         cl_writable := true |}
      [Approve "t0" "ann"; Clear; Approve "t1" "bob";
       PlanChanged (Json (JObj [("planApproved", JBool false)]));
       Write "t2" (Some "in_progress") None true "web_server"])) = Some (JStr by_) /\ by_ = "bob".
Proof.
  pose proof (plan_approval_follows_log
    {| cl_control := Missing; cl_plan := Json (JObj [("status", JStr "done"); ("planApproved", JBool true)]);
       cl_writable := true |}
    [Approve "t0" "ann"; Clear; Approve "t1" "bob";
     PlanChanged (Json (JObj [("planApproved", JBool false)]));
     Write "t2" (Some "in_progress") None true "web_server"]) as T.
  destruct T as [(_ & B & _) _].
  - reflexivity.
  - intros k I. unfold _PLAN_APPROVAL_KEYS in I. rewrite !elem_of_cons, elem_of_nil in I.
    by destruct I as [->|[->|[->|[]]]].
  - exists "bob". split; [exact B | reflexivity].
Defined.

Definition example_hooks : CheckpointHooks () := {|
  ch_now _ := "now";
  ch_terminal _ _ _ s := (Ok (), s);
|}.
Definition example_checkpoint : CheckpointState () := {|
  ps_dir := {| cl_control := Json (JObj [("status", JStr "in_progress")]);
               cl_plan := Json (JObj [("phases", JList [JObj [("subtasks", JList [])]])]);
               cl_writable := true |};
  ps_world := () |}.

Lemma checkpoint_records_status_witness :
  exists data rest, (_update_plan_status example_hooks "failed" true example_checkpoint).2
    = PvControl data :: rest
    /\ dget "status" data = Some (JStr "human_review") /\ dget "reviewReason" data = Some (JStr "errors").
Proof.
  destruct (_update_plan_status example_hooks "failed" true example_checkpoint) as [[r s'] l] eqn:E.
  destruct (checkpoint_records_status example_hooks "failed" true example_checkpoint s'
    [("phases", JList [JObj [("subtasks", JList [])]])] r l eq_refl E eq_refl eq_refl)
    as (data & rest & L & S & R).
  exists data. eexists. split; [exact L | split; [exact S | exact R]].
Defined.
