(* ===== verification/Admission.v ===== *)
(** Admission of builds (web-server/server/services/agent_service.py and agent_queue.py): a
    build is started when a slot is free and parked otherwise, in memory or in the job store,
    and the queue is drained when a build ends; with the reaper of abandoned tasks
    (agent_kubejob.py).

    The awaited parts (spawning a process, dispatching a Job, tracking it, the sockets) are
    hooks.  A hook may change the job table, the files and the rest of the world, as other
    replicas do meanwhile, and says which builds of this process exit during the wait; the
    queue is held by the admission lock.  Each call of the store may find the database away,
    and then raises before it does anything. *)
From S2P Require Import Prelude PyData ApprovalGate TrustedPlan ContractTrust JobStore.
From S2P Require Import TaskControl EventMonad.
Local Open Scope nat_scope.

(** ** Spec directories (specpath.py) *)

Fixpoint all_of (f : ascii -> bool) (s : string) : bool :=
  match s with EmptyString => true | String c s' => f c && all_of f s' end.
Definition component_char (c : ascii) : bool := name_char c.

Definition safe_spec_component (text : string) : bool :=
  negb (String.eqb text ".") && negb (String.eqb text "..")
  && negb (is_empty text) && (String.length text <=? 255) && all_of component_char text.

Definition spec_dir_for (project_path spec_id : string) : res (string * string) :=
  if safe_spec_component spec_id then Ok (project_path, spec_id) else Err ValueError.

(** ** The state *)

Record SpecFiles := {
  sf_control : ControlDir;
  sf_metadata : file;
  sf_requirements : file;
}.
Definition no_files : SpecFiles := {|
  sf_control := {| cl_control := Missing; cl_plan := Missing; cl_writable := true |};
  sf_metadata := Missing; sf_requirements := Missing |}.

(** [running_tasks]: the process of each build of this replica. *)
Abbreviation procs := (list (string * Z)).
Definition holds (task : string) (l : procs) : bool := key_in (l.*1) task.
Fixpoint set_proc (task : string) (p : Z) (l : procs) : procs :=
  match l with
  | [] => [(task, p)]
  | (t, q) :: l' => if String.eqb task t then (t, p) :: l' else (t, q) :: set_proc task p l'
  end.
Definition without (gone : list string) (l : procs) : procs := keep (fun x => negb (key_in gone x.1)) l.

Record QueuedTask := { qt_task_id : string; qt_args : SpawnArgs }.

Record Env {W : Type} := {
  en_jobs : table;
  en_files : gmap (string * string) SpecFiles;
  en_kubejobs : list string;  (* _active_kubejob_task_ids *)
  en_world : W;
}.
Arguments Env : clear implicits.

Record St {W : Type} := {
  ag_running : procs;
  ag_queue : list QueuedTask;
  ag_env : Env W;
}.
Arguments St : clear implicits.

Definition with_running {W} (l : procs) (s : St W) : St W :=
  {| ag_running := l; ag_queue := ag_queue s; ag_env := ag_env s |}.
Definition with_queue {W} (q : list QueuedTask) (s : St W) : St W :=
  {| ag_running := ag_running s; ag_queue := q; ag_env := ag_env s |}.
Definition with_env {W} (e : Env W) (s : St W) : St W :=
  {| ag_running := ag_running s; ag_queue := ag_queue s; ag_env := e |}.
Definition with_jobs {W} (db : table) (e : Env W) : Env W :=
  {| en_jobs := db; en_files := en_files e; en_kubejobs := en_kubejobs e; en_world := en_world e |}.
Definition with_files {W : Type} (f : gmap (string * string) SpecFiles) (e : Env W) : Env W :=
  {| en_jobs := en_jobs e; en_files := f; en_kubejobs := en_kubejobs e; en_world := en_world e |}.

(** What happens to a build: the store granted it a slot, the memory queue let it go, it runs
    as a process or a Job, it was running already, its slot was freed again (with the table
    then), its slot could not be freed, it was dropped. *)
Inductive ev :=
  | EvGranted (task : string)
  | EvDequeued (task : string)
  | EvSpawned (task : string)
  | EvDispatched (task : string)
  | EvSkipped (task : string)
  | EvFreed (task : string) (db : table)
  | EvStuck (task : string)
  | EvDropped (task : string)
  | EvQueued (task : string)
  | EvReaped (task : string).

Definition Wait (W A : Type) : Type := Env W -> res A * Env W * list string.

(** What the board shows of a task. *)
Record TaskView := { tv_id : string; tv_status : string; tv_updated_at : string }.

Record Hooks {W : Type} := {
  h_now : Env W -> Z;
  h_db : Env W -> bool * Env W;              (* whether the database answers *)
  h_exec : string -> SpawnArgs -> Wait W Z;  (* up to the start of the process *)
  h_track : string -> Wait W ();             (* what follows its registration *)
  h_dispatch : string -> SpawnArgs -> Wait W ();
  h_stop : string -> Wait W ();              (* signals, waits, finalises the logs *)
  h_emit : string -> string -> Wait W ();    (* a status event; it may raise *)
  h_update : string -> string -> Wait W ();  (* _update_plan_status *)
  h_core : Wait W bool;                      (* whether the cluster can be asked *)
  h_pod_gone : string -> Wait W bool;
  h_projects : Env W -> option (list string);
  h_spec_dirs : string -> Env W -> option (list (string * string));
  h_task : string * string -> Env W -> option TaskView;
  h_seconds : Env W -> Z;
  h_iso : string -> option Z;                (* an ISO time stamp in seconds *)
}.
Arguments Hooks : clear implicits.

(** The process: its environment, the cap, the identity of its pod. *)
Record Service := {
  sv_env : env_list;
  sv_cap : Z;
  sv_pod : string;
  sv_boot : string;
}.

Section Service.
Context {W : Type} (H : Hooks W) (a : Service).
Abbreviation M := (Eff (St W) ev).

Definition _store_enabled : bool := store_enabled (env_get "DATABASE_URL" (sv_env a)).
Definition _concurrency_cap : Z := sv_cap a.
Definition _kubejob_backend_enabled : bool :=
  String.eqb (selected_backend (sv_env a)) BACKEND_KUBEJOB && _store_enabled.

Definition awaits {A} (f : Wait W A) : M A := fun s =>
  let '(r, e, gone) := f (ag_env s) in
  (r, with_env e (with_running (without gone (ag_running s)) s), []).

(** What a [try] block ended with. *)
Definition attempt {A} (m : M A) : M (res A) := fun s => let '(r, s, l) := m s in (Ok r, s, l).
Definition raise {A} (e : exn) : M A := fails e.
Definition sets (f : St W -> St W) : M () := hooked (fun s => (Ok (), f s)).

Definition operational_error : exn := AppError "OperationalError".

(** A transaction of the job store. *)
Definition store {A} (f : Z -> table -> res (A * table)) : M A := fun s =>
  let '(up, e) := h_db H (ag_env s) in
  let s := with_env e s in
  if up : bool then
    match f (h_now H e) (en_jobs e) with
    | Ok (x, db) => (Ok x, with_env (with_jobs db e) s, [])
    | Err x => (Err x, s, [])
    end
  else (Err operational_error, s, []).

Definition files_of (key : string * string) (s : St W) : SpecFiles :=
  default no_files (en_files (ag_env s) !! key).

(** ** Starting a build *)

Definition _spawn_task_execution (task_id : string) (args : SpawnArgs) : M (option Z) :=
  running ← reads (fun s => holds task_id (ag_running s));
  if running : bool then raise ValueError
  else
    pid ← awaits (h_exec H task_id args);
    sets (fun s => with_running (set_proc task_id pid (ag_running s)) s) ;;
    awaits (h_track H task_id) ;;
    mret (Some pid).

Definition _start_build_unit (task_id : string) (args : SpawnArgs) : M (option Z) :=
  match backend_config_error (sv_env a) _store_enabled with
  | Some _ => raise (AppError "BuildBackendUnavailableError")
  | None =>
      if _kubejob_backend_enabled then
        awaits (h_dispatch H task_id args) ;; emit (EvDispatched task_id) ;; mret None
      else
        (if _store_enabled
         then store (fun now db => Ok ((), JobStateStore.mark_running now (sv_pod a) (sv_boot a) task_id db))
         else mret ()) ;;
        p ← _spawn_task_execution task_id args;
        emit (EvSpawned task_id) ;; mret p
  end.

(** Only [OSError] of the write is caught. *)
Definition _mark_task_queued (task_id : string) (args : SpawnArgs) : M () :=
  key ← lift (fun _ => spec_dir_for (sa_project_path args) (sa_spec_id args));
  sets (fun s =>
    let f := files_of key s in
    let d := (write_control (pretty (h_now H (ag_env s))) (Some "queued") None true "web_server"
                (sf_control f)).2 in
    with_env (with_files (<[key := {| sf_control := d; sf_metadata := sf_metadata f;
                                      sf_requirements := sf_requirements f |}]> (en_files (ag_env s)))
                (ag_env s)) s) ;;
  shielded (awaits (h_emit H task_id "queued")).

Definition is_queued (task_id : string) (s : St W) : bool :=
  existsb (fun q => String.eqb (qt_task_id q) task_id) (ag_queue s).

(** [parallel] and [workers] of task_metadata.json: a document that is not an object raises
    AttributeError. *)
Definition _read_parallel_opts (metadata : file) : res (option bool * option Z) :=
  match metadata with
  | Missing | Broken => Ok (None, None)
  | Json v => with_get v (fun d =>
      let! parallel := get_opt as_bool "parallel" d in
      let! workers := get_opt as_int "workers" d in Ok (parallel, workers))
  end.

Definition _read_correlation_key (requirements : file) : res (option string) :=
  match requirements with
  | Missing | Broken => Ok None
  | Json v => with_get v (fun req =>
      match dget "provenance" req with
      | Some (JObj prov) =>
          match dget "issue_number" prov with
          | None | Some JNull => Ok None
          | Some n => Some <$> py_str n
          end
      | _ => Ok None
      end)
  end.

Definition with_parallel (args : SpawnArgs) (parallel : option bool) (workers : option Z) : SpawnArgs :=
  {| sa_project_path := sa_project_path args; sa_spec_id := sa_spec_id args;
     sa_auto_continue := sa_auto_continue args; sa_base_branch := sa_base_branch args;
     sa_mode := sa_mode args; sa_force := sa_force args; sa_user_id := sa_user_id args;
     sa_stop_after_planning := sa_stop_after_planning args; sa_parallel := parallel;
     sa_workers := workers |}.

(** The checks of a start, before it asks for the lock, and the arguments it resolves. *)
Definition start_guard (task_id : string) (args : SpawnArgs) : M SpawnArgs :=
  s ← reads id;
  if holds task_id (ag_running s) then raise ValueError
  else if is_queued task_id s then raise ValueError
  else
    key ← lift (fun _ => spec_dir_for (sa_project_path args) (sa_spec_id args));
    let f := files_of key s in
    if subprocess_gate_refusal (sv_env a) (Some (sf_metadata f)) (sa_mode args)
    then raise (AppError "GatedTaskRefusedError")
    else match sa_parallel args with
         | Some _ => mret args
         | None =>
             o ← lift (fun _ => _read_parallel_opts (sf_metadata f));
             mret (with_parallel args o.1 (match sa_workers args with None => o.2 | w => w end))
         end.

(** The part of a start in memory that holds the admission lock. *)
Definition start_locked (task_id : string) (args : SpawnArgs) : M (option Z) :=
  free ← reads (fun s => (_concurrency_cap <=? 0)%Z
                         || (Z.of_nat (length (ag_running s)) <? _concurrency_cap)%Z);
  if free : bool then _start_build_unit task_id args
  else
    sets (fun s => with_queue (ag_queue s ++ [{| qt_task_id := task_id; qt_args := args |}]) s) ;;
    emit (EvQueued task_id) ;;
    _mark_task_queued task_id args ;;
    mret None.

Definition mark_failed (task_id error : string) : M () :=
  store (fun now db =>
    Ok ((), JobStateStore.mark_terminal now task_id "failed" None (Some error) None None db)).

(** Frees the slot of a build that did not start. *)
Definition free_slot (task_id error : string) : M () :=
  mark_failed task_id error ;;
  db ← reads (fun s => en_jobs (ag_env s));
  emit (EvFreed task_id db).

Definition _start_task_execution_durable (task_id : string) (args : SpawnArgs) : M (option Z) :=
  s ← reads (files_of (sa_project_path args, sa_spec_id args));
  correlation_key ← lift (fun _ => _read_correlation_key (sf_requirements s));
  outcome ← store (fun now db =>
    let! r := JobStateStore.admit_job now task_id args _concurrency_cap correlation_key db in
    Ok (r.2, r.1));
  if String.eqb outcome "started" then
    emit (EvGranted task_id) ;;
    r ← attempt (_start_build_unit task_id args);
    match r with
    | Ok p => mret p
    | Err e =>
        f ← attempt (free_slot task_id "spawn failed during admission");
        match f with
        | Ok _ => raise e
        | Err e' => emit (EvStuck task_id) ;; raise e'
        end
    end
  else
    emit (EvQueued task_id) ;;
    _mark_task_queued task_id args ;;
    mret None.

Definition start_task_execution (task_id : string) (args : SpawnArgs) : M (option Z) :=
  args ← start_guard task_id args;
  if _store_enabled then _start_task_execution_durable task_id args else start_locked task_id args.

(** ** Draining the queue (agent_queue.py) *)

Definition popleft (s : St W) : St W := with_queue (tail (ag_queue s)) s.

(** The body of the loop on the first build of the queue. *)
Definition drain_turn (qt : QueuedTask) : M () :=
  sets popleft ;;
  emit (EvDequeued (qt_task_id qt)) ;;
  running ← reads (fun s => holds (qt_task_id qt) (ag_running s));
  if running : bool then emit (EvSkipped (qt_task_id qt))
  else
    r ← attempt (_start_build_unit (qt_task_id qt) (qt_args qt));
    match r with Ok _ => mret () | Err _ => emit (EvDropped (qt_task_id qt)) end.

Fixpoint drain_memory (fuel : nat) : M () :=
  match fuel with
  | 0 => mret ()
  | S fuel =>
      s ← reads id;
      match ag_queue s with
      | [] => mret ()
      | qt :: _ =>
          if (_concurrency_cap <=? 0)%Z || (Z.of_nat (length (ag_running s)) <? _concurrency_cap)%Z
          then drain_turn qt ;; drain_memory fuel
          else mret ()
      end
  end.

Definition start_promoted (job : string * SpawnArgs) : M () :=
  running ← reads (fun s => holds job.1 (ag_running s));
  if running : bool then emit (EvSkipped job.1)
  else
    r ← attempt (_start_build_unit job.1 job.2);
    match r with
    | Ok _ => mret ()
    | Err _ =>
        f ← attempt (free_slot job.1 "spawn failed on dequeue");
        match f with Ok _ => mret () | Err _ => emit (EvStuck job.1) end
    end.

Fixpoint each {A} (f : A -> M ()) (l : list A) : M () :=
  match l with [] => mret () | x :: l' => f x ;; each f l' end.

Definition _drain_queue_durable : M () :=
  promoted ← rescue (store (fun now db =>
    let! r := JobStateStore.drain now _concurrency_cap db in Ok (r.2, r.1))) [];
  each (fun job => emit (EvGranted job.1)) promoted ;;
  each start_promoted promoted.

(** A queue of [n] builds takes [n] turns at most. *)
Definition _drain_queue : M () :=
  if _store_enabled then _drain_queue_durable
  else n ← reads (fun s => length (ag_queue s)); drain_memory (S n).

(** ** The end of a build *)

(** [(ctrl.get(k) or '').lower()] *)
Definition lowered (k : string) (ctrl : dict) : res string :=
  match dget k ctrl with
  | Some v => if truthy v then match v with JStr t => Ok (lower t) | _ => Err AttributeError end else Ok ""
  | None => Ok ""
  end.

Definition exit_lifecycle (ctrl : dict) : res (string * option string) :=
  let! status := lowered "status" ctrl in
  let! reason := lowered "review_reason" ctrl in
  Ok (if String.eqb status "failed" || key_in ["errors"; "invalid_plan"] reason
      then ("failed", Some (if is_empty reason then "build failed" else reason))
      else if key_in ["human_review"; "ai_review"; "review_pending"] status then ("review", None)
      else ("done", None)).

Definition _k8s_job_owns (task_id : string) : M bool :=
  state ← rescue (store (fun _ db => Ok (JobStateStore.get_state task_id db, db))) None;
  mret (match state with
        | Some v => JobStateStore.kind_is "k8s-job" (JobStateStore.sv_worker_ref v)
        | None => false
        end).

(** [spec_dir] is None when the service knows none; an error while reading leaves [done].
    The report of the usage is left out. *)
Definition _free_durable_slot_on_exit (task_id : string) (spec_dir : option (string * string)) : M () :=
  running ← reads (fun s => holds task_id (ag_running s));
  if negb _store_enabled || running then mret ()
  else
    lifecycle ← match spec_dir with
                | Some key => rescue (lift (fun s => exit_lifecycle (read_control (sf_control (files_of key s)))))
                                     ("done", None)
                | None => mret ("done", None)
                end;
    owned ← _k8s_job_owns task_id;
    if owned : bool then mret ()
    else shielded (store (fun now db =>
           Ok ((), JobStateStore.mark_terminal now task_id lifecycle.1 None lifecycle.2 None None db))).

(** What follows the monitor of a process. *)
Definition after_exit (task_id : string) (spec_dir : option (string * string)) : M () :=
  _free_durable_slot_on_exit task_id spec_dir ;; _drain_queue.

Definition _stop_kubejob_build (task_id : string) : M bool :=
  state ← rescue (store (fun _ db => Ok (JobStateStore.get_state task_id db, db))) None;
  match state with
  | Some v =>
      if String.eqb (JobStateStore.sv_lifecycle_state v) "running"
         && JobStateStore.kind_is "k8s-job" (JobStateStore.sv_worker_ref v) then
        shielded (awaits (h_stop H task_id)) ;;
        shielded (mark_failed task_id "stopped by user") ;;
        shielded (awaits (h_emit H task_id "human_review")) ;;
        _drain_queue ;;
        mret true
      else mret false
  | None => mret false
  end.

Definition stop_task (task_id : string) : M bool :=
  s ← reads id;
  if holds task_id (ag_running s) then
    awaits (h_stop H task_id) ;;
    sets (fun s => with_running (without [task_id] (ag_running s)) s) ;;
    (if _store_enabled then shielded (mark_failed task_id "stopped by user") else mret ()) ;;
    shielded (awaits (h_emit H task_id "human_review")) ;;
    mret true
  else
    removed ← (if _store_enabled
               then rescue (store (fun _ db => let r := JobStateStore.remove_queued task_id db in
                                               Ok (r.2, r.1))) false
               else mret false);
    queued ← reads (is_queued task_id);
    if removed : bool then mret true
    else if queued : bool then
      sets (fun s => with_queue (keep (fun q => negb (String.eqb (qt_task_id q) task_id)) (ag_queue s)) s) ;;
      mret true
    else if _kubejob_backend_enabled then _stop_kubejob_build task_id
    else mret false.

(** ** Restart *)

Definition _fail_orphan_row (job_id pod boot reason : string) : M bool :=
  rescue (store (fun now db => let r := JobStateStore.fail_subprocess_row now job_id pod boot reason db in
                               Ok (r.2, r.1))) false.

(** [row['pod'] and row['boot']], both texts. *)
Definition stamped (row : string * option json * option json) : option (string * string * string) :=
  match row with
  | (job_id, Some (JStr pod), Some (JStr boot)) =>
      if is_empty pod || is_empty boot then None else Some (job_id, pod, boot)
  | _ => None
  end.

Definition reap_row (core : bool) (row : string * string * string) : M (list string) :=
  let '(job_id, pod, boot) := row in
  reason ← (if String.eqb pod (sv_pod a)
            then mret (Some "control plane restarted under the build (#1705)")
            else if core then gone ← awaits (h_pod_gone H pod);
                              mret (if gone : bool
                                    then Some ("owning pod " +:+ pod +:+ " no longer exists (#1705)")
                                    else None)
            else mret None);
  match reason with
  | Some reason => ok ← _fail_orphan_row job_id pod boot reason; mret (if ok : bool then [job_id] else [])
  | None => mret []
  end.

Fixpoint gather {A B} (f : A -> M (list B)) (l : list A) : M (list B) :=
  match l with [] => mret [] | x :: l' => y ← f x; z ← gather f l'; mret (y ++ z) end.

Definition reap_orphaned_subprocess_rows : M (list string) :=
  if negb _store_enabled then mret []
  else
    rows ← rescue (store (fun _ db => Ok (JobStateStore.get_running_subprocess_rows db, db))) [];
    let rows := keep (fun r : string * string * string =>
                        negb (String.eqb r.1.2 (sv_pod a) && String.eqb r.2 (sv_boot a)))
                  (omap stamped rows) in
    core ← (if existsb (fun r : string * string * string => negb (String.eqb r.1.2 (sv_pod a))) rows
            then awaits (h_core H) else mret false);
    reaped ← gather (reap_row core) rows;
    (if list_truthy reaped then shielded _drain_queue else mret ()) ;;
    mret reaped.

Definition reconcile_on_startup : M (nat * nat) :=
  if negb _store_enabled then mret (0, 0)
  else
    reap_orphaned_subprocess_rows ;;
    state ← attempt (store (fun _ db => let! r := JobStateStore.reconstruct db in Ok (r, db)));
    match state with
    | Err _ => mret (0, 0)
    | Ok (running, queued) => _drain_queue ;; mret (length running, length queued)
    end.

(** ** Abandoned tasks *)

Definition is_running (task_id : string) (s : St W) : bool :=
  holds task_id (ag_running s) || key_in (en_kubejobs (ag_env s)) task_id.

Definition is_running_anywhere (task_id : string) : M bool :=
  here ← reads (is_running task_id);
  if here : bool then mret true
  else if negb _store_enabled then mret false
  else
    state ← attempt (store (fun _ db => Ok (JobStateStore.get_state task_id db, db)));
    mret (match state with
          | Err _ => true
          | Ok (Some v) => String.eqb (JobStateStore.sv_lifecycle_state v) "running"
          | Ok None => false
          end).

Definition _TERMINAL_STATES : list string := ["done"; "failed"; "stuck"; "review"].
Definition _REAPABLE_RUNNING_STATUSES : list string := ["in_progress"].

Definition _kubejob_liveness (task_id : string) : M string :=
  if negb _store_enabled then mret "absent"
  else
    state ← attempt (store (fun _ db => Ok (JobStateStore.get_state task_id db, db)));
    mret (match state with
          | Ok (Some v) =>
              if String.eqb (JobStateStore.sv_lifecycle_state v) "running" then "live"
              else if key_in _TERMINAL_STATES (JobStateStore.sv_lifecycle_state v) then "absent"
              else "unknown"
          | Ok None | Err _ => "unknown"
          end).

Definition _task_stale (updated_at : string) (now deadline_seconds : Z) : bool :=
  match h_iso H updated_at with Some t => (deadline_seconds <? now - t)%Z | None => false end.

Definition reap_one (now deadline_seconds : Z) (key : string * string) : M (list string) :=
  s ← reads id;
  match h_task H key (ag_env s) with
  | Some task =>
      if negb (key_in _REAPABLE_RUNNING_STATUSES (tv_status task)) then mret []
      else if is_running (tv_id task) s then mret []
      else
        alive ← _kubejob_liveness (tv_id task);
        if negb (String.eqb alive "absent") then mret []
        else if negb (_task_stale (tv_updated_at task) now deadline_seconds) then mret []
        else
          ok ← attempt (awaits (h_update H (tv_id task) "failed"));
          match ok with
          | Ok _ => emit (EvReaped (tv_id task)) ;; mret [tv_id task]
          | Err _ => mret []
          end
  | None => mret []
  end.

Definition reap_project (now deadline_seconds : Z) (project : string) : M (list string) :=
  dirs ← reads (fun s => h_spec_dirs H project (ag_env s));
  gather (reap_one now deadline_seconds) (default [] dirs).

Definition reap_abandoned_tasks (deadline_seconds : Z) : M (list string) :=
  s ← reads id;
  gather (reap_project (h_seconds H (ag_env s)) deadline_seconds) (default [] (h_projects H (ag_env s))).
End Service.

(** ** Lemmas *)

Section Logic.
Context {W : Type} (H : Hooks W) (a : Service).
Abbreviation M := (Eff (St W) ev).

Lemma wp_attempt {A} (m : M A) Q s :
  wp m (fun r s' l => Q (Ok r) s' l) s -> wp (attempt m) Q s.
Proof. unfold wp, attempt. by destruct (m s) as [[r s'] l]. Qed.

Lemma wp_sets f (Q : res () -> St W -> list ev -> Prop) s : Q (Ok ()) (f s) [] -> wp (sets f) Q s.
Proof. done. Qed.

(** A wait lets builds exit and the rest of the world change. *)
Lemma wp_awaits {A} (f : Wait W A) (Q : res A -> St W -> list ev -> Prop) s :
  (forall r e gone, Q r (with_env e (with_running (without gone (ag_running s)) s)) []) ->
  wp (awaits f) Q s.
Proof. intros K. unfold wp, awaits. destruct (f (ag_env s)) as [[r e] gone]. apply K. Qed.

Lemma wp_store {A} (f : Z -> table -> res (A * table)) (Q : res A -> St W -> list ev -> Prop) s :
  (forall r e, Q r (with_env e s) []) -> wp (store H f) Q s.
Proof.
  intros K. unfold wp, store. destruct (h_db H (ag_env s)) as [[] e]; [|apply K].
  destruct (f _ _) as [[x db]|x]; apply K.
Qed.

(** The queue stays, and only waits make builds go. *)
Definition same_queue (s s' : St W) : Prop := ag_queue s' = ag_queue s.

Lemma without_length gone (l : procs) : length (without gone l) <= length l.
Proof. apply sublist_length, keep_sublist. Qed.

Lemma set_proc_length t p (l : procs) : length (set_proc t p l) <= S (length l).
Proof. induction l as [|[t' q] l IH]; cbn; [done|]. destruct (String.eqb t t'); cbn in *; lia. Qed.

(** A start of a build adds at most its own process, emits its event when it succeeds and
    nothing when it raises. *)
Definition started (t : string) (s : St W) (r : res (option Z)) (s' : St W) (l : list ev) : Prop :=
  same_queue s s' /\ length (ag_running s') <= S (length (ag_running s))
  /\ match r with
     | Ok _ => l = [EvSpawned t] \/ (_store_enabled a = true /\ l = [EvDispatched t])
     | Err _ => l = []
     end.

Lemma spawn_spec t args s :
  wp (_spawn_task_execution H t args) (fun _ s' l => same_queue s s' /\ l = []
        /\ length (ag_running s') <= S (length (ag_running s))) s.
Proof.
  unfold _spawn_task_execution. apply wp_bind, wp_reads.
  destruct (holds t (ag_running s)); [unfold wp; cbn; split_and!; done || lia|].
  apply wp_bind, wp_awaits. intros [pid|x] e gone.
  - apply wp_bind, wp_sets, wp_bind, wp_awaits. intros r e' gone'.
    assert (L : length (without gone' (set_proc t pid (without gone (ag_running s))))
                <= S (length (ag_running s))).
    { etrans; [apply without_length|]. etrans; [apply set_proc_length|].
      pose proof (without_length gone (ag_running s)). lia. }
    destruct r; cbn; done.
  - cbn. split_and!; [done..|]. pose proof (without_length gone (ag_running s)). lia.
Qed.

Lemma start_unit_spec t args s : wp (_start_build_unit H a t args) (started t s) s.
Proof.
  unfold _start_build_unit. destruct (backend_config_error _ _); [unfold wp; cbn; repeat split; lia|].
  destruct (_kubejob_backend_enabled a) eqn:K.
  - apply wp_bind, wp_awaits. intros r e gone. pose proof (without_length gone (ag_running s)).
    assert (_store_enabled a = true) by (unfold _kubejob_backend_enabled in K; apply andb_true_iff in K; tauto).
    destruct r; cbn -[without]; (split; [done|]; split; [|]); auto.
  - apply wp_bind.
    assert (C : wp (if _store_enabled a
      then store H (fun now db => Ok ((), JobStateStore.mark_running now (sv_pod a) (sv_boot a) t db))
      else mret ()) (fun r s' l => same_queue s s' /\ ag_running s' = ag_running s /\ l = []) s).
    { destruct (_store_enabled a); [|by apply wp_ret]. apply wp_store. by intros. }
    apply (wp_mono _ _ _ _ C). intros r s1 l1 (Q1 & R1 & ->). destruct r as [u|x].
    + apply wp_bind, (wp_mono _ _ _ _ (spawn_spec t args s1)). intros r s2 l2 (Q2 & -> & R2).
      unfold same_queue in *. rewrite R1 in R2. destruct r as [p|x]; cbn.
      * repeat split; [congruence | done | by left].
      * repeat split; [congruence | done].
    + cbn. repeat split; [done | rewrite R1; lia].
Qed.

(** *** Accounts of the slots *)

Definition granted (e : ev) : option string := match e with EvGranted t => Some t | _ => None end.
Definition settled (e : ev) : option string :=
  match e with
  | EvSpawned t | EvDispatched t | EvSkipped t | EvFreed t _ | EvStuck t => Some t
  | _ => None
  end.
Definition freed_ok (e : ev) : Prop :=
  match e with EvFreed t db => JobStateStore.is_running t db = false | _ => True end.

(** Every slot that was granted is settled, in the order of the grants, and a slot that was
    freed is free. *)
Definition accounted (l : list ev) : Prop :=
  omap granted l = omap settled l /\ Forall freed_ok l.

Lemma accounted_app l l' : accounted l -> accounted l' -> accounted (l ++ l').
Proof. intros [A F] [A' F']. split; [by rewrite !omap_app, A, A' | by apply Forall_app]. Qed.

Definition balanced {A} (m : M A) : Prop := forall s, accounted (m s).2.

Lemma balanced_quiet {A} (m : M A) : quiet m -> balanced m.
Proof. intros K s. rewrite (K s). by split. Qed.

Lemma balanced_emit e : granted e = None -> settled e = None -> balanced (emit e).
Proof. intros G S s. cbn. split; cbn; [by rewrite G, S|]. by destruct e; repeat constructor. Qed.

Lemma balanced_bind {A B} (m : M A) (f : A -> M B) :
  balanced m -> (forall x, balanced (f x)) -> balanced (mbind f m).
Proof.
  intros K F s. unfold mbind, Eff_bind. specialize (K s). destruct (m s) as [[[x|e] s'] l]; [|done].
  specialize (F x s'). destruct (f x s') as [[r s''] l']. by apply accounted_app.
Qed.

Lemma balanced_wp {A} (m : M A) Q : (forall s, wp m Q s) ->
  (forall r s' l, Q r s' l -> accounted l) -> balanced m.
Proof. intros K F s. specialize (K s). unfold wp in K. destruct (m s) as [[r s'] l]. by apply (F r s'). Qed.

Lemma balanced_shielded {A} (m : M A) : balanced m -> balanced (shielded m).
Proof. intros K s. unfold shielded. specialize (K s). by destruct (m s) as [[]]. Qed.

Lemma balanced_rescue {A} (m : M A) v : balanced m -> balanced (rescue m v).
Proof. intros K s. unfold rescue. specialize (K s). by destruct (m s) as [[]]. Qed.

Lemma balanced_attempt {A} (m : M A) : balanced m -> balanced (attempt m).
Proof. intros K s. unfold attempt. specialize (K s). by destruct (m s) as [[]]. Qed.

Lemma quiet_awaits {A} (f : Wait W A) : quiet (awaits f).
Proof. intros s. unfold awaits. by destruct (f (ag_env s)) as [[r e] gone]. Qed.

Lemma quiet_store {A} (f : Z -> table -> res (A * table)) : quiet (store H f).
Proof.
  intros s. unfold store. destruct (h_db H (ag_env s)) as [[] e]; [|done]. by destruct (f _ _) as [[x db]|x].
Qed.

Lemma balanced_each {A} (f : A -> M ()) l : (forall x, balanced (f x)) -> balanced (each f l).
Proof. intros K. induction l as [|x l IH]; [by apply balanced_quiet|]. by apply balanced_bind. Qed.

Lemma balanced_gather {A B} (f : A -> M (list B)) l : (forall x, balanced (f x)) -> balanced (gather f l).
Proof.
  intros K. induction l as [|x l IH]; [by apply balanced_quiet|]. apply balanced_bind; [done|]. intros y.
  apply balanced_bind; [done|]. intros z. by apply balanced_quiet.
Qed.
End Logic.

Lemma get_update i f db : (forall r, js_job_id (f r) = js_job_id r) ->
  JobStore.get i (JobStore.update i f db) = f <$> JobStore.get i db.
Proof.
  intros K. unfold JobStore.get, JobStore.update.
  induction db as [|r db IH]; [done|]. cbn. destruct (String.eqb (js_job_id r) i) eqn:E; cbn.
  - by rewrite K, E.
  - by rewrite E.
Qed.

Lemma failed_not_running now i error db :
  JobStateStore.is_running i (JobStateStore.mark_terminal now i "failed" None error None None db) = false.
Proof.
  unfold JobStateStore.is_running, JobStateStore.has_state, JobStateStore.mark_terminal.
  destruct (JobStore.get i db) as [r|] eqn:E; cbv zeta; [|by rewrite E].
  rewrite get_update by done. by rewrite E.
Qed.

Create HintDb quietly.

(** Steps through the statements of a block, closing the ones that are quiet. *)
Ltac quiet_block := repeat (apply quiet_bind; [solve [auto with quietly] | intros _]).
Ltac balanced_block := repeat (apply balanced_bind; [solve [auto with quietly] | intros _]).

Section Durable.
Context {W : Type} (H : Hooks W) (a : Service) (durable : _store_enabled a = true).
Abbreviation M := (Eff (St W) ev).

(** An event that settles one build. *)
Definition settles (t : string) (l : list ev) : Prop :=
  omap granted l = [] /\ omap settled l = [t] /\ Forall freed_ok l.

Lemma free_slot_spec t error s :
  wp (free_slot H t error) (fun r _ l => match r with Ok _ => settles t l | Err _ => l = [] end) s.
Proof.
  unfold free_slot, mark_failed. apply wp_bind. unfold wp at 1, store.
  destruct (h_db H (ag_env s)) as [[] e]; [|done]. apply wp_bind, wp_reads.
  cbn. split; [done|]. split; [done|]. repeat constructor. cbn. apply failed_not_running.
Qed.

Lemma settles_started t (s : St W) r s' l : started a t s (Ok r) s' l -> settles t l.
Proof. intros (_ & _ & [->|[_ ->]]); repeat constructor. Qed.

Lemma start_promoted_spec job s :
  wp (start_promoted H a job) (fun r _ l => r = Ok () /\ settles job.1 l) s.
Proof.
  unfold start_promoted. apply wp_bind, wp_reads.
  destruct (holds job.1 (ag_running s)); [by repeat constructor|].
  apply wp_bind, wp_attempt, (wp_mono _ _ _ _ (start_unit_spec H a job.1 job.2 s)).
  intros [p|x] s1 l1 K.
  - apply wp_ret. rewrite app_nil_r. split; [done|]. by apply (settles_started _ s p s1).
  - destruct K as (_ & _ & ->). apply wp_bind, wp_attempt, (wp_mono _ _ _ _ (free_slot_spec job.1 _ s1)).
    intros [u|x'] s2 l2 K2.
    + apply wp_ret. rewrite app_nil_r. by split.
    + rewrite K2. by repeat constructor.
Qed.

Lemma each_promoted jobs s :
  wp (each (start_promoted H a) jobs) (fun r _ l => r = Ok ()
        /\ omap granted l = [] /\ omap settled l = jobs.*1 /\ Forall freed_ok l) s.
Proof.
  revert s. induction jobs as [|job jobs IH]; intros s; [by apply wp_ret|]. cbn [each].
  apply wp_bind, (wp_mono _ _ _ _ (start_promoted_spec job s)). intros r s1 l1 (-> & G & S & F).
  apply (wp_mono _ _ _ _ (IH s1)). intros r s2 l2 (-> & G' & S' & F').
  rewrite !omap_app, G, G', S, S'. split_and!; [done..|]. by apply Forall_app.
Qed.

Lemma each_granted (jobs : list (string * SpawnArgs)) (s : St W) :
  wp (each (fun job : string * SpawnArgs => emit (EvGranted job.1)) jobs)
     (fun r s' l => r = Ok () /\ l = (EvGranted <$> jobs.*1)) s.
Proof.
  revert s. induction jobs as [|job jobs IH]; intros s; [by apply wp_ret|]. cbn [each].
  apply wp_bind, wp_emit, (wp_mono _ _ _ _ (IH s)). intros r s1 l1 (-> & ->). by split.
Qed.

Lemma grants_only ids :
  omap granted (EvGranted <$> ids) = ids /\ omap settled (EvGranted <$> ids) = []
  /\ Forall freed_ok (EvGranted <$> ids).
Proof. induction ids as [|i ids (A & B & C)]; [by repeat constructor|]. cbn. rewrite A, B. by repeat constructor. Qed.

Lemma drain_accounted : balanced (_drain_queue_durable H a).
Proof.
  apply balanced_bind; [apply balanced_quiet, quiet_rescue, quiet_store|]. intros jobs.
  apply (balanced_wp _ (fun _ _ l => accounted l)); [|done]. intros s.
  apply wp_bind, (wp_mono _ _ _ _ (each_granted jobs s)). intros r1 s2 l2 (-> & ->).
  apply (wp_mono _ _ _ _ (each_promoted jobs s2)). intros r2 s3 l3 (_ & G & S & F).
  destruct (grants_only jobs.*1) as (A & B & C). unfold accounted.
  rewrite !omap_app, G, S, A, B, app_nil_r. split; [done|]. by apply Forall_app.
Qed.

Lemma balanced_drain : balanced (_drain_queue H a).
Proof. unfold _drain_queue. rewrite durable. apply drain_accounted. Qed.

Lemma quiet_reads {A} (f : St W -> A) : quiet (E := ev) (reads f).
Proof. apply quiet_lift. Qed.

Lemma quiet_sets (f : St W -> St W) : quiet (sets f).
Proof. apply quiet_hooked. Qed.

Lemma quiet_mark_queued t args : quiet (_mark_task_queued H t args).
Proof.
  apply quiet_bind; [apply quiet_lift|]. intros key. apply quiet_bind; [apply quiet_hooked|]. intros _.
  apply quiet_shielded, quiet_awaits.
Qed.

Lemma quiet_guard t args : quiet (start_guard (W := W) a t args).
Proof.
  apply quiet_bind; [apply quiet_reads|]. intros s. destruct (holds t _); [by apply quiet_fails|].
  destruct (is_queued t s); [by apply quiet_fails|]. apply quiet_bind; [apply quiet_lift|]. intros key.
  cbv zeta. destruct (subprocess_gate_refusal _ _ _); [by apply quiet_fails|].
  destruct (sa_parallel args); [by apply quiet_ret|]. apply quiet_bind; [apply quiet_lift|].
  intros o. by apply quiet_ret.
Qed.

(** What follows a granted slot settles it. *)
Lemma granted_start_accounted t args s :
  wp (emit (EvGranted t) ;;
      r ← attempt (_start_build_unit H a t args);
      match r with
      | Ok p => mret p
      | Err e =>
          f ← attempt (free_slot H t "spawn failed during admission");
          match f with
          | Ok _ => raise e
          | Err e' => emit (EvStuck t) ;; raise e'
          end
      end) (fun _ _ l => accounted l) s.
Proof.
  assert (K : forall l, settles t l -> accounted ([EvGranted t] ++ l)).
  { intros l (G & S & F). unfold accounted. rewrite !omap_app, G, S. by repeat constructor. }
  apply wp_bind, wp_emit, wp_bind, wp_attempt, (wp_mono _ _ _ _ (start_unit_spec H a t args s)).
  intros [p|x] s1 l1 S1.
  - apply wp_ret, K. rewrite app_nil_r. by apply (settles_started t s p s1).
  - destruct S1 as (_ & _ & ->). apply wp_bind, wp_attempt, (wp_mono _ _ _ _ (free_slot_spec t _ s1)).
    intros [u|x'] s2 l2 S2.
    + unfold raise. apply K. cbn [app]. by rewrite app_nil_r.
    + rewrite S2. apply K. by repeat constructor.
Qed.

Lemma balanced_start t args : balanced (start_task_execution H a t args).
Proof.
  apply balanced_bind; [apply balanced_quiet, quiet_guard|]. intros args'. rewrite durable.
  apply balanced_bind; [apply balanced_quiet, quiet_reads|]. intros f.
  apply balanced_bind; [apply balanced_quiet, quiet_lift|]. intros key.
  apply balanced_bind; [apply balanced_quiet, quiet_store|]. intros outcome.
  destruct (String.eqb outcome "started").
  - apply (balanced_wp _ (fun _ _ l => accounted l)); [apply granted_start_accounted | done].
  - apply balanced_bind; [by apply balanced_emit|]. intros _. apply balanced_bind; [|intros _].
    + apply balanced_quiet, quiet_mark_queued.
    + apply balanced_quiet, quiet_ret.
Qed.

#[local] Hint Resolve balanced_drain balanced_quiet quiet_store quiet_awaits quiet_lift quiet_ret quiet_reads
  quiet_sets quiet_rescue quiet_shielded quiet_fails : quietly.

Lemma balanced_exit t key : balanced (after_exit H a t key).
Proof.
  apply balanced_bind; [|intros _; apply balanced_drain]. apply balanced_quiet.
  apply quiet_bind; [apply quiet_reads|]. intros running. destruct (_ || _); [apply quiet_ret|].
  apply quiet_bind; [destruct key; auto with quietly|]. intros lifecycle.
  apply quiet_bind; [apply quiet_bind; auto with quietly|]. intros owned.
  destruct owned; auto with quietly.
Qed.

Lemma quiet_mark_failed t error : quiet (mark_failed H t error).
Proof. apply quiet_store. Qed.

Lemma balanced_stop t : balanced (stop_task H a t).
Proof.
  apply balanced_bind; [auto with quietly|]. intros s. destruct (holds t _).
  - apply balanced_quiet. quiet_block. apply quiet_bind; [|intros _; quiet_block; auto with quietly].
    destruct (_store_enabled a); [apply quiet_shielded, quiet_mark_failed | apply quiet_ret].
  - apply balanced_bind; [destruct (_store_enabled a); auto with quietly|]. intros [].
    { apply balanced_bind; auto with quietly. }
    apply balanced_bind; [auto with quietly|]. intros [].
    { apply balanced_bind; [apply balanced_quiet, quiet_sets | auto with quietly]. }
    destruct (_kubejob_backend_enabled a); [|auto with quietly].
    apply balanced_bind; [auto with quietly|]. intros [v|]; [|auto with quietly].
    destruct (_ && _); [|auto with quietly].
    balanced_block. apply balanced_bind; [|intros _; balanced_block; auto with quietly].
    apply balanced_quiet, quiet_shielded, quiet_mark_failed.
Qed.

Lemma balanced_reap_rows : balanced (reap_orphaned_subprocess_rows H a).
Proof.
  unfold reap_orphaned_subprocess_rows. destruct (negb _); [auto with quietly|].
  apply balanced_bind; [auto with quietly|]. intros rows. cbv zeta.
  apply balanced_bind; [destruct (existsb _ _); auto with quietly|]. intros core.
  apply balanced_bind; [|intros reaped].
  - apply balanced_gather. intros [[i pod] boot]. apply balanced_quiet, quiet_bind.
    + destruct (String.eqb _ _); [auto with quietly|]. destruct core; [|auto with quietly].
      apply quiet_bind; auto with quietly.
    + intros [reason|]; [|auto with quietly]. apply quiet_bind; [|auto with quietly].
      apply quiet_rescue, quiet_store.
  - apply balanced_bind; [|auto with quietly].
    destruct (list_truthy _); [apply balanced_shielded, balanced_drain | auto with quietly].
Qed.

Lemma balanced_restart : balanced (reconcile_on_startup H a).
Proof.
  unfold reconcile_on_startup. destruct (negb _); [auto with quietly|].
  apply balanced_bind; [apply balanced_reap_rows|]. intros _.
  apply balanced_bind; [apply balanced_attempt; auto with quietly|]. intros [[running queued]|e]; [|auto with quietly].
  apply balanced_bind; auto with quietly.
Qed.

Lemma balanced_reap now deadline key : balanced (reap_one H a now deadline key).
Proof.
  apply balanced_bind; [auto with quietly|]. intros s. destruct (h_task H key _) as [task|]; [|auto with quietly].
  destruct (negb _); [auto with quietly|]. destruct (is_running _ _); [auto with quietly|].
  apply balanced_bind.
  - unfold _kubejob_liveness. destruct (negb _); [auto with quietly|].
    apply balanced_bind; [apply balanced_attempt|]; auto with quietly.
  - intros alive. destruct (negb _); [auto with quietly|]. destruct (negb _); [auto with quietly|].
    apply balanced_bind; [apply balanced_attempt; auto with quietly|]. intros []; [|auto with quietly].
    apply balanced_bind; [by apply balanced_emit | auto with quietly].
Qed.

Lemma balanced_reap_tasks deadline : balanced (reap_abandoned_tasks H a deadline).
Proof.
  apply balanced_bind; [auto with quietly|]. intros s. apply balanced_gather. intros project.
  apply balanced_bind; [auto with quietly|]. intros dirs. apply balanced_gather. intros key.
  apply balanced_reap.
Qed.
End Durable.

(** ** The service as a state machine *)

Inductive agent_op :=
  | OpStart (task_id : string) (args : SpawnArgs)
  | OpDrain
  | OpExit (task_id : string) (spec_dir : option (string * string))
  | OpStop (task_id : string)
  | OpRestart
  | OpReap (deadline_seconds : Z)
  (** The creation of a specification, which asks for no slot, or the restart of a build. *)
  | OpRegister (task_id : string) (process : Z).

Definition run_op {W} (H : Hooks W) (a : Service) (op : agent_op) : Eff (St W) ev () :=
  match op with
  | OpStart t args => start_task_execution H a t args ;; mret ()
  | OpDrain => _drain_queue H a
  | OpExit t key =>
      sets (fun s => with_running (without [t] (ag_running s)) s) ;; after_exit H a t key
  | OpStop t => stop_task H a t ;; mret ()
  | OpRestart => reconcile_on_startup H a ;; mret ()
  | OpReap d => reap_abandoned_tasks H a d ;; mret ()
  | OpRegister t p => sets (fun s => with_running (set_proc t p (ag_running s)) s)
  end.

(** One operation after the other, whether they raise or not. *)
Definition run_ops {W} (H : Hooks W) (a : Service) (ops : list agent_op) : Eff (St W) ev () :=
  each (fun op => shielded (run_op H a op)) ops.


(** ** Without a store *)

Create HintDb capped.

Section Memory.
Context {W : Type} (H : Hooks W) (a : Service) (in_memory : _store_enabled a = false).
Abbreviation M := (Eff (St W) ev).

Definition dequeued (e : ev) : option string := match e with EvDequeued t => Some t | _ => None end.
Definition outcome (e : ev) : option string :=
  match e with EvSpawned t | EvSkipped t | EvDropped t => Some t | _ => None end.

(** No slot is free. *)
Definition full (s : St W) : Prop :=
  (0 < _concurrency_cap a)%Z /\ (_concurrency_cap a <= Z.of_nat (length (ag_running s)))%Z.

(** One build is taken from the queue and has one outcome. *)
Lemma drain_turn_spec qt q s : ag_queue s = qt :: q ->
  wp (drain_turn H a qt)
     (fun r s' l => r = Ok () /\ ag_queue s' = q
        /\ omap dequeued l = [qt_task_id qt] /\ omap outcome l = [qt_task_id qt]
        /\ length (ag_running s') <= S (length (ag_running s))) s.
Proof.
  intros Q. apply wp_bind, wp_sets, wp_bind, wp_emit, wp_bind, wp_reads.
  assert (Q1 : ag_queue (popleft s) = q) by (unfold popleft; cbn; by rewrite Q).
  cbn [ag_running popleft with_queue]. destruct (holds (qt_task_id qt) (ag_running s)).
  - apply wp_emit. cbn. split_and!; try done. lia.
  - apply wp_bind, wp_attempt, (wp_mono _ _ _ _ (start_unit_spec H a _ (qt_args qt) (popleft s))).
    intros [p|x] s1 l1 (Sq & L & E); unfold same_queue in Sq; rewrite Q1 in Sq.
    + apply wp_ret. destruct E as [->|[E _]]; [|congruence]. cbn. split_and!; done.
    + subst l1. apply wp_emit. cbn. split_and!; done.
Qed.

Lemma drain_memory_spec fuel s : length (ag_queue s) < fuel ->
  wp (drain_memory H a fuel) (fun r s' l => r = Ok () /\ exists taken,
        ag_queue s = taken ++ ag_queue s'
        /\ omap dequeued l = qt_task_id <$> taken /\ omap outcome l = qt_task_id <$> taken
        /\ (ag_queue s' = [] \/ full s')
        /\ ((0 < _concurrency_cap a)%Z ->
            (Z.of_nat (length (ag_running s')) <= Z.max (_concurrency_cap a) (Z.of_nat (length (ag_running s))))%Z)) s.
Proof.
  revert s. induction fuel as [|fuel IH]; intros s L; [lia|]. cbn [drain_memory].
  apply wp_bind, wp_reads. cbn [id]. destruct (ag_queue s) as [|qt q] eqn:Q.
  { apply wp_ret. split; [done|]. exists []. split_and!; [done|done|done|by left|lia]. }
  destruct (_ || _) eqn:F.
  - apply wp_bind, (wp_mono _ _ _ _ (drain_turn_spec qt q s Q)). intros r s1 l1 (-> & Q1 & D & O & B).
    cbn [length] in L. apply (wp_mono _ _ _ _ (IH s1 ltac:(rewrite Q1; lia))).
    intros r s2 l2 (-> & taken & T & D2 & O2 & E & C). split; [done|]. exists (qt :: taken).
    rewrite !omap_app, D, D2, O, O2, <- Q1, T. cbn. split_and!; [done..|].
    intros P. specialize (C P). apply orb_true_iff in F as [F|F]; [apply Z.leb_le in F; lia|].
    apply Z.ltb_lt in F. lia.
  - apply wp_ret. split; [done|]. exists []. split_and!; [done|done|done| |lia].
    right. apply orb_false_iff in F as [F1 F2]. apply Z.leb_gt in F1. apply Z.ltb_ge in F2. by split.
Qed.

(** The number of builds that run stays within the cap and what it was. *)
Definition capped {A} (m : M A) : Prop := (0 < _concurrency_cap a)%Z -> forall s,
  (Z.of_nat (length (ag_running (m s).1.2))
   <= Z.max (_concurrency_cap a) (Z.of_nat (length (ag_running s))))%Z.

Lemma capped_bind {A B} (m : M A) (f : A -> M B) :
  capped m -> (forall x, capped (f x)) -> capped (mbind f m).
Proof.
  intros K F P s. unfold mbind, Eff_bind. specialize (K P s). destruct (m s) as [[[x|e] s'] l]; [|done].
  specialize (F x P s'). destruct (f x s') as [[r s''] l']. cbn in *. lia.
Qed.

Lemma capped_shrinks {A} (m : M A) :
  (forall s, length (ag_running (m s).1.2) <= length (ag_running s)) -> capped m.
Proof. intros K P s. specialize (K s). lia. Qed.

Lemma capped_wp {A} (m : M A) Q : (forall s, wp m (Q s) s) ->
  (forall s r s' l, Q s r s' l -> (0 < _concurrency_cap a)%Z ->
     (Z.of_nat (length (ag_running s')) <= Z.max (_concurrency_cap a) (Z.of_nat (length (ag_running s))))%Z) ->
  capped m.
Proof. intros K F P s. specialize (K s). unfold wp in K. destruct (m s) as [[r s'] l]. by apply (F s r s' l). Qed.

Lemma capped_lift {A} (f : St W -> res A) : capped (lift f).
Proof. by apply capped_shrinks. Qed.
Lemma capped_reads {A} (f : St W -> A) : capped (reads f).
Proof. apply capped_lift. Qed.
Lemma capped_ret {A} (x : A) : capped (mret x).
Proof. by apply capped_shrinks. Qed.
Lemma capped_fails {A} e : capped (raise (A := A) e).
Proof. by apply capped_shrinks. Qed.
Lemma capped_emit e : capped (emit e).
Proof. by apply capped_shrinks. Qed.
Lemma capped_awaits {A} (f : Wait W A) : capped (awaits f).
Proof.
  apply capped_shrinks. intros s. unfold awaits. destruct (f (ag_env s)) as [[r e] gone].
  apply without_length.
Qed.
Lemma capped_shielded {A} (m : M A) : capped m -> capped (shielded m).
Proof. intros K P s. unfold shielded. specialize (K P s). by destruct (m s) as [[]]. Qed.
Lemma capped_rescue {A} (m : M A) v : capped m -> capped (rescue m v).
Proof. intros K P s. unfold rescue. specialize (K P s). by destruct (m s) as [[]]. Qed.
Lemma capped_attempt {A} (m : M A) : capped m -> capped (attempt m).
Proof. intros K P s. unfold attempt. specialize (K P s). by destruct (m s) as [[]]. Qed.
Lemma capped_sets f : (forall s, length (ag_running (f s)) <= length (ag_running s)) -> capped (sets f).
Proof. intros K. apply capped_shrinks. apply K. Qed.

#[local] Hint Resolve capped_lift capped_reads capped_ret capped_fails capped_emit capped_awaits
  capped_shielded capped_rescue capped_attempt : capped.

Lemma capped_drain : capped (_drain_queue H a).
Proof.
  unfold _drain_queue. rewrite in_memory. apply (capped_wp _ (fun s _ s' _ =>
    (0 < _concurrency_cap a)%Z ->
    (Z.of_nat (length (ag_running s')) <= Z.max (_concurrency_cap a) (Z.of_nat (length (ag_running s))))%Z));
    [|auto].
  intros s. apply wp_bind, wp_reads.
  apply (wp_mono _ _ _ _ (drain_memory_spec (S (length (ag_queue s))) s ltac:(lia))).
  intros r s' l (_ & taken & _ & _ & _ & _ & C) P. by apply C.
Qed.

Lemma capped_mark_queued t args : capped (_mark_task_queued H t args).
Proof.
  apply capped_bind; [auto with capped|]. intros key. apply capped_bind; [by apply capped_sets|].
  intros _. auto with capped.
Qed.

Lemma capped_guard t args : capped (start_guard (W := W) a t args).
Proof.
  apply capped_bind; [auto with capped|]. intros s. destruct (holds t _); [auto with capped|].
  destruct (is_queued t s); [auto with capped|]. apply capped_bind; [auto with capped|]. intros key.
  cbv zeta. destruct (subprocess_gate_refusal _ _ _); [auto with capped|].
  destruct (sa_parallel args); [auto with capped|]. apply capped_bind; auto with capped.
Qed.

Lemma capped_start t args : capped (start_task_execution H a t args).
Proof.
  apply capped_bind; [apply capped_guard|]. intros args'. rewrite in_memory.
  apply (capped_wp _ (fun s _ s' _ => (0 < _concurrency_cap a)%Z ->
    (Z.of_nat (length (ag_running s')) <= Z.max (_concurrency_cap a) (Z.of_nat (length (ag_running s))))%Z));
    [|auto].
  intros s. apply wp_bind, wp_reads. destruct (_ || _) eqn:F.
  - apply (wp_mono _ _ _ _ (start_unit_spec H a t args' s)). intros r s' l (_ & L & _) P.
    apply orb_true_iff in F as [F|F]; [apply Z.leb_le in F; lia|]. apply Z.ltb_lt in F. lia.
  - set (m := sets _ ;; _). assert (C : capped m).
    { apply capped_bind; [by apply capped_sets|]. intros _. apply capped_bind; [auto with capped|]. intros _.
      apply capped_bind; [apply capped_mark_queued | auto with capped]. }
    unfold wp. destruct (m s) as [[r s'] l] eqn:E. intros P. specialize (C P s). by rewrite E in C.
Qed.

Lemma capped_gather {A B} (f : A -> M (list B)) l : (forall x, capped (f x)) -> capped (gather f l).
Proof.
  intros K. induction l as [|x l IH]; [apply capped_ret|]. apply capped_bind; [done|]. intros y.
  apply capped_bind; [done|]. intros z. apply capped_ret.
Qed.

Lemma capped_stop t : capped (stop_task H a t).
Proof.
  unfold stop_task, _kubejob_backend_enabled. rewrite in_memory, andb_false_r.
  apply capped_bind; [auto with capped|]. intros s. destruct (holds t _).
  - apply capped_bind; [auto with capped|]. intros _. apply capped_bind; [|intros _].
    + apply capped_sets. intros s1. apply without_length.
    + apply capped_bind; [auto with capped|]. intros _. apply capped_bind; auto with capped.
  - apply capped_bind; [auto with capped|]. intros removed. apply capped_bind; [auto with capped|].
    intros queued. destruct removed; [auto with capped|]. destruct queued; [|auto with capped].
    apply capped_bind; [by apply capped_sets | auto with capped].
Qed.

Lemma capped_reap deadline : capped (reap_abandoned_tasks H a deadline).
Proof.
  apply capped_bind; [auto with capped|]. intros s. apply capped_gather. intros project.
  apply capped_bind; [auto with capped|]. intros dirs. apply capped_gather. intros key.
  apply capped_bind; [auto with capped|]. intros s1. destruct (h_task H key _) as [task|]; [|auto with capped].
  destruct (negb _); [auto with capped|]. destruct (is_running _ _); [auto with capped|].
  unfold _kubejob_liveness. rewrite in_memory. cbn [negb]. apply capped_bind; [auto with capped|]. intros alive.
  destruct (negb _); [auto with capped|]. destruct (negb _); [auto with capped|].
  apply capped_bind; [auto with capped|]. intros []; [|auto with capped].
  apply capped_bind; auto with capped.
Qed.

Lemma capped_exit t key : capped (after_exit H a t key).
Proof.
  apply capped_bind; [|intros _; apply capped_drain].
  unfold _free_durable_slot_on_exit. rewrite in_memory. cbn [negb orb]. apply capped_bind; auto with capped.
Qed.

(** An operation other than a registration. *)
Definition registers (op : agent_op) : nat := match op with OpRegister _ _ => 1 | _ => 0 end.

Lemma run_op_capped op : registers op = 0 -> capped (run_op H a op).
Proof.
  destruct op as [t args| |t key|t| |d|t p]; intros R; cbn [run_op]; try done.
  1, 4, 5, 6: apply capped_bind; [|intros _; apply capped_ret].
  - apply capped_start.
  - apply capped_stop.
  - unfold reconcile_on_startup. rewrite in_memory. cbn [negb]. apply capped_ret.
  - apply capped_reap.
  - apply capped_drain.
  - apply capped_bind; [|intros _; apply capped_exit]. apply capped_sets. intros s. apply without_length.
Qed.
End Memory.

(** Without a store, the cap holds.  Over any sequence of operations of the
    service, whatever exits meanwhile, no more builds run than the cap allows, or ran at the
    start, and the processes registered without asking for a slot. *)
Theorem memory_cap_holds {W} (H : Hooks W) (a : Service) (ops : list agent_op) (s : St W) :
  _store_enabled a = false -> (0 < _concurrency_cap a)%Z ->
  (Z.of_nat (length (ag_running (run_ops H a ops s).1.2))
   <= Z.max (_concurrency_cap a) (Z.of_nat (length (ag_running s)))
      + Z.of_nat (sum_list (registers <$> ops)))%Z.
Proof.
  intros D P. revert s. induction ops as [|op ops IH]; intros s; [cbn; lia|].
  unfold run_ops in *. cbn [each fmap list_fmap sum_list]. unfold mbind at 1, Eff_bind at 1.
  assert (K : (Z.of_nat (length (ag_running (shielded (run_op H a op) s).1.2))
    <= Z.max (_concurrency_cap a) (Z.of_nat (length (ag_running s))) + Z.of_nat (registers op))%Z).
  { destruct (registers op) as [|n] eqn:R.
    - pose proof (capped_shielded a _ (run_op_capped H a D op R) P s). lia.
    - destruct op; try done. cbn in R |- *. pose proof (set_proc_length task_id process (ag_running s)). lia. }
  destruct (shielded (run_op H a op) s) as [[r s1] l1] eqn:E. cbn [fst snd] in K.
  assert (r = Ok ()) as ->.
  { unfold shielded in E. destruct (run_op H a op s) as [[]]. by injection E. }
  specialize (IH s1). destruct (each _ ops s1) as [[r2 s2] l2]. cbn [fst snd] in *.
  change (id (registers op)) with (registers op). lia.
Qed.

(** Without a store, a drain serves the queue first in, first out, and ends.
    It takes a prefix of the queue, gives each build of it one outcome (started, dropped after
    a failed start, or skipped as it runs already) and stops only when the queue is empty or
    no slot is free. *)
Theorem memory_queue_is_served {W} (H : Hooks W) (a : Service) (s s' : St W) (r : res ()) (l : list ev) :
  _store_enabled a = false -> _drain_queue H a s = (r, s', l) ->
  r = Ok () /\ (ag_queue s' = [] \/ full a s')
  /\ exists taken, ag_queue s = taken ++ ag_queue s'
       /\ omap dequeued l = qt_task_id <$> taken /\ omap outcome l = qt_task_id <$> taken.
Proof.
  intros D R. unfold _drain_queue in R. rewrite D in R. unfold reads in R. rewrite bind_lift in R.
  assert (K := drain_memory_spec H a D (S (length (ag_queue s))) s ltac:(lia)).
  apply (wp_run _ _ _ _ _ _ K) in R as (-> & taken & T & A & B & E & _).
  split; [done|]. split; [done|]. by exists taken.
Qed.

(** ** The end of a build and abandoned tasks *)

(** What the store answers for a task whose build is known to be over. *)
Definition over {W} (H : Hooks W) (t : string) (s : St W) : Prop :=
  exists e v, h_db H (ag_env s) = (true, e) /\ JobStateStore.get_state t (en_jobs e) = Some v
              /\ JobStateStore.sv_lifecycle_state v ∈ _TERMINAL_STATES.

Lemma liveness_spec {W} (H : Hooks W) (a : Service) t s :
  wp (_kubejob_liveness H a t) (fun r s' l => l = [] /\ exists x, r = Ok x
        /\ (x = "absent" -> _store_enabled a = true -> over H t s)) s.
Proof.
  unfold _kubejob_liveness. destruct (_store_enabled a); cbn [negb]; [|apply wp_ret; split; [done|]; by eexists].
  apply wp_bind, wp_attempt. unfold wp, store.
  destruct (h_db H (ag_env s)) as [[] e] eqn:D; [|cbn; split; [done|]; by eexists].
  destruct (JobStateStore.get_state t (en_jobs e)) as [v|] eqn:G; [|cbn; split; [done|]; by eexists].
  cbn -[key_in]. split; [done|]. eexists. split; [done|].
  destruct (String.eqb _ "running"); [done|]. destruct (key_in _ _) eqn:K; [|done].
  apply key_in_elem in K. intros _ _. by exists e, v.
Qed.

(** C21 (safety): the reaper spares every build that may be alive.  A task it fails was in
    progress on the board, old enough, neither a process nor a Job of this replica, and, when
    there is a store, the database answered with a row of that task in a terminal state. *)
Theorem reaper_spares_live_builds {W} (H : Hooks W) (a : Service) (now deadline : Z)
    (key : string * string) (s s' : St W) (r : res (list string)) (l : list ev) (t : string) :
  reap_one H a now deadline key s = (r, s', l) -> EvReaped t ∈ l ->
  exists task, h_task H key (ag_env s) = Some task /\ t = tv_id task
    /\ tv_status task = "in_progress"
    /\ (exists u, h_iso H (tv_updated_at task) = Some u /\ (deadline < now - u)%Z)
    /\ holds t (ag_running s) = false /\ (t ∉ en_kubejobs (ag_env s))
    /\ (_store_enabled a = true -> over H t s).
Proof.
  intros R I. unfold reap_one, reads in R. rewrite bind_lift in R. cbv beta iota delta [id] in R.
  destruct (h_task H key (ag_env s)) as [task|]; [|injection R as _ _ <-; by apply not_elem_of_nil in I].
  destruct (key_in _ (tv_status task)) eqn:St; cbn [negb] in R;
    [|injection R as _ _ <-; by apply not_elem_of_nil in I].
  destruct (is_running (tv_id task) s) eqn:Ru; [injection R as _ _ <-; by apply not_elem_of_nil in I|].
  revert R I. cbn [mbind Eff_bind]. pose proof (liveness_spec H a (tv_id task) s) as L. unfold wp in L.
  unfold mbind at 1, Eff_bind at 1. destruct (_kubejob_liveness H a (tv_id task) s) as [[ra s1] l1].
  destruct L as (-> & x & -> & Ab). destruct (String.eqb_spec x "absent") as [->|]; cbn [negb];
    [|intros [= _ _ <-] I; by apply not_elem_of_nil in I].
  destruct (_task_stale H (tv_updated_at task) now deadline) eqn:Sl; cbn [negb];
    [|intros [= _ _ <-] I; by apply not_elem_of_nil in I].
  unfold mbind at 1, Eff_bind at 1, attempt.
  pose proof (quiet_awaits (h_update H (tv_id task) "failed") s1) as Q.
  destruct (awaits _ s1) as [[[u|e] s2] l2]; cbn in Q; subst l2; cbn;
    [|intros [= _ _ <-] I; by apply not_elem_of_nil in I].
  intros [= _ _ <-] I. apply list_elem_of_singleton in I. injection I as ->. exists task.
  apply key_in_elem, list_elem_of_singleton in St. unfold is_running in Ru.
  apply orb_false_iff in Ru as [R1 R2]. split_and!; try done.
  - unfold _task_stale in Sl. destruct (h_iso H _) as [u0|]; [|done]. apply Z.ltb_lt in Sl. by exists u0.
  - intros I. apply key_in_elem in I. congruence.
  - by apply Ab.
Qed.

(** *** Where the code departs from its comments *)

(** The control file has the key reviewReason: a build that failed, which is recorded as
    awaiting a human because of errors, leaves its row in review and not failed. *)
Lemma failed_build_exits_as_review now by_ c :
  dget "review_reason" c = None ->
  exit_lifecycle (updated_control now (Some (phase_to_status FAILED)) (phase_to_review_reason FAILED)
                    false by_ c) = Ok ("review", None).
Proof.
  intros N. unfold exit_lifecycle, lowered, updated_control. cbn [phase_to_status phase_to_review_reason].
  control_simpl. by rewrite N.
Qed.

(** A second terminal write is no repetition: it replaces the state of the first, so the exit
    of a build that was stopped moves its row from failed to another state. *)
Lemma later_terminal_write_wins now now' i st st' e e' db r :
  JobStore.get i db = Some r ->
  js_lifecycle_state <$> JobStore.get i
    (JobStateStore.mark_terminal now' i st' None e' None None
       (JobStateStore.mark_terminal now i st None e None None db)) = Some st'.
Proof.
  intros G. unfold JobStateStore.mark_terminal. rewrite G. cbv zeta.
  rewrite get_update, G by done. cbn [fmap option_fmap option_map].
  rewrite !get_update, G by done. done.
Qed.

(** A failure after the process is registered reports a failed start, while the process runs
    and nothing watches it. *)
Lemma failed_start_leaves_a_process {W} (H : Hooks W) t args (s : St W) p e1 e2 x :
  holds t (ag_running s) = false ->
  h_exec H t args (ag_env s) = (Ok p, e1, []) -> h_track H t e1 = (Err x, e2, []) ->
  exists s', _spawn_task_execution H t args s = (Err x, s', []) /\ holds t (ag_running s') = true.
Proof.
  intros N E T. unfold _spawn_task_execution, reads. rewrite bind_lift, N. cbv beta iota.
  unfold mbind, Eff_bind, awaits, sets, hooked. rewrite E. cbn [with_env with_running ag_env ag_running].
  rewrite T. eexists. split; [done|]. cbn [with_env with_running ag_running].
  assert (K : forall l, without [] l = l) by (intros l; induction l; [done|]; cbn; by f_equal).
  rewrite !K. apply key_in_elem. induction (ag_running s) as [|[t' q] l IH]; cbn; [by left|].
  unfold holds, key_in in N. cbn in N. apply orb_false_iff in N as [N1 N2]. rewrite N1. right. by apply IH.
Qed.

(** The check that a task is not queued is made before the lock: two starts of one task that
    wait for it both pass, and with no slot free the task is queued twice. *)
Lemma duplicate_start_is_queued_twice {W} (H : Hooks W) (a : Service) t args (s s1 : St W) r1 l1 :
  full a s -> start_locked H a t args s = (r1, s1, l1) -> full a s1 ->
  let q := {| qt_task_id := t; qt_args := args |} in
  ag_queue (start_locked H a t args s1).1.2 = ag_queue s ++ [q; q].
Proof.
  assert (L : forall s', full a s' -> ag_queue (start_locked H a t args s').1.2
    = ag_queue s' ++ [{| qt_task_id := t; qt_args := args |}]).
  { intros s' [F1 F2]. unfold start_locked, reads. rewrite bind_lift. cbv beta iota.
    rewrite (proj2 (Z.leb_gt _ _) F1), (proj2 (Z.ltb_ge _ _) F2). cbn [orb].
    unfold mbind, Eff_bind, sets, hooked, emit, _mark_task_queued, lift.
    destruct (spec_dir_for _ _) as [key|e]; [|done].
    cbn [mbind Eff_bind]. unfold mbind, Eff_bind, shielded, awaits.
    cbn [with_env with_queue with_running ag_queue ag_env ag_running].
    unfold sets, hooked. cbv beta iota. by destruct (h_emit H t "queued") as [[r e] gone]. }
  intros F R F1. cbn zeta. rewrite (L s1 F1). pose proof (L s F) as L0. rewrite R in L0. cbn in L0.
  by rewrite L0, <- app_assoc.
Qed.

(** ** Witnesses *)

Definition quiet_hooks : Hooks () := {|
  h_now _ := 0%Z; h_db e := (true, e);
  h_exec t _ e := (Ok 7%Z, e, []); h_track _ e := (Ok (), e, []); h_dispatch _ _ e := (Ok (), e, []);
  h_stop _ e := (Ok (), e, []); h_emit _ _ e := (Ok (), e, []); h_update _ _ e := (Ok (), e, []);
  h_core e := (Ok false, e, []); h_pod_gone _ e := (Ok false, e, []);
  h_projects _ := Some ["shop"]; h_spec_dirs _ _ := Some [("shop", "001")];
  h_task _ _ := Some {| tv_id := "shop:001"; tv_status := "in_progress"; tv_updated_at := "t" |};
  h_seconds _ := 5000%Z; h_iso _ := Some 1000%Z;
|}.
Definition durable_service : Service :=
  {| sv_env := [("DATABASE_URL", "postgresql://db")]; sv_cap := 1; sv_pod := "pod"; sv_boot := "boot" |}.
Definition memory_service : Service := {| sv_env := []; sv_cap := 1; sv_pod := "pod"; sv_boot := "boot" |}.
Definition idle : St () := {|
  ag_running := []; ag_queue := [];
  ag_env := {| en_jobs := []; en_files := ∅; en_kubejobs := []; en_world := () |} |}.
Definition example_ops : list agent_op :=
  [OpStart "a" (example_args "001"); OpStart "b" (example_args "002"); OpExit "a" None].


Lemma memory_cap_holds_witness :
  (Z.of_nat (length (ag_running (run_ops quiet_hooks memory_service
      (OpRegister "spec" 3 :: example_ops) idle).1.2)) <= 2)%Z.
Proof. exact (memory_cap_holds quiet_hooks memory_service (OpRegister "spec" 3 :: example_ops) idle eq_refl eq_refl). Defined.

Definition parked : St () := {|
  ag_running := [];
  ag_queue := [{| qt_task_id := "a"; qt_args := example_args "001" |};
               {| qt_task_id := "b"; qt_args := example_args "002" |}];
  ag_env := ag_env idle |}.

Lemma memory_queue_is_served_witness :
  full memory_service (_drain_queue quiet_hooks memory_service parked).1.2.
Proof.
  destruct (_drain_queue quiet_hooks memory_service parked) as [[r s'] l] eqn:E.
  destruct (memory_queue_is_served quiet_hooks memory_service parked s' r l eq_refl E) as (_ & [Q|F] & _);
    [|exact F].
  apply (f_equal (fun x => ag_queue x.1.2)) in E. change (ag_queue (r, s', l).1.2) with (ag_queue s') in E.
  rewrite Q in E. vm_compute in E. discriminate E.
Defined.

Lemma reaper_spares_live_builds_witness :
  "shop:001" ∉ en_kubejobs (ag_env idle).
Proof.
  destruct (reap_one quiet_hooks memory_service 5000 600 ("shop", "001") idle) as [[r s'] l] eqn:E.
  destruct (reaper_spares_live_builds quiet_hooks memory_service 5000 600 ("shop", "001") idle s' r l
              "shop:001" E) as (task & _ & _ & _ & _ & _ & N & _); [|exact N].
  apply (f_equal snd) in E. vm_compute in E. rewrite <- E. apply list_elem_of_here.
Defined.
