(* ===== verification/AuditChain.v ===== *)
(** The hash chain of the audit log (apps/web-server/server/services/audit_chain.py):
    the canonical encoding of a row, the chain hashes and the two verifiers.

    [sha256] stands for [hashlib.sha256(...).hexdigest()]; that a digest is a string of
    hexadecimal digits is the only thing assumed of it. *)
From S2P Require Import Prelude PyData.

Definition GENESIS : string := "GENESIS".
Definition GENESIS_TENANT_PREFIX : string := "GENESIS-T-".
Definition SEP_char : ascii := ascii_of_nat 31.
Definition SEP : string := String SEP_char "".

Definition tenant_genesis (org_id : string) : string := GENESIS_TENANT_PREFIX +:+ org_id.

Definition expected_genesis_for (org_id : option string) (chain_mode : string) : string :=
  match org_id with
  | Some o => if String.eqb chain_mode "tenant" && negb (is_empty o) then tenant_genesis o
              else GENESIS
  | None => GENESIS
  end.

(** None, a string, or a datetime given by its [isoformat()]. *)
Inductive timestamp := TNone | TStr (s : string) | TDate (isoformat : string).

Definition iso (t : timestamp) : string :=
  match t with TNone => "" | TStr s => s | TDate s => s end.

Record AuditRow := {
  ar_id : option string;
  ar_action : option string;
  ar_user_id : option string;
  ar_org_id : option string;
  ar_resource_type : option string;
  ar_resource_id : option string;
  ar_created_at : timestamp;
  ar_details_json : option string;
  ar_prev_hash : option string;
}.

(** [x or ""] *)
Definition or_empty (s : option string) : string := default "" s.

(** The fields of the encoding, in order. *)
Definition leading_fields (r : AuditRow) : list string :=
  [or_empty (ar_id r); or_empty (ar_action r); or_empty (ar_user_id r); or_empty (ar_org_id r);
   or_empty (ar_resource_type r); or_empty (ar_resource_id r); iso (ar_created_at r)].
Definition canonical (r : AuditRow) : string :=
  join SEP (leading_fields r ++ [or_empty (ar_details_json r)]).

(** [prev or dflt]: None and the empty string fall back. *)
Definition or_genesis (genesis : string) (prev : option string) : string :=
  default genesis (truthy_opt prev).

Section Chain.
Variable sha256 : string -> string.

Definition compute_hash (prev_hash : option string) (row : AuditRow) : string :=
  sha256 (or_genesis GENESIS prev_hash +:+ SEP +:+ canonical row).

Definition compute_tenant_hash (prev_hash : option string) (row : AuditRow) (org_id : string)
  : string :=
  sha256 ("tenant:" +:+ org_id +:+ SEP +:+ or_genesis (tenant_genesis org_id) prev_hash
          +:+ SEP +:+ canonical row).

(** The first bad row: its index, the stored and the expected previous hash. *)
Definition verdict : Type := option (nat * string * string).

(** The loop of a verifier over the rows from index [i], [expected] being the hash due. *)
Fixpoint verify_from (genesis : string) (hash : string -> AuditRow -> string) (i : nat)
    (expected : string) (rows : list AuditRow) : verdict :=
  match rows with
  | [] => None
  | row :: rest =>
      let stored_prev := or_genesis genesis (ar_prev_hash row) in
      if String.eqb stored_prev expected
      then verify_from genesis hash (S i) (hash stored_prev row) rest
      else Some (i, stored_prev, expected)
  end.

Definition verify_chain (rows : list AuditRow) : verdict :=
  verify_from GENESIS (fun prev row => compute_hash (Some prev) row) 0 GENESIS rows.

Definition verify_tenant_chain (rows : list AuditRow) (org_id : string) : verdict :=
  verify_from (tenant_genesis org_id)
    (fun prev row => compute_tenant_hash (Some prev) row org_id) 0 (tenant_genesis org_id) rows.
End Chain.

(** The exported shape; [loads] is [json.loads], None on an error. *)
Definition row_as_mapping (r : AuditRow) (created_at : json) : dict :=
  [("id", JOpt (ar_id r)); ("action", JOpt (ar_action r)); ("user_id", JOpt (ar_user_id r));
   ("org_id", JOpt (ar_org_id r)); ("resource_type", JOpt (ar_resource_type r));
   ("resource_id", JOpt (ar_resource_id r)); ("created_at", created_at);
   ("details_json", JOpt (ar_details_json r)); ("prev_hash", JOpt (ar_prev_hash r))].

Definition serialize_for_export (loads : string -> option json) (r : AuditRow) : dict :=
  let d := row_as_mapping r (JStr (iso (ar_created_at r))) in
  match truthy_opt (ar_details_json r) with
  | Some s => dset "details" (default JNull (loads s)) d
  | None => d
  end.

(** ** Strings without the separator *)

Fixpoint sep_free (s : string) : bool :=
  match s with EmptyString => true | String c s' => negb (Ascii.eqb c SEP_char) && sep_free s' end.

Lemma sep_split a b x y :
  sep_free a = true -> sep_free b = true -> a +:+ SEP +:+ x = b +:+ SEP +:+ y -> a = b /\ x = y.
Proof.
  revert b. induction a as [|c a IH]; intros [|c' b]; cbn; intros Ha Hb E.
  - injection E as E. done.
  - injection E as Ec E. subst c'. cbn in Hb. done.
  - injection E as Ec E. subst c. cbn in Ha. done.
  - injection E as -> E. bprop. destruct (IH b) as [-> ->]; done.
Qed.

Lemma join_cons sep x y l : join sep (x :: y :: l) = x +:+ sep +:+ join sep (y :: l).
Proof. done. Qed.

Lemma hex_sep_free s : hex_string s = true -> sep_free s = true.
Proof.
  unfold hex_string. intros H. apply andb_true_iff in H as [_ H].
  induction s as [|c s IH]; [done|]. cbn in H |- *. bprop. rewrite IH by done.
  destruct (Ascii.eqb_spec c SEP_char) as [->|]; [|done].
  match goal with H : hex_char _ = true |- _ => vm_compute in H; discriminate end.
Qed.

Lemma hex_not_genesis s t : hex_string s = true -> s <> GENESIS +:+ t.
Proof. intros H ->. cbn in H. discriminate. Qed.

(** The canonical encoding is injective when the leading fields have no separator; the
    last field, the JSON details, may contain anything. *)
Definition row_sep_free (r : AuditRow) : bool := forallb sep_free (leading_fields r).

Definition same_content (a b : AuditRow) : Prop :=
  leading_fields a = leading_fields b /\ or_empty (ar_details_json a) = or_empty (ar_details_json b).

Lemma join_inj l k x y :
  length l = length k -> forallb sep_free l = true -> forallb sep_free k = true ->
  join SEP (l ++ [x]) = join SEP (k ++ [y]) -> l = k /\ x = y.
Proof.
  revert k. induction l as [|a l IH]; intros [|b k] Hlen Hl Hk E; try done.
  cbn in Hl, Hk. bprop. injection Hlen as Hlen.
  assert (J : forall a l x, join SEP ((a :: l) ++ [x]) = a +:+ SEP +:+ join SEP (l ++ [x]))
    by (by intros ? [|? ?] ?).
  rewrite !J in E. apply sep_split in E as [-> E]; [|done..].
  by destruct (IH k Hlen) as [-> ->].
Qed.

Lemma canonical_inj a b :
  row_sep_free a = true -> row_sep_free b = true -> canonical a = canonical b -> same_content a b.
Proof. intros Ha Hb. by apply join_inj. Qed.

(** ** Lemmas on the verifiers *)

Section ChainFacts.
Context (genesis : string) (hash : string -> AuditRow -> string).

(** The hash due after the rows. *)
Fixpoint head_from (expected : string) (rows : list AuditRow) : string :=
  match rows with
  | [] => expected
  | row :: rest => head_from (hash (or_genesis genesis (ar_prev_hash row)) row) rest
  end.

Lemma verify_from_app i e rows rows' :
  verify_from genesis hash i e (rows ++ rows') = None <->
  verify_from genesis hash i e rows = None
  /\ verify_from genesis hash (i + length rows) (head_from e rows) rows' = None.
Proof.
  revert i e. induction rows as [|r rows IH]; intros i e; cbn.
  - rewrite Nat.add_0_r. tauto.
  - destruct (String.eqb _ _); [|naive_solver]. rewrite IH.
    by replace (S i + length rows) with (i + S (length rows)) by lia.
Qed.

Lemma verify_from_index i j e rows :
  verify_from genesis hash i e rows = None -> verify_from genesis hash j e rows = None.
Proof.
  revert i j e. induction rows as [|r rows IH]; intros i j e; cbn; [done|].
  destruct (String.eqb _ _); [apply IH | done].
Qed.

Lemma verify_snoc e rows r :
  verify_from genesis hash 0 e (rows ++ [r]) = None <->
  verify_from genesis hash 0 e rows = None
  /\ or_genesis genesis (ar_prev_hash r) = head_from e rows.
Proof.
  rewrite verify_from_app. cbn [verify_from].
  destruct (String.eqb_spec (or_genesis genesis (ar_prev_hash r)) (head_from e rows)); naive_solver.
Qed.

Lemma head_snoc e rows r :
  head_from e (rows ++ [r]) = hash (or_genesis genesis (ar_prev_hash r)) r.
Proof. revert e. induction rows as [|x rows IH]; intros e; [done|]. apply IH. Qed.
End ChainFacts.

Lemma or_genesis_idem g h : is_empty h = false -> or_genesis g (Some h) = h.
Proof. unfold or_genesis. cbn. by intros ->. Qed.

Section Tamper.
Variable sha256 : string -> string.
Hypothesis sha_hex : forall x, hex_string (sha256 x) = true.

Definition collision : Prop := exists x y, x <> y /\ sha256 x = sha256 y.

#[local] Abbreviation chain_hash := (fun prev row => compute_hash sha256 (Some prev) row).
#[local] Abbreviation head := (head_from GENESIS chain_hash GENESIS).

Lemma head_shape rows : sep_free (head rows) = true /\ is_empty (head rows) = false.
Proof.
  destruct (rows) as [|r l _] using rev_ind; [done|]. rewrite head_snoc.
  split; [apply hex_sep_free, sha_hex | apply hex_not_empty, sha_hex].
Qed.

(** Equal digests of two links: equal inputs, or a collision. *)
Lemma link_inj p q a b :
  sep_free p = true -> is_empty p = false -> sep_free q = true -> is_empty q = false ->
  compute_hash sha256 (Some p) a = compute_hash sha256 (Some q) b ->
  (p = q /\ canonical a = canonical b) \/ collision.
Proof.
  intros Hp Hpe Hq Hqe E. unfold compute_hash in E. rewrite !or_genesis_idem in E by done.
  destruct (decide (p +:+ SEP +:+ canonical a = q +:+ SEP +:+ canonical b)) as [Es|Hn].
  - left. by apply sep_split.
  - right. red. eauto.
Qed.

(** Two verified chains with one head have the same content, or show a collision. *)
Lemma heads_agree rows rows' :
  verify_chain sha256 rows = None -> verify_chain sha256 rows' = None ->
  head rows = head rows' ->
  Forall2 (fun a b => canonical a = canonical b
                      /\ or_genesis GENESIS (ar_prev_hash a) = or_genesis GENESIS (ar_prev_hash b))
    rows rows' \/ collision.
Proof.
  unfold verify_chain. revert rows'.
  induction rows as [|a rows IH] using rev_ind; intros rows' V V' E.
  - destruct rows' as [|b rows' _] using rev_ind; [left; constructor|].
    rewrite head_snoc in E. exfalso. apply (hex_not_genesis (compute_hash sha256 (Some (or_genesis GENESIS (ar_prev_hash b))) b) ""); [apply sha_hex | done].
  - destruct rows' as [|b rows' _] using rev_ind.
    + rewrite head_snoc in E. exfalso. apply (hex_not_genesis (compute_hash sha256 (Some (or_genesis GENESIS (ar_prev_hash a))) a) ""); [apply sha_hex | done].
    + rewrite !head_snoc in E. apply verify_snoc in V as [V Ha], V' as [V' Hb].
      rewrite Ha, Hb in E.
      destruct (head_shape rows) as [H1 H2], (head_shape rows') as [H3 H4].
      apply link_inj in E as [[E Ec]|C]; [|by right|done..].
      destruct (IH rows' V V' E) as [F|C]; [|by right]. left.
      apply Forall2_app; [done|]. constructor; [|constructor]. split; [done|]. congruence.
Qed.
End Tamper.

(** A row of the examples. *)
Definition row (i : string) (prev : option string) : AuditRow :=
  {| ar_id := Some i; ar_action := Some "login"; ar_user_id := Some "u"; ar_org_id := None;
     ar_resource_type := None; ar_resource_id := None; ar_created_at := TStr "2025-01-01";
     ar_details_json := Some "{}"; ar_prev_hash := prev |}.

(** ** Properties *)

(** What the verifier checks of the end of a chain.  A chain with one more row
    verifies exactly when the chain verifies and the row stores the hash due; so every
    prefix of a verified chain verifies, and the content of the last row is not covered:
    replacing it by any row with the same stored hash keeps the verdict. *)
Theorem chain_tail (sha256 : string -> string) (rows : list AuditRow) (r : AuditRow) :
  (verify_chain sha256 (rows ++ [r]) = None <->
     verify_chain sha256 rows = None
     /\ or_genesis GENESIS (ar_prev_hash r)
        = match last rows with
          | None => GENESIS
          | Some p => compute_hash sha256 (Some (or_genesis GENESIS (ar_prev_hash p))) p
          end)
  /\ (forall rest, verify_chain sha256 (rows ++ rest) = None -> verify_chain sha256 rows = None)
  /\ (forall r', ar_prev_hash r' = ar_prev_hash r ->
        verify_chain sha256 (rows ++ [r']) = None <-> verify_chain sha256 (rows ++ [r]) = None).
Proof.
  unfold verify_chain. split; [|split].
  - rewrite verify_snoc.
    assert (E : head_from GENESIS (fun prev row => compute_hash sha256 (Some prev) row) GENESIS rows
                = match last rows with
                  | None => GENESIS
                  | Some p => compute_hash sha256 (Some (or_genesis GENESIS (ar_prev_hash p))) p
                  end).
    { destruct rows as [|p l _] using rev_ind; [done|]. by rewrite head_snoc, last_snoc. }
    by rewrite E.
  - intros rest H. by apply verify_from_app in H as [H _].
  - intros r' E. by rewrite !verify_snoc, E.
Qed.


Lemma tenant_head_inj sha256 a b p q r :
  sep_free a = true -> sep_free b = true ->
  compute_tenant_hash sha256 p r a = compute_tenant_hash sha256 q r b ->
  a = b \/ exists x y, x <> y /\ sha256 x = sha256 y.
Proof.
  intros Ha Hb E. unfold compute_tenant_hash in E.
  match type of E with sha256 ?x = sha256 ?y => destruct (decide (x = y)) as [Es|Hn] end.
  - left. cbn in Es. injection Es as Es. by apply sep_split in Es as [-> _].
  - right. eauto.
Qed.

(** The chains of two tenants do not mix.  Rows that verify as the chain of
    two different tenants are none, or one single row that stores no previous hash, or
    they exhibit two inputs with one digest. *)
Theorem tenant_chains_are_separate (sha256 : string -> string) (a b : string)
    (rows : list AuditRow) :
  (forall x, hex_string (sha256 x) = true) ->
  a <> b -> sep_free a = true -> sep_free b = true ->
  verify_tenant_chain sha256 rows a = None -> verify_tenant_chain sha256 rows b = None ->
  rows = [] \/ (exists r, rows = [r] /\ truthy_opt (ar_prev_hash r) = None)
  \/ exists x y, x <> y /\ sha256 x = sha256 y.
Proof.
  intros Hsha Hne Ha Hb V V'. destruct rows as [|r rows]; [by left|]. right.
  unfold verify_tenant_chain in V, V'. cbn [verify_from] in V, V'.
  destruct (String.eqb_spec (or_genesis (tenant_genesis a) (ar_prev_hash r)) (tenant_genesis a)) as [E1|];
    [|done].
  destruct (String.eqb_spec (or_genesis (tenant_genesis b) (ar_prev_hash r)) (tenant_genesis b)) as [E2|];
    [|done].
  assert (Hp : truthy_opt (ar_prev_hash r) = None).
  { unfold or_genesis in E1, E2. destruct (truthy_opt (ar_prev_hash r)) as [h|]; [|done]. exfalso.
    cbn in E1, E2. rewrite E1 in E2. unfold tenant_genesis, GENESIS_TENANT_PREFIX in E2.
    cbn in E2. injection E2 as E2. done. }
  destruct rows as [|r2 rows]; [left; eauto|]. right. cbn [verify_from] in V, V'.
  assert (Hp2 : forall g, or_genesis g (ar_prev_hash r2) = default g (truthy_opt (ar_prev_hash r2))) by done.
  destruct (String.eqb_spec (or_genesis (tenant_genesis a) (ar_prev_hash r2))
             (compute_tenant_hash sha256 (Some (or_genesis (tenant_genesis a) (ar_prev_hash r))) r a)) as [F1|]; [|done].
  destruct (String.eqb_spec (or_genesis (tenant_genesis b) (ar_prev_hash r2))
             (compute_tenant_hash sha256 (Some (or_genesis (tenant_genesis b) (ar_prev_hash r))) r b)) as [F2|]; [|done].
  rewrite Hp2 in F1, F2. destruct (truthy_opt (ar_prev_hash r2)) as [h|].
  - cbn in F1, F2. rewrite F1 in F2. by destruct (tenant_head_inj _ _ _ _ _ _ Ha Hb F2).
  - exfalso. cbn in F1. symmetry in F1.
    apply (hex_not_genesis (compute_tenant_hash sha256 (Some (or_genesis (tenant_genesis a) (ar_prev_hash r))) r a)
             ("-T-" +:+ a)); [apply Hsha | exact F1].
Qed.

(** A log of two rows and its continuation, under the toy digest. *)
Definition example_log : list AuditRow := [row "1" None].
Definition example_last : AuditRow :=
  row "2" (Some (compute_hash toy_hex None (row "1" None))).


Lemma tenant_chains_are_separate_witness :
  verify_tenant_chain toy_hex [row "1" None] "org-a" = None
  /\ verify_tenant_chain toy_hex [row "1" None] "org-b" = None
  /\ ([row "1" None] = [] \/ (exists r, [row "1" None] = [r] /\ truthy_opt (ar_prev_hash r) = None)
      \/ exists x y, x <> y /\ toy_hex x = toy_hex y).
Proof.
  assert (V : verify_tenant_chain toy_hex [row "1" None] "org-a" = None) by reflexivity.
  assert (V' : verify_tenant_chain toy_hex [row "1" None] "org-b" = None) by reflexivity.
  split; [exact V|]. split; [exact V'|].
  apply (tenant_chains_are_separate toy_hex "org-a" "org-b");
    [exact toy_hex_ok | discriminate | reflexivity | reflexivity | exact V | exact V'].
Defined.
