(* ===== verification/TokenPool.v ===== *)
(** The credential pool of concurrent builds (apps/web-server/server/services/
    claude_token_pool.py) and the SAML replay cache (apps/web-server/server/saml/
    replay_cache.py): two small stores guarded by a lock, each call one atomic step. *)
From S2P Require Import Prelude PyData.

(** ** Credentials *)

Record Credential := {
  cd_token : string;
  cd_profile_id : string;
  cd_profile_name : string;
}.

Record Entry := {
  en_cred : Credential;
  en_in_use : nat;
  en_last_handed : nat;
}.

(** An entry object is its position in [pl_entries]; [pl_by_profile] maps a profile id to
    a position. *)
Record ClaudeTokenPool := {
  tp_entries : list Entry;
  tp_by_profile : gmap string nat;
  tp_checked_out : gmap string string;
  tp_seq : nat;
}.

Module Pool.

(** The construction loop of [from_sources]: a repeated profile id overwrites. *)
Definition from_credentials (creds : list Credential) : ClaudeTokenPool :=
  {| tp_entries := (fun c => {| en_cred := c; en_in_use := 0; en_last_handed := 0 |}) <$> creds;
     tp_by_profile :=
       foldl (fun m ic => <[cd_profile_id ic.2 := ic.1]> m) ∅ (imap pair creds);
     tp_checked_out := ∅; tp_seq := 0 |}.

Definition size (p : ClaudeTokenPool) : nat := length (tp_entries p).
Definition is_empty (p : ClaudeTokenPool) : bool := negb (list_truthy (tp_entries p)).

(** The comparison of [min(..., key=lambda e: (e.last_handed, e.in_use))]. *)
Definition lru_le (a b : nat * Entry) : bool :=
  (en_last_handed a.2 <? en_last_handed b.2)
  || ((en_last_handed a.2 =? en_last_handed b.2) && (en_in_use a.2 <=? en_in_use b.2)).

Definition candidates (exclude : option string) (p : ClaudeTokenPool) : list (nat * Entry) :=
  let all := imap pair (tp_entries p) in
  let l := keep (fun e => negb (bool_decide (Some (cd_profile_id (en_cred e.2)) = exclude))) all in
  if list_truthy l then l else all.

Definition pickable (exclude : option string) (p : ClaudeTokenPool) : list (nat * Entry) :=
  let c := candidates exclude p in
  let free := keep (fun e => en_in_use e.2 =? 0) c in
  if list_truthy free then free else c.

(** What a task holds, when the profile is still in the pool. *)
Definition held (task_id : string) (p : ClaudeTokenPool) : option Entry :=
  profile ← tp_checked_out p !! task_id;
  i ← tp_by_profile p !! profile;
  tp_entries p !! i.

Definition use (seq : nat) (e : Entry) : Entry :=
  {| en_cred := en_cred e; en_in_use := S (en_in_use e); en_last_handed := seq |}.
Definition unuse (e : Entry) : Entry :=
  {| en_cred := en_cred e; en_in_use := pred (en_in_use e); en_last_handed := en_last_handed e |}.

Definition checkout (task_id : string) (exclude : option string) (p : ClaudeTokenPool)
  : ClaudeTokenPool * option Credential :=
  if is_empty p then (p, None)
  else match held task_id p with
       | Some e => (p, Some (en_cred e))
       | None =>
           match pickable exclude p with
           | [] => (p, None)
           | x :: l =>
               let '(i, e) := min_by lru_le x l in
               let seq := S (tp_seq p) in
               ({| tp_entries := alter (use seq) i (tp_entries p);
                   tp_by_profile := tp_by_profile p;
                   tp_checked_out := <[task_id := cd_profile_id (en_cred e)]> (tp_checked_out p);
                   tp_seq := seq |}, Some (en_cred e))
           end
       end.

Definition release (task_id : string) (p : ClaudeTokenPool) : ClaudeTokenPool :=
  match tp_checked_out p !! task_id with
  | None => p
  | Some profile =>
      {| tp_entries :=
           match tp_by_profile p !! profile with
           | Some i => alter unuse i (tp_entries p)
           | None => tp_entries p
           end;
         tp_by_profile := tp_by_profile p;
         tp_checked_out := delete task_id (tp_checked_out p); tp_seq := tp_seq p |}
  end.

End Pool.

(** ** Discovery *)

(** [_POOL_SPLIT_RE.split(s)]: a run of separators gives empty pieces here, which the caller
    drops as it drops blank ones. *)
Definition pool_split (s : string) : list string :=
  concat (split_on ";"%char <$> concat (split_on ","%char <$> split_on (ascii_of_nat 10) s)).

(** One profile of the file: [p.get("oauthToken") or p.get("token")] and the skip of absent and
    repeated tokens. *)
Definition profile_token (d : dict) : res (option string) :=
  match dget "oauthToken" d with
  | Some v => if truthy v then Some <$> as_str v
              else match dget "token" d with
                   | Some t => if truthy t then Some <$> as_str t else Ok None
                   | None => Ok None
                   end
  | None => match dget "token" d with
            | Some t => if truthy t then Some <$> as_str t else Ok None
            | None => Ok None
            end
  end.

Fixpoint profile_creds (seen : list string) (n : nat) (l : list json) : res (list Credential) :=
  match l with
  | [] => Ok []
  | JObj d :: rest =>
      let! token := profile_token d in
      match token with
      | None => profile_creds seen n rest
      | Some t =>
          if bool_decide (t ∈ seen) then profile_creds seen n rest
          else
            let! id := match dget "id" d with
                       | Some v => if truthy v then as_str v else Ok ("profile-" +:+ pretty n)
                       | None => Ok ("profile-" +:+ pretty n)
                       end in
            let! name := get_or as_str "name" "Profile" d in
            let! creds := profile_creds (t :: seen) (S n) rest in
            Ok ({| cd_token := t; cd_profile_id := id; cd_profile_name := name |} :: creds)
      end
  | _ :: _ => Err AttributeError
  end.

(** The four sources.  [profiles] is the parsed and unsealed profiles file, None when there is no file
    or when reading or parsing it failed; [static_file] the text of the fallback file. *)
Definition discover_credentials (env_pool : option string) (profiles : option json)
    (single : option string) (static_file : option string) : res (list Credential) :=
  let tokens := keep (fun t => negb (is_empty t))
                  (strip <$> pool_split (strip (default "" env_pool))) in
  if list_truthy tokens then
    Ok (imap (fun i t => {| cd_token := t; cd_profile_id := "env-pool-" +:+ pretty i;
                            cd_profile_name := "Env Pool " +:+ pretty (S i) |}) tokens)
  else
    let! creds :=
      match profiles with
      | None => Ok []
      | Some (JObj d) =>
          let! l := get_or as_iter "profiles" [] d in
          profile_creds [] 0 l
      | Some _ => Err AttributeError
      end in
    if list_truthy creds then Ok creds
    else match truthy_opt single with
         | Some t => Ok [{| cd_token := t; cd_profile_id := "env-override";
                            cd_profile_name := "Environment Override" |}]
         | None =>
             match truthy_opt (strip <$> static_file) with
             | Some t => Ok [{| cd_token := t; cd_profile_id := "static-fallback";
                                cd_profile_name := "Static Token" |}]
             | None => Ok []
             end
         end.

(** ** The replay cache *)

Record SamlReplayCache := {
  rc_max_size : Z;
  rc_entries : list (string * Z);
}.

Module ReplayCache.

Definition init (max_size : Z) : SamlReplayCache :=
  {| rc_max_size := max_size; rc_entries := [] |}.

Definition sweep (now : Z) (entries : list (string * Z)) : list (string * Z) :=
  keep (fun kv => negb (kv.2 <=? now)%Z) entries.

Definition mem (i : string) (entries : list (string * Z)) : bool :=
  existsb (fun kv => String.eqb i kv.1) entries.

(** [popitem] on an empty dictionary raises. *)
Definition check_and_add (now : Z) (assertion_id : string) (exp_epoch : Z) (c : SamlReplayCache)
  : res (SamlReplayCache * bool) :=
  if (exp_epoch <=? now)%Z then Ok (c, false)
  else
    let entries := sweep now (rc_entries c) in
    if mem assertion_id entries then
      Ok ({| rc_max_size := rc_max_size c; rc_entries := entries |}, false)
    else
      let! entries :=
        if (rc_max_size c <=? Z.of_nat (length entries))%Z then
          match entries with
          | _ :: rest => Ok rest
          | [] => Err (KeyError "dictionary is empty")
          end
        else Ok entries in
      Ok ({| rc_max_size := rc_max_size c; rc_entries := entries ++ [(assertion_id, exp_epoch)] |},
          true).

Definition len (c : SamlReplayCache) : nat := length (rc_entries c).
Definition clear (c : SamlReplayCache) : SamlReplayCache :=
  {| rc_max_size := rc_max_size c; rc_entries := [] |}.

(** A sequence of submissions (instant, id, expiry): the cache after it and how many were
    accepted. *)
Fixpoint submissions (l : list (Z * string * Z)) (c : SamlReplayCache)
  : res (SamlReplayCache * nat) :=
  match l with
  | [] => Ok (c, 0)
  | (now, i, e) :: rest =>
      match check_and_add now i e c with
      | Err x => Err x
      | Ok (c1, ok) =>
          match submissions rest c1 with
          | Err x => Err x
          | Ok (c2, n) => Ok (c2, (if ok then 1 else 0) + n)
          end
      end
  end.

End ReplayCache.

(** ** Lemmas on the cache *)

(** The entry of an accepted assertion is where it was put, with fewer entries before it
    and at most the later acceptances after it. *)
Definition holds (i : string) (e : Z) (after : nat) (c : SamlReplayCache) : Prop :=
  exists l1 l2, rc_entries c = l1 ++ (i, e) :: l2 /\ length l2 <= after.

Lemma mem_holds i e n c now :
  holds i e n c -> (now < e)%Z -> ReplayCache.mem i (ReplayCache.sweep now (rc_entries c)) = true.
Proof.
  intros (l1 & l2 & E & _) Hn. unfold ReplayCache.mem. apply existsb_spec. exists (i, e).
  split; [|apply String.eqb_refl]. unfold ReplayCache.sweep. apply elem_of_keep. split.
  - rewrite E. apply elem_of_app. right. apply list_elem_of_here.
  - cbn. apply negb_true_iff, Z.leb_gt. lia.
Qed.

Lemma sweep_holds i e n c now :
  holds i e n c -> (now < e)%Z ->
  exists l1 l2, ReplayCache.sweep now (rc_entries c) = l1 ++ (i, e) :: l2 /\ length l2 <= n.
Proof.
  intros (l1 & l2 & E & Hl) Hn. unfold ReplayCache.sweep, keep. rewrite E, List.filter_app.
  cbn [List.filter snd]. replace (e <=? now)%Z with false by (symmetry; apply Z.leb_gt; lia).
  cbn [negb]. eexists _, _. split; [done|]. etrans; [apply filter_length_le | done].
Qed.

Lemma check_holds now j ej i e n c c' ok :
  ReplayCache.check_and_add now j ej c = Ok (c', ok) ->
  holds i e n c -> (now < e)%Z -> (Z.of_nat ((if ok then 1 else 0) + n) < rc_max_size c)%Z ->
  rc_max_size c' = rc_max_size c /\ holds i e ((if ok then 1 else 0) + n) c'
  /\ (j = i -> ok = false).
Proof.
  intros E Hh Hn Hmax. unfold ReplayCache.check_and_add in E.
  pose proof (mem_holds i e n c now Hh Hn) as Hm.
  destruct (sweep_holds i e n c now Hh Hn) as (l1 & l2 & Es & Hl).
  destruct (ej <=? now)%Z; [by injection E as <- <-|].
  destruct (ReplayCache.mem j _) eqn:Ej.
  - injection E as <- <-. split; [done|]. split; [|done]. exists l1, l2. done.
  - apply bind_Ok_inv in E as (entries & Ee & E). injection E as <- <-.
    split; [done|]. split; [|intros ->; congruence]. rewrite Es in Ee.
    destruct (rc_max_size c <=? _)%Z eqn:Ef; bprop.
    + destruct l1 as [|x l1]; cbn in Ee; injection Ee as <-.
      * exfalso. cbn in Ef. lia.
      * exists l1, (l2 ++ [(j, ej)]). cbn. rewrite <- app_assoc, length_app. cbn. split; [done | lia].
    + injection Ee as <-. exists l1, (l2 ++ [(j, ej)]). cbn. rewrite <- app_assoc, length_app.
      cbn. split; [done | lia].
Qed.

Lemma submissions_hold l i e n c c' k :
  ReplayCache.submissions l c = Ok (c', k) -> holds i e n c ->
  Forall (fun s => (s.1.1 < e)%Z) l -> (Z.of_nat (n + k) < rc_max_size c)%Z ->
  rc_max_size c' = rc_max_size c /\ holds i e (n + k) c'.
Proof.
  revert n c k. induction l as [|[[now j] ej] l IH]; intros n c k; cbn.
  - intros [= <- <-] Hh _ _. by rewrite Nat.add_0_r.
  - destruct (ReplayCache.check_and_add now j ej c) as [[c1 ok]|] eqn:E1; [|done].
    destruct (ReplayCache.submissions l c1) as [[c2 m]|] eqn:E2; [|done].
    intros [= <- <-] Hh Hall Hmax.
    apply Forall_cons in Hall as [Hnow Hall]. cbn in Hnow.
    destruct (check_holds now j ej i e n c c1 ok E1 Hh Hnow) as (M1 & H1 & _); [lia|].
    destruct (IH _ _ _ E2 H1 Hall) as [M2 H2]; [rewrite M1; lia|].
    split; [congruence|].
    by replace (n + ((if ok then 1 else 0) + m)) with ((if ok then 1 else 0) + n + m) by lia.
Qed.

(** ** Lemmas on the pool *)

(** How many tasks hold a profile. *)
Definition holders (m : gmap string string) (profile : string) : nat :=
  size (filter (fun kv => kv.2 = profile) m).

(** The pool is consistent: distinct profile ids, the index points at each entry, and the
    use count of an entry is the number of tasks that hold its profile. *)
Record pool_inv (p : ClaudeTokenPool) : Prop := {
  pi_distinct : NoDup ((fun e => cd_profile_id (en_cred e)) <$> tp_entries p);
  pi_index : forall i e, tp_entries p !! i = Some e ->
               tp_by_profile p !! cd_profile_id (en_cred e) = Some i;
  pi_known : forall t profile, tp_checked_out p !! t = Some profile ->
               exists i e, tp_by_profile p !! profile = Some i /\ tp_entries p !! i = Some e
                           /\ cd_profile_id (en_cred e) = profile;
  pi_count : forall i e, tp_entries p !! i = Some e ->
               en_in_use e = holders (tp_checked_out p) (cd_profile_id (en_cred e));
}.

Lemma holders_insert m t profile q :
  m !! t = None ->
  holders (<[t := profile]> m) q = (if decide (profile = q) then 1 else 0) + holders m q.
Proof.
  intros Hn. unfold holders. destruct (decide (profile = q)) as [->|Hne].
  - rewrite map_filter_insert_True by done. rewrite map_size_insert_None; [done|].
    apply map_lookup_filter_None. by left.
  - rewrite map_filter_insert_False by done. by rewrite delete_id.
Qed.

Lemma holders_delete m t profile q :
  m !! t = Some profile ->
  holders m q = (if decide (profile = q) then 1 else 0) + holders (delete t m) q.
Proof.
  intros Hs. rewrite <- (insert_id m t profile Hs) at 1. rewrite <- insert_delete_eq.
  apply holders_insert, lookup_delete_eq.
Qed.

Lemma holders_zero m q t : holders m q = 0 -> m !! t <> Some q.
Proof.
  unfold holders. intros Hz Hs. apply map_size_empty_inv in Hz.
  assert (E : filter (fun kv : string * string => kv.2 = q) m !! t = Some q)
    by (by apply map_lookup_filter_Some).
  rewrite Hz in E. by rewrite lookup_empty in E.
Qed.

Lemma alter_id (f : Entry -> Entry) (i : nat) (l : list Entry) :
  (forall e, en_cred (f e) = en_cred e) ->
  (fun e => cd_profile_id (en_cred e)) <$> alter f i l = (fun e => cd_profile_id (en_cred e)) <$> l.
Proof.
  intros Hf. revert i. induction l as [|e l IH]; intros [|i]; cbn; try done.
  - by rewrite Hf.
  - f_equal. apply IH.
Qed.

(** An entry of the altered list comes from the same place, and changes only there. *)
Lemma alter_lookup (f : Entry -> Entry) (i : nat) (l : list Entry) (j : nat) e' :
  alter f i l !! j = Some e' ->
  exists e, l !! j = Some e /\ e' = (if decide (j = i) then f e else e).
Proof.
  destruct (decide (j = i)) as [->|Hne].
  - rewrite list_lookup_alter_eq. destruct (l !! i) as [e|]; [|done]. intros [= <-]. eauto.
  - rewrite list_lookup_alter_ne by done. eauto.
Qed.

Lemma entry_unique p i j e e' :
  pool_inv p -> tp_entries p !! i = Some e -> tp_entries p !! j = Some e' ->
  cd_profile_id (en_cred e) = cd_profile_id (en_cred e') -> i = j.
Proof.
  intros Hp Hi Hj E. pose proof (pi_index p Hp i e Hi) as H1. pose proof (pi_index p Hp j e' Hj) as H2.
  rewrite E in H1. congruence.
Qed.

Lemma held_None p t : pool_inv p -> Pool.held t p = None <-> tp_checked_out p !! t = None.
Proof.
  intros Hp. unfold Pool.held. destruct (tp_checked_out p !! t) as [profile|] eqn:E; [|done]. cbn.
  destruct (pi_known p Hp t profile E) as (i & e & H1 & H2 & _). by rewrite H1; cbn; rewrite H2.
Qed.

(** Altering one entry's use count together with the map of holders. *)
Lemma pool_inv_alter p f i e m seq :
  pool_inv p -> tp_entries p !! i = Some e ->
  (forall x, en_cred (f x) = en_cred x) ->
  (forall t profile, m !! t = Some profile ->
     tp_checked_out p !! t = Some profile \/ profile = cd_profile_id (en_cred e)) ->
  (forall q, q <> cd_profile_id (en_cred e) -> holders m q = holders (tp_checked_out p) q) ->
  en_in_use (f e) = holders m (cd_profile_id (en_cred e)) ->
  pool_inv {| tp_entries := alter f i (tp_entries p); tp_by_profile := tp_by_profile p;
              tp_checked_out := m; tp_seq := seq |}.
Proof.
  intros Hp Hi Hf Hm Hq He.
  assert (Hlook : forall j x, tp_entries p !! j = Some x ->
            exists x', alter f i (tp_entries p) !! j = Some x' /\ en_cred x' = en_cred x).
  { intros j x Hj. destruct (decide (j = i)) as [->|Hne].
    - rewrite list_lookup_alter_eq, Hj. cbn. eauto.
    - rewrite list_lookup_alter_ne by done. eauto. }
  split; cbn.
  - rewrite alter_id by done. apply Hp.
  - intros j x' Hj. apply alter_lookup in Hj as (x & Hj & ->).
    pose proof (pi_index p Hp j x Hj). by destruct (decide (j = i)); rewrite ?Hf.
  - intros t profile Ht. destruct (Hm t profile Ht) as [Hold| ->].
    + destruct (pi_known p Hp t profile Hold) as (j & x & H1 & H2 & H3).
      destruct (Hlook j x H2) as (x' & H4 & H5). exists j, x'. by rewrite H5.
    + destruct (Hlook i e Hi) as (x' & H4 & H5). exists i, x'. rewrite H5.
      split; [by apply Hp | done].
  - intros j x' Hj. apply alter_lookup in Hj as (x & Hj & ->). destruct (decide (j = i)) as [->|Hne].
    + rewrite Hi in Hj. injection Hj as <-. by rewrite Hf.
    + rewrite Hq by (intros Eq; apply Hne; by eapply entry_unique). by apply (pi_count p Hp j x).
Qed.

Lemma elem_of_candidates exclude p i e :
  (i, e) ∈ Pool.candidates exclude p -> tp_entries p !! i = Some e.
Proof.
  unfold Pool.candidates. intros H.
  assert (Hin : (i, e) ∈ imap pair (tp_entries p)).
  { destruct (list_truthy _); [by apply elem_of_keep in H as [H _] | done]. }
  apply elem_of_lookup_imap in Hin as (j & x & [= -> ->] & Hx). done.
Qed.

Lemma elem_of_pickable exclude p i e :
  (i, e) ∈ Pool.pickable exclude p -> tp_entries p !! i = Some e.
Proof.
  unfold Pool.pickable. intros H. apply (elem_of_candidates exclude).
  destruct (list_truthy _); [by apply elem_of_keep in H as [H _] | done].
Qed.

(** What a checkout of a task that holds nothing does. *)
Lemma checkout_new p t exclude p' c :
  pool_inv p -> tp_checked_out p !! t = None -> Pool.checkout t exclude p = (p', c) ->
  (tp_entries p = [] /\ p' = p /\ c = None)
  \/ exists i e, tp_entries p !! i = Some e /\ c = Some (en_cred e)
       /\ (i, e) ∈ Pool.pickable exclude p
       /\ p' = {| tp_entries := alter (Pool.use (S (tp_seq p))) i (tp_entries p);
                  tp_by_profile := tp_by_profile p;
                  tp_checked_out := <[t := cd_profile_id (en_cred e)]> (tp_checked_out p);
                  tp_seq := S (tp_seq p) |}.
Proof.
  intros Hp Ht E. unfold Pool.checkout in E.
  destruct (Pool.is_empty p) eqn:Ee.
  { injection E as <- <-. left. unfold Pool.is_empty in Ee. by destruct (tp_entries p). }
  rewrite (proj2 (held_None p t Hp) Ht) in E.
  destruct (Pool.pickable exclude p) as [|x l] eqn:Epk.
  { exfalso. unfold Pool.pickable in Epk. destruct (list_truthy (keep _ _)) eqn:E1.
    - rewrite Epk in E1. done.
    - unfold Pool.candidates in Epk. destruct (list_truthy (keep _ _)) eqn:E2 in Epk.
      + rewrite Epk in E2. done.
      + unfold Pool.is_empty in Ee. by destruct (tp_entries p). }
  destruct (min_by Pool.lru_le x l) as [i e] eqn:Em. injection E as <- <-. right.
  assert (Hin : (i, e) ∈ x :: l) by (rewrite <- Em; apply min_by_elem).
  exists i, e. split; [apply (elem_of_pickable exclude); by rewrite Epk|].
  split; [done|]. by rewrite <- Epk in *.
Qed.

Lemma checkout_inv p t exclude : pool_inv p -> pool_inv (Pool.checkout t exclude p).1.
Proof.
  intros Hp. destruct (tp_checked_out p !! t) as [profile|] eqn:Ht.
  - unfold Pool.checkout. destruct (Pool.is_empty p); [done|].
    destruct (Pool.held t p) eqn:Eh; [done|]. apply held_None in Eh; [congruence | done].
  - destruct (Pool.checkout t exclude p) as [p' c] eqn:E.
    destruct (checkout_new p t exclude p' c Hp Ht E) as [(_ & -> & _)|(i & e & Hi & _ & _ & ->)]; [done|].
    apply (pool_inv_alter p _ i e); [done|done|done| | |].
    + intros t' profile H'. destruct (decide (t' = t)) as [->|Hne].
      * rewrite lookup_insert_eq in H'. injection H' as <-. by right.
      * rewrite lookup_insert_ne in H' by done. by left.
    + intros q Hq. rewrite holders_insert by done. rewrite decide_False; [done|]. intros E1. by apply Hq.
    + rewrite holders_insert, decide_True by done. cbn. f_equal. by apply (pi_count p Hp i e).
Qed.

Lemma release_inv p t : pool_inv p -> pool_inv (Pool.release t p).
Proof.
  intros Hp. unfold Pool.release. destruct (tp_checked_out p !! t) as [profile|] eqn:Ht; [|done].
  destruct (pi_known p Hp t profile Ht) as (i & e & H1 & H2 & H3). rewrite H1. subst profile.
  apply (pool_inv_alter p _ i e); [done|done|done| | |].
  - intros t' q H'. apply lookup_delete_Some in H' as [_ H']. by left.
  - intros q Hq. rewrite (holders_delete _ _ _ q Ht). by rewrite decide_False by congruence.
  - cbn. rewrite (pi_count p Hp i e H2), (holders_delete _ _ _ _ Ht). by rewrite decide_True.
Qed.

Lemma from_credentials_inv creds :
  NoDup (cd_profile_id <$> creds) -> pool_inv (Pool.from_credentials creds).
Proof.
  intros Hnd. split; cbn.
  - by rewrite <- list_fmap_compose.
  - intros i e He. rewrite list_lookup_fmap in He.
    destruct (creds !! i) as [c|] eqn:Ec; [|done]. injection He as <-. cbn.
    assert (G : forall (l : list (nat * Credential)) (m : gmap string nat),
      NoDup ((fun ic => cd_profile_id ic.2) <$> l) -> (i, c) ∈ l ->
      foldl (fun m ic => <[cd_profile_id ic.2 := ic.1]> m) m l !! cd_profile_id c = Some i).
    { clear. induction l as [|[j d] l IH]; intros m Hn Hin; [by apply elem_of_nil in Hin|].
      cbn in Hn |- *. apply NoDup_cons in Hn as [Hfresh Hn].
      apply elem_of_cons in Hin as [[= <- <-]|Hin]; [|by apply IH].
      clear IH. assert (K : (<[cd_profile_id c := i]> m) !! cd_profile_id c = Some i)
        by apply lookup_insert_eq.
      revert K. generalize (<[cd_profile_id c := i]> m). clear Hn m.
      induction l as [|[j d] l IH]; intros m K; [done|]. cbn. cbn in Hfresh.
      apply not_elem_of_cons in Hfresh as [Hne Hfresh]. apply IH; [done|].
      by rewrite lookup_insert_ne. }
    apply G.
    + assert (E : (fun ic : nat * Credential => cd_profile_id ic.2) <$> imap pair creds
                  = cd_profile_id <$> creds).
      { apply list_eq. intros k. rewrite !list_lookup_fmap, list_lookup_imap.
        by destruct (creds !! k). }
      by rewrite E.
    + apply elem_of_lookup_imap. eauto.
  - intros t profile H. by rewrite lookup_empty in H.
  - intros i e He. rewrite list_lookup_fmap in He.
    destruct (creds !! i) as [c|]; [|done]. injection He as <-. cbn.
    unfold holders. by rewrite map_filter_empty, map_size_empty.
Qed.

(** Pools reachable from a construction with distinct profile ids. *)
Inductive pool_reachable : ClaudeTokenPool -> Prop :=
  | pool_start creds : NoDup (cd_profile_id <$> creds) -> pool_reachable (Pool.from_credentials creds)
  | pool_checkout p t exclude : pool_reachable p -> pool_reachable (Pool.checkout t exclude p).1
  | pool_release p t : pool_reachable p -> pool_reachable (Pool.release t p).

Lemma pool_reachable_inv p : pool_reachable p -> pool_inv p.
Proof.
  induction 1; [by apply from_credentials_inv | by apply checkout_inv | by apply release_inv].
Qed.

Definition two_credentials : list Credential :=
  [{| cd_token := "A"; cd_profile_id := "p1"; cd_profile_name := "one" |};
   {| cd_token := "B"; cd_profile_id := "p2"; cd_profile_name := "two" |}].

(** ** Properties *)

(** Concurrent builds get distinct credentials while there are enough.  In a
    reachable pool a task that holds nothing gets a credential of the pool and is
    recorded as its holder; if some credential other than the excluded one is free, no
    other task holds what it gets; and a task that already holds one is given the same
    again, whatever it excludes, and the pool does not change. *)
Theorem checkout_prefers_free (p : ClaudeTokenPool) (t : string) (exclude : option string) :
  pool_reachable p ->
  let '(p', c) := Pool.checkout t exclude p in
  (tp_checked_out p !! t = None -> tp_entries p <> [] ->
     exists i e, tp_entries p !! i = Some e /\ c = Some (en_cred e)
       /\ tp_checked_out p' !! t = Some (cd_profile_id (en_cred e))
       /\ ((exists j f, tp_entries p !! j = Some f /\ en_in_use f = 0
                        /\ Some (cd_profile_id (en_cred f)) <> exclude) ->
           forall t', tp_checked_out p !! t' <> Some (cd_profile_id (en_cred e))))
  /\ (forall profile, tp_checked_out p !! t = Some profile ->
        p' = p /\ exists e, c = Some (en_cred e) /\ e ∈ tp_entries p
                            /\ cd_profile_id (en_cred e) = profile).
Proof.
  intros Hr. pose proof (pool_reachable_inv p Hr) as Hp.
  destruct (Pool.checkout t exclude p) as [p' c] eqn:E. split.
  - intros Ht Hne. destruct (checkout_new p t exclude p' c Hp Ht E)
      as [(He & _)|(i & e & Hi & Hc & Hpick & ->)]; [done|].
    exists i, e. split; [done|]. split; [done|]. split; [apply lookup_insert_eq|].
    intros (j & f & Hj & Hf & Hex) t'. apply holders_zero. rewrite <- (pi_count p Hp i e Hi).
    assert (Hcand : (j, f) ∈ Pool.candidates exclude p).
    { unfold Pool.candidates.
      assert (Hk : (j, f) ∈ keep (fun e : nat * Entry => negb (bool_decide
                     (Some (cd_profile_id (en_cred e.2)) = exclude))) (imap pair (tp_entries p))).
      { apply elem_of_keep. split; [apply elem_of_lookup_imap; eauto|].
        cbn. by rewrite bool_decide_false. }
      destruct (keep _ _) as [|x l]; [by apply elem_of_nil in Hk | done]. }
    unfold Pool.pickable in Hpick.
    assert (Hfree : (j, f) ∈ keep (fun e : nat * Entry => en_in_use e.2 =? 0) (Pool.candidates exclude p)).
    { apply elem_of_keep. split; [done|]. cbn. by rewrite Hf. }
    destruct (list_truthy (keep (fun e : nat * Entry => en_in_use e.2 =? 0) _)) eqn:Et.
    + apply elem_of_keep in Hpick as [_ H0]. by apply Nat.eqb_eq in H0.
    + destruct (keep _ (Pool.candidates exclude p)); [by apply elem_of_nil in Hfree | done].
  - intros profile Ht. destruct (pi_known p Hp t profile Ht) as (i & e & H1 & H2 & H3).
    unfold Pool.checkout in E.
    assert (Hh : Pool.held t p = Some e) by (unfold Pool.held; rewrite Ht; cbn; rewrite H1; cbn; done).
    destruct (Pool.is_empty p) eqn:Ee.
    { unfold Pool.is_empty in Ee. by destruct (tp_entries p). }
    rewrite Hh in E. injection E as <- <-. split; [done|]. exists e.
    split; [done|]. split; [by eapply list_elem_of_lookup_2 | done].
Qed.

(** Use counts are exact.  In every pool reachable by checkouts and
    releases in any order, the use count of each credential is the number of tasks that
    hold its profile, each task holds at most one, and a checkout followed by the release
    of the same new task gives every count back. *)
Theorem use_counts_are_exact (p : ClaudeTokenPool) (i : nat) (e : Entry) :
  pool_reachable p -> tp_entries p !! i = Some e ->
  en_in_use e = size (filter (fun kv => kv.2 = cd_profile_id (en_cred e)) (tp_checked_out p))
  /\ forall t exclude, tp_checked_out p !! t = None ->
       exists e', tp_entries (Pool.release t (Pool.checkout t exclude p).1) !! i = Some e'
         /\ en_cred e' = en_cred e /\ en_in_use e' = en_in_use e.
Proof.
  intros Hr Hi. pose proof (pool_reachable_inv p Hr) as Hp. split; [by apply (pi_count p Hp i e)|].
  intros t exclude Ht. destruct (Pool.checkout t exclude p) as [p' c] eqn:E. cbn.
  destruct (checkout_new p t exclude p' c Hp Ht E)
    as [(He & _)|(j & f & Hj & _ & _ & ->)]; [by rewrite He in Hi|].
  unfold Pool.release. cbn. rewrite lookup_insert_eq, (pi_index p Hp j f Hj). cbn.
  destruct (decide (i = j)) as [->|Hne].
  - rewrite !list_lookup_alter_eq, Hi. cbn. eauto.
  - rewrite !list_lookup_alter_ne by done. eauto.
Qed.

(** An accepted assertion cannot be replayed while it is valid, as long as
    fewer other assertions are accepted in the meantime than the cache holds: whatever is
    submitted, in whatever order, before its expiry, submitting it again is refused. *)
Theorem replay_is_rejected (c c1 c2 : SamlReplayCache) (now now' e e' : Z) (i : string)
    (between : list (Z * string * Z)) (accepted : nat) :
  ReplayCache.check_and_add now i e c = Ok (c1, true) ->
  ReplayCache.submissions between c1 = Ok (c2, accepted) ->
  Forall (fun s => (s.1.1 < e)%Z) between -> (now' < e)%Z ->
  (Z.of_nat accepted < rc_max_size c)%Z ->
  exists c3, ReplayCache.check_and_add now' i e' c2 = Ok (c3, false).
Proof.
  intros E1 E2 Hall Hn Hacc.
  assert (H1 : holds i e 0 c1 /\ rc_max_size c1 = rc_max_size c).
  { unfold ReplayCache.check_and_add in E1. destruct (e <=? now)%Z; [done|].
    destruct (ReplayCache.mem _ _); [done|]. apply bind_Ok_inv in E1 as (l & _ & E1).
    injection E1 as <-. split; [|done]. by exists l, []. }
  destruct H1 as [H1 M1].
  destruct (submissions_hold between i e 0 c1 c2 accepted E2 H1 Hall) as [_ H2]; [by rewrite M1|].
  unfold ReplayCache.check_and_add. destruct (e' <=? now')%Z; [eauto|].
  rewrite (mem_holds i e _ c2 now' H2 Hn). eauto.
Qed.

Lemma checkout_prefers_free_witness :
  let p := (Pool.checkout "t1" None (Pool.from_credentials two_credentials)).1 in
  pool_reachable p
  /\ forall profile, tp_checked_out p !! "t1" = Some profile ->
       (Pool.checkout "t1" None p).1 = p.
Proof.
  set (p := (Pool.checkout "t1" None (Pool.from_credentials two_credentials)).1).
  assert (H : pool_reachable p).
  { apply pool_checkout, pool_start. apply (bool_decide_unpack _). vm_compute. exact I. }
  split; [exact H|]. intros profile Hs.
  pose proof (checkout_prefers_free p "t1" None H) as T.
  destruct (Pool.checkout "t1" None p) as [p' c]. exact (proj1 (proj2 T profile Hs)).
Defined.

Lemma use_counts_are_exact_witness :
  let p := Pool.from_credentials two_credentials in
  exists e, tp_entries p !! 1 = Some e /\ en_in_use e = 0
    /\ en_in_use e = size (filter (fun kv => kv.2 = cd_profile_id (en_cred e)) (tp_checked_out p)).
Proof.
  eexists. split; [reflexivity|]. split; [reflexivity|].
  apply (use_counts_are_exact (Pool.from_credentials two_credentials) 1); [|reflexivity].
  apply pool_start, (bool_decide_unpack _). vm_compute. exact I.
Defined.

Lemma replay_is_rejected_witness :
  exists c3, ReplayCache.check_and_add 9 "x" 100
    {| rc_max_size := 2; rc_entries := [("x", 100%Z); ("y", 50%Z)] |} = Ok (c3, false).
Proof.
  apply (replay_is_rejected (ReplayCache.init 2) {| rc_max_size := 2; rc_entries := [("x", 100%Z)] |}
           {| rc_max_size := 2; rc_entries := [("x", 100%Z); ("y", 50%Z)] |} 0 9 100 100 "x"
           [(5, "y", 50)%Z] 1); [reflexivity | reflexivity | repeat constructor | reflexivity | reflexivity].
Defined.

(** A profile without an id takes the id of another one; the use count of the first entry
    is then never given back. *)
Definition colliding_profiles : option json :=
  Some (JObj [("profiles", JList [JObj [("id", JStr "profile-1"); ("token", JStr "A")];
                                  JObj [("token", JStr "B")]])]).

Lemma colliding_profile_ids_leak :
  match discover_credentials None colliding_profiles None None with
  | Ok creds =>
      let p := (Pool.checkout "t" None (Pool.from_credentials creds)).1 in
      (cd_profile_id <$> creds, en_in_use <$> tp_entries (Pool.release "t" p),
       tp_checked_out (Pool.release "t" p) !! "t")
      = (["profile-1"; "profile-1"], [1; 0], None)
  | Err _ => False
  end.
Proof. vm_compute. reflexivity. Qed.
