(* ===== verification/Outbox.v ===== *)
(** The completion outbox of the web server (apps/web-server/server/services/outbox.py):
    the durable queue of completion events, its relay with retries, and the system of
    enqueues, relays and crashes around the table.

    Times are seconds, as integers; [iso] stands for the time stamp of a delivery. *)
From stdpp Require Import gmap.
From S2P Require Import Prelude PyData JsonText.

(** ** Constants and the row *)

Definition _BACKOFF_BASE_S : Z := 5.
Definition _BACKOFF_CAP_S : Z := 3600.
Definition _MAX_ATTEMPTS : Z := 25.

Record OutboxRow := {
  ob_id : string;
  ob_url : string;
  ob_payload : string;
  ob_correlation_key : option string;
  ob_created_at : string;
  ob_attempts : Z;
  ob_next_attempt_at : Z;
  ob_delivered_at : option string;
  ob_last_error : option string;
}.

(** The table, in the order of the row ids. *)
Abbreviation table := (list OutboxRow).

Definition outbox_enabled (flag : option string) : bool :=
  let v := lower (strip (default "" flag)) in
  existsb (String.eqb v) ["1"; "true"; "yes"; "on"].

Definition _backoff_seconds (attempts : Z) : Z :=
  if (attempts <=? 0)%Z then 0%Z
  else Z.min (_BACKOFF_BASE_S * 2 ^ (attempts - 1))%Z _BACKOFF_CAP_S.

(** ** enqueue *)

(** A value bound to a TEXT column: None stands for NULL; a container is refused by the
    driver with an error of its own, an integer beyond 64 bits with OverflowError. *)
Definition sql_text (v : json) : option (option string) + exn :=
  match v with
  | JNull => inl (Some None)
  | JStr s => inl (Some (Some s))
  | JBool b => inl (Some (Some (if b then "1" else "0")))
  | JInt z => if ((- 2 ^ 63 <=? z) && (z <? 2 ^ 63))%Z then inl (Some (Some (pretty z)))
              else inr (AppError "OverflowError")
  | JList _ | JObj _ => inl None
  end.

(** [event.get("updated_at") or event.get("time") or ""] *)
Definition created_iso (event : dict) : json :=
  match dget "updated_at" event with
  | Some v => if truthy v then v
              else match dget "time" event with
                   | Some w => if truthy w then w else JStr ""
                   | None => JStr ""
                   end
  | None => match dget "time" event with
            | Some w => if truthy w then w else JStr ""
            | None => JStr ""
            end
  end.

(** [str(event.get("id") or "").strip()] *)
Definition event_id (event : dict) : res string :=
  match dget "id" event with
  | Some v => if truthy v then let! s := py_str v in Ok (strip s) else Ok ""
  | None => Ok ""
  end.

(** INSERT OR IGNORE on the primary key. *)
Definition insert_or_ignore (r : OutboxRow) (t : table) : bool * table :=
  if existsb (fun r' => String.eqb (ob_id r') (ob_id r)) t then (false, t)
  else (true, t ++ [r]).

(** [storage_ok] is whether the database could be opened and written. *)
Definition enqueue (event : dict) (url : string) (ts : Z) (storage_ok : bool) (t : table)
  : res (bool * table) :=
  let! id := event_id event in
  if is_empty id then Ok (false, t)
  else if negb storage_ok then Ok (false, t)
  else
    match sql_text (default JNull (dget "correlation_key" event)), sql_text (created_iso event) with
    | inr e, _ => Err e
    | inl None, _ => Ok (false, t)
    | inl (Some key), inr e => Err e
    | inl (Some key), inl (Some (Some created)) =>
        Ok (insert_or_ignore
              {| ob_id := id; ob_url := url; ob_payload := enc Spaced (JObj event);
                 ob_correlation_key := key; ob_created_at := created; ob_attempts := 0;
                 ob_next_attempt_at := ts; ob_delivered_at := None; ob_last_error := None |} t)
    | inl (Some _), inl _ => Ok (false, t)
    end.

(** ** deliver_due_once *)

Definition due (ts : Z) (r : OutboxRow) : bool :=
  match ob_delivered_at r with None => (ob_next_attempt_at r <=? ts)%Z | Some _ => false end.

Definition created_le (a b : OutboxRow) : bool := String.leb (ob_created_at a) (ob_created_at b).

(** The SELECT: due rows by creation, then by row id, at most [max_batch] of them. *)
Definition select_due (ts : Z) (max_batch : nat) (t : table) : list OutboxRow :=
  take max_batch (sort_by created_le (keep (due ts) t)).

(** UPDATE ... WHERE id=? *)
Definition update_row (id : string) (f : OutboxRow -> OutboxRow) (t : table) : table :=
  (fun r => if String.eqb (ob_id r) id then f r else r) <$> t.

Definition reschedule (attempts next : Z) (error : string) (r : OutboxRow) : OutboxRow :=
  {| ob_id := ob_id r; ob_url := ob_url r; ob_payload := ob_payload r;
     ob_correlation_key := ob_correlation_key r; ob_created_at := ob_created_at r;
     ob_attempts := attempts; ob_next_attempt_at := next;
     ob_delivered_at := ob_delivered_at r; ob_last_error := Some error |}.

Definition stamp (at_ : string) (r : OutboxRow) : OutboxRow :=
  {| ob_id := ob_id r; ob_url := ob_url r; ob_payload := ob_payload r;
     ob_correlation_key := ob_correlation_key r; ob_created_at := ob_created_at r;
     ob_attempts := ob_attempts r; ob_next_attempt_at := ob_next_attempt_at r;
     ob_delivered_at := Some at_; ob_last_error := None |}.

(** What the sender did: returned, or raised with a message. *)
Inductive send_result := Sent | SendFailed (error : string).

Record counts := { c_delivered : nat; c_failed : nat; c_abandoned : nat }.
Definition no_counts : counts := {| c_delivered := 0; c_failed := 0; c_abandoned := 0 |}.

Section Relay.
Variable iso : Z -> string.

(** One turn of the loop on a selected row: its write to the table. *)
Definition settle (ts : Z) (row : OutboxRow) (result : send_result) (t : table) : table :=
  match result with
  | SendFailed error =>
      let attempts := (ob_attempts row + 1)%Z in
      if (_MAX_ATTEMPTS <=? attempts)%Z
      then update_row (ob_id row) (reschedule attempts (ts + _BACKOFF_CAP_S * 24) error) t
      else update_row (ob_id row) (reschedule attempts (ts + _backoff_seconds attempts) error) t
  | Sent => update_row (ob_id row) (stamp (iso ts)) t
  end.

Definition count (row : OutboxRow) (result : send_result) (c : counts) : counts :=
  match result with
  | SendFailed _ =>
      if (_MAX_ATTEMPTS <=? ob_attempts row + 1)%Z
      then {| c_delivered := c_delivered c; c_failed := c_failed c;
              c_abandoned := S (c_abandoned c) |}
      else {| c_delivered := c_delivered c; c_failed := S (c_failed c);
              c_abandoned := c_abandoned c |}
  | Sent => {| c_delivered := S (c_delivered c); c_failed := c_failed c;
               c_abandoned := c_abandoned c |}
  end.

(** The loop over the selected rows; [send] is the sender. *)
Fixpoint deliver_rows (ts : Z) (send : string -> string -> send_result) (rows : list OutboxRow)
    (t : table) (c : counts) : table * counts :=
  match rows with
  | [] => (t, c)
  | row :: rest =>
      let result := send (ob_url row) (ob_payload row) in
      deliver_rows ts send rest (settle ts row result t) (count row result c)
  end.

Definition undelivered (r : OutboxRow) : bool :=
  match ob_delivered_at r with None => true | Some _ => false end.

(** The table after the call, the counts and the number remaining. *)
Definition deliver_due_once (ts : Z) (send : string -> string -> send_result) (max_batch : nat)
    (t : table) : table * counts * nat :=
  let '(t', c) := deliver_rows ts send (select_due ts max_batch t) t no_counts in
  (t', c, countb undelivered t').

Definition pending_count (t : table) : nat := countb undelivered t.

(** ** The system: enqueues, relays and crashes

    Every SQL statement is atomic; between two of them other threads may enqueue, another
    relay may run, and the process may die.  [o_sends] is the log of calls of the sender
    that returned; [o_born] remembers, for each id, when its row was due first. *)
Record system := {
  o_table : table;
  o_relays : list (Z * list OutboxRow);
  o_sends : list (string * string * string);
  o_born : gmap string Z;
}.

Definition sent_entry (r : OutboxRow) : string * string * string :=
  (ob_id r, ob_url r, ob_payload r).

Inductive outbox_step : system -> system -> Prop :=
  | step_enqueue s event url ts ok written t' :
      enqueue event url ts ok (o_table s) = Ok (written, t') ->
      outbox_step s
        {| o_table := t'; o_relays := o_relays s; o_sends := o_sends s;
           o_born := match event_id event with
                     | Ok id => if (written : bool) then <[id := ts]> (o_born s) else o_born s
                     | Err _ => o_born s
                     end |}
  | step_select s ts max_batch :
      outbox_step s
        {| o_table := o_table s;
           o_relays := (ts, select_due ts max_batch (o_table s)) :: o_relays s;
           o_sends := o_sends s; o_born := o_born s |}
  | step_settle s i ts row rest result :
      o_relays s !! i = Some (ts, row :: rest) ->
      outbox_step s
        {| o_table := settle ts row result (o_table s);
           o_relays := <[i := (ts, rest)]> (o_relays s);
           o_sends := match result with Sent => sent_entry row :: o_sends s | _ => o_sends s end;
           o_born := o_born s |}
  | step_crash_after_send s i ts row rest :
      o_relays s !! i = Some (ts, row :: rest) ->
      outbox_step s
        {| o_table := o_table s; o_relays := delete i (o_relays s);
           o_sends := sent_entry row :: o_sends s; o_born := o_born s |}
  | step_end_or_crash s i :
      outbox_step s
        {| o_table := o_table s; o_relays := delete i (o_relays s); o_sends := o_sends s;
           o_born := o_born s |}.

Definition empty_system : system :=
  {| o_table := []; o_relays := []; o_sends := []; o_born := ∅ |}.

Inductive outbox_reach : system -> Prop :=
  | reach_empty : outbox_reach empty_system
  | reach_step s s' : outbox_reach s -> outbox_step s s' -> outbox_reach s'.
End Relay.

(** ** Lemmas on the statements *)

Lemma update_row_ids id f t :
  (forall r, sent_entry (f r) = sent_entry r) -> sent_entry <$> update_row id f t = sent_entry <$> t.
Proof.
  intros Hf. unfold update_row. rewrite <- list_fmap_compose. apply list_fmap_ext.
  intros _ r _. cbn. by destruct (String.eqb (ob_id r) id).
Qed.

Lemma settle_entries iso ts row result t :
  sent_entry <$> settle iso ts row result t = sent_entry <$> t.
Proof.
  unfold settle. destruct result; [by apply update_row_ids|].
  destruct (_ <=? _)%Z; by apply update_row_ids.
Qed.

Lemma entries_ids (t : table) : ob_id <$> t = (fst ∘ fst) <$> (sent_entry <$> t).
Proof. by rewrite <- list_fmap_compose. Qed.

Lemma elem_of_update_row id f t r' :
  r' ∈ update_row id f t <->
  exists r, r ∈ t /\ r' = (if String.eqb (ob_id r) id then f r else r).
Proof. unfold update_row. rewrite list_elem_of_fmap. naive_solver. Qed.

Lemma insert_cases r t :
  (insert_or_ignore r t = (false, t) /\ ob_id r ∈ ob_id <$> t)
  \/ (insert_or_ignore r t = (true, t ++ [r]) /\ (ob_id r ∉ ob_id <$> t)).
Proof.
  unfold insert_or_ignore. destruct (existsb _ t) eqn:E.
  - left. split; [done|]. apply existsb_spec in E as (x & Hx & Ex). apply String.eqb_eq in Ex.
    rewrite <- Ex. by apply list_elem_of_fmap_2.
  - right. split; [done|]. intros (x & Ex & Hx)%list_elem_of_fmap.
    rewrite existsb_false in E. specialize (E x Hx). cbn in E. by rewrite Ex, String.eqb_refl in E.
Qed.

(** An enqueue leaves the table as it is, or adds the row of the event at its end. *)
Lemma enqueue_cases event url ts ok t b t' :
  enqueue event url ts ok t = Ok (b, t') ->
  (b = false /\ t' = t)
  \/ (b = true /\ exists r, t' = t ++ [r] /\ (ob_id r ∉ ob_id <$> t)
        /\ event_id event = Ok (ob_id r) /\ ob_url r = url /\ ob_payload r = enc Spaced (JObj event)
        /\ ob_attempts r = 0%Z /\ ob_next_attempt_at r = ts /\ ob_delivered_at r = None).
Proof.
  unfold enqueue. intros H. apply bind_Ok_inv in H as (id & Hid & H).
  destruct (is_empty id); [injection H as <- <-; auto|].
  destruct ok; cbn [negb] in H; [|injection H as <- <-; auto].
  destruct (sql_text (default JNull (dget "correlation_key" event))) as [[key|]|e]; try discriminate;
    [|injection H as <- <-; auto].
  destruct (sql_text (created_iso event)) as [[[created|]|]|e]; try discriminate;
    try (injection H as <- <-; auto).
  match type of H with Ok (insert_or_ignore ?r t) = _ =>
    destruct (insert_cases r t) as [[E _]|[E Hn]]; rewrite E in H; injection H as <- <- end; [by left|].
  right. split; [done|]. eexists. repeat (split; [reflexivity || exact Hn || exact Hid|]). done.
Qed.

(** ** The schedule *)

(** The delay after the [n]-th failure, and the time [n] failures take at least. *)
Definition delay (n : Z) : Z :=
  if (_MAX_ATTEMPTS <=? n)%Z then (_BACKOFF_CAP_S * 24)%Z else _backoff_seconds n.
Fixpoint elapsed (n : nat) : Z :=
  match n with O => 0%Z | S n' => (elapsed n' + delay (Z.of_nat n))%Z end.

Lemma settle_failed iso ts row error t :
  settle iso ts row (SendFailed error) t
  = update_row (ob_id row) (reschedule (ob_attempts row + 1) (ts + delay (ob_attempts row + 1)) error) t.
Proof. unfold settle, delay. by destruct (_ <=? _)%Z. Qed.

Lemma backoff_bounds n : (1 <= n)%Z -> (_BACKOFF_BASE_S <= _backoff_seconds n <= _BACKOFF_CAP_S)%Z.
Proof.
  intros H. unfold _backoff_seconds, _BACKOFF_BASE_S, _BACKOFF_CAP_S.
  destruct (n <=? 0)%Z eqn:E; [apply Z.leb_le in E; lia|].
  assert (0 < 2 ^ (n - 1))%Z by (apply Z.pow_pos_nonneg; lia).
  split; [apply Z.min_glb; lia | apply Z.le_min_r].
Qed.

Lemma backoff_mono n m : (n <= m)%Z -> (_backoff_seconds n <= _backoff_seconds m)%Z.
Proof.
  intros H. unfold _backoff_seconds, _BACKOFF_BASE_S, _BACKOFF_CAP_S.
  destruct (n <=? 0)%Z eqn:En, (m <=? 0)%Z eqn:Em; bprop; try lia.
  assert (2 ^ (n - 1) <= 2 ^ (m - 1))%Z by (apply Z.pow_le_mono_r; lia).
  apply Z.min_le_compat_r. lia.
Qed.

(** A row is due at the earliest when its failures allow, counted from its birth. *)
Definition spaced (born : gmap string Z) (r : OutboxRow) : Prop :=
  (0 <= ob_attempts r)%Z
  /\ exists b, born !! ob_id r = Some b
               /\ (b + elapsed (Z.to_nat (ob_attempts r)) <= ob_next_attempt_at r)%Z.

Lemma spaced_born born r id ts : ob_id r <> id -> spaced born r -> spaced (<[id := ts]> born) r.
Proof.
  intros Hne [Ha (b & Hb & Hs)]. split; [done|]. exists b. by rewrite lookup_insert_ne.
Qed.

Lemma spaced_reschedule born row r ts error :
  spaced born row -> (ob_next_attempt_at row <= ts)%Z -> ob_id r = ob_id row ->
  spaced born (reschedule (ob_attempts row + 1) (ts + delay (ob_attempts row + 1)) error r).
Proof.
  intros [Ha (b & Hb & Hs)] Hd Hid. split; [cbn; lia|]. exists b. cbn. rewrite Hid. split; [done|].
  replace (Z.to_nat (ob_attempts row + 1)) with (S (Z.to_nat (ob_attempts row))) by lia.
  cbn [elapsed]. replace (Z.of_nat (S (Z.to_nat (ob_attempts row)))) with (ob_attempts row + 1)%Z by lia.
  lia.
Qed.

(** ** The invariant of the system *)

Definition relay_row_ok (s : system) (ts : Z) (x : OutboxRow) : Prop :=
  (ob_next_attempt_at x <= ts)%Z /\ sent_entry x ∈ sent_entry <$> o_table s /\ spaced (o_born s) x.

Record outbox_inv (s : system) : Prop := {
  inv_ids : NoDup (ob_id <$> o_table s);
  inv_sent : forall r, r ∈ o_table s -> ob_delivered_at r <> None -> sent_entry r ∈ o_sends s;
  inv_relays : forall q x, q ∈ o_relays s -> x ∈ q.2 -> relay_row_ok s q.1 x;
  inv_spaced : forall r, r ∈ o_table s -> spaced (o_born s) r;
}.

Lemma elem_of_delete {A} (l : list A) i x : x ∈ delete i l -> x ∈ l.
Proof. intros H. eapply elem_of_submseteq; [exact H|]. apply sublist_submseteq, sublist_delete. Qed.

Lemma elem_of_insert {A} (l : list A) i y x : x ∈ <[i := y]> l -> x = y \/ x ∈ l.
Proof.
  intros (j & Hj)%list_elem_of_lookup_1. apply list_lookup_insert_Some in Hj as [(_ & -> & _)|[_ Hj]];
    [by left|]. right. by eapply list_elem_of_lookup_2.
Qed.

Lemma sent_entry_in (t : table) r : r ∈ t -> sent_entry r ∈ sent_entry <$> t.
Proof. apply list_elem_of_fmap_2. Qed.

(** Steps that do not touch the table: relays begin, end and crash. *)
Lemma inv_relays_only s relays sends :
  outbox_inv s ->
  (forall q x, q ∈ relays -> x ∈ q.2 -> relay_row_ok s q.1 x) ->
  (forall e, e ∈ o_sends s -> e ∈ sends) ->
  outbox_inv {| o_table := o_table s; o_relays := relays; o_sends := sends; o_born := o_born s |}.
Proof.
  intros [H1 H2 H3 H4] Hr Hs. split; cbn; [done| |exact Hr|done].
  intros r Hin Hd. by apply Hs, H2.
Qed.

Lemma select_due_elem ts m t x : x ∈ select_due ts m t -> x ∈ t /\ due ts x = true.
Proof.
  unfold select_due. intros H. apply elem_of_take in H as (i & Hi & _).
  apply list_elem_of_lookup_2 in Hi. rewrite elem_of_sort_by in Hi. by apply elem_of_keep in Hi.
Qed.

Lemma due_spec ts r :
  due ts r = true <-> ob_delivered_at r = None /\ (ob_next_attempt_at r <= ts)%Z.
Proof. unfold due. destruct (ob_delivered_at r); [naive_solver|]. rewrite Z.leb_le. naive_solver. Qed.

Lemma inv_enqueue s event url ts ok written t' :
  enqueue event url ts ok (o_table s) = Ok (written, t') -> outbox_inv s ->
  outbox_inv {| o_table := t'; o_relays := o_relays s; o_sends := o_sends s;
                o_born := match event_id event with
                          | Ok id => if (written : bool) then <[id := ts]> (o_born s) else o_born s
                          | Err _ => o_born s
                          end |}.
Proof.
  intros H Hi. apply enqueue_cases in H as [[-> ->]|(-> & r & -> & Hn & -> & _ & _ & Ha & Ht & Hd)].
  { destruct (event_id event); by destruct s. }
  destruct Hi as [H1 H2 H3 H4].
  assert (Hne : forall x, x ∈ o_table s -> ob_id x <> ob_id r).
  { intros x Hx E. apply Hn. rewrite <- E. by apply list_elem_of_fmap_2. }
  assert (Hr : spaced (<[ob_id r := ts]> (o_born s)) r).
  { split; [lia|]. exists ts. rewrite lookup_insert_eq, Ha, Ht. split; [done|].
    change (elapsed (Z.to_nat 0)) with 0%Z. lia. }
  split; cbn.
  - rewrite fmap_app. apply NoDup_app. split; [done|]. split; [|apply NoDup_singleton].
    intros x Hx Hx'. apply list_elem_of_singleton in Hx' as ->. done.
  - intros x Hx Hdx. apply elem_of_app in Hx as [Hx| ->%list_elem_of_singleton]; [by apply H2 | done].
  - intros q x Hq Hx. destruct (H3 q x Hq Hx) as (Hdue & Hin & Hsp). split; [done|].
    cbn. split; [rewrite fmap_app; apply elem_of_app; by left|].
    apply spaced_born; [|done]. apply list_elem_of_fmap in Hin as (y & Ey & Hy).
    injection Ey as -> _ _. by apply Hne.
  - intros x Hx. apply elem_of_app in Hx as [Hx| ->%list_elem_of_singleton]; [|done].
    apply spaced_born; auto.
Qed.

(** The write for one row keeps the invariant: [sends] has grown when it was sent. *)
Lemma inv_settle iso s i ts row rest result :
  o_relays s !! i = Some (ts, row :: rest) -> outbox_inv s ->
  outbox_inv {| o_table := settle iso ts row result (o_table s);
                o_relays := <[i := (ts, rest)]> (o_relays s);
                o_sends := match result with Sent => sent_entry row :: o_sends s | _ => o_sends s end;
                o_born := o_born s |}.
Proof.
  intros Hi Hinv. destruct Hinv as [H1 H2 H3 H4].
  pose proof (list_elem_of_lookup_2 _ _ _ Hi) as Hq.
  destruct (H3 _ row Hq (list_elem_of_here _ _)) as (Hdue & Hin & Hsp). cbn in Hdue.
  assert (Hsame : forall x, x ∈ o_table s -> ob_id x = ob_id row -> sent_entry x = sent_entry row).
  { intros x Hx E. apply list_elem_of_fmap in Hin as (y & Ey & Hy).
    assert (x = y) as ->; [|done]. apply (NoDup_fmap_elem ob_id (o_table s)); auto.
    injection Ey as Ey _ _. congruence. }
  split; cbn [o_table o_relays o_sends o_born].
  - rewrite !entries_ids, settle_entries, <- entries_ids. done.
  - intros x Hx Hd. destruct result as [|error].
    + apply elem_of_update_row in Hx as (y & Hy & ->).
      destruct (String.eqb_spec (ob_id y) (ob_id row)) as [E|E].
      * rewrite <- (Hsame y Hy E). apply list_elem_of_here.
      * apply list_elem_of_further, H2; done.
    + rewrite settle_failed in Hx. apply elem_of_update_row in Hx as (y & Hy & ->).
      destruct (String.eqb_spec (ob_id y) (ob_id row)) as [E|E]; by apply (H2 y).
  - intros q x Hq' Hx. unfold relay_row_ok. cbn [o_table o_born]. rewrite settle_entries.
    apply elem_of_insert in Hq' as [->|Hq']; [|by apply (H3 q)].
    apply (H3 (ts, row :: rest) x Hq). by apply list_elem_of_further.
  - intros x Hx. destruct result as [|error].
    + apply elem_of_update_row in Hx as (y & Hy & ->). specialize (H4 y Hy).
      by destruct (String.eqb (ob_id y) (ob_id row)).
    + rewrite settle_failed in Hx. apply elem_of_update_row in Hx as (y & Hy & ->).
      destruct (String.eqb_spec (ob_id y) (ob_id row)) as [E|E]; [|by apply H4].
      by apply spaced_reschedule.
Qed.

Lemma inv_step iso s s' : outbox_inv s -> outbox_step iso s s' -> outbox_inv s'.
Proof.
  intros Hinv Hs.
  destruct Hs as [s event url ts ok w t' He|s ts m|s i ts row rest result Hi|s i ts row rest Hi|s i].
  - by eapply inv_enqueue.
  - apply inv_relays_only; auto. destruct Hinv as [H1 H2 H3 H4]. intros q x Hq Hx.
    apply elem_of_cons in Hq as [->|Hq]; [|by apply H3]. cbn [fst snd] in *.
    apply select_due_elem in Hx as [Hx Hdue]. apply due_spec in Hdue as [_ Hdue].
    split; [done|]. split; [by apply sent_entry_in | by apply H4].
  - by apply inv_settle.
  - apply inv_relays_only; [done| |intros e He; by apply list_elem_of_further].
    destruct Hinv as [H1 H2 H3 H4]. intros q x Hq Hx.
    apply elem_of_delete in Hq. by apply H3.
  - apply inv_relays_only; auto. destruct Hinv as [H1 H2 H3 H4]. intros q x Hq Hx.
    apply elem_of_delete in Hq. by apply H3.
Qed.

Lemma inv_reach iso s : outbox_reach iso s -> outbox_inv s.
Proof.
  induction 1 as [|s s' _ IH Hs]; [|by eapply inv_step].
  split; cbn.
  - apply NoDup_nil_2.
  - intros r Hr. by apply elem_of_nil in Hr.
  - intros q x Hq. by apply elem_of_nil in Hq.
  - intros r Hr. by apply elem_of_nil in Hr.
Qed.

Lemma step_keeps_rows iso s s' :
  outbox_step iso s s' -> (sent_entry <$> o_table s) `prefix_of` (sent_entry <$> o_table s').
Proof.
  intros Hs.
  destruct Hs as [s event url ts ok w t' He|s ts m|s i ts row rest result Hi|s i ts row rest Hi|s i];
    cbn [o_table]; try done.
  - apply enqueue_cases in He as [[_ ->]|(_ & r & -> & _)]; [done|].
    rewrite fmap_app. by apply prefix_app_r.
  - by rewrite settle_entries.
Qed.

(** ** Lemmas on a relay whose sender succeeds *)

(** [r["id"] in rows] *)
Definition id_in (rows : list OutboxRow) (r : OutboxRow) : bool :=
  existsb (fun x => String.eqb (ob_id r) (ob_id x)) rows.

Lemma deliver_sent (iso : Z -> string) ts rows t c :
  (deliver_rows iso ts (fun _ _ => Sent) rows t c).1
  = (fun r => if id_in rows r then stamp (iso ts) r else r) <$> t.
Proof.
  revert t c. induction rows as [|row rows IH]; intros t c; cbn [deliver_rows fst].
  - symmetry. apply list_fmap_id.
  - rewrite IH. cbn [settle]. unfold update_row. rewrite <- list_fmap_compose.
    apply list_fmap_ext. intros _ r _. cbn [id_in existsb compose].
    destruct (String.eqb_spec (ob_id r) (ob_id row)) as [E|E]; cbn [orb]; [|done].
    unfold id_in. cbn [stamp ob_id]. by destruct (existsb _ rows).
Qed.

Lemma count_after (iso : Z -> string) ts rows (t : table) :
  countb undelivered ((fun r => if id_in rows r then stamp (iso ts) r else r) <$> t)
  = countb (fun r => undelivered r && negb (id_in rows r)) t.
Proof.
  induction t as [|r t IH]; [done|]. rewrite fmap_cons, !countb_cons, IH. f_equal. destruct (id_in rows r); cbn; [|by rewrite andb_true_r].
  by destruct (undelivered r).
Qed.

Lemma countb_split {A} (f g : A -> bool) l :
  countb f l = countb (fun x => f x && g x) l + countb (fun x => f x && negb (g x)) l.
Proof.
  induction l as [|x l IH]; [done|]. rewrite !countb_cons, IH. destruct (f x), (g x); cbn; lia.
Qed.

Lemma NoDup_of_ids (t : table) : NoDup (ob_id <$> t) -> NoDup t.
Proof. apply NoDup_fmap_1. Qed.

Lemma NoDup_keep {A} (f : A -> bool) (l : list A) : NoDup l -> NoDup (keep f l).
Proof. intros H. eapply sublist_NoDup; [exact H | apply keep_sublist]. Qed.

Lemma select_due_NoDup ts m t : NoDup (ob_id <$> t) -> NoDup (select_due ts m t).
Proof.
  intros H. unfold select_due. eapply sublist_NoDup; [|apply sublist_take].
  rewrite sort_by_perm. by apply NoDup_keep, NoDup_of_ids.
Qed.

Lemma count_selected ts m t :
  NoDup (ob_id <$> t) ->
  countb (fun r => undelivered r && id_in (select_due ts m t) r) t = length (select_due ts m t).
Proof.
  intros Hnd. unfold countb. apply Permutation_length, NoDup_Permutation.
  - by apply NoDup_keep, NoDup_of_ids.
  - by apply select_due_NoDup.
  - intros r. rewrite elem_of_keep. split.
    + intros [Hr H]. apply andb_true_iff in H as [_ H]. unfold id_in in H.
      apply existsb_spec in H as (x & Hx & E). apply String.eqb_eq in E.
      destruct (select_due_elem _ _ _ _ Hx) as [Hxt _].
      by rewrite (NoDup_fmap_elem ob_id t r x).
    + intros Hr. destruct (select_due_elem _ _ _ _ Hr) as [Ht Hd]. split; [done|].
      apply due_spec in Hd as [Hd _]. unfold undelivered. rewrite Hd. cbn. unfold id_in.
      apply existsb_spec. exists r. split; [done | apply String.eqb_refl].
Qed.

(** Every undelivered row is due at [ts]. *)
Definition all_due (ts : Z) (t : table) : Prop :=
  forall r, r ∈ t -> ob_delivered_at r = None -> (ob_next_attempt_at r <= ts)%Z.

Lemma select_due_length ts m t :
  all_due ts t -> length (select_due ts m t) = Nat.min m (countb undelivered t).
Proof.
  intros H. unfold select_due. rewrite length_take. f_equal.
  rewrite sort_by_perm. unfold countb. f_equal. unfold keep. apply filter_ext_in.
  intros r Hr%list_elem_of_In. unfold undelivered. destruct (due ts r) eqn:E.
  - apply due_spec in E as [-> _]. done.
  - destruct (ob_delivered_at r) eqn:Ed; [done|].
    assert (due ts r = true) by (apply due_spec; auto). congruence.
Qed.

(** One tick with a sender that succeeds. *)
Definition good_tick (iso : Z -> string) (m : nat) (t : table) (ts : Z) : table :=
  (deliver_due_once iso ts (fun _ _ => Sent) m t).1.1.

Lemma good_tick_spec (iso : Z -> string) m t ts :
  NoDup (ob_id <$> t) -> all_due ts t ->
  countb undelivered (good_tick iso m t ts) = countb undelivered t - m
  /\ NoDup (ob_id <$> good_tick iso m t ts)
  /\ forall ts', all_due ts' t -> all_due ts' (good_tick iso m t ts).
Proof.
  intros Hnd Hdue. unfold good_tick, deliver_due_once.
  pose proof (deliver_sent iso ts (select_due ts m t) t no_counts) as E.
  destruct (deliver_rows _ _ _ _ _ _) as [t' c]. cbn [fst] in E |- *. subst t'. split; [|split].
  - rewrite count_after.
    pose proof (countb_split undelivered (id_in (select_due ts m t)) t) as S.
    rewrite count_selected, select_due_length in S by done. lia.
  - rewrite <- list_fmap_compose. erewrite list_fmap_ext; [exact Hnd|].
    intros _ r _. cbn. by destruct (id_in _ r).
  - intros ts' H r Hr Hd. apply list_elem_of_fmap in Hr as (x & -> & Hx).
    destruct (id_in _ x); [done|]. by apply H.
Qed.

(** ** Properties *)

(** C24 (safety): the outbox loses nothing and delivers before it says so.  In every state
    the system can reach, by enqueues, relays that run concurrently, failures and crashes
    at any point, a row stamped delivered was sent with its own url and payload by a call
    that returned, ids are unique, and a step never removes or changes the event of a row;
    an event whose enqueue reported success is in the table with its payload, due at
    once. *)
Theorem outbox_at_least_once (iso : Z -> string) (s : system) :
  outbox_reach iso s ->
  (forall r, r ∈ o_table s -> ob_delivered_at r <> None -> sent_entry r ∈ o_sends s)
  /\ NoDup (ob_id <$> o_table s)
  /\ (forall s', outbox_step iso s s' ->
        (sent_entry <$> o_table s) `prefix_of` (sent_entry <$> o_table s'))
  /\ (forall event url ts ok t',
        enqueue event url ts ok (o_table s) = Ok (true, t') ->
        exists r, t' = o_table s ++ [r] /\ event_id event = Ok (ob_id r) /\ ob_url r = url
                  /\ ob_payload r = enc Spaced (JObj event) /\ due ts r = true).
Proof.
  intros Hr. pose proof (inv_reach iso s Hr) as [H1 H2 _ _].
  split; [done|]. split; [done|]. split; [intros s'; apply step_keeps_rows|].
  intros event url ts ok t' He.
  apply enqueue_cases in He as [[Hf _]|(_ & r & -> & _ & Hid & Hu & Hp & _ & Ht & Hd)]; [done|].
  exists r. do 4 (split; [done|]). apply due_spec. split; [done | lia].
Qed.

(** Retries are spaced as the schedule says.  After a failed attempt the
    delay is at least 5 seconds and at most an hour and grows with the attempts, until the
    25th, after which it is a day.  In every reachable state a row is due no earlier than
    the sum of the delays of its failures after it was enqueued: a row given up after 25
    attempts is not due before 141915 seconds.  It is due again then: giving up only means
    one attempt a day. *)
Theorem retry_schedule_bounds (iso : Z -> string) :
  (forall n, (1 <= n < _MAX_ATTEMPTS)%Z ->
     (5 <= delay n <= 3600)%Z /\ (delay n <= delay (n + 1))%Z)
  /\ (forall n, (_MAX_ATTEMPTS <= n)%Z -> delay n = 86400%Z)
  /\ (forall s, outbox_reach iso s -> forall r, r ∈ o_table s ->
        (0 <= ob_attempts r)%Z
        /\ exists b, o_born s !! ob_id r = Some b
             /\ (b + elapsed (Z.to_nat (ob_attempts r)) <= ob_next_attempt_at r)%Z)
  /\ elapsed 25 = 141915%Z
  /\ (forall ts row error t r, r ∈ t -> ob_id r = ob_id row -> ob_delivered_at r = None ->
        (_MAX_ATTEMPTS <= ob_attempts row + 1)%Z ->
        exists r', r' ∈ settle iso ts row (SendFailed error) t
                   /\ ob_id r' = ob_id row /\ due (ts + 86400) r' = true
                   /\ due (ts + 86399) r' = false).
Proof.
  split; [|split; [|split; [|split; [vm_compute; reflexivity|]]]].
  - intros n Hn. unfold delay, _MAX_ATTEMPTS in *.
    rewrite (proj2 (Z.leb_gt 25 n)) by lia. pose proof (backoff_bounds n) as B.
    unfold _BACKOFF_BASE_S, _BACKOFF_CAP_S in B. split; [lia|].
    destruct (25 <=? n + 1)%Z; [unfold _BACKOFF_CAP_S; lia | apply backoff_mono; lia].
  - intros n Hn. unfold delay. by rewrite (proj2 (Z.leb_le _ _) Hn).
  - intros s Hr r Hin. by apply (inv_reach iso s Hr).
  - intros ts row error t r Hin Hid Hd Ha. rewrite settle_failed.
    assert (delay (ob_attempts row + 1) = 86400)%Z as ->
      by (unfold delay; by rewrite (proj2 (Z.leb_le _ _) Ha)).
    eexists. split; [apply elem_of_update_row; exists r; split; [done|]; by rewrite Hid, String.eqb_refl|].
    split; [done|]. unfold due. cbn. rewrite Hd. split; [apply Z.leb_le; lia | apply Z.leb_gt; lia].
Qed.

(** A backlog drains.  When every undelivered row is due and the target
    answers again, each tick delivers a full batch or all that is left: after any number
    of ticks the number of undelivered rows is what it was less the batches, so
    [n / max_batch] ticks, rounded up, deliver a backlog of [n]. *)
Theorem backlog_drains (iso : Z -> string) (m : nat) (t : table) (times : list Z) :
  NoDup (ob_id <$> t) -> (forall ts, ts ∈ times -> all_due ts t) ->
  countb undelivered (foldl (good_tick iso m) t times) = countb undelivered t - length times * m
  /\ (countb undelivered t <= length times * m ->
      pending_count (foldl (good_tick iso m) t times) = 0).
Proof.
  intros Hnd Hdue.
  assert (E : countb undelivered (foldl (good_tick iso m) t times)
              = countb undelivered t - length times * m).
  { revert t Hnd Hdue. induction times as [|ts times IH]; intros t Hnd Hdue; cbn [foldl length];
      [lia|].
    destruct (good_tick_spec iso m t ts Hnd) as (Hc & Hn & Hd); [apply Hdue, list_elem_of_here|].
    rewrite IH, Hc; [lia|done|]. intros ts' Ht. by apply Hd, Hdue, list_elem_of_further. }
  split; [done|]. intros H. unfold pending_count. lia.
Qed.

(** ** Witnesses *)

Definition example_event : dict := [("id", JStr "e1"); ("status", JStr "done")].
Definition example_row : OutboxRow :=
  {| ob_id := "e1"; ob_url := "http://hook"; ob_payload := enc Spaced (JObj example_event);
     ob_correlation_key := None; ob_created_at := ""; ob_attempts := 0; ob_next_attempt_at := 0;
     ob_delivered_at := None; ob_last_error := None |}.
Definition example_system : system :=
  {| o_table := [example_row]; o_relays := []; o_sends := []; o_born := <["e1" := 0%Z]> ∅ |}.

Lemma example_reach iso : outbox_reach iso example_system.
Proof.
  apply (reach_step iso empty_system); [apply reach_empty|].
  apply (step_enqueue iso empty_system example_event "http://hook" 0 true true). reflexivity.
Qed.

Lemma outbox_at_least_once_witness :
  outbox_reach (fun _ => "now") example_system /\ NoDup (ob_id <$> o_table example_system).
Proof.
  split; [apply example_reach|].
  destruct (outbox_at_least_once (fun _ => "now") example_system (example_reach _)) as (_ & H & _).
  exact H.
Defined.

Lemma backlog_drains_witness :
  pending_count (foldl (good_tick (fun _ => "now") 100) [example_row] [10%Z]) = 0.
Proof.
  destruct (backlog_drains (fun _ => "now") 100 [example_row] [10%Z]) as [_ H].
  - apply NoDup_singleton.
  - intros ts Hts r Hr _. apply list_elem_of_singleton in Hts as ->.
    apply list_elem_of_singleton in Hr as ->. vm_compute. discriminate.
  - apply H. vm_compute. lia.
Defined.
