(* ===== verification/ScimFilter.v ===== *)
(** The SCIM filter parser (apps/web-server/server/scim/filters.py): the regular
    expression as a grammar, the parser that recognises it, and which filters come out.

    Strings are ASCII: [\s] and [\w] are the ASCII blanks and word characters. *)
From S2P Require Import Prelude.

Definition _ALLOWED_ATTRIBUTES : list string := ["userName"; "externalId"; "active"].

Inductive ScimValue := VStr (s : string) | VBool (b : bool).

Record ScimFilter := { attribute : string; filter_value : ScimValue }.

Definition ScimFilterInvalid {A} : res A := Err (AppError "ScimFilterInvalid").

(** ** The expression, read from the left

    Every repetition of the expression stops at a character outside its class, so reading
    the longest run is what the matcher ends up with. *)

Definition quote : ascii := ascii_of_nat 34.
Definition is_word (c : ascii) : bool :=
  let n := nat_of_ascii c in
  ((48 <=? n) && (n <=? 57)) || ((65 <=? n) && (n <=? 90)) || ((97 <=? n) && (n <=? 122))
  || (n =? 95).
Definition not_quote (c : ascii) : bool := negb (Ascii.eqb c quote).

(** The longest prefix of characters of a class, and the rest. *)
Fixpoint span (f : ascii -> bool) (s : string) : string * string :=
  match s with
  | EmptyString => (EmptyString, EmptyString)
  | String c s' =>
      if f c then let '(a, r) := span f s' in (String c a, r) else (EmptyString, s)
  end.

(** [(?i:eq)] *)
Definition read_eq (s : string) : option string :=
  match s with
  | String a (String b r) =>
      if Ascii.eqb (lower_ascii a) "e" && Ascii.eqb (lower_ascii b) "q" then Some r else None
  | _ => None
  end.

(** What follows a literal word. *)
Fixpoint after (p s : string) : option string :=
  match p, s with
  | EmptyString, _ => Some s
  | String c p', String c' s' => if Ascii.eqb c c' then after p' s' else None
  | String _ _, EmptyString => None
  end.

(** The quoted value or the bare word, and the rest. *)
Definition read_value (s : string) : option (ScimValue * string) :=
  match s with
  | String c s' =>
      if Ascii.eqb c quote then
        match span not_quote s' with
        | (v, String _ r) => Some (VStr v, r)
        | (_, EmptyString) => None
        end
      else
        match after "true" s with
        | Some r => Some (VBool true, r)
        | None =>
            match after "false" s with
            | Some r => Some (VBool false, r)
            | None => None
            end
        end
  | EmptyString => None
  end.

(** [_FILTER_RE.match]: the attribute and the value. *)
Definition _FILTER_RE (s : string) : option (string * ScimValue) :=
  let '(_, s) := span is_blank s in
  let '(attr, s) := span is_word s in
  let '(w2, s) := span is_blank s in
  match read_eq s with
  | None => None
  | Some s =>
      let '(w3, s) := span is_blank s in
      if is_empty attr || is_empty w2 || is_empty w3 then None
      else
        match read_value s with
        | None => None
        | Some (v, s) =>
            let '(_, rest) := span is_blank s in
            if is_empty rest then Some (attr, v) else None
        end
  end.

Definition parse (filter_str : string) : res ScimFilter :=
  if is_empty filter_str || is_empty (strip filter_str) then ScimFilterInvalid
  else
    match _FILTER_RE filter_str with
    | None => ScimFilterInvalid
    | Some (attr, v) =>
        if negb (existsb (String.eqb attr) _ALLOWED_ATTRIBUTES) then ScimFilterInvalid
        else
          match v with
          | VStr str_value =>
              if String.eqb attr "active" then
                if negb (existsb (String.eqb (lower str_value)) ["true"; "false"])
                then ScimFilterInvalid
                else Ok {| attribute := attr;
                           filter_value := VBool (String.eqb (lower str_value) "true") |}
              else Ok {| attribute := attr; filter_value := VStr str_value |}
          | VBool b =>
              if negb (String.eqb attr "active") then ScimFilterInvalid
              else Ok {| attribute := attr; filter_value := VBool b |}
          end
    end.

(** ** The expression as a grammar *)

Fixpoint all_chars (f : ascii -> bool) (s : string) : bool :=
  match s with EmptyString => true | String c s' => f c && all_chars f s' end.

(** The literal of a value, as the last group of the expression. *)
Inductive literal : string -> ScimValue -> Prop :=
  | lit_str v : all_chars not_quote v = true ->
      literal (String quote (v +:+ String quote "")) (VStr v)
  | lit_true : literal "true" (VBool true)
  | lit_false : literal "false" (VBool false).

Inductive matches : string -> string -> ScimValue -> Prop :=
  | match_filter w1 attr w2 e q w3 lit v w4 :
      all_chars is_blank w1 = true -> all_chars is_blank w2 = true ->
      all_chars is_blank w3 = true -> all_chars is_blank w4 = true ->
      w2 <> "" -> w3 <> "" -> attr <> "" -> all_chars is_word attr = true ->
      lower_ascii e = "e"%char -> lower_ascii q = "q"%char -> literal lit v ->
      matches (w1 +:+ attr +:+ w2 +:+ String e (String q (w3 +:+ lit +:+ w4))) attr v.

(** The filter a match denotes, if any: a quoted value of one of the two string attributes,
    or a truth value of [active], bare or quoted in any case. *)
Inductive denotes : string -> ScimValue -> ScimFilter -> Prop :=
  | den_string attr s : attr = "userName" \/ attr = "externalId" ->
      denotes attr (VStr s) {| attribute := attr; filter_value := VStr s |}
  | den_quoted s (b : bool) : lower s = (if b then "true" else "false") ->
      denotes "active" (VStr s) {| attribute := "active"; filter_value := VBool b |}
  | den_bare b : denotes "active" (VBool b) {| attribute := "active"; filter_value := VBool b |}.

(** The filters the parser can return. *)
Definition well_typed (f : ScimFilter) : Prop :=
  match filter_value f with
  | VBool _ => attribute f = "active"
  | VStr s => (attribute f = "userName" \/ attribute f = "externalId") /\ all_chars not_quote s = true
  end.

(** The canonical text of a filter. *)
Definition print (f : ScimFilter) : string :=
  attribute f +:+ " eq " +:+
  match filter_value f with
  | VStr s => String quote (s +:+ String quote "")
  | VBool true => "true"
  | VBool false => "false"
  end.

(** ** Lemmas *)

Lemma span_app f a r :
  all_chars f a = true -> match r with EmptyString => True | String c _ => f c = false end ->
  span f (a +:+ r) = (a, r).
Proof.
  intros Ha Hr. induction a as [|c a IH].
  - rewrite string_app_nil. destruct r as [|c r]; [done|]. cbn. by rewrite Hr.
  - rewrite string_app_cons. cbn in Ha |- *. bprop. by rewrite H, IH.
Qed.

Lemma span_spec f s a r :
  span f s = (a, r) ->
  s = a +:+ r /\ all_chars f a = true
  /\ match r with EmptyString => True | String c _ => f c = false end.
Proof.
  revert a r. induction s as [|c s IH]; cbn; intros a r E; [by injection E as <- <-|].
  destruct (f c) eqn:Ef.
  - destruct (span f s) as [a' r'] eqn:Es. injection E as <- <-.
    destruct (IH a' r' eq_refl) as (-> & Ha & Hr). split; [done|]. cbn. by rewrite Ef.
  - injection E as <- <-. by cbn.
Qed.

Lemma blank_not_word c : is_blank c = true -> is_word c = false.
Proof. destruct c as [[] [] [] [] [] [] [] []]; done. Qed.

Lemma blank_cases c :
  is_blank c = true ->
  lower_ascii c <> "e"%char /\ c <> quote /\ c <> "t"%char /\ c <> "f"%char.
Proof. destruct c as [[] [] [] [] [] [] [] []]; done. Qed.

Lemma word_not_blank c : is_word c = true -> is_blank c = false.
Proof. intros H. destruct (is_blank c) eqn:E; [|done]. apply blank_not_word in E. congruence. Qed.

(** The first character of a text that is not empty. *)
Lemma first_char f s t :
  s <> "" -> all_chars f s = true -> exists c r, s +:+ t = String c r /\ f c = true.
Proof.
  intros Hne Hs. destruct s as [|c s]; [done|]. cbn in Hs. bprop. by exists c, (s +:+ t).
Qed.

Lemma after_spec p s r : after p s = Some r <-> s = p +:+ r.
Proof.
  revert s. induction p as [|c p IH]; intros s; cbn [after].
  - rewrite string_app_nil. naive_solver.
  - rewrite string_app_cons. destruct s as [|c' s]; [naive_solver|].
    destruct (Ascii.eqb_spec c c') as [<-|Hne]; [rewrite IH; naive_solver | naive_solver].
Qed.

Lemma after_app p r : after p (p +:+ r) = Some r.
Proof. by apply after_spec. Qed.

(** Reading a literal followed by anything, and what was read when reading succeeds. *)
Lemma read_literal l v r : literal l v -> read_value (l +:+ r) = Some (v, r).
Proof.
  intros [s Hs| |]; [|reflexivity|reflexivity].
  rewrite string_app_cons, string_app_assoc, string_app_cons. cbn [read_value].
  rewrite Ascii.eqb_refl. by rewrite span_app.
Qed.

Lemma read_value_inv s v r : read_value s = Some (v, r) -> exists l, s = l +:+ r /\ literal l v.
Proof.
  unfold read_value. destruct s as [|c s]; [done|].
  destruct (Ascii.eqb_spec c quote) as [->|Hne].
  - destruct (span not_quote s) as [a [|c r']] eqn:E; [done|]. intros H. injection H as <- <-.
    apply span_spec in E as (-> & Ha & Hc).
    exists (String quote (a +:+ String quote "")). split; [|by constructor].
    rewrite string_app_cons, string_app_assoc, string_app_cons. unfold not_quote in Hc. bprop.
    apply Ascii.eqb_eq in Hc as ->. done.
  - destruct (after "true" (String c s)) as [r'|] eqn:E.
    + intros H. injection H as <- <-. apply after_spec in E. exists "true". by split; [|constructor].
    + destruct (after "false" (String c s)) as [r'|] eqn:E'; [|done].
      intros H. injection H as <- <-. apply after_spec in E'. exists "false". by split; [|constructor].
Qed.

Lemma read_eq_inv s r :
  read_eq s = Some r ->
  exists a b, s = String a (String b r) /\ lower_ascii a = "e"%char /\ lower_ascii b = "q"%char.
Proof.
  unfold read_eq. destruct s as [|a [|b s]]; try done.
  destruct (Ascii.eqb_spec (lower_ascii a) "e"), (Ascii.eqb_spec (lower_ascii b) "q"); try done.
  intros H. injection H as <-. eauto.
Qed.

Definition starts_outside (f : ascii -> bool) (s : string) : Prop :=
  match s with EmptyString => True | String c _ => f c = false end.

Lemma literal_first l v r : literal l v -> starts_outside is_blank (l +:+ r).
Proof. by intros [s Hs| |]. Qed.

Lemma eq_not_blank e : lower_ascii e = "e"%char -> is_blank e = false.
Proof. intros H. destruct (is_blank e) eqn:E; [|done]. by apply blank_cases in E as [? _]. Qed.

Lemma starts_after f g s t :
  s <> "" -> all_chars f s = true -> (forall c, f c = true -> g c = false) ->
  starts_outside g (s +:+ t).
Proof. intros Hne Hs Hfg. destruct (first_char f s t Hne Hs) as (c & r & -> & Hc). by apply Hfg. Qed.

Lemma all_blank_end s : all_chars is_blank s = true -> span is_blank s = (s, "").
Proof. intros H. rewrite <- (string_app_empty s) at 1. by apply span_app. Qed.

(** The parser of the expression recognises its grammar. *)
Lemma filter_re_spec s attr v : _FILTER_RE s = Some (attr, v) <-> matches s attr v.
Proof.
  split.
  - unfold _FILTER_RE. destruct (span is_blank s) as [w1 s1] eqn:E1.
    destruct (span is_word s1) as [a s2] eqn:E2. destruct (span is_blank s2) as [w2 s3] eqn:E3.
    destruct (read_eq s3) as [s4|] eqn:E4; [|done].
    destruct (span is_blank s4) as [w3 s5] eqn:E5.
    destruct (is_empty a || is_empty w2 || is_empty w3) eqn:E6; [done|].
    destruct (read_value s5) as [[v' s6]|] eqn:E7; [|done].
    destruct (span is_blank s6) as [w4 s7] eqn:E8. destruct (is_empty s7) eqn:E9; [|done].
    intros H. injection H as <- <-. bprop.
    apply span_spec in E1 as (-> & B1 & _). apply span_spec in E2 as (-> & B2 & _).
    apply span_spec in E3 as (-> & B3 & _). apply read_eq_inv in E4 as (e & q & -> & He & Hq).
    apply span_spec in E5 as (-> & B5 & _). apply read_value_inv in E7 as (l & -> & Hl).
    apply span_spec in E8 as (-> & B8 & _). destruct s7; [|done]. rewrite string_app_empty.
    apply match_filter; try done; by intros ->.
  - intros [w1 a w2 e q w3 l v' w4 B1 B2 B3 B4 N2 N3 Na Ba He Hq Hl]. unfold _FILTER_RE.
    rewrite span_app; [|done|by apply (starts_after is_word); [..|apply word_not_blank]].
    rewrite span_app; [|done|by apply (starts_after is_blank); [..|apply blank_not_word]].
    rewrite span_app; [|done|by apply eq_not_blank].
    cbn [read_eq]. rewrite He, Hq. cbn [Ascii.eqb Bool.eqb andb].
    rewrite span_app; [|done|by eapply literal_first].
    destruct a as [|ca a], w2 as [|c2 w2], w3 as [|c3 w3]; try done. cbn [is_empty orb].
    rewrite (read_literal _ _ _ Hl). by rewrite all_blank_end.
Qed.

Lemma rev_app_chars f s t :
  all_chars f (String.rev_app s t) = all_chars f s && all_chars f t.
Proof.
  revert t. induction s as [|c s IH]; intros t; [done|]. cbn. rewrite IH. cbn.
  destruct (f c), (all_chars f s); done.
Qed.

Lemma rev_chars f s : all_chars f (String.rev s) = all_chars f s.
Proof. unfold String.rev. rewrite rev_app_chars. cbn. by rewrite andb_true_r. Qed.

Lemma lstrip_chars s : all_chars is_blank (lstrip s) = all_chars is_blank s.
Proof. induction s as [|c s IH]; [done|]. cbn. destruct (is_blank c) eqn:E; [done|]. cbn. by rewrite E. Qed.

Lemma strip_not_empty s : all_chars is_blank s = false -> is_empty (strip s) = false.
Proof.
  intros H. destruct (is_empty (strip s)) eqn:E; [|done]. exfalso.
  assert (B : all_chars is_blank (strip s) = true) by (by destruct (strip s)).
  unfold strip in B. rewrite rev_chars, lstrip_chars, rev_chars, lstrip_chars in B. congruence.
Qed.

Lemma all_chars_app f a b : all_chars f (a +:+ b) = all_chars f a && all_chars f b.
Proof.
  induction a as [|c a IH]; [done|]. rewrite string_app_cons. cbn. by rewrite IH, andb_assoc.
Qed.

Lemma matches_not_blank s attr v : matches s attr v -> is_empty s || is_empty (strip s) = false.
Proof.
  intros [w1 a w2 e q w3 l v' w4 _ _ _ _ _ _ Na Ba _ _ _].
  set (t := a +:+ w2 +:+ String e (String q (w3 +:+ l +:+ w4))).
  assert (B : all_chars is_blank (w1 +:+ t) = false).
  { unfold t. rewrite all_chars_app, all_chars_app. destruct a as [|c a]; [done|]. cbn in Ba |- *.
    bprop. rewrite (word_not_blank c) by done. by rewrite andb_false_r. }
  rewrite (strip_not_empty _ B). rewrite orb_false_r. by destruct (w1 +:+ t).
Qed.

Lemma matches_quote_free s attr v :
  matches s attr v -> match v with VStr t => all_chars not_quote t = true | VBool _ => True end.
Proof. by intros [w1 a w2 e q w3 l v' w4 _ _ _ _ _ _ _ _ _ _ [t Ht| |]]. Qed.

(** The decision of [parse] on a match. *)
Lemma parse_match s attr v f :
  matches s attr v -> parse s = Ok f <-> denotes attr v f.
Proof.
  intros M. unfold parse. rewrite (matches_not_blank _ _ _ M).
  apply filter_re_spec in M. rewrite M. cbn [existsb _ALLOWED_ATTRIBUTES].
  destruct (String.eqb_spec attr "userName") as [->|N1]; cbn [orb negb].
  { destruct v as [t|b]; cbn; split; intros H.
    - injection H as <-. constructor. auto.
    - inversion H; subst. done.
    - discriminate.
    - inversion H. }
  destruct (String.eqb_spec attr "externalId") as [->|N2]; cbn [orb negb].
  { destruct v as [t|b]; cbn; split; intros H.
    - injection H as <-. constructor. auto.
    - inversion H; subst. done.
    - discriminate.
    - inversion H. }
  destruct (String.eqb_spec attr "active") as [->|N3]; cbn [orb negb].
  - destruct v as [t|b]; cbn [existsb].
    + destruct (String.eqb_spec (lower t) "true") as [E|E]; cbn [orb negb].
      { split; intros H; [injection H as <-; by constructor|].
        inversion H as [? ? [?|?]|? [] E'|]; subst; try discriminate; [done|congruence]. }
      destruct (String.eqb_spec (lower t) "false") as [E'|E']; cbn [orb negb].
      { split; intros H; [injection H as <-; by constructor|].
        inversion H as [? ? [?|?]|? [] E2|]; subst; try discriminate; [congruence|done]. }
      split; intros H; [discriminate|].
      inversion H as [? ? [?|?]|? [] E2|]; subst; try discriminate; congruence.
    + split; intros H; [injection H as <-; constructor | by inversion H].
  - split; intros H; [discriminate|]. inversion H as [? ? [?|?]|? ? ?|]; subst; done.
Qed.

Lemma parse_outcomes s : (exists f, parse s = Ok f) \/ parse s = ScimFilterInvalid.
Proof.
  unfold parse. destruct (_ || _); [by right|]. destruct (_FILTER_RE s) as [[a v]|]; [|by right].
  destruct (negb _); [by right|]. destruct v; [destruct (String.eqb a "active")|]; try case_if; eauto.
Qed.

Lemma parse_Ok_matches s f : parse s = Ok f -> exists attr v, matches s attr v /\ denotes attr v f.
Proof.
  intros H. destruct (_FILTER_RE s) as [[attr v]|] eqn:E.
  - exists attr, v. apply filter_re_spec in E. split; [done|]. by apply (parse_match s).
  - unfold parse in H. destruct (_ || _); [done|]. by rewrite E in H.
Qed.

Lemma print_matches f :
  well_typed f -> matches (print f) (attribute f) (filter_value f).
Proof.
  destruct f as [attr v]. unfold well_typed, print. cbn [attribute filter_value]. intros H.
  assert (G : forall l, literal l v -> attr <> "" -> all_chars is_word attr = true ->
            matches (attr +:+ " eq " +:+ l) attr v).
  { intros l Hl Na Ba.
    pose proof (match_filter "" attr " " "e" "q" " " l v "" eq_refl eq_refl eq_refl eq_refl) as M.
    rewrite string_app_empty in M. by apply M. }
  destruct v as [s|b].
  - destruct H as [[->| ->] Hs]; by apply G; [constructor|..].
  - subst attr. destruct b; by apply G; [constructor|..].
Qed.

Lemma well_typed_denotes f : well_typed f -> denotes (attribute f) (filter_value f) f.
Proof.
  destruct f as [attr [s|b]]; unfold well_typed; cbn; [intros [H _]; by constructor|].
  intros ->. constructor.
Qed.

(** ** Properties *)

(** C37 (equivalence): the parser accepts exactly the documented grammar.  It returns a
    filter exactly when the text matches the expression (blanks, an attribute, [eq] in any
    case, a quoted value or true or false, blanks) and the match denotes that filter: a
    quoted value for userName or externalId, a truth value, quoted or not, for active; in
    every other case it raises ScimFilterInvalid and nothing else. *)
Theorem scim_parse_spec (s : string) (f : ScimFilter) :
  (parse s = Ok f <-> exists attr v, matches s attr v /\ denotes attr v f)
  /\ ((exists f', parse s = Ok f') \/ parse s = ScimFilterInvalid).
Proof.
  split; [|apply parse_outcomes]. split; [apply parse_Ok_matches|].
  intros (attr & v & M & D). by apply (parse_match s attr v).
Qed.

(** C40 (type): the filters the parser returns are exactly the well-typed ones: [active]
    with a truth value, [userName] or [externalId] with a string without quotes.  Each of
    them is what its printed text parses to. *)
Theorem parsed_filters_are_typed (f : ScimFilter) :
  ((exists s, parse s = Ok f) <-> well_typed f)
  /\ (well_typed f -> parse (print f) = Ok f).
Proof.
  assert (P : well_typed f -> parse (print f) = Ok f).
  { intros H. apply (parse_match _ _ _ f (print_matches f H)). by apply well_typed_denotes. }
  split; [|done]. split; [|intros H; exists (print f); auto].
  intros (s & H). apply parse_Ok_matches in H as (attr & v & M & D).
  apply matches_quote_free in M. by destruct D.
Qed.
