(* ===== verification/ReviewCycle.v ===== *)
(** The QA review cycle (apps/backend/qa/review_cycle.py): the persisted obligation
    [review_requested -> review_started -> approved | changes_requested], its operations on
    the state file, and the detection of a review that never started. *)
From S2P Require Import Prelude PyData.

Inductive CycleState := REQUESTED | STARTED | APPROVED | CHANGES_REQUESTED.

#[export] Instance CycleState_eq_dec : EqDecision CycleState.
Proof. solve_decision. Defined.

#[export] Program Instance CycleState_enum : PyEnum CycleState := {
  members := [REQUESTED; STARTED; APPROVED; CHANGES_REQUESTED];
  value s := match s with
    | REQUESTED => "review_requested" | STARTED => "review_started"
    | APPROVED => "approved" | CHANGES_REQUESTED => "changes_requested" end;
}.
Solve Obligations with solve_enum.

Definition ALLOWED_TRANSITIONS (s : CycleState) : list CycleState :=
  match s with
  | REQUESTED => [STARTED]
  | STARTED => [APPROVED; CHANGES_REQUESTED]
  | APPROVED | CHANGES_REQUESTED => []
  end.

Definition TERMINAL_STATES : list CycleState := [APPROVED; CHANGES_REQUESTED].

Definition ReviewCycleError : exn := AppError "ReviewCycleError".
Definition InvalidTransitionError : exn := AppError "InvalidTransitionError".
Definition StaleCycleError : exn := AppError "StaleCycleError".
Definition OSError : exn := AppError "OSError".

Record EngagementProof := {
  ep_cycle_id : Z;
  ep_marker : string;
  ep_recorded_at : string;
  ep_detail : dict;
}.

Definition EngagementProof_to_dict (p : EngagementProof) : dict :=
  [("cycle_id", JInt (ep_cycle_id p)); ("marker", JStr (ep_marker p));
   ("recorded_at", JStr (ep_recorded_at p)); ("detail", JObj (ep_detail p))].

(** [data["cycle_id"]] and the three [data.get(k, dflt)], converted. *)
Definition EngagementProof_from_dict (now : string) (data : dict) : res EngagementProof :=
  let! cycle_id := req py_int "cycle_id" data in
  let! marker := get_or py_str "marker" "" data in
  let! recorded_at := get_or py_str "recorded_at" now data in
  let! detail := get_or py_dict "detail" [] data in
  Ok {| ep_cycle_id := cycle_id; ep_marker := marker; ep_recorded_at := recorded_at;
        ep_detail := detail |}.

Record ReviewCycle := {
  rc_cycle_id : Z;
  rc_state : CycleState;
  rc_requested_at : string;
  rc_started_at : option string;
  rc_resolved_at : option string;
  rc_proof : option EngagementProof;
  rc_resolutions : list json;
  rc_redrive_attempts : Z;
  rc_last_redrive_at : option string;
  rc_updated_at : string;
}.

Definition JProof (p : option EngagementProof) : json :=
  match p with Some p => JObj (EngagementProof_to_dict p) | None => JNull end.

Definition ReviewCycle_to_dict (c : ReviewCycle) : dict :=
  [("cycle_id", JInt (rc_cycle_id c)); ("state", JStr (value (rc_state c)));
   ("requested_at", JStr (rc_requested_at c)); ("started_at", JOpt (rc_started_at c));
   ("resolved_at", JOpt (rc_resolved_at c)); ("proof", JProof (rc_proof c));
   ("resolutions", JList (rc_resolutions c));
   ("redrive_attempts", JInt (rc_redrive_attempts c));
   ("last_redrive_at", JOpt (rc_last_redrive_at c)); ("updated_at", JStr (rc_updated_at c))].

(** [EngagementProof.from_dict(proof_data) if proof_data else None]: a truthy value that is
    not an object cannot be indexed with a string. *)
Definition proof_field (now : string) (data : dict) : res (option EngagementProof) :=
  match dget "proof" data with
  | None => Ok None
  | Some v =>
      if truthy v then
        match v with
        | JObj d => Some <$> EngagementProof_from_dict now d
        | _ => Err TypeError
        end
      else Ok None
  end.

Definition ReviewCycle_from_dict (now : string) (data : dict) : res ReviewCycle :=
  let! cycle_id := get_or py_int "cycle_id" 0%Z data in
  let! state := get_or enum_of "state" REQUESTED data in
  let! requested_at := get_or py_str "requested_at" now data in
  let! started_at := get_opt as_str "started_at" data in
  let! resolved_at := get_opt as_str "resolved_at" data in
  let! proof := proof_field now data in
  let! resolutions := get_or iter_any "resolutions" [] data in
  let! redrive_attempts := get_or py_int "redrive_attempts" 0%Z data in
  let! last_redrive_at := get_opt as_str "last_redrive_at" data in
  let! updated_at := get_or py_str "updated_at" now data in
  Ok {| rc_cycle_id := cycle_id; rc_state := state; rc_requested_at := requested_at;
        rc_started_at := started_at; rc_resolved_at := resolved_at; rc_proof := proof;
        rc_resolutions := resolutions; rc_redrive_attempts := redrive_attempts;
        rc_last_redrive_at := last_redrive_at; rc_updated_at := updated_at |}.

Definition is_started (c : ReviewCycle) : bool :=
  bool_decide (rc_state c ∈ [STARTED; APPROVED; CHANGES_REQUESTED]).
Definition is_resolved (c : ReviewCycle) : bool :=
  bool_decide (rc_state c ∈ TERMINAL_STATES).

(** ** Time

    [datetime.isoformat] of a UTC time and [datetime.fromisoformat] of a string, a naive
    result being read as UTC; times are microseconds.  The law is the documented one:
    [fromisoformat] inverts [isoformat]. *)
Class IsoTime := {
  isoformat : Z -> string;
  fromisoformat : string -> option Z;
  fromisoformat_isoformat : forall t, fromisoformat (isoformat t) = Some t;
  isoformat_nonempty : forall t, isoformat t <> "";
}.

Section time.
Context `{IsoTime}.

Definition is_untouched (timeout now : Z) (c : ReviewCycle) : bool :=
  match rc_state c with
  | REQUESTED =>
      match fromisoformat (rc_requested_at c) with
      | Some requested => (timeout <=? now - requested)%Z
      | None => false
      end
  | _ => false
  end.

(** [self.last_redrive_at or self.requested_at] *)
Definition redrive_anchor (c : ReviewCycle) : string :=
  match rc_last_redrive_at c with
  | Some s => if is_empty s then rc_requested_at c else s
  | None => rc_requested_at c
  end.

Definition redrive_window_elapsed (window now : Z) (c : ReviewCycle) : bool :=
  match fromisoformat (redrive_anchor c) with
  | Some anchor => (window <=? now - anchor)%Z
  | None => false
  end.
End time.

(** ** The state file *)

(** No file, a file that is not readable JSON, or a JSON document. *)
Inductive cycle_file := NoFile | Unreadable | Document (v : json).

(** [load_cycle]: only KeyError and ValueError of [from_dict] are caught. *)
Definition load_cycle (now : string) (f : cycle_file) : res (option ReviewCycle) :=
  match f with
  | Document (JObj data) =>
      match ReviewCycle_from_dict now data with
      | Ok c => Ok (Some c)
      | Err (KeyError _) | Err ValueError => Ok None
      | Err e => Err e
      end
  | NoFile | Unreadable | Document _ => Ok None
  end.

(** What one operation reads from its surroundings: the clock at its successive readings,
    and whether the file system accepts the write. *)
Record Env := {
  at_load : string;      (* defaults of absent fields *)
  at_change : string;    (* requested_at, started_at, resolved_at *)
  at_proof : string;     (* recorded_at of a new proof *)
  at_write : string;     (* updated_at *)
  write_ok : bool;
}.

Definition stamp (now : string) (c : ReviewCycle) : ReviewCycle :=
  {| rc_cycle_id := rc_cycle_id c; rc_state := rc_state c;
     rc_requested_at := rc_requested_at c; rc_started_at := rc_started_at c;
     rc_resolved_at := rc_resolved_at c; rc_proof := rc_proof c;
     rc_resolutions := rc_resolutions c; rc_redrive_attempts := rc_redrive_attempts c;
     rc_last_redrive_at := rc_last_redrive_at c; rc_updated_at := now |}.

(** A failed write raises and leaves the previous file, the temporary one being removed. *)
Definition atomic_write_cycle (env : Env) (c : ReviewCycle)
  : res (ReviewCycle * cycle_file) :=
  let c := stamp (at_write env) c in
  if write_ok env then Ok (c, Document (JObj (ReviewCycle_to_dict c))) else Err OSError.

(** ** The operations

    Each returns the cycle and the new file; on an exception the file is unchanged. *)

Definition ensure_transition (current target : CycleState) : res unit :=
  if bool_decide (target ∈ ALLOWED_TRANSITIONS current) then Ok tt
  else Err InvalidTransitionError.

Definition request_review (env : Env) (f : cycle_file) : res (ReviewCycle * cycle_file) :=
  let! previous := load_cycle (at_load env) f in
  let next_id := match previous with Some p => (rc_cycle_id p + 1)%Z | None => 1%Z end in
  atomic_write_cycle env
    {| rc_cycle_id := next_id; rc_state := REQUESTED; rc_requested_at := at_change env;
       rc_started_at := None; rc_resolved_at := None; rc_proof := None;
       rc_resolutions := match previous with Some p => rc_resolutions p | None => [] end;
       rc_redrive_attempts := 0; rc_last_redrive_at := None;
       rc_updated_at := at_change env |}.

(** The prologue [load_cycle], "no cycle", "stale cycle" of the three other operations. *)
Definition current_cycle (env : Env) (f : cycle_file) (cycle_id : Z) : res ReviewCycle :=
  let! cycle := load_cycle (at_load env) f in
  match cycle with
  | None => Err ReviewCycleError
  | Some c => if bool_decide (cycle_id <> rc_cycle_id c) then Err StaleCycleError else Ok c
  end.

(** [cycle.state = STARTED; cycle.started_at = now] *)
Definition set_started (now : string) (c : ReviewCycle) : ReviewCycle :=
  {| rc_cycle_id := rc_cycle_id c; rc_state := STARTED;
     rc_requested_at := rc_requested_at c; rc_started_at := Some now;
     rc_resolved_at := rc_resolved_at c; rc_proof := rc_proof c;
     rc_resolutions := rc_resolutions c; rc_redrive_attempts := rc_redrive_attempts c;
     rc_last_redrive_at := rc_last_redrive_at c; rc_updated_at := rc_updated_at c |}.

Definition set_proof (p : EngagementProof) (c : ReviewCycle) : ReviewCycle :=
  {| rc_cycle_id := rc_cycle_id c; rc_state := rc_state c;
     rc_requested_at := rc_requested_at c; rc_started_at := rc_started_at c;
     rc_resolved_at := rc_resolved_at c; rc_proof := Some p;
     rc_resolutions := rc_resolutions c; rc_redrive_attempts := rc_redrive_attempts c;
     rc_last_redrive_at := rc_last_redrive_at c; rc_updated_at := rc_updated_at c |}.

Definition or_empty_dict (d : option dict) : dict :=
  match d with Some d => d | None => [] end.

Definition record_started (env : Env) (cycle_id : Z) (marker : string)
    (detail : option dict) (f : cycle_file) : res (ReviewCycle * cycle_file) :=
  let! cycle := current_cycle env f cycle_id in
  let! cycle :=
    match rc_state cycle with
    | REQUESTED =>
        let! _ := ensure_transition (rc_state cycle) STARTED in
        Ok (set_started (at_change env) cycle)
    | _ => Ok cycle
    end in
  let cycle :=
    match rc_proof cycle with
    | None => set_proof {| ep_cycle_id := rc_cycle_id cycle; ep_marker := marker;
                           ep_recorded_at := at_proof env;
                           ep_detail := or_empty_dict detail |} cycle
    | Some _ => cycle
    end in
  atomic_write_cycle env cycle.

Definition resolution_entry (cycle_id : Z) (target : CycleState) (now : string)
    (detail : option dict) : json :=
  JObj [("cycle_id", JInt cycle_id); ("outcome", JStr (value target));
        ("resolved_at", JStr now); ("detail", JObj (or_empty_dict detail))].

Definition set_resolved (target : CycleState) (now : string) (entry : json)
    (c : ReviewCycle) : ReviewCycle :=
  {| rc_cycle_id := rc_cycle_id c; rc_state := target;
     rc_requested_at := rc_requested_at c; rc_started_at := rc_started_at c;
     rc_resolved_at := Some now; rc_proof := rc_proof c;
     rc_resolutions := rc_resolutions c ++ [entry];
     rc_redrive_attempts := rc_redrive_attempts c;
     rc_last_redrive_at := rc_last_redrive_at c; rc_updated_at := rc_updated_at c |}.

Definition resolve_review (env : Env) (cycle_id : Z) (approved : bool)
    (detail : option dict) (f : cycle_file) : res (ReviewCycle * cycle_file) :=
  let! cycle := current_cycle env f cycle_id in
  let target := if approved then APPROVED else CHANGES_REQUESTED in
  let! _ := ensure_transition (rc_state cycle) target in
  atomic_write_cycle env
    (set_resolved target (at_change env)
       (resolution_entry (rc_cycle_id cycle) target (at_change env) detail) cycle).

Definition set_redrive (at_ : string) (c : ReviewCycle) : ReviewCycle :=
  {| rc_cycle_id := rc_cycle_id c; rc_state := rc_state c;
     rc_requested_at := rc_requested_at c; rc_started_at := rc_started_at c;
     rc_resolved_at := rc_resolved_at c; rc_proof := rc_proof c;
     rc_resolutions := rc_resolutions c;
     rc_redrive_attempts := (rc_redrive_attempts c + 1)%Z;
     rc_last_redrive_at := Some at_; rc_updated_at := rc_updated_at c |}.

(** [at_] is the argument [at], when given, as its [isoformat]. *)
Definition record_redrive (env : Env) (cycle_id : Z) (at_ : option string)
    (f : cycle_file) : res (ReviewCycle * cycle_file) :=
  let! cycle := current_cycle env f cycle_id in
  atomic_write_cycle env
    (set_redrive (match at_ with Some a => a | None => at_change env end) cycle).

(** ** Detection *)

Record RedriveSignal := {
  sg_action : string;
  sg_cycle_id : Z;
  sg_state : string;
  sg_requested_at : string;
  sg_timeout : Z;
  sg_redrive_attempts : Z;
  sg_reason : string;
}.

Section detection.
Context `{IsoTime}.

(** [DEFAULT_UNTOUCHED_TIMEOUT_SECONDS], in microseconds. *)
Definition DEFAULT_UNTOUCHED_TIMEOUT : Z := 300000000.

Definition detect_untouched_review (load_now : string) (timeout now : Z)
    (f : cycle_file) : res (option ReviewCycle) :=
  let! cycle := load_cycle load_now f in
  match cycle with
  | None => Ok None
  | Some c => Ok (if is_untouched timeout now c then Some c else None)
  end.

Definition redrive_signal (timeout : Z) (c : ReviewCycle) : RedriveSignal :=
  {| sg_action := "redrive_review"; sg_cycle_id := rc_cycle_id c;
     sg_state := value (rc_state c); sg_requested_at := rc_requested_at c;
     sg_timeout := timeout; sg_redrive_attempts := rc_redrive_attempts c;
     sg_reason := "Review cycle " +:+ pretty (rc_cycle_id c) +:+ " was requested at "
       +:+ rc_requested_at c +:+ " but never reached review_started within "
       +:+ pretty (round_half_even timeout 1000000) +:+ "s." |}.

Definition redrive_untouched_review (load_now : string) (timeout now : Z)
    (f : cycle_file) : res (option RedriveSignal) :=
  let! cycle := detect_untouched_review load_now timeout now f in
  Ok (redrive_signal timeout <$> cycle).
End detection.

(** ** Sequences of operations

    The callers' operations in any order, on behalf of any cycle, with any failing write;
    the log records what was accepted. *)

Inductive op :=
  | Request
  | Start (cycle_id : Z) (marker : string) (detail : option dict)
  | Resolve (cycle_id : Z) (approved : bool) (detail : option dict)
  | Redrive (cycle_id : Z) (at_ : option string).

Inductive event :=
  | Requested (cycle_id : Z) (at_ : string)
  | Started (cycle_id : Z)
  | Resolved (cycle_id : Z) (outcome : CycleState)
  | Redriven (cycle_id : Z).

Definition apply_op (env : Env) (o : op) (f : cycle_file) : res (ReviewCycle * cycle_file) :=
  match o with
  | Request => request_review env f
  | Start id marker detail => record_started env id marker detail f
  | Resolve id approved detail => resolve_review env id approved detail f
  | Redrive id at_ => record_redrive env id at_ f
  end.

Definition event_of (o : op) (c : ReviewCycle) : event :=
  match o with
  | Request => Requested (rc_cycle_id c) (rc_requested_at c)
  | Start _ _ _ => Started (rc_cycle_id c)
  | Resolve _ _ _ => Resolved (rc_cycle_id c) (rc_state c)
  | Redrive _ _ => Redriven (rc_cycle_id c)
  end.

Definition step (s : cycle_file * list event) (eo : Env * op) : cycle_file * list event :=
  match apply_op eo.1 eo.2 s.1 with
  | Ok (c, f) => (f, s.2 ++ [event_of eo.2 c])
  | Err _ => s
  end.

Definition run (ops : list (Env * op)) : cycle_file * list event :=
  foldl step (NoFile, []) ops.

(** ** The abstract obligation

    The contract of the module, on accepted events only: cycles are numbered from 1, a
    cycle is engaged before it is resolved, and resolved once. *)

Inductive phase := Idle | Waiting (at_ : string) | Engaged | Done (outcome : CycleState).

Inductive legal : list event -> Z -> phase -> Prop :=
  | legal_nil : legal [] 0 Idle
  | legal_request l n p at_ :
      legal l n p -> legal (l ++ [Requested (n + 1) at_]) (n + 1) (Waiting at_)
  | legal_start l n at_ : legal l n (Waiting at_) -> legal (l ++ [Started n]) n Engaged
  | legal_restart l n p :
      (p = Engaged \/ exists o, p = Done o) -> legal l n p -> legal (l ++ [Started n]) n p
  | legal_resolve l n o :
      o ∈ TERMINAL_STATES -> legal l n Engaged -> legal (l ++ [Resolved n o]) n (Done o)
  | legal_redrive l n p :
      p <> Idle -> legal l n p -> legal (l ++ [Redriven n]) n p.

(** The phase a cycle record is in. *)
Definition phase_of (c : ReviewCycle) : phase :=
  match rc_state c with
  | REQUESTED => Waiting (rc_requested_at c)
  | STARTED => Engaged
  | o => Done o
  end.

Definition proof_matches (c : ReviewCycle) : Prop :=
  match rc_proof c with
  | None => rc_state c = REQUESTED
  | Some p => ep_cycle_id p = rc_cycle_id c /\ rc_state c <> REQUESTED
  end.

(** The resolutions among the events, and the fields of a log entry that name one. *)
Definition resolved_of (e : event) : list (option json * option json) :=
  match e with Resolved n o => [(Some (JInt n), Some (JStr (value o)))] | _ => [] end.
Definition entry_key (e : json) : option json * option json :=
  match e with JObj d => (dget "cycle_id" d, dget "outcome" d) | _ => (None, None) end.

Record tracks (c : ReviewCycle) (log : list event) : Prop := {
  tr_legal : legal log (rc_cycle_id c) (phase_of c);
  tr_proof : proof_matches c;
  tr_resolutions : entry_key <$> rc_resolutions c = log ≫= resolved_of;
}.

Definition file_tracks (f : cycle_file) (log : list event) : Prop :=
  match f with
  | NoFile => log = []
  | Unreadable => False
  | Document v => exists c, v = JObj (ReviewCycle_to_dict c) /\ tracks c log
  end.

(** ** Reading the file back *)

Lemma proof_from_to_dict now p :
  EngagementProof_from_dict now (EngagementProof_to_dict p) = Ok p.
Proof. by destruct p. Qed.

Lemma cycle_from_to_dict now c : ReviewCycle_from_dict now (ReviewCycle_to_dict c) = Ok c.
Proof.
  unfold ReviewCycle_from_dict, proof_field, get_or, get_opt, ReviewCycle_to_dict.
  dget_norm. destruct c as [? ? ? ? ? [p|] ? ? ? ?]; cbn [JProof rc_proof truthy].
  - cbn [py_int mbind res_bind rc_state rc_cycle_id].
    rewrite enum_of_value. rewrite !as_opt_JOpt.
    change (truthy (JObj (EngagementProof_to_dict p))) with true. cbn.
    change (req py_int "cycle_id" (EngagementProof_to_dict p)) with (Ok (ep_cycle_id p)).
    cbn. by destruct p.
  - cbn [py_int mbind res_bind rc_state rc_cycle_id].
    rewrite enum_of_value. rewrite !as_opt_JOpt. done.
Qed.

Lemma load_document now c :
  load_cycle now (Document (JObj (ReviewCycle_to_dict c))) = Ok (Some c).
Proof. cbn [load_cycle]. by rewrite cycle_from_to_dict. Qed.

(** ** Refinement: every accepted operation is a step of the obligation *)

Lemma atomic_write_inv env c c' f :
  atomic_write_cycle env c = Ok (c', f) ->
  c' = stamp (at_write env) c /\ f = Document (JObj (ReviewCycle_to_dict c')).
Proof. unfold atomic_write_cycle. destruct (write_ok env); intros E; [by inversion E | done]. Qed.

Lemma tracks_stamp now c log : tracks c log -> tracks (stamp now c) log.
Proof. by intros []; split. Qed.

Lemma written_tracks env c c' f log :
  tracks c log -> atomic_write_cycle env c = Ok (c', f) -> file_tracks f log.
Proof.
  intros Ht E. apply atomic_write_inv in E as [-> ->]. eexists. split; [done|].
  by apply tracks_stamp.
Qed.

Lemma current_cycle_inv env f log id c :
  file_tracks f log -> current_cycle env f id = Ok c -> tracks c log /\ id = rc_cycle_id c.
Proof.
  unfold current_cycle. intros Hf E. destruct f as [| |v]; [done | done |].
  destruct Hf as (c0 & -> & Ht). rewrite load_document in E. cbn [mbind res_bind] in E.
  case_bool_decide; [done|]. injection E as <-. split; [done|].
  by destruct (decide (id = rc_cycle_id c0)).
Qed.

Lemma ensure_transition_inv s t : ensure_transition s t = Ok tt -> t ∈ ALLOWED_TRANSITIONS s.
Proof. unfold ensure_transition. by case_bool_decide. Qed.

Lemma resolvable s t : t ∈ ALLOWED_TRANSITIONS s -> t ∈ TERMINAL_STATES -> s = STARTED.
Proof.
  rewrite <- (bool_decide_eq_true (t ∈ ALLOWED_TRANSITIONS s)),
    <- (bool_decide_eq_true (t ∈ TERMINAL_STATES)). by destruct s, t.
Qed.

Lemma resolutions_app log e :
  (log ++ [e]) ≫= resolved_of = (log ≫= resolved_of) ++ resolved_of e.
Proof. rewrite bind_app. f_equal. apply app_nil_r. Qed.

Lemma request_tracks env f log c f' :
  file_tracks f log -> request_review env f = Ok (c, f') ->
  file_tracks f' (log ++ [event_of Request c]).
Proof.
  intros Hf E. unfold request_review in E. apply bind_Ok_inv in E as (prev & Hp & E).
  pose proof E as E'. apply atomic_write_inv in E' as [-> _].
  refine (written_tracks _ _ _ _ _ _ E). cbn.
  destruct f as [| |v]; [|done|].
  - injection Hp as <-. cbn in Hf. subst log.
    split; cbn; [apply (legal_request [] 0 Idle), legal_nil | done | done].
  - destruct Hf as (c0 & -> & [Hl Hpf Hr]). rewrite load_document in Hp. injection Hp as <-.
    split; cbn; [by eapply legal_request | done |]. by rewrite resolutions_app, app_nil_r.
Qed.

Lemma start_tracks env id marker detail f log c f' :
  file_tracks f log -> record_started env id marker detail f = Ok (c, f') ->
  file_tracks f' (log ++ [event_of (Start id marker detail) c]).
Proof.
  intros Hf E. unfold record_started in E. apply bind_Ok_inv in E as (c0 & Hc & E).
  destruct (current_cycle_inv _ _ _ _ _ Hf Hc) as [[Hl Hpf Hr] ->].
  apply bind_Ok_inv in E as (c1 & Hc1 & E).
  pose proof E as E'. apply atomic_write_inv in E' as [-> _].
  refine (written_tracks _ _ _ _ _ _ E). clear E.
  assert (Hlog : (log ++ [Started (rc_cycle_id c0)]) ≫= resolved_of = log ≫= resolved_of)
    by (rewrite resolutions_app; apply app_nil_r).
  unfold proof_matches, phase_of in *.
  destruct (rc_state c0) eqn:Es; cbn in Hc1; injection Hc1 as <-; cbn;
    destruct (rc_proof c0) as [p|] eqn:Ep; try discriminate Hpf; try (by destruct Hpf);
    split; cbn; unfold phase_of, proof_matches; cbn; rewrite ?Es, ?Ep, ?Hlog; try done.
  - by eapply legal_start.
  - apply legal_restart; [by left | done].
  - apply legal_restart; [by right; eexists | done].
  - apply legal_restart; [by right; eexists | done].
Qed.

Lemma resolve_tracks env id approved detail f log c f' :
  file_tracks f log -> resolve_review env id approved detail f = Ok (c, f') ->
  file_tracks f' (log ++ [event_of (Resolve id approved detail) c]).
Proof.
  intros Hf E. unfold resolve_review in E. apply bind_Ok_inv in E as (c0 & Hc & E).
  destruct (current_cycle_inv _ _ _ _ _ Hf Hc) as [[Hl Hpf Hr] ->].
  apply bind_Ok_inv in E as ([] & Ht%ensure_transition_inv & E).
  pose proof E as E'. apply atomic_write_inv in E' as [-> _].
  refine (written_tracks _ _ _ _ _ _ E). clear E.
  set (target := if approved then APPROVED else CHANGES_REQUESTED) in *.
  assert (HT : target ∈ TERMINAL_STATES)
    by (subst target; destruct approved; repeat constructor).
  pose proof (resolvable _ _ Ht HT) as Es. unfold phase_of, proof_matches in *.
  rewrite Es in Hl.
  split; cbn.
  - replace (phase_of _) with (Done target)
      by (subst target; destruct approved; done). by apply legal_resolve.
  - unfold proof_matches. cbn. destruct (rc_proof c0); [|congruence].
    split; [apply Hpf | subst target; by destruct approved].
  - rewrite resolutions_app, fmap_app, Hr. done.
Qed.

Lemma redrive_tracks env id at_ f log c f' :
  file_tracks f log -> record_redrive env id at_ f = Ok (c, f') ->
  file_tracks f' (log ++ [event_of (Redrive id at_) c]).
Proof.
  intros Hf E. unfold record_redrive in E. apply bind_Ok_inv in E as (c0 & Hc & E).
  destruct (current_cycle_inv _ _ _ _ _ Hf Hc) as [[Hl Hpf Hr] ->].
  pose proof E as E'. apply atomic_write_inv in E' as [-> _].
  refine (written_tracks _ _ _ _ _ _ E). clear E. split; cbn; [| done |].
  - apply legal_redrive; [unfold phase_of; cbn; by destruct (rc_state c0) | done].
  - by rewrite resolutions_app, app_nil_r.
Qed.

Lemma step_tracks s eo : file_tracks s.1 s.2 -> file_tracks (step s eo).1 (step s eo).2.
Proof.
  destruct s as [f log], eo as [env o]. unfold step. cbn. intros Hf.
  destruct (apply_op env o f) as [[c f']|e] eqn:E; [|done]. cbn.
  destruct o; cbn in E;
    [eapply request_tracks | eapply start_tracks | eapply resolve_tracks | eapply redrive_tracks];
    done.
Qed.

Lemma foldl_invariant {S B} (P : S -> Prop) (g : S -> B -> S) l s :
  (forall s b, P s -> P (g s b)) -> P s -> P (foldl g s l).
Proof. intros Hg. revert s. induction l as [|b l IH]; intros s Hs; [done|]. cbn. by apply IH, Hg. Qed.

Lemma run_tracks ops : file_tracks (run ops).1 (run ops).2.
Proof.
  unfold run. apply (foldl_invariant (fun s => file_tracks s.1 s.2)).
  - intros s b. apply step_tracks.
  - done.
Qed.

Lemma file_legal f log : file_tracks f log -> exists n p, legal log n p.
Proof.
  destruct f as [| |v]; cbn; [intros ->; eexists _, _; constructor | done |].
  intros (c & _ & Ht). eexists _, _. apply Ht.
Qed.

(** ** What the obligation guarantees *)

Definition request_of (e : event) : list Z :=
  match e with Requested n _ => [n] | _ => [] end.

(** Between the request of the cycle and the end of the log lies no other request, and
    the reviewer's engagement. *)
Definition engaged (log : list event) (n : Z) : Prop :=
  exists l1 at_ l2, log = l1 ++ Requested n at_ :: l2 /\ l2 ≫= request_of = []
                 /\ Started n ∈ l2.

Definition resolved_well (log : list event) : Prop :=
  forall l1 n o l2, log = l1 ++ Resolved n o :: l2 ->
    engaged l1 n /\ o ∈ TERMINAL_STATES /\ forall o', Resolved n o' ∉ l1.

Lemma snoc_split {A} (l : list A) e l1 x l2 :
  l ++ [e] = l1 ++ x :: l2 ->
  (l2 = [] /\ l = l1 /\ e = x) \/ exists l2', l2 = l2' ++ [e] /\ l = l1 ++ x :: l2'.
Proof.
  destruct l2 as [|y l2 _] using rev_ind; intros E.
  - left. by apply app_inj_tail in E as [-> ->].
  - right. exists l2. rewrite app_comm_cons, app_assoc in E.
    by apply app_inj_tail in E as [-> ->].
Qed.

Lemma requests_snoc l e : (l ++ [e]) ≫= request_of = (l ≫= request_of) ++ request_of e.
Proof. rewrite bind_app. f_equal. apply app_nil_r. Qed.

Lemma legal_numbers log n p : legal log n p -> (0 <= n)%Z /\ log ≫= request_of = seqZ 1 n.
Proof.
  induction 1 as [|l n p a Hl [Hn IH]|l n a Hl [Hn IH]|l n p Hp Hl [Hn IH]|l n o Ho Hl [Hn IH]
                 |l n p Hp Hl [Hn IH]]; [done|..];
    rewrite requests_snoc, IH; cbn [request_of]; rewrite ?app_nil_r; try done.
  split; [lia|]. rewrite seqZ_app by lia. do 2 f_equal. cbn. by rewrite Z.add_comm.
Qed.

Lemma engaged_snoc l n e : engaged l n -> request_of e = [] -> engaged (l ++ [e]) n.
Proof.
  intros (l1 & a & l2 & -> & Hr & Hs) He. exists l1, a, (l2 ++ [e]). split_and!.
  - by rewrite <- app_assoc.
  - by rewrite requests_snoc, Hr, He.
  - apply elem_of_app. by left.
Qed.

(** The resolutions so far are of earlier cycles, unless the current one is done. *)
Definition resolved_below (log : list event) (n : Z) (p : phase) : Prop :=
  forall m o, Resolved m o ∈ log -> (m < n)%Z \/ (m = n /\ p = Done o).

Definition phase_evidence (log : list event) (n : Z) (p : phase) : Prop :=
  match p with
  | Idle => log = []
  | Waiting a => exists l1 l2, log = l1 ++ Requested n a :: l2
                            /\ Forall (fun e => e = Redriven n) l2
  | Engaged | Done _ => engaged log n
  end.

Lemma legal_below log n p : legal log n p -> resolved_below log n p.
Proof.
  induction 1 as [|l n p a Hl IH|l n a Hl IH|l n p Hp Hl IH|l n o Ho Hl IH|l n p Hp Hl IH];
    intros m o' Hm; try (apply elem_of_nil in Hm; done);
    apply elem_of_app in Hm as [Hm|Hm%list_elem_of_singleton]; try discriminate Hm;
    try (apply IH in Hm as [Hm|[-> Hm]]; [left; lia | subst; try discriminate Hm]).
  - left. lia.
  - by right.
  - injection Hm as -> ->. by right.
  - by right.
Qed.

Lemma legal_evidence log n p : legal log n p -> phase_evidence log n p.
Proof.
  induction 1 as [|l n p a Hl IH|l n a Hl IH|l n p Hp Hl IH|l n o Ho Hl IH|l n p Hp Hl IH].
  - done.
  - by exists l, [].
  - destruct IH as (l1 & l2 & -> & H2). exists l1, a, (l2 ++ [Started n]). split_and!.
    + by rewrite <- app_assoc.
    + rewrite requests_snoc, app_nil_r. clear Hl. induction H2 as [|e l2 -> H2 IH]; [done | exact IH].
    + apply elem_of_app. right. apply list_elem_of_here.
  - destruct Hp as [->|[o ->]]; by apply engaged_snoc.
  - by apply engaged_snoc.
  - destruct p as [|a| |o]; [done | | by apply engaged_snoc..].
    destruct IH as (l1 & l2 & -> & H2). exists l1, (l2 ++ [Redriven n]).
    split; [by rewrite <- app_assoc | by apply Forall_app_2; [|repeat constructor]].
Qed.

Lemma legal_resolved_well log n p : legal log n p -> resolved_well log.
Proof.
  induction 1 as [|l n p a Hl IH|l n a Hl IH|l n p Hp Hl IH|l n o Ho Hl IH|l n p Hp Hl IH];
    intros l1 m o' l2 E; [by destruct l1|..];
    apply snoc_split in E as [(-> & <- & E)|(l2' & -> & E)]; try discriminate E;
    try by eapply IH.
  injection E as -> ->. split_and!; [exact (legal_evidence _ _ _ Hl) | done |].
  intros o'' Hin. apply (legal_below _ _ _ Hl) in Hin as [?|[_ ?]]; [lia | discriminate].
Qed.

(** The resolutions the state file records. *)
Definition recorded (f : cycle_file) : list (option json * option json) :=
  match f with
  | Document (JObj d) =>
      match dget "resolutions" d with Some (JList l) => entry_key <$> l | _ => [] end
  | _ => []
  end.

Definition op_cycle (o : op) : option Z :=
  match o with
  | Request => None
  | Start id _ _ | Resolve id _ _ | Redrive id _ => Some id
  end.

Lemma stale_rejected env o f c id :
  f = Document (JObj (ReviewCycle_to_dict c)) -> op_cycle o = Some id ->
  id <> rc_cycle_id c -> apply_op env o f = Err StaleCycleError.
Proof.
  intros -> Ho Hid.
  assert (H : current_cycle env (Document (JObj (ReviewCycle_to_dict c))) id
              = Err StaleCycleError).
  { unfold current_cycle. rewrite load_document. cbn [mbind res_bind].
    by rewrite bool_decide_eq_true_2. }
  destruct o; [done|..]; injection Ho as ->; cbn [apply_op];
    unfold record_started, resolve_review, record_redrive; by rewrite H.
Qed.

(** C33 (safety): Whatever operations are attempted, on behalf of any cycle and with any
    write failing: the accepted requests number the cycles 1, 2, 3, ...; every accepted
    resolution is of a cycle whose reviewer engaged after that cycle's own request and
    before any newer one, and which was not resolved before; the state file records
    exactly the accepted resolutions; and an operation for another cycle than the last
    requested one is refused as stale. *)
Theorem review_obligation (ops : list (Env * op)) :
  let '(f, log) := run ops in
  let n := Z.of_nat (length (log ≫= request_of)) in
  log ≫= request_of = seqZ 1 n
  /\ resolved_well log
  /\ recorded f = log ≫= resolved_of
  /\ forall env o id, op_cycle o = Some id -> (0 < n)%Z -> id <> n ->
       apply_op env o f = Err StaleCycleError.
Proof.
  pose proof (run_tracks ops) as Hf. destruct (run ops) as [f log]. cbn in Hf |- *.
  destruct (file_legal f log Hf) as (m & p & Hl).
  destruct f as [| |v]; [|done|].
  { cbn in Hf. subst log. split_and!; [done | by intros [] | done | cbn; lia]. }
  destruct Hf as (c & -> & [Hl' _ Hr]). pose proof (legal_numbers _ _ _ Hl') as [Hn Hq].
  rewrite Hq, length_seqZ, Z2Nat.id by lia. split_and!.
  - done.
  - by eapply legal_resolved_well.
  - done.
  - intros env o id Ho _ Hid. by eapply stale_rejected.
Qed.

(** ** Outside the module's own writes

    The numbering is monotonic over the files the module wrote.  A file that something
    else made unreadable counts as no file, so the numbering restarts at 1 and a late
    report for the old cycle 1 is current again; a document whose [cycle_id] is null is
    not read as "no cycle": [int(None)] raises. *)

Lemma unreadable_file_restarts_numbering env id marker detail :
  write_ok env = true ->
  exists c f, request_review env Unreadable = Ok (c, f) /\ rc_cycle_id c = 1%Z
    /\ (id = 1%Z -> is_ok (record_started env id marker detail f) = true).
Proof.
  intros Hw. unfold request_review. cbn [load_cycle mbind res_bind].
  unfold atomic_write_cycle at 1. rewrite Hw. eexists _, _. split_and!; [done | done |].
  intros ->. unfold record_started, current_cycle. rewrite load_document.
  cbn. unfold atomic_write_cycle. by rewrite Hw.
Qed.

Lemma null_cycle_id_raises now d :
  dget "cycle_id" d = Some JNull -> load_cycle now (Document (JObj d)) = Err TypeError.
Proof. intros E. cbn. unfold ReviewCycle_from_dict, get_or. by rewrite E. Qed.
