(* ===== verification/ReviewRedrive.v ===== *)
(** The re-drive of a stuck review (apps/backend/qa/review_redrive.py): one strike per
    window, a nudge in the reviewer's inbox first, then an escalation to a human.  The two
    writers the module is given, [enqueue] and [write_control], are the outcomes of their
    calls; the calls themselves are the recorded effects. *)
From S2P Require Import Prelude PyData ReviewCycle.

Definition REVIEWER_RECIPIENT : string := "agent".
Definition DEFAULT_ESCALATE_AFTER_STRIKES : Z := 1.

Definition nudge_text (cycle_id : Z) : string :=
  "Review obligation reminder (cycle " +:+ pretty cycle_id +:+ "): a peer review was "
  +:+ "requested for this task but has not started yet. Please begin the "
  +:+ "review now — inspect the implementation against the acceptance "
  +:+ "criteria and record your verdict. This is an automated nudge because "
  +:+ "the review request went unacknowledged.".

Definition escalation_reason (cycle_id strikes : Z) : string :=
  "Peer review stalled: cycle " +:+ pretty cycle_id +:+ " was requested but never started "
  +:+ "after " +:+ pretty strikes +:+ " automated nudge(s). Escalated for human review.".

(** The calls of the injected writers. *)
Inductive effect :=
  | Enqueue (spec_dir text recipient sender summary : string)
  | WriteControl (spec_dir status review_reason updated_by : string).

(** The action record that is returned. *)
Inductive action :=
  | Nudged (cycle_id : Z) (recipient inbox_dir : string) (delivered : option bool)
      (messageId : option json) (redrive_attempts : Z)
  | Escalated (cycle_id : Z) (status reviewReason : string) (redrive_attempts : Z).

(** One poll: the clock, the surroundings of the state file, and what each injected writer
    does if it is called. *)
Record Poll := {
  p_now : Z;
  p_env : Env;
  p_enqueue : res json;
  p_write_control : res unit;
}.

Section redrive.
Context `{IsoTime}.

(** [result.get(k) if isinstance(result, dict) else None] *)
Definition result_get (k : string) (result : json) : option json :=
  match result with
  | JObj d => Some (match dget k d with Some v => v | None => JNull end)
  | _ => None
  end.

Definition process_untouched_review (main : string) (worktree : option string)
    (timeout escalate_after : Z) (recipient : string) (p : Poll) (f : cycle_file)
  : res (option action) * cycle_file * list effect :=
  match detect_untouched_review (at_load (p_env p)) timeout (p_now p) f with
  | Err e => (Err e, f, [])
  | Ok None => (Ok None, f, [])
  | Ok (Some cycle) =>
      if negb (redrive_window_elapsed timeout (p_now p) cycle) then (Ok None, f, [])
      else
      let inbox_dir := match worktree with Some w => w | None => main end in
      let id := rc_cycle_id cycle in
      if (rc_redrive_attempts cycle <? escalate_after)%Z then
        let call := Enqueue inbox_dir (nudge_text id) recipient "review_obligation"
                      ("Begin review (cycle " +:+ pretty id +:+ ")") in
        match p_enqueue p with
        | Err e => (Err e, f, [call])
        | Ok result =>
            match record_redrive (p_env p) id (Some (isoformat (p_now p))) f with
            | Err e => (Err e, f, [call])
            | Ok (updated, f') =>
                (Ok (Some (Nudged id recipient inbox_dir
                             (truthy <$> result_get "delivered" result)
                             (result_get "messageId" result)
                             (rc_redrive_attempts updated))), f', [call])
            end
        end
      else
        let reason := escalation_reason id (rc_redrive_attempts cycle) in
        let call := WriteControl main "human_review" reason "review_redrive" in
        match p_write_control p with
        | Err e => (Err e, f, [call])
        | Ok _ =>
            match record_redrive (p_env p) id (Some (isoformat (p_now p))) f with
            | Err e => (Err e, f, [call])
            | Ok (updated, f') =>
                (Ok (Some (Escalated id "human_review" reason
                             (rc_redrive_attempts updated))), f', [call])
            end
        end
  end.

(** A poller: one call after the other, on the file the previous one left. *)
Fixpoint poll_all (main : string) (worktree : option string) (timeout escalate_after : Z)
    (recipient : string) (ps : list Poll) (f : cycle_file)
  : list (Z * action) * cycle_file :=
  match ps with
  | [] => ([], f)
  | p :: ps =>
      let '(r, f', _) :=
        process_untouched_review main worktree timeout escalate_after recipient p f in
      let '(l, f'') := poll_all main worktree timeout escalate_after recipient ps f' in
      (match r with Ok (Some a) => (p_now p, a) :: l | _ => l end, f'')
  end.

(** ** The strike policy, without a file

    [n] strikes taken, the last at [anchor] (the request, when there is none). *)
Inductive strike := Nudge | Escalate.

Definition strike_kind (escalate_after n : Z) : strike :=
  if (n <? escalate_after)%Z then Nudge else Escalate.
Definition hook_ok (k : strike) (p : Poll) : bool :=
  match k with Nudge => is_ok (p_enqueue p) | Escalate => is_ok (p_write_control p) end.

Fixpoint policy (timeout escalate_after n anchor : Z) (ps : list Poll)
  : list (Z * strike) :=
  match ps with
  | [] => []
  | p :: ps =>
      let k := strike_kind escalate_after n in
      if (timeout <=? p_now p - anchor)%Z && hook_ok k p && write_ok (p_env p)
      then (p_now p, k) :: policy timeout escalate_after (n + 1) (p_now p) ps
      else policy timeout escalate_after n anchor ps
  end.

Definition strike_of (a : action) : strike :=
  match a with Nudged _ _ _ _ _ _ => Nudge | Escalated _ _ _ _ => Escalate end.

(** A requested cycle after [n] strikes. *)
Record stuck (c : ReviewCycle) (requested n anchor : Z) : Prop := {
  st_state : rc_state c = REQUESTED;
  st_requested : fromisoformat (rc_requested_at c) = Some requested;
  st_attempts : rc_redrive_attempts c = n;
  st_anchor : fromisoformat (redrive_anchor c) = Some anchor;
  st_order : (requested <= anchor)%Z;
}.

Definition cycle_doc (c : ReviewCycle) : cycle_file := Document (JObj (ReviewCycle_to_dict c)).

Lemma load_doc now c : load_cycle now (cycle_doc c) = Ok (Some c).
Proof. apply load_document. Qed.

Lemma redrive_doc env c at_ :
  record_redrive env (rc_cycle_id c) (Some at_) (cycle_doc c) =
  if write_ok env
  then Ok (stamp (at_write env) (set_redrive at_ c),
           cycle_doc (stamp (at_write env) (set_redrive at_ c)))
  else Err OSError.
Proof.
  unfold record_redrive, current_cycle. rewrite load_doc.
  cbn [mbind res_bind]. rewrite bool_decide_eq_false_2 by auto. cbn [mbind res_bind].
  done.
Qed.

Lemma stuck_after timeout c requested n anchor now w :
  (0 <= timeout)%Z -> (timeout <= now - anchor)%Z -> stuck c requested n anchor ->
  stuck (stamp w (set_redrive (isoformat now) c)) requested (n + 1) now.
Proof.
  intros Ht Hd [Hs Hr Ha Hc Ho]. split; cbn; [done | done | lia | | lia].
  unfold redrive_anchor. cbn. destruct (isoformat now) eqn:E; cbn.
  - by apply isoformat_nonempty in E.
  - rewrite <- E. apply fromisoformat_isoformat.
Qed.

Lemma poll_step main worktree timeout escalate_after recipient p c requested n anchor :
  (0 <= timeout)%Z -> stuck c requested n anchor ->
  let k := strike_kind escalate_after n in
  let due := (timeout <=? p_now p - anchor)%Z && hook_ok k p && write_ok (p_env p) in
  exists r e, process_untouched_review main worktree timeout escalate_after recipient p
                (cycle_doc c) =
    (r, if due then cycle_doc (stamp (at_write (p_env p))
                                 (set_redrive (isoformat (p_now p)) c))
        else cycle_doc c, e)
    /\ (if due then exists a, r = Ok (Some a) /\ strike_of a = k
        else match r with Ok (Some _) => False | _ => True end).
Proof.
  intros Ht Hs k due. pose proof Hs as [Hst Hr Ha Hc Ho]. subst due k.
  unfold process_untouched_review, detect_untouched_review, is_untouched.
  rewrite load_doc. cbn [mbind res_bind]. rewrite Hst, Hr.
  destruct (timeout <=? p_now p - anchor)%Z eqn:E1.
  - apply Z.leb_le in E1. rewrite (proj2 (Z.leb_le _ (p_now p - requested))) by lia.
    unfold redrive_window_elapsed. rewrite Hc, (proj2 (Z.leb_le _ _) E1).
    cbn [negb andb]. rewrite redrive_doc. unfold strike_kind. rewrite Ha.
    case_if; cbn [hook_ok].
    + destruct (p_enqueue p); cbn [is_ok andb]; [|by eexists _, _].
      destruct (write_ok (p_env p)); eexists _, _; (split; [reflexivity | cbn; eauto]).
    + destruct (p_write_control p); cbn [is_ok andb]; [|by eexists _, _].
      destruct (write_ok (p_env p)); eexists _, _; (split; [reflexivity | cbn; eauto]).
  - cbn [andb]. destruct (timeout <=? p_now p - requested)%Z; [|by eexists _, _].
    unfold redrive_window_elapsed. rewrite Hc, E1. by eexists _, _.
Qed.

Lemma poll_all_policy main worktree timeout escalate_after recipient ps :
  (0 <= timeout)%Z -> forall c requested n anchor, stuck c requested n anchor ->
  prod_map id strike_of <$>
    (poll_all main worktree timeout escalate_after recipient ps (cycle_doc c)).1
  = policy timeout escalate_after n anchor ps.
Proof.
  intros Ht. induction ps as [|p ps IH]; intros c requested n anchor Hs; [done|].
  destruct (poll_step main worktree timeout escalate_after recipient p c requested n anchor
              Ht Hs) as (r & e & E & Hr).
  cbn [poll_all policy]. rewrite E. clear E.
  destruct (_ && write_ok (p_env p)) eqn:Ed.
  - destruct Hr as (a & -> & Ha). apply andb_true_iff in Ed as [[Ed _]%andb_true_iff _].
    apply Z.leb_le in Ed.
    specialize (IH _ _ _ _ (stuck_after timeout c requested n anchor (p_now p)
                              (at_write (p_env p)) Ht Ed Hs)).
    destruct (poll_all _ _ _ _ _ ps _) as [l f'']. cbn in IH |- *. by rewrite IH, Ha.
  - specialize (IH _ _ _ _ Hs).
    destruct (poll_all _ _ _ _ _ ps _) as [l f'']. cbn in IH |- *.
    by destruct r as [[]|].
Qed.

(** Consecutive strikes are a window apart, starting from [anchor]. *)
Fixpoint spaced (timeout anchor : Z) (l : list Z) : Prop :=
  match l with [] => True | t :: l => (anchor + timeout <= t)%Z /\ spaced timeout t l end.

Lemma policy_spaced timeout e n anchor ps : spaced timeout anchor (policy timeout e n anchor ps).*1.
Proof.
  revert n anchor. induction ps as [|p ps IH]; intros n anchor; cbn; [done|].
  destruct (timeout <=? p_now p - anchor)%Z eqn:E; cbn; [|done]. apply Z.leb_le in E.
  destruct (_ && _); cbn; [|done]. split; [lia | done].
Qed.

Lemma policy_kinds timeout e n anchor ps :
  (policy timeout e n anchor ps).*2 =
  strike_kind e <$> seqZ n (Z.of_nat (length (policy timeout e n anchor ps))).
Proof.
  revert n anchor. induction ps as [|p ps IH]; intros n anchor; cbn [policy]; [done|].
  destruct (_ && write_ok (p_env p)); [|apply IH]. cbn [fmap list_fmap length].
  rewrite seqZ_cons by lia. cbn [fmap list_fmap]. rewrite IH.
  do 3 f_equal; lia.
Qed.

(** Polling a review that stays unstarted, at any times and with any
    inbox, control-plane or state-file write failing, takes exactly the strikes of the
    policy: a strike is taken when a full window has passed since the last one (or since
    the request) and its delivery and the recording succeed, so a failed delivery burns
    no strike; strikes are at least a window apart; the first [escalate_after] of them
    are nudges and all the others escalations. *)
Theorem one_strike_per_window main worktree timeout escalate_after recipient ps c requested :
  (0 <= timeout)%Z -> stuck c requested 0 requested ->
  let strikes := prod_map id strike_of <$>
    (poll_all main worktree timeout escalate_after recipient ps (cycle_doc c)).1 in
  strikes = policy timeout escalate_after 0 requested ps
  /\ spaced timeout requested strikes.*1
  /\ strikes.*2 = strike_kind escalate_after <$> seqZ 0 (Z.of_nat (length strikes)).
Proof.
  intros Ht Hs strikes. subst strikes.
  rewrite (poll_all_policy main worktree timeout escalate_after recipient ps Ht c requested
             0 requested Hs).
  split_and!; [done | apply policy_spaced | apply policy_kinds].
Qed.
End redrive.

(** ** A concrete clock, for examples *)

Fixpoint pos_string (p : positive) : string :=
  match p with
  | xH => "1" | xO p => String "0" (pos_string p) | xI p => String "1" (pos_string p)
  end.
Fixpoint string_pos (s : string) : option positive :=
  match s with
  | EmptyString => None
  | String c s' =>
      if Ascii.eqb c "1" then
        match string_pos s' with Some p => Some (xI p) | None => Some xH end
      else match string_pos s' with Some p => Some (xO p) | None => None end
  end.
Definition clock_string (t : Z) : string :=
  match t with
  | Z0 => "Z" | Zpos p => String "+" (pos_string p) | Zneg p => String "-" (pos_string p)
  end.
Definition clock_read (s : string) : option Z :=
  match s with
  | String "+" s' => Zpos <$> string_pos s'
  | String "-" s' => Zneg <$> string_pos s'
  | String "Z" EmptyString => Some 0%Z
  | _ => None
  end.

Lemma string_pos_string p : string_pos (pos_string p) = Some p.
Proof. induction p as [p IH|p IH|]; cbn; [by rewrite IH..|done]. Qed.

#[export] Program Instance example_clock : IsoTime := {
  isoformat := clock_string; fromisoformat := clock_read;
}.
Next Obligation. by intros [|p|p]; cbn; [|rewrite string_pos_string..]. Qed.
Next Obligation. by intros []. Qed.

Definition example_env : Env :=
  {| at_load := "l"; at_change := clock_string 10; at_proof := "p"; at_write := "w";
     write_ok := true |}.
Definition example_cycle : ReviewCycle :=
  {| rc_cycle_id := 1; rc_state := REQUESTED; rc_requested_at := clock_string 10;
     rc_started_at := None; rc_resolved_at := None; rc_proof := None; rc_resolutions := [];
     rc_redrive_attempts := 0; rc_last_redrive_at := None; rc_updated_at := "w" |}.
Definition example_poll (t : Z) (delivered : bool) : Poll :=
  {| p_now := t; p_env := example_env;
     p_enqueue := if delivered then Ok (JObj [("delivered", JBool true)]) else Err OSError;
     p_write_control := Ok tt |}.

Lemma one_strike_per_window_witness :
  let ps := [example_poll 12 true; example_poll 20 false; example_poll 21 true;
             example_poll 25 true; example_poll 40 true] in
  (prod_map id strike_of <$> (poll_all "main" None 10 1 "agent" ps (cycle_doc example_cycle)).1)
    = [(21%Z, Nudge); (40%Z, Escalate)]
  /\ spaced 10 10 [21; 40]%Z.
Proof.
  assert (Hs : stuck example_cycle 10 0 10) by (split; reflexivity || (cbn; lia)).
  intros ps.
  destruct (one_strike_per_window "main" None 10 1 "agent" ps example_cycle 10
              ltac:(lia) Hs) as (E & Hsp & _).
  rewrite E in Hsp |- *. split; [reflexivity | exact Hsp].
Defined.
