(* ===== verification/SelfHeal.v ===== *)
(** The self-heal loop (apps/backend/agents/self_heal.py): checkpoint, bounded attempts
    with verification, diagnosis between them, rollback on exhaustion.

    The hooks act on a world [W] the loop does not see: a hook is a function of the world
    that returns or raises and leaves a new world.  Every call is recorded. *)
From S2P Require Import Prelude.

Inductive status := SUCCESS | ESCALATED | ESCALATED_IMMEDIATE.

#[export] Instance status_eq_dec : EqDecision status.
Proof. solve_decision. Defined.

(** The entries of the event log. *)
Inductive heal_event :=
  | EvEscalateImmediate (label : string)
  | EvCheckpoint (label : string)
  | EvAttemptError (attempt : nat) (error : exn)
  | EvVerified (attempt : nat)
  | EvVerifyFailed (attempt : nat) (failures : list string)
  | EvRollback (label : string) (ok : bool)
  | EvEscalate (label : string) (attempts : nat).

Record SelfHealOutcome := {
  so_status : status;
  so_attempts : nat;
  so_rolled_back : bool;
  so_events : list heal_event;
}.

Definition ok (o : SelfHealOutcome) : bool := bool_decide (so_status o = SUCCESS).

(** What [verify] returns, by the two attributes that are read. *)
Record VerifyResult := { vr_passed : bool; vr_failures : list string }.

(** The hook calls, with what came back. *)
Inductive call :=
  | CEscalateCheck (b : bool)
  | CSnapshot (taken : bool)
  | CAttempt (n : nat) (returned : bool)
  | CVerify (passed : bool)
  | CDiagnose (n : nat)
  | CRollback (ok : bool).

#[export] Instance call_eq_dec : EqDecision call.
Proof. solve_decision. Defined.

(** Refutes membership in an explicit list. *)
Ltac not_in :=
  rewrite ?not_elem_of_app, ?not_elem_of_cons; split_and?; try done;
  try apply not_elem_of_nil.

Section self_heal.
Context {W K : Type}.

(** A hook with result [A]. *)
Definition hook (A : Type) : Type := W -> res A * W.

Record Hooks := {
  h_attempt : nat -> hook ();
  h_verify : hook VerifyResult;
  h_snapshot : option (string -> hook (option K));
  h_rollback : option (K -> hook bool);
  h_diagnose : option (nat -> hook ());
  h_escalate_immediately : option (hook bool);
}.

Context (h : Hooks).

(** [if diagnose and n < max_attempts: try: await diagnose(n) except Exception: ...] *)
Definition diagnose_step (max n : nat) (w : W) : W * list call :=
  match h_diagnose h with
  | Some d => if bool_decide (n < max) then ((d n w).2, [CDiagnose n]) else (w, [])
  | None => (w, [])
  end.

(** What one turn of the loop comes to: the unit passed, it goes on, or [verify] raised
    (its call is in the [else] of the [try], so nothing catches it). *)
Inductive turn := Passed | Again | Raised (e : exn).

Definition attempt_step (n : nat) (w : W) : turn * W * list heal_event * list call :=
  let '(r, w) := h_attempt h n w in
  match r with
  | Err e => (Again, w, [EvAttemptError n e], [CAttempt n false])
  | Ok _ =>
      let '(v, w) := h_verify h w in
      match v with
      | Err e => (Raised e, w, [], [CAttempt n true])
      | Ok v =>
          if vr_passed v
          then (Passed, w, [EvVerified n], [CAttempt n true; CVerify true])
          else (Again, w, [EvVerifyFailed n (vr_failures v)],
                [CAttempt n true; CVerify false])
      end
  end.

(** [for n in range(n, max + 1)], with [todo] turns to go. *)
Fixpoint attempts (max todo n : nat) (w : W)
  : option (res nat) * W * list heal_event * list call :=
  match todo with
  | O => (None, w, [], [])
  | S todo =>
      let '(t, w, ev, cs) := attempt_step n w in
      match t with
      | Passed => (Some (Ok n), w, ev, cs)
      | Raised e => (Some (Err e), w, ev, cs)
      | Again =>
          let '(w, ds) := diagnose_step max n w in
          let '(r, w, ev', cs') := attempts max todo (S n) w in
          (r, w, ev ++ ev', cs ++ ds ++ cs')
      end
  end.

(** [escalate_immediately and escalate_immediately()] *)
Definition escalate_check (w : W) : res bool * W * list call :=
  match h_escalate_immediately h with
  | None => (Ok false, w, [])
  | Some f =>
      let '(r, w) := f w in
      (r, w, match r with Ok b => [CEscalateCheck b] | Err _ => [] end)
  end.

(** [checkpoint = snapshot(label) if snapshot else None] *)
Definition take_snapshot (label : string) (w : W) : res (option K) * W * list call :=
  match h_snapshot h with
  | None => (Ok None, w, [])
  | Some f =>
      let '(r, w) := f label w in
      (r, w, match r with
             | Ok (Some _) => [CSnapshot true] | Ok None => [CSnapshot false]
             | Err _ => [] end)
  end.

(** [if checkpoint is not None and rollback: rolled_back = bool(rollback(checkpoint))] *)
Definition roll_back (label : string) (checkpoint : option K) (w : W)
  : res bool * W * list heal_event * list call :=
  match checkpoint, h_rollback h with
  | Some k, Some f =>
      let '(r, w) := f k w in
      match r with
      | Ok b => (Ok b, w, [EvRollback label b], [CRollback b])
      | Err e => (Err e, w, [], [])
      end
  | _, _ => (Ok false, w, [], [])
  end.

(** The checkpoint, the attempts, and the escalation of an exhausted unit. *)
Definition heal_unit (label : string) (max : nat) (w : W)
  : res SelfHealOutcome * W * list call :=
  let '(r, w, cs) := take_snapshot label w in
  match r with
  | Err e => (Err e, w, cs)
  | Ok checkpoint =>
      let ev := match checkpoint with Some _ => [EvCheckpoint label] | None => [] end in
      let '(r, w, ev', cs') := attempts max max 1 w in
      match r with
      | Some (Err e) => (Err e, w, cs ++ cs')
      | Some (Ok n) =>
          (Ok {| so_status := SUCCESS; so_attempts := n; so_rolled_back := false;
                 so_events := ev ++ ev' |}, w, cs ++ cs')
      | None =>
          let '(r, w, ev'', cs'') := roll_back label checkpoint w in
          match r with
          | Err e => (Err e, w, cs ++ cs' ++ cs'')
          | Ok b =>
              (Ok {| so_status := ESCALATED; so_attempts := max; so_rolled_back := b;
                     so_events := ev ++ ev' ++ ev'' ++ [EvEscalate label max] |},
               w, cs ++ cs' ++ cs'')
          end
      end
  end.

Definition run_with_self_heal (label : string) (max_attempts : Z) (w : W)
  : res SelfHealOutcome * W * list call :=
  let max := Z.to_nat (Z.max 1 max_attempts) in
  let '(r, w, cs) := escalate_check w in
  match r with
  | Err e => (Err e, w, cs)
  | Ok true =>
      (Ok {| so_status := ESCALATED_IMMEDIATE; so_attempts := 0; so_rolled_back := false;
             so_events := [EvEscalateImmediate label] |}, w, cs)
  | Ok false =>
      let '(r, w, cs') := heal_unit label max w in (r, w, cs ++ cs')
  end.

(** ** The policy *)

Definition attempt_of (c : call) : list nat := match c with CAttempt n _ => [n] | _ => [] end.
Definition is_rollback (c : call) : bool := match c with CRollback _ => true | _ => false end.
Definition is_diagnose (c : call) : bool := match c with CDiagnose _ => true | _ => false end.

(** The attempt and the verification hooks may do anything; the hooks the loop does not
    shield return. *)
Record shielded : Prop := {
  sh_verify : forall w, is_ok (h_verify h w).1 = true;
  sh_snapshot : forall f l w, h_snapshot h = Some f -> is_ok (f l w).1 = true;
  sh_rollback : forall f k w, h_rollback h = Some f -> is_ok (f k w).1 = true;
  sh_escalate : forall f w, h_escalate_immediately h = Some f -> is_ok (f w).1 = true;
}.

(** A stretch of the call record made of [k] attempts numbered from [n], none of which
    passed. *)
Record failed_turns (n k : nat) (cs : list call) : Prop := {
  ft_attempts : cs ≫= attempt_of = seq n k;
  ft_failed : CVerify true ∉ cs;
  ft_no_rollback : countb is_rollback cs = 0;
}.

Lemma failed_turns_nil n : failed_turns n 0 [].
Proof. split; [done | apply not_elem_of_nil | done]. Qed.

Lemma failed_turns_app n k n' k' cs cs' :
  n' = n + k -> failed_turns n k cs -> failed_turns n' k' cs' ->
  failed_turns n (k + k') (cs ++ cs').
Proof.
  intros -> [Ha Hf Hr] [Ha' Hf' Hr']. split.
  - by rewrite bind_app, Ha, Ha', seq_app.
  - by rewrite not_elem_of_app.
  - by rewrite countb_app, Hr, Hr'.
Qed.

Definition diagnoses (k : nat) : nat := match h_diagnose h with Some _ => k | None => 0 end.

Lemma diagnose_quiet max n w w' ds :
  diagnose_step max n w = (w', ds) ->
  failed_turns n 0 ds /\ countb is_diagnose ds = diagnoses (if bool_decide (n < max) then 1 else 0).
Proof.
  unfold diagnose_step, diagnoses. destruct (h_diagnose h) as [d|]; [case_bool_decide|];
    intros E; injection E as <- <-; (split; [|done]); try apply failed_turns_nil.
  split; [done | by intros Hin%list_elem_of_singleton | done].
Qed.

Lemma failed_attempt n cs :
  cs = [CAttempt n false] \/ cs = [CAttempt n true; CVerify false] ->
  failed_turns n 1 cs /\ countb is_diagnose cs = 0.
Proof.
  intros [->| ->]; (split; [split|]); try done; not_in.
Qed.

(** A turn that did not pass failed its attempt, when [verify] returns. *)
Lemma attempt_step_spec n w :
  (forall w, is_ok (h_verify h w).1 = true) ->
  let '(t, _, _, cs) := attempt_step n w in
  match t with
  | Passed => cs = [CAttempt n true; CVerify true]
  | Again => failed_turns n 1 cs /\ countb is_diagnose cs = 0
  | Raised _ => False
  end.
Proof.
  intros Hv. unfold attempt_step. destruct (h_attempt h n w) as [[[]|e] w1].
  - specialize (Hv w1). destruct (h_verify h w1) as [[[[] fs]|e] w2]; [done | | done].
    cbn. apply failed_attempt. by right.
  - apply failed_attempt. by left.
Qed.

(** The attempts: they end with a passing verification, or they all failed. *)
Lemma attempts_spec max todo n w :
  (forall w, is_ok (h_verify h w).1 = true) -> n + todo = S max ->
  let '(r, _, _, cs) := attempts max todo n w in
  match r with
  | None => failed_turns n todo cs /\ countb is_diagnose cs = diagnoses (todo - 1)
  | Some (Ok m) =>
      n <= m < n + todo
      /\ exists cs', cs = cs' ++ [CAttempt m true; CVerify true]
                     /\ failed_turns n (m - n) cs'
                     /\ countb is_diagnose cs' = diagnoses (m - n)
  | Some (Err _) => False
  end.
Proof.
  intros Hv. revert n w. induction todo as [|todo IH]; intros n w Hn; cbn [attempts].
  { split; [apply failed_turns_nil | unfold diagnoses; by destruct (h_diagnose h)]. }
  pose proof (attempt_step_spec n w Hv) as Hs.
  destruct (attempt_step n w) as [[[t w1] ev] cs]. destruct t as [| |e]; [| |done].
  { split; [lia|]. exists []. rewrite Nat.sub_diag. split; [by rewrite Hs|].
    split; [apply failed_turns_nil | unfold diagnoses; by destruct (h_diagnose h)]. }
  destruct Hs as [Hs Hd]. destruct (diagnose_step max n w1) as [w2 ds] eqn:Ed.
  apply diagnose_quiet in Ed as [Hq Hqd].
  specialize (IH (S n) w2 ltac:(lia)).
  destruct (attempts max todo (S n) w2) as [[[r w3] ev'] cs'].
  assert (Happ : forall k c, failed_turns (S n) k c -> failed_turns n (S k) (cs ++ ds ++ c)).
  { intros k c Hc. apply (failed_turns_app n 1 (S n) k); [lia | done |].
    apply (failed_turns_app (S n) 0 (S n) k); [lia | | done]. by destruct Hq. }
  destruct r as [[m|e]|]; [| done |].
  - destruct IH as (Hm & cs'' & -> & Hf & Hcd). split; [lia|].
    exists (cs ++ ds ++ cs''). rewrite !app_assoc. split; [done|].
    rewrite <- app_assoc. replace (m - n) with (S (m - S n)) by lia. split; [by apply Happ|].
    rewrite !countb_app, Hd, Hqd, Hcd, bool_decide_eq_true_2 by lia.
    unfold diagnoses. destruct (h_diagnose h); lia.
  - destruct IH as [Hf Hcd]. split; [by apply Happ|].
    rewrite !countb_app, Hd, Hqd, Hcd. unfold diagnoses.
    destruct (h_diagnose h); [|done]. case_bool_decide; lia.
Qed.

Lemma escalate_check_spec w :
  shielded -> exists b w' cs, escalate_check w = (Ok b, w', cs)
    /\ (b = true -> h_escalate_immediately h <> None)
    /\ cs = match h_escalate_immediately h with Some _ => [CEscalateCheck b] | None => [] end.
Proof.
  intros Hsh. unfold escalate_check. destruct (h_escalate_immediately h) as [f|] eqn:E.
  - pose proof (sh_escalate Hsh f w E) as Hf. destruct (f w) as [[b|e] w']; [|done].
    by exists b, w', [CEscalateCheck b].
  - by exists false, w, [].
Qed.

Lemma take_snapshot_spec label w :
  shielded -> exists k w' cs, take_snapshot label w = (Ok k, w', cs)
    /\ ((cs = [] /\ k = None) \/ cs = [CSnapshot (bool_decide (is_Some k))]).
Proof.
  intros Hsh. unfold take_snapshot. destruct (h_snapshot h) as [f|] eqn:E.
  - pose proof (sh_snapshot Hsh f label w E) as Hf.
    destruct (f label w) as [[[k|]|e] w']; [| |done]; eexists _, _, _;
      (split; [reflexivity|]); by right.
  - exists None, w, []. split; [done | by left].
Qed.

Lemma roll_back_spec label k w :
  shielded -> exists b w' ev cs, roll_back label k w = (Ok b, w', ev, cs)
    /\ cs = match k, h_rollback h with Some _, Some _ => [CRollback b] | _, _ => [] end
    /\ (cs = [] -> b = false).
Proof.
  intros Hsh. unfold roll_back. destruct k as [k|], (h_rollback h) as [f|] eqn:E;
    try by eexists _, _, _, _.
  pose proof (sh_rollback Hsh f k w E) as Hf. destruct (f k w) as [[b|e] w']; [|done].
  by eexists _, _, _, _.
Qed.

Definition has_rollback : bool := match h_rollback h with Some _ => true | None => false end.

(** What a returned outcome says of the calls made: [heal_calls out max cs]. *)
Definition heal_calls (out : SelfHealOutcome) (max : nat) (cs : list call) : Prop :=
  let k := so_attempts out in
  cs ≫= attempt_of = seq 1 k
  /\ match so_status out with
     | SUCCESS =>
         1 <= k <= max /\ last cs = Some (CVerify true)
         /\ countb is_rollback cs = 0 /\ countb is_diagnose cs = diagnoses (k - 1)
         /\ so_rolled_back out = false
     | ESCALATED =>
         k = max /\ (CVerify true ∉ cs) /\ countb is_diagnose cs = diagnoses (k - 1)
         /\ (if bool_decide (CSnapshot true ∈ cs) && has_rollback
             then countb is_rollback cs = 1 /\ last cs = Some (CRollback (so_rolled_back out))
             else countb is_rollback cs = 0 /\ so_rolled_back out = false)
     | ESCALATED_IMMEDIATE => cs = [CEscalateCheck true] /\ so_rolled_back out = false
     end.

(** The calls the attempts make. *)
Definition loop_call (c : call) : bool :=
  match c with CAttempt _ _ | CVerify _ | CDiagnose _ => true | _ => false end.

Lemma attempts_loop_calls max todo n w :
  let '(_, _, _, cs) := attempts max todo n w in Forall (fun c => loop_call c = true) cs.
Proof.
  revert n w. induction todo as [|todo IH]; intros n w; cbn [attempts]; [constructor|].
  assert (Hs : let '(_, _, _, cs) := attempt_step n w in Forall (fun c => loop_call c = true) cs).
  { unfold attempt_step. destruct (h_attempt h n w) as [[|] ?];
      [destruct (h_verify h _) as [[[[] ?]|] ?]|]; cbn; by repeat constructor. }
  destruct (attempt_step n w) as [[[[| |e] w1] ev] cs]; [done | | done].
  destruct (diagnose_step max n w1) as [w2 ds] eqn:Ed.
  specialize (IH (S n) w2). destruct (attempts max todo (S n) w2) as [[[r w3] ev'] cs'].
  apply Forall_app_2; [done | apply Forall_app_2; [|done]].
  unfold diagnose_step in Ed. destruct (h_diagnose h); [case_bool_decide|];
    injection Ed as <- <-; by repeat constructor.
Qed.

Lemma not_loop_call cs c :
  Forall (fun c => loop_call c = true) cs -> loop_call c = false -> c ∉ cs.
Proof. intros Hcs Hc Hin. rewrite Forall_forall in Hcs. apply Hcs in Hin. congruence. Qed.

Definition snapshot_calls (cs : list call) (k : option K) : Prop :=
  (cs = [] /\ k = None) \/ cs = [CSnapshot (bool_decide (is_Some k))].

Lemma snapshot_quiet cs k :
  snapshot_calls cs k ->
  failed_turns 1 0 cs /\ countb is_diagnose cs = 0 /\ CEscalateCheck true ∉ cs.
Proof. intros [[-> _]| ->]; (split; [split|split]); try done; not_in. Qed.

Lemma snapshot_recorded cs k cs' :
  snapshot_calls cs k -> CSnapshot true ∉ cs' ->
  bool_decide (CSnapshot true ∈ cs ++ cs') = bool_decide (is_Some k).
Proof.
  intros Hcs Hn. apply bool_decide_ext. rewrite elem_of_app.
  destruct Hcs as [[-> ->]| ->]; [rewrite elem_of_nil; split; [tauto | by intros []]|].
  rewrite list_elem_of_singleton. case_bool_decide; split; try tauto.
  by intros [?|?].
Qed.

Lemma heal_unit_spec label max w :
  shielded -> 1 <= max ->
  exists out w' cs, heal_unit label max w = (Ok out, w', cs)
    /\ so_status out <> ESCALATED_IMMEDIATE /\ (CEscalateCheck true ∉ cs) /\ heal_calls out max cs.
Proof.
  intros Hsh Hmax. unfold heal_unit.
  destruct (take_snapshot_spec label w Hsh) as (k & w1 & cs & -> & Hcs).
  pose proof (attempts_spec max max 1 w1 (sh_verify Hsh) ltac:(lia)) as Ha.
  pose proof (attempts_loop_calls max max 1 w1) as Hlc.
  destruct (attempts max max 1 w1) as [[[r w2] ev] cs1].
  destruct (snapshot_quiet cs k Hcs) as ([Hq1 Hq2 Hq3] & Hq4 & Hq5).
  destruct r as [[m|e]|]; [| done |].
  - destruct Ha as (Hm & cs' & -> & [Hf1 Hf2 Hf3] & Hd). eexists _, _, _.
    split; [reflexivity|]. split; [done|]. split.
    { rewrite not_elem_of_app. split; [done | by eapply not_loop_call]. }
    unfold heal_calls. cbn [so_attempts so_status].
    rewrite !bind_app, Hq1, Hf1, app_assoc, last_app, !countb_app, Hq3, Hq4, Hf3, Hd. cbn.
    split_and!; try done; try lia; [|by rewrite last_app].
    replace (seq 1 m) with (seq 1 (m - 1 + 1)) by (f_equal; lia).
    rewrite seq_app. do 2 f_equal. cbn. f_equal. lia.
  - destruct Ha as [[Hf1 Hf2 Hf3] Hd].
    destruct (roll_back_spec label k w2 Hsh) as (b & w3 & ev' & cs2 & -> & Hcs2 & Hb).
    eexists _, _, _. split; [reflexivity|]. split; [done|]. split.
    { rewrite !not_elem_of_app. split_and!; [done | by eapply not_loop_call |].
      rewrite Hcs2. destruct k, (h_rollback h); not_in. }
    unfold heal_calls, has_rollback. cbn [so_attempts so_status so_rolled_back].
    rewrite !bind_app, !countb_app, Hq1, Hq3, Hq4, Hf1, Hf3, Hd.
    assert (CSnapshot true ∉ cs1) by by eapply not_loop_call.
    assert (CSnapshot true ∉ cs2) by (rewrite Hcs2; destruct k, (h_rollback h); not_in).
    rewrite (snapshot_recorded cs k (cs1 ++ cs2) Hcs) by by rewrite not_elem_of_app.
    destruct k as [k|], (h_rollback h) as [f|]; subst cs2; cbn [is_Some];
      rewrite ?app_nil_r; cbn.
    all: split_and!; try done; try lia; try not_in; try by apply Hb.
    by rewrite app_assoc, last_snoc.
Qed.

(** The check that answers no leaves the rest of the record as it was. *)
Lemma heal_calls_cons out max cs :
  so_status out <> ESCALATED_IMMEDIATE -> heal_calls out max cs ->
  heal_calls out max (CEscalateCheck false :: cs).
Proof.
  unfold heal_calls. intros Hne [Ha H]. split; [done|].
  assert (Hlast : forall c, last cs = Some c -> last (CEscalateCheck false :: cs) = Some c)
    by (by destruct cs).
  rewrite !countb_cons. cbn [is_rollback is_diagnose Nat.add].
  destruct (so_status out); [| |done].
  - destruct H as (? & ? & ? & ? & ?). split_and!; auto; lia.
  - destruct H as (? & Hn & ? & Hr). split_and!; auto; [by rewrite not_elem_of_cons|].
    rewrite (bool_decide_ext _ (CSnapshot true ∈ cs)).
    + destruct (_ && _); destruct Hr; auto.
    + rewrite elem_of_cons. split; [by intros [?|?] | auto].
Qed.

(** When the hooks the loop does not shield return, the loop returns an
    outcome, whatever the attempts and the diagnoses do (a raising attempt is a failed
    one).  A unit flagged for immediate escalation costs no call but the check.
    Otherwise the attempts are numbered 1, 2, ..., k, with k at most
    [max(1, max_attempts)]; success is reported exactly when a verification passed,
    which then is the last call, nothing being rolled back; exhaustion used every
    attempt, and rolled back exactly once, as the last call, when there was a checkpoint
    and a rollback hook.  Diagnosis runs between attempts only. *)
Theorem self_heal_policy label (max_attempts : Z) w :
  shielded ->
  exists out w' cs, run_with_self_heal label max_attempts w = (Ok out, w', cs)
    /\ heal_calls out (Z.to_nat (Z.max 1 max_attempts)) cs
    /\ (ok out = true <-> CVerify true ∈ cs)
    /\ (so_status out = ESCALATED_IMMEDIATE <-> CEscalateCheck true ∈ cs).
Proof.
  intros Hsh. unfold run_with_self_heal.
  destruct (escalate_check_spec w Hsh) as (b & w1 & cs & -> & Hb & Hcs). destruct b.
  - specialize (Hb eq_refl). destruct (h_escalate_immediately h); [|done].
    eexists _, _, _. split; [reflexivity|]. subst cs. split_and!; [done|..].
    + split; [discriminate | by intros Hin%list_elem_of_singleton].
    + split; [intros _; apply list_elem_of_here | done].
  - destruct (heal_unit_spec label (Z.to_nat (Z.max 1 max_attempts)) w1 Hsh ltac:(lia))
      as (out & w2 & cs' & -> & Hne & Hnc & Hc).
    exists out, w2, (cs ++ cs'). split; [done|].
    assert (Hq : cs = [] \/ cs = [CEscalateCheck false])
      by (subst cs; destruct (h_escalate_immediately h); auto).
    assert (Hall : heal_calls out (Z.to_nat (Z.max 1 max_attempts)) (cs ++ cs'))
      by (destruct Hq as [->| ->]; [done | by apply heal_calls_cons]).
    split; [done|]. destruct Hall as [_ Hst]. unfold ok. split.
    + rewrite bool_decide_eq_true. destruct (so_status out) eqn:Es; [| |done].
      * split; [intros _ | done]. destruct Hst as (_ & Hl & _). by eapply last_Some_elem_of.
      * split; [done|]. intros Hin. by destruct Hst as (_ & Hn & _).
    + split; [done|]. rewrite elem_of_app. intros [Hin|Hin]; [|done]. exfalso. clear Hst.
      destruct Hq as [->| ->]; [by apply elem_of_nil in Hin|].
      by apply list_elem_of_singleton in Hin.
Qed.
End self_heal.

(** The world counts the attempts; the unit passes from the [k]-th on. *)
Definition example_hooks (k : nat) : Hooks (W := nat) (K := nat) :=
  {| h_attempt n w := if bool_decide (n = 1) then (Err ValueError, S w) else (Ok (), S w);
     h_verify w := (Ok {| vr_passed := bool_decide (k <= w); vr_failures := ["t"] |}, w);
     h_snapshot := Some (fun _ w => (Ok (Some w), w));
     h_rollback := Some (fun k w => (Ok true, k));
     h_diagnose := Some (fun _ w => (Err TypeError, w));
     h_escalate_immediately := None |}.

Lemma self_heal_policy_witness :
  (exists out w' cs, run_with_self_heal (example_hooks 3) "unit" 2 0 = (Ok out, w', cs)
     /\ ok out = false /\ so_rolled_back out = true /\ w' = 0)
  /\ exists out w' cs, run_with_self_heal (example_hooks 2) "unit" 2 0 = (Ok out, w', cs)
     /\ ok out = true.
Proof.
  assert (Hsh : forall k, shielded (example_hooks k)).
  { intros k. split; cbn; [done | intros f l w E; by injection E as <-
                                | intros f l w E; by injection E as <- | done]. }
  split.
  - destruct (self_heal_policy (example_hooks 3) "unit" 2 0 (Hsh 3)) as (out & w' & cs & E & _).
    exists out, w', cs. split; [exact E|]. vm_compute in E. by injection E as <- <- <-.
  - destruct (self_heal_policy (example_hooks 2) "unit" 2 0 (Hsh 2)) as (out & w' & cs & E & _ & Hk & _).
    exists out, w', cs. split; [exact E|]. apply Hk. vm_compute in E. injection E as _ _ <-.
    apply list_elem_of_In. cbn. tauto.
Defined.
