(* ===== verification/RateLimiter.v ===== *)
(** The rate limiter of the GitHub runner (apps/backend/runners/github/rate_limiter.py):
    the token bucket, the cost budget, the singleton, and the retrying decorator.

    Numbers that are floats in the code are rationals: the rounding of binary64 is not
    modelled.  The monotonic clock is an argument at each reading. *)
From Stdlib Require Import QArith Qminmax Lqa.
From S2P Require Import Prelude.

(** ** Rationals *)

#[local] Arguments Qplus : simpl never.
#[local] Arguments Qminus : simpl never.
#[local] Arguments Qmult : simpl never.
#[local] Arguments Qdiv : simpl never.
#[local] Arguments Qmin : simpl never.
#[local] Arguments Qmax : simpl never.
#[local] Arguments inject_Z : simpl never.
#[local] Arguments Qle_bool : simpl never.

(** [a < b] *)
Definition qlt (a b : Q) : bool := negb (Qle_bool b a).

Lemma qlt_true a b : qlt a b = true <-> (a < b)%Q.
Proof.
  unfold qlt. rewrite negb_true_iff. split; intros H.
  - apply Qnot_le_lt. intros H'. apply Qle_bool_iff in H'. congruence.
  - apply not_true_is_false. intros H'. apply Qle_bool_iff in H'. lra.
Qed.

Lemma qlt_false a b : qlt a b = false <-> (b <= a)%Q.
Proof. unfold qlt. rewrite negb_false_iff. apply Qle_bool_iff. Qed.

Lemma qle_false a b : Qle_bool a b = false <-> (b < a)%Q.
Proof. rewrite <- qlt_true. unfold qlt. by rewrite negb_true_iff. Qed.

(** Turns comparisons in hypotheses into propositions. *)
Ltac qprop :=
  repeat match goal with
  | H : Qle_bool _ _ = true |- _ => apply Qle_bool_iff in H
  | H : Qle_bool _ _ = false |- _ => apply qle_false in H
  | H : qlt _ _ = true |- _ => apply qlt_true in H
  | H : qlt _ _ = false |- _ => apply qlt_false in H
  end.

(** ** TokenBucket *)

Record TokenBucket := {
  tb_capacity : Z;
  tb_refill_rate : Q;
  tb_tokens : Q;
  tb_last_refill : Q;
}.

(** [__post_init__]: the bucket is full. *)
Definition new_bucket (capacity : Z) (rate now : Q) : TokenBucket :=
  {| tb_capacity := capacity; tb_refill_rate := rate; tb_tokens := inject_Z capacity;
     tb_last_refill := now |}.

Definition with_tokens (b : TokenBucket) (tokens last : Q) : TokenBucket :=
  {| tb_capacity := tb_capacity b; tb_refill_rate := tb_refill_rate b; tb_tokens := tokens;
     tb_last_refill := last |}.

Definition _refill (now : Q) (b : TokenBucket) : TokenBucket :=
  let elapsed := (now - tb_last_refill b)%Q in
  let tokens_to_add := (elapsed * tb_refill_rate b)%Q in
  with_tokens b (Qmin (inject_Z (tb_capacity b)) (tb_tokens b + tokens_to_add)) now.

Definition try_acquire (tokens : Z) (now : Q) (b : TokenBucket) : bool * TokenBucket :=
  let b := _refill now b in
  if Qle_bool (inject_Z tokens) (tb_tokens b)
  then (true, with_tokens b (tb_tokens b - inject_Z tokens) (tb_last_refill b))
  else (false, b).

(** The sleep of a turn that did not get its tokens. *)
Definition wait_time (tokens : Z) (b : TokenBucket) : Q :=
  if Qle_bool (tb_refill_rate b) 0 then 1%Q
  else Qmin ((inject_Z tokens - tb_tokens b) / tb_refill_rate b) 1.

Definition timed_out (start now : Q) (timeout : option Q) : bool :=
  match timeout with Some t => Qle_bool t (now - start) | None => false end.

(** The turns of [acquire]: each has the two clock readings it makes, one for the refill
    and one for the timeout.  None: still waiting after these turns. *)
Fixpoint acquire (tokens : Z) (timeout : option Q) (start : Q) (readings : list (Q * Q))
    (b : TokenBucket) : option bool * TokenBucket :=
  match readings with
  | [] => (None, b)
  | (now, now') :: readings' =>
      let '(granted, b) := try_acquire tokens now b in
      if granted then (Some true, b)
      else if timed_out start now' timeout then (Some false, b)
      else acquire tokens timeout start readings' b
  end.

Definition available (now : Q) (b : TokenBucket) : Z * TokenBucket :=
  let b := _refill now b in
  (Z.quot (Qnum (tb_tokens b)) (Zpos (Qden (tb_tokens b))), b).

(** None stands for infinity. *)
Definition time_until_available (tokens : Z) (now : Q) (b : TokenBucket)
  : option Q * TokenBucket :=
  let b := _refill now b in
  if Qle_bool (inject_Z tokens) (tb_tokens b) then (Some 0%Q, b)
  else if Qle_bool (tb_refill_rate b) 0 then (None, b)
  else (Some ((inject_Z tokens - tb_tokens b) / tb_refill_rate b)%Q, b).

(** The verdict of [check_github_available], without its message: when nothing is left the
    message reads the clock a second time. *)
Definition check_github_available (now now' : Q) (b : TokenBucket) : bool * TokenBucket :=
  let '(n, b) := available now b in
  if (0 <? n)%Z then (true, b) else (false, (time_until_available 1 now' b).2).

(** ** CostTracker *)

Definition AI_PRICING : list (string * (Q * Q)) :=
  [("claude-sonnet-4-20250514", (3, 15)); ("claude-opus-4-20250514", (15, 75));
   ("claude-sonnet-3-5-20241022", (3, 15)); ("claude-haiku-3-5-20241022", (4 # 5, 4));
   ("claude-sonnet-4-20250514-thinking", (3, 15)); ("default", (3, 15))]%Q.

Definition pricing (model : string) : Q * Q :=
  match List.find (fun e => String.eqb e.1 model) AI_PRICING with
  | Some e => e.2
  | None => (3, 15)%Q
  end.

Definition calculate_cost (input_tokens output_tokens : Z) (model : string) : Q :=
  let '(input, output) := pricing model in
  (inject_Z input_tokens / 1000000 * input + inject_Z output_tokens / 1000000 * output)%Q.

Record Operation := {
  op_timestamp : string;
  op_name : string;
  op_model : string;
  op_input : Z;
  op_output : Z;
  op_cost : Q;
}.

Record CostTracker := {
  ct_total_cost : Q;
  ct_cost_limit : Q;
  ct_operations : list Operation;
}.

Definition new_tracker (limit : Q) : CostTracker :=
  {| ct_total_cost := 0; ct_cost_limit := limit; ct_operations := [] |}.

Definition add_operation (now : string) (input_tokens output_tokens : Z) (model name : string)
    (t : CostTracker) : res Q * CostTracker :=
  let cost := calculate_cost input_tokens output_tokens model in
  if qlt (ct_cost_limit t) (ct_total_cost t + cost)
  then (Err (AppError "CostLimitExceeded"), t)
  else
    (Ok cost,
     {| ct_total_cost := ct_total_cost t + cost; ct_cost_limit := ct_cost_limit t;
        ct_operations := ct_operations t ++
          [{| op_timestamp := now; op_name := name; op_model := model;
              op_input := input_tokens; op_output := output_tokens; op_cost := cost |}] |}).

Definition remaining_budget (t : CostTracker) : Q :=
  Qmax 0 (ct_cost_limit t - ct_total_cost t).

(** The verdict of [check_cost_available], without its message. *)
Definition check_cost_available (t : CostTracker) : bool := qlt 0 (remaining_budget t).

(** ** The singleton *)

Record Limiter := {
  lm_bucket : TokenBucket;
  lm_tracker : CostTracker;
  lm_max_retry_delay : Q;
  lm_requests : Z;
  lm_rate_limited : Z;
  lm_errors : Z;
}.

Record Config := { cf_limit : Z; cf_rate : Q; cf_cost : Q; cf_max_delay : Q }.

(** The class: its objects (None: an object whose attributes were never set), the one
    stored as the instance, and the flag. *)
Record LimiterClass := {
  cl_objects : list (option Limiter);
  cl_instance : option nat;
  cl_initialized : bool;
}.

Definition fresh_class : LimiterClass :=
  {| cl_objects := []; cl_instance := None; cl_initialized := false |}.

(** [RateLimiter(...)]: the object made and the class afterwards. *)
Definition construct (now : Q) (c : Config) (k : LimiterClass) : nat * LimiterClass :=
  let object :=
    if cl_initialized k then None
    else Some {| lm_bucket := new_bucket (cf_limit c) (cf_rate c) now;
                 lm_tracker := new_tracker (cf_cost c); lm_max_retry_delay := cf_max_delay c;
                 lm_requests := 0; lm_rate_limited := 0; lm_errors := 0 |} in
  (length (cl_objects k),
   {| cl_objects := cl_objects k ++ [object]; cl_instance := cl_instance k;
      cl_initialized := true |}).

Definition get_instance (now : Q) (c : Config) (k : LimiterClass) : nat * LimiterClass :=
  match cl_instance k with
  | Some i => (i, k)
  | None =>
      let '(i, k) := construct now c k in
      (i, {| cl_objects := cl_objects k; cl_instance := Some i;
             cl_initialized := cl_initialized k |})
  end.

Definition reset_instance (k : LimiterClass) : LimiterClass :=
  {| cl_objects := cl_objects k; cl_instance := None; cl_initialized := false |}.

(** [acquire_github] on the attributes of an object: [start] is the reading [acquire]
    makes first.  None: still waiting. *)
Definition acquire_github (timeout : option Q) (start : Q) (readings : list (Q * Q))
    (l : Limiter) : option bool * Limiter :=
  let '(success, bucket) := acquire 1 timeout start readings (lm_bucket l) in
  (success,
   {| lm_bucket := bucket; lm_tracker := lm_tracker l;
      lm_max_retry_delay := lm_max_retry_delay l; lm_requests := lm_requests l + 1;
      lm_rate_limited :=
        match success with Some false => lm_rate_limited l + 1 | _ => lm_rate_limited l end;
      lm_errors := lm_errors l |}).

Definition record_github_error (l : Limiter) : Limiter :=
  {| lm_bucket := lm_bucket l; lm_tracker := lm_tracker l;
     lm_max_retry_delay := lm_max_retry_delay l; lm_requests := lm_requests l;
     lm_rate_limited := lm_rate_limited l; lm_errors := lm_errors l + 1 |}.

(** A method called on an object of the class. *)
Definition on_object {A} (i : nat) (k : LimiterClass) (f : Limiter -> A) : res A :=
  match cl_objects k !! i with
  | Some (Some l) => Ok (f l)
  | _ => Err AttributeError
  end.

(** ** The decorator *)

(** What the wrapped function does when it is called. *)
Inductive call_result (A : Type) :=
  | Returned (v : A)
  | RaisedCost
  | RaisedRate (message : string)
  | RaisedOther (message : string).
Arguments Returned {A} v.
Arguments RaisedCost {A}.
Arguments RaisedRate {A} message.
Arguments RaisedOther {A} message.

(** How the wrapper ends: a value, None after no attempt at all, or an exception. *)
Inductive wrapper_result (A : Type) :=
  | WReturn (v : A)
  | WNone
  | WCost
  | WRate
  | WOther (message : string).
Arguments WReturn {A} v.
Arguments WNone {A}.
Arguments WCost {A}.
Arguments WRate {A}.
Arguments WOther {A} message.

Inductive wrapper_event := EvAcquire (timeout : Q) (granted : bool) | EvCall | EvError | EvSleep (delay : Q).

(** [str(e).lower()] names a rate limit. *)
Definition mentions_rate_limit (message : string) : bool :=
  let error_str := lower message in
  contains "403" error_str || contains "429" error_str || contains "rate limit" error_str.

Section Decorator.
Context {A : Type}.
Variable github : bool.
Variable max_retries : nat.
Variable base_delay max_retry_delay : Q.
(** The environment: whether the token of an attempt is granted, and what the function
    does in it. *)
Variable grants : nat -> bool.
Variable func : nat -> call_result A.

Definition backoff (attempt : nat) : Q :=
  Qmin (base_delay * inject_Z (2 ^ Z.of_nat attempt)) max_retry_delay.

Definition acquire_timeout (attempt : nat) : Q :=
  match attempt with O => 30%Q | S _ => max_retry_delay end.

(** One attempt: [inl r] ends the loop, [inr delay] goes round after that sleep. *)
Definition attempt_step (attempt : nat) : (wrapper_result A + Q) * list wrapper_event :=
  let acquired := if github then [EvAcquire (acquire_timeout attempt) (grants attempt)] else [] in
  let outcome :=
    if github && negb (grants attempt) then RaisedRate "GitHub API rate limit exceeded"
    else func attempt in
  let called := if github && negb (grants attempt) then [] else [EvCall] in
  match outcome with
  | Returned v => (inl (WReturn v), acquired ++ called)
  | RaisedCost => (inl WCost, acquired ++ called)
  | RaisedRate _ =>
      if max_retries <=? attempt then (inl WRate, acquired ++ called)
      else (inr (backoff attempt), acquired ++ called ++ [EvSleep (backoff attempt)])
  | RaisedOther message =>
      if mentions_rate_limit message then
        if max_retries <=? attempt then (inl WRate, acquired ++ called ++ [EvError])
        else (inr (backoff attempt), acquired ++ called ++ [EvError; EvSleep (backoff attempt)])
      else (inl (WOther message), acquired ++ called)
  end.

(** [for attempt in range(max_retries + 1)] from an attempt on, [n] of them left. *)
Fixpoint attempts (n attempt : nat) : wrapper_result A * list wrapper_event :=
  match n with
  | O => (WNone, [])
  | S n' =>
      match attempt_step attempt with
      | (inl r, events) => (r, events)
      | (inr _, events) => let '(r, more) := attempts n' (S attempt) in (r, events ++ more)
      end
  end.

Definition async_wrapper : wrapper_result A * list wrapper_event := attempts (S max_retries) 0.
End Decorator.

(** The pre-flight check: what it raises, if anything. *)
Definition check_rate_limit (operation_type : string) (now now' : Q) (l : Limiter)
  : option string * Limiter :=
  if String.eqb operation_type "github" then
    let '(ok, b) := check_github_available now now' (lm_bucket l) in
    (if ok then None else Some "RateLimitExceeded",
     {| lm_bucket := b; lm_tracker := lm_tracker l; lm_max_retry_delay := lm_max_retry_delay l;
        lm_requests := lm_requests l; lm_rate_limited := lm_rate_limited l;
        lm_errors := lm_errors l |})
  else if String.eqb operation_type "cost" then
    (if check_cost_available (lm_tracker l) then None else Some "CostLimitExceeded", l)
  else (None, l).

(** ** Lemmas on the bucket *)

Definition bucket_ok (b : TokenBucket) : Prop :=
  (0 <= tb_refill_rate b /\ 0 <= tb_tokens b <= inject_Z (tb_capacity b))%Q.

Lemma Qmin_cases x y : ((Qmin x y == x /\ x <= y) \/ (Qmin x y == y /\ y <= x))%Q.
Proof.
  destruct (Qlt_le_dec x y) as [H|H].
  - left. split; [apply Q.min_l; lra | lra].
  - right. split; [by apply Q.min_r | done].
Qed.

Lemma refill_view now b :
  tb_capacity (_refill now b) = tb_capacity b
  /\ tb_refill_rate (_refill now b) = tb_refill_rate b
  /\ tb_last_refill (_refill now b) = now.
Proof. done. Qed.

Lemma refill_ok now b :
  bucket_ok b -> (tb_last_refill b <= now)%Q ->
  bucket_ok (_refill now b)
  /\ (tb_tokens (_refill now b) <= tb_tokens b + tb_refill_rate b * (now - tb_last_refill b))%Q.
Proof.
  unfold bucket_ok, _refill. cbn [tb_capacity tb_refill_rate tb_tokens with_tokens].
  intros (Hr & H0 & Hc) Ht.
  assert (0 <= (now - tb_last_refill b) * tb_refill_rate b)%Q by nra.
  destruct (Qmin_cases (inject_Z (tb_capacity b))
              (tb_tokens b + (now - tb_last_refill b) * tb_refill_rate b)) as [[-> H']|[-> H']];
    repeat split; lra.
Qed.

Lemma try_acquire_ok n now b g b' :
  try_acquire n now b = (g, b') -> bucket_ok b -> (0 <= n)%Z -> (tb_last_refill b <= now)%Q ->
  bucket_ok b' /\ tb_last_refill b' = now
  /\ tb_capacity b' = tb_capacity b /\ tb_refill_rate b' = tb_refill_rate b
  /\ ((if g then inject_Z n else 0) + tb_tokens b'
      <= tb_tokens b + tb_refill_rate b * (now - tb_last_refill b))%Q.
Proof.
  unfold try_acquire. intros E Hb Hn Ht. destruct (refill_ok now b Hb Ht) as [(Hr & H0 & Hc) Hle].
  destruct (Qle_bool (inject_Z n) (tb_tokens (_refill now b))) eqn:Eq; injection E as <- <-; qprop.
  - cbn. assert (0 <= inject_Z n)%Q by (change 0%Q with (inject_Z 0); by rewrite <- Zle_Qle).
    unfold bucket_ok. cbn in *. repeat split; lra.
  - cbn in *. unfold bucket_ok. cbn. repeat split; lra.
Qed.

(** A sequence of requests and the number of tokens granted. *)
Fixpoint requests (l : list (Z * Q)) (b : TokenBucket) : Z * TokenBucket :=
  match l with
  | [] => (0%Z, b)
  | (n, now) :: l' =>
      let '(g, b) := try_acquire n now b in
      let '(total, b) := requests l' b in
      ((if g then n else 0) + total, b)%Z
  end.

(** Readings of a clock that does not go back, from [t] on. *)
Fixpoint clock_forward (t : Q) (l : list (Z * Q)) : Prop :=
  match l with [] => True | (_, now) :: l' => (t <= now)%Q /\ clock_forward now l' end.

Lemma requests_bound l b total b' :
  requests l b = (total, b') -> bucket_ok b -> Forall (fun r => 0 <= r.1)%Z l ->
  clock_forward (tb_last_refill b) l ->
  bucket_ok b' /\ tb_capacity b' = tb_capacity b
  /\ (tb_last_refill b <= tb_last_refill b')%Q
  /\ (inject_Z total + tb_tokens b'
      <= tb_tokens b + tb_refill_rate b * (tb_last_refill b' - tb_last_refill b))%Q.
Proof.
  revert b total. induction l as [|[n now] l IH]; intros b total E Hb Hn Hc; cbn in E.
  - injection E as <- <-. split; [done|]. split; [done|]. split; [lra|].
    change (inject_Z 0) with 0%Q. nra.
  - destruct (try_acquire n now b) as [g b1] eqn:E1.
    destruct (requests l b1) as [total1 b2] eqn:E2. injection E as <- <-.
    apply Forall_cons in Hn as [Hn Hl]. destruct Hc as [Ht Hc].
    destruct (try_acquire_ok n now b g b1 E1 Hb Hn Ht) as (Hb1 & Hlast & Hcap & Hrate & Hle).
    rewrite <- Hlast in Hc.
    destruct (IH b1 total1 E2 Hb1 Hl Hc) as (Hb2 & Hcap2 & Ht2 & Hle2).
    rewrite Hlast in Ht2, Hle2. rewrite Hrate in Hle2. split; [done|]. split; [congruence|].
    split; [lra|]. rewrite inject_Z_plus.
    destruct g; cbn [inject_Z] in *; [|change (inject_Z 0) with 0%Q]; nra.
Qed.

(** ** Lemmas on waiting *)

(** The clock of [acquire]: it does not go back, and a sleep lasts at least as long as it
    was asked to. *)
Fixpoint slept (tokens : Z) (timeout : option Q) (start since : Q) (readings : list (Q * Q))
    (b : TokenBucket) : Prop :=
  match readings with
  | [] => True
  | (now, now') :: readings' =>
      (since <= now)%Q /\ (now <= now')%Q
      /\ let '(granted, b) := try_acquire tokens now b in
         if granted then True
         else if timed_out start now' timeout then True
         else slept tokens timeout start (now' + wait_time tokens b) readings' b
  end.

(** After a full sleep of less than the one-second cap, the tokens are there. *)
Lemma granted_after_wait n b now :
  (0 < tb_refill_rate b)%Q -> (n <= tb_capacity b)%Z ->
  (tb_last_refill b + (inject_Z n - tb_tokens b) / tb_refill_rate b <= now)%Q ->
  (try_acquire n now b).1 = true.
Proof.
  intros Hr Hc Ht. unfold try_acquire.
  destruct (Qle_bool (inject_Z n) (tb_tokens (_refill now b))) eqn:E; [done|]. exfalso. qprop.
  cbn in E. assert (inject_Z n <= inject_Z (tb_capacity b))%Q by by rewrite <- Zle_Qle.
  assert (Hd : ((inject_Z n - tb_tokens b) / tb_refill_rate b * tb_refill_rate b
                == inject_Z n - tb_tokens b)%Q) by (field; lra).
  assert ((inject_Z n - tb_tokens b) / tb_refill_rate b * tb_refill_rate b
          <= (now - tb_last_refill b) * tb_refill_rate b)%Q by (apply Qmult_le_compat_r; lra).
  destruct (Qmin_cases (inject_Z (tb_capacity b))
              (tb_tokens b + (now - tb_last_refill b) * tb_refill_rate b)) as [[Hm _]|[Hm _]];
    rewrite Hm in E; lra.
Qed.

Lemma try_acquire_keeps n now b :
  let b' := (try_acquire n now b).2 in
  tb_capacity b' = tb_capacity b /\ tb_refill_rate b' = tb_refill_rate b /\ tb_last_refill b' = now.
Proof. unfold try_acquire. by destruct (Qle_bool _ _). Qed.

Lemma acquire_first n timeout start now now' readings b :
  (try_acquire n now b).1 = true ->
  (acquire n timeout start ((now, now') :: readings) b).1 = Some true.
Proof. cbn [acquire]. destruct (try_acquire n now b) as [g b']. cbn. by intros ->. Qed.

Lemma turns_left k : (inject_Z (Z.of_nat (S k) - 2) == inject_Z (Z.of_nat k - 2) + 1)%Q.
Proof.
  change 1%Q with (inject_Z 1). rewrite <- inject_Z_plus.
  by replace (Z.of_nat (S k) - 2)%Z with (Z.of_nat k - 2 + 1)%Z by lia.
Qed.

Lemma acquire_ends n t start readings since b :
  (tb_refill_rate b <= 0)%Q \/ (n <= tb_capacity b)%Z ->
  readings <> [] ->
  (start + t <= since + inject_Z (Z.of_nat (length readings) - 2))%Q ->
  slept n (Some t) start since readings b ->
  exists r, (acquire n (Some t) start readings b).1 = Some r.
Proof.
  revert since b. induction readings as [|[now now'] readings IH]; intros since b Hcap Hne Ht Hs;
    [done|]. cbn [acquire slept length] in *. destruct Hs as (H1 & H2 & Hs).
  pose proof (try_acquire_keeps n now b) as (Kc & Kr & Kl).
  destruct (try_acquire n now b) as [g b1] eqn:E. cbn [snd] in Kc, Kr, Kl.
  destruct g; [by exists true|].
  destruct (timed_out start now' (Some t)) eqn:Eto; [by exists false|].
  cbn [timed_out] in Eto. qprop. destruct readings as [|[m m'] readings].
  { exfalso. change (inject_Z (Z.of_nat (S (length (@nil (Q * Q)))) - 2)) with (-1)%Q in Ht. lra. }
  destruct (Qle_bool (tb_refill_rate b1) 0) eqn:Er.
  - assert (Hw : wait_time n b1 = 1%Q) by (unfold wait_time; by rewrite Er). rewrite Hw in Hs.
    apply (IH (now' + 1)%Q); [by rewrite Kc, Kr|done| |done].
    rewrite turns_left in Ht. lra.
  - qprop. assert (Hn : (n <= tb_capacity b1)%Z) by (rewrite Kc; destruct Hcap; [rewrite Kr in Er; lra|done]).
    destruct (Qlt_le_dec ((inject_Z n - tb_tokens b1) / tb_refill_rate b1) 1) as [Hw|Hw].
    + exists true. apply acquire_first, granted_after_wait; [lra|done|].
      rewrite Kl. destruct Hs as (Hs & _). unfold wait_time in Hs.
      rewrite (proj2 (qle_false _ _) Er) in Hs. rewrite Q.min_l in Hs by lra. lra.
    + apply (IH (now' + wait_time n b1)%Q); [by rewrite Kc, Kr|done| |done].
      unfold wait_time. rewrite (proj2 (qle_false _ _) Er). rewrite Q.min_r by done.
      rewrite turns_left in Ht. lra.
Qed.

(** ** Lemmas on the budget *)

Fixpoint sum_costs (l : list Operation) : Q :=
  match l with [] => 0 | o :: l' => op_cost o + sum_costs l' end%Q.

Lemma sum_costs_app l k : (sum_costs (l ++ k) == sum_costs l + sum_costs k)%Q.
Proof. induction l as [|o l IH]; cbn [sum_costs app]; [lra|]. rewrite IH. lra. Qed.

(** A sequence of calls, their exceptions ignored. *)
Definition track (calls : list (string * Z * Z * string * string)) (t : CostTracker) : CostTracker :=
  foldl (fun t '(now, i, o, model, name) => (add_operation now i o model name t).2) t calls.

Definition tracker_ok (t : CostTracker) : Prop :=
  (ct_total_cost t <= ct_cost_limit t)%Q
  /\ (ct_total_cost t == sum_costs (ct_operations t))%Q.

Lemma add_operation_ok now i o model name t :
  tracker_ok t -> tracker_ok (add_operation now i o model name t).2
  /\ ct_cost_limit (add_operation now i o model name t).2 = ct_cost_limit t.
Proof.
  intros [H1 H2]. unfold add_operation, tracker_ok.
  destruct (qlt _ _) eqn:E; [done|]. qprop. cbn [snd ct_total_cost ct_cost_limit ct_operations].
  split; [|done]. split; [done|]. rewrite sum_costs_app, H2. cbn [sum_costs op_cost]. lra.
Qed.

Lemma track_ok calls t :
  tracker_ok t -> tracker_ok (track calls t) /\ ct_cost_limit (track calls t) = ct_cost_limit t.
Proof.
  unfold track. revert t. induction calls as [|[[[[now i] o] model] name] calls IH]; intros t H; [done|].
  cbn [foldl]. destruct (add_operation_ok now i o model name t H) as [H' E].
  destruct (IH _ H') as [H'' E']. split; [done|]. by rewrite E', E.
Qed.

(** ** Lemmas on the decorator *)

(** What an attempt amounts to: a final result, or a rate limit that is retried. *)
Definition verdict_of {A} (github : bool) (grants : nat -> bool) (func : nat -> call_result A)
    (i : nat) : option (wrapper_result A) :=
  if github && negb (grants i) then None
  else match func i with
       | Returned v => Some (WReturn v)
       | RaisedCost => Some WCost
       | RaisedRate _ => None
       | RaisedOther m => if mentions_rate_limit m then None else Some (WOther m)
       end.

Definition is_call (e : wrapper_event) : bool := match e with EvCall => true | _ => false end.
Definition is_sleep (e : wrapper_event) : bool := match e with EvSleep _ => true | _ => false end.
Definition is_grant (e : wrapper_event) : bool :=
  match e with EvAcquire _ true => true | _ => false end.

(** An event within the limits of the decorator. *)
Definition event_ok (github : bool) (base_delay max_retry_delay : Q) (e : wrapper_event) : Prop :=
  match e with
  | EvSleep d => (d <= max_retry_delay)%Q
  | EvAcquire timeout _ => timeout = 30%Q \/ timeout = max_retry_delay
  | _ => True
  end.

Section DecoratorFacts.
Context {A : Type} (github : bool) (max_retries : nat) (base_delay max_retry_delay : Q).
Context (grants : nat -> bool) (func : nat -> call_result A).

Abbreviation step := (attempt_step github max_retries base_delay max_retry_delay grants func).
Abbreviation go := (attempts github max_retries base_delay max_retry_delay grants func).
Abbreviation verdict := (verdict_of github grants func).

Lemma step_verdict i :
  (step i).1 = match verdict i with
               | Some r => inl r
               | None => if max_retries <=? i then inl WRate
                         else inr (backoff base_delay max_retry_delay i)
               end.
Proof.
  unfold attempt_step, verdict_of. destruct (github && negb (grants i)).
  - by destruct (max_retries <=? i).
  - destruct (func i) as [v| |m|m]; cbn; try done; [by destruct (max_retries <=? i)|].
    destruct (mentions_rate_limit m); [|done]. by destruct (max_retries <=? i).
Qed.

Lemma step_events i :
  countb is_call (step i).2 <= 1
  /\ (github = true -> countb is_call (step i).2 = countb is_grant (step i).2)
  /\ countb is_sleep (step i).2 = (match (step i).1 with inl _ => 0 | inr _ => 1 end)
  /\ Forall (event_ok github base_delay max_retry_delay) (step i).2.
Proof.
  unfold attempt_step, acquire_timeout.
  assert (Hb : (backoff base_delay max_retry_delay i <= max_retry_delay)%Q)
    by (unfold backoff; apply Q.le_min_r).
  destruct github, (grants i), i, (func _) as [v| |m|m]; cbn [andb negb app];
    try destruct (mentions_rate_limit m); try destruct (max_retries <=? _);
    cbn; repeat split; try lia; try discriminate;
    repeat (constructor; [first [exact Hb | by left | by right | exact I]|]); constructor.
Qed.

(** From attempt [i], with [n] attempts of the loop left and none beyond the last. *)
Lemma retries_spec n i :
  i + n = S max_retries -> 0 < n ->
  exists k, i <= k <= max_retries
    /\ (forall j, i <= j < k -> verdict j = None)
    /\ (verdict k = Some (go n i).1
        \/ (k = max_retries /\ verdict k = None /\ (go n i).1 = WRate))
    /\ countb is_call (go n i).2 <= S k - i
    /\ countb is_sleep (go n i).2 = k - i
    /\ (github = true -> countb is_call (go n i).2 = countb is_grant (go n i).2)
    /\ Forall (event_ok github base_delay max_retry_delay) (go n i).2.
Proof.
  revert i. induction n as [|n IH]; intros i Hi Hn; [lia|]. cbn [attempts].
  pose proof (step_verdict i) as V. destruct (step_events i) as (E1 & E2 & E3 & E4).
  destruct (step i) as [[r|d] events]; cbn [fst snd] in *.
  - exists i. destruct (verdict i) as [r'|].
    + injection V as ->. repeat (split; [first [lia|tauto]|]). done.
    + destruct (max_retries <=? i) eqn:Em; [|discriminate]. apply Nat.leb_le in Em.
      injection V as ->. split; [lia|]. split; [lia|]. split; [right; split; [lia|done]|].
      split; [lia|]. split; [lia|]. done.
  - destruct (verdict i) as [r'|] eqn:Vi; [discriminate|].
    destruct (max_retries <=? i) eqn:Em; [discriminate|]. apply Nat.leb_gt in Em.
    destruct (IH (S i)) as (k & Hk & Hj & Hr & H1 & H2 & H3 & H4); [lia|lia|].
    destruct (go n (S i)) as [r more]. cbn [fst snd] in *. rewrite !countb_app.
    exists k. split; [lia|]. split.
    { intros j Hj'. destruct (decide (j = i)) as [->|]; [done|]. apply Hj. lia. }
    split; [done|]. split; [lia|]. split; [lia|]. split; [|by apply Forall_app].
    intros Hg. rewrite E2, H3 by done. done.
Qed.
End DecoratorFacts.

(** ** Properties *)


(** Waiting for a token ends.  With a timeout of [t] seconds, on a clock
    that does not go back and with sleeps that last as long as they are asked to, [acquire]
    has its answer after at most [t + 2] turns, whether the bucket refills or is a hard cap
    that never does, provided the tokens wanted fit into a bucket that refills. *)
Theorem acquire_terminates (tokens : Z) (t start : Q) (readings : list (Q * Q)) (b : TokenBucket) :
  (tb_refill_rate b <= 0)%Q \/ (tokens <= tb_capacity b)%Z ->
  readings <> [] -> (t + 2 <= inject_Z (Z.of_nat (length readings)))%Q ->
  slept tokens (Some t) start start readings b ->
  exists r, (acquire tokens (Some t) start readings b).1 = Some r.
Proof.
  intros Hcap Hne Hlen Hs. apply (acquire_ends tokens t start readings start b Hcap Hne); [|done].
  rewrite <- Z.add_opp_r, inject_Z_plus. change (inject_Z (- (2))) with (-2)%Q. lra.
Qed.

(** The AI budget is never exceeded.  Whatever calls are tracked, the total
    stays within the limit and is the sum of the recorded operations; a call that would
    exceed it raises and records nothing. *)
Theorem cost_within_budget (limit : Q) (calls : list (string * Z * Z * string * string)) :
  (0 <= limit)%Q ->
  let t := track calls (new_tracker limit) in
  (ct_total_cost t <= limit)%Q
  /\ (ct_total_cost t == sum_costs (ct_operations t))%Q
  /\ forall now i o model name,
       ((limit < ct_total_cost t + calculate_cost i o model)%Q
        <-> (add_operation now i o model name t).1 = Err (AppError "CostLimitExceeded"))
       /\ ((limit < ct_total_cost t + calculate_cost i o model)%Q ->
           (add_operation now i o model name t).2 = t).
Proof.
  intros Hl t. destruct (track_ok calls (new_tracker limit)) as [[H1 H2] H3].
  { split; cbn; lra. }
  fold t in H1, H2, H3. cbn in H3. rewrite H3 in H1. do 2 (split; [done|]).
  intros now i o model name. unfold add_operation. rewrite H3.
  destruct (qlt _ _) eqn:E; qprop; cbn [fst snd]; (split; [split|]); intros H; try done.
  - exfalso. lra.
  - exfalso. lra.
Qed.

(** A decorated call is retried a bounded number of times.  There is an
    attempt [k] up to [max_retries] such that every earlier attempt hit a rate limit, and
    the wrapper ends with what attempt [k] decided, or, when the last attempt too hit the
    limit, with RateLimitExceeded; it never ends without an attempt.  The function is
    called at most [k + 1] times, each call of a GitHub operation after a token was
    granted, with [k] sleeps between, none longer than the maximal delay. *)
Theorem decorated_call_is_bounded {A} (github : bool) (max_retries : nat)
    (base_delay max_retry_delay : Q) (grants : nat -> bool) (func : nat -> call_result A) :
  let '(r, events) :=
    async_wrapper github max_retries base_delay max_retry_delay grants func in
  exists k, k <= max_retries
    /\ (forall j, j < k -> verdict_of github grants func j = None)
    /\ (verdict_of github grants func k = Some r
        \/ (k = max_retries /\ verdict_of github grants func k = None /\ r = WRate))
    /\ countb is_call events <= S k
    /\ countb is_sleep events = k
    /\ (github = true -> countb is_call events = countb is_grant events)
    /\ Forall (event_ok github base_delay max_retry_delay) events.
Proof.
  unfold async_wrapper.
  destruct (retries_spec github max_retries base_delay max_retry_delay grants func
              (S max_retries) 0) as (k & Hk & Hj & Hr & H1 & H2 & H3 & H4); [lia|lia|].
  destruct (attempts _ _ _ _ _ _ _ _) as [r events]. cbn [fst snd] in *.
  exists k. split; [lia|]. split; [intros j Hlt; apply Hj; lia|]. split; [done|].
  split; [lia|]. split; [lia|]. done.
Qed.

(** ** Behaviours worth knowing *)

(** An object constructed directly takes the flag: the instance made afterwards has no
    attributes, and every method on it raises. *)
Lemma direct_construction_spoils_instance now now' c c' :
  let '(_, k) := construct now c fresh_class in
  let '(i, k') := get_instance now' c' k in
  on_object i k' (acquire_github None now' []) = Err AttributeError.
Proof. reflexivity. Qed.

(** Through [get_instance] alone the instance is one object, with the first configuration. *)
Lemma instance_is_shared now now' c c' k i k1 :
  cl_initialized k = false -> cl_instance k = None -> get_instance now c k = (i, k1) ->
  get_instance now' c' k1 = (i, k1) /\ is_ok (on_object i k1 lm_requests) = true.
Proof.
  unfold get_instance, construct. intros H1 H2 E. rewrite H2, H1 in E. cbn in E.
  injection E as <- <-. cbn. split; [done|]. unfold on_object. cbn.
  rewrite lookup_app_r by done. by rewrite Nat.sub_diag.
Qed.

(** Any message that holds the digits 403 is retried as a rate limit. *)
Lemma issue_number_is_a_rate_limit :
  mentions_rate_limit "Issue 14035 not found" = true.
Proof. reflexivity. Qed.

(** ** Witnesses *)

Definition example_bucket : TokenBucket := new_bucket 2 (1 # 2) 0.

Lemma example_bucket_ok : bucket_ok example_bucket.
Proof. unfold bucket_ok, example_bucket. cbn. change (inject_Z 2) with 2%Q. repeat split; lra. Qed.


Lemma acquire_terminates_witness :
  exists r, (acquire 1 (Some 1%Q) 0 [(0, 0); (1, 1); (2, 2)]%Q (new_bucket 0 0 0)).1 = Some r.
Proof.
  apply (acquire_terminates 1 1 0 [(0, 0); (1, 1); (2, 2)]%Q (new_bucket 0 0 0)).
  - left. cbn. lra.
  - discriminate.
  - vm_compute. discriminate.
  - vm_compute. repeat split; discriminate.
Defined.

Lemma cost_within_budget_witness :
  (ct_total_cost (track [("t", 1000000, 0, "claude-opus-4-20250514", "review")]%Z
                    (new_tracker 10)) <= 10)%Q.
Proof.
  destruct (cost_within_budget 10 [("t", 1000000, 0, "claude-opus-4-20250514", "review")]%Z) as [H _];
    [lra | exact H].
Defined.
