(* ===== verification/Budget.v ===== *)
(** The cost router and the budget gate (apps/backend/core/cost_router_core.py and
    core/budget_enforcement.py): capability floors, the cheapest capable model, admission,
    and the decision whether a build may start under its cost ceiling.

    Dollar amounts, floats in the code, are rationals; [fmt] stands for the formatting of
    an amount in a message. *)
From Stdlib Require Import QArith Qminmax Lqa.
From S2P Require Import Prelude RateLimiter.

#[local] Arguments Qplus : simpl never.
#[local] Arguments Qmult : simpl never.
#[local] Arguments Qdiv : simpl never.
#[local] Arguments inject_Z : simpl never.
#[local] Arguments Qle_bool : simpl never.
#[local] Arguments qlt : simpl never.

(** ** The contract block: JSON with numbers *)

Inductive cval :=
  | CNone
  | CBool (b : bool)
  | CNum (q : Q)
  | CStr (s : string)
  | CList (l : list cval)
  | CDict (d : list (string * cval)).

Abbreviation cdict := (list (string * cval)).

Fixpoint cget {A} (k : string) (d : list (string * A)) : option A :=
  match d with
  | [] => None
  | (k', v) :: d' => if String.eqb k k' then Some v else cget k d'
  end.

(** [d[k] = v] for a key that is not there yet, else in place. *)
Fixpoint cset {A} (k : string) (v : A) (d : list (string * A)) : list (string * A) :=
  match d with
  | [] => [(k, v)]
  | (k', v') :: d' => if String.eqb k k' then (k', v) :: d' else (k', v') :: cset k v d'
  end.

(** ** The catalog (cost_router_core.py) *)

Record Price := { pr_mode : string; pr_in_per_mtok : Q; pr_out_per_mtok : Q }.

(** A row; [me_price] is None when there is no price object. *)
Record ModelEntry := { me_class : string; me_roles : list string; me_price : option Price }.

Abbreviation catalog := (list (string * ModelEntry)).

Definition _CLASS_RANK : list (string * Z) :=
  [("local", 0); ("cheap", 1); ("balanced", 2); ("subscription", 2); ("frontier", 3)]%Z.

Definition _TIER_FLOOR : list (string * string) :=
  [("low", "cheap"); ("medium", "balanced"); ("hard", "frontier")].

Definition class_rank (dflt : Z) (c : string) : Z := default dflt (cget c _CLASS_RANK).

Definition model_cost (e : ModelEntry) (in_tokens out_tokens : Z) : option Q :=
  match me_price e with
  | Some p =>
      if String.eqb (pr_mode p) "metered"
      then Some (inject_Z in_tokens / 1000000 * pr_in_per_mtok p
                 + inject_Z out_tokens / 1000000 * pr_out_per_mtok p)%Q
      else None
  | None => None
  end.

Definition estimate_cost (model : string) (in_tokens out_tokens : Z) (c : catalog) : option Q :=
  match cget model c with Some e => model_cost e in_tokens out_tokens | None => None end.

Definition capability_floor_class (tier : string) : string :=
  default "balanced" (cget tier _TIER_FLOOR).

Definition _meets_floor (e : ModelEntry) (floor_class : string) : bool :=
  (class_rank 2 floor_class <=? class_rank (-1) (me_class e))%Z.

Definition _serves_role (e : ModelEntry) (role : string) : bool :=
  existsb (String.eqb role) (me_roles e).

Definition _under_ceiling (cost ceiling : option Q) : bool :=
  match ceiling, cost with Some c, Some x => Qle_bool x c | _, _ => true end.

(** The cost a model is sorted by: without an estimate it is free. *)
Definition cost_or_zero (cost : option Q) : Q := default 0%Q cost.

(** The order of the sort keys: cost, then class, then id. *)
Definition key_le (in_tokens out_tokens : Z) (a b : string * ModelEntry) : bool :=
  let ca := cost_or_zero (model_cost a.2 in_tokens out_tokens) in
  let cb := cost_or_zero (model_cost b.2 in_tokens out_tokens) in
  if qlt ca cb then true
  else if qlt cb ca then false
  else
    let ra := class_rank 99 (me_class a.2) in
    let rb := class_rank 99 (me_class b.2) in
    if (ra <? rb)%Z then true
    else if (rb <? ra)%Z then false
    else String.leb a.1 b.1.

Definition candidates (role floor_class : string) (ceiling : option Q) (est : Z * Z) (c : catalog)
  : catalog :=
  keep (fun item =>
    _serves_role item.2 role && _meets_floor item.2 floor_class
    && _under_ceiling (model_cost item.2 est.1 est.2) ceiling) c.

Definition cheapest_capable_model (role floor_class : string) (ceiling : option Q)
    (est : Z * Z) (c : catalog) : option string :=
  match sort_by (key_le est.1 est.2) (candidates role floor_class ceiling est c) with
  | [] => None
  | (mid, _) :: _ => Some mid
  end.

Definition planning_floor_class (tier routing_class : string) : string :=
  let base := capability_floor_class tier in
  if String.eqb routing_class "governed"
  then if (class_rank 0 base <? 3)%Z then "frontier" else base
  else base.

(** What a control plane does with one more job. *)
Inductive admission := Queue | Deny | Admit.

Definition admit_within_budget (active_jobs : Z) (max_concurrency : option Z)
    (tenant_spend : Q) (ceiling est_job_cost : option Q) : admission :=
  let full :=
    match max_concurrency with
    | Some m => (0 <? m)%Z && (m <=? active_jobs)%Z
    | None => false
    end in
  if full then Queue
  else
    match ceiling, est_job_cost with
    | Some c, Some e => if qlt c (tenant_spend + e) then Deny else Admit
    | _, _ => Admit
    end.

(** ** Reading the contract (budget_enforcement.py) *)

Definition _PRICED_ROLES : list string := ["planning"; "coding"; "qa"; "test_gen"].

Definition _ROLE_TOKENS : list (string * (Z * Z)) :=
  [("planning", (60000, 40000)); ("coding", (120000, 120000)); ("qa", (60000, 30000));
   ("test_gen", (60000, 60000))]%Z.

Definition role_tokens (role : string) : Z * Z := default (50000, 50000)%Z (cget role _ROLE_TOKENS).

Inductive BudgetMode := Observe | Enforce.

Definition parse_budget_mode (execution : cdict) : BudgetMode :=
  match cget "budget_mode" execution with
  | Some (CStr s) => if String.eqb s "enforce" then Enforce else Observe
  | _ => Observe
  end.

Definition _routing (execution : cdict) : cdict :=
  match cget "routing" execution with Some (CDict r) => r | _ => [] end.

(** [isinstance(val, (int, float))]: a bool is an int. *)
Definition number (v : option cval) : option Q :=
  match v with
  | Some (CNum q) => Some q
  | Some (CBool b) => Some (if b then 1 else 0)%Q
  | _ => None
  end.

Definition cost_ceiling_usd (execution : cdict) : option Q :=
  match number (cget "cost_ceiling_usd" (_routing execution)) with
  | Some q => Some q
  | None => number (cget "budget_usd" execution)
  end.

Definition nonempty_str (v : option cval) : option string :=
  match v with Some (CStr s) => if is_empty s then None else Some s | _ => None end.

Definition routing_class (execution : cdict) : string :=
  default "standard" (nonempty_str (cget "class" (_routing execution))).

Definition difficulty_tier (execution : cdict) : string :=
  match nonempty_str (cget "difficulty" (_routing execution)) with
  | Some s => s
  | None =>
      match nonempty_str (cget "difficulty" execution) with
      | Some s => s
      | None => default "medium" (nonempty_str (cget "complexity" execution))
      end
  end.

Definition _phase_models (execution : cdict) : list (string * string) :=
  match cget "phase_models" execution with
  | Some (CDict raw) =>
      omap (fun kv => match kv.2 with CStr m => Some (kv.1, m) | _ => None end) raw
  | _ => []
  end.

Definition _SHORTHAND_TO_CATALOG : list (string * string) :=
  [("opus", "claude-opus-5-5"); ("sonnet", "claude-sonnet-5");
   ("haiku", "claude-haiku-4-5-20251001")].

Definition _catalog_id (model : string) : string :=
  let name := strip model in
  match cget name _SHORTHAND_TO_CATALOG with
  | Some id => id
  | None =>
      if startswith "ollama:" name then "ollama:<model>"
      else if startswith "ollama-cloud:" name then "ollama-cloud:<model>"
      else name
  end.

(** [x if total is None else total + x] *)
Definition add_cost (total cost : option Q) : option Q :=
  match cost with
  | None => total
  | Some c => match total with None => Some c | Some t => Some (t + c)%Q end
  end.

Definition role_cost (role model : string) (c : catalog) : option Q :=
  let '(in_tok, out_tok) := role_tokens role in
  estimate_cost (_catalog_id model) in_tok out_tok c.

Fixpoint estimate_roles (roles : list string) (phase_models : list (string * string))
    (c : catalog) (total : option Q) (per_role : list (string * option Q))
  : option Q * list (string * option Q) :=
  match roles with
  | [] => (total, per_role)
  | role :: roles' =>
      match cget role phase_models with
      | None => estimate_roles roles' phase_models c total per_role
      | Some model =>
          let cost := role_cost role model c in
          estimate_roles roles' phase_models c (add_cost total cost) (per_role ++ [(role, cost)])
      end
  end.

Definition estimate_models (phase_models : list (string * string)) (c : catalog)
  : option Q * list (string * option Q) :=
  estimate_roles _PRICED_ROLES phase_models c None [].

Definition estimate_build_cost (execution : cdict) (c : catalog)
  : option Q * list (string * option Q) :=
  estimate_models (_phase_models execution) c.

(** ** The decision *)

Inductive outcome := OBSERVE | WITHIN_BUDGET | DOWNGRADED | FAIL_FAST.

Record BudgetDecision := {
  bd_proceed : bool;
  bd_outcome : outcome;
  bd_mode : BudgetMode;
  bd_reason : string;
  bd_estimate : option Q;
  bd_ceiling : option Q;
  bd_phase_models : list (string * string);
  bd_per_role : list (string * option Q);
}.

Definition role_floor (role tier cls : string) : string :=
  if String.eqb role "planning" then planning_floor_class tier cls else capability_floor_class tier.

Fixpoint downgrade_roles (roles : list string) (tier cls : string)
    (current : list (string * string)) (c : catalog) (out : list (string * string))
  : option (list (string * string)) :=
  match roles with
  | [] => Some out
  | role :: roles' =>
      match cget role current with
      | None => downgrade_roles roles' tier cls current c out
      | Some _ =>
          match cheapest_capable_model role (role_floor role tier cls) None (role_tokens role) c with
          | None => None
          | Some pick => downgrade_roles roles' tier cls current c (cset role pick out)
          end
      end
  end.

Definition _downgrade_within_floor (execution : cdict) (c : catalog)
  : option (list (string * string)) :=
  downgrade_roles _PRICED_ROLES (difficulty_tier execution) (routing_class execution)
    (_phase_models execution) c [].

Section Decision.
Variable fmt : Q -> string.

Definition _fmt (value : option Q) : string :=
  match value with None => "n/a" | Some q => fmt q end.

Definition decision (proceed : bool) (o : outcome) (mode : BudgetMode) (reason : string)
    (estimate ceiling : option Q) (models : list (string * string))
    (per_role : list (string * option Q)) : BudgetDecision :=
  {| bd_proceed := proceed; bd_outcome := o; bd_mode := mode; bd_reason := reason;
     bd_estimate := estimate; bd_ceiling := ceiling; bd_phase_models := models;
     bd_per_role := per_role |}.

(** [estimate <= ceiling] when both are numbers, else true. *)
Definition fits (estimate ceiling : option Q) : bool :=
  match ceiling, estimate with Some c, Some e => Qle_bool e c | _, _ => true end.

(** [execution] is None when the argument is not a dictionary. *)
Definition enforce_budget (execution : option cdict) (c : catalog) : BudgetDecision :=
  let execution := default [] execution in
  let mode := parse_budget_mode execution in
  let ceiling := cost_ceiling_usd execution in
  let '(estimate, per_role) := estimate_build_cost execution c in
  let current_models := _phase_models execution in
  match mode with
  | Observe =>
      decision true OBSERVE mode "budget_mode=observe (informational); build proceeds"
        estimate ceiling current_models per_role
  | Enforce =>
      if fits estimate ceiling then
        decision true WITHIN_BUDGET mode
          (match ceiling with
           | Some _ => "estimate " +:+ _fmt estimate +:+ " within ceiling " +:+ _fmt ceiling
           | None => "no cost ceiling set; build proceeds"
           end) estimate ceiling current_models per_role
      else if String.eqb (routing_class execution) "governed" then
        decision false FAIL_FAST mode
          ("governed task estimate " +:+ _fmt estimate +:+ " exceeds ceiling " +:+ _fmt ceiling
           +:+ "; refusing to degrade a governed task below its capability floor (RFC-0014 "
           +:+ String (ascii_of_nat 167) "7)")
          estimate ceiling current_models per_role
      else
        match _downgrade_within_floor execution c with
        | None =>
            decision false FAIL_FAST mode
              ("estimate " +:+ _fmt estimate +:+ " exceeds ceiling " +:+ _fmt ceiling
               +:+ " and no catalog model meets the capability floor for every role")
              estimate ceiling current_models per_role
        | Some downgraded =>
            let '(new_estimate, new_per_role) := estimate_models downgraded c in
            if negb (fits new_estimate ceiling) then
              decision false FAIL_FAST mode
                ("floor-respecting selection still " +:+ _fmt new_estimate +:+ " > ceiling "
                 +:+ _fmt ceiling
                 +:+ "; failing fast rather than dropping below the capability floor")
                new_estimate ceiling downgraded new_per_role
            else
              decision true DOWNGRADED mode
                ("downgraded within capability floor: estimate " +:+ _fmt estimate +:+ " -> "
                 +:+ _fmt new_estimate +:+ " under ceiling " +:+ _fmt ceiling)
                new_estimate ceiling downgraded new_per_role
        end
  end.
End Decision.

(** ** Lemmas on dictionaries *)

Lemma cget_cset {A} k k' (v : A) d :
  cget k (cset k' v d) = if String.eqb k k' then Some v else cget k d.
Proof.
  induction d as [|[k0 v0] d IH]; cbn; [done|].
  destruct (String.eqb_spec k' k0) as [<-|Hne]; cbn.
  - by destruct (String.eqb_spec k k').
  - destruct (String.eqb_spec k k0) as [->|]; [|done].
    destruct (String.eqb_spec k0 k'); congruence.
Qed.

Lemma cget_elem {A} k (v : A) d : cget k d = Some v -> (k, v) ∈ d.
Proof.
  induction d as [|[k0 v0] d IH]; cbn; [done|]. destruct (String.eqb_spec k k0) as [->|].
  - intros E. injection E as ->. apply list_elem_of_here.
  - intros E. by apply list_elem_of_further, IH.
Qed.

Lemma elem_cget {A} k (v : A) (d : list (string * A)) :
  NoDup d.*1 -> (k, v) ∈ d -> cget k d = Some v.
Proof.
  induction d as [|[k0 v0] d IH]; cbn; intros Hnd H; [by apply elem_of_nil in H|].
  apply NoDup_cons in Hnd as [Hn Hnd]. apply elem_of_cons in H as [E|H].
  - injection E as -> ->. by rewrite String.eqb_refl.
  - destruct (String.eqb_spec k k0) as [->|]; [|by apply IH].
    exfalso. apply Hn. change k0 with ((k0, v).1). by apply list_elem_of_fmap_2.
Qed.

(** ** Lemmas on the cheapest model *)

Section cheapest.
Context (i o : Z).

Abbreviation cost x := (cost_or_zero (model_cost x.2 i o)).
Abbreviation rank x := (class_rank 99 (me_class x.2)).

(** The sort order, as a proposition. *)
Lemma key_le_spec a b :
  key_le i o a b = true <->
  (cost a < cost b)%Q
  \/ ((cost a == cost b)%Q /\ ((rank a < rank b)%Z \/ (rank a = rank b /\ String.leb a.1 b.1 = true))).
Proof.
  unfold key_le. destruct (qlt (cost a) (cost b)) eqn:E1; qprop; [tauto|].
  destruct (qlt (cost b) (cost a)) eqn:E2; qprop.
  { split; [done|]. intros [H|[H _]]; exfalso; lra. }
  assert (Eq : (cost a == cost b)%Q) by lra.
  destruct (rank a <? rank b)%Z eqn:E3; bprop; [tauto|].
  destruct (rank b <? rank a)%Z eqn:E4; bprop.
  - split; [done|]. intros [H|[_ [H|[H _]]]]; [exfalso; lra|lia|lia].
  - assert (rank a = rank b) by lia. split; [tauto|].
    intros [H'|[_ [H'|[_ H']]]]; [exfalso; lra|lia|done].
Qed.

Lemma key_le_trans a b c : key_le i o a b = true -> key_le i o b c = true -> key_le i o a c = true.
Proof.
  rewrite !key_le_spec. intros [H1|[H1 H1']] [H2|[H2 H2']]; try (left; lra). right.
  split; [lra|]. destruct H1' as [?|[? ?]], H2' as [?|[? ?]]; try (left; lia).
  right. split; [lia|]. by eapply string_leb_trans.
Qed.

Lemma key_le_total a b : key_le i o a b = false -> key_le i o b a = true.
Proof.
  intros H. rewrite key_le_spec.
  destruct (qlt (cost b) (cost a)) eqn:E2; qprop; [by left|]. right.
  destruct (qlt (cost a) (cost b)) eqn:E1; [unfold key_le in H; by rewrite E1 in H|]. qprop.
  split; [lra|]. destruct (rank b <? rank a)%Z eqn:E4; bprop; [by left|]. right.
  unfold key_le in H. rewrite (proj2 (qlt_false _ _) E1) in H.
  rewrite (proj2 (qlt_false _ _) E2) in H.
  destruct (rank a <? rank b)%Z eqn:E3; [done|]. bprop.
  rewrite (proj2 (Z.ltb_ge _ _) E4) in H. split; [lia|]. by apply string_leb_total.
Qed.

Lemma key_le_cost a b : key_le i o a b = true -> (cost a <= cost b)%Q.
Proof. rewrite key_le_spec. intros [H|[H _]]; lra. Qed.

(** The pick serves the role at the floor, and nothing that does is cheaper. *)
Lemma cheapest_spec role floor_class c :
  match cheapest_capable_model role floor_class None (i, o) c with
  | Some mid =>
      exists e, (mid, e) ∈ c /\ _serves_role e role = true /\ _meets_floor e floor_class = true
        /\ forall x, x ∈ c -> _serves_role x.2 role = true -> _meets_floor x.2 floor_class = true ->
             (cost (mid, e) <= cost x)%Q
  | None => forall x, x ∈ c -> _serves_role x.2 role && _meets_floor x.2 floor_class = false
  end.
Proof.
  unfold cheapest_capable_model. cbn [fst snd].
  pose proof (sort_by_sorted (key_le i o) key_le_trans key_le_total
                (candidates role floor_class None (i, o) c)) as Hs.
  pose proof (sort_by_perm (key_le i o) (candidates role floor_class None (i, o) c)) as Hp.
  assert (Hc : forall x, x ∈ candidates role floor_class None (i, o) c <->
            x ∈ c /\ _serves_role x.2 role && _meets_floor x.2 floor_class = true).
  { intros x. unfold candidates. rewrite elem_of_keep. cbn. by rewrite andb_true_r. }
  destruct (sort_by _ _) as [|[mid e] l].
  - intros x Hx. destruct (_ && _) eqn:E; [|done]. exfalso.
    assert (x ∈ candidates role floor_class None (i, o) c) as H by by apply Hc.
    rewrite <- Hp in H. by apply elem_of_nil in H.
  - assert ((mid, e) ∈ candidates role floor_class None (i, o) c) as H
      by (rewrite <- Hp; apply list_elem_of_here).
    apply Hc in H as [Hin H]. apply andb_true_iff in H as [H1 H2].
    exists e. do 3 (split; [done|]). intros x Hx Hr Hf.
    assert (x ∈ candidates role floor_class None (i, o) c) as Hxc
      by (apply Hc; by rewrite Hr, Hf).
    rewrite <- Hp in Hxc. apply elem_of_cons in Hxc as [->|Hxc]; [apply Qle_refl|].
    apply StronglySorted_inv in Hs as [_ Hs]. rewrite Forall_forall in Hs.
    by apply (key_le_cost (mid, e) x), Hs.
Qed.
End cheapest.

(** ** Lemmas on totals and on the downgrade *)

Lemma add_cost_zero t x : (cost_or_zero (add_cost t x) == cost_or_zero t + cost_or_zero x)%Q.
Proof. destruct t, x; cbn; lra. Qed.

(** What a map of models costs a role: nothing when the role is not in it. *)
Definition role_total (c : catalog) (m : list (string * string)) (role : string) : Q :=
  match cget role m with Some model => cost_or_zero (role_cost role model c) | None => 0%Q end.

Fixpoint sum_roles (c : catalog) (m : list (string * string)) (roles : list string) : Q :=
  match roles with [] => 0 | r :: roles' => role_total c m r + sum_roles c m roles' end%Q.

Lemma estimate_roles_total roles m c t pr :
  (cost_or_zero (estimate_roles roles m c t pr).1 == cost_or_zero t + sum_roles c m roles)%Q.
Proof.
  revert t pr. induction roles as [|r roles IH]; intros t pr; cbn [estimate_roles sum_roles].
  - cbn [fst]. lra.
  - unfold role_total. destruct (cget r m) as [model|]; rewrite IH; [rewrite add_cost_zero|]; lra.
Qed.

Lemma sum_roles_le c m m' roles :
  (forall r, r ∈ roles -> role_total c m r <= role_total c m' r)%Q ->
  (sum_roles c m roles <= sum_roles c m' roles)%Q.
Proof.
  induction roles as [|r roles IH]; intros H; cbn [sum_roles]; [lra|].
  pose proof (H r (list_elem_of_here _ _)).
  assert (sum_roles c m roles <= sum_roles c m' roles)%Q by (apply IH; intros; apply H; by apply list_elem_of_further).
  lra.
Qed.

(** The map the downgrade builds, role by role. *)
Lemma downgrade_lookup roles tier cls current c out res r :
  downgrade_roles roles tier cls current c out = Some res ->
  cget r res =
  if existsb (String.eqb r) roles && match cget r current with Some _ => true | None => false end
  then cheapest_capable_model r (role_floor r tier cls) None (role_tokens r) c
  else cget r out.
Proof.
  revert out. induction roles as [|r0 roles IH]; intros out H; cbn [downgrade_roles] in H;
    [by injection H as ->|].
  cbn [existsb]. destruct (cget r0 current) eqn:E0.
  - destruct (cheapest_capable_model r0 _ None _ c) as [pick|] eqn:Ep; [|done].
    rewrite (IH _ H), cget_cset. destruct (String.eqb_spec r r0) as [->|]; [|done].
    rewrite E0, Ep. cbn. by destruct (existsb _ roles).
  - rewrite (IH _ H). destruct (String.eqb_spec r r0) as [->|]; [|done].
    rewrite E0. by rewrite !andb_false_r.
Qed.

Lemma downgrade_none roles tier cls current c out :
  downgrade_roles roles tier cls current c out = None ->
  exists r, r ∈ roles /\ cget r current <> None
    /\ cheapest_capable_model r (role_floor r tier cls) None (role_tokens r) c = None.
Proof.
  revert out. induction roles as [|r0 roles IH]; intros out H; cbn [downgrade_roles] in H; [done|].
  destruct (cget r0 current) eqn:E0.
  - destruct (cheapest_capable_model r0 _ None _ c) eqn:Ep.
    + destruct (IH _ H) as (r & Hr & H'). exists r. split; [by apply list_elem_of_further | done].
    + exists r0. split; [apply list_elem_of_here|]. by rewrite E0.
  - destruct (IH _ H) as (r & Hr & H'). exists r. split; [by apply list_elem_of_further | done].
Qed.

(** The ids of a catalog are its keys and are what [_catalog_id] leaves alone. *)
Definition catalog_ok (c : catalog) : Prop :=
  NoDup c.*1 /\ forall x, x ∈ c -> _catalog_id x.1 = x.1.

Lemma role_cost_catalog c role mid e :
  catalog_ok c -> (mid, e) ∈ c ->
  role_cost role mid c = model_cost e (role_tokens role).1 (role_tokens role).2.
Proof.
  intros [Hnd Hid] Hin. unfold role_cost, estimate_cost.
  destruct (role_tokens role) as [i o]. cbn [fst snd].
  pose proof (Hid _ Hin) as E. cbn [fst] in E. rewrite E. by rewrite (elem_cget _ e).
Qed.

(** A selection at or above the capability floors for the roles of a build. *)
Definition respects_floor (execution : cdict) (c : catalog) (m : list (string * string)) : Prop :=
  forall r, r ∈ _PRICED_ROLES ->
    match cget r (_phase_models execution) with
    | None => cget r m = None
    | Some _ =>
        exists mid e, cget r m = Some mid /\ (mid, e) ∈ c /\ _serves_role e r = true
          /\ _meets_floor e (role_floor r (difficulty_tier execution) (routing_class execution)) = true
    end.

Lemma pick_spec c role floor_class :
  match cheapest_capable_model role floor_class None (role_tokens role) c with
  | Some mid =>
      exists e, (mid, e) ∈ c /\ _serves_role e role = true /\ _meets_floor e floor_class = true
        /\ forall x, x ∈ c -> _serves_role x.2 role = true -> _meets_floor x.2 floor_class = true ->
             (cost_or_zero (model_cost e (role_tokens role).1 (role_tokens role).2)
              <= cost_or_zero (model_cost x.2 (role_tokens role).1 (role_tokens role).2))%Q
  | None => forall x, x ∈ c -> _serves_role x.2 role && _meets_floor x.2 floor_class = false
  end.
Proof. destruct (role_tokens role) as [i o]. apply (cheapest_spec i o). Qed.

Lemma priced_in r : r ∈ _PRICED_ROLES -> existsb (String.eqb r) _PRICED_ROLES = true.
Proof. intros H. apply existsb_spec. exists r. split; [done | apply String.eqb_refl]. Qed.

(** A downgrade that succeeded picked a model for every role of the build. *)
Lemma downgrade_pick execution c res r model :
  _downgrade_within_floor execution c = Some res -> r ∈ _PRICED_ROLES ->
  cget r (_phase_models execution) = Some model ->
  exists pick, cget r res = Some pick
    /\ cheapest_capable_model r (role_floor r (difficulty_tier execution) (routing_class execution))
         None (role_tokens r) c = Some pick.
Proof.
  intros H Hr Er. pose proof (downgrade_lookup _ _ _ _ _ _ _ r H) as L.
  rewrite (priced_in r Hr), Er in L. cbn [andb] in L.
  destruct (cheapest_capable_model _ _ _ _ _) as [pick|] eqn:Ep; [by exists pick|]. exfalso.
  clear L. unfold _downgrade_within_floor in H. revert H Hr.
  generalize (@nil (string * string)). generalize _PRICED_ROLES as roles.
  induction roles as [|r0 roles IH]; intros out H Hr; [by apply elem_of_nil in Hr|].
  cbn [downgrade_roles] in H. apply elem_of_cons in Hr as [->|Hr]; [by rewrite Er, Ep in H|].
  destruct (cget r0 _); [destruct (cheapest_capable_model r0 _ _ _ _); [|done]|];
    by apply (IH _ H Hr).
Qed.

(** The downgrade is a selection at the floors, and no selection at the floors is cheaper. *)
Lemma downgrade_respects execution c res :
  _downgrade_within_floor execution c = Some res -> respects_floor execution c res.
Proof.
  intros H r Hr. destruct (cget r (_phase_models execution)) as [model|] eqn:Er.
  - destruct (downgrade_pick _ _ _ _ _ H Hr Er) as (pick & E & Ep).
    pose proof (pick_spec c r (role_floor r (difficulty_tier execution) (routing_class execution))) as P.
    rewrite Ep in P. destruct P as (e & H1 & H2 & H3 & _). by exists pick, e.
  - rewrite (downgrade_lookup _ _ _ _ _ _ _ r H), Er. by rewrite andb_false_r.
Qed.

Lemma downgrade_cheapest execution c res m :
  catalog_ok c -> _downgrade_within_floor execution c = Some res -> respects_floor execution c m ->
  (cost_or_zero (estimate_models res c).1 <= cost_or_zero (estimate_models m c).1)%Q.
Proof.
  intros Hc H Hm. unfold estimate_models. rewrite !estimate_roles_total.
  assert (sum_roles c res _PRICED_ROLES <= sum_roles c m _PRICED_ROLES)%Q; [|lra].
  apply sum_roles_le. intros r Hr. specialize (Hm r Hr).
  pose proof (downgrade_respects _ _ _ H r Hr) as Hres. unfold role_total.
  destruct (cget r (_phase_models execution)) as [model|] eqn:Er; [|rewrite Hres, Hm; lra].
  destruct (downgrade_pick _ _ _ _ _ H Hr Er) as (pick & E & Ep).
  destruct Hm as (mid' & e' & E1' & H1' & H2' & H3'). rewrite E, E1'.
  pose proof (pick_spec c r (role_floor r (difficulty_tier execution) (routing_class execution))) as P.
  rewrite Ep in P. destruct P as (e & G1 & _ & _ & Hmin).
  rewrite (role_cost_catalog c r pick e), (role_cost_catalog c r mid' e') by done.
  by apply (Hmin (mid', e')).
Qed.

Lemma fits_false e ceil :
  fits e ceil = false -> exists x c, e = Some x /\ ceil = Some c /\ (c < x)%Q.
Proof.
  unfold fits. destruct ceil as [c|], e as [x|]; try done. intros H. qprop. by exists x, c.
Qed.

Ltac bd_view :=
  cbn [negb decision bd_ceiling bd_mode bd_estimate bd_phase_models bd_outcome bd_proceed].

(** The four ways the gate ends, with what each means. *)
Lemma enforce_cases fmt ex c :
  let execution := default [] ex in
  let current := _phase_models execution in
  let ceiling := cost_ceiling_usd execution in
  let d := enforce_budget fmt ex c in
  bd_ceiling d = ceiling /\ bd_mode d = parse_budget_mode execution
  /\ bd_estimate d = (estimate_models (bd_phase_models d) c).1
  /\ ((bd_mode d = Observe /\ bd_outcome d = OBSERVE /\ bd_proceed d = true /\ bd_phase_models d = current)
      \/ (bd_mode d = Enforce /\ bd_outcome d = WITHIN_BUDGET /\ bd_proceed d = true
          /\ bd_phase_models d = current /\ fits (bd_estimate d) ceiling = true)
      \/ (bd_mode d = Enforce /\ bd_outcome d = FAIL_FAST /\ bd_proceed d = false
          /\ fits (bd_estimate d) ceiling = false
          /\ ((routing_class execution = "governed" /\ bd_phase_models d = current)
              \/ (routing_class execution <> "governed"
                  /\ ((bd_phase_models d = current /\ _downgrade_within_floor execution c = None)
                      \/ _downgrade_within_floor execution c = Some (bd_phase_models d)))))
      \/ (bd_mode d = Enforce /\ bd_outcome d = DOWNGRADED /\ bd_proceed d = true
          /\ routing_class execution <> "governed"
          /\ _downgrade_within_floor execution c = Some (bd_phase_models d)
          /\ fits (bd_estimate d) ceiling = true)).
Proof.
  intros execution current ceiling d. unfold d, enforce_budget. fold execution. fold current.
  unfold estimate_build_cost. fold current.
  destruct (estimate_models current c) as [estimate per_role] eqn:Ee.
  destruct (parse_budget_mode execution); [bd_view; rewrite Ee; tauto|].
  fold ceiling. destruct (fits estimate ceiling) eqn:Ef; [bd_view; rewrite Ee; tauto|].
  destruct (String.eqb_spec (routing_class execution) "governed") as [Eg|Eg];
    [bd_view; rewrite Ee; tauto|].
  destruct (_downgrade_within_floor execution c) as [res|] eqn:Ed; [|bd_view; rewrite Ee; tauto].
  destruct (estimate_models res c) as [e' pr'] eqn:Er.
  destruct (fits e' ceiling) eqn:Ef'; bd_view; rewrite Er; tauto.
Qed.

(** The map of a downgrade has the priced roles only. *)
Lemma downgrade_drops_other_roles execution c res r :
  _downgrade_within_floor execution c = Some res -> (r ∉ _PRICED_ROLES) -> cget r res = None.
Proof.
  intros H Hr. rewrite (downgrade_lookup _ _ _ _ _ _ _ r H).
  destruct (existsb (String.eqb r) _PRICED_ROLES) eqn:E; [|done].
  apply existsb_spec in E as (x & Hx & ->%String.eqb_eq). done.
Qed.

(** ** The shipped catalog *)

Definition metered (i o : Q) : option Price :=
  Some {| pr_mode := "metered"; pr_in_per_mtok := i; pr_out_per_mtok := o |}.
Definition flat (mode : string) : option Price :=
  Some {| pr_mode := mode; pr_in_per_mtok := 0; pr_out_per_mtok := 0 |}.
Definition entry (cls : string) (roles : list string) (price : option Price) : ModelEntry :=
  {| me_class := cls; me_roles := roles; me_price := price |}.

Definition shipped_catalog : catalog :=
  let work := ["coding"; "qa"; "test_gen"] in
  [("claude-fable-5", entry "frontier" _PRICED_ROLES (metered 10 50));
   ("claude-opus-5-5", entry "frontier" _PRICED_ROLES (metered 5 25));
   ("claude-opus-4-8", entry "frontier" _PRICED_ROLES (metered 5 25));
   ("claude-sonnet-5", entry "balanced" _PRICED_ROLES (metered 3 15));
   ("claude-sonnet-4-6", entry "balanced" _PRICED_ROLES (metered 3 15));
   ("claude-haiku-4-5-20251001", entry "cheap" work (metered (4 # 5) 4));
   ("ollama:<model>", entry "local" work (flat "local"));
   ("ollama-cloud:<model>", entry "balanced" work (flat "subscription"));
   ("codex", entry "balanced" work (flat "subscription"));
   ("gemini", entry "balanced" _PRICED_ROLES (metered (5 # 4) 10));
   ("github-models", entry "balanced" work (flat "subscription"))].

Lemma shipped_catalog_ok : catalog_ok shipped_catalog.
Proof.
  split; [by apply (bool_decide_unpack _); vm_compute|].
  intros x Hx. apply list_elem_of_In in Hx. cbn in Hx.
  repeat (destruct Hx as [<-|Hx]; [vm_compute; reflexivity|]). done.
Qed.

(** ** Properties *)

(** C27 (safety): a build never starts above its ceiling, and nothing is degraded in
    silence.  The estimate of the decision is the estimate of the models it hands out.
    When budgets are enforced and the build may proceed, that estimate, if there is one,
    is within the ceiling, if there is one; when it may not, budgets are enforced and the
    estimate exceeds the ceiling.  The models differ from those of the contract only when
    budgets are enforced and the task is not governed, and then every role of the build
    has a model of the catalog that serves it at or above its capability floor. *)
Theorem budget_gate_is_safe (fmt : Q -> string) (ex : option cdict) (c : catalog) :
  let execution := default [] ex in
  let d := enforce_budget fmt ex c in
  bd_estimate d = (estimate_models (bd_phase_models d) c).1
  /\ bd_ceiling d = cost_ceiling_usd execution
  /\ (bd_proceed d = true -> bd_mode d = Enforce ->
      forall e ceil, bd_estimate d = Some e -> bd_ceiling d = Some ceil -> (e <= ceil)%Q)
  /\ (bd_proceed d = false ->
      bd_mode d = Enforce
      /\ exists e ceil, bd_estimate d = Some e /\ bd_ceiling d = Some ceil /\ (ceil < e)%Q)
  /\ (bd_phase_models d <> _phase_models execution ->
      bd_mode d = Enforce /\ routing_class execution <> "governed"
      /\ respects_floor execution c (bd_phase_models d)).
Proof.
  intros execution d. destruct (enforce_cases fmt ex c) as (Hceil & _ & Hest & Hcases).
  fold d execution in Hceil, Hest, Hcases. rewrite Hceil. split; [done|]. split; [done|].
  assert (Hfit : forall e c0, fits e c0 = true -> forall x y, e = Some x -> c0 = Some y -> (x <= y)%Q).
  { intros e c0 H x y -> ->. cbn in H. by qprop. }
  destruct Hcases as [(M & _ & P & E)|[(M & _ & P & E & F)|[(M & _ & P & F & G)|(M & _ & P & G & D & F)]]];
    rewrite P, M; (split; [|split]); intros H; try discriminate; try (by rewrite E in H).
  - intros _. exact (Hfit _ _ F).
  - split; [done|]. apply fits_false in F as (x & y & -> & -> & Hlt). by exists x, y.
  - split; [done|]. destruct G as [[_ E]|[G [[E _]|D]]]; [done|done|].
    split; [done|]. by apply downgrade_respects.
  - intros _. exact (Hfit _ _ F).
  - split; [done|]. split; [done|]. by apply downgrade_respects.
Qed.

(** Refusing is the last resort.  When the gate refuses a task that is not
    governed, no selection of catalog models at or above the capability floors fits: the
    estimate of each, models without a price counted as free, exceeds the ceiling.  So a
    build that some admissible selection would bring under its ceiling is never refused. *)
Theorem fail_fast_is_last_resort (fmt : Q -> string) (ex : option cdict) (c : catalog)
    (m : list (string * string)) :
  catalog_ok c ->
  bd_proceed (enforce_budget fmt ex c) = false ->
  routing_class (default [] ex) <> "governed" ->
  respects_floor (default [] ex) c m ->
  exists ceil, cost_ceiling_usd (default [] ex) = Some ceil
               /\ (ceil < cost_or_zero (estimate_models m c).1)%Q.
Proof.
  intros Hc P G Hm. destruct (enforce_cases fmt ex c) as (_ & _ & Hest & Hcases).
  destruct Hcases as [(_ & _ & P' & _)|[(_ & _ & P' & _)|[(_ & _ & _ & F & [[G' _]|(_ & D)])|(_ & _ & P' & _)]]];
    try congruence.
  destruct D as [[_ D]|D].
  - exfalso. apply downgrade_none in D as (r & Hr & Hcur & Hnone). specialize (Hm r Hr).
    destruct (cget r _) eqn:Er; [|done]. destruct Hm as (mid & e & _ & Hin & Hs & Hf).
    pose proof (pick_spec c r (role_floor r (difficulty_tier (default [] ex)) (routing_class (default [] ex)))) as Q.
    rewrite Hnone in Q. specialize (Q (mid, e) Hin). cbn [snd] in Q. by rewrite Hs, Hf in Q.
  - apply fits_false in F as (x & ceil & Ex & Eceil & Hlt). exists ceil. split; [done|].
    pose proof (downgrade_cheapest _ _ _ m Hc D Hm) as Hle. rewrite <- Hest, Ex in Hle.
    change (cost_or_zero (Some x)) with x in Hle. lra.
Qed.

(** ** What the shipped catalog makes of it *)

(** Over budget at the balanced floor, the work roles go to codex, whatever runtimes the
    operator enabled, and the pin of a role without a price is dropped. *)
Lemma downgrade_goes_to_codex :
  bd_phase_models
    (enforce_budget (fun _ => "") (Some
       [("budget_mode", CStr "enforce"); ("budget_usd", CNum 1);
        ("phase_models", CDict [("spec", CStr "opus"); ("coding", CStr "opus")])]) shipped_catalog)
  = [("coding", "codex")].
Proof. vm_compute. reflexivity. Qed.

Definition tight_contract : cdict :=
  [("budget_mode", CStr "enforce"); ("budget_usd", CNum (1 # 100));
   ("difficulty", CStr "hard"); ("phase_models", CDict [("planning", CStr "opus")])].

Lemma fail_fast_is_last_resort_witness :
  exists ceil, cost_ceiling_usd tight_contract = Some ceil
    /\ (ceil < cost_or_zero (estimate_models [("planning", "claude-fable-5")] shipped_catalog).1)%Q.
Proof.
  apply (fail_fast_is_last_resort (fun _ => "") (Some tight_contract) shipped_catalog
           [("planning", "claude-fable-5")] shipped_catalog_ok).
  - vm_compute. reflexivity.
  - vm_compute. discriminate.
  - intros r Hr. apply list_elem_of_In in Hr. cbn in Hr.
    destruct Hr as [<-|[<-|[<-|[<-|[]]]]]; [|reflexivity..].
    exists "claude-fable-5", (entry "frontier" _PRICED_ROLES (metered 10 50)).
    split; [reflexivity|]. split; [apply list_elem_of_here|]. split; vm_compute; reflexivity.
Defined.
