(* ===== verification/Routing.v ===== *)
(** The model of a stage: the routing policy (backend/routing_policy.py) and the precedence
    of the sources of a model (backend/phase_config.py), over the cost router of Budget.

    [environ] is the environment; [read_text] reads the file of the policy, [load_catalog]
    the file of the catalog: both may raise.  A row of the catalog carries its provider and
    whether it is available, next to what the cost router reads of it. *)
From S2P Require Import Prelude PyData JsonRead TrustedPlan Budget Evidence.
Local Open Scope nat_scope.

(** ** Tables *)

Definition ENV_VAR : string := "AIFACTORY_ROUTING_POLICY".
Definition DEFAULT_TIERS : list (string * string) := [("small", "haiku"); ("mid", "sonnet"); ("frontier", "opus")].
Definition _TIER_RANK : list (string * nat) := [("small", 0); ("mid", 1); ("frontier", 2)].
Definition _RANK_TIER (r : nat) : string := match r with 0 => "small" | 1 => "mid" | _ => "frontier" end.
Definition _RFC0011_FLOOR : list (string * string) := [("low", "small"); ("medium", "mid"); ("hard", "frontier")].
Definition ROUTE_RESOLUTION_ENV : string := "AIFACTORY_ROUTE_RESOLUTION".
Definition CATALOG_PATH_ENV : string := "AIFACTORY_MODEL_CATALOG_PATH".
Definition _TIER_CLASS : list (string * string) := [("small", "cheap"); ("mid", "balanced"); ("frontier", "frontier")].
Definition _STAGE_ROLE : list (string * string) := [("spec", "planning"); ("qa_fixer", "qa")].

Inductive route_mode := ModeOff | ModeShadow | ModeOn.

Record catalog_row := { cr_provider : string; cr_available : bool; cr_entry : ModelEntry }.

Definition or_else_text (s : option string) (dflt : option string) : option string :=
  match s with Some t => if is_empty t then dflt else s | None => dflt end.

Section Routing.
Context (environ : env_list) (read_text : string -> res string)
        (load_catalog : string -> res (list (string * catalog_row))).

Definition getenv (k : string) : string := strip (default "" (env_get k environ)).

(** ** The policy *)

(** An OSError of the file, or a text that is not a JSON object, is no policy. *)
Definition load_policy : res (option dict) :=
  let raw := getenv ENV_VAR in
  if is_empty raw then Ok None
  else
    let! text := if startswith "{" raw then Ok (Some raw)
                 else match read_text raw with
                      | Ok t => Ok (Some t)
                      | Err (AppError _) => Ok None
                      | Err e => Err e
                      end in
    match text with
    | None => Ok None
    | Some t =>
        match loads t with
        | Ok (JObj d) => Ok (Some d)
        | Ok _ | Err ValueError => Ok None
        | Err e => Err e
        end
    end.

Definition _route_mode : route_mode :=
  let raw := lower (getenv ROUTE_RESOLUTION_ENV) in
  if String.eqb raw "on" then ModeOn else if String.eqb raw "shadow" then ModeShadow else ModeOff.

(** The rows a tier may use. *)
Definition claude_rows (rows : list (string * catalog_row)) : list (string * ModelEntry) :=
  (fun r => (r.1, cr_entry r.2)) <$> keep (fun r => String.eqb (cr_provider r.2) "claude" && cr_available r.2) rows.
Definition pick (role tier : string) (rows : list (string * catalog_row)) : option (string * option string) :=
  match cget tier _TIER_CLASS with
  | Some cls => Some (tier, cheapest_capable_model role cls None (1, 1)%Z (claude_rows rows))
  | None => None
  end.
Definition _catalog_picks (tiers : list string) (stage : string) : list (string * option string) :=
  let path := getenv CATALOG_PATH_ENV in
  if is_empty path then []
  else
    let role := default stage (cget stage _STAGE_ROLE) in
    match load_catalog path with
    | Ok rows => omap (fun t => pick role t rows) tiers
    | Err _ => []
    end.
(** [picks.get(tier)] *)
Definition picked_for (tier : string) (picks : list (string * option string)) : option string :=
  match cget tier picks with Some o => o | None => None end.

Definition _tier_model (tier stage : string) : option string :=
  let dflt := cget tier DEFAULT_TIERS in
  match _route_mode with
  | ModeOff | ModeShadow => dflt
  | ModeOn => or_else_text (picked_for tier (_catalog_picks [tier] stage)) dflt
  end.

Definition str_entry (kv : string * json) : option (string * string) :=
  match kv.2 with JStr s => if is_empty s then None else Some (kv.1, s) | _ => None end.
Definition _str_map (policy : dict) (key : string) : list (string * string) :=
  match dget key policy with Some (JObj d) => omap str_entry d | _ => [] end.

(** Raises KeyError for a tier without a rank. *)
Definition _floor_tier (tier : string) (difficulty_tier : option json) : res string :=
  let text := match difficulty_tier with Some v => if truthy v then str_of v else "" | None => "" end in
  match cget (lower text) _RFC0011_FLOOR with
  | None => Ok tier
  | Some floor =>
      match cget tier _TIER_RANK, cget floor _TIER_RANK with
      | Some t, Some f => Ok (_RANK_TIER (Nat.max t f))
      | _, _ => Err (KeyError tier)
      end
  end.

Definition ranked (tier : string) : bool := match cget tier _TIER_RANK with Some _ => true | None => false end.

Definition policy_route (stage : string) (difficulty_tier : option string) : res (option (string * string)) :=
  let! policy := load_policy in
  match policy with
  | None => Ok None
  | Some policy =>
      match cget stage (_str_map policy "stages") with
      | None => Ok None
      | Some tier =>
          let! tier := if ranked tier then _floor_tier tier (JStr <$> difficulty_tier) else Ok tier in
          let model := match cget tier (_str_map policy "tiers") with
                       | Some m => Some m
                       | None => _tier_model tier stage
                       end in
          Ok ((fun m => (m, tier)) <$> model)
      end
  end.

(** [v in _TIER_RANK]: a list or a dict cannot be looked up. *)
Definition ranked_value (v : option json) : res (option string) :=
  match v with
  | Some (JStr s) => Ok (if ranked s then Some s else None)
  | Some (JList _) | Some (JObj _) => Err TypeError
  | _ => Ok None
  end.
Definition tier_of_block (stage : string) (block : option json) : res (option string) :=
  match block with Some (JObj d) => ranked_value (dget stage d) | _ => Ok None end.

(** [metadata] is null when there is none. *)
Definition contract_route (stage : string) (metadata : json) : res (option (string * string)) :=
  match metadata with
  | JObj d =>
      let! over := tier_of_block stage (dget "routingOverrides" d) in
      let! tier := match over with Some t => Ok (Some t) | None => tier_of_block stage (dget "routingRequested" d) end in
      match tier with
      | None => Ok None
      | Some tier =>
          let! tier := _floor_tier tier (dget "difficultyTier" d) in
          let! policy := load_policy in
          let policy_tiers := _str_map (default [] policy) "tiers" in
          let model := if list_truthy policy_tiers then cget tier policy_tiers else _tier_model tier stage in
          Ok ((fun m => (m, tier)) <$> model)
      end
  | _ => Ok None
  end.

(** ** Names of models (phase_config.py) *)

Definition MODEL_ID_MAP : list (string * string) :=
  [("opus", "claude-opus-5-5"); ("opus-4.8", "claude-opus-4-8"); ("opus-4.7", "claude-opus-4-7");
   ("opus-1m", "claude-opus-4-6"); ("opus-4.5", "claude-opus-4-5-20251101"); ("sonnet", "claude-sonnet-5");
   ("sonnet-4.6", "claude-sonnet-4-6"); ("haiku", "claude-haiku-4-5-20251001")].
Definition MODEL_BETAS_MAP : list (string * list string) := [("opus-1m", ["context-1m-2025-08-07"])].
Definition DEFAULT_PHASE_MODELS : list (string * string) :=
  [("spec", "opus"); ("planning", "opus"); ("coding", "sonnet"); ("qa", "opus"); ("qa_fixer", "opus")].
Definition env_var_map : list (string * string) :=
  [("haiku", "ANTHROPIC_DEFAULT_HAIKU_MODEL"); ("sonnet", "ANTHROPIC_DEFAULT_SONNET_MODEL");
   ("opus", "ANTHROPIC_DEFAULT_OPUS_MODEL"); ("opus-1m", "ANTHROPIC_DEFAULT_OPUS_MODEL")].

Definition resolve_model_id (model : string) : string :=
  match cget model MODEL_ID_MAP with
  | None => model
  | Some id =>
      match cget model env_var_map with
      | Some env_var => default id (or_else_text (env_get env_var environ) None)
      | None => id
      end
  end.
Definition get_model_betas (model_short : string) : list string := default [] (cget model_short MODEL_BETAS_MAP).

(** ** The tier a model is stamped with *)

Definition truthy_key (k : string) (metadata : json) : bool :=
  match metadata with JObj d => get_truthy k d | _ => false end.

Definition tier_for_model (model : option string) (metadata : json) (stage : option string) : res (option string) :=
  match or_else_text model None with
  | None => Ok None
  | Some model =>
      let! policy := load_policy in
      let tiers := match policy with Some p => _str_map p "tiers" | None => [] end in
      let contract_active := truthy_key "routingRequested" metadata || truthy_key "routingOverrides" metadata in
      if negb (list_truthy tiers) && negb contract_active then Ok None
      else
        let tiers :=
          if list_truthy tiers then tiers
          else match _route_mode with
               | ModeOn =>
                   let order := reverse (fst <$> DEFAULT_TIERS) in
                   let picks := _catalog_picks order (default "coding" (or_else_text stage None)) in
                   omap (fun t => (fun m => (t, m)) <$> or_else_text (picked_for t picks) (cget t DEFAULT_TIERS)) order
               | ModeOff | ModeShadow => DEFAULT_TIERS
               end in
        let target := resolve_model_id model in
        Ok (fst <$> List.find (fun tm => String.eqb tm.2 model || String.eqb (resolve_model_id tm.2) target) tiers)
  end.

(** ** The precedence of the sources *)

Definition FALLBACK_MODEL_ENV : string := "AIFACTORY_FALLBACK_MODEL".
Definition fallback_model_override : option string := or_else_text (Some (getenv FALLBACK_MODEL_ENV)) None.

(** The files of a specification: task_metadata.json, requirements.json. *)
Definition load_task_metadata (task_metadata requirements : file) : res json :=
  match task_metadata with
  | Json v => Ok v
  | Missing | Broken =>
      match requirements with
      | Json (JObj d) => match dget "metadata" d with Some (JObj m) => Ok (JObj m) | _ => Ok JNull end
      | Json (JNull | JBool _ | JInt _) => Err TypeError
      | Json (JStr s) => if contains "metadata" s then Err TypeError else Ok JNull
      | Json (JList l) => if existsb (fun v => match v with JStr s => String.eqb s "metadata" | _ => false end) l
                          then Err TypeError else Ok JNull
      | Missing | Broken => Ok JNull
      end
  end.

(** [metadata and metadata.get(k)], when it is truthy. *)
Definition meta_get (k : string) (metadata : json) : res (option json) :=
  if truthy metadata then
    with_get metadata (fun d => Ok (match dget k d with Some v => if truthy v then Some v else None | None => None end))
  else Ok None.
Definition _difficulty_tier (metadata : json) : res (option string) :=
  let! v := if truthy metadata then with_get metadata (fun d => Ok (dget "difficultyTier" d)) else Ok None in
  Ok (match v with Some (JStr s) => Some s | _ => None end).
Definition default_phase_model (phase : string) : res string :=
  match cget phase DEFAULT_PHASE_MODELS with Some m => Ok m | None => Err (KeyError phase) end.

(** [phase_models.get(phase)], when it is truthy. *)
Definition phase_entry (phase : string) (phase_models : json) : res (option json) :=
  with_get phase_models (fun d => Ok (match dget phase d with Some v => if truthy v then Some v else None | None => None end)).

Definition _resolve_phase_model (metadata : json) (phase : string) (cli_model : option string) : res string :=
  match fallback_model_override with
  | Some forced => Ok (resolve_model_id forced)
  | None =>
      let! pinned := meta_get "pinnedModel" metadata in
      match pinned with
      | Some v => let! m := as_str v in Ok (resolve_model_id m)
      | None =>
          let! models := meta_get "phaseModels" metadata in
          let! own := match models with Some v => phase_entry phase v | None => Ok None end in
          match own with
          | Some v => let! m := as_str v in Ok (resolve_model_id m)
          | None =>
              match or_else_text cli_model None with
              | Some m => Ok (resolve_model_id m)
              | None =>
                  let! contracted := contract_route phase metadata in
                  match contracted with
                  | Some (m, _) => Ok (resolve_model_id m)
                  | None =>
                      let! difficulty := _difficulty_tier metadata in
                      let! routed := policy_route phase difficulty in
                      match routed with
                      | Some (m, _) => Ok (resolve_model_id m)
                      | None =>
                          let! single := meta_get "model" metadata in
                          match single with
                          | Some v => let! m := as_str v in Ok (resolve_model_id m)
                          | None => let! m := default_phase_model phase in Ok (resolve_model_id m)
                          end
                      end
                  end
              end
          end
      end
  end.

Definition get_phase_model_betas (metadata : json) (phase : string) (cli_model : option string) : res (list string) :=
  match fallback_model_override with
  | Some forced => Ok (get_model_betas forced)
  | None =>
      let! pinned := meta_get "pinnedModel" metadata in
      match pinned with
      | Some v => let! m := as_str v in Ok (get_model_betas m)
      | None =>
          let! models := meta_get "phaseModels" metadata in
          let! own := match models with Some v => phase_entry phase v | None => Ok None end in
          match own with
          | Some v => let! m := as_str v in Ok (get_model_betas m)
          | None =>
              match or_else_text cli_model None with
              | Some m => Ok (get_model_betas m)
              | None =>
                  let! contracted := contract_route phase metadata in
                  match contracted with
                  | Some (m, _) => Ok (get_model_betas m)
                  | None =>
                      let! difficulty := _difficulty_tier metadata in
                      let! routed := policy_route phase difficulty in
                      match routed with
                      | Some (m, _) => Ok (get_model_betas m)
                      | None =>
                          let! single := meta_get "model" metadata in
                          match single with
                          | Some v => let! m := as_str v in Ok (get_model_betas m)
                          | None => let! m := default_phase_model phase in Ok (get_model_betas m)
                          end
                      end
                  end
              end
          end
      end
  end.
End Routing.

(** ** Floors *)

Definition rank_of (tier : string) : nat := default 0 (cget tier _TIER_RANK).
(** The rank the difficulty of a task asks for. *)
Definition floor_rank (difficulty_tier : option json) : nat :=
  let text := match difficulty_tier with Some v => if truthy v then str_of v else "" | None => "" end in
  match cget (lower text) _RFC0011_FLOOR with Some floor => rank_of floor | None => 0 end.

Lemma ranked_cases t : ranked t = true -> t = "small" \/ t = "mid" \/ t = "frontier".
Proof.
  unfold ranked, _TIER_RANK. cbn [cget].
  destruct (String.eqb_spec t "small"); [by left|]. destruct (String.eqb_spec t "mid"); [by right; left|].
  destruct (String.eqb_spec t "frontier"); [by right; right | done].
Qed.

Lemma floor_ranked text f : cget text _RFC0011_FLOOR = Some f -> ranked f = true.
Proof. unfold _RFC0011_FLOOR. cbn [cget]. repeat case_if; by intros [= <-]. Qed.

Lemma floor_tier_spec tier d t : ranked tier = true -> _floor_tier tier d = Ok t ->
  ranked t = true /\ rank_of t = Nat.max (rank_of tier) (floor_rank d).
Proof.
  intros R. unfold _floor_tier, floor_rank. set (text := lower _). clearbody text.
  destruct (cget text _RFC0011_FLOOR) as [f|] eqn:F.
  - apply floor_ranked in F. apply ranked_cases in R as [-> | [-> | ->]];
      apply ranked_cases in F as [-> | [-> | ->]]; by intros [= <-].
  - intros [= <-]. split; [done | lia].
Qed.

Section Routes.
Context (environ : env_list) (read_text : string -> res string).
Abbreviation loader := (string -> res (list (string * catalog_row))).

Lemma contract_route_inv (load_catalog : loader) stage metadata m t :
  contract_route environ read_text load_catalog stage metadata = Ok (Some (m, t)) ->
  exists d q, metadata = JObj d /\ ranked q = true /\ _floor_tier q (dget "difficultyTier" d) = Ok t.
Proof.
  destruct metadata as [| | | | |d]; try done. cbn [contract_route]. intros H.
  assert (B : forall k q, tier_of_block stage (dget k d) = Ok (Some q) -> ranked q = true).
  { intros k q. unfold tier_of_block, ranked_value. destruct (dget k d) as [[| | | | |b]|]; try done.
    destruct (dget stage b) as [[| | |s| |]|]; try done. destruct (ranked s) eqn:R; [|done]. by intros [= <-]. }
  res_step. assert (Q : forall q, (match v with Some t0 => Ok (Some t0)
                                   | None => tier_of_block stage (dget "routingRequested" d) end) = Ok (Some q) -> ranked q = true).
  { intros q. destruct v; [intros [= <-]; by eapply B | apply B]. }
  res_step. destruct v0 as [q|]; [|done]. res_step. res_step. exists d, q. split; [done|].
  split; [by apply Q|]. injection H as H. destruct (if list_truthy _ then _ else _) as [m'|]; [|done].
  injection H as _ <-. done.
Qed.

(** No route goes below the capability the difficulty of the task asks for: a
    tier of the signed contract is raised to it, and so is a tier of the local policy that
    has a rank. *)
Theorem routes_respect_the_floor (load_catalog : loader) stage :
  (forall metadata m t, contract_route environ read_text load_catalog stage metadata = Ok (Some (m, t)) ->
     exists d, metadata = JObj d /\ ranked t = true /\ floor_rank (dget "difficultyTier" d) <= rank_of t)
  /\ (forall difficulty m t, policy_route environ read_text load_catalog stage difficulty = Ok (Some (m, t)) ->
        ranked t = true -> floor_rank (JStr <$> difficulty) <= rank_of t).
Proof.
  split.
  - intros metadata m t H. apply contract_route_inv in H as (d & q & -> & R & F).
    destruct (floor_tier_spec _ _ _ R F) as [Rt E]. exists d. split; [done|]. split; [done | lia].
  - intros difficulty m t H R. unfold policy_route in H. res_step. destruct v as [policy|]; [|done].
    destruct (cget stage (_str_map policy "stages")) as [q|]; [|done]. res_step. rename v into t'.
    assert (t' = t) as ->.
    { injection H as H. destruct (match cget t' _ with Some m' => Some m' | None => _ end); [|done]. by injection H. }
    destruct (ranked q) eqn:Rq.
    + destruct (floor_tier_spec _ _ _ Rq Hv0) as [_ E]. lia.
    + injection Hv0 as ->. congruence.
Qed.

(** ** What the catalog decides *)

Lemma off_picks (a b : loader) tier stage :
  _route_mode environ <> ModeOn -> _tier_model environ a tier stage = _tier_model environ b tier stage.
Proof. unfold _tier_model. by destruct (_route_mode environ). Qed.

Lemma resolve_ext (a b : loader) :
  (forall stage metadata, contract_route environ read_text a stage metadata = contract_route environ read_text b stage metadata) ->
  (forall stage d, policy_route environ read_text a stage d = policy_route environ read_text b stage d) ->
  forall metadata phase cli, _resolve_phase_model environ read_text a metadata phase cli
                             = _resolve_phase_model environ read_text b metadata phase cli.
Proof.
  intros C P metadata phase cli. unfold _resolve_phase_model. destruct (fallback_model_override environ); [done|].
  destruct (meta_get "pinnedModel" metadata) as [[v|]|]; [done| |done]. cbn [mbind res_bind].
  destruct (meta_get "phaseModels" metadata) as [models|]; [|done]. cbn [mbind res_bind].
  destruct (match models with Some v => phase_entry phase v | None => Ok None end) as [[v|]|]; [done| |done].
  cbn [mbind res_bind]. destruct (or_else_text cli None); [done|]. rewrite C.
  destruct (contract_route environ read_text b phase metadata) as [[[m t]|]|]; [done| |done]. cbn [mbind res_bind].
  destruct (_difficulty_tier metadata); [|done]. cbn [mbind res_bind]. by rewrite P.
Qed.

(** Unless the resolution by the catalog is switched on, the catalog decides
    nothing: every route, model and stamp is the same for any catalog file. *)
Theorem shadow_changes_nothing (a b : loader) :
  _route_mode environ <> ModeOn ->
  (forall metadata phase cli, _resolve_phase_model environ read_text a metadata phase cli
                              = _resolve_phase_model environ read_text b metadata phase cli)
  /\ (forall model metadata stage, tier_for_model environ read_text a model metadata stage
                                   = tier_for_model environ read_text b model metadata stage).
Proof.
  intros N. split.
  - apply resolve_ext.
    + intros stage metadata. destruct metadata as [| | | | |d]; try done. cbn [contract_route].
      destruct (tier_of_block stage (dget "routingOverrides" d)) as [over|]; [|done]. cbn [mbind res_bind].
      destruct (match over with Some t => Ok (Some t) | None => _ end) as [[tier|]|]; [|done|done]. cbn [mbind res_bind].
      destruct (_floor_tier tier _) as [t|]; [|done]. cbn [mbind res_bind].
      destruct (load_policy environ read_text) as [policy|]; [|done]. cbn [mbind res_bind].
      by rewrite (off_picks a b).
    + intros stage d. unfold policy_route. destruct (load_policy environ read_text) as [[policy|]|]; [|done|done].
      cbn [mbind res_bind]. destruct (cget stage _) as [q|]; [|done].
      destruct (if ranked q then _ else _) as [t|]; [|done]. cbn [mbind res_bind]. by rewrite (off_picks a b).
  - intros model metadata stage. unfold tier_for_model. destruct (or_else_text model None); [|done].
    by destruct (_route_mode environ).
Qed.

(** A pick of the catalog is an available Claude model of the role, at the class of its tier
    or above. *)
Lemma catalog_picks_are_capable role tier rows t m : pick role tier rows = Some (t, Some m) ->
  exists row cls, (m, row) ∈ rows /\ cr_provider row = "claude" /\ cr_available row = true
    /\ cget tier _TIER_CLASS = Some cls
    /\ _serves_role (cr_entry row) role = true /\ _meets_floor (cr_entry row) cls = true.
Proof.
  unfold pick. destruct (cget tier _TIER_CLASS) as [cls|]; [|done]. intros [= _ E].
  pose proof (cheapest_spec 1 1 role cls (claude_rows rows)) as S. rewrite E in S.
  destruct S as (e & I & R & F & _). unfold claude_rows in I.
  apply list_elem_of_fmap in I as ([id row] & [= -> ->] & I). apply elem_of_keep in I as [I K]. cbn in K.
  apply andb_true_iff in K as [P A]. apply String.eqb_eq in P. by exists row, cls.
Qed.

(** ** The betas *)

(** The model of a phase and its beta headers are computed from the same
    choice, by two copies of the precedence: both succeed with it, or both raise. *)
Theorem betas_follow_the_model (load_catalog : loader) metadata phase cli_model :
  exists choice : res string,
    _resolve_phase_model environ read_text load_catalog metadata phase cli_model = resolve_model_id environ <$> choice
    /\ get_phase_model_betas environ read_text load_catalog metadata phase cli_model = get_model_betas <$> choice.
Proof.
  assert (S : forall v, exists c : res string,
            (let! m := as_str v in Ok (resolve_model_id environ m)) = resolve_model_id environ <$> c
            /\ (let! m := as_str v in Ok (get_model_betas m)) = get_model_betas <$> c)
    by (intros v; exists (as_str v); by destruct (as_str v)).
  unfold _resolve_phase_model, get_phase_model_betas.
  destruct (fallback_model_override environ) as [f|]; [by exists (Ok f)|].
  destruct (meta_get "pinnedModel" metadata) as [[v|]|e]; [apply S| |by exists (Err e)]. cbn [mbind res_bind].
  destruct (meta_get "phaseModels" metadata) as [models|e]; [|by exists (Err e)]. cbn [mbind res_bind].
  destruct (match models with Some v => phase_entry phase v | None => Ok None end) as [[v|]|e];
    [apply S| |by exists (Err e)]. cbn [mbind res_bind].
  destruct (or_else_text cli_model None) as [m|]; [by exists (Ok m)|].
  destruct (contract_route environ read_text load_catalog phase metadata) as [[[m t]|]|e];
    [by exists (Ok m)| |by exists (Err e)]. cbn [mbind res_bind].
  destruct (_difficulty_tier metadata) as [d|e]; [|by exists (Err e)]. cbn [mbind res_bind].
  destruct (policy_route environ read_text load_catalog phase d) as [[[m t]|]|e];
    [by exists (Ok m)| |by exists (Err e)]. cbn [mbind res_bind].
  destruct (meta_get "model" metadata) as [[v|]|e]; [apply S| |by exists (Err e)]. cbn [mbind res_bind].
  exists (default_phase_model phase). by destruct (default_phase_model phase).
Qed.
End Routes.

(** ** The stamp of a contract route *)

Section Stamp.
Context (environ : env_list) (read_text : string -> res string)
        (load_catalog : string -> res (list (string * catalog_row))).

(** The tiers a contract is stamped from. *)
Definition stamp_tiers (stage : string) : list (string * string) :=
  match _route_mode environ with
  | ModeOn =>
      let order := reverse (fst <$> DEFAULT_TIERS) in
      let picks := _catalog_picks environ load_catalog order stage in
      omap (fun t => (fun m => (t, m)) <$> or_else_text (picked_for t picks) (cget t DEFAULT_TIERS)) order
  | ModeOff | ModeShadow => DEFAULT_TIERS
  end.

Lemma stamp_has_tier tier stage m : ranked tier = true ->
  _tier_model environ load_catalog tier stage = Some m -> (tier, m) ∈ stamp_tiers stage.
Proof.
  intros R. unfold _tier_model, stamp_tiers. destruct (_route_mode environ).
  1, 2: intros H; by apply cget_elem in H.
  assert (O : reverse (fst <$> DEFAULT_TIERS) = ["frontier"; "mid"; "small"]) by reflexivity. rewrite O.
  assert (P : picked_for tier (_catalog_picks environ load_catalog [tier] stage)
              = picked_for tier (_catalog_picks environ load_catalog ["frontier"; "mid"; "small"] stage)).
  { unfold _catalog_picks. destruct (is_empty (getenv environ CATALOG_PATH_ENV)); [done|].
    destruct (load_catalog _) as [rows|]; [|done]. by apply ranked_cases in R as [-> | [-> | ->]]. }
  rewrite P. set (picks := _catalog_picks _ _ _ _). clearbody picks. intros H.
  apply list_elem_of_omap. exists tier. split; [|by rewrite H].
  apply ranked_cases in R as [-> | [-> | ->]]; set_solver.
Qed.

Lemma find_some {A} (f : A -> bool) l x : x ∈ l -> f x = true -> exists y, List.find f l = Some y /\ f y = true.
Proof.
  induction l as [|z l IH]; intros I F; [by apply elem_of_nil in I|]. cbn. destruct (f z) eqn:Z; [by exists z|].
  apply elem_of_cons in I as [->|I]; [congruence | by apply IH].
Qed.

(** A build that follows a tier of its contract is stamped: without a local
    policy, the model it ran on, by any name that means the same, maps back to a tier of
    that model. *)
Theorem contract_routes_are_stamped stage metadata m t model :
  load_policy environ read_text = Ok None -> is_empty stage = false ->
  contract_route environ read_text load_catalog stage metadata = Ok (Some (m, t)) ->
  is_empty model = false -> resolve_model_id environ model = resolve_model_id environ m ->
  exists t' m', tier_for_model environ read_text load_catalog (Some model) metadata (Some stage) = Ok (Some t')
    /\ (t', m') ∈ stamp_tiers stage
    /\ (m' = model \/ resolve_model_id environ m' = resolve_model_id environ m).
Proof.
  intros NoPolicy Ns H Nm Same. pose proof H as Inv.
  apply contract_route_inv in Inv as (d & q & -> & R & F). destruct (floor_tier_spec _ _ _ R F) as [Rt _].
  assert (Active : truthy_key "routingRequested" (JObj d) || truthy_key "routingOverrides" (JObj d) = true).
  { assert (B : forall k q, tier_of_block stage (dget k d) = Ok (Some q) -> truthy_key k (JObj d) = true).
    { intros k x. unfold tier_of_block, truthy_key, get_truthy. destruct (dget k d) as [[| | | | |b]|]; try done.
      by destruct b. }
    cbn [contract_route] in H. destruct (tier_of_block stage (dget "routingOverrides" d)) as [[o|]|] eqn:Ov; [..|done].
    - rewrite (B _ _ Ov). apply orb_true_r.
    - cbn [mbind res_bind] in H. destruct (tier_of_block stage (dget "routingRequested" d)) as [[o|]|] eqn:Rq; [|done|done].
      by rewrite (B _ _ Rq). }
  assert (M : _tier_model environ load_catalog t stage = Some m).
  { cbn [contract_route] in H. res_step. res_step. destruct v0 as [q'|]; [|done]. res_step. res_step.
    rewrite NoPolicy in Hv2. injection Hv2 as <-. cbn [default _str_map dget list_truthy] in H.
    injection H as H. destruct (_tier_model environ load_catalog v0 stage) as [m'|] eqn:T; [|done].
    injection H as <- ->. done. }
  pose proof (stamp_has_tier t stage m Rt M) as In_.
  destruct (find_some (fun tm => String.eqb tm.2 model || String.eqb (resolve_model_id environ tm.2) (resolve_model_id environ model))
              (stamp_tiers stage) (t, m) In_) as ([t' m'] & Fd & Hit).
  { cbn. by rewrite Same, String.eqb_refl, orb_true_r. }
  exists t', m'. split; [|split].
  - unfold tier_for_model. cbn [or_else_text]. rewrite Nm, NoPolicy. cbn [mbind res_bind list_truthy negb andb].
    rewrite Active, Ns. cbn [negb from_option id]. unfold stamp_tiers in Fd.
    destruct (_route_mode environ); by rewrite Fd.
  - apply List.find_some in Fd as [I _]. by apply list_elem_of_In.
  - cbn in Hit. apply orb_true_iff in Hit as [E|E]; apply String.eqb_eq in E; [by left|]. right. by rewrite E.
Qed.
End Stamp.

(** ** Examples *)

Definition no_file : string -> res string := fun _ => Err (AppError "OSError").
Definition no_catalog : string -> res (list (string * catalog_row)) := fun _ => Err (AppError "OSError").
Definition hard_contract : json :=
  JObj [("difficultyTier", JStr "hard"); ("routingRequested", JObj [("coding", JStr "mid")])].
Definition quoted_policy (text : string) : env_list := [(ENV_VAR, text)].

Lemma routes_respect_the_floor_witness :
  contract_route [] no_file no_catalog "coding" hard_contract = Ok (Some ("opus", "frontier"))
  /\ floor_rank (Some (JStr "hard")) <= rank_of "frontier".
Proof.
  assert (E : contract_route [] no_file no_catalog "coding" hard_contract = Ok (Some ("opus", "frontier"))) by reflexivity.
  split; [exact E|].
  destruct (proj1 (routes_respect_the_floor [] no_file no_catalog "coding") _ _ _ E) as (d & [= <-] & _ & L). exact L.
Defined.

Lemma shadow_changes_nothing_witness :
  _resolve_phase_model [(ROUTE_RESOLUTION_ENV, "shadow"); (CATALOG_PATH_ENV, "/c")] no_file no_catalog hard_contract "coding" None
  = _resolve_phase_model [(ROUTE_RESOLUTION_ENV, "shadow"); (CATALOG_PATH_ENV, "/c")] no_file (fun _ => Ok []) hard_contract "coding" None.
Proof. apply shadow_changes_nothing. done. Defined.

Lemma contract_routes_are_stamped_witness :
  exists t' m', tier_for_model [] no_file no_catalog (Some "claude-opus-5-5") hard_contract (Some "coding") = Ok (Some t')
    /\ (t', m') ∈ stamp_tiers [] no_catalog "coding".
Proof.
  destruct (contract_routes_are_stamped [] no_file no_catalog "coding" hard_contract "opus" "frontier" "claude-opus-5-5")
    as (t' & m' & E & I & _); try reflexivity. by exists t', m'.
Defined.

(** A policy that names no model for a tier routes it to the default one, which is then
    stamped with no tier. *)
Lemma default_tier_is_not_stamped :
  let env := quoted_policy (String "{" (join "" [quote; "tiers"; quote; ":{"; quote; "small"; quote; ":"; quote; "haiku"; quote;
               "},"; quote; "stages"; quote; ":{"; quote; "coding"; quote; ":"; quote; "mid"; quote; "}}"])) in
  policy_route env no_file no_catalog "coding" None = Ok (Some ("sonnet", "mid"))
  /\ tier_for_model env no_file no_catalog (Some "claude-sonnet-5") JNull (Some "coding") = Ok None.
Proof. by vm_compute. Qed.

(** A policy file that is not UTF-8 raises out of the routing. *)
Lemma undecodable_policy_raises stage :
  policy_route (quoted_policy "/etc/policy.json") (fun _ => Err ValueError) no_catalog stage None = Err ValueError.
Proof. reflexivity. Qed.
