(* ===== verification/Providers.v ===== *)
(** Which provider a session runs on: the operator's allowlist of runtimes
    (core/runtime_gating.py), the factory with its alias table and its gate
    (providers/factory.py), the provider a model name stands for (phase_config.py), and
    the rotation of providers after failures (core/provider_failover.py).

    The environment is a finite map.  The constructor arguments of a provider that are not
    strings are left out; [None] is a value, as in [api_key=None].  Constructing a provider
    ([_instantiate]) is the argument [instantiate], the hardening of the process
    [hardened]. *)
From Stdlib Require Import QArith Qminmax.
From S2P Require Import Prelude PyData.
Local Open Scope nat_scope.

Abbreviation environ := (gmap string string).

(** [os.environ.get(k) or ""] *)
Definition env_text (env : environ) (k : string) : string := default "" (env !! k).

(** [d.get(k)] on a table of the source. *)
Fixpoint assoc {A} (k : string) (l : list (string * A)) : option A :=
  match l with
  | [] => None
  | (k', v) :: l' => if String.eqb k k' then Some v else assoc k l'
  end.

(** ** The registries of the factory *)

Definition _AGENTIC_REGISTRY : list (string * (string * string)) :=
  [("claude", ("providers.claude", "ClaudeProvider"));
   ("codex", ("providers.codex_agentic", "CodexAgenticProvider"));
   ("antigravity", ("providers.antigravity_agentic", "AntigravityAgenticProvider"));
   ("ollama", ("providers.ollama_agentic", "OllamaAgenticProvider"));
   ("copilot", ("providers.copilot_agentic", "CopilotAgenticProvider"));
   ("opencode", ("providers.opencode_agentic", "OpenCodeAgenticProvider"));
   ("openai-compatible",
      ("providers.openai_compatible_agentic", "OpenAICompatibleAgenticProvider"));
   ("github-models",
      ("providers.openai_compatible_agentic", "OpenAICompatibleAgenticProvider"));
   ("ollama-cloud", ("providers.ollama_agentic", "OllamaAgenticProvider"))].

Definition _TEXT_REGISTRY : list (string * (string * string)) :=
  [("claude", ("providers.claude", "ClaudeProvider"));
   ("codex", ("providers.codex", "CodexCLIProvider"));
   ("antigravity", ("providers.antigravity", "AntigravityCLIProvider"));
   ("ollama", ("providers.ollama", "OllamaProvider"));
   ("copilot", ("providers.copilot_agentic", "CopilotAgenticProvider"));
   ("opencode", ("providers.opencode", "OpenCodeProvider"));
   ("openai-compatible", ("providers.openai_compatible", "OpenAICompatibleProvider"));
   ("github-models", ("providers.openai_compatible", "OpenAICompatibleProvider"));
   ("ollama-cloud", ("providers.ollama", "OllamaProvider"))].

Definition _AGENTIC_PHASES : list string := ["spec"; "planning"; "coding"; "qa_fixer"; "qa"].

Definition _PROVIDER_ALIASES : list (string * string) :=
  [("claude", "claude"); ("claude-sdk", "claude"); ("anthropic", "claude");
   ("codex", "codex"); ("codex-cli", "codex"); ("openai-codex", "codex");
   ("antigravity", "antigravity"); ("antigravity-cli", "antigravity");
   ("gemini", "antigravity"); ("gemini-cli", "antigravity"); ("google", "antigravity");
   ("ollama", "ollama"); ("local", "ollama"); ("local-ollama", "ollama");
   ("ollama-cloud", "ollama-cloud"); ("ollama.com", "ollama-cloud");
   ("cloud-ollama", "ollama-cloud");
   ("copilot", "copilot"); ("github-copilot", "copilot"); ("gh-copilot", "copilot");
   ("opencode", "opencode"); ("open-code", "opencode");
   ("openai", "openai-compatible"); ("openai-api", "openai-compatible");
   ("openai-compatible", "openai-compatible"); ("studio", "openai-compatible");
   ("oai", "openai-compatible"); ("lm-studio", "openai-compatible");
   ("lmstudio", "openai-compatible"); ("vllm", "openai-compatible");
   ("openrouter", "openai-compatible"); ("together", "openai-compatible");
   ("together-ai", "openai-compatible"); ("groq", "openai-compatible");
   ("localai", "openai-compatible"); ("anyscale", "openai-compatible");
   ("github-models", "github-models"); ("gh-models", "github-models")].

(** ** The allowlist (core/runtime_gating.py) *)

Definition DEFAULT_RUNTIME : string := "claude".
Definition MANUAL_ENABLE_ONLY : gset string := {["claude-subagents"; "dynamic-workflow"]}.
Definition ALLOWLIST_ENV : string := "AIFACTORY_RUNTIMES".
Definition _ALLOW_ALL_TOKEN : string := "all".

Definition known_runtimes : gset string :=
  list_to_set _AGENTIC_REGISTRY.*1 ∪ list_to_set _TEXT_REGISTRY.*1 ∪ MANUAL_ENABLE_ONLY.

Definition normalize_runtime (runtime : option string) : string :=
  let name := lower (strip (default "" runtime)) in
  if is_empty name then DEFAULT_RUNTIME else name.

Definition _canonical_token (token : string) : option string :=
  let resolved := default token (assoc token _PROVIDER_ALIASES) in
  if bool_decide (resolved ∈ known_runtimes) then Some resolved else None.

(** [{t.strip().lower() for t in raw.split(",") if t.strip()}], before the set is built:
    the failover chain reads its variable the same way and keeps the order. *)
Definition tokens_of (raw : string) : list string :=
  (fun t => lower (strip t)) <$> keep (fun t => negb (is_empty (strip t))) (split_on "," raw).

Definition operator_allowlist (env : environ) : res (gset string) :=
  let raw := strip (env_text env ALLOWLIST_ENV) in
  let enabled : gset string := {[DEFAULT_RUNTIME]} in
  if is_empty raw then Ok enabled
  else
    let tokens : gset string := list_to_set (tokens_of raw) in
    let enabled :=
      if bool_decide (_ALLOW_ALL_TOKEN ∈ tokens)
      then enabled ∪ known_runtimes ∖ MANUAL_ENABLE_ONLY else enabled in
    let named := elements (tokens ∖ {[_ALLOW_ALL_TOKEN]}) in
    let unknown := keep (fun t => bool_decide (_canonical_token t = None)) named in
    if list_truthy unknown then Err ValueError
    else Ok (enabled ∪ list_to_set (omap _canonical_token named)).

Definition RuntimeNotEnabledError : exn := AppError "RuntimeNotEnabledError".

Definition is_runtime_enabled (runtime : option string) (env : environ) : res bool :=
  let name := normalize_runtime runtime in
  let! enabled := operator_allowlist env in
  Ok (bool_decide (name ∈ enabled)).

Definition require_enabled (runtime : string) (env : environ) : res unit :=
  match is_runtime_enabled (Some runtime) env with
  | Ok true => Ok tt
  | Ok false => let! _ := operator_allowlist env in Err RuntimeNotEnabledError
  | Err e => Err e
  end.

(** The contract's [execution] block, any JSON value. *)
Definition runtime_from_execution (execution : json) : string :=
  match execution with
  | JObj d =>
      normalize_runtime (match dget "runtime" d with Some (JStr raw) => Some raw | _ => None end)
  | _ => DEFAULT_RUNTIME
  end.

Definition resolve_runtime (execution : json) (env : environ) : res string :=
  let runtime := runtime_from_execution execution in
  if String.eqb runtime DEFAULT_RUNTIME then Ok DEFAULT_RUNTIME
  else
    let! enabled := operator_allowlist env in
    if bool_decide (runtime ∈ enabled) then Ok runtime else Err RuntimeNotEnabledError.

Definition selectable_runtimes (env : environ) : res (list (string * bool)) :=
  let! enabled := operator_allowlist env in
  Ok ((fun name => (name, bool_decide (name ∈ enabled)))
        <$> sort_by String.leb (elements known_runtimes)).

(** ** The factory (providers/factory.py) *)

Definition _resolve_canonical (provider_name : string) : res string :=
  match assoc (lower (strip provider_name)) _PROVIDER_ALIASES with
  | Some canonical => Ok canonical
  | None => Err ValueError
  end.

(** Keyword arguments; [setdefault] keeps what the caller passed. *)
Abbreviation kwargs := (gmap string (option string)).
Definition setdefault (k : string) (v : option string) (kw : kwargs) : kwargs :=
  match kw !! k with Some _ => kw | None => <[k := v]> kw end.

(** The endpoints of providers/_ollama_http.py. *)
Fixpoint _first_env (env : environ) (names : list string) : option string :=
  match names with
  | [] => None
  | name :: names' =>
      let val := strip (env_text env name) in
      if is_empty val then _first_env env names' else Some val
  end.

Fixpoint lstrip_slashes (s : string) : string :=
  match s with
  | String c s' => if Ascii.eqb c "/" then lstrip_slashes s' else s
  | EmptyString => EmptyString
  end.
Definition rstrip_slashes (s : string) : string := String.rev (lstrip_slashes (String.rev s)).

Definition DEFAULT_OLLAMA_CLOUD_BASE_URL : string := "https://ollama.com".
Definition _CLOUD_BASE_URL_ENV : list string := ["OLLAMA_CLOUD_BASE_URL"].
Definition _API_KEY_ENV : list string := ["OLLAMA_API_KEY"].

Definition resolve_ollama_cloud_base_url (env : environ) : string :=
  rstrip_slashes (default DEFAULT_OLLAMA_CLOUD_BASE_URL (_first_env env _CLOUD_BASE_URL_ENV)).
Definition resolve_ollama_api_key (env : environ) : option string := _first_env env _API_KEY_ENV.

(** [os.environ.get("GITHUB_TOKEN") or os.environ.get("GH_TOKEN", "")] *)
Definition github_token (env : environ) : string :=
  if is_empty (env_text env "GITHUB_TOKEN") then env_text env "GH_TOKEN"
  else env_text env "GITHUB_TOKEN".

(** The canonical name of the class that is built, and its arguments. *)
Definition _apply_endpoint_defaults (env : environ) (canonical : string) (kw : kwargs)
  : res (string * kwargs) :=
  if String.eqb canonical "github-models" then
    let kw := setdefault "base_url" (Some "https://models.github.ai/inference") kw in
    let kw := setdefault "api_key" (Some (github_token env)) kw in
    match default (Some "openai/gpt-4.1") (kw !! "model") with
    | None => Err AttributeError
    | Some raw_model =>
        Ok ("openai-compatible",
            match after_prefix "github-models/" raw_model with
            | Some rest => <["model" := Some rest]> kw
            | None => kw
            end)
    end
  else if String.eqb canonical "ollama-cloud" then
    let kw := setdefault "base_url" (Some (resolve_ollama_cloud_base_url env)) kw in
    let kw := setdefault "api_key" (resolve_ollama_api_key env) kw in
    Ok ("ollama",
        match kw !! "model" with
        | Some (Some raw_model) =>
            match after_prefix "ollama-cloud:" raw_model with
            | Some rest => <["model" := Some rest]> kw
            | None => kw
            end
        | _ => kw
        end)
  else Ok (canonical, kw).

Definition _RUNTIME_TO_PROVIDER : list (string * string) :=
  [("claude", "claude"); ("codex", "codex"); ("antigravity", "antigravity");
   ("ollama", "ollama"); ("ollama-cloud", "ollama-cloud");
   ("claude-subagents", "claude"); ("dynamic-workflow", "claude")].

Definition runtime_to_provider (runtime : string) : string :=
  default runtime (assoc (lower (strip runtime)) _RUNTIME_TO_PROVIDER).

Definition is_agentic (phase : string) : bool := existsb (String.eqb phase) _AGENTIC_PHASES.
Definition registry_of (phase : string) : list (string * (string * string)) :=
  if is_agentic phase then _AGENTIC_REGISTRY else _TEXT_REGISTRY.

(** A lookup [registry[canonical]]. *)
Definition registry_get (canonical : string) (registry : list (string * (string * string)))
  : res (string * string) :=
  match assoc canonical registry with Some c => Ok c | None => Err (KeyError canonical) end.

Section Factory.
Context {Provider : Type}.
Variable instantiate : string * string -> kwargs -> res Provider.
Variable hardened : res unit.
Variable env : environ.

(** [get_provider] up to the construction: the class and its arguments. *)
Definition select_class (provider_name phase : string) (kw : kwargs)
  : res ((string * string) * kwargs) :=
  let! _ := hardened in
  let! canonical := _resolve_canonical provider_name in
  let! target := _apply_endpoint_defaults env canonical kw in
  let! _ := require_enabled target.1 env in
  if is_agentic phase && bool_decide (assoc target.1 _AGENTIC_REGISTRY = None) then Err ValueError
  else
    let! cls := registry_get target.1 (registry_of phase) in
    Ok (cls, target.2).

Definition get_provider (provider_name phase : string) (kw : kwargs) : res Provider :=
  let! c := select_class provider_name phase kw in
  instantiate c.1 c.2.

Definition get_qa_llm_provider (provider_name : string) (kw : kwargs) : res Provider :=
  let! canonical := _resolve_canonical provider_name in
  let! target := _apply_endpoint_defaults env canonical kw in
  let! _ := require_enabled target.1 env in
  let! cls := registry_get target.1 _TEXT_REGISTRY in
  instantiate cls target.2.

Definition get_runtime_provider (execution : json) (phase : string) (kw : kwargs)
  : res Provider :=
  let! runtime := resolve_runtime execution env in
  get_provider (runtime_to_provider runtime) phase kw.

Definition _TOOL_FALLBACK_ORDER : list string := ["claude"; "codex"; "antigravity"].
Definition _CLI_NAMES : list (string * string) :=
  [("claude", "claude"); ("codex", "codex"); ("antigravity", "antigravity")].

(** [ImportError] is what [_instantiate] raises for a module that cannot be loaded. *)
Definition caught (e : exn) : bool :=
  bool_decide (e = ValueError) || bool_decide (e = AppError "ImportError").

(** [installed] is [shutil.which(cli) is not None]. *)
Fixpoint fallback_loop (installed : string -> bool) (phase : string) (exclude : option string)
    (kw : kwargs) (order : list string) : res (option Provider) :=
  match order with
  | [] => Ok None
  | name :: order' =>
      if bool_decide (exclude = Some name) || negb (installed (default name (assoc name _CLI_NAMES)))
      then fallback_loop installed phase exclude kw order'
      else
        let kw' := if String.eqb name "claude" then setdefault "model" (Some "sonnet") kw else kw in
        match get_provider name phase kw' with
        | Ok p => Ok (Some p)
        | Err e => if caught e then fallback_loop installed phase exclude kw order' else Err e
        end
  end.

Definition get_tool_fallback_provider (installed : string -> bool) (phase : string)
    (exclude : option string) (kw : kwargs) : res (option Provider) :=
  fallback_loop installed phase exclude kw _TOOL_FALLBACK_ORDER.
End Factory.

(** ** The provider of a model name (phase_config.py) *)

(** The shorthands of [MODEL_ID_MAP]. *)
Definition MODEL_SHORTHANDS : list string :=
  ["opus"; "opus-4.8"; "opus-4.7"; "opus-1m"; "opus-4.5"; "sonnet"; "sonnet-4.6"; "haiku"].

(** [re.match("o[0-9]", m)] *)
Definition _is_openai_o_series (m : string) : bool :=
  match m with
  | String c (String d _) => Ascii.eqb c "o" && match digit_of d with Some _ => true | None => false end
  | _ => false
  end.

Definition infer_provider_from_model (env : environ) (model : string) : string :=
  let m := lower (strip model) in
  if startswith "github-models/" m then "github-models"
  else if startswith "studio:" m then "openai-compatible"
  else if startswith "ollama:" m then "ollama"
  else if startswith "copilot:" m then "copilot"
  else if startswith "opencode:" m then "opencode"
  else if startswith "openai:" m || startswith "openai-compatible:" m then "openai-compatible"
  else if startswith "bedrock/" m || startswith "vertex_ai/" m then "openai-compatible"
  else if existsb (String.eqb m) MODEL_SHORTHANDS || startswith "claude-" m then "claude"
  else if String.eqb m "default" || startswith "gpt-" m || contains "codex" m
          || _is_openai_o_series m then "codex"
  else if String.eqb m "antigravity" || startswith "antigravity-" m
          || startswith "antigravity:" m then "antigravity"
  else if startswith "gemini" m then "antigravity"
  else
    let env_provider := strip (env_text env "QA_LLM_PROVIDER") in
    if is_empty env_provider then "claude" else env_provider.

(** ** Failover (core/provider_failover.py) *)

Definition _DEFAULT_CHAIN : list string := ["claude"; "codex"; "antigravity"].

Definition _NO_FAILOVER_MARKERS : list string :=
  ["401"; "403"; "unauthorized"; "authentication"; "invalid api key"; "invalid_api_key";
   "expired"; "credential"; "permission denied"; "model not found"; "model_not_found";
   "no such model"; "unknown model"; "insufficient_quota"; "quota exceeded"; "billing"].

Definition configured_chain (env : environ) : list string :=
  let raw := strip (env_text env "AIFACTORY_PROVIDER_FAILOVER") in
  if is_empty raw then _DEFAULT_CHAIN
  else match tokens_of raw with [] => _DEFAULT_CHAIN | parsed => parsed end.

Definition provider_name (p : string) : string := lower (strip p).

Definition add_name (out : list string) (p : string) : list string :=
  let name := provider_name p in
  if negb (is_empty name) && negb (existsb (String.eqb name) out) then out ++ [name] else out.

Definition failover_chain (primary : string) (env : environ) : list string :=
  foldl add_name [] (primary :: configured_chain env).

Definition enabled_failover_chain (primary : string) (env : environ) : res (list string) :=
  let! allow := operator_allowlist env in
  let primary_name := provider_name primary in
  Ok (keep (fun name => String.eqb name primary_name || bool_decide (name ∈ allow))
        (failover_chain primary env)).

(** [used] is a set: only membership matters. *)
Definition next_provider (primary : string) (used : list string) (env : environ) (gated : bool)
  : res (option string) :=
  let used_set := provider_name <$> used in
  let! chain := if gated then enabled_failover_chain primary env
                else Ok (failover_chain primary env) in
  Ok (List.find (fun candidate => negb (existsb (String.eqb candidate) used_set)) chain).

Definition should_failover (error_text : option string) : bool :=
  match error_text with
  | None => true
  | Some t =>
      if is_empty t then true
      else negb (existsb (fun marker => contains marker (lower t)) _NO_FAILOVER_MARKERS)
  end.

(** Seconds are exact rationals, and the reading of the monotonic clock an argument.
    [from_env] is what [float] makes of the variable, when it is set and a number. *)
Record DeadlineBudget := { total_seconds : Q; start : Q }.
Definition _DEFAULT_DEADLINE_S : Q := 900.
Definition new_deadline (total : option Q) (from_env : option Q) (now : Q) : DeadlineBudget :=
  {| total_seconds := match total with Some t => t | None => default _DEFAULT_DEADLINE_S from_env end;
     start := now |}.
Definition elapsed (now : Q) (b : DeadlineBudget) : Q := (now - start b)%Q.
Definition remaining (now : Q) (b : DeadlineBudget) : Q :=
  Qmax 0 (total_seconds b - elapsed now b)%Q.
Definition expired (now : Q) (b : DeadlineBudget) : bool := Qle_bool (remaining now b) 0.

(** ** Lemmas on the tables *)

Lemma assoc_in {A} k (l : list (string * A)) v : assoc k l = Some v -> (k, v) ∈ l.
Proof.
  induction l as [|[k' v'] l IH]; cbn; [done|]. destruct (String.eqb_spec k k') as [->|_].
  - intros [= ->]. apply list_elem_of_here.
  - intros H. apply list_elem_of_further. by apply IH.
Qed.

(** A boolean check over a table holds of every entry that is looked up. *)
Lemma assoc_all {A} (f : string * A -> bool) (l : list (string * A)) k v :
  forallb f l = true -> assoc k l = Some v -> f (k, v) = true.
Proof. intros F H. rewrite forallb_spec in F. apply F. by apply assoc_in. Qed.

Definition is_canonical (c : string) : bool :=
  existsb (String.eqb c) _AGENTIC_REGISTRY.*1.

(** The names of the classes that are built: no destination among them. *)
Definition is_transport (c : string) : bool :=
  is_canonical c && negb (String.eqb c "github-models") && negb (String.eqb c "ollama-cloud").

Lemma alias_canonical k c : assoc k _PROVIDER_ALIASES = Some c -> is_canonical c = true.
Proof. apply (assoc_all (fun kv => is_canonical kv.2)). by vm_compute. Qed.

Lemma existsb_eqb (x : string) l : existsb (String.eqb x) l = true <-> x ∈ l.
Proof.
  rewrite existsb_spec. split.
  - intros (y & Hy & E). apply String.eqb_eq in E. by subst.
  - intros H. exists x. split; [done | apply String.eqb_refl].
Qed.

Lemma canonical_all (f : string -> bool) c :
  forallb f _AGENTIC_REGISTRY.*1 = true -> is_canonical c = true -> f c = true.
Proof. intros F H. rewrite forallb_spec in F. apply F. by apply existsb_eqb. Qed.

Lemma endpoint_transport env c kw t kw' :
  is_canonical c = true -> _apply_endpoint_defaults env c kw = Ok (t, kw') ->
  is_transport t = true.
Proof.
  intros C. unfold _apply_endpoint_defaults.
  destruct (String.eqb_spec c "github-models") as [->|N1].
  - destruct (default _ _) as [m|]; [|done]. intros [= <- _]. done.
  - destruct (String.eqb_spec c "ollama-cloud") as [->|N2].
    + intros [= <- _]. done.
    + intros [= <- _]. unfold is_transport. rewrite C.
      apply String.eqb_neq in N1, N2. by rewrite N1, N2.
Qed.

Lemma transport_canonical t : is_transport t = true -> is_canonical t = true.
Proof. unfold is_transport. intros H. by bprop. Qed.

Lemma canonical_normal c : is_canonical c = true -> normalize_runtime (Some c) = c.
Proof.
  intros H. apply String.eqb_eq.
  refine (canonical_all (fun c => String.eqb (normalize_runtime (Some c)) c) c _ H). by vm_compute.
Qed.

Lemma canonical_registered phase c :
  is_canonical c = true -> exists cls, assoc c (registry_of phase) = Some cls.
Proof.
  intros H. unfold registry_of. destruct (is_agentic phase).
  - assert (B : bool_decide (is_Some (assoc c _AGENTIC_REGISTRY)) = true).
    { refine (canonical_all (fun c => bool_decide (is_Some (assoc c _AGENTIC_REGISTRY))) c _ H).
      by vm_compute. }
    by apply bool_decide_eq_true in B as [cls ?]; exists cls.
  - assert (B : bool_decide (is_Some (assoc c _TEXT_REGISTRY)) = true).
    { refine (canonical_all (fun c => bool_decide (is_Some (assoc c _TEXT_REGISTRY))) c _ H).
      by vm_compute. }
    by apply bool_decide_eq_true in B as [cls ?]; exists cls.
Qed.

(** ** The allowlist *)

Definition allow_tokens (env : environ) : list string :=
  tokens_of (strip (env_text env ALLOWLIST_ENV)).

(** What a token of the allowlist enables. *)
Definition enables (env : environ) (r : string) : Prop :=
  r = DEFAULT_RUNTIME
  \/ (_ALLOW_ALL_TOKEN ∈ allow_tokens env /\ r ∈ known_runtimes /\ r ∉ MANUAL_ENABLE_ONLY)
  \/ (exists t, t ∈ allow_tokens env /\ t <> _ALLOW_ALL_TOKEN /\ _canonical_token t = Some r).

Definition token_known (t : string) : Prop :=
  t = _ALLOW_ALL_TOKEN \/ exists r, _canonical_token t = Some r.

Lemma list_truthy_keep {A} (f : A -> bool) l : list_truthy (keep f l) = existsb f l.
Proof. induction l as [|x l IH]; [done|]. unfold keep in *. cbn. by destruct (f x). Qed.

(** The set built from the tokens, for any table of names. *)
Lemma elem_of_named (t all : string) (tokens : list string) :
  t ∈ elements (list_to_set tokens ∖ {[all]} : gset string) <-> t ∈ tokens /\ t <> all.
Proof. rewrite elem_of_elements, elem_of_difference, elem_of_list_to_set, elem_of_singleton. done. Qed.

Lemma elem_of_enabled (f : string -> option string) (tokens : list string) (all dflt r : string)
    (known manual : gset string) :
  r ∈ (if bool_decide (all ∈ (list_to_set tokens : gset string))
       then {[dflt]} ∪ known ∖ manual else {[dflt]})
      ∪ (list_to_set (omap f (elements (list_to_set tokens ∖ {[all]} : gset string))) : gset string)
  <-> r = dflt \/ (all ∈ tokens /\ r ∈ known /\ r ∉ manual)
      \/ (exists t, t ∈ tokens /\ t <> all /\ f t = Some r).
Proof.
  assert (X : r ∈ omap f (elements (list_to_set tokens ∖ {[all]} : gset string))
              <-> exists t, t ∈ tokens /\ t <> all /\ f t = Some r).
  { rewrite list_elem_of_omap.
    split; intros (t & Ht); exists t; pose proof (elem_of_named t all tokens); naive_solver. }
  case_bool_decide as A; rewrite elem_of_list_to_set in A;
    rewrite elem_of_union, elem_of_list_to_set, X.
  - rewrite elem_of_union, elem_of_singleton, elem_of_difference. naive_solver.
  - rewrite elem_of_singleton. naive_solver.
Qed.

Lemma operator_allowlist_cases env :
  (exists s, operator_allowlist env = Ok s
     /\ (forall t, t ∈ allow_tokens env -> token_known t)
     /\ (forall r, r ∈ s <-> enables env r))
  \/ (operator_allowlist env = Err ValueError
      /\ exists t, t ∈ allow_tokens env /\ t <> _ALLOW_ALL_TOKEN /\ _canonical_token t = None).
Proof.
  unfold operator_allowlist, enables.
  assert (T : tokens_of (strip (env_text env ALLOWLIST_ENV)) = allow_tokens env) by done.
  destruct (is_empty (strip (env_text env ALLOWLIST_ENV))) eqn:Em.
  { left. exists {[DEFAULT_RUNTIME]}.
    assert (Z : allow_tokens env = []) by (rewrite <- T; by destruct (strip _)). rewrite Z.
    split; [done|]. split; [by intros t ?%elem_of_nil|]. intros r. split; [set_solver|].
    intros [->|[(?%elem_of_nil & _)|(t & ?%elem_of_nil & _)]]; [set_solver | done..]. }
  rewrite T, list_truthy_keep. destruct (existsb _ _) eqn:U.
  - right. split; [done|]. apply existsb_spec in U as (t & Ht & Hn).
    apply elem_of_named in Ht as [Ht Na]. apply bool_decide_eq_true in Hn.
    exists t. exact (conj Ht (conj Na Hn)).
  - left. eexists. split; [reflexivity|]. split.
    + intros t Ht. destruct (decide (t = _ALLOW_ALL_TOKEN)) as [->|Na]; [by left|]. right.
      assert (Hd := proj1 (existsb_false _ _) U t (proj2 (elem_of_named t _ _) (conj Ht Na))).
      apply bool_decide_eq_false in Hd. destruct (_canonical_token t) as [r|]; [by exists r | done].
    + intros r. apply elem_of_enabled.
Qed.

(** The speed-up runtimes need their own name. *)
Lemma manual_named env r :
  enables env r -> r ∈ MANUAL_ENABLE_ONLY -> r ∈ allow_tokens env.
Proof.
  intros [->|[(_ & _ & N)|(t & Ht & _ & Hc)]] M; [|done|].
  - assert (B : bool_decide (DEFAULT_RUNTIME ∈ MANUAL_ENABLE_ONLY) = false) by (by vm_compute).
    by rewrite bool_decide_eq_true_2 in B.
  - enough (t = r) by (by subst). unfold _canonical_token in Hc.
    destruct (assoc t _PROVIDER_ALIASES) as [c|] eqn:A; cbn in Hc; case_bool_decide; simplify_eq; [|done].
    exfalso. apply (assoc_all (fun kv => negb (existsb (String.eqb kv.2)
                       ["claude-subagents"; "dynamic-workflow"]))) in A; [|by vm_compute].
    apply elem_of_union in M as [M|M]; apply elem_of_singleton in M as ->; discriminate A.
Qed.

(** ** The factory *)

Lemma require_enabled_Ok t env :
  is_canonical t = true ->
  require_enabled t env = Ok tt <-> exists s, operator_allowlist env = Ok s /\ t ∈ s.
Proof.
  intros C. unfold require_enabled, is_runtime_enabled. rewrite (canonical_normal t C).
  destruct (operator_allowlist env) as [s|e]; cbn.
  - case_bool_decide as M; split; [by exists s | done | done |].
    intros (s' & [= <-] & ?). done.
  - split; [done|]. by intros (s & ? & _).
Qed.

Lemma require_refuses t env s :
  is_canonical t = true -> operator_allowlist env = Ok s -> t ∉ s ->
  require_enabled t env = Err RuntimeNotEnabledError.
Proof.
  intros C A N. unfold require_enabled, is_runtime_enabled. rewrite (canonical_normal t C), A.
  cbn. by rewrite bool_decide_eq_false_2.
Qed.

Lemma require_error t env e :
  require_enabled t env = Err e -> e = ValueError \/ e = RuntimeNotEnabledError.
Proof.
  unfold require_enabled, is_runtime_enabled.
  destruct (operator_allowlist_cases env) as [(s & -> & _)|[-> _]]; cbn; [|naive_solver].
  destruct (bool_decide _); naive_solver.
Qed.

Lemma resolve_canonical n c : _resolve_canonical n = Ok c -> is_canonical c = true.
Proof.
  unfold _resolve_canonical. destruct (assoc _ _) as [c'|] eqn:A; [|done].
  intros [= <-]. by eapply alias_canonical.
Qed.

(** What both entry points share: the class [cls] of an enabled transport of the name. *)
Definition routed (env : environ) (registry : list (string * (string * string))) (name : string)
    (kw : kwargs) (cls : string * string) (kw' : kwargs) : Prop :=
  exists canonical target s,
    _resolve_canonical name = Ok canonical
    /\ _apply_endpoint_defaults env canonical kw = Ok (target, kw')
    /\ operator_allowlist env = Ok s /\ target ∈ s
    /\ assoc target registry = Some cls.

Lemma registry_get_inv c registry cls :
  registry_get c registry = Ok cls -> assoc c registry = Some cls.
Proof. unfold registry_get. destruct (assoc c registry); [by intros [= ->] | done]. Qed.

Lemma routed_intro env registry name kw canonical target cls :
  _resolve_canonical name = Ok canonical ->
  _apply_endpoint_defaults env canonical kw = Ok target ->
  require_enabled target.1 env = Ok tt -> registry_get target.1 registry = Ok cls ->
  routed env registry name kw cls target.2.
Proof.
  intros R E Q G. destruct target as [t kw']. cbn in *.
  assert (T := endpoint_transport _ _ _ _ _ (resolve_canonical _ _ R) E).
  apply require_enabled_Ok in Q as (s & A & M); [|by apply transport_canonical].
  exists canonical, t, s. split_and!; try done. by apply registry_get_inv.
Qed.

Lemma select_class_inv hardened env name phase kw cls kw' :
  select_class hardened env name phase kw = Ok (cls, kw') ->
  hardened = Ok tt /\ routed env (registry_of phase) name kw cls kw'.
Proof.
  unfold select_class. intros H.
  apply bind_Ok_inv in H as ([] & Hh & H). apply bind_Ok_inv in H as (c & Hc & H).
  apply bind_Ok_inv in H as (t & Ht & H). apply bind_Ok_inv in H as ([] & Hr & H).
  destruct (is_agentic phase && _); [done|]. apply bind_Ok_inv in H as (cls' & Hg & [= -> <-]).
  split; [done|]. by eapply routed_intro.
Qed.

Lemma text_class_inv {Provider} (instantiate : string * string -> kwargs -> res Provider) env name kw p :
  get_qa_llm_provider instantiate env name kw = Ok p ->
  exists cls kw', routed env _TEXT_REGISTRY name kw cls kw' /\ instantiate cls kw' = Ok p.
Proof.
  unfold get_qa_llm_provider. intros H.
  apply bind_Ok_inv in H as (c & Hc & H). apply bind_Ok_inv in H as (t & Ht & H).
  apply bind_Ok_inv in H as ([] & Hr & H). apply bind_Ok_inv in H as (cls & Hg & H).
  exists cls, t.2. split; [by eapply routed_intro | done].
Qed.

(** A name that resolves always has a class: the factory raises no [KeyError]. *)
Lemma no_key_error env name phase kw k :
  select_class (Ok tt) env name phase kw <> Err (KeyError k).
Proof.
  unfold select_class. cbn [mbind res_bind].
  destruct (_resolve_canonical name) as [c|e] eqn:R; cbn [mbind res_bind];
    [|unfold _resolve_canonical in R; destruct (assoc _ _); congruence].
  assert (C := resolve_canonical _ _ R).
  destruct (_apply_endpoint_defaults env c kw) as [[t kw']|e] eqn:E; cbn [mbind res_bind fst snd].
  - assert (T := transport_canonical _ (endpoint_transport _ _ _ _ _ C E)).
    destruct (require_enabled t env) as [[]|e] eqn:Q; cbn [mbind res_bind];
      [|by destruct (require_error _ _ _ Q) as [-> | ->]].
    destruct (is_agentic phase && _); [done|].
    destruct (canonical_registered phase t T) as [cls Hcls]. unfold registry_get. by rewrite Hcls.
  - unfold _apply_endpoint_defaults in E.
    destruct (String.eqb c "github-models"); [destruct (default _ _); congruence|].
    destruct (String.eqb c "ollama-cloud"); congruence.
Qed.

(** ** The rotation *)

Lemma provider_name_idem p : provider_name (provider_name p) = provider_name p.
Proof. unfold provider_name. by rewrite <- lower_strip, strip_idem, lower_idem. Qed.

(** The names a chain can hold. *)
Definition normal (p : string) : Prop := provider_name p = p /\ is_empty p = false.

(** The configured providers, as the chain of an empty primary: each once, in order. *)
Definition ordered (env : environ) : list string := foldl add_name [] (configured_chain env).

Lemma add_name_spec out p :
  NoDup out -> Forall normal out ->
  NoDup (add_name out p) /\ Forall normal (add_name out p).
Proof.
  intros N F. unfold add_name. destruct (negb _ && _) eqn:E; [|done]. bprop.
  assert (M : provider_name p ∉ out) by (intros M; apply existsb_eqb in M; congruence).
  split.
  - apply NoDup_app. split_and!; [done | | apply NoDup_singleton].
    intros x Hx ->%list_elem_of_singleton. done.
  - apply Forall_app. split; [done|]. repeat constructor; [apply provider_name_idem | done].
Qed.

Lemma chain_spec l : forall out, NoDup out -> Forall normal out ->
  NoDup (foldl add_name out l) /\ Forall normal (foldl add_name out l).
Proof.
  induction l as [|p l IH]; intros out N F; [done|]. cbn.
  destruct (add_name_spec out p N F). by apply IH.
Qed.

Definition without (c : string) (l : list string) : list string :=
  keep (fun x => negb (String.eqb x c)) l.

Lemma elem_of_without c l x : x ∈ without c l <-> x ∈ l /\ x <> c.
Proof. unfold without. rewrite elem_of_keep, negb_true_iff, String.eqb_neq. done. Qed.

Lemma without_app c l k : without c (l ++ k) = without c l ++ without c k.
Proof. apply List.filter_app. Qed.

Lemma without_one c n : without c [n] = if String.eqb n c then [] else [n].
Proof. unfold without, keep. cbn. by destruct (String.eqb n c). Qed.

(** Starting with one name puts it first and drops it from the rest. *)
Lemma chain_from c l : forall out,
  foldl add_name (c :: without c out) l = c :: without c (foldl add_name out l).
Proof.
  induction l as [|p l IH]; intros out; [done|]. cbn [foldl]. rewrite <- IH. f_equal.
  unfold add_name. generalize (provider_name p). intros n. destruct (is_empty n); [done|]. cbn [negb andb].
  assert (M : existsb (String.eqb n) (c :: without c out)
              = String.eqb n c || existsb (String.eqb n) out).
  { cbn. destruct (String.eqb_spec n c) as [|N]; [done|]. cbn. apply Bool.eq_iff_eq_true.
    rewrite !existsb_eqb, elem_of_without. naive_solver. }
  rewrite M. clear M. destruct (String.eqb n c) eqn:N; cbn [orb].
  - apply String.eqb_eq in N as ->. destruct (existsb (String.eqb c) out); [done|].
    cbn [negb]. by rewrite without_app, without_one, String.eqb_refl, app_nil_r.
  - destruct (existsb (String.eqb n) out); [done|]. 
    cbn [negb app]. by rewrite without_app, without_one, N.
Qed.

Lemma chain_of_primary p env :
  normal p -> failover_chain p env = p :: without p (ordered env).
Proof.
  intros [N E]. unfold failover_chain, ordered. cbn [foldl].
  assert (A : add_name [] p = p :: without p []) by (unfold add_name; rewrite N; by rewrite E).
  rewrite A. apply chain_from.
Qed.

Lemma elem_of_chain p env x : x ∈ failover_chain p env -> x = provider_name p \/ x ∈ ordered env.
Proof.
  unfold failover_chain, ordered. cbn [foldl]. unfold add_name at 2. cbn [existsb negb].
  destruct (is_empty (provider_name p)); cbn [negb andb app]; [by right|].
  intros H. pose proof (chain_from (provider_name p) (configured_chain env) []) as C.
  cbn [without keep List.filter] in C. rewrite C in H.
  apply elem_of_cons in H as [->|H]; [by left|]. apply elem_of_without in H as [H _]. by right.
Qed.

(** What the gate leaves of the chain besides the provider that runs. *)
Definition allowed (env : environ) (gated : bool) (name : string) : bool :=
  if gated then
    match operator_allowlist env with Ok s => bool_decide (name ∈ s) | Err _ => false end
  else true.

Definition alternatives (p : string) (env : environ) (gated : bool) : list string :=
  keep (allowed env gated) (without p (ordered env)).

Lemma find_keep {A} (f g : A -> bool) l :
  List.find f (keep g l) = List.find (fun x => g x && f x) l.
Proof.
  induction l as [|x l IH]; [done|]. unfold keep in *. cbn. destruct (g x); cbn; by rewrite IH.
Qed.

Lemma keep_every {A} (f : A -> bool) l : (forall x, f x = true) -> keep f l = l.
Proof. intros H. induction l as [|x l IH]; [done|]. unfold keep in *. cbn. by rewrite H, IH. Qed.

Lemma find_ext {A} (f g : A -> bool) l : (forall x, x ∈ l -> f x = g x) -> List.find f l = List.find g l.
Proof.
  induction l as [|x l IH]; intros H; [done|]. cbn. rewrite (H x) by apply list_elem_of_here.
  rewrite IH; [done|]. intros y Hy. apply H. by apply list_elem_of_further.
Qed.

Lemma find_after (l1 l2 : list string) :
  NoDup (l1 ++ l2) -> List.find (fun x => negb (existsb (String.eqb x) l1)) (l1 ++ l2) = head l2.
Proof.
  intros N. assert (S : forall k, (forall x, x ∈ k -> x ∈ l1) ->
    List.find (fun x => negb (existsb (String.eqb x) l1)) (k ++ l2) = head l2).
  { induction k as [|x k IH]; intros H.
    - destruct l2 as [|y l2]; [done|]. cbn.
      assert (M : y ∉ l1).
      { intros M. apply NoDup_app in N as (_ & D & _). apply (D y M), list_elem_of_here. }
      destruct (existsb (String.eqb y) l1) eqn:E; [by apply existsb_eqb in E | done].
    - cbn. rewrite (proj2 (existsb_eqb x l1)) by (apply H, list_elem_of_here). cbn.
      apply IH. intros y Hy. by apply H, list_elem_of_further. }
  by apply S.
Qed.

Lemma ordered_spec env : NoDup (ordered env) /\ Forall normal (ordered env).
Proof. apply chain_spec; constructor. Qed.

Lemma alternatives_sub p env gated x :
  x ∈ alternatives p env gated -> x ∈ ordered env /\ x <> p /\ allowed env gated x = true.
Proof. unfold alternatives. rewrite elem_of_keep, elem_of_without. naive_solver. Qed.

Lemma alternatives_NoDup p env gated : NoDup (alternatives p env gated).
Proof.
  destruct (ordered_spec env) as [N _].
  eapply sublist_NoDup; [exact N|]. unfold alternatives, without.
  etrans; apply keep_sublist.
Qed.

(** The next provider, after the names [l1] of the rotation from [p]. *)
Lemma next_in_rotation p env (gated : bool) current used l1 l2 :
  normal p -> (gated = true -> is_ok (operator_allowlist env) = true) ->
  alternatives p env gated = l1 ++ l2 ->
  current ∈ p :: l1 -> (forall x, x ∈ used <-> x ∈ p :: l1) ->
  next_provider current used env gated = Ok (head l2).
Proof.
  intros Np G A C U.
  destruct (ordered_spec env) as [No Fo]. rewrite Forall_forall in Fo.
  assert (Nl : forall x, x ∈ p :: l1 -> normal x).
  { intros x [->|Hx]%elem_of_cons; [done|]. apply Fo, (alternatives_sub p env gated).
    rewrite A. apply elem_of_app. by left. }
  assert (Us : provider_name <$> used = used).
  { rewrite <- (list_fmap_id used) at 2. apply list_fmap_ext. intros i x Hx. apply Nl.
    by eapply U, list_elem_of_lookup_2. }
  assert (Fu : List.find (fun x => negb (existsb (String.eqb x) used))
                 (keep (fun x => String.eqb x current || allowed env gated x)
                    (failover_chain current env)) = head l2).
  { rewrite chain_of_primary by (by apply Nl). rewrite find_keep. cbn [List.find].
    rewrite (proj2 (existsb_eqb current used)) by (by apply U).
    cbn [negb]. rewrite andb_false_r. unfold without. rewrite find_keep.
    rewrite <- (find_after l1 l2) by (rewrite <- A; apply alternatives_NoDup).
    rewrite <- A. unfold alternatives, without. rewrite !find_keep.
    apply find_ext. intros x Hx. apply Bool.eq_iff_eq_true.
    rewrite !andb_true_iff, !negb_true_iff, orb_true_iff, !String.eqb_eq, !String.eqb_neq,
      <- !not_true_iff_false, !existsb_eqb, U.
    rewrite !elem_of_cons in *. naive_solver. }
  unfold next_provider. rewrite Us. destruct gated.
  - specialize (G eq_refl). unfold enabled_failover_chain, allowed in *.
    destruct (operator_allowlist env) as [s|]; [|done]. cbn [mbind res_bind].
    rewrite (proj1 (Nl current C)). by rewrite Fu.
  - cbn [mbind res_bind]. rewrite <- Fu, keep_every; [done|]. intros x. apply orb_true_r.
Qed.

(** The providers a loop runs through that, after each failure, adds the current provider
    to the used ones and asks for the next: [used] are those before [current]. *)
Fixpoint rotation (fuel : nat) (env : environ) (gated : bool) (current : string)
    (used : list string) : list string :=
  current ::
    match fuel with
    | O => []
    | S fuel =>
        match next_provider current (current :: used) env gated with
        | Ok (Some candidate) => rotation fuel env gated candidate (current :: used)
        | _ => []
        end
    end.

Lemma rotation_spec p env (gated : bool) :
  normal p -> (gated = true -> is_ok (operator_allowlist env) = true) ->
  forall l2 l1 fuel current used,
    alternatives p env gated = l1 ++ l2 -> length l2 <= fuel ->
    current ∈ p :: l1 -> (forall x, x ∈ current :: used <-> x ∈ p :: l1) ->
    rotation fuel env gated current used = current :: l2.
Proof.
  intros Np G. induction l2 as [|y l2 IH]; intros l1 fuel current used A F C U.
  - destruct fuel as [|fuel]; [done|]. cbn [rotation].
    by rewrite (next_in_rotation p env gated current (current :: used) l1 []).
  - destruct fuel as [|fuel]; cbn in F; [lia|]. cbn [rotation].
    rewrite (next_in_rotation p env gated current (current :: used) l1 (y :: l2)) by done.
    cbn [head]. f_equal. apply (IH (l1 ++ [y])).
    + by rewrite <- app_assoc.
    + lia.
    + apply elem_of_cons. right. apply elem_of_app. right. apply list_elem_of_here.
    + intros x. rewrite elem_of_cons, U, !elem_of_cons, elem_of_app, list_elem_of_singleton. tauto.
Qed.

Lemma ordered_length env : length (ordered env) <= length (configured_chain env).
Proof.
  unfold ordered. assert (L : forall l out, length (foldl add_name out l) <= length out + length l).
  { induction l as [|p l IH]; intros out; cbn; [lia|]. specialize (IH (add_name out p)).
    enough (length (add_name out p) <= S (length out)) by lia.
    unfold add_name. destruct (_ && _); [rewrite length_app; cbn; lia | lia]. }
  apply (L _ []).
Qed.

(** ** Further facts *)

(** A model name alone decides the provider, and the factory knows it, unless the operator
    set QA_LLM_PROVIDER. *)
Lemma inferred_provider_resolves env model :
  strip (env_text env "QA_LLM_PROVIDER") = "" ->
  is_canonical (infer_provider_from_model env model) = true
  /\ _resolve_canonical (infer_provider_from_model env model)
     = Ok (infer_provider_from_model env model).
Proof.
  intros H. unfold infer_provider_from_model. rewrite H. cbn [is_empty].
  repeat (case_if; [by vm_compute|]). by vm_compute.
Qed.

(** A model pinned to the hosted Ollama, which the budget prices as such, is not routed
    there. *)
Lemma ollama_cloud_model_runs_on_claude env :
  strip (env_text env "QA_LLM_PROVIDER") = "" ->
  infer_provider_from_model env "ollama-cloud:qwen3" = "claude".
Proof.
  intros H. unfold infer_provider_from_model. rewrite H. by vm_compute.
Qed.

Lemma lookup_setdefault k k' v (kw : kwargs) :
  setdefault k v kw !! k' = if String.eqb k' k then Some (default v (kw !! k)) else kw !! k'.
Proof.
  unfold setdefault. destruct (String.eqb_spec k' k) as [->|N].
  - destruct (kw !! k) eqn:E; [done | by rewrite lookup_insert_eq].
  - destruct (kw !! k) eqn:E; [done | by rewrite lookup_insert_ne].
Qed.

Lemma Ok_pair_inj {A B} (a c : A) (b d : B) : Ok (a, b) = Ok (c, d) -> a = c /\ b = d.
Proof. by intros [= -> ->]. Qed.

Lemma cloud_endpoint env kw t kw' :
  env !! "OLLAMA_CLOUD_BASE_URL" = None -> kw !! "base_url" = None ->
  _apply_endpoint_defaults env "ollama-cloud" kw = Ok (t, kw') ->
  t = "ollama" /\ kw' !! "base_url" = Some (Some "https://ollama.com").
Proof.
  intros V B. unfold _apply_endpoint_defaults. cbn [String.eqb Ascii.eqb Bool.eqb].
  assert (U : resolve_ollama_cloud_base_url env = "https://ollama.com").
  { unfold resolve_ollama_cloud_base_url. cbn [_first_env _CLOUD_BASE_URL_ENV].
    unfold env_text. rewrite V. by vm_compute. }
  rewrite U. intros E.
  set (kw2 := setdefault "api_key" _ _) in E.
  assert (K : kw2 !! "base_url" = Some (Some "https://ollama.com")).
  { unfold kw2. rewrite !lookup_setdefault. cbn. by rewrite B. }
  apply Ok_pair_inj in E as [<- <-]. split; [done|].
  destruct (kw2 !! "model") as [[m|]|]; [|done..].
  destruct (after_prefix "ollama-cloud:" m); [by rewrite lookup_insert_ne | done].
Qed.

(** The gate asks for the transport, not for the destination: the hosted Ollama is refused
    with its own name in the allowlist, and built with the name of the self-hosted one. *)
Lemma cloud_is_gated_by_its_transport env s phase kw :
  operator_allowlist env = Ok s ->
  ("ollama" ∉ s ->
     select_class (Ok tt) env "ollama-cloud" phase kw = Err RuntimeNotEnabledError)
  /\ ("ollama" ∈ s -> kw !! "base_url" = None -> env !! "OLLAMA_CLOUD_BASE_URL" = None ->
      exists cls kw', select_class (Ok tt) env "ollama-cloud" phase kw = Ok (cls, kw')
        /\ kw' !! "base_url" = Some (Some "https://ollama.com")).
Proof.
  intros A. unfold select_class. cbn [mbind res_bind].
  change (_resolve_canonical "ollama-cloud") with (Ok "ollama-cloud"). cbn [mbind res_bind].
  destruct (_apply_endpoint_defaults env "ollama-cloud" kw) as [[t kw']|e] eqn:E; [|by cbn in E].
  assert (T : t = "ollama") by (by cbn in E; injection E as <- _). subst t.
  cbn [mbind res_bind fst snd]. split.
  - intros N. by rewrite (require_refuses "ollama" env s).
  - intros M B V. rewrite (proj2 (require_enabled_Ok "ollama" env eq_refl)) by (by exists s).
    cbn [mbind res_bind].
    destruct (canonical_registered phase "ollama" eq_refl) as [cls Hc].
    unfold registry_get. rewrite Hc. exists cls, kw'.
    destruct (cloud_endpoint _ _ _ _ V B E) as [_ K]. split; [|done].
    by destruct (is_agentic phase).
Qed.

(** So a contract that opts into the runtime its operator enabled is refused. *)
Lemma enabled_cloud_is_refused {P} (instantiate : string * string -> kwargs -> res P) phase kw :
  let env := {[ALLOWLIST_ENV := "ollama-cloud"]} in
  let execution := JObj [("runtime", JStr "ollama-cloud")] in
  resolve_runtime execution env = Ok "ollama-cloud"
  /\ get_runtime_provider instantiate (Ok tt) env execution phase kw = Err RuntimeNotEnabledError.
Proof.
  cbv zeta. set (env := {[ALLOWLIST_ENV := "ollama-cloud"]} : environ).
  assert (R : resolve_runtime (JObj [("runtime", JStr "ollama-cloud")]) env = Ok "ollama-cloud")
    by (by vm_compute).
  split; [done|]. unfold get_runtime_provider. rewrite R. cbn [mbind res_bind].
  destruct (operator_allowlist env) as [s|e] eqn:A; [|by vm_compute in A].
  assert (N : "ollama" ∉ s).
  { assert (B : match operator_allowlist env with Ok s => bool_decide ("ollama" ∈ s)
                | Err _ => true end = false) by (by vm_compute).
    rewrite A in B. by apply bool_decide_eq_false in B. }
  unfold get_provider. change (runtime_to_provider "ollama-cloud") with "ollama-cloud".
  by rewrite (proj1 (cloud_is_gated_by_its_transport env s phase kw A) N).
Qed.

(** The provider of a QA review is built without the check of the process that
    [get_provider] makes first. *)
Lemma qa_factory_skips_hardening {P} (p : P) env phase kw e :
  let instantiate := fun (_ : string * string) (_ : kwargs) => Ok p in
  operator_allowlist env = Ok {["claude"; "codex"]} ->
  get_provider instantiate (Err e) env "codex" phase kw = Err e
  /\ get_qa_llm_provider instantiate env "codex" kw = Ok p.
Proof.
  cbv zeta. intros A. split; [done|]. unfold get_qa_llm_provider.
  change (_resolve_canonical "codex") with (Ok "codex"). cbn [mbind res_bind].
  change (_apply_endpoint_defaults env "codex" kw) with (Ok ("codex", kw)).
  cbn [mbind res_bind fst].
  by rewrite (proj2 (require_enabled_Ok "codex" env eq_refl)) by (exists {["claude"; "codex"]}; set_solver).
Qed.

(** A fallback the operator has not enabled raises instead of being skipped. *)
Lemma fallback_raises_on_disabled {P} (instantiate : string * string -> kwargs -> res P) phase kw :
  get_tool_fallback_provider instantiate (Ok tt) ∅ (fun cli => String.eqb cli "codex") phase None kw
  = Err RuntimeNotEnabledError.
Proof. by vm_compute. Qed.

(** An alias in the configured chain never matches the allowlist, which holds canonical
    names: the provider both variables name is left out. *)
Lemma alias_is_dropped_from_failover :
  let env := {["AIFACTORY_PROVIDER_FAILOVER" := "gemini"; ALLOWLIST_ENV := "gemini"]} in
  next_provider "claude" ["claude"] env false = Ok (Some "gemini")
  /\ next_provider "claude" ["claude"] env true = Ok None
  /\ is_runtime_enabled (Some "antigravity") env = Ok true.
Proof. by vm_compute. Qed.

(** ** Properties *)

(** The allowlist is exactly what the operator named.  When every token is
    known, a runtime is enabled exactly when it is claude, the name or an alias of it is a
    token, or [all] is a token and the runtime is not one of the speed-up runtimes; those
    need their own name.  One unknown token is a ValueError, and nothing else is raised. *)
Theorem allowlist_is_exact (env : environ) :
  (forall s, operator_allowlist env = Ok s ->
     (forall t, t ∈ allow_tokens env -> token_known t)
     /\ (forall r, r ∈ s <-> enables env r)
     /\ (forall r, r ∈ s -> r ∈ MANUAL_ENABLE_ONLY -> r ∈ allow_tokens env))
  /\ (forall e, operator_allowlist env = Err e ->
        e = ValueError /\ exists t, t ∈ allow_tokens env /\ ~ token_known t)
  /\ (forall t, t ∈ allow_tokens env -> ~ token_known t -> operator_allowlist env = Err ValueError).
Proof.
  destruct (operator_allowlist_cases env) as [(s & A & K & E)|[A (t & Ht & Na & Hn)]]; rewrite A.
  - split_and!.
    + intros s' [= <-]. split_and!; [done | done|]. intros r Hr M.
      by apply manual_named; [apply E|].
    + done.
    + intros t Ht N. by destruct (N (K t Ht)).
  - split_and!; [done | | done]. intros e [= <-]. split; [done|]. exists t. split; [done|].
    intros [->|[r Hr]]; congruence.
Qed.

(** C29 (safety): no provider is built behind the operator's back.  Whatever entry point
    returns a provider, the name resolved to a canonical one, and the class built is the
    class, for the phase, of a transport in the operator's allowlist, with the endpoint
    of that name filled in; through [get_provider] the process was hardened, and through a
    contract the runtime it names is enabled too.  No name makes the factory raise a
    KeyError. *)
Theorem built_provider_was_enabled {P} (instantiate : string * string -> kwargs -> res P)
    (hardened : res unit) (env : environ) (phase : string) (kw : kwargs) :
  (forall name p, get_provider instantiate hardened env name phase kw = Ok p ->
     hardened = Ok tt
     /\ exists cls kw', routed env (registry_of phase) name kw cls kw' /\ instantiate cls kw' = Ok p)
  /\ (forall name p, get_qa_llm_provider instantiate env name kw = Ok p ->
     exists cls kw', routed env _TEXT_REGISTRY name kw cls kw' /\ instantiate cls kw' = Ok p)
  /\ (forall execution p, get_runtime_provider instantiate hardened env execution phase kw = Ok p ->
     exists s, operator_allowlist env = Ok s /\ runtime_from_execution execution ∈ s
       /\ get_provider instantiate hardened env
            (runtime_to_provider (runtime_from_execution execution)) phase kw = Ok p)
  /\ (forall name k, select_class (Ok tt) env name phase kw <> Err (KeyError k)).
Proof.
  split_and!; [| intros name p; apply text_class_inv | | intros; apply no_key_error].
  - intros name p H. apply bind_Ok_inv in H as ([cls kw'] & S & I).
    apply select_class_inv in S as [Hh R]. split; [done|]. by exists cls, kw'.
  - intros execution p H. apply bind_Ok_inv in H as (r & R & G).
    assert (A : exists s, operator_allowlist env = Ok s).
    { apply bind_Ok_inv in G as ([cls kw'] & S & _).
      apply select_class_inv in S as [_ (c & t & s & _ & _ & A & _)]. by exists s. }
    destruct A as [s A]. exists s. split; [done|]. unfold resolve_runtime in R. rewrite A in R.
    destruct (String.eqb_spec (runtime_from_execution execution) DEFAULT_RUNTIME) as [Ed|_].
    + injection R as <-. rewrite Ed. split; [|done].
      destruct (operator_allowlist_cases env) as [(s' & A' & _ & E)|[A' _]]; [|congruence].
      replace s with s' by congruence. apply E. by left.
    + cbn in R. case_bool_decide; [|done]. by injection R as <-.
Qed.

(** The rotation of providers tries each once and ends.  From a provider
    [p], a loop that asks for the next provider after each failure runs through [p] and
    then, in the configured order and each once, the other configured providers, only the
    enabled ones when gated; after the last there is none, so there are at most as many
    failovers as configured names. *)
Theorem failover_tries_each_once (env : environ) (gated : bool) (p : string) (fuel : nat) :
  normal p -> (gated = true -> is_ok (operator_allowlist env) = true) ->
  length (configured_chain env) <= fuel ->
  let visited := rotation fuel env gated p [] in
  visited = p :: alternatives p env gated
  /\ NoDup visited
  /\ (forall x, x ∈ visited -> x = p \/ (x ∈ ordered env /\ allowed env gated x = true))
  /\ (forall current, current ∈ visited -> next_provider current visited env gated = Ok None)
  /\ length visited <= S (length (configured_chain env)).
Proof.
  intros Np G F. assert (L : length (alternatives p env gated) <= length (configured_chain env)).
  { etrans; [|apply ordered_length]. unfold alternatives, without.
    apply sublist_length. etrans; apply keep_sublist. }
  assert (R : rotation fuel env gated p [] = p :: alternatives p env gated).
  { apply (rotation_spec p env gated Np G (alternatives p env gated) []); [done | lia | |].
    - apply list_elem_of_here.
    - done. }
  cbv zeta. rewrite R. split_and!; [done | | | | cbn; lia].
  - apply NoDup_cons. split; [|apply alternatives_NoDup].
    intros H%alternatives_sub. naive_solver.
  - intros x [->|H%alternatives_sub]%elem_of_cons; [by left | right; naive_solver].
  - intros current C. apply (next_in_rotation p env gated current _ (alternatives p env gated) []);
      [done | done | by rewrite app_nil_r | done | done].
Qed.

Lemma failover_tries_each_once_witness :
  normal "claude" /\ rotation 3 ∅ true "claude" [] = ["claude"]
  /\ rotation 3 {[ALLOWLIST_ENV := "codex,gemini"]} true "codex" [] = ["codex"; "claude"; "antigravity"]
  /\ NoDup (rotation 3 {[ALLOWLIST_ENV := "codex,gemini"]} true "codex" []).
Proof.
  assert (N : normal "claude" /\ normal "codex") by (by vm_compute). destruct N as [N1 N2].
  split; [exact N1|]. split; [by vm_compute|]. split; [by vm_compute|].
  destruct (failover_tries_each_once {[ALLOWLIST_ENV := "codex,gemini"]} true "codex" 3) as (_ & D & _);
    [exact N2 | by vm_compute | by vm_compute; lia | exact D].
Defined.
