(* ===== verification/Difflib.v ===== *)
(** The similarity of two strings as the standard library's difflib computes it
    ([SequenceMatcher(None, a, b).ratio()]), which the issue tracking of the QA loop uses:
    the longest common block by dynamic programming, the recursion on both sides of it, the
    "popular" characters of long strings, and the ratio as an exact rational. *)
From Stdlib Require Import QArith Lqa.
From S2P Require Import Prelude.
Local Open Scope nat_scope.

(** A block [(i, j, k)]: [a[i:i+k] == b[j:j+k]]. *)
Abbreviation block := (nat * nat * nat)%type.

Section matcher.
Variable popular : ascii -> bool.

(** One row of lengths: at [j], the length of the common run that ends at this character of
    [a] and at [b[j]].  [prev] is the row above, [diag] its entry up and left. *)
Fixpoint row (x : ascii) (b : list ascii) (prev : list nat) (diag : nat) : list nat :=
  match b, prev with
  | y :: b', up :: prev' =>
      (if Ascii.eqb x y && negb (popular y) then S diag else 0) :: row x b' prev' up
  | _, _ => []
  end.

(** [if k > bestsize: besti, bestj, bestsize = i-k+1, j-k+1, k] *)
Definition better (i j k : nat) (best : block) : block :=
  if best.2 <? k then (S i - k, S j - k, k) else best.

Fixpoint scan (i j : nat) (ks : list nat) (best : block) : block :=
  match ks with
  | [] => best
  | k :: ks' => scan i (S j) ks' (better i j k best)
  end.

Fixpoint rows (i : nat) (a b : list ascii) (prev : list nat) (best : block) : block :=
  match a with
  | [] => best
  | x :: a' => let r := row x b prev 0 in rows (S i) a' b r (scan i 0 r best)
  end.

(** The extension of the best block to the left and to the right, over equal characters,
    the popular ones included. *)
Fixpoint extend_left (a b : list ascii) (i j k : nat) : block :=
  match i, j with
  | S i', S j' => if bool_decide (a !! i' = b !! j') then extend_left a b i' j' (S k) else (i, j, k)
  | _, _ => (i, j, k)
  end.

Fixpoint common (a b : list ascii) : nat :=
  match a, b with
  | x :: a', y :: b' => if Ascii.eqb x y then S (common a' b') else 0
  | _, _ => 0
  end.

Definition find_longest_match (a b : list ascii) : block :=
  let '(i, j, k) := rows 0 a b (replicate (length b) 0) (0, 0, 0) in
  let '(i, j, k) := extend_left a b i j k in
  (i, j, k + common (drop (i + k) a) (drop (j + k) b)).

(** The number of matched characters: the block, and what is left and right of it. *)
Fixpoint matched (fuel : nat) (a b : list ascii) : nat :=
  match fuel with
  | O => 0
  | S fuel =>
      let '(i, j, k) := find_longest_match a b in
      match k with
      | O => 0
      | _ => matched fuel (take i a) (take j b) + k + matched fuel (drop (i + k) a) (drop (j + k) b)
      end
  end.
End matcher.

(** With 200 characters or more in [b], those that make more than one percent of it. *)
Definition popular_in (b : list ascii) (c : ascii) : bool :=
  let n := length b in (200 <=? n) && (n / 100 + 1 <? countb (Ascii.eqb c) b).

(** [ratio()]: 1.0 for two empty strings. *)
Definition ratio (s t : string) : Q :=
  let a := String.list_ascii_of_string s in
  let b := String.list_ascii_of_string t in
  let total := length a + length b in
  if total =? 0 then 1%Q
  else (inject_Z (2 * Z.of_nat (matched (popular_in b) (S (length a)) a b)) / inject_Z (Z.of_nat total))%Q.

(** ** The entries of the table *)

Section facts.
Variable popular : ascii -> bool.

(** The length of the common run of unpopular characters that ends at [a[i]] and [b[j]]. *)
Fixpoint entry (a b : list ascii) (i j : nat) : nat :=
  match a !! i, b !! j with
  | Some x, Some y =>
      if Ascii.eqb x y && negb (popular y)
      then S (match i, j with S i', S j' => entry a b i' j' | _, _ => 0 end) else 0
  | _, _ => 0
  end.

Definition prior (a b : list ascii) (i j : nat) : nat :=
  match i with O => 0 | S i' => entry a b i' j end.

Lemma entry_eq a b i j :
  entry a b i j =
    match a !! i, b !! j with
    | Some x, Some y =>
        if Ascii.eqb x y && negb (popular y)
        then S (match j with S j' => prior a b i j' | O => 0 end) else 0
    | _, _ => 0
    end.
Proof. by destruct i, j. Qed.

Lemma row_entries a b i x : a !! i = Some x ->
  forall k j, j + k = length b ->
    row popular x (drop j b) (prior a b i <$> seq j k) (match j with S j' => prior a b i j' | O => 0 end)
    = entry a b i <$> seq j k.
Proof.
  intros Hx. induction k as [|k IH]; intros j L.
  - rewrite drop_ge by lia. done.
  - destruct (lookup_lt_is_Some_2 b j) as [y Hy]; [lia|].
    rewrite (drop_S b y j Hy). cbn [seq fmap list_fmap row].
    rewrite entry_eq, Hx, Hy. f_equal. apply (IH (S j)). lia.
Qed.

Lemma prior_O a b k j : prior a b 0 <$> seq j k = replicate k 0.
Proof. revert j. induction k as [|k IH]; intros j; [done|]. cbn. f_equal. apply IH. Qed.

(** Induction over the table, in the order it is filled. *)
Lemma rows_invariant (a b : list ascii) (P : nat -> nat -> block -> Prop) :
  (forall i j best, i < length a -> j < length b -> P i j best ->
     P i (S j) (better i j (entry a b i j) best)) ->
  (forall i best, i < length a -> P i (length b) best -> P (S i) 0 best) ->
  P 0 0 (0, 0, 0) ->
  P (length a) 0 (rows popular 0 a b (replicate (length b) 0) (0, 0, 0)).
Proof.
  intros Hs Hr H0.
  assert (Sc : forall i, i < length a -> forall k j best, j + k = length b -> P i j best ->
    P i (length b) (scan i j (entry a b i <$> seq j k) best)).
  { intros i Hi. induction k as [|k IH]; intros j best L H.
    - by rewrite <- L, Nat.add_0_r.
    - cbn [seq fmap list_fmap scan]. apply IH; [lia|]. apply Hs; [done | lia | done]. }
  assert (R : forall k i best, i + k = length a -> P i 0 best ->
    P (length a) 0 (rows popular i (drop i a) b (prior a b i <$> seq 0 (length b)) best)).
  { induction k as [|k IH]; intros i best L H.
    - rewrite drop_ge by lia. cbn. by rewrite <- L, Nat.add_0_r.
    - destruct (lookup_lt_is_Some_2 a i) as [x Hx]; [lia|].
      rewrite (drop_S a x i Hx). cbn [rows].
      assert (E := row_entries a b i x Hx (length b) 0 eq_refl).
      rewrite drop_0 in E. rewrite E.
      apply (IH (S i)); [lia|]. apply Hr; [lia|]. apply Sc; [lia | done | done]. }
  specialize (R (length a) 0 (0, 0, 0) eq_refl H0). by rewrite prior_O in R.
Qed.

Lemma entry_bounds a b i j : entry a b i j <= S i /\ entry a b i j <= S j.
Proof.
  revert j. induction i as [|i IH]; intros j; rewrite entry_eq;
    (destruct (a !! _), (b !! j); [|lia..]); (destruct (_ && _); [|lia]); destruct j as [|j]; cbn; try lia.
  destruct (IH j). lia.
Qed.

Lemma entry_in a b i j : 0 < entry a b i j -> i < length a /\ j < length b.
Proof.
  rewrite entry_eq. destruct (a !! i) eqn:A; [|lia]. destruct (b !! j) eqn:B; [|lia]. intros _.
  by apply lookup_lt_Some in A, B.
Qed.

(** On equal strings the diagonal dominates. *)
Lemma entry_diag s i j : entry s s i j <= entry s s i i /\ entry s s i j <= entry s s j j.
Proof.
  revert j. induction i as [|i IH]; intros j; rewrite (entry_eq s s _ j).
  all: destruct (s !! _) as [x|] eqn:X; [|lia]; destruct (s !! j) as [y|] eqn:Y; [|lia].
  all: destruct (Ascii.eqb x y && negb (popular y)) eqn:E; [|lia]; bprop.
  all: match goal with H : Ascii.eqb _ _ = true |- _ => apply Ascii.eqb_eq in H as -> end.
  all: rewrite (entry_eq s s _ _), X, (entry_eq s s j j), Y, Ascii.eqb_refl.
  all: match goal with H : popular _ = false |- _ => rewrite H end; cbn.
  - destruct j; cbn; lia.
  - destruct j as [|j]; cbn; [lia|]. destruct (IH j). lia.
Qed.

Lemma better_cases i j k x y z :
  better i j k (x, y, z) = (S i - k, S j - k, k) /\ z < k
  \/ better i j k (x, y, z) = (x, y, z) /\ k <= z.
Proof.
  unfold better. change ((x, y, z).2) with z.
  destruct (Nat.ltb_spec z k); [by left | by right].
Qed.

(** The best block stays in both strings. *)
Lemma rows_valid a b : let '(i, j, k) := rows popular 0 a b (replicate (length b) 0) (0, 0, 0) in
  i + k <= length a /\ j + k <= length b.
Proof.
  assert (H := rows_invariant a b (fun _ _ best =>
    best.1.1 + best.2 <= length a /\ best.1.2 + best.2 <= length b)).
  destruct (rows _ _ _ _ _ _) as [[i j] k]. apply H; clear H; [| done | cbn; lia].
  intros i' j' [[x y] z] Hi Hj [V1 V2]. destruct (entry_bounds a b i' j').
  destruct (better_cases i' j' (entry a b i' j') x y z) as [[-> L]|[-> L]]; cbn in *; lia.
Qed.

Lemma extend_left_sum a b i : forall j k i' j' k',
  extend_left a b i j k = (i', j', k') -> i' + k' = i + k /\ j' + k' = j + k.
Proof.
  induction i as [|i IH]; intros [|j] k i' j' k'; cbn; try (intros [= <- <- <-]; lia).
  case_bool_decide; [|intros [= <- <- <-]; lia]. intros E. apply IH in E. lia.
Qed.

Lemma common_le a b : common a b <= length a /\ common a b <= length b.
Proof.
  revert b. induction a as [|x a IH]; intros [|y b]; cbn; try lia.
  destruct (Ascii.eqb x y); [|lia]. destruct (IH b). lia.
Qed.

Lemma find_valid a b i j k :
  find_longest_match popular a b = (i, j, k) -> i + k <= length a /\ j + k <= length b.
Proof.
  unfold find_longest_match. pose proof (rows_valid a b) as V.
  destruct (rows _ _ _ _ _ _) as [[i0 j0] k0].
  destruct (extend_left a b i0 j0 k0) as [[i1 j1] k1] eqn:E. apply extend_left_sum in E.
  intros [= <- <- <-].
  destruct (common_le (drop (i1 + k1) a) (drop (j1 + k1) b)) as [C1 C2].
  rewrite length_drop in C1, C2. lia.
Qed.

Lemma matched_le fuel : forall a b,
  matched popular fuel a b <= length a /\ matched popular fuel a b <= length b.
Proof.
  induction fuel as [|fuel IH]; intros a b; cbn [matched]; [lia|].
  destruct (find_longest_match popular a b) as [[i j] k] eqn:E. apply find_valid in E.
  destruct k as [|k]; [lia|].
  destruct (IH (take i a) (take j b)) as [L1 L2]. rewrite !length_take in *.
  destruct (IH (drop (i + S k) a) (drop (j + S k) b)) as [R1 R2]. rewrite !length_drop in *. lia.
Qed.

(** The recursion needs no more fuel than the length of the first string. *)
Lemma matched_fuel n : forall m a b, length a < n -> length a < m ->
  matched popular n a b = matched popular m a b.
Proof.
  induction n as [|n IH]; intros [|m] a b Hn Hm; try lia. cbn [matched].
  destruct (find_longest_match popular a b) as [[i j] k] eqn:E. apply find_valid in E.
  destruct k as [|k]; [done|].
  rewrite (IH m (take i a)), (IH m (drop (i + S k) a)); rewrite ?length_take, ?length_drop; try lia.
Qed.

(** On equal strings the best block is on the diagonal. *)
Lemma rows_self s : exists x k,
  rows popular 0 s s (replicate (length s) 0) (0, 0, 0) = (x, x, k) /\ x + k <= length s.
Proof.
  assert (H := rows_invariant s s (fun i j best =>
    (forall i', i' < i -> entry s s i' i' <= best.2)
    /\ (i < j -> entry s s i i <= best.2)
    /\ best.1.1 = best.1.2)).
  pose proof (rows_valid s s) as V.
  destruct (rows _ _ _ _ _ _) as [[x y] k]. destruct V as [V _].
  enough (E : x = y) by (exists x, k; by subst). apply H; clear H V x y k.
  - intros i j [[x y] z] Hi Hj (B & D & E). cbn [fst snd] in *.
    destruct (entry_diag s i j) as [Ei Ej].
    destruct (better_cases i j (entry s s i j) x y z) as [[-> L]|[-> L]]; cbn [fst snd].
    + assert (i = j) as <-.
      { destruct (Nat.lt_trichotomy i j) as [G|[G|G]]; [specialize (D G); lia | done |].
        specialize (B j G). lia. }
      split_and!; [|done|done]. intros i' Hi'. specialize (B i' Hi'). lia.
    + split_and!; [done | | done]. intros G. destruct (decide (i = j)) as [->|N]; [done|].
      apply D. lia.
  - intros i [[x y] z] Hi (B & D & E). cbn [fst snd] in *. split_and!; [|lia|done].
    intros i' Hi'. destruct (decide (i' = i)) as [->|N]; [by apply D | apply B; lia].
  - cbn. split_and!; [lia | lia | done].
Qed.

Lemma extend_left_self s x : forall k, extend_left s s x x k = (0, 0, x + k).
Proof.
  induction x as [|x IH]; intros k; cbn; [done|]. rewrite bool_decide_eq_true_2 by done.
  rewrite IH. f_equal. lia.
Qed.

Lemma common_self s : common s s = length s.
Proof. induction s as [|c s IH]; cbn; [done|]. by rewrite Ascii.eqb_refl, IH. Qed.

Lemma matched_self s fuel : matched popular (S fuel) s s = length s.
Proof.
  assert (F : find_longest_match popular s s = (0, 0, length s)).
  { unfold find_longest_match. destruct (rows_self s) as (x & k & -> & V).
    rewrite extend_left_self. cbn. f_equal. rewrite common_self, length_drop. lia. }
  cbn [matched]. rewrite F. destruct (length s) eqn:L; [done|].
  rewrite !take_0. rewrite !drop_ge by (cbn; lia).
  destruct (matched_le fuel [] []) as [Z _]. cbn in Z. lia.
Qed.
End facts.

(** ** The ratio *)

Lemma ratio_refl s : ratio s s == 1.
Proof.
  unfold ratio. set (a := String.list_ascii_of_string s).
  destruct (Nat.eqb_spec (length a + length a) 0) as [|N]; [done|].
  rewrite matched_self. set (n := length a) in *.
  assert (P : (0 < Z.of_nat n)%Z) by lia.
  replace (Z.of_nat (n + n)) with (2 * Z.of_nat n)%Z by lia.
  apply Qmult_inv_r. intros Z. change 0%Q with (inject_Z 0) in Z. rewrite inject_Z_injective in Z. lia.
Qed.

Lemma ratio_bounds s t : (0 <= ratio s t <= 1)%Q.
Proof.
  unfold ratio. set (a := String.list_ascii_of_string s). set (b := String.list_ascii_of_string t).
  destruct (Nat.eqb_spec (length a + length b) 0) as [|N]; [split; discriminate|].
  destruct (matched_le (popular_in b) (S (length a)) a b) as [La Lb].
  set (m := matched _ _ _ _) in *. set (n := length a + length b) in *.
  assert (P : (0 < inject_Z (Z.of_nat n))%Q).
  { change 0%Q with (inject_Z 0). rewrite <- Zlt_Qlt. lia. }
  split.
  - apply Qle_shift_div_l; [done|]. rewrite Qmult_0_l. change 0%Q with (inject_Z 0).
    rewrite <- Zle_Qle. lia.
  - apply Qle_shift_div_r; [done|]. rewrite Qmult_1_l. rewrite <- Zle_Qle. lia.
Qed.
