(* ===== verification/QaReport.v ===== *)
(** The records of the QA loop in the plan file: the sign-off and the readiness checks
    (qa/criteria.py, core/progress.py), the iteration history and the detection of recurring
    issues (qa/report.py).

    The plan file is a value of [ApprovalGate.file].  A write that fails is the argument
    [writable]; the time of a record and its rounded duration are arguments. *)
From Stdlib Require Import QArith.
From S2P Require Import Prelude PyData ApprovalGate Difflib.
Local Open Scope nat_scope.

Definition MAX_QA_ITERATIONS : Z := 10.
Definition RECURRING_ISSUE_THRESHOLD : nat := 3.
Definition ISSUE_SIMILARITY_THRESHOLD : Q := 4 # 5.

(** ** The plan file *)

Definition load_implementation_plan (f : file) : option json :=
  match f with Json v => Some v | Missing | Broken => None end.

Definition save_implementation_plan (writable : bool) (plan : dict) (f : file) : bool * file :=
  if writable then (true, Json (JObj plan)) else (false, f).

(** A value whose methods are used once it is known to be truthy. *)
Definition object_of (v : json) : res (option dict) :=
  if truthy v then match v with JObj d => Ok (Some d) | _ => Err AttributeError end else Ok None.

(** [plan = load_implementation_plan(...)], then [if not plan: ...], then [plan.get]. *)
Definition plan_object (f : file) : res (option dict) :=
  match load_implementation_plan f with Some v => object_of v | None => Ok None end.

Definition get_or_null (k : string) (d : dict) : json := default JNull (dget k d).

(** ** The sign-off (criteria.py) *)

Definition get_qa_signoff_status (f : file) : res json :=
  let! plan := plan_object f in
  Ok (match plan with Some d => get_or_null "qa_signoff" d | None => JNull end).

Definition field_is (k s : string) (d : dict) : bool :=
  match dget k d with Some (JStr s') => String.eqb s' s | _ => false end.

Definition status_is (s : string) (f : file) : res bool :=
  let! v := get_qa_signoff_status f in
  let! status := object_of v in
  Ok (match status with Some d => field_is "status" s d | None => false end).

Definition is_qa_approved (requires_review : bool) (f : file) : res bool :=
  if requires_review then Ok false else status_is "approved" f.
Definition is_qa_rejected (f : file) : res bool := status_is "rejected" f.

Definition is_fixes_applied (f : file) : res bool :=
  let! v := get_qa_signoff_status f in
  let! status := object_of v in
  Ok (match status with
      | Some d => field_is "status" "fixes_applied" d
                  && truthy (default (JBool false) (dget "ready_for_qa_revalidation" d))
      | None => false
      end).

Definition get_qa_iteration_count (f : file) : res Z :=
  let! v := get_qa_signoff_status f in
  let! status := object_of v in
  match status with Some d => get_or as_int "qa_session" 0%Z d | None => Ok 0%Z end.

(** ** Progress (core/progress.py) *)

Definition count_subtask (acc : nat * nat) (subtask : json) : res (nat * nat) :=
  with_get subtask (fun d =>
    Ok (if field_is "status" "completed" d then S acc.1 else acc.1, S acc.2)).

Definition count_phase (acc : nat * nat) (phase : json) : res (nat * nat) :=
  with_get phase (fun d =>
    match iter_field "subtasks" d with Ok l => fold_res count_subtask acc l | Err e => Err e end).

Definition count_subtasks (f : file) : res (nat * nat) :=
  match load_implementation_plan f with
  | None => Ok (0, 0)
  | Some plan =>
      with_get plan (fun d =>
        match iter_field "phases" d with
        | Ok l => fold_res count_phase (0, 0) l
        | Err e => Err e
        end)
  end.

Definition is_build_complete (f : file) : res bool :=
  match count_subtasks f with
  | Ok (completed, total) => Ok ((0 <? total) && (completed =? total))
  | Err e => Err e
  end.

Definition should_run_qa (requires_review : bool) (f : file) : res bool :=
  match is_build_complete f with
  | Ok true => negb <$> is_qa_approved requires_review f
  | r => r
  end.

Definition should_run_fixes (f : file) : res bool :=
  match is_qa_rejected f with
  | Ok true => let! iterations := get_qa_iteration_count f in
               Ok (negb (MAX_QA_ITERATIONS <=? iterations)%Z)
  | r => r
  end.

(** ** The iteration history (report.py) *)

Definition get_iteration_history (f : file) : res (list json) :=
  let! plan := plan_object f in
  match plan with
  | None => Ok []
  | Some d => get_or as_list "qa_iteration_history" [] d
  end.

Definition iteration_record (now : string) (iteration : Z) (status : string)
    (issues : list json) (duration : option json) : dict :=
  [("iteration", JInt iteration); ("status", JStr status); ("timestamp", JStr now);
   ("issues", JList issues)]
  ++ match duration with Some d => [("duration_seconds", d)] | None => [] end.

(** The [Counter] of issue types, in the order of first occurrence; a type that is not a
    string has no key of its own in JSON. *)
Definition count_issue (acc : dict) (issue : json) : res dict :=
  with_get issue (fun d =>
    let! type := get_or as_str "type" "unknown" d in
    let! n := get_or as_int type 0%Z acc in
    Ok (dset type (JInt (n + 1)) acc)).

Definition count_record (acc : dict) (rec : json) : res dict :=
  with_get rec (fun d =>
    match iter_field "issues" d with Ok l => fold_res count_issue acc l | Err e => Err e end).

(** The value of [plan[k]], an empty one being put first when the key is absent. *)
Definition the_list (k : string) (plan : dict) : res (list json) :=
  match dget k plan with
  | None => Ok []
  | Some (JList l) => Ok l
  | Some _ => Err AttributeError
  end.
Definition the_dict (k : string) (plan : dict) : res dict :=
  match dget k plan with
  | None => Ok []
  | Some (JObj d) => Ok d
  | Some _ => Err TypeError
  end.

Definition stats_of (total : nat) (iteration : Z) (status : string) (types stats : dict) : dict :=
  dset "issues_by_type" (JObj types)
    (dset "last_status" (JStr status)
      (dset "last_iteration" (JInt iteration)
        (dset "total_iterations" (JInt (Z.of_nat total)) stats))).

(** [load_implementation_plan(spec_dir)], or a new dictionary when it is falsy. *)
Definition plan_or_new (f : file) : res dict :=
  match load_implementation_plan f with
  | Some v => if truthy v then match v with JObj d => Ok d | _ => Err TypeError end else Ok []
  | None => Ok []
  end.

Definition record_iteration (writable : bool) (now : string) (iteration : Z) (status : string)
    (issues : list json) (duration : option json) (f : file) : res (bool * file) :=
  let! plan := plan_or_new f in
  let! history := the_list "qa_iteration_history" plan in
  let record := JObj (iteration_record now iteration status issues duration) in
  let history := history ++ [record] in
  let plan := dset "qa_iteration_history" (JList history) plan in
  let! stats := the_dict "qa_stats" plan in
  let! types := fold_res count_record [] history in
  let stats := stats_of (length history) iteration status types stats in
  Ok (save_implementation_plan writable (dset "qa_stats" (JObj stats) plan) f).

(** ** Recurring issues *)

(** [(issue.get(k) or "").lower().strip()] *)
Definition text_key (k : string) (issue : dict) : res string :=
  let v := get_or_null k issue in
  if truthy v then match v with JStr s => Ok (strip (lower s)) | _ => Err AttributeError end
  else Ok "".

(** [f"{issue.get('line') or ''}"] *)
Definition line_text (issue : dict) : res string :=
  let v := get_or_null "line" issue in
  if truthy v then py_str v else Ok "".

Definition ISSUE_PREFIXES : list string := ["error:"; "issue:"; "bug:"; "fix:"].

Fixpoint drop_prefix (p s : string) : option string :=
  match p, s with
  | EmptyString, _ => Some s
  | String c p', String c' s' => if Ascii.eqb c c' then drop_prefix p' s' else None
  | String _ _, EmptyString => None
  end.

Definition strip_prefix (title prefix : string) : string :=
  match drop_prefix prefix title with Some rest => strip rest | None => title end.

Definition _normalize_issue_key (issue : json) : res string :=
  with_get issue (fun d =>
    let! title := text_key "title" d in
    let! file := text_key "file" d in
    let! line := line_text d in
    Ok (foldl strip_prefix title ISSUE_PREFIXES +:+ "|" +:+ file +:+ "|" +:+ line)).

Definition _issue_similarity (issue1 issue2 : json) : res Q :=
  let! key1 := _normalize_issue_key issue1 in
  let! key2 := _normalize_issue_key issue2 in
  Ok (ratio key1 key2).

(** [similarity >= ISSUE_SIMILARITY_THRESHOLD]; the ratio and the threshold being the
    nearest floats of rationals with small terms, the comparison is that of the rationals. *)
Definition same_issue (issue1 issue2 : json) : res bool :=
  let! similarity := _issue_similarity issue1 issue2 in
  Ok (Qle_bool ISSUE_SIMILARITY_THRESHOLD similarity).

Definition count_similar (current : json) (n : nat) (historical : json) : res nat :=
  let! same := same_issue current historical in
  Ok (if (same : bool) then S n else n).

Definition with_count (current : json) (n : nat) : res json :=
  with_get current (fun d => Ok (JObj (dset "occurrence_count" (JInt (Z.of_nat n)) d))).

Definition check_issue (threshold : nat) (historical_issues : list json)
    (recurring : list json) (current : json) : res (list json) :=
  match fold_res (count_similar current) 1 historical_issues with
  | Ok occurrence_count =>
      if threshold <=? occurrence_count
      then let! marked := with_count current occurrence_count in Ok (recurring ++ [marked])
      else Ok recurring
  | Err e => Err e
  end.

Definition flatten_step (acc : list json) (record : json) : res (list json) :=
  with_get record (fun d => let! l := iter_field "issues" d in Ok (acc ++ l)).

Definition has_recurring_issues (current_issues history : list json) (threshold : nat)
  : res (bool * list json) :=
  let! historical_issues := fold_res flatten_step [] history in
  match historical_issues with
  | [] => Ok (false, [])
  | _ =>
      let! recurring := fold_res (check_issue threshold historical_issues) [] current_issues in
      Ok (list_truthy recurring, recurring)
  end.

(** ** The summary *)

(** The first group whose key is similar, or a new group. *)
Fixpoint add_to_group (key : string) (issue : json) (groups : list (string * list json))
  : list (string * list json) :=
  match groups with
  | [] => [(key, [issue])]
  | (existing_key, l) :: groups' =>
      if Qle_bool ISSUE_SIMILARITY_THRESHOLD (ratio key existing_key)
      then (existing_key, l ++ [issue]) :: groups'
      else (existing_key, l) :: add_to_group key issue groups'
  end.

Definition group_step (groups : list (string * list json)) (issue : json)
  : res (list (string * list json)) :=
  let! key := _normalize_issue_key issue in Ok (add_to_group key issue groups).

(** [sorted(..., key=lambda x: len(x[1]), reverse=True)]: stable, the longest first. *)
Definition longer (g h : string * list json) : bool := length h.2 <=? length g.2.

Definition common_entry (g : string * list json) : res json :=
  match g.2 with
  | [] => Err (AppError "IndexError")
  | issue :: _ =>
      with_get issue (fun d =>
        Ok (JObj [("title", default (JStr g.1) (dget "title" d));
                  ("file", get_or_null "file" d);
                  ("occurrences", JInt (Z.of_nat (length g.2)))]))
  end.

Record IssueSummary := {
  total_issues : nat;
  unique_issues : nat;
  most_common : list json;
  iterations_approved : option nat;
  iterations_rejected : option nat;
  fix_success_rate : option Q;
}.

Definition record_status (s : string) (r : json) : bool :=
  match r with JObj d => field_is "status" s d | _ => false end.

Definition get_recurring_issue_summary (history : list json) : res IssueSummary :=
  let! all_issues := fold_res flatten_step [] history in
  match all_issues with
  | [] => Ok {| total_issues := 0; unique_issues := 0; most_common := [];
                iterations_approved := None; iterations_rejected := None;
                fix_success_rate := None |}
  | _ =>
      let! groups := fold_res group_step [] all_issues in
      let! entries := mapM common_entry (take 5 (sort_by longer groups)) in
      let approved := countb (record_status "approved") history in
      Ok {| total_issues := length all_issues; unique_issues := length groups;
            most_common := entries; iterations_approved := Some approved;
            iterations_rejected := Some (countb (record_status "rejected") history);
            fix_success_rate :=
              Some (inject_Z (Z.of_nat approved) / inject_Z (Z.of_nat (length history)))%Q |}
  end.

(** ** Lemmas *)

Lemma fold_res_app {A B} (f : B -> A -> res B) l k acc :
  fold_res f acc (l ++ k) =
    match fold_res f acc l with Ok acc' => fold_res f acc' k | Err e => Err e end.
Proof.
  revert acc. induction l as [|x l IH]; intros acc; [done|]. cbn. by destruct (f acc x).
Qed.

(** What a record and a history list. *)
Definition record_issues (r : json) : list json :=
  match r with
  | JObj d => match iter_field "issues" d with Ok l => l | Err _ => [] end
  | _ => []
  end.
Definition issues_of (history : list json) : list json := history ≫= record_issues.

Lemma flatten_spec history acc all :
  fold_res flatten_step acc history = Ok all -> all = acc ++ issues_of history.
Proof.
  revert acc. induction history as [|r h IH]; intros acc; cbn.
  - intros [= ->]. by rewrite app_nil_r.
  - destruct r as [| | | | |d]; try done. cbn.
    destruct (iter_field "issues" d) as [l|]; [|done]. cbn. intros H%IH.
    by rewrite H, <- app_assoc.
Qed.

Definition similar (current historical : json) : bool :=
  match same_issue current historical with Ok b => b | Err _ => false end.

Lemma count_similar_spec current l n m :
  fold_res (count_similar current) n l = Ok m -> m = n + countb (similar current) l.
Proof.
  revert n. induction l as [|x l IH]; intros n; cbn [fold_res].
  - intros [= ->]. unfold countb. cbn. lia.
  - rewrite countb_cons. unfold similar at 1, count_similar at 1.
    destruct (same_issue current x) as [b|e]; [|done]. cbn. intros H%IH. destruct b; lia.
Qed.

Lemma check_issues_spec threshold historical current recurring out :
  fold_res (check_issue threshold historical) recurring current = Ok out ->
  length out = length recurring
    + countb (fun c => threshold <=? 1 + countb (similar c) historical) current.
Proof.
  revert recurring. induction current as [|c l IH]; intros recurring; cbn [fold_res].
  - intros [= ->]. unfold countb. cbn. lia.
  - rewrite countb_cons. unfold check_issue at 1.
    destruct (fold_res (count_similar c) 1 historical) as [n|e] eqn:C; [|done].
    apply count_similar_spec in C. rewrite <- C.
    destruct (threshold <=? n).
    + destruct (with_count c n) as [m|e]; [|done]. cbn. intros H%IH.
      rewrite length_app in H. cbn in H. lia.
    + intros H%IH. lia.
Qed.

Lemma list_truthy_length {A} (l : list A) : list_truthy l = (0 <? length l).
Proof. by destruct l. Qed.

(** When the detection returns, it has counted the occurrences of every issue. *)
Lemma has_recurring_spec current history threshold b l :
  has_recurring_issues current history threshold = Ok (b, l) ->
  b = list_truthy (issues_of history)
      && existsb (fun c => threshold <=? 1 + countb (similar c) (issues_of history)) current.
Proof.
  unfold has_recurring_issues. intros H. apply bind_Ok_inv in H as (all & A & H).
  apply flatten_spec in A. cbn in A. subst all.
  destruct (issues_of history) as [|x k] eqn:I; [by injection H as <- _|]. rewrite <- I in *.
  apply bind_Ok_inv in H as (out & R & [= <- <-]). apply check_issues_spec in R.
  rewrite list_truthy_length, R. cbn [length Nat.add].
  replace (list_truthy (issues_of history)) with true by (by rewrite I). cbn [andb].
  destruct (existsb _ current) eqn:X.
  - apply Nat.ltb_lt. by apply countb_pos.
  - apply Nat.ltb_ge. apply countb_none in X. lia.
Qed.

(** An issue whose key can be computed is similar to itself. *)
Lemma similar_refl issue key : _normalize_issue_key issue = Ok key -> similar issue issue = true.
Proof.
  intros K. unfold similar, same_issue, _issue_similarity. rewrite K. cbn.
  apply Qle_bool_iff. rewrite ratio_refl. discriminate.
Qed.

(** ** What a record changes *)

Lemma record_iteration_inv writable now it status issues duration f b f' :
  record_iteration writable now it status issues duration f = Ok (b, f') ->
  exists plan history plan' types stats,
    plan_or_new f = Ok plan /\ the_list "qa_iteration_history" plan = Ok history
    /\ the_dict "qa_stats" plan = Ok stats
    /\ plan' = dset "qa_stats" (JObj (stats_of (S (length history)) it status types stats))
                (dset "qa_iteration_history"
                   (JList (history ++ [JObj (iteration_record now it status issues duration)])) plan)
    /\ (b, f') = save_implementation_plan writable plan' f.
Proof.
  unfold record_iteration. intros H.
  apply bind_Ok_inv in H as (plan & P & H). apply bind_Ok_inv in H as (h & Hh & H).
  apply bind_Ok_inv in H as (stats & S & H). apply bind_Ok_inv in H as (types & T & H).
  unfold the_dict in S. rewrite dget_dset in S. cbn [String.eqb Ascii.eqb Bool.eqb] in S.
  eexists plan, h, _, types, stats. split_and!; [done | done | exact S | reflexivity |].
  rewrite length_app, Nat.add_1_r in H. by injection H as <-.
Qed.

Lemma dset_not_nil k v d : exists x l, dset k v d = x :: l.
Proof. destruct d as [|[k' v'] d]; cbn; [by eexists _, _|]. destruct (String.eqb k k'); by eexists _, _. Qed.

Lemma plan_object_set k v d : plan_object (Json (JObj (dset k v d))) = Ok (Some (dset k v d)).
Proof. destruct (dset_not_nil k v d) as (x & l & ->). done. Qed.

(** A falsy document is read as no plan, and written over. *)
Lemma plan_or_new_object f plan :
  plan_or_new f = Ok plan -> plan_object f = Ok (Some plan) \/ (plan_object f = Ok None /\ plan = []).
Proof.
  unfold plan_or_new, plan_object, object_of. destruct (load_implementation_plan f) as [v|].
  - destruct (truthy v); [|intros [= <-]; by right]. destruct v; try done. intros [= <-]. by left.
  - intros [= <-]. by right.
Qed.

Lemma fold_res_count {A} (step : nat * nat -> A -> res (nat * nat)) (g : A -> list bool) :
  (forall acc x acc', step acc x = Ok acc' ->
     acc' = (acc.1 + countb id (g x), acc.2 + length (g x))) ->
  forall l acc acc', fold_res step acc l = Ok acc' ->
    acc' = (acc.1 + countb id (l ≫= g), acc.2 + length (l ≫= g)).
Proof.
  intros S l. induction l as [|x l IH]; intros acc acc'; cbn [fold_res].
  - intros [= <-]. unfold countb. cbn. rewrite !Nat.add_0_r. by destruct acc.
  - destruct (step acc x) as [acc1|] eqn:E; [|done]. intros H%IH. apply S in E. subst.
    rewrite bind_cons, countb_app, length_app. cbn [fst snd]. f_equal; lia.
Qed.

(** Of each subtask of a plan, whether it is completed. *)
Definition subtask_done (v : json) : list bool :=
  match v with JObj d => [field_is "status" "completed" d] | _ => [] end.
Definition phase_done (v : json) : list bool :=
  match v with
  | JObj d => match iter_field "subtasks" d with Ok l => l ≫= subtask_done | Err _ => [] end
  | _ => []
  end.
Definition plan_done (v : json) : list bool :=
  match v with
  | JObj d => match iter_field "phases" d with Ok l => l ≫= phase_done | Err _ => [] end
  | _ => []
  end.

Lemma count_subtasks_spec f c t : count_subtasks f = Ok (c, t) ->
  exists bs, c = countb id bs /\ t = length bs
    /\ bs = match load_implementation_plan f with Some v => plan_done v | None => [] end.
Proof.
  unfold count_subtasks. destruct (load_implementation_plan f) as [v|]; [|intros [= <- <-]; by exists []].
  destruct v as [| | | | |d]; try done. cbn. destruct (iter_field "phases" d) as [l|]; [|done].
  intros H. apply (fold_res_count count_phase phase_done) in H.
  - injection H as -> ->. by eexists.
  - clear. intros acc x acc'. destruct x as [| | | | |d]; try done. cbn.
    destruct (iter_field "subtasks" d) as [l|]; [|done].
    apply (fold_res_count count_subtask subtask_done). clear. intros acc x acc'.
    destruct x as [| | | | |d]; try done. cbn. intros [= <-]. unfold countb, keep. cbn.
    destruct (field_is "status" "completed" d); cbn; f_equal; lia.
Qed.

(** The build is complete when it has subtasks and each is completed. *)
Lemma build_complete_spec f b : is_build_complete f = Ok b ->
  b = match load_implementation_plan f with
      | Some v => list_truthy (plan_done v) && forallb id (plan_done v)
      | None => false
      end.
Proof.
  unfold is_build_complete. destruct (count_subtasks f) as [[c t]|] eqn:C; [|done].
  apply count_subtasks_spec in C as (bs & -> & -> & E). intros [= <-].
  assert (K : (countb id bs =? length bs) = forallb id bs).
  { apply Bool.eq_iff_eq_true. rewrite Nat.eqb_eq. apply countb_all. }
  rewrite K, <- list_truthy_length.
  destruct (load_implementation_plan f) as [v|]; by rewrite E.
Qed.

(** ** Properties *)

(** Recording an iteration appends to the history and changes nothing
    else.  When the file is written, its history is the old one with the new record at the
    end and the statistics count it; every other key of the plan is what it was, so the
    sign-off, the content an approval is bound to and whether an approval is valid do not
    change.  When it is not, the file is as before.  The exception: a file that cannot be
    read is replaced by one that holds the record alone. *)
Theorem record_appends (md5 : string -> string) (writable : bool) (now : string) (it : Z)
    (status : string) (issues : list json) (duration : option json) (f f' : file) (b : bool) :
  record_iteration writable now it status issues duration f = Ok (b, f') ->
  let record := JObj (iteration_record now it status issues duration) in
  b = writable
  /\ (writable = false -> f' = f)
  /\ (writable = true ->
      exists plan plan' history,
        plan_or_new f = Ok plan /\ f' = Json (JObj plan')
        /\ get_iteration_history f = Ok history
        /\ get_iteration_history f' = Ok (history ++ [record])
        /\ (forall k, k <> "qa_iteration_history" -> k <> "qa_stats" -> dget k plan' = dget k plan)
        /\ strip_plan_progress plan' = strip_plan_progress plan
        /\ (forall rs d, is_approval_valid md5 rs (with_content d (sd_spec d) (PlanDoc plan'))
                         = is_approval_valid md5 rs (with_content d (sd_spec d) (PlanDoc plan)))
        /\ (load_implementation_plan f = None -> dget "phases" plan' = None)).
Proof.
  intros H record.
  apply record_iteration_inv in H as (plan & h & plan' & types & stats & P & Hh & _ & E & S).
  unfold save_implementation_plan in S. destruct writable; injection S as -> ->.
  2: { split_and!; [done | done | done]. }
  split_and!; [done | done |]. intros _.
  assert (G : forall k, k <> "qa_iteration_history" -> k <> "qa_stats" -> dget k plan' = dget k plan).
  { intros k N1 N2. rewrite E, !dget_dset. apply String.eqb_neq in N1, N2. by rewrite N2, N1. }
  assert (C : strip_plan_progress plan' = strip_plan_progress plan).
  { rewrite E. unfold strip_plan_progress. by rewrite !without_dset. }
  exists plan, plan', h. split_and!; [done | done | | | done | done | |].
  - unfold get_iteration_history. destruct (plan_or_new_object f plan P) as [O|[O Z]]; rewrite O; cbn.
    + unfold the_list in Hh. unfold get_or. destruct (dget _ plan) as [[]|]; try done.
    + subst plan. cbn in Hh. by injection Hh as <-.
  - unfold get_iteration_history. rewrite E, plan_object_set. cbn. unfold get_or.
    by rewrite !dget_dset.
  - intros rs d. unfold is_approval_valid, _compute_spec_hash, with_content, _read_plan, _combine. cbn.
    by rewrite C.
  - intros L. rewrite G by done. unfold plan_or_new in P. rewrite L in P. by injection P as <-.
Qed.

Definition example_issue (title : string) (line : Z) : json :=
  JObj [("title", JStr title); ("file", JStr "app.py"); ("line", JInt line);
        ("type", JStr "bug")].
Definition example_history : list json :=
  [JObj (iteration_record "t1" 1 "rejected" [example_issue "Error: missing null check" 12] None)].
Definition example_file : file := Json (JObj [("feature", JStr "x");
  ("qa_iteration_history", JList example_history)]).

Lemma record_appends_witness :
  exists f', record_iteration true "t2" 2 "approved" [] None example_file = Ok (true, f')
    /\ is_ok (get_iteration_history f') = true.
Proof.
  eexists. split; [by vm_compute|].
  destruct (record_appends (fun s => s) true "t2" 2 "approved" [] None example_file _ true eq_refl)
    as (_ & _ & H).
  destruct (H eq_refl) as (plan & plan' & h & _ & _ & _ & G & _). cbn in G |- *. done.
Defined.

(** The recurrence check counts what was just recorded.  In a review that
    rejects, the iteration is recorded before the history is read, so an issue is found
    recurring when the similar issues of the earlier iterations, the similar issues of this
    one, itself included, and one more make three: one earlier sighting is enough, and so
    is an issue listed twice in one report, where the threshold asks for three. *)
Theorem recurrence_counts_twice (now : string) (it : Z) (current : list json)
    (duration : option json) (f f' : file) (h h' : list json) (b : bool) (l : list json) :
  record_iteration true now it "rejected" current duration f = Ok (true, f') ->
  get_iteration_history f = Ok h -> get_iteration_history f' = Ok h' ->
  has_recurring_issues current h' RECURRING_ISSUE_THRESHOLD = Ok (b, l) ->
  (b = true <-> exists issue, issue ∈ current
      /\ 3 <= 1 + countb (similar issue) (issues_of h) + countb (similar issue) current)
  /\ (forall issue key, issue ∈ current -> _normalize_issue_key issue = Ok key ->
        1 <= countb (similar issue) current
        /\ (0 < countb (similar issue) (issues_of h) -> b = true)).
Proof.
  intros R H H' D.
  apply (record_appends (fun s => s)) in R as (_ & _ & R).
  destruct (R eq_refl) as (plan & plan' & h0 & _ & _ & G & G' & _).
  rewrite G in H. injection H as ->. rewrite G' in H'. injection H' as <-.
  apply has_recurring_spec in D.
  assert (I : issues_of (h ++ [JObj (iteration_record now it "rejected" current duration)])
              = issues_of h ++ current).
  { unfold issues_of. rewrite bind_app. cbn. by rewrite app_nil_r. }
  rewrite I in D.
  assert (B : b = true <-> exists issue, issue ∈ current
      /\ 3 <= 1 + countb (similar issue) (issues_of h) + countb (similar issue) current).
  { rewrite D, andb_true_iff, existsb_spec. split.
    - intros [_ (x & Hx & L)]. apply Nat.leb_le in L. rewrite countb_app in L. exists x.
      split; [done|]. unfold RECURRING_ISSUE_THRESHOLD in L. lia.
    - intros (x & Hx & L). split.
      + destruct current; [by apply elem_of_nil in Hx|]. by destruct (issues_of h).
      + exists x. split; [done|]. apply Nat.leb_le. rewrite countb_app.
        unfold RECURRING_ISSUE_THRESHOLD. lia. }
  split; [done|]. intros x key Hx K.
  assert (S : 0 < countb (similar x) current).
  { apply countb_pos, existsb_spec. exists x. split; [done | by eapply similar_refl]. }
  split; [lia|]. intros P. apply B. exists x. split; [done | lia].
Qed.

(** The second sighting of an issue whose wording and line changed a little. *)
Definition example_found : json := example_issue "Missing null checks" 14.
Definition example_history' : list json :=
  example_history ++ [JObj (iteration_record "t2" 2 "rejected" [example_found] None)].

Lemma recurrence_counts_twice_witness :
  exists f',
    record_iteration true "t2" 2 "rejected" [example_found] None example_file = Ok (true, f')
    /\ get_iteration_history f' = Ok example_history'
    /\ exists l, has_recurring_issues [example_found] example_history'
         RECURRING_ISSUE_THRESHOLD = Ok (true, l).
Proof.
  eexists. split; [by vm_compute|]. split; [by vm_compute|].
  destruct (has_recurring_issues [example_found] example_history' _) as [[b l]|e] eqn:D;
    [|by vm_compute in D].
  exists l. f_equal. f_equal.
  edestruct (recurrence_counts_twice "t2" 2 [example_found] None example_file) as [_ H];
    [by vm_compute | by vm_compute | by vm_compute | exact D |].
  apply (H example_found "missing null checks|app.py|14");
    [apply list_elem_of_here | by vm_compute | by vm_compute; lia].
Defined.
