(* ===== verification/QaLoop.v ===== *)
(** The QA loop (qa/loop.py): review, fix, review again, with the review cycles, the
    iteration history, the recurrence check and the rotation of providers it uses.

    The sessions act on a state the loop sees in part: the plan file, the review cycle file
    and the fix request; the rest of the world is any type [W].  A session, the git check,
    the clock and the file system are arguments ([Hooks]); nothing is assumed of them.
    The steps that a theorem speaks of are recorded as events. *)
From Stdlib Require Import QArith.
From S2P Require Import Prelude PyData ApprovalGate ReviewCycle Providers QaReport EventMonad.
Local Open Scope nat_scope.

Definition MAX_CONSECUTIVE_ERRORS : nat := 3.

Inductive qa_event :=
  | EvLoop (iterations_done : Z)
  | EvReview (iteration : Z) (provider : string) (status : string)
  | EvGitClean
  | EvFix (iteration : Z) (status : string)
  | EvFailover (from_provider to_provider : string)
  | EvEscalated (iteration : Z).

Section qa_loop.
Context {W P : Type}.

Record State := {
  qs_plan : file;             (* implementation_plan.json *)
  qs_cycle : cycle_file;      (* the review cycle *)
  qs_fix_request : bool;      (* QA_FIX_REQUEST.md exists *)
  qs_world : W;
}.

Definition with_plan (s : State) (f : file) : State :=
  {| qs_plan := f; qs_cycle := qs_cycle s; qs_fix_request := qs_fix_request s;
     qs_world := qs_world s |}.
Definition with_cycle (s : State) (f : cycle_file) : State :=
  {| qs_plan := qs_plan s; qs_cycle := f; qs_fix_request := qs_fix_request s;
     qs_world := qs_world s |}.
Definition with_fix_request (s : State) (b : bool) : State :=
  {| qs_plan := qs_plan s; qs_cycle := qs_cycle s; qs_fix_request := b;
     qs_world := qs_world s |}.

#[local] Abbreviation M := (Eff State qa_event).

(** What the next review is told of the last error. *)
Record ErrorContext := { ec_message : string; ec_consecutive : nat }.

Record Hooks := {
  h_model : string -> State -> string;                   (* gates.model *)
  h_requires_review : bool;                              (* gates.requires_review *)
  h_reviewer : P -> Z -> option ErrorContext -> State -> res (string * string) * State;
  h_fixer : P -> Z -> State -> res (string * string) * State;
  h_check_git : State -> res ();
  h_halt : State -> option string;                       (* None also when reading it raises *)
  h_instantiate : string * string -> kwargs -> res P;
  h_hardened : res ();
  h_create_client : string -> res P;
  h_extra_kwargs : string -> string -> res kwargs;       (* get_provider_extra_kwargs *)
  h_manual_plan : State -> res () * State;               (* the no-test project branch *)
  h_escalate : list json -> Z -> State -> res () * State;
  h_cycle_env : State -> Env;
  h_writable : State -> bool;
  h_unlinked : State -> bool;
  h_now : State -> string;
  h_duration : State -> json;
  h_clock : State -> Q;
  h_deadline : option Q;                                 (* AIFACTORY_PROVIDER_DEADLINE_S *)
}.

Context (h : Hooks) (env : environ).

(** ** Providers *)

Definition CODEX_NAMES : list string := ["codex"; "codex-cli"; "openai-codex"].
Definition CLAUDE_NAMES : list string := ["claude"; "claude-sdk"; "anthropic"].
Definition ANTIGRAVITY_NAMES : list string :=
  ["antigravity"; "antigravity-cli"; "gemini"; "gemini-cli"; "google"].
Definition OPENAI_NAMES : list string :=
  ["openai-compatible"; "openai"; "openai-api"; "oai"; "lm-studio"; "lmstudio"; "vllm";
   "openrouter"; "together"; "together-ai"; "groq"; "localai"; "anyscale"; "studio"].

(** The directories and the budget, which are not text, are left out of the arguments. *)
Definition _create_qa_reviewer_provider (name model : string) : res P :=
  let normalised := lower (strip name) in
  let with_model : kwargs := <["model" := Some model]> ∅ in
  if existsb (String.eqb normalised) CLAUDE_NAMES then
    get_qa_llm_provider (h_instantiate h) env name
      (<["agent_type" := Some "qa_reviewer"]> with_model)
  else if existsb (String.eqb normalised) (CODEX_NAMES ++ ANTIGRAVITY_NAMES) then
    get_qa_llm_provider (h_instantiate h) env name with_model
  else if existsb (String.eqb normalised) OPENAI_NAMES then
    let! extra := h_extra_kwargs h "openai-compatible" model in
    get_qa_llm_provider (h_instantiate h) env name extra
  else get_qa_llm_provider (h_instantiate h) env name with_model.

Definition split_once (c : ascii) (s : string) : option string :=
  match split_on c s with _ :: ((_ :: _) as after) => Some (join (String c "") after) | _ => None end.

(** ["ollama:llama3.2"] becomes ["llama3.2"] for the provider [ollama]. *)
Definition actual_model (model provider : string) : string :=
  match split_once ":" model with
  | Some rest => if String.eqb provider "ollama" then rest else model
  | None => model
  end.

(** The client of the fixer. *)
Definition fixer_client (s : State) : res P :=
  let model := h_model h "qa_fixer" s in
  let provider := infer_provider_from_model env model in
  if String.eqb provider "claude" then h_create_client h model
  else
    let! extra := h_extra_kwargs h provider model in
    get_provider (h_instantiate h) (h_hardened h) env provider "qa_fixer"
      (extra ∪ <["model" := Some model]> ∅).

(** ** The pieces of one iteration *)

(** What one iteration hands to the next. *)
Record Carry := {
  c_errors : nat;                       (* consecutive_errors *)
  c_context : option ErrorContext;      (* last_error_context *)
  c_override : option string;           (* qa_provider_override *)
  c_used : list string;                 (* failover_used *)
}.

Definition reset (c : Carry) : Carry :=
  {| c_errors := 0; c_context := None; c_override := c_override c; c_used := c_used c |}.

Inductive outcome := Return (b : bool) | Break | Continue (c : Carry).

Definition request (detail : State -> res (ReviewCycle * cycle_file)) : M ReviewCycle := fun s =>
  match detail s with Ok (c, f) => (Ok c, with_cycle s f, []) | Err e => (Err e, s, []) end.

Definition open_cycle : M ReviewCycle :=
  request (fun s => request_review (h_cycle_env h s) (qs_cycle s)).

Definition prove_started (cycle_id : Z) (status : string) (it : Z) : M () :=
  shielded (request (fun s =>
    record_started (h_cycle_env h s) cycle_id
      (if existsb (String.eqb status) ["approved"; "rejected"] then "reviewer_verdict"
       else "reviewer_output")
      (Some [("status", JStr status); ("qa_iteration", JInt it)]) (qs_cycle s))).

Definition resolve (cycle_id : Z) (approved : bool) : M () :=
  shielded (request (fun s =>
    resolve_review (h_cycle_env h s) cycle_id approved None (qs_cycle s))).

Definition record (it : Z) (status : string) (issues : list json) (timed : bool) : M bool := fun s =>
  match record_iteration (h_writable h s) (h_now h s) it status issues
          (if timed then Some (h_duration h s) else None) (qs_plan s) with
  | Ok (b, f) => (Ok b, with_plan s f, [])
  | Err e => (Err e, s, [])
  end.

Definition plain_issue (title description : string) : json :=
  JObj [("title", JStr title); ("description", JStr description)].

Definition run_fixer (it : Z) : M (string * string) :=
  client ← lift fixer_client;
  r ← hooked (h_fixer h client it);
  emit (EvFix it r.1) ;;
  mret r.

(** The reviewer session and the git check that precedes any verdict. *)
Definition run_reviewer (it : Z) (provider : string) (previous : option ErrorContext)
  : M (Z * string * string) :=
  client ← lift (fun s => _create_qa_reviewer_provider provider
                            (actual_model (h_model h "qa" s) provider));
  cycle ← open_cycle;
  r ← hooked (h_reviewer h client it previous);
  emit (EvReview it provider r.1) ;;
  lift (h_check_git h) ;;
  emit EvGitClean ;;
  (if existsb (String.eqb r.1) ["approved"; "rejected"] || negb (is_empty r.2)
   then prove_started (rc_cycle_id cycle) r.1 it else mret ()) ;;
  mret (rc_cycle_id cycle, r.1, r.2).

Definition on_approved (it cycle_id : Z) : M outcome :=
  resolve cycle_id true ;;
  record it "approved" [] true ;;
  mret (Return true).

(** [qa_status.get("issues_found", []) if qa_status else []] *)
Definition current_issues (s : State) : res (list json) :=
  let! v := get_qa_signoff_status (qs_plan s) in
  let! status := object_of v in
  match status with Some d => get_or as_list "issues_found" [] d | None => Ok [] end.

Definition on_rejected (it cycle_id : Z) (c : Carry) : M outcome :=
  resolve cycle_id false ;;
  issues ← lift current_issues;
  record it "rejected" issues true ;;
  history ← lift (fun s => get_iteration_history (qs_plan s));
  found ← lift (fun _ => has_recurring_issues issues history RECURRING_ISSUE_THRESHOLD);
  if (found : bool * list json).1 then
    hooked (h_escalate h found.2 it) ;;
    emit (EvEscalated it) ;;
    mret (Return false)
  else if (MAX_QA_ITERATIONS <=? it)%Z then mret Break
  else
    fix_ ← run_fixer it;
    if String.eqb (fix_ : string * string).1 "error" then
      record it "error" [plain_issue "Fixer error" fix_.2] false ;;
      mret Break
    else mret (Continue (reset c)).

Definition on_error (it : Z) (response : string) (deadline : DeadlineBudget) (c : Carry)
  : M outcome :=
  let errors := S (c_errors c) in
  record it "error" [plain_issue "QA error" response] false ;;
  let context := {| ec_message := response; ec_consecutive := errors |} in
  if errors <? MAX_CONSECUTIVE_ERRORS then
    mret (Continue {| c_errors := errors; c_context := Some context;
                      c_override := c_override c; c_used := c_used c |})
  else
    current ← lift (fun s => Ok (match c_override c with
                                 | Some p => p
                                 | None => infer_provider_from_model env (h_model h "qa" s)
                                 end));
    let used := (current : string) :: c_used c in
    candidate ← lift (fun _ => next_provider current used env true);
    now ← lift (fun s => Ok (h_clock h s));
    match candidate : option string with
    | Some next =>
        if should_failover (Some response) && negb (expired now deadline) then
          emit (EvFailover current next) ;;
          mret (Continue {| c_errors := 0; c_context := None; c_override := Some next;
                            c_used := used |})
        else mret (Return false)
    | None => mret (Return false)
    end.

(** [qa_provider_override or infer_provider_from_model(qa_model)] *)
Definition turn (it : Z) (deadline : DeadlineBudget) (c : Carry) : M outcome :=
  halted ← lift (fun s => Ok (h_halt h s));
  if opt_truthy halted then mret (Return false)
  else
    provider ← lift (fun s => Ok (match c_override c with
                                  | Some p => p
                                  | None => infer_provider_from_model env (h_model h "qa" s)
                                  end));
    let c := {| c_errors := c_errors c; c_context := c_context c; c_override := c_override c;
                c_used := match c_override c with Some p => p :: c_used c | None => c_used c end |} in
    r ← run_reviewer it provider (c_context c);
    let '(cycle_id, status, response) := r : Z * string * string in
    if String.eqb status "approved" then on_approved it cycle_id
    else if String.eqb status "rejected" then on_rejected it cycle_id c
    else if String.eqb status "error" then on_error it response deadline c
    else mret (Continue c).

(** The report of a run that ends without a verdict. *)
Definition incomplete : M bool :=
  history ← lift (fun s => get_iteration_history (qs_plan s));
  lift (fun _ => get_recurring_issue_summary history) ;;
  mret false.

(** The loop with [n] iterations left; [it] is the last one done. *)
Fixpoint qa_iterations (n : nat) (it : Z) (deadline : DeadlineBudget) (c : Carry) : M bool :=
  match n with
  | O => incomplete
  | S n =>
      o ← turn (it + 1) deadline c;
      match o with
      | Return b => mret b
      | Break => incomplete
      | Continue c => qa_iterations n (it + 1) deadline c
      end
  end.

(** ** The whole run *)

(** A prior approval: kept without review, dropped with it.  [Some b] ends the run. *)
Definition prior_approval : M (option bool) := fun s =>
  match is_qa_approved false (qs_plan s) with
  | Err e => (Err e, s, [])
  | Ok false => (Ok None, s, [])
  | Ok true =>
      if h_requires_review h then
        match plan_or_new (qs_plan s) with
        | Err e => (Err e, s, [])
        | Ok plan =>
            let '(saved, f) := save_implementation_plan (h_writable h s)
                                 (without_keys ["qa_signoff"] plan) (qs_plan s) in
            (Ok (if saved then None else Some false), with_plan s f, [])
        end
      else (Ok (if qs_fix_request s then None else Some true), s, [])
  end.

(** The fixer runs first on human feedback; [false] ends the run.  A file that cannot be
    removed stays. *)
Definition human_feedback (requested : bool) : M bool :=
  if requested then
    r ← run_fixer 0;
    if String.eqb (r : string * string).1 "error" then mret false
    else (fun s => (Ok true, if h_unlinked h s then with_fix_request s false else s, []))
  else mret true.

Definition run_qa_validation_loop : M bool :=
  complete ← lift (fun s => is_build_complete (qs_plan s));
  if negb complete then mret false
  else
    requested ← lift (fun s => Ok (qs_fix_request s));
    prior ← prior_approval;
    match prior : option bool with
    | Some b => mret b
    | None =>
        go_on ← human_feedback requested;
        if negb go_on then mret false
        else
          hooked (h_manual_plan h) ;;
          it ← lift (fun s => get_qa_iteration_count (qs_plan s));
          deadline ← lift (fun s => Ok (new_deadline None (h_deadline h) (h_clock h s)));
          emit (EvLoop it) ;;
          qa_iterations (Z.to_nat (MAX_QA_ITERATIONS - it)) it deadline
            {| c_errors := 0; c_context := None; c_override := None; c_used := [] |}
    end.

(** ** What a log may hold *)

Definition is_review (e : qa_event) : bool := match e with EvReview _ _ _ => true | _ => false end.
Definition is_fix (e : qa_event) : bool := match e with EvFix _ _ => true | _ => false end.
Definition is_loop (e : qa_event) : bool := match e with EvLoop _ => true | _ => false end.
Definition failover_to (e : qa_event) : list string :=
  match e with EvFailover _ p => [p] | _ => [] end.

(** Consecutive errors along a log: no review with three of them pending, a failover only
    with three. *)
Definition strike (k : nat) (e : qa_event) : option nat :=
  match e with
  | EvReview _ _ status =>
      if k <? MAX_CONSECUTIVE_ERRORS then
        Some (if String.eqb status "error" then S k
              else if existsb (String.eqb status) ["approved"; "rejected"] then 0 else k)
      else None
  | EvFailover _ _ => if k =? MAX_CONSECUTIVE_ERRORS then Some 0 else None
  | _ => Some k
  end.
Fixpoint strikes (k : nat) (l : list qa_event) : option nat :=
  match l with
  | [] => Some k
  | e :: l' => match strike k e with Some k' => strikes k' l' | None => None end
  end.

Lemma strikes_app k l l' :
  strikes k (l ++ l') = match strikes k l with Some k' => strikes k' l' | None => None end.
Proof. revert k. induction l as [|e l IH]; intros k; cbn; [done|]. by destruct (strike k e). Qed.

(** ** Reasoning about computations *)

Lemma quiet_request f : quiet (request f).
Proof. intros s. unfold request. by destruct (f s) as [[]|]. Qed.
Lemma quiet_record it status issues timed : quiet (record it status issues timed).
Proof. intros s. unfold record. by destruct (record_iteration _ _ _ _ _ _ _) as [[]|]. Qed.
Lemma quiet_incomplete : quiet incomplete.
Proof. repeat (apply quiet_bind; [apply quiet_lift | intros ?]). apply quiet_ret. Qed.

(** Runs the next computation, which emits nothing: its result [x], or the exception. *)
Ltac quiet_tac :=
  first [ apply quiet_lift | apply quiet_hooked | apply quiet_record | apply quiet_ret
        | apply quiet_request | apply quiet_shielded, quiet_request | apply quiet_incomplete ].
Ltac step x :=
  apply wp_bind, wp_quiet; [quiet_tac|];
  let r := fresh "r" in let s' := fresh "s" in let E := fresh "E" in
  intros r s' E; destruct r as [x|?]; cbn beta iota.

(** ** One iteration *)

Lemma run_reviewer_log it p prev s :
  wp (run_reviewer it p prev) (fun r _ l =>
    (raised r /\ (l = [] \/ exists st, l = [EvReview it p st]))
    \/ exists id st resp, r = Ok (id, st, resp) /\ l = [EvReview it p st; EvGitClean]) s.
Proof.
  unfold run_reviewer. step client; [|left; split; [by eexists | by left]].
  step cycle; [|left; split; [by eexists | by left]].
  step v; [|left; split; [by eexists | by left]].
  apply wp_bind. cbn. apply wp_bind, wp_quiet; [apply quiet_lift|]. intros [x|e] sg _.
  2: { left. split; [by eexists | right; by exists v.1]. }
  apply wp_bind. cbn. apply wp_bind.
  apply wp_quiet; [destruct (_ || _); quiet_tac|]. intros [x'|e] sp Hp.
  - right. by exists (rc_cycle_id cycle), v.1, v.2.
  - exfalso. destruct (_ || _) in Hp; [|done]. unfold prove_started, shielded in Hp.
    by destruct (request _ sg) as [[]].
Qed.

Lemma on_approved_log it id s :
  wp (on_approved it id) (fun r _ l => l = [] /\ (raised r \/ r = Ok (Return true))) s.
Proof.
  unfold on_approved. step x; [|split; [done | left; by eexists]].
  step y; [|split; [done | left; by eexists]]. cbn. split; [done | by right].
Qed.

(** The fixer: an exception before its session, or its event. *)
Lemma run_fixer_log it s :
  wp (run_fixer it) (fun r _ l =>
    (raised r /\ l = []) \/ exists v, r = Ok v /\ l = [EvFix it v.1]) s.
Proof.
  unfold run_fixer. step client; [|left; split; [by eexists | done]].
  step v; [|left; split; [by eexists | done]]. right. by exists v.
Qed.

(** What a rejected review comes to: it is escalated, the loop breaks, or the fixer ran. *)
Lemma on_rejected_log it id c s :
  wp (on_rejected it id c) (fun r _ l =>
    (l = [] /\ (raised r \/ r = Ok Break)) \/ (l = [EvEscalated it] /\ r = Ok (Return false))
    \/ exists st, l = [EvFix it st]
        /\ (raised r \/ r = Ok Break \/ (r = Ok (Continue (reset c)) /\ st <> "error"))) s.
Proof.
  unfold on_rejected.
  step x; [|left; split; [done | left; by eexists]].
  step issues; [|left; split; [done | left; by eexists]].
  step y; [|left; split; [done | left; by eexists]].
  step history; [|left; split; [done | left; by eexists]].
  step found; [|left; split; [done | left; by eexists]].
  destruct found as [b l]. cbn [fst snd]. destruct b.
  { step z; [|left; split; [done | left; by eexists]]. right. by left. }
  destruct (MAX_QA_ITERATIONS <=? it)%Z; [left; split; [done | by right]|].
  apply wp_bind. eapply wp_mono; [apply run_fixer_log|].
  intros r sf lf [[[e ->] ->]|(v & -> & ->)]; [left; split; [done | left; by eexists]|].
  destruct (String.eqb_spec v.1 "error") as [Ev|Nv].
  - step z; [|right; right; exists v.1; split; [done | left; by eexists]].
    right; right. exists v.1. split; [done | by right; left].
  - right; right. exists v.1. split; [done | by right; right].
Qed.

(** What an error comes to. *)
Lemma on_error_log it response deadline c s :
  c_errors c < MAX_CONSECUTIVE_ERRORS ->
  wp (on_error it response deadline c) (fun r _ l =>
    (l = [] /\ (raised r \/ r = Ok (Return false)
       \/ exists c', r = Ok (Continue c') /\ c_errors c' = S (c_errors c)
            /\ c_errors c' < MAX_CONSECUTIVE_ERRORS
            /\ c_override c' = c_override c /\ c_used c' = c_used c))
    \/ exists current next c', l = [EvFailover current next] /\ r = Ok (Continue c')
        /\ S (c_errors c) = MAX_CONSECUTIVE_ERRORS /\ c_errors c' = 0
        /\ c_override c' = Some next /\ c_used c' = current :: c_used c
        /\ should_failover (Some response) = true
        /\ (forall p, c_override c = Some p -> current = p)
        /\ next_provider current (current :: c_used c) env true = Ok (Some next)) s.
Proof.
  intros L. unfold on_error. step x; [|left; split; [done | left; by eexists]].
  destruct (Nat.ltb_spec (S (c_errors c)) MAX_CONSECUTIVE_ERRORS) as [L1|L1].
  { left. split; [done|]. right; right. by eexists. }
  step current; [|left; split; [done | left; by eexists]].
  step candidate; [|left; split; [done | left; by eexists]].
  step now; [|left; split; [done | left; by eexists]].
  destruct candidate as [next|]; [|left; split; [done | by right; left]].
  destruct (should_failover (Some response)) eqn:F; [|left; split; [done | by right; left]].
  cbn [andb]. destruct (negb (expired now deadline)); [|left; split; [done | by right; left]].
  right. exists current, next. eexists. split_and!; try done.
  - unfold MAX_CONSECUTIVE_ERRORS in *. lia.
  - intros p Hp. unfold lift in E0. rewrite Hp in E0. by injection E0 as <- _.
  - unfold lift in E1. by injection E1 as E1 _.
Qed.

(** ** The invariant of an iteration *)

(** The names a failover can no longer choose. *)
Definition blocked (c : Carry) : list string :=
  provider_name <$> (option_list (c_override c) ++ c_used c).

(** A failover chooses a configured provider that was not used and that the operator
    enabled. *)
Definition fresh_provider (used : list string) (p : string) : Prop :=
  (p ∉ used) /\ p ∈ ordered env /\ (exists s, operator_allowlist env = Ok s /\ p ∈ s).

Inductive failovers (c : Carry) : list string -> res outcome -> Prop :=
  | no_failover r : (forall c', r = Ok (Continue c') -> blocked c ⊆ blocked c') -> failovers c [] r
  | one_failover p c' : fresh_provider (blocked c) p -> p ∈ blocked c' -> blocked c ⊆ blocked c' ->
      failovers c [p] (Ok (Continue c')).

Record turn_ok (it : Z) (c : Carry) (r : res outcome) (l : list qa_event) : Prop := {
  t_reviews : countb is_review l <= 1;
  t_fixes : countb is_fix l <= countb is_review l;
  t_once : countb is_loop l = 0;
  t_strikes : exists k, strikes (c_errors c) l = Some k
    /\ forall c', r = Ok (Continue c') -> k = c_errors c' /\ c_errors c' < MAX_CONSECUTIVE_ERRORS;
  t_failovers : failovers c (l ≫= failover_to) r;
  t_true : r = Ok (Return true) -> exists p, l = [EvReview it p "approved"; EvGitClean];
}.

Lemma ordered_normal p : p ∈ ordered env -> provider_name p = p.
Proof. intros H. destruct (ordered_spec env) as [_ F]. rewrite Forall_forall in F. by apply F. Qed.

Lemma next_provider_fresh current used next :
  next_provider current (current :: used) env true = Ok (Some next) ->
  fresh_provider (provider_name <$> (current :: used)) next.
Proof.
  unfold next_provider, enabled_failover_chain. intros H.
  destruct (operator_allowlist env) as [allow|e] eqn:A; [|done]. cbn [mbind res_bind] in H.
  assert (F : List.find (fun c => negb (existsb (String.eqb c) (provider_name <$> current :: used)))
      (keep (fun name => String.eqb name (provider_name current) || bool_decide (name ∈ allow))
         (failover_chain current env)) = Some next) by congruence.
  clear H. apply List.find_some in F as [F1 F2].
  assert (N : next ∉ provider_name <$> current :: used).
  { intros M. apply existsb_eqb in M. by rewrite M in F2. }
  apply list_elem_of_In, elem_of_keep in F1 as [F1 F3]. split_and!; [done | |].
  - apply elem_of_chain in F1 as [->|F1]; [|done]. destruct N. apply list_elem_of_here.
  - exists allow. split; [done|]. apply orb_true_iff in F3 as [F3|F3].
    + apply String.eqb_eq in F3 as ->. destruct N. apply list_elem_of_here.
    + by apply bool_decide_eq_true in F3.
Qed.

(** What [turn] hands to the branches: the override counts as used. *)
Definition entered (c : Carry) : Carry :=
  {| c_errors := c_errors c; c_context := c_context c; c_override := c_override c;
     c_used := match c_override c with Some p => p :: c_used c | None => c_used c end |}.

Lemma blocked_entered c : blocked c ⊆ blocked (entered c).
Proof.
  unfold blocked, entered. cbn. destruct (c_override c) as [p|]; cbn; [|done].
  intros x Hx. by apply list_elem_of_further.
Qed.

Lemma blocked_mono c c' :
  c_override c' = c_override c -> c_used c' = c_used c -> blocked c ⊆ blocked c'.
Proof. unfold blocked. by intros -> ->. Qed.

Lemma no_continue c r : (forall c', r <> Ok (Continue c')) -> failovers c [] r.
Proof. intros N. constructor. intros c' E. by destruct (N c'). Qed.

Lemma turn_quiet it c r : c_errors c < MAX_CONSECUTIVE_ERRORS ->
  (raised r \/ r = Ok (Return false)) -> turn_ok it c r [].
Proof.
  intros L [[e ->]| ->]; (split; [cbn; lia | done | done | by eexists | by apply no_continue | done]).
Qed.

(** The strikes of a turn: the review, then the rest. *)
Lemma strikes_review it p st k l : k < MAX_CONSECUTIVE_ERRORS ->
  strikes k (EvReview it p st :: EvGitClean :: l)
  = strikes (if String.eqb st "error" then S k
             else if existsb (String.eqb st) ["approved"; "rejected"] then 0 else k) l.
Proof. intros L. cbn [strikes strike]. by rewrite (proj2 (Nat.ltb_lt _ _) L). Qed.

Lemma turn_approved it p c r :
  c_errors c < MAX_CONSECUTIVE_ERRORS -> raised r \/ r = Ok (Return true) ->
  turn_ok it c r [EvReview it p "approved"; EvGitClean].
Proof.
  intros L R. split; [cbn; lia | cbn; lia | done | | apply no_continue | by eexists].
  - rewrite strikes_review by done. exists 0. split; [done|].
    by destruct R as [[e ->]| ->].
  - by destruct R as [[e ->]| ->].
Qed.

Lemma turn_rejected it p c r l : c_errors c < MAX_CONSECUTIVE_ERRORS ->
  (l = [] /\ (raised r \/ r = Ok Break)) \/ (l = [EvEscalated it] /\ r = Ok (Return false))
  \/ (exists st, l = [EvFix it st]
      /\ (raised r \/ r = Ok Break \/ (r = Ok (Continue (reset (entered c))) /\ st <> "error"))) ->
  turn_ok it c r (EvReview it p "rejected" :: EvGitClean :: l).
Proof.
  intros L H. assert (S : strikes (c_errors c) (EvReview it p "rejected" :: EvGitClean :: l) = Some 0
    /\ countb is_review l = 0 /\ countb is_fix l <= 1 /\ countb is_loop l = 0
    /\ l ≫= failover_to = []
    /\ (forall c', r = Ok (Continue c') -> c' = reset (entered c)) /\ r <> Ok (Return true)).
  { rewrite strikes_review by done.
    destruct H as [[-> [[e ->]| ->]]|[[-> ->]|(st & -> & [[e ->]|[->|[-> _]]])]];
      (split_and!; [done | done | cbn; lia | done | done | by intros c' [=] | done]). }
  destruct S as (S & R & F & O & T & C & N). split.
  - rewrite !countb_cons, R. cbn. lia.
  - rewrite !countb_cons, R. cbn. lia.
  - by rewrite !countb_cons, O.
  - exists 0. split; [done|]. intros c' ->%C. unfold MAX_CONSECUTIVE_ERRORS. cbn. lia.
  - cbn. rewrite T. constructor. intros c' ->%C. etrans; [apply blocked_entered|].
    by apply blocked_mono.
  - done.
Qed.

Lemma turn_error it p response deadline c s : c_errors c < MAX_CONSECUTIVE_ERRORS ->
  wp (on_error it response deadline (entered c))
    (fun r _ l => turn_ok it c r (EvReview it p "error" :: EvGitClean :: l)) s.
Proof.
  intros L. eapply wp_mono; [by apply on_error_log|].
  intros r s' l [[-> R]|(current & next & c' & -> & -> & K & E & O & U & _ & Cu & N)].
  - assert (S : forall c', r = Ok (Continue c') ->
      c_errors c' = S (c_errors c) /\ c_errors c' < MAX_CONSECUTIVE_ERRORS /\ blocked c ⊆ blocked c').
    { intros c' ->. destruct R as [[e [=]]|[[=]|(c0 & [= <-] & Ec & Lc & Oc & Uc)]].
      split_and!; [done | done|]. etrans; [apply blocked_entered|]. by apply blocked_mono. }
    split; [cbn; lia | cbn; lia | done | | constructor; apply S |].
    + rewrite strikes_review by done. eexists. split; [reflexivity|].
      intros c' ->. destruct (S c' eq_refl) as (-> & ? & _). done.
    + intros ->. by destruct R as [[e [=]]|[[=]|(c0 & [=] & _)]].
  - cbn [entered c_errors] in K, U. apply next_provider_fresh in N as (N1 & N2 & N3).
    assert (Nn : provider_name next = next) by (by apply ordered_normal in N2).
    split; [cbn; lia | cbn; lia | done | | | done].
    + rewrite strikes_review by done. cbn [String.eqb Ascii.eqb Bool.eqb]. rewrite K. exists 0.
      split; [done|]. intros c0 [= <-]. rewrite E. split; [done|]. unfold MAX_CONSECUTIVE_ERRORS. lia.
    + assert (B : blocked c ⊆ provider_name <$> current :: c_used (entered c)).
      { unfold blocked, entered in *. cbn in *. destruct (c_override c) as [q|]; cbn.
        - intros x Hx. by apply list_elem_of_further.
        - intros x Hx. by apply list_elem_of_further. }
      assert (B' : blocked c' = next :: (provider_name <$> current :: c_used (entered c))).
      { unfold blocked. rewrite O, U. cbn. by rewrite Nn. }
      cbn. apply one_failover.
      * split; [|done]. intros M. by apply N1, B.
      * rewrite B'. apply list_elem_of_here.
      * rewrite B'. intros x Hx. by apply list_elem_of_further, B.
Qed.

Lemma turn_spec it deadline c s : c_errors c < MAX_CONSECUTIVE_ERRORS ->
  wp (turn it deadline c) (fun r _ l => turn_ok it c r l) s.
Proof.
  intros L. unfold turn. step halted; [|apply turn_quiet; [done | left; by eexists]].
  destruct (opt_truthy halted); [by apply turn_quiet; [|right]|].
  step provider; [|apply turn_quiet; [done | left; by eexists]].
  apply wp_bind. eapply wp_mono; [apply run_reviewer_log|].
  intros r sr l [[[e ->] [->|(st & ->)]]|(id & st & resp & -> & ->)].
  - apply turn_quiet; [done | left; by eexists].
  - split; [cbn; lia | cbn; lia | done | | by apply no_continue | done].
    cbn [app strikes strike]. rewrite (proj2 (Nat.ltb_lt _ _) L). by eexists.
  - cbn beta iota. destruct (String.eqb_spec st "approved") as [->|N1].
    { eapply wp_mono; [apply on_approved_log|]. intros r' s'' l' [-> R]. by apply turn_approved. }
    destruct (String.eqb_spec st "rejected") as [->|N2].
    { eapply wp_mono; [apply on_rejected_log|]. intros r' s'' l' H. by apply turn_rejected. }
    destruct (String.eqb_spec st "error") as [->|N3]; [by apply turn_error|].
    apply String.eqb_neq in N1, N2, N3.
    split; [cbn; lia | cbn; lia | done | | | done].
    + cbn [app]. rewrite strikes_review by done. rewrite N3. cbn [existsb]. rewrite N1, N2.
      exists (c_errors c). split; [done|]. by intros c' [= <-].
    + cbn. constructor. intros c' [= <-]. apply blocked_entered.
Qed.

(** ** The loop *)

Record loop_ok (n : nat) (c : Carry) (r : res bool) (l : list qa_event) : Prop := {
  l_reviews : countb is_review l <= n;
  l_fixes : countb is_fix l <= countb is_review l;
  l_once : countb is_loop l = 0;
  l_strikes : is_Some (strikes (c_errors c) l);
  l_distinct : NoDup (l ≫= failover_to);
  l_fresh : forall p, p ∈ l ≫= failover_to -> fresh_provider (blocked c) p;
  l_true : r = Ok true -> exists l0 it p, l = l0 ++ [EvReview it p "approved"; EvGitClean];
}.

Lemma loop_quiet n c r : r <> Ok true -> loop_ok n c r [].
Proof. intros N. split; [cbn; lia | done | done | by eexists | constructor | by intros p ?%elem_of_nil | done]. Qed.

Lemma incomplete_false s : wp incomplete (fun r _ l => l = [] /\ r <> Ok true) s.
Proof. unfold incomplete. step hist; [|done]. step summary; [|done]. done. Qed.

Lemma fresh_mono B B' p : B ⊆ B' -> fresh_provider B' p -> fresh_provider B p.
Proof. intros S (N & R). split; [|done]. intros M. by apply N, S. Qed.

Lemma turn_ends it n c r o l : turn_ok it c o l -> (forall c', o <> Ok (Continue c')) ->
  (r = Ok true -> o = Ok (Return true)) -> loop_ok (S n) c r l.
Proof.
  intros T N R. destruct T as [T1 T2 To (k & T3 & _) T4 T5].
  split; [lia | done | done | by exists k | | |].
  - destruct T4; [constructor | by edestruct N].
  - destruct T4; [by intros p ?%elem_of_nil | by edestruct N].
  - intros Hr. destruct (T5 (R Hr)) as (p & ->). by exists [], it, p.
Qed.

Lemma turn_goes_on it n c c' r l l' :
  turn_ok it c (Ok (Continue c')) l -> loop_ok n c' r l' -> loop_ok (S n) c r (l ++ l').
Proof.
  intros [T1 T2 To (k & T3 & Tk) T4 T5] [L1 L2 Lo L3 L4 L5 L6].
  destruct (Tk c' eq_refl) as [-> _]. split.
  - rewrite countb_app. lia.
  - rewrite !countb_app. lia.
  - by rewrite countb_app, To, Lo.
  - by rewrite strikes_app, T3.
  - rewrite bind_app. inversion T4 as [r0 H|p c0 F I B]; subst; [done|]. cbn.
    apply NoDup_cons. split; [|done]. intros M. by destruct (L5 p M).
  - intros p. rewrite bind_app, elem_of_app. inversion T4 as [r0 H|q c0 F I B]; subst.
    + intros [M|M]; [by apply elem_of_nil in M|]. eapply fresh_mono; [by apply H | by apply L5].
    + intros [->%list_elem_of_singleton|M]; [done|]. eapply fresh_mono; [done | by apply L5].
  - intros Hr. destruct (L6 Hr) as (l0 & it' & p & ->). exists (l ++ l0), it', p. by rewrite app_assoc.
Qed.

Lemma qa_iterations_ok deadline n : forall it c s, c_errors c < MAX_CONSECUTIVE_ERRORS ->
  wp (qa_iterations n it deadline c) (fun r _ l => loop_ok n c r l) s.
Proof.
  induction n as [|n IH]; intros it c s L; cbn [qa_iterations].
  - eapply wp_mono; [apply incomplete_false|]. intros r s' l [-> N]. by apply loop_quiet.
  - apply wp_bind. eapply wp_mono; [by apply turn_spec|]. intros [o|e] s' l T.
    2: { by eapply turn_ends. }
    destruct o as [b| |c'].
    + cbn. rewrite app_nil_r. eapply turn_ends; [done | done|]. by intros [= ->].
    + eapply wp_mono; [apply incomplete_false|]. intros r s'' l' [-> N]. rewrite app_nil_r.
      by eapply turn_ends.
    + pose proof (t_strikes _ _ _ _ T) as (k & _ & Hk). destruct (Hk c' eq_refl) as [_ L'].
      eapply wp_mono; [by apply IH|]. intros r s'' l'. by eapply turn_goes_on.
Qed.

(** The whole run: an early end, or the loop after the human feedback. *)
Definition run_ok (s : State) (r : res bool) (s' : State) (l : list qa_event) : Prop :=
  (countb is_review l = 0 /\ countb is_fix l <= 1 /\ l ≫= failover_to = []
   /\ strikes 0 l = Some 0 /\ (forall it, EvLoop it ∉ l)
   /\ (r = Ok true -> is_build_complete (qs_plan s) = Ok true /\ h_requires_review h = false
        /\ qs_fix_request s = false /\ is_qa_approved false (qs_plan s) = Ok true
        /\ s' = s /\ l = []))
  \/ (is_build_complete (qs_plan s) = Ok true
      /\ exists l0 it l1, l = l0 ++ EvLoop it :: l1
        /\ (l0 = [] \/ exists st, l0 = [EvFix 0 st])
        /\ loop_ok (Z.to_nat (MAX_QA_ITERATIONS - it))
             {| c_errors := 0; c_context := None; c_override := None; c_used := [] |} r l1).

Lemma run_early s r s' l : (l = [] \/ exists st, l = [EvFix 0 st]) ->
  (r = Ok true -> is_build_complete (qs_plan s) = Ok true /\ h_requires_review h = false
        /\ qs_fix_request s = false /\ is_qa_approved false (qs_plan s) = Ok true
        /\ s' = s /\ l = []) ->
  run_ok s r s' l.
Proof.
  intros L T. left. destruct L as [->|(st & ->)].
  - split_and!; [done | cbn; lia | done | done | by intros it ?%elem_of_nil | done].
  - split_and!; [done | cbn; lia | done | done | | done].
    intros it M. apply list_elem_of_singleton in M. done.
Qed.

Lemma human_feedback_log b s :
  wp (human_feedback b) (fun r _ l => l = [] \/ exists st, l = [EvFix 0 st]) s.
Proof.
  unfold human_feedback. destruct b; [|by left]. apply wp_bind.
  eapply wp_mono; [apply run_fixer_log|]. intros r s' l [[[e ->] ->]|(v & -> & ->)]; [by left|].
  destruct (String.eqb v.1 "error"); right; by exists v.1.
Qed.

Lemma quiet_prior : quiet prior_approval.
Proof.
  intros s0. unfold prior_approval. destruct (is_qa_approved _ _) as [[]|]; [|done..].
  destruct (h_requires_review h); [|done]. destruct (plan_or_new _); [|done].
  by destruct (save_implementation_plan _ _ _).
Qed.

Lemma run_spec s : wp run_qa_validation_loop (run_ok s) s.
Proof.
  unfold run_qa_validation_loop. apply wp_bind, wp_quiet; [quiet_tac|].
  intros [complete|e] s1 E1; [|by apply run_early; [left|]].
  unfold lift in E1. injection E1 as E1 <-.
  destruct complete; cbn [negb]; [|by apply run_early; [left|]].
  apply wp_bind, wp_quiet; [quiet_tac|]. intros [requested|e] s2 E2; [|by apply run_early; [left|]].
  unfold lift in E2. injection E2 as <- <-.
  apply wp_bind, wp_quiet; [apply quiet_prior|].
  intros [[b|]|e] s3 E3; [| |by apply run_early; [left|]].
  - cbn. apply run_early; [by left|]. intros [= ->]. unfold prior_approval in E3.
    destruct (is_qa_approved false (qs_plan s)) as [[]|]; [|done..].
    destruct (h_requires_review h).
    + destruct (plan_or_new _); [|done]. by destruct (save_implementation_plan _ _ _) as [[] ?].
    + destruct (qs_fix_request s); [done|]. by injection E3 as <-.
  - apply wp_bind. eapply wp_mono; [apply human_feedback_log|]. intros [go|e] s4 l0 L0.
    2: { apply run_early; [|done]. by rewrite !app_nil_l. }
    destruct go; cbn [negb]; [|cbn; rewrite app_nil_r; by apply run_early].
    apply wp_bind, wp_quiet; [quiet_tac|].
    intros [x|e] s5 _; [|rewrite app_nil_r; by apply run_early].
    apply wp_bind, wp_quiet; [quiet_tac|].
    intros [it|e] s6 _; [|rewrite app_nil_r; by apply run_early].
    apply wp_bind, wp_quiet; [quiet_tac|].
    intros [deadline|e] s7 _; [|rewrite app_nil_r; by apply run_early].
    apply wp_bind. cbn. eapply wp_mono; [apply qa_iterations_ok; unfold MAX_CONSECUTIVE_ERRORS; cbn; lia|].
    intros r s8 l1 L1. right. split; [done|]. by exists l0, it, l1.
Qed.

(** ** The review cycle of an approval *)

(** The reviewer leaves the cycle file alone, and writes of it succeed. *)
Definition cycle_kept : Prop :=
  (forall p it e s, qs_cycle (h_reviewer h p it e s).2 = qs_cycle s)
  /\ (forall s, write_ok (h_cycle_env h s) = true).

Definition holds_cycle (s : State) (id : Z) (st : CycleState) : Prop :=
  exists c, qs_cycle s = Document (JObj (ReviewCycle_to_dict c))
            /\ rc_cycle_id c = id /\ rc_state c = st /\ rc_proof c <> None.

Lemma write_succeeds s c : cycle_kept ->
  atomic_write_cycle (h_cycle_env h s) c
  = Ok (stamp (at_write (h_cycle_env h s)) c,
        Document (JObj (ReviewCycle_to_dict (stamp (at_write (h_cycle_env h s)) c)))).
Proof. intros [_ K]. unfold atomic_write_cycle. by rewrite K. Qed.

Lemma started_cycle s c status it : cycle_kept ->
  qs_cycle s = Document (JObj (ReviewCycle_to_dict c)) -> rc_state c = REQUESTED ->
  rc_proof c = None ->
  holds_cycle (prove_started (rc_cycle_id c) status it s).1.2 (rc_cycle_id c) STARTED.
Proof.
  intros K F R N. unfold prove_started, shielded, request, record_started, current_cycle.
  rewrite F, load_document. cbn [mbind res_bind].
  rewrite bool_decide_eq_false_2 by (intros X; by apply X). cbn [mbind res_bind].
  rewrite R. cbn [mbind res_bind].
  change (ensure_transition REQUESTED STARTED) with (Ok tt : res unit). cbn [mbind res_bind].
  replace (rc_proof (set_started _ c)) with (None : option EngagementProof) by (by cbn).
  rewrite (write_succeeds s _ K). cbn [fst snd].
  eexists. cbn [qs_cycle with_cycle]. split; [reflexivity|]. split_and!; [done | done | done].
Qed.

Lemma resolved_cycle s id : cycle_kept -> holds_cycle s id STARTED ->
  holds_cycle (resolve id true s).1.2 id APPROVED.
Proof.
  intros K (c & F & I & R & N). unfold resolve, shielded, request, resolve_review, current_cycle.
  rewrite F, load_document. cbn [mbind res_bind].
  rewrite bool_decide_eq_false_2 by (intros X; by apply X). cbn [mbind res_bind].
  rewrite R. change (ensure_transition STARTED APPROVED) with (Ok tt : res unit).
  cbn [mbind res_bind]. rewrite (write_succeeds s _ K). cbn [fst snd].
  eexists. cbn [qs_cycle with_cycle]. split; [reflexivity|]. by split_and!.
Qed.

Lemma run_reviewer_cycle it p prev s : cycle_kept ->
  wp (run_reviewer it p prev) (fun r s' _ => forall id resp,
    r = Ok (id, "approved", resp) -> holds_cycle s' id STARTED) s.
Proof.
  intros K. unfold run_reviewer. step client; [|done].
  apply wp_bind, wp_quiet; [quiet_tac|]. intros [c|e] s1 C; [|done].
  apply wp_bind, wp_quiet; [quiet_tac|]. intros [v|e] s2 V; [|done].
  apply wp_bind. cbn. apply wp_bind, wp_quiet; [quiet_tac|]. intros [x|e] s3 G; [|done].
  apply wp_bind. cbn. apply wp_bind. cbn beta iota.
  match goal with |- context [if ?b then _ else _] => destruct b eqn:B end.
  2: { cbn. intros id resp [= _ Ev _]. by rewrite Ev in B. }
  unfold wp. destruct (prove_started (rc_cycle_id c) v.1 it s3) as [[r s4] l] eqn:S.
  destruct r as [u|e]; [|done]. cbn. intros id resp [= <- _ _].
  replace s4 with ((prove_started (rc_cycle_id c) v.1 it s3).1.2) by (by rewrite S).
  unfold lift in G. injection G as _ <-.
  assert (Kv := proj1 K client it prev s1). unfold hooked in V.
  destruct (h_reviewer h client it prev s1) as [rv sv]. injection V as _ <-. cbn [snd] in Kv.
  unfold open_cycle, request, request_review in C.
  destruct (load_cycle (at_load (h_cycle_env h s0)) (qs_cycle s0)) as [prevc|]; [|done].
  cbn [mbind res_bind] in C. rewrite (write_succeeds _ _ K) in C. injection C as <- <-.
  by apply started_cycle.
Qed.

(** An approved turn leaves its cycle approved. *)
Lemma turn_cycle it deadline c s : cycle_kept ->
  wp (turn it deadline c) (fun r s' _ =>
    r = Ok (Return true) -> exists id, holds_cycle s' id APPROVED) s.
Proof.
  intros K. unfold turn. step halted; [|done]. destruct (opt_truthy halted); [done|].
  step provider; [|done]. apply wp_bind. eapply wp_mono; [by apply run_reviewer_cycle|].
  intros [[[id st] resp]|e] sr l H1; [|done]. cbn beta iota.
  destruct (String.eqb_spec st "approved") as [->|_].
  { specialize (H1 id resp eq_refl). unfold on_approved.
    apply wp_bind, wp_quiet; [quiet_tac|]. intros [x|e] sx R; [|done].
    apply wp_bind, wp_quiet; [quiet_tac|]. intros [y|e] sy D; [|done].
    cbn. intros _. exists id. apply (resolved_cycle _ _ K) in H1. rewrite R in H1. cbn in H1.
    unfold record in D. destruct (record_iteration _ _ _ _ _ _ _) as [[b f]|]; [|done].
    injection D as _ <-. exact H1. }
  destruct (String.eqb st "rejected").
  { eapply wp_mono; [apply on_rejected_log|]. intros r sz l' H2 ->. exfalso.
    destruct H2 as [(_ & [[? [=]]|[=]])|[(_ & [=])|(? & _ & [[? [=]]|[[=]|[[=] _]]])]]. }
  destruct (String.eqb st "error"); [|done].
  unfold on_error. step x; [|done]. destruct (S (c_errors _) <? MAX_CONSECUTIVE_ERRORS); [done|].
  step current; [|done]. step candidate; [|done]. step now; [|done].
  destruct candidate as [next|]; [|done]. destruct (should_failover _ && _); [|done].
  apply wp_bind. done.
Qed.

Lemma iterations_cycle deadline n : cycle_kept -> forall it c s,
  wp (qa_iterations n it deadline c) (fun r s' _ =>
    r = Ok true -> exists id, holds_cycle s' id APPROVED) s.
Proof.
  intros K. induction n as [|n IH]; intros it c s; cbn [qa_iterations].
  - eapply wp_mono; [apply incomplete_false|]. intros r s' l [_ N] E. by destruct N.
  - apply wp_bind. eapply wp_mono; [by apply turn_cycle|]. intros [o|e] s' l T; [|done].
    destruct o as [b| |c'].
    + cbn. intros [= ->]. by apply T.
    + eapply wp_mono; [apply incomplete_false|]. intros r s'' l' [_ N] E. by destruct N.
    + apply IH.
Qed.

Lemma run_cycle s : cycle_kept ->
  wp run_qa_validation_loop (fun r s' l =>
    r = Ok true -> l <> [] -> exists id, holds_cycle s' id APPROVED) s.
Proof.
  intros K. unfold run_qa_validation_loop. step complete; [|done].
  destruct (negb complete); [done|]. step requested; [|done].
  apply wp_bind. unfold wp at 1.
  match goal with |- context [prior_approval ?x] => destruct (prior_approval x) as [[prior sp] l0] eqn:E1 end.
  assert (l0 = []) as ->.
  { match type of E1 with prior_approval ?x = _ => pose proof (quiet_prior x) as Q end.
    by rewrite E1 in Q. }
  destruct prior as [[b|]|e]; [intros _ Hl; by destruct Hl | | done].
  apply wp_bind. unfold wp at 1. destruct (human_feedback requested sp) as [[go sf] l1].
  destruct go as [go|e]; [|done]. destruct go; [|done]. cbn [negb].
  step x; [|done]. step it; [|done]. step deadline; [|done]. apply wp_bind. cbn.
  eapply wp_mono; [by apply iterations_cycle|]. intros r sl l2 H Er _. by apply H.
Qed.
End qa_loop.

Arguments Hooks : clear implicits.
Arguments State : clear implicits.

(** ** Properties *)

(** C17 (safety): a build is reported approved only when a review approved it.  A run that
    returns True either found the plan approved before, with no review required and no
    human feedback waiting, and did nothing; or its last steps are the session of a
    reviewer that approved and the git check that passed after it, with the build complete
    when it began.  When review is required, an approval that was already in the plan is
    never enough. *)
Theorem qa_verdict_is_earned {W P} (h : Hooks W P) (env : environ) (s s' : State W)
    (l : list qa_event) :
  run_qa_validation_loop h env s = (Ok true, s', l) ->
  is_build_complete (qs_plan s) = Ok true
  /\ ((h_requires_review h = false /\ qs_fix_request s = false
       /\ is_qa_approved false (qs_plan s) = Ok true /\ s' = s /\ l = [])
      \/ exists l0 it p, l = l0 ++ [EvReview it p "approved"; EvGitClean]).
Proof.
  intros R. destruct (wp_run _ _ _ _ _ _ (run_spec h env s) R)
    as [(_ & _ & _ & _ & _ & T)|(B & l0 & it & l1 & -> & _ & L)].
  - destruct (T eq_refl) as (B & T'). split; [done | by left].
  - split; [done|]. right. destruct (l_true _ _ _ _ _ L eq_refl) as (l2 & it' & p & ->).
    exists (l0 ++ EvLoop it :: l2), it', p. by rewrite <- app_assoc.
Qed.

(** C30 (termination): the loop is bounded.  Whatever the sessions do, a run makes at most
    as many reviews as iterations were left when the loop began, and at most one fix for
    each review besides the one for human feedback; after three consecutive errors no
    review follows before a failover, which comes only then; and each failover is to
    another configured and enabled provider, so there are no more failovers than
    configured providers. *)
Theorem qa_loop_is_bounded {W P} (h : Hooks W P) (env : environ) (s s' : State W)
    (r : res bool) (l : list qa_event) :
  run_qa_validation_loop h env s = (r, s', l) ->
  (forall it, EvLoop it ∈ l -> countb is_review l <= Z.to_nat (MAX_QA_ITERATIONS - it))
  /\ ((forall it, EvLoop it ∉ l) -> countb is_review l = 0)
  /\ countb is_fix l <= S (countb is_review l)
  /\ is_Some (strikes 0 l)
  /\ NoDup (l ≫= failover_to)
  /\ (forall p, p ∈ l ≫= failover_to ->
        p ∈ ordered env /\ exists a, operator_allowlist env = Ok a /\ p ∈ a)
  /\ length (l ≫= failover_to) <= length (configured_chain env).
Proof.
  intros R.
  assert (F : NoDup (l ≫= failover_to) /\ (forall p, p ∈ l ≫= failover_to ->
     p ∈ ordered env /\ exists a, operator_allowlist env = Ok a /\ p ∈ a)
     -> length (l ≫= failover_to) <= length (configured_chain env)).
  { intros [N I]. etrans; [|apply ordered_length]. apply submseteq_length.
    apply NoDup_submseteq; [done|]. intros p Hp. by apply I. }
  enough (G : (forall it, EvLoop it ∈ l -> countb is_review l <= Z.to_nat (MAX_QA_ITERATIONS - it))
    /\ ((forall it, EvLoop it ∉ l) -> countb is_review l = 0)
    /\ countb is_fix l <= S (countb is_review l) /\ is_Some (strikes 0 l)
    /\ NoDup (l ≫= failover_to) /\ (forall p, p ∈ l ≫= failover_to ->
        p ∈ ordered env /\ exists a, operator_allowlist env = Ok a /\ p ∈ a)) by naive_solver.
  clear F. destruct (wp_run _ _ _ _ _ _ (run_spec h env s) R)
    as [(V & X & F & K & N & _)|(_ & l0 & it & l1 & -> & H0 & [L1 L2 Lo L3 L4 L5 _])].
  - split_and!; [| done | lia | by eexists | rewrite F; constructor |].
    + intros it M. by destruct (N it).
    + rewrite F. by intros p ?%elem_of_nil.
  - assert (Z : countb is_review l0 = 0 /\ countb is_fix l0 <= 1 /\ l0 ≫= failover_to = []
       /\ strikes 0 l0 = Some 0 /\ (forall it', EvLoop it' ∉ l0)).
    { destruct H0 as [->|(st & ->)]; (split_and!; [done | cbn; lia | done | done |]).
      - by intros it' ?%elem_of_nil.
      - by intros it' ?%list_elem_of_singleton. }
    destruct Z as (Z1 & Z2 & Z3 & Z4 & Z5).
    assert (T : (l0 ++ EvLoop it :: l1) ≫= failover_to = l1 ≫= failover_to).
    { by rewrite bind_app, Z3. }
    rewrite T, !countb_app, !countb_cons, Z1. cbn [is_review is_fix].
    split_and!; [ | intros N; destruct (N it); set_solver | lia | | done |].
    + intros it' M. rewrite elem_of_app, elem_of_cons in M.
      destruct M as [M|[[= ->]|M]]; [by destruct (Z5 it') | lia|].
      apply countb_none in Lo. rewrite existsb_false in Lo. by specialize (Lo _ M).
    + by rewrite strikes_app, Z4.
    + intros p Hp. by destruct (L5 p Hp) as (_ & ? & ?).
Qed.

(** The approval of a run is on record in its review cycle.  When the reviewer
    leaves the cycle file alone and writes of it succeed, a run that ends True after a
    review leaves the cycle it opened approved, with proof of engagement: the errors the
    loop swallows around its bookkeeping do not happen. *)
Theorem approval_resolves_cycle {W P} (h : Hooks W P) (env : environ) (s s' : State W)
    (l : list qa_event) :
  cycle_kept h ->
  run_qa_validation_loop h env s = (Ok true, s', l) -> l <> [] ->
  exists id, holds_cycle s' id APPROVED.
Proof. intros K R N. by apply (wp_run _ _ _ _ _ _ (run_cycle h env s K) R). Qed.

(** ** An example run

    The sessions of the Antigravity provider fail, those of Claude approve; the world is the
    list of classes and models the sessions ran with. *)
Definition example_world : Type := list (string * string).

Definition example_hooks : Hooks example_world (string * string) := {|
  h_model _ _ := "gemini-2.5-pro";
  h_requires_review := true;
  h_reviewer client it previous s :=
    (Ok (if String.eqb client.1 "ClaudeProvider" then ("approved", "fine") else ("error", "timed out")),
     {| qs_plan := qs_plan s; qs_cycle := qs_cycle s; qs_fix_request := qs_fix_request s;
        qs_world := qs_world s ++ [client] |});
  h_fixer client it s := (Ok ("fixed", ""), s);
  h_check_git _ := Ok tt;
  h_halt _ := None;
  h_instantiate cls kw := Ok (cls.2, default "" (mjoin (kw !! "model")));
  h_hardened := Ok tt;
  h_create_client model := Ok ("ClaudeProvider", model);
  h_extra_kwargs _ _ := Ok ∅;
  h_manual_plan s := (Ok tt, s);
  h_escalate _ _ s := (Ok tt, s);
  h_cycle_env _ := {| at_load := "t"; at_change := "t"; at_proof := "t"; at_write := "t";
                      write_ok := true |};
  h_writable _ := true;
  h_unlinked _ := true;
  h_now _ := "t";
  h_duration _ := JInt 1;
  h_clock _ := 0%Q;
  h_deadline := None;
|}.

Definition example_env : environ := {[ALLOWLIST_ENV := "gemini"]}.

(** A complete build whose plan claims an approval. *)
Definition example_start : State example_world := {|
  qs_plan := Json (JObj
    [("phases", JList [JObj [("subtasks", JList [JObj [("id", JStr "s1"); ("status", JStr "completed")]])]]);
     ("qa_signoff", JObj [("status", JStr "approved"); ("qa_session", JInt 9)])]);
  qs_cycle := NoFile; qs_fix_request := false; qs_world := [] |}.

Definition example_log : list qa_event :=
  [EvLoop 0; EvReview 1 "antigravity" "error"; EvGitClean;
   EvReview 2 "antigravity" "error"; EvGitClean; EvReview 3 "antigravity" "error"; EvGitClean;
   EvFailover "antigravity" "claude"; EvReview 4 "claude" "approved"; EvGitClean].

(** The claimed approval is dropped, three errors lead to a failover, and the session on
    the next provider runs with the model chosen for the first. *)
Lemma failover_keeps_the_model :
  exists s', run_qa_validation_loop example_hooks example_env example_start = (Ok true, s', example_log)
    /\ last (qs_world s') = Some ("ClaudeProvider", "gemini-2.5-pro").
Proof. eexists. split; by vm_compute. Qed.

Lemma example_run : exists s',
  run_qa_validation_loop example_hooks example_env example_start = (Ok true, s', example_log).
Proof. eexists. by vm_compute. Qed.

Lemma qa_verdict_is_earned_witness :
  is_build_complete (qs_plan example_start) = Ok true
  /\ exists l0 it p, example_log = l0 ++ [EvReview it p "approved"; EvGitClean].
Proof.
  destruct example_run as [s' R].
  destruct (qa_verdict_is_earned example_hooks example_env example_start s' example_log R)
    as [B [(H & _)|H]]; [discriminate H|]. split; [exact B | exact H].
Defined.

Lemma qa_loop_is_bounded_witness :
  countb is_review example_log <= 10 /\ is_Some (strikes 0 example_log)
  /\ length (example_log ≫= failover_to) <= length (configured_chain example_env).
Proof.
  destruct example_run as [s' R].
  destruct (qa_loop_is_bounded example_hooks example_env example_start s' _ example_log R)
    as (B & _ & _ & S & _ & _ & L).
  split; [apply (B 0%Z), list_elem_of_here | split; [exact S | exact L]].
Defined.

Lemma approval_resolves_cycle_witness :
  cycle_kept example_hooks
  /\ exists (s' : State example_world) id, holds_cycle s' id APPROVED.
Proof.
  assert (K : cycle_kept example_hooks) by (split; done). split; [exact K|].
  destruct example_run as [s' R]. exists s'.
  apply (approval_resolves_cycle example_hooks example_env example_start s' example_log K R).
  discriminate.
Defined.
